(* ===== verification/_CoqProject ===== *)
-Q . S2P
Prelude.v
Mem.v
Riscv.v
Locks.v
Spinlock.v
Kalloc.v
Vm.v
VmTree.v
VmOps.v
Space.v
Cow.v
Fault.v
Copy.v
Grow.v
SpaceCheck.v
VmProps.v
Proc.v
Sched.v
ProcFacts.v
ProcProps.v
SchedProps.v
Kernel.v
KernelFacts.v
Boot.v
Asm.v
Sleeplock.v
Uart.v
Printf.v
Console.v
Bio.v
BioRing.v
BioFacts.v
Bytes.v
Log.v
LogProps.v
LogCrash.v
LogInstall.v
LogCommit.v
BioProps.v
Rely.v
Virtio.v
VirtioFacts.v
VirtioInv.v
VirtioProps.v
VirtioSafe.v
LogTxn.v
Fs.v
Inode.v
FsRead.v
Mkfs.v
MkfsProps.v
MkfsMain.v
MkfsRead.v
PipeProps.v
FileTab.v
Life.v
Exec.v
Syscall.v
Sysfile.v
Trap.v
Pthread.v
Cafe.v
CafeFacts.v
CafeProps.v
Parlor.v
ParlorProps.v
Ulib.v
UPrintf.v
Uprogs.v
GrepProps.v
Sh.v
ShFacts.v
ShParse.v
ShTotal.v
ShProps.v
ShRun.v
ShMain.v
Umalloc.v
UmallocFacts.v
UmallocProps.v
