(* ===== verification/Prelude.v ===== *)
(** * A verification of xv6 with copy-on-write fork and priority scheduling,
      and of two POSIX-thread simulations

    The repository has an xv6 kernel for RISC-V (src/initial-xv6/src/kernel),
    extended with copy-on-write fork (reference counts in kalloc.c, cowalloc in
    vm.c), a priority-based scheduler (PBS in proc.c) and the calls waitx,
    set_priority and getreadcount; its user programs (src/initial-xv6/src/user);
    and two simulations with threads, mutexes, semaphores and condition variables
    (src/concurrency/1.c and 2.c).

    ** How the program is modelled

    A C function is a program of the monad [M S A] of Prelude.v over the state
    [S] of its component.  Its outcome is a value and a state, a panic, an access
    that C leaves undefined, a loop that used up its fuel, or a call of sleep(),
    whose continuation the other processes' steps may precede.  A client whose
    state contains a component's state runs its operations through a lens.
    Machine integers are [Z] with the wrap-around written out ([u32], [i32], ...).
    Loops over tables have the table's length as fuel; loops of unknown length
    (waiting for a lock, a device, more input) take [fuel] of the class [Fuel] of
    Kernel.v, and theorems about them say how much is enough.

    The kernel is seen from one hart: its spin locks are the set of locks it
    holds ([Locks]).  [Spinlock] justifies this: it models spinlock.c with several
    harts that interleave at every atomic step, and proves mutual exclusion and
    that acquire() and release() implement the operations of [Locks].

    ** The files and the code they model

    - Prelude: machine integers, programs, weakest preconditions, lenses, arrays.
    - Mem: kernel/string.c on a byte memory.  Riscv: riscv.h, memlayout.h, param.h.
    - Locks, Spinlock: kernel/spinlock.c.
    - Kalloc: kernel/kalloc.c, with the reference counts; its invariant.
    - Vm: kernel/vm.c, with cowalloc().  VmTree and VmOps describe a page table as
      a finite map and prove each operation to update it.  Space states the
      invariant [world] of all address spaces and shared pages; Cow, Fault, Copy
      and Grow prove that fork, the copy-on-write fault, copyin/copyout and
      growth keep it; SpaceCheck is an executable checker and a small machine;
      VmProps has the theorems.
    - Proc, Sched: kernel/proc.c (table, sleep and wakeup, kill, wait, waitx, the
      two schedulers) and the tick handler; ProcFacts, ProcProps, SchedProps are
      their theorems.
    - Kernel: the state of everything above the process layer; KernelFacts.
    - Boot: start.c, main.c, plic.c, timervec of kernelvec.S and the control registers
      with their accessors in riscv.h.  Asm: trampoline.S, swtch.S and kernelvec.S.
    - Sleeplock, Uart, Printf, Console: the files of these names in kernel/.
    - Bio: kernel/bio.c.  BioRing proves what the linked list does, BioFacts and
      BioProps that the cache refines a store of blocks ([content]).
    - Log: kernel/log.c.  LogProps is about the space begin_op() reserves.
      LogCrash (write_log) and LogInstall (write_head, install_trans) lead to
      LogCommit: recovery, and that commit is atomic.  LogTxn is the transaction
      while calls build it.
    - Rely: rely-guarantee reasoning about programs that share a state, sleep, and
      run beside a device.  Virtio: kernel/virtio_disk.c, virtio.h and the steps of
      the device.  VirtioFacts is the invariant of the queue and what a caller sees
      of the others; VirtioInv, the driver's operations and transitions; VirtioProps,
      the calls as rely-guarantee triples; VirtioSafe has the theorems.
    - Fs: kernel/fs.c, fs.h; Bytes and Inode prove what is read back from blocks, and
      FsRead what readi() and dirlookup() find on a disk that nobody writes.
    - Mkfs: mkfs/mkfs.c, the host program that makes the disk; MkfsProps (files
      and their blocks) and MkfsMain (main() and the reader's view) have its theorems,
      and MkfsRead joins them to FsRead: the kernel reads what mkfs wrote.
    - PipeProps: kernel/pipe.c and its theorems.  FileTab: kernel/file.c.  Life: fork, exit,
      userinit, forkret of proc.c.  Exec: kernel/exec.c.  Syscall, Sysfile:
      syscall.c, sysproc.c, sysfile.c.  Trap: trap.c and the call table.
    - Ulib, GrepProps, Umalloc: user/ulib.c, grep.c, umalloc.c; UmallocFacts
      and UmallocProps are their theorems.  UPrintf: user/printf.c.  Uprogs: cat.c,
      wc.c, echo.c, ls.c, and stat() and _main() of ulib.c.
    - Sh: the parser of user/sh.c; ShRun: runcmd() and main() as trees of system
      calls, and what the calls do to a process.  ShFacts (tokens), ShParse (the
      grammar, on lines that spell a command) and ShTotal (nulterminate, and the
      grammar on any line) lead to ShProps; ShMain has the meaning of commands and
      the sessions.
    - Pthread: POSIX threads; Cafe (src/concurrency/1.c) and Parlor (2.c) are step
      functions of interleaving threads; CafeFacts, CafeProps and ParlorProps
      are their theorems.

    ** What the theorems show

    - Memory: the allocator's free list and reference counts agree; fork gives the
      child the parent's memory without copying; a write through copyout() or a
      fault reaches no other address space; growth and shrinking change exactly
      the pages they should; every failure for lack of memory leaves the system
      in order.
    - Processes: a waker that takes the lock of a condition after sleep() released it
      finds the process asleep, however the statements of the two interleave;
      wait() reports a zombie, a living child or no child as it should; PBS
      dispatches a process of the best priority.
    - Disk: the cache refines a store of blocks; a commit that is interrupted
      after any of its block writes is done entirely or not at all after
      recovery, and recovery can be interrupted too; an inode that iupdate() puts
      into a transaction is read back.  A kernel that starts again is any kernel
      whose cache is empty and whose disk has the writes performed so far; a
      block write is taken to be atomic, as log.c does.
    - mkfs: the image has the superblock of the kernel's constants, the files with
      their bytes, a directory that names them, and a bitmap that agrees; the kernel's dirlookup()
      and readi() find the files there and read their bytes.
    - Disk driver: any number of callers, the device and its interrupts, in any
      interleaving, never panic, and every call has transferred its block when it
      returns; the interrupt handler ends; a single caller gets what [DiskDriver]
      promises to bio.c.
    - Pipes are first-in first-out queues of bytes.
    - Boot: start() reaches main() with paging off and the interrupts delegated, and from
      then on every timer interrupt goes to timervec, moves the comparator on and returns to the
      interrupted code with its registers as they were; no other hart prints, turns
      paging on or schedules before hart 0 has made all its initialisation calls.
    - Traps and switches: a user program finds its registers after a trap as they were,
      but for what the kernel writes into the trapframe; kernel code does not notice an
      interrupt; a process that is switched away from goes on where it was.
    - Shell: parsing a line is the inverse of printing a command; on any line the
      parser stops, without a bad access, with a well-formed tree or one of four
      messages; every line of a session is run by a child whose processes have the
      arguments and the descriptors that the command says, and the shells in
      between keep no end of a pipe.
    - User code: malloc() never hands out overlapping memory, and free() gives back
      exactly one block and joins what touches; grep's matcher decides the
      language of its pattern and grep prints the matching lines whatever the
      sizes of the reads.  printf() writes what its format says, and what it prints for
      %d, atoi() reads back; wc counts newlines, words and bytes and cat copies, however
      read() cuts the input.
    - Simulations: a barista or machine serves one customer at a time; a customer
      takes the first free barista; the stock is reduced by exactly the order.
    - Some theorems show what the code gets wrong: the PBS scheduler writes past
      proc[], the priority formula wraps, the log that mkfs makes is too small for
      what begin_op() admits, a customer who leaves takes a barista away for good,
      more customers than the capacity are let in, copyout() writes to read-only
      shared pages, %l prints half of its argument.

    ** What is parameter

    bio.c is proved against the class [DiskDriver] of Bio.v, what it relies on
    being the laws, with a synchronous driver as instance, which virtio_disk_rw()
    of Virtio.v refines.  The device may take any step of [dev_step], what its
    registers answer is the class [Registers]; what a hart's control registers keep of
    a value is the class [Hardware] of Boot.v, with what its manual promises as laws, and
    where an address leads under a page table is the class [Mmu] of Asm.v;
    the linker's addresses are the classes [Symbols] (Life.v), [Image] (Boot.v) and
    [Base] (Umalloc.v); what a handler reads
    from control registers and devices is an argument or part of the state.  What
    the rest of the system decides for the shell (whether a fork, a pipe, an open
    succeeds) is the record [world] of ShRun.v.

    ** Not modelled

    entry.S, which sets the stack pointer, and initcode.S.  ramdisk.c, which is not
    part of the build.  The other user programs, which are tests or short sequences
    of system calls.  The translation cache: sfence_vma() does nothing, and a hart
    sees the page table as it is.  What devices do to their registers between two accesses of the code,
    but for the disk, the UART and the console's input.  The interleaving of several
    harts inside one kernel function is modelled for spin locks, sleep() and wakeup()
    only; elsewhere the locks are trusted to serialise, as [Spinlock] proves they do.
    Memory is sequentially consistent: __sync_synchronize() does nothing. *)

From stdpp Require Export base tactics numbers list gmap strings.
From Stdlib Require Export ZArith Lia.
From coqutil Require Export Datatypes.RecordSetters.
Export DoubleBraceUpdate.

#[export] Set Default Goal Selector "!".
Open Scope Z_scope.

(** ** Machine integers

    C's unsigned types wrap modulo a power of two; conversions to a signed
    type take the representative in the signed range (two's complement, as
    gcc for RISC-V does).  [char] is unsigned on RISC-V. *)

Definition u8 (x : Z) : Z := x mod 2 ^ 8.
Definition u16 (x : Z) : Z := x mod 2 ^ 16.
Definition u32 (x : Z) : Z := x mod 2 ^ 32.
Definition u64 (x : Z) : Z := x mod 2 ^ 64.

Definition i16 (x : Z) : Z := (x + 2 ^ 15) mod 2 ^ 16 - 2 ^ 15.
Definition i32 (x : Z) : Z := (x + 2 ^ 31) mod 2 ^ 32 - 2 ^ 31.

Lemma u8_range x : 0 <= u8 x < 256.
Proof. apply Z.mod_pos_bound. lia. Qed.
Lemma u32_range x : 0 <= u32 x < 2 ^ 32.
Proof. apply Z.mod_pos_bound. lia. Qed.
Lemma u64_range x : 0 <= u64 x < 2 ^ 64.
Proof. apply Z.mod_pos_bound. lia. Qed.
Lemma i32_range x : - 2 ^ 31 <= i32 x < 2 ^ 31.
Proof.
  unfold i32. pose proof (Z.mod_pos_bound (x + 2 ^ 31) (2 ^ 32) ltac:(lia)). lia.
Qed.

Lemma u8_small x : 0 <= x < 256 -> u8 x = x.
Proof. intros. apply Z.mod_small. lia. Qed.
Lemma u16_small x : 0 <= x < 2 ^ 16 -> u16 x = x.
Proof. intros. apply Z.mod_small. lia. Qed.
Lemma u32_small x : 0 <= x < 2 ^ 32 -> u32 x = x.
Proof. intros. apply Z.mod_small. lia. Qed.
Lemma u64_small x : 0 <= x < 2 ^ 64 -> u64 x = x.
Proof. intros. apply Z.mod_small. lia. Qed.
Lemma i32_small x : - 2 ^ 31 <= x < 2 ^ 31 -> i32 x = x.
Proof. intros. unfold i32. rewrite Z.mod_small; lia. Qed.
Lemma i16_small x : - 2 ^ 15 <= x < 2 ^ 15 -> i16 x = x.
Proof. intros. unfold i16. rewrite Z.mod_small; lia. Qed.

(** [zdiv] is [lia] with quotients and remainders turned into equations. *)
Ltac zdiv := Z.div_mod_to_equations; lia.

(** ** Addresses the kernel uses as names

    A spin lock and a wait channel are both addresses of kernel objects; the
    model names them by the object and an index. *)

Definition lock : Type := string * Z.
Definition chan : Type := string * Z.

(** ** Programs

    The outcome of a C function run in a state of type [S].  [Panic] is a call
    of panic() (the machine stops), [Undef] an access C leaves undefined,
    [OutOfFuel] a loop that used up the fuel of its model, and [Sleep] a
    process that called sleep(): the rest of the function is the continuation,
    which other processes' steps may precede. *)

Inductive prog (S A : Type) : Type :=
| Done (a : A) (s : S)
| Panic (msg : string)
| Undef (msg : string)
| OutOfFuel
| Sleep (ch : chan) (s : S) (k : S -> prog S A).
Arguments Done {S A} a s.
Arguments Panic {S A} msg.
Arguments Undef {S A} msg.
Arguments OutOfFuel {S A}.
Arguments Sleep {S A} ch s k.

Definition M (S A : Type) : Type := S -> prog S A.

Fixpoint bindp {S A B} (p : prog S A) (f : A -> M S B) : prog S B :=
  match p with
  | Done a s => f a s
  | Panic m => Panic m
  | Undef m => Undef m
  | OutOfFuel => OutOfFuel
  | Sleep c s k => Sleep c s (fun s' => bindp (k s') f)
  end.

Definition ret {S A} (a : A) : M S A := fun s => Done a s.
Definition bind {S A B} (m : M S A) (f : A -> M S B) : M S B :=
  fun s => bindp (m s) f.
Definition gets {S A} (f : S -> A) : M S A := fun s => Done (f s) s.
Definition modify {S} (f : S -> S) : M S unit := fun s => Done tt (f s).
Definition panic {S A} (msg : string) : M S A := fun _ => Panic msg.
Definition undef {S A} (msg : string) : M S A := fun _ => Undef msg.
Definition out_of_fuel {S A} : M S A := fun _ => OutOfFuel.
Definition block {S} (c : chan) : M S unit := fun s => Sleep c s (Done tt).

Declare Scope prog_scope.
Delimit Scope prog_scope with prog.
Notation "x <- m ;; k" := (bind m (fun x => k))
  (at level 100, m at next level, right associativity) : prog_scope.
Notation "m ;;; k" := (bind m (fun _ => k))
  (at level 100, right associativity) : prog_scope.
Open Scope prog_scope.

Definition when {S} (b : bool) (m : M S unit) : M S unit :=
  if b then m else ret tt.

(** A loop: the body gets the loop's variables and either goes on with new
    ones ([inl]) or leaves the loop with a result ([inr]). *)
Fixpoint loop {S X A} (fuel : nat) (body : X -> M S (X + A)) (x : X) : M S A :=
  match fuel with
  | O => out_of_fuel
  | Datatypes.S n =>
      r <- body x;;
      match r with
      | inl x' => loop n body x'
      | inr a => ret a
      end
  end.

Definition continue {S X A} (x : X) : M S (X + A) := ret (inl x).
Definition break {S X A} (a : A) : M S (X + A) := ret (inr a).

(** ** Total-correctness weakest preconditions

    [wp I p Q]: the program neither panics, nor runs out of fuel, nor does
    anything undefined, and when it is done [Q] holds.  Whenever it sleeps the
    state satisfies [I], and it is resumed in any state that satisfies [I]:
    other processes run meanwhile and are only known to keep [I]. *)

Fixpoint wp {S A} (I : S -> Prop) (p : prog S A) (Q : A -> S -> Prop) : Prop :=
  match p with
  | Done a s => Q a s
  | Panic _ | Undef _ | OutOfFuel => False
  | Sleep _ s k => I s /\ forall s', I s' -> wp I (k s') Q
  end.

(** A program that never sleeps. *)
Definition nosleep {S} : S -> Prop := fun _ => False.

(** [{{ P }} m {{ Q }}] without sleeping, stated for one initial state. *)
Notation "'runs' m s Q" := (wp nosleep (m s) Q)
  (at level 10, m at level 9, s at level 9, Q at level 9).

Section Wp.
Context {S : Type} (I : S -> Prop).

Lemma wp_mono {A} (p : prog S A) (Q Q' : A -> S -> Prop) :
  wp I p Q -> (forall a s, Q a s -> Q' a s) -> wp I p Q'.
Proof.
  induction p as [| | | |c s k IH]; simpl; eauto.
  intros [Hi Hk] HQ. split; eauto.
Qed.

Lemma wp_bindp {A B} (p : prog S A) (f : A -> M S B) Q :
  wp I p (fun a s => wp I (f a s) Q) -> wp I (bindp p f) Q.
Proof.
  induction p as [| | | |c s k IH]; simpl; eauto.
  intros [Hi Hk]. split; eauto.
Qed.

Lemma wp_bind {A B} (m : M S A) (f : A -> M S B) s Q :
  wp I (m s) (fun a s' => wp I (f a s') Q) -> wp I (bind m f s) Q.
Proof. apply wp_bindp. Qed.

Lemma wp_bind_mono {A B} (m : M S A) (f : A -> M S B) s R Q :
  wp I (m s) R -> (forall a s', R a s' -> wp I (f a s') Q) ->
  wp I (bind m f s) Q.
Proof. intros Hm Hf. apply wp_bind. eapply wp_mono; eauto. Qed.

Lemma wp_loop {X A} (body : X -> M S (X + A)) (Inv : nat -> X -> S -> Prop) Q :
  (forall n x s, Inv n x s ->
     wp I (body x s) (fun r s' =>
       match r with
       | inl x' => exists n', (n' < n)%nat /\ Inv n' x' s'
       | inr a => Q a s'
       end)) ->
  forall fuel n x s, Inv n x s -> (n < fuel)%nat -> wp I (loop fuel body x s) Q.
Proof.
  intros Hbody fuel. induction fuel as [|fuel IH]; intros n x s HI Hn; [lia|].
  simpl. eapply wp_bind_mono; [by eapply Hbody|].
  intros [x'|a] s' Hr; [|done].
  destruct Hr as (n' & Hlt & HI'). eapply IH; [done|lia].
Qed.

End Wp.

Lemma wp_done_inv {S A} (p : prog S A) Q :
  wp nosleep p Q -> exists a s, p = Done a s /\ Q a s.
Proof. destruct p; simpl; try done; [eauto|]. intros [[] _]. Qed.

Lemma runs_done {S A} (p : prog S A) (Q : A -> S -> Prop) a s :
  p = Done a s -> Q a s -> wp nosleep p Q.
Proof. intros ->. done. Qed.

(** ** Lenses

    A component's operations are written over its own state; a client whose
    state contains it runs them through a lens. *)

Record lens (S C : Type) := Lens {
  lget : S -> C;
  lput : C -> S -> S;
  lget_lput : forall c s, lget (lput c s) = c;
  lput_lget : forall s, lput (lget s) s = s;
  lput_lput : forall c c' s, lput c (lput c' s) = lput c s;
}.
Arguments Lens {S C}.
Arguments lget {S C}.
Arguments lput {S C}.
Arguments lget_lput {S C}.
Arguments lput_lget {S C}.
Arguments lput_lput {S C}.

Fixpoint zoomp {S C A} (L : lens S C) (p : prog C A) (s : S) : prog S A :=
  match p with
  | Done a c => Done a (lput L c s)
  | Panic m => Panic m
  | Undef m => Undef m
  | OutOfFuel => OutOfFuel
  | Sleep ch c k => Sleep ch (lput L c s) (fun s' => zoomp L (k (lget L s')) s')
  end.

Definition zoom {S C A} (L : lens S C) (m : M C A) : M S A :=
  fun s => zoomp L (m (lget L s)) s.

Lemma wp_zoom {S C A} (L : lens S C) (m : M C A) s Q (I : S -> Prop) :
  wp nosleep (m (lget L s)) (fun a c => Q a (lput L c s)) ->
  wp I (zoom L m s) Q.
Proof.
  intros (a & c & E & HQ)%wp_done_inv. unfold zoom. rewrite E. done.
Qed.

(** ** Lists indexed by Z, as C arrays

    [geti] and [seti] are an access [a[i]]; out of range they do nothing
    sensible, and the definitions that use them test the range first. *)

Definition geti {A} (l : list A) (i : Z) : option A :=
  if 0 <=? i then l !! Z.to_nat i else None.
Definition seti {A} (i : Z) (x : A) (l : list A) : list A :=
  if 0 <=? i then <[Z.to_nat i := x]> l else l.

Lemma geti_seti_eq {A} (l : list A) i x :
  0 <= i < Z.of_nat (length l) -> geti (seti i x l) i = Some x.
Proof.
  intros [H1 H2]. unfold geti, seti.
  rewrite (proj2 (Z.leb_le 0 i)) by lia. apply list_lookup_insert_eq. lia.
Qed.

Lemma geti_seti_ne {A} (l : list A) i j x :
  i <> j -> geti (seti i x l) j = geti l j.
Proof.
  intros Hne. unfold geti, seti.
  destruct (Z.leb_spec 0 i), (Z.leb_spec 0 j); try done.
  apply list_lookup_insert_ne. lia.
Qed.

Lemma length_seti {A} (l : list A) i x : length (seti i x l) = length l.
Proof. unfold seti. destruct (0 <=? i); [apply length_insert|done]. Qed.

Lemma geti_Some_lt {A} (l : list A) i x :
  geti l i = Some x -> 0 <= i < Z.of_nat (length l).
Proof.
  unfold geti. destruct (Z.leb_spec 0 i); [|done].
  intros E%lookup_lt_Some. lia.
Qed.

Lemma geti_is_Some {A} (l : list A) i :
  0 <= i < Z.of_nat (length l) -> is_Some (geti l i).
Proof.
  intros [H1 H2]. unfold geti. rewrite (proj2 (Z.leb_le 0 i)) by lia.
  apply lookup_lt_is_Some. lia.
Qed.

(** ** Records

    [r {{ f := v }}] and [r {{ f ::= g }}] update a field, as an assignment to
    a member of a C struct does; [rec_simpl] computes projections of updates. *)

#[global] Arguments constant {E} newValue _ /.
Ltac rec_simpl := cbn [apply_update constant].

(** [for (i = 0; i < n; i++) body(i)]: the body may leave the loop with a
    result, and [done] is what follows the last iteration. *)
Definition for_to {S A} (n : Z) (body : Z -> M S (option A)) (done : M S A) : M S A :=
  loop (Datatypes.S (Z.to_nat n))
    (fun i =>
       if i <? n then
         r <- body i;;
         match r with
         | Some a => break a
         | None => continue (i + 1)
         end
       else a <- done;; break a) 0.

Lemma wp_for_to {S A} (I : S -> Prop) n body (finish : M S A) (Inv : Z -> S -> Prop) Q s :
  0 <= n -> Inv 0 s ->
  (forall i s, 0 <= i < n -> Inv i s ->
     wp I (body i s) (fun r s' => match r with Some a => Q a s' | None => Inv (i + 1) s' end)) ->
  (forall s, Inv n s -> wp I (finish s) Q) ->
  wp I (for_to n body finish s) Q.
Proof.
  intros Hn H0 Hbody Hdone. unfold for_to.
  eapply (wp_loop I _ (fun k i s => 0 <= i <= n /\ k = Z.to_nat (n - i) /\ Inv i s));
    [|split; [|split; [reflexivity|exact H0]]; lia|lia].
  intros k i s' (Hi & -> & HI). destruct (Z.ltb_spec i n) as [Hlt|Hge].
  - apply wp_bind. eapply wp_mono; [apply Hbody; [lia|done]|]. intros [a|] s'' Hr; simpl; [done|].
    exists (Z.to_nat (n - (i + 1))). split; [lia|]. split; [lia|]. split; [lia|done].
  - apply wp_bind. eapply wp_mono; [apply Hdone; replace n with i by lia; done|]. done.
Qed.

(** ** Proof automation *)

Create HintDb kernel.
#[export] Hint Resolve u8_range u32_range u64_range i32_range : kernel.

(** One symbolic step through a program. *)
Ltac wp_pure :=
  unfold when, gets, modify, ret, panic, continue, break in *; simpl.

(** Case on a test of the code, keeping what it decides. *)
Ltac case_test :=
  match goal with
  | |- context [if ?a =? ?b then _ else _] => destruct (Z.eqb_spec a b)
  | |- context [if ?a <? ?b then _ else _] => destruct (Z.ltb_spec a b)
  | |- context [if ?a <=? ?b then _ else _] => destruct (Z.leb_spec a b)
  | |- context [if decide ?P then _ else _] => destruct (decide P)
  end.
