(* ===== verification/Mem.v ===== *)
(** Physical memory and the kernel's byte routines (kernel/string.c).

    Memory is a total map from addresses to byte cells; [load8] reads a cell
    modulo 256, so every memory is a memory of bytes.  Little-endian loads and
    stores of 2, 4 and 8 bytes are [loadn] and [storen].

    The routines of string.c are loops ([memset], [memmove], [memcmp],
    [strncmp], [strncpy], [safestrcpy], [strlen]).  [mset] and [mmove] are the
    closed forms of the first two that the page-sized calls of the kernel use;
    [memset_mset] and [memmove_mmove] prove them equal to the loops, the
    overlapping case of memmove included. *)

From S2P Require Import Prelude.

Definition mem : Type := Z -> Z.

Definition load8 (m : mem) (a : Z) : Z := u8 (m a).
Definition store8 (m : mem) (a v : Z) : mem :=
  fun x => if x =? a then u8 v else m x.

Fixpoint loadn (m : mem) (a : Z) (n : nat) : Z :=
  match n with
  | O => 0
  | S k => load8 m a + 256 * loadn m (a + 1) k
  end.
Definition storen (m : mem) (a : Z) (n : nat) (v : Z) : mem :=
  fun x => if (a <=? x) && (x <? a + Z.of_nat n)
           then (v / 256 ^ (x - a)) mod 256 else m x.

Definition load64 (m : mem) (a : Z) : Z := loadn m a 8.
Definition store64 (m : mem) (a v : Z) : mem := storen m a 8 v.
Definition load32 (m : mem) (a : Z) : Z := loadn m a 4.
Definition store32 (m : mem) (a v : Z) : mem := storen m a 4 v.

(** Closed forms of memset and memmove. *)
Definition mset (m : mem) (dst c n : Z) : mem :=
  fun a => if (dst <=? a) && (a <? dst + n) then u8 c else m a.
Definition mmove (m : mem) (dst src n : Z) : mem :=
  fun a => if (dst <=? a) && (a <? dst + n) then load8 m (src + (a - dst)) else m a.

(** Two memories are equivalent when every byte reads the same. *)
Definition mem_equiv (m m' : mem) : Prop := forall a, load8 m a = load8 m' a.
Infix "≡m" := mem_equiv (at level 70).

(** ** string.c *)

(** [for(i = 0; i < n; i++) cdst[i] = c;] *)
Fixpoint memset_from (cnt : nat) (i dst c : Z) (m : mem) : mem :=
  match cnt with
  | O => m
  | S k => memset_from k (i + 1) dst c (store8 m (dst + i) c)
  end.
Definition memset (m : mem) (dst c n : Z) : mem :=
  memset_from (Z.to_nat n) 0 dst c m.

(** Compare byte by byte; the first difference decides. *)
Fixpoint memcmp_loop (n : nat) (m : mem) (s1 s2 : Z) : Z :=
  match n with
  | O => 0
  | S k => if load8 m s1 =? load8 m s2 then memcmp_loop k m (s1 + 1) (s2 + 1)
           else load8 m s1 - load8 m s2
  end.
Definition memcmp (m : mem) (v1 v2 n : Z) : Z := memcmp_loop (Z.to_nat n) m v1 v2.

(** The descending copy: decrement both pointers, then copy a byte. *)
Fixpoint move_down (n : nat) (d s : Z) (m : mem) : mem :=
  match n with
  | O => m
  | S k => move_down k (d - 1) (s - 1) (store8 m (d - 1) (load8 m (s - 1)))
  end.
(** The ascending copy. *)
Fixpoint move_up (n : nat) (d s : Z) (m : mem) : mem :=
  match n with
  | O => m
  | S k => move_up k (d + 1) (s + 1) (store8 m d (load8 m s))
  end.
Definition memmove (m : mem) (dst src n : Z) : mem :=
  if n =? 0 then m
  else if (src <? dst) && (src + n >? dst)
       then move_down (Z.to_nat n) (dst + n) (src + n) m
       else move_up (Z.to_nat n) dst src m.

Definition memcpy (m : mem) (dst src n : Z) : mem := memmove m dst src n.

(** Advance while the characters agree and neither string has ended. *)
Fixpoint strncmp_loop (n : nat) (m : mem) (p q : Z) : Z :=
  match n with
  | O => 0
  | S k =>
      if negb (load8 m p =? 0) && (load8 m p =? load8 m q)
      then strncmp_loop k m (p + 1) (q + 1)
      else load8 m p - load8 m q
  end.
Definition strncmp (m : mem) (p q n : Z) : Z := strncmp_loop (Z.to_nat n) m p q.

(** The rest of the destination is zeroed. *)
Fixpoint zero_fill (n : nat) (s : Z) (m : mem) : mem :=
  match n with
  | O => m
  | S k => zero_fill k (s + 1) (store8 m s 0)
  end.
(** Copy up to and including the NUL, at most [n] bytes, then [zero_fill]. *)
Fixpoint strncpy_loop (n : nat) (s t : Z) (m : mem) : mem :=
  match n with
  | O => m
  | S k =>
      let m' := store8 m s (load8 m t) in
      if load8 m t =? 0 then zero_fill k (s + 1) m'
      else strncpy_loop k (s + 1) (t + 1) m'
  end.
Definition strncpy (m : mem) (s t n : Z) : mem := strncpy_loop (Z.to_nat n) s t m.

(** Copy up to and including the NUL, then store a NUL; [k] is what is left of
    [n] after [--n] in the loop's test. *)
Fixpoint safestrcpy_loop (k : nat) (s t : Z) (m : mem) : mem :=
  match k with
  | O => store8 m s 0
  | S k' =>
      let m' := store8 m s (load8 m t) in
      if load8 m t =? 0 then store8 m' (s + 1) 0
      else safestrcpy_loop k' (s + 1) (t + 1) m'
  end.
Definition safestrcpy (m : mem) (s t n : Z) : mem :=
  if n <=? 0 then m else safestrcpy_loop (Z.to_nat (n - 1)) s t m.

(** [for(n = 0; s[n]; n++);] with fuel for the length. *)
Fixpoint strlen_loop (fuel : nat) (m : mem) (s n : Z) : option Z :=
  match fuel with
  | O => None
  | S k => if load8 m (s + n) =? 0 then Some n else strlen_loop k m s (n + 1)
  end.
Definition strlen (fuel : nat) (m : mem) (s : Z) : option Z := strlen_loop fuel m s 0.

(** The characters of the C string at [a], at most [n] of them. *)
Fixpoint cstrn (m : mem) (a : Z) (n : nat) : list Z :=
  match n with
  | O => []
  | S k => if load8 m a =? 0 then [] else load8 m a :: cstrn m (a + 1) k
  end.

(** The [n] bytes from [a] on. *)
Definition bytes_at (m : mem) (a : Z) (n : nat) : list Z :=
  (fun i => load8 m (a + Z.of_nat i)) <$> seq 0 n.

(** ** Bytes *)

Lemma load8_range m a : 0 <= load8 m a < 256.
Proof. apply u8_range. Qed.
#[export] Hint Resolve load8_range : kernel.

Lemma u8_idem x : u8 (u8 x) = u8 x.
Proof. apply u8_small, u8_range. Qed.
Lemma u8_load8 m a : u8 (load8 m a) = load8 m a.
Proof. apply u8_idem. Qed.

Lemma load8_store8 m a v b :
  load8 (store8 m a v) b = if b =? a then u8 v else load8 m b.
Proof. unfold load8, store8. case_test; [apply u8_idem|done]. Qed.

Lemma load8_mset m dst c n a :
  load8 (mset m dst c n) a
  = if (dst <=? a) && (a <? dst + n) then u8 c else load8 m a.
Proof. unfold load8, mset. destruct (_ && _); [apply u8_idem|done]. Qed.

Lemma load8_mmove m dst src n a :
  load8 (mmove m dst src n) a
  = if (dst <=? a) && (a <? dst + n) then load8 m (src + (a - dst)) else load8 m a.
Proof.
  unfold load8 at 1, mmove. destruct (_ && _); [apply u8_load8|done].
Qed.

Lemma load8_storen m a n v b :
  load8 (storen m a n v) b
  = if (a <=? b) && (b <? a + Z.of_nat n)
    then (v / 256 ^ (b - a)) mod 256 else load8 m b.
Proof.
  unfold load8, storen. destruct (_ && _); [|done].
  apply u8_small, Z.mod_pos_bound. lia.
Qed.

(** Simplify the reads of a goal and split on the ranges. *)
Ltac mem_simpl :=
  repeat first [rewrite load8_store8 | rewrite load8_mset
               | rewrite load8_mmove | rewrite load8_storen].
Ltac bool_split :=
  repeat match goal with
  | |- context [?a <=? ?b] => destruct (Z.leb_spec a b)
  | |- context [?a <? ?b] => destruct (Z.ltb_spec a b)
  | |- context [?a =? ?b] => destruct (Z.eqb_spec a b)
  end; simpl; try done; try lia.

#[export] Instance mem_equiv_equivalence : Equivalence mem_equiv.
Proof.
  split; [intros m a; done | intros m m' H a; done |].
  intros m1 m2 m3 H12 H23 a. by rewrite H12.
Qed.

#[export] Instance load8_proper : Proper (mem_equiv ==> eq ==> eq) load8.
Proof. intros m m' H a ? <-. apply H. Qed.

#[export] Instance store8_proper : Proper (mem_equiv ==> eq ==> eq ==> mem_equiv) store8.
Proof. intros m m' H a ? <- v ? <- b. mem_simpl. bool_split; apply H. Qed.

#[export] Instance mset_proper :
  Proper (mem_equiv ==> eq ==> eq ==> eq ==> mem_equiv) mset.
Proof. intros m m' H d ? <- c ? <- n ? <- b. mem_simpl. destruct (_ && _); [done|apply H]. Qed.

#[export] Instance mmove_proper :
  Proper (mem_equiv ==> eq ==> eq ==> eq ==> mem_equiv) mmove.
Proof. intros m m' H d ? <- c ? <- n ? <- b. mem_simpl. destruct (_ && _); apply H. Qed.

(** ** Words *)

Lemma loadn_ext m m' a n :
  (forall i, 0 <= i < Z.of_nat n -> load8 m (a + i) = load8 m' (a + i)) ->
  loadn m a n = loadn m' a n.
Proof.
  revert a. induction n as [|n IH]; intros a H; simpl; [done|].
  f_equal; [by rewrite <- (Z.add_0_r a); apply H; lia|].
  f_equal. apply IH. intros i Hi.
  replace (a + 1 + i) with (a + (1 + i)) by lia. apply H. lia.
Qed.

#[export] Instance loadn_proper : Proper (mem_equiv ==> eq ==> eq ==> eq) loadn.
Proof. intros m m' H a ? <- n ? <-. apply loadn_ext. intros. apply H. Qed.

Lemma loadn_range m a n : 0 <= loadn m a n < 256 ^ Z.of_nat n.
Proof.
  revert a. induction n as [|n IH]; intros a; simpl loadn; [lia|].
  rewrite Nat2Z.inj_succ, Z.pow_succ_r by lia.
  pose proof (load8_range m a). specialize (IH (a + 1)). lia.
Qed.

Lemma load64_range m a : 0 <= load64 m a < 2 ^ 64.
Proof. apply (loadn_range m a 8). Qed.
Lemma load32_range m a : 0 <= load32 m a < 2 ^ 32.
Proof. apply (loadn_range m a 4). Qed.
#[export] Hint Resolve load64_range load32_range : kernel.

Lemma loadn_digits m a n v :
  (forall i, 0 <= i < Z.of_nat n -> load8 m (a + i) = (v / 256 ^ i) mod 256) ->
  loadn m a n = v mod 256 ^ Z.of_nat n.
Proof.
  revert a v. induction n as [|n IH]; intros a v H; simpl loadn; [by rewrite Z.mod_1_r|].
  rewrite (IH (a + 1) (v / 256)).
  - rewrite <- (Z.add_0_r a), H, Z.pow_0_r, Z.div_1_r by lia.
    rewrite Nat2Z.inj_succ, Z.pow_succ_r, Z.rem_mul_r by lia. done.
  - intros i Hi. replace (a + 1 + i) with (a + (1 + i)) by lia.
    rewrite H, Z.pow_add_r, Z.pow_1_r, Z.div_div by lia. done.
Qed.

Lemma loadn_storen_eq m a n v : loadn (storen m a n v) a n = v mod 256 ^ Z.of_nat n.
Proof.
  apply loadn_digits. intros i Hi. mem_simpl. bool_split.
  by replace (a + i - a) with i by lia.
Qed.

Lemma loadn_storen_ne m a n v b k :
  b + Z.of_nat k <= a \/ a + Z.of_nat n <= b ->
  loadn (storen m a n v) b k = loadn m b k.
Proof. intros Hd. apply loadn_ext. intros i Hi. mem_simpl. bool_split. Qed.

Lemma load64_store64_eq m a v : 0 <= v < 2 ^ 64 -> load64 (store64 m a v) a = v.
Proof. intros. unfold load64, store64. rewrite loadn_storen_eq. apply Z.mod_small. lia. Qed.

Lemma load64_store64_ne m a v b :
  b + 8 <= a \/ a + 8 <= b -> load64 (store64 m a v) b = load64 m b.
Proof. intros. apply loadn_storen_ne. lia. Qed.

Lemma load64_ext m m' a :
  (forall i, a <= i < a + 8 -> load8 m i = load8 m' i) -> load64 m a = load64 m' a.
Proof. intros H. apply loadn_ext. intros i Hi. apply H. lia. Qed.

Lemma load64_mset_out m dst c n a :
  a + 8 <= dst \/ dst + n <= a -> load64 (mset m dst c n) a = load64 m a.
Proof. intros Hd. apply load64_ext. intros i Hi. mem_simpl. bool_split. Qed.

Lemma load64_mset0_in m dst n a :
  dst <= a -> a + 8 <= dst + n -> load64 (mset m dst 0 n) a = 0.
Proof.
  intros H1 H2. unfold load64. rewrite (loadn_digits _ _ 8 0); [by rewrite Z.mod_0_l|].
  intros i Hi. mem_simpl. bool_split; by rewrite Z.div_0_l by lia.
Qed.

Lemma load64_mmove_out m dst src n a :
  a + 8 <= dst \/ dst + n <= a -> load64 (mmove m dst src n) a = load64 m a.
Proof. intros Hd. apply load64_ext. intros i Hi. mem_simpl. bool_split. Qed.

(** ** The loops of string.c *)

Lemma load8_memset_from cnt i dst c m a :
  load8 (memset_from cnt i dst c m) a
  = if (dst + i <=? a) && (a <? dst + i + Z.of_nat cnt) then u8 c else load8 m a.
Proof.
  revert i m. induction cnt as [|cnt IH]; intros i m; simpl memset_from.
  - bool_split.
  - rewrite IH. mem_simpl. bool_split.
Qed.

Lemma load8_move_up n d s m a :
  d < s \/ s + Z.of_nat n <= d \/ d = s ->
  load8 (move_up n d s m) a
  = if (d <=? a) && (a <? d + Z.of_nat n) then load8 m (s + (a - d)) else load8 m a.
Proof.
  revert d s m. induction n as [|n IH]; intros d s m Hd; simpl move_up.
  - bool_split.
  - rewrite IH by lia. mem_simpl. rewrite u8_load8.
    bool_split; f_equal; lia.
Qed.

Lemma load8_move_down n d s m a :
  s < d ->
  load8 (move_down n d s m) a
  = if (d - Z.of_nat n <=? a) && (a <? d) then load8 m (s + (a - d)) else load8 m a.
Proof.
  revert d s m. induction n as [|n IH]; intros d s m Hd; simpl move_down.
  - bool_split.
  - rewrite IH by lia. mem_simpl. rewrite u8_load8.
    bool_split; f_equal; lia.
Qed.

Lemma memset_equiv m dst c n : memset m dst c n ≡m mset m dst c n.
Proof.
  intros a. unfold memset. rewrite load8_memset_from, load8_mset, Z.add_0_r.
  destruct (Z.leb_spec 0 n); [by rewrite Z2Nat.id|].
  replace (Z.of_nat (Z.to_nat n)) with 0 by lia. bool_split.
Qed.

Lemma memmove_equiv m dst src n : 0 <= n -> memmove m dst src n ≡m mmove m dst src n.
Proof.
  intros Hn a. unfold memmove. rewrite Z.gtb_ltb, load8_mmove.
  destruct (Z.eqb_spec n 0) as [->|]; [bool_split|].
  destruct (Z.ltb_spec src dst), (Z.ltb_spec dst (src + n)); simpl.
  1: { rewrite load8_move_down by lia. rewrite Z2Nat.id by lia.
       replace (dst + n - n) with dst by lia.
       replace (src + n + (a - (dst + n))) with (src + (a - dst)) by lia. done. }
  all: rewrite load8_move_up by lia; by rewrite Z2Nat.id by lia.
Qed.

Lemma load8_zero_fill n s m a :
  load8 (zero_fill n s m) a
  = if (s <=? a) && (a <? s + Z.of_nat n) then 0 else load8 m a.
Proof.
  revert s m. induction n as [|n IH]; intros s m; simpl zero_fill; [bool_split|].
  rewrite IH. mem_simpl. bool_split; done.
Qed.

Lemma cstrn_ext m m' a n :
  (forall i, a <= i < a + Z.of_nat n -> load8 m i = load8 m' i) -> cstrn m a n = cstrn m' a n.
Proof.
  revert a. induction n as [|n IH]; intros a H; simpl; [done|].
  rewrite (H a) by lia. case_match; [done|]. f_equal. apply IH. intros. apply H. lia.
Qed.

Lemma strncmp_loop_zero n m p q :
  strncmp_loop n m p q = 0 <-> cstrn m p n = cstrn m q n.
Proof.
  revert p q. induction n as [|n IH]; intros p q; simpl; [done|].
  destruct (Z.eqb_spec (load8 m p) 0) as [Ep|Ep]; simpl.
  - rewrite Ep. destruct (Z.eqb_spec (load8 m q) 0) as [Eq|Eq].
    + rewrite Eq. done.
    + split; [lia|done].
  - destruct (Z.eqb_spec (load8 m p) (load8 m q)) as [Epq|Epq].
    + rewrite <- Epq. destruct (Z.eqb_spec (load8 m p) 0); [done|].
      rewrite IH. split; [by intros ->|by intros [=]].
    + split; [lia|]. destruct (Z.eqb_spec (load8 m q) 0); [done|]. intros [=]. lia.
Qed.

(** The two string copies: what they write, and nothing else. *)
Lemma strncpy_loop_frame n s t m a :
  a < s \/ s + Z.of_nat n <= a -> load8 (strncpy_loop n s t m) a = load8 m a.
Proof.
  revert s t m. induction n as [|n IH]; intros s t m Ha; simpl; [done|].
  case_match.
  - rewrite load8_zero_fill. mem_simpl. bool_split.
  - rewrite IH by lia. mem_simpl. bool_split.
Qed.

Lemma strncpy_loop_cstrn n s t m :
  s + Z.of_nat n <= t \/ t + Z.of_nat n <= s ->
  cstrn (strncpy_loop n s t m) s n = cstrn m t n.
Proof.
  revert s t m. induction n as [|n IH]; intros s t m Hd; [done|].
  cbn [strncpy_loop cstrn].
  destruct (Z.eqb_spec (load8 m t) 0) as [E|E].
  - rewrite load8_zero_fill. mem_simpl. rewrite u8_load8, E. bool_split.
  - rewrite strncpy_loop_frame by lia. mem_simpl. rewrite u8_load8, Z.eqb_refl.
    rewrite (proj2 (Z.eqb_neq _ _) E). f_equal. rewrite IH by lia.
    apply cstrn_ext. intros i Hi. mem_simpl. bool_split.
Qed.

Lemma safestrcpy_loop_frame k s t m a :
  a < s \/ s + Z.of_nat k < a -> load8 (safestrcpy_loop k s t m) a = load8 m a.
Proof.
  revert s t m. induction k as [|k IH]; intros s t m Ha; simpl.
  - mem_simpl. bool_split.
  - case_match; [mem_simpl; bool_split|]. rewrite IH by lia. mem_simpl. bool_split.
Qed.

Lemma safestrcpy_loop_cstrn k s t m :
  s + Z.of_nat k < t \/ t + Z.of_nat k <= s ->
  cstrn (safestrcpy_loop k s t m) s (Datatypes.S k) = cstrn m t k.
Proof.
  revert s t m. induction k as [|k IH]; intros s t m Hd.
  - cbn [safestrcpy_loop cstrn]. rewrite load8_store8, Z.eqb_refl. simpl. done.
  - cbn [safestrcpy_loop]. cbn [cstrn].
    destruct (Z.eqb_spec (load8 m t) 0) as [E|E].
    + mem_simpl. rewrite Z.eqb_refl, u8_load8, E. bool_split.
    + rewrite safestrcpy_loop_frame by lia. mem_simpl. rewrite u8_load8, Z.eqb_refl.
      rewrite (proj2 (Z.eqb_neq _ _) E). f_equal.
      change (cstrn (safestrcpy_loop k (s + 1) (t + 1) (store8 m s (load8 m t))) (s + 1) (Datatypes.S k)
              = cstrn m (t + 1) k).
      rewrite IH by lia. apply cstrn_ext. intros i Hi. mem_simpl. bool_split.
Qed.

Lemma length_cstrn m a n : (length (cstrn m a n) <= n)%nat.
Proof.
  revert a. induction n as [|n IH]; intros a; simpl; [lia|].
  case_match; simpl; [lia|]. specialize (IH (a + 1)). lia.
Qed.

Lemma cstrn_short m a n :
  (length (cstrn m a n) < n)%nat -> exists i, 0 <= i < Z.of_nat n /\ load8 m (a + i) = 0.
Proof.
  revert a. induction n as [|n IH]; intros a; simpl; [lia|].
  destruct (Z.eqb_spec (load8 m a) 0) as [E|E].
  - exists 0. rewrite Z.add_0_r. split; [lia|done].
  - simpl. intros Hl. destruct (IH (a + 1)) as (i & Hi & H0); [lia|].
    exists (1 + i). replace (a + (1 + i)) with (a + 1 + i) by lia. split; [lia|done].
Qed.

Lemma strlen_loop_cstrn fuel m s n k :
  strlen_loop fuel m s n = Some k -> k = n + Z.of_nat (length (cstrn m (s + n) fuel)).
Proof.
  revert n. induction fuel as [|fuel IH]; intros n; simpl; [done|].
  case_match; [intros [= <-]; simpl; lia|].
  intros E%IH. simpl. replace (s + n + 1) with (s + (n + 1)) by lia. lia.
Qed.

(** ** What the routines promise *)

(** Memmove copies the source as it was before the call, also when the two
    ranges overlap in either direction, and writes nothing else. *)
Theorem memmove_correct m dst src n a :
  0 <= n ->
  load8 (memmove m dst src n) a
  = if decide (dst <= a < dst + n) then load8 m (src + (a - dst)) else load8 m a.
Proof.
  intros Hn. rewrite (memmove_equiv m dst src n Hn a), load8_mmove.
  case_decide; bool_split.
Qed.

Lemma memmove_correct_witness :
  load8 (memmove (fun x => x) 101 100 5) 103 = 102 /\
  load8 (memmove (fun x => x) 99 100 5) 101 = 102.
Proof. split; rewrite memmove_correct by lia; reflexivity. Defined.

(** C25: safestrcpy to a buffer of [n] bytes that does not overlap the source
    leaves there the first [n - 1] characters of the source string, always
    NUL-terminated within the buffer, and writes nothing outside it. *)
Theorem safestrcpy_correct m s t n :
  0 < n -> s + n <= t \/ t + n <= s ->
  cstrn (safestrcpy m s t n) s (Z.to_nat n) = cstrn m t (Z.to_nat (n - 1)) /\
  (exists i, 0 <= i < n /\ load8 (safestrcpy m s t n) (s + i) = 0) /\
  forall a, a < s \/ s + n <= a -> load8 (safestrcpy m s t n) a = load8 m a.
Proof.
  intros Hn Hd. unfold safestrcpy. rewrite (proj2 (Z.leb_gt n 0)) by lia.
  replace (Z.to_nat n) with (Datatypes.S (Z.to_nat (n - 1))) by lia.
  assert (Hs : cstrn (safestrcpy_loop (Z.to_nat (n - 1)) s t m) s (Datatypes.S (Z.to_nat (n - 1)))
               = cstrn m t (Z.to_nat (n - 1))) by (apply safestrcpy_loop_cstrn; lia).
  split; [exact Hs|]. split.
  - destruct (cstrn_short (safestrcpy_loop (Z.to_nat (n - 1)) s t m) s (Datatypes.S (Z.to_nat (n - 1))))
      as (i & Hi & H0); [rewrite Hs; pose proof (length_cstrn m t (Z.to_nat (n - 1))); lia|].
    exists i. split; [lia|done].
  - intros a Ha. apply safestrcpy_loop_frame. lia.
Qed.

Lemma safestrcpy_correct_witness :
  load8 (safestrcpy (fun x => if x =? 12 then 0 else 65) 100 10 16) 102 = 0 /\
  load8 (safestrcpy (fun x => if x =? 12 then 0 else 65) 100 10 16) 200 = 65.
Proof.
  pose proof (safestrcpy_correct (fun x => if x =? 12 then 0 else 65) 100 10 16 ltac:(lia) ltac:(lia))
    as (_ & _ & Hframe).
  split; [reflexivity|rewrite Hframe by lia; reflexivity].
Defined.
