(* ===== verification/Riscv.v ===== *)
(** Sv39 page-table arithmetic and the physical memory layout
    (kernel/riscv.h, kernel/memlayout.h, kernel/param.h).

    The macros are written with the bit operations of the source; the lemmas
    give their arithmetic meaning, which the proofs about the allocator and the
    page tables use. *)

From S2P Require Import Prelude.

(** ** param.h and memlayout.h *)

Definition NPROC : Z := 64.
Definition NCPU : Z := 8.
Definition NOFILE : Z := 16.
Definition NFILE : Z := 100.
Definition NINODE : Z := 50.
Definition NDEV : Z := 10.
Definition ROOTDEV : Z := 1.
Definition MAXARG : Z := 32.
Definition MAXOPBLOCKS : Z := 10.
Definition LOGSIZE : Z := MAXOPBLOCKS * 3.
Definition NBUF : Z := MAXOPBLOCKS * 3.
Definition MAXPATH : Z := 128.

Definition PGSIZE : Z := 4096.
Definition PGSHIFT : Z := 12.
Definition UART0 : Z := 0x10000000.
Definition UART0_IRQ : Z := 10.
Definition VIRTIO0 : Z := 0x10001000.
Definition VIRTIO0_IRQ : Z := 1.
Definition PLIC : Z := 0x0c000000.
Definition KERNBASE : Z := 0x80000000.
Definition PHYSTOP : Z := KERNBASE + 128 * 1024 * 1024.
Definition MAXVA : Z := Z.shiftl 1 (9 + 9 + 9 + 12 - 1).
Definition TRAMPOLINE : Z := MAXVA - PGSIZE.
Definition TRAPFRAME : Z := TRAMPOLINE - PGSIZE.
Definition KSTACK (p : Z) : Z := TRAMPOLINE - (p + 1) * 2 * PGSIZE.

(** ** riscv.h *)

Definition PGROUNDUP (sz : Z) : Z := Z.land (u64 (sz + PGSIZE - 1)) (Z.lnot (PGSIZE - 1)).
Definition PGROUNDDOWN (a : Z) : Z := Z.land a (Z.lnot (PGSIZE - 1)).

Definition PTE_V : Z := Z.shiftl 1 0.
Definition PTE_R : Z := Z.shiftl 1 1.
Definition PTE_W : Z := Z.shiftl 1 2.
Definition PTE_X : Z := Z.shiftl 1 3.
Definition PTE_U : Z := Z.shiftl 1 4.
Definition PTE_COW : Z := Z.shiftl 1 8.

Definition PA2PTE (pa : Z) : Z := u64 (Z.shiftl (Z.shiftr pa 12) 10).
Definition PTE2PA (pte : Z) : Z := u64 (Z.shiftl (Z.shiftr pte 10) 12).
Definition PTE_FLAGS (pte : Z) : Z := Z.land pte 0x3FF.

Definition PXMASK : Z := 0x1FF.
Definition PXSHIFT (level : Z) : Z := PGSHIFT + 9 * level.
Definition PX (level va : Z) : Z := Z.land (Z.shiftr va (PXSHIFT level)) PXMASK.

Definition SATP_SV39 : Z := Z.shiftl 8 60.
Definition MAKE_SATP (pagetable : Z) : Z := Z.lor SATP_SV39 (Z.shiftr pagetable 12).

(** A flag test of the code, [*pte & FLAG]. *)
Definition has (pte flag : Z) : bool := negb (Z.land pte flag =? 0).

(** ** Linker symbols

    [end], [etext] and the trampoline come from kernel.ld; the model takes
    them as a parameter with what the linker script guarantees. *)

Class Layout := {
  end_ : Z;
  etext : Z;
  trampoline : Z;
  etext_end : KERNBASE < etext <= end_;
  end_phystop : end_ <= PHYSTOP;
  etext_aligned : etext mod PGSIZE = 0;
  trampoline_aligned : trampoline mod PGSIZE = 0;
  trampoline_text : KERNBASE <= trampoline < etext;
}.

(** The values of the symbols in the build of the repository (kernel.sym). *)
#[export] Program Instance kernel_sym : Layout := {|
  end_ := 0x802427b8; etext := 0x80008000; trampoline := 0x80007000
|}.
Solve All Obligations with (vm_compute; intuition congruence).

(** ** Arithmetic meaning *)

Lemma land_ones_mod a n : 0 <= n -> Z.land a (2 ^ n - 1) = a mod 2 ^ n.
Proof. intros Hn. rewrite <- Z.land_ones, Z.ones_equiv by lia. f_equal. Qed.

Lemma land_lnot_low a n : 0 <= n -> Z.land a (Z.lnot (2 ^ n - 1)) = a / 2 ^ n * 2 ^ n.
Proof.
  intros Hn. replace (2 ^ n - 1) with (Z.ones n) by (rewrite Z.ones_equiv; lia).
  rewrite <- Z.ldiff_land, Z.ldiff_ones_r, Z.shiftl_mul_pow2, Z.shiftr_div_pow2 by lia. done.
Qed.

Lemma PGROUNDDOWN_eq a : PGROUNDDOWN a = a / PGSIZE * PGSIZE.
Proof. apply (land_lnot_low a 12). lia. Qed.

Lemma PGROUNDUP_eq sz :
  0 <= sz -> sz + PGSIZE - 1 < 2 ^ 64 -> PGROUNDUP sz = (sz + PGSIZE - 1) / PGSIZE * PGSIZE.
Proof.
  intros H1 H2. unfold PGROUNDUP. rewrite u64_small by (unfold PGSIZE in *; lia).
  apply (land_lnot_low _ 12). lia.
Qed.

Lemma PGROUNDDOWN_le a : 0 <= a -> PGROUNDDOWN a <= a < PGROUNDDOWN a + PGSIZE.
Proof. intros. rewrite PGROUNDDOWN_eq. unfold PGSIZE. zdiv. Qed.

Lemma PGROUNDDOWN_aligned a : PGROUNDDOWN a mod PGSIZE = 0.
Proof. rewrite PGROUNDDOWN_eq. apply Z_mod_mult. Qed.

Lemma PGROUNDDOWN_id a : a mod PGSIZE = 0 -> PGROUNDDOWN a = a.
Proof. intros. rewrite PGROUNDDOWN_eq. unfold PGSIZE in *. zdiv. Qed.

Lemma PGROUNDUP_bounds sz :
  0 <= sz -> sz + PGSIZE - 1 < 2 ^ 64 ->
  sz <= PGROUNDUP sz < sz + PGSIZE /\ PGROUNDUP sz mod PGSIZE = 0.
Proof.
  intros. rewrite PGROUNDUP_eq by done.
  split; [unfold PGSIZE; zdiv | apply Z_mod_mult].
Qed.

Lemma PGROUNDUP_id sz :
  0 <= sz -> sz + PGSIZE - 1 < 2 ^ 64 -> sz mod PGSIZE = 0 -> PGROUNDUP sz = sz.
Proof. intros. rewrite PGROUNDUP_eq by done. unfold PGSIZE in *. zdiv. Qed.

Lemma PX_eq level va : 0 <= level -> PX level va = (va / 2 ^ (12 + 9 * level)) mod 512.
Proof.
  intros. unfold PX, PXSHIFT, PGSHIFT, PXMASK.
  rewrite Z.shiftr_div_pow2 by lia. apply (land_ones_mod _ 9). lia.
Qed.

Lemma PX_range level va : 0 <= level -> 0 <= PX level va < 512.
Proof. intros. rewrite PX_eq by done. apply Z.mod_pos_bound. lia. Qed.

(** The three indices identify the page of a user address. *)
Lemma PX_inj va vb :
  0 <= va < MAXVA -> 0 <= vb < MAXVA ->
  PX 2 va = PX 2 vb -> PX 1 va = PX 1 vb -> PX 0 va = PX 0 vb ->
  va / PGSIZE = vb / PGSIZE.
Proof.
  intros Ha Hb. rewrite !PX_eq by lia. unfold PGSIZE.
  change (2 ^ (12 + 9 * 2)) with (4096 * 512 * 512).
  change (2 ^ (12 + 9 * 1)) with (4096 * 512).
  change (2 ^ (12 + 9 * 0)) with 4096.
  rewrite <- !Z.div_div by lia.
  assert (0 <= va / 4096 < 2 ^ 26 /\ 0 <= vb / 4096 < 2 ^ 26) as [Hv Hw].
  { change MAXVA with (2 ^ 38) in *. zdiv. }
  clear Ha Hb. revert Hv Hw. generalize (va / 4096) as v, (vb / 4096) as w. intros.
  assert (v / 512 / 512 = w / 512 / 512) by zdiv.
  assert (v / 512 = w / 512) by zdiv. zdiv.
Qed.

Lemma PA2PTE_eq pa : 0 <= pa < 2 ^ 64 -> PA2PTE pa = pa / 4096 * 1024.
Proof.
  intros. unfold PA2PTE. rewrite Z.shiftl_mul_pow2, Z.shiftr_div_pow2 by lia.
  apply u64_small. change (2 ^ 12) with 4096. change (2 ^ 10) with 1024. zdiv.
Qed.

Lemma land_high_low x fl n : 0 <= n -> 0 <= fl < 2 ^ n -> Z.land (x * 2 ^ n) fl = 0.
Proof.
  intros Hn Hfl. apply Z.bits_inj'. intros i Hi.
  rewrite Z.land_spec, Z.bits_0. destruct (Z.lt_ge_cases i n).
  - rewrite Z.mul_pow2_bits_low by lia. done.
  - rewrite <- (Z.mod_small fl (2 ^ n)), Z.mod_pow2_bits_high by lia.
    apply andb_false_r.
Qed.

Lemma lor_high_low x fl n : 0 <= n -> 0 <= fl < 2 ^ n -> Z.lor (x * 2 ^ n) fl = x * 2 ^ n + fl.
Proof.
  intros Hn Hfl. pose proof (land_high_low x fl n Hn Hfl) as E.
  rewrite <- Z.lxor_lor, Z.add_nocarry_lxor by done. done.
Qed.

(** A PTE is a page number and ten flag bits. *)
Lemma PTE_FLAGS_eq pte : PTE_FLAGS pte = pte mod 1024.
Proof. apply (land_ones_mod _ 10). lia. Qed.

Lemma PTE_FLAGS_range pte : 0 <= PTE_FLAGS pte < 1024.
Proof. rewrite PTE_FLAGS_eq. apply Z.mod_pos_bound. lia. Qed.

Definition mkpte (pa fl : Z) : Z := Z.lor (PA2PTE pa) fl.

(** The physical pages a PTE can name. *)
Definition pa_ok (pa : Z) : Prop := 0 <= pa < 2 ^ 56 /\ pa mod PGSIZE = 0.

Lemma mkpte_eq pa fl : pa_ok pa -> 0 <= fl < 1024 -> mkpte pa fl = pa / 4096 * 1024 + fl.
Proof.
  intros [H1 H2] Hfl. unfold mkpte. rewrite PA2PTE_eq by lia.
  apply (lor_high_low _ _ 10); lia.
Qed.

Lemma mkpte_range pa fl : pa_ok pa -> 0 <= fl < 1024 -> 0 <= mkpte pa fl < 2 ^ 54.
Proof. intros H Hfl. rewrite mkpte_eq by done. destruct H. unfold PGSIZE in *. zdiv. Qed.

Lemma PTE2PA_eq pte : 0 <= pte < 2 ^ 62 -> PTE2PA pte = pte / 1024 * 4096.
Proof.
  intros. unfold PTE2PA. rewrite Z.shiftl_mul_pow2, Z.shiftr_div_pow2 by lia.
  apply u64_small. change (2 ^ 12) with 4096. change (2 ^ 10) with 1024. zdiv.
Qed.

Lemma PTE2PA_mkpte pa fl : pa_ok pa -> 0 <= fl < 1024 -> PTE2PA (mkpte pa fl) = pa.
Proof.
  intros H Hfl. pose proof (mkpte_range pa fl H Hfl).
  rewrite PTE2PA_eq, mkpte_eq by (done || lia). destruct H. unfold PGSIZE in *. zdiv.
Qed.

Lemma PTE_FLAGS_mkpte pa fl : pa_ok pa -> 0 <= fl < 1024 -> PTE_FLAGS (mkpte pa fl) = fl.
Proof. intros H Hfl. rewrite PTE_FLAGS_eq, mkpte_eq by done. zdiv. Qed.

(** A flag test on a PTE is a test on its flags. *)
Lemma land_mkpte pa fl f :
  pa_ok pa -> 0 <= fl < 1024 -> 0 <= f < 1024 -> Z.land (mkpte pa fl) f = Z.land fl f.
Proof.
  intros H Hfl Hf. unfold mkpte. destruct H as [H1 H2].
  rewrite Z.land_lor_distr_l, PA2PTE_eq, (land_high_low _ _ 10) by lia. done.
Qed.

Lemma has_mkpte pa fl f :
  pa_ok pa -> 0 <= fl < 1024 -> 0 <= f < 1024 -> has (mkpte pa fl) f = has fl f.
Proof. intros. unfold has. by rewrite land_mkpte. Qed.

Lemma has_lor a b f : has (Z.lor a b) f = has a f || has b f.
Proof.
  unfold has. rewrite Z.land_lor_distr_l.
  destruct (Z.eqb_spec (Z.lor (Z.land a f) (Z.land b f)) 0) as [E|E].
  - apply Z.lor_eq_0_iff in E as [-> ->]. done.
  - destruct (Z.eqb_spec (Z.land a f) 0) as [E1|]; simpl; [|done].
    rewrite E1, Z.lor_0_l in E. by destruct (Z.eqb_spec (Z.land b f) 0).
Qed.

Lemma lor_lt_pow2 a b n : 0 <= n -> 0 <= a < 2 ^ n -> 0 <= b < 2 ^ n -> 0 <= Z.lor a b < 2 ^ n.
Proof.
  intros Hn Ha Hb. split; [apply Z.lor_nonneg; lia|].
  destruct (Z.eq_dec (Z.lor a b) 0) as [->|Hne]; [lia|].
  apply Z.log2_lt_pow2; [pose proof (proj2 (Z.lor_nonneg a b)); lia|].
  rewrite Z.log2_lor by lia. apply Z.max_lub_lt.
  - destruct (Z.eq_dec a 0) as [->|]; [simpl; destruct (Z.eq_dec n 0) as [->|]; [|lia]|].
    + assert (b = 0) as -> by lia. done.
    + apply Z.log2_lt_pow2; lia.
  - destruct (Z.eq_dec b 0) as [->|]; [simpl; destruct (Z.eq_dec n 0) as [->|]; [|lia]|].
    + assert (a = 0) as -> by lia. done.
    + apply Z.log2_lt_pow2; lia.
Qed.

(** ** Automation *)

(** [zdiv] for goals about page numbers and offsets. *)
Ltac zdiv_page := unfold PGSIZE in *; zdiv.

Lemma flags_forall (P : Z -> bool) :
  forallb P (seqZ 0 1024) = true -> forall fl, 0 <= fl < 1024 -> P fl = true.
Proof.
  intros Hb fl Hfl. rewrite forallb_forall in Hb. apply Hb.
  apply list_elem_of_In, elem_of_seqZ. lia.
Qed.

(** Decide a statement about flags by trying them all. *)
Ltac all_flags P := apply (flags_forall P); [vm_compute; reflexivity|assumption].

#[export] Hint Resolve PTE_FLAGS_range PX_range : kernel.

#[global] Arguments PX : simpl never.
#[global] Arguments PTE2PA : simpl never.
#[global] Arguments PA2PTE : simpl never.
#[global] Arguments PTE_FLAGS : simpl never.
#[global] Arguments mkpte : simpl never.
#[global] Arguments has : simpl never.
#[global] Arguments PGROUNDUP : simpl never.
#[global] Arguments PGROUNDDOWN : simpl never.
#[global] Arguments MAXVA : simpl never.
#[global] Arguments PHYSTOP : simpl never.
#[global] Arguments PGSIZE : simpl never.
