(* ===== verification/Locks.v ===== *)
(** The lock discipline the components rely on.

    A component's state records the set of spin locks the running CPU holds.
    [acquire] and [release] are what kernel/spinlock.c promises its callers:
    acquiring a lock already held by this CPU panics, and so does releasing one
    it does not hold.  [Spinlock.v] models spinlock.c itself (several CPUs,
    push_off/pop_off, the test-and-set loop) and proves that it implements
    these two operations. *)

From S2P Require Import Prelude.

Class HasLocks (S : Type) := {
  held : S -> gset lock;
  set_held : gset lock -> S -> S;
  held_set : forall h s, held (set_held h s) = h;
  set_held_set : forall h h' s, set_held h (set_held h' s) = set_held h s;
  set_held_id : forall s, set_held (held s) s = s;
}.

Section Ops.
Context {S : Type} `{HasLocks S}.

Definition acquire (l : lock) : M S unit := fun s =>
  if decide (l ∈ held s) then Panic "acquire"
  else Done tt (set_held ({[l]} ∪ held s) s).

Definition release (l : lock) : M S unit := fun s =>
  if decide (l ∈ held s) then Done tt (set_held (held s ∖ {[l]}) s)
  else Panic "release".

Definition holding (l : lock) (s : S) : bool := bool_decide (l ∈ held s).

Lemma wp_acquire I l s (Q : unit -> S -> Prop) :
  l ∉ held s -> Q tt (set_held ({[l]} ∪ held s) s) -> wp I (acquire l s) Q.
Proof. intros Hl HQ. unfold acquire. rewrite decide_False by done. done. Qed.

Lemma wp_release I l s (Q : unit -> S -> Prop) :
  l ∈ held s -> Q tt (set_held (held s ∖ {[l]}) s) -> wp I (release l s) Q.
Proof. intros Hl HQ. unfold release. rewrite decide_True by done. done. Qed.

Lemma acquire_free l s : l ∉ held s -> acquire l s = Done tt (set_held ({[l]} ∪ held s) s).
Proof. intros. unfold acquire. by rewrite decide_False. Qed.

Lemma release_held l s : l ∈ held s -> release l s = Done tt (set_held (held s ∖ {[l]}) s).
Proof. intros. unfold release. by rewrite decide_True. Qed.

End Ops.

Lemma held_cycle (l : lock) (h : gset lock) : l ∉ h -> ({[l]} ∪ h) ∖ {[l]} = h.
Proof.
  intros Hl. apply set_eq. intros x. rewrite elem_of_difference, elem_of_union, elem_of_singleton.
  split; [tauto|]. intros Hx. split; [by right|]. by intros ->.
Qed.

Lemma held_top (l : lock) (h : gset lock) : l ∈ ({[l]} ∪ h).
Proof. set_solver. Qed.
#[export] Hint Resolve held_top : kernel.

(** A lock taken and given back leaves the state as it was. *)
Lemma lock_cycle {S} `{HasLocks S} (l : lock) (s : S) :
  l ∉ held s -> release l (set_held ({[l]} ∪ held s) s) = Done tt s.
Proof.
  intros Hl. rewrite release_held by (rewrite held_set; apply held_top).
  by rewrite held_set, set_held_set, held_cycle, set_held_id.
Qed.
