(* ===== verification/Spinlock.v ===== *)
(** Spin locks (kernel/spinlock.c) on a machine with several harts.

    A hart runs acquire() and release() in the atomic steps of the code: the
    entry (push_off and the holding() test), each atomic swap, the store of
    [lk->cpu], and for release the clearing of [lk->cpu] and of [lk->locked].
    Harts interleave at every step.  The theorems are mutual exclusion, the
    meaning of [noff], and that the operations implement those of Locks.v,
    which the rest of the development uses for the hart it looks at. *)

From stdpp Require Import functions.
From S2P Require Import Prelude Locks.

(** struct cpu, and whether the hart's interrupts are enabled. *)
Record cpu := Cpu { noff : Z; intena : bool; intr : bool }.

Definition push_off (c : cpu) : cpu :=
  Cpu (noff c + 1) (if noff c =? 0 then intr c else intena c) false.

(** [None] is a panic. *)
Definition pop_off (c : cpu) : option cpu :=
  if intr c then None
  else if noff c <? 1 then None
  else
    let n := noff c - 1 in
    Some (Cpu n (intena c) (if (n =? 0) && intena c then true else false)).

(** Where a hart is in acquire() or release(). *)
Inductive place := Outside | Spinning (l : lock) | Swapped (l : lock) | Clearing (l : lock).

Definition hart : Type := nat.

(** [locked]: the locks whose [locked] word is 1; [owner]: [lk->cpu]. *)
Record machine := Machine {
  locked : gset lock;
  owner : gmap lock hart;
  cpus : hart -> cpu;
  pc : hart -> place;
}.

Definition holding (m : machine) (h : hart) (l : lock) : bool :=
  bool_decide (l ∈ locked m) && bool_decide (owner m !! l = Some h).

Definition set_pc (h : hart) (p : place) (m : machine) : machine := m {{ pc ::= <[h := p]> }}.
Definition set_cpu (h : hart) (c : cpu) (m : machine) : machine := m {{ cpus ::= <[h := c]> }}.

(** ** The steps of one hart *)

Inductive outcome := Go (m : machine) | PanicAcquire | PanicRelease | PanicPopOff.

Definition acquire_enter (h : hart) (l : lock) (m : machine) : outcome :=
  let m := set_cpu h (push_off (cpus m h)) m in
  if holding m h l then PanicAcquire else Go (set_pc h (Spinning l) m).

(** [__sync_lock_test_and_set(&lk->locked, 1)]: the loop ends when the word was 0. *)
Definition acquire_swap (h : hart) (l : lock) (m : machine) : outcome :=
  if decide (l ∈ locked m) then Go m
  else Go (set_pc h (Swapped l) (m {{ locked ::= union {[l]} }})).

Definition acquire_record (h : hart) (l : lock) (m : machine) : outcome :=
  Go (set_pc h Outside (m {{ owner ::= <[l := h]> }})).

Definition release_enter (h : hart) (l : lock) (m : machine) : outcome :=
  if negb (holding m h l) then PanicRelease
  else Go (set_pc h (Clearing l) (m {{ owner ::= delete l }})).

Definition release_store (h : hart) (l : lock) (m : machine) : outcome :=
  match pop_off (cpus m h) with
  | None => PanicPopOff
  | Some c => Go (set_pc h Outside (set_cpu h c (m {{ locked ::= fun s => s ∖ {[l]} }})))
  end.

(** One step of hart [h]; what it does outside the two functions is its own
    choice, as long as it does not touch the locks. *)
Inductive step (h : hart) (m : machine) : outcome -> Prop :=
| StepAcquire l : pc m h = Outside -> step h m (acquire_enter h l m)
| StepSwap l : pc m h = Spinning l -> step h m (acquire_swap h l m)
| StepRecord l : pc m h = Swapped l -> step h m (acquire_record h l m)
| StepRelease l : pc m h = Outside -> step h m (release_enter h l m)
| StepStore l : pc m h = Clearing l -> step h m (release_store h l m).

(** initlock: every lock free, every hart outside with interrupts enabled. *)
Definition initial : machine :=
  Machine ∅ ∅ (fun _ => Cpu 0 false true) (fun _ => Outside).

Inductive reachable : machine -> Prop :=
| ReachInit : reachable initial
| ReachStep h m m' : reachable m -> step h m (Go m') -> reachable m'.

(** ** What the locks mean *)

(** The locks hart [h] holds: acquire() has returned and release() has not begun. *)
Definition held_by (h : hart) (m : machine) : gset lock :=
  dom (filter (fun '(_, o) => o = h) (owner m)).

(** [h] is in the critical section of [l], or between the swap and the record,
    or between the clearing of the owner and of the word. *)
Definition has_lock (m : machine) (h : hart) (l : lock) : Prop :=
  owner m !! l = Some h \/ pc m h = Swapped l \/ pc m h = Clearing l.

(** One push_off pending for the operation in progress. *)
Definition pending (p : place) : Z := match p with Outside => 0 | _ => 1 end.

Record lock_inv (m : machine) : Prop := {
  inv_locked : forall l, l ∈ locked m <-> exists h, has_lock m h l;
  inv_one : forall h h' l, has_lock m h l -> has_lock m h' l -> h = h';
  inv_owner : forall h l, owner m !! l = Some h -> pc m h <> Swapped l /\ pc m h <> Clearing l;
  inv_noff : forall h, noff (cpus m h) = Z.of_nat (size (held_by h m)) + pending (pc m h);
  inv_intr : forall h, 0 < noff (cpus m h) -> intr (cpus m h) = false;
}.

Lemma elem_of_held_by h m l : l ∈ held_by h m <-> owner m !! l = Some h.
Proof.
  unfold held_by. rewrite elem_of_dom. split.
  - intros [o Ho]. apply map_lookup_filter_Some in Ho as [Ho ->]. done.
  - intros Ho. exists h. by apply map_lookup_filter_Some.
Qed.

Lemma holding_spec m h l : lock_inv m -> holding m h l = true <-> l ∈ held_by h m.
Proof.
  intros Hi. rewrite elem_of_held_by. unfold holding. rewrite andb_true_iff, !bool_decide_eq_true.
  split; [tauto|]. intros Ho. split; [|done]. apply (inv_locked m Hi). exists h. by left.
Qed.

Lemma initial_inv : lock_inv initial.
Proof.
  split; simpl.
  - intros l. split; [set_solver|]. intros [h [Ho|[?|?]]]; simpl in *; done.
  - intros h h' l [Ho|[?|?]]; simpl in *; done.
  - done.
  - intros h. assert (held_by h initial = ∅) as ->; [|by rewrite size_empty].
    apply set_eq. intros l. rewrite elem_of_held_by. simpl. set_solver.
  - intros h. lia.
Qed.

(** ** Preservation *)

Lemma pc_set h p m h' : pc (set_pc h p m) h' = if decide (h' = h) then p else pc m h'.
Proof. unfold set_pc. simpl. case_decide as Hd; [subst; apply fn_lookup_insert|by apply fn_lookup_insert_ne]. Qed.

Lemma cpu_set h c m h' : cpus (set_cpu h c m) h' = if decide (h' = h) then c else cpus m h'.
Proof. unfold set_cpu. simpl. case_decide as Hd; [subst; apply fn_lookup_insert|by apply fn_lookup_insert_ne]. Qed.

(** A step that keeps the owners keeps what every hart holds. *)
Lemma held_by_owner h m m' : owner m' = owner m -> held_by h m' = held_by h m.
Proof. intros E. unfold held_by. by rewrite E. Qed.

Lemma acquire_enter_inv h l m m' :
  lock_inv m -> pc m h = Outside -> acquire_enter h l m = Go m' -> lock_inv m'.
Proof.
  intros Hi Hpc. unfold acquire_enter. case_match; [done|]. intros [= <-].
  set (m1 := set_cpu h (push_off (cpus m h)) m).
  assert (Hhas : forall h' l', has_lock (set_pc h (Spinning l) m1) h' l' <-> has_lock m h' l').
  { intros h' l'. unfold has_lock. rewrite pc_set. change (owner (set_pc _ _ m1)) with (owner m).
    change (pc m1 h') with (pc m h'). case_decide; [subst; rewrite Hpc; naive_solver|done]. }
  split.
  - intros l'. change (locked (set_pc _ _ m1)) with (locked m). rewrite (inv_locked m Hi).
    by setoid_rewrite Hhas.
  - intros h1 h2 l'. rewrite !Hhas. apply (inv_one m Hi).
  - intros h' l' Ho. rewrite pc_set. change (pc m1 h') with (pc m h'). case_decide; [done|].
    by apply (inv_owner m Hi).
  - intros h'. change (cpus (set_pc _ _ m1) h') with (cpus m1 h'). rewrite pc_set.
    rewrite (held_by_owner h' m) by done. unfold m1 at 1. rewrite cpu_set.
    change (pc m1 h') with (pc m h'). pose proof (inv_noff m Hi h') as Hn.
    case_decide; [|done]. subst. rewrite Hpc in Hn. simpl in *. lia.
  - intros h'. change (cpus (set_pc _ _ m1) h') with (cpus m1 h'). unfold m1. rewrite cpu_set.
    case_decide; [done|]. apply (inv_intr m Hi).
Qed.

Lemma acquire_swap_inv h l m m' :
  lock_inv m -> pc m h = Spinning l -> acquire_swap h l m = Go m' -> lock_inv m'.
Proof.
  intros Hi Hpc. unfold acquire_swap. case_decide as Hl; [by intros [= <-]|]. intros [= <-].
  match goal with |- lock_inv (set_pc _ _ ?x) => set (m1 := x) end.
  assert (Hfree : forall h', ~ has_lock m h' l).
  { intros h' Hh. apply Hl, (inv_locked m Hi). by exists h'. }
  assert (Hhas : forall h' l', has_lock (set_pc h (Swapped l) m1) h' l' <-> has_lock m h' l' \/ (h' = h /\ l' = l)).
  { intros h' l'. unfold has_lock. rewrite pc_set. change (owner (set_pc _ _ m1)) with (owner m).
    change (pc m1 h') with (pc m h'). case_decide; [subst; rewrite Hpc; naive_solver|naive_solver]. }
  split.
  - intros l'. assert (locked (set_pc h (Swapped l) m1) = {[l]} ∪ locked m) as -> by done.
    rewrite elem_of_union, elem_of_singleton, (inv_locked m Hi). setoid_rewrite Hhas. naive_solver.
  - intros h1 h2 l'. rewrite !Hhas. intros [H1|[E1 L1]] [H2|[E2 L2]]; subst; [by eapply (inv_one m Hi)|..].
    + by destruct (Hfree h1).
    + by destruct (Hfree h2).
    + done.
  - intros h' l' Ho. rewrite pc_set. change (pc m1 h') with (pc m h'). case_decide; [|by apply (inv_owner m Hi)].
    subst. split; [|done]. intros [= ->]. apply (Hfree h). by left.
  - intros h'. change (cpus (set_pc _ _ m1) h') with (cpus m h'). rewrite pc_set.
    rewrite (held_by_owner h' m) by done. change (pc m1 h') with (pc m h').
    pose proof (inv_noff m Hi h') as Hn. case_decide; [|done]. subst. by rewrite Hpc in Hn.
  - intros h'. apply (inv_intr m Hi).
Qed.

Lemma held_after_record h l m :
  lock_inv m -> pc m h = Swapped l ->
  forall h', held_by h' (set_pc h Outside (m {{ owner ::= <[l := h]> }}))
  = if decide (h' = h) then {[l]} ∪ held_by h' m else held_by h' m.
Proof.
  intros Hi Hpc.
  assert (Hnone : owner m !! l = None).
  { destruct (owner m !! l) as [o|] eqn:Ho; [|done].
    assert (o = h) as -> by (apply (inv_one m Hi o h l); [by left|by right; left]).
    by apply (inv_owner m Hi) in Ho as [? _]. }
  intros h'. apply set_eq. intros l'. rewrite elem_of_held_by. simpl.
  rewrite lookup_insert_Some. case_decide; rewrite ?elem_of_union, ?elem_of_singleton, elem_of_held_by; naive_solver.
Qed.

Lemma held_after_release h l m :
  l ∈ held_by h m ->
  forall h', held_by h' (set_pc h (Clearing l) (m {{ owner ::= delete l }}))
  = if decide (h' = h) then held_by h' m ∖ {[l]} else held_by h' m.
Proof.
  intros Ho%elem_of_held_by h'. apply set_eq. intros l'. rewrite elem_of_held_by. simpl.
  rewrite lookup_delete_Some. case_decide; rewrite ?elem_of_difference, ?elem_of_singleton, elem_of_held_by; naive_solver.
Qed.

Lemma acquire_record_inv h l m m' :
  lock_inv m -> pc m h = Swapped l -> acquire_record h l m = Go m' -> lock_inv m'.
Proof.
  intros Hi Hpc [= <-]. match goal with |- lock_inv (set_pc _ _ ?x) => set (m1 := x) end.
  assert (Hmine : has_lock m h l) by (by right; left).
  assert (Hnone : owner m !! l = None).
  { destruct (owner m !! l) as [o|] eqn:Ho; [|done].
    assert (o = h) as -> by (apply (inv_one m Hi o h l); [by left|done]).
    by apply (inv_owner m Hi) in Ho as [? _]. }
  pose proof (held_after_record h l m Hi Hpc) as Hheld. fold m1 in Hheld.
  assert (Hhas : forall h' l', has_lock (set_pc h Outside m1) h' l' <-> has_lock m h' l').
  { intros h' l'. unfold has_lock. rewrite pc_set. change (owner (set_pc _ _ m1)) with (<[l := h]> (owner m)).
    change (pc m1 h') with (pc m h'). rewrite lookup_insert_Some.
    case_decide; [subst; rewrite Hpc; naive_solver|]. naive_solver. }
  split.
  - intros l'. change (locked (set_pc _ _ m1)) with (locked m). rewrite (inv_locked m Hi).
    by setoid_rewrite Hhas.
  - intros h1 h2 l'. rewrite !Hhas. apply (inv_one m Hi).
  - intros h' l'. change (owner _) with (<[l := h]> (owner m)). rewrite lookup_insert_Some, pc_set.
    change (pc m1 h') with (pc m h'). case_decide; [done|].
    intros [[_ ?]|[_ Ho]]; [congruence|]. by apply (inv_owner m Hi).
  - intros h'. change (cpus (set_pc _ _ m1) h') with (cpus m h'). rewrite pc_set, Hheld.
    change (pc m1 h') with (pc m h'). pose proof (inv_noff m Hi h') as Hn. case_decide; [|done]. subst.
    rewrite Hpc in Hn. rewrite size_union, size_singleton.
    + simpl pending in *. lia.
    + apply disjoint_singleton_l. rewrite elem_of_held_by. congruence.
  - intros h'. apply (inv_intr m Hi).
Qed.

Lemma release_enter_inv h l m m' :
  lock_inv m -> pc m h = Outside -> release_enter h l m = Go m' -> lock_inv m'.
Proof.
  intros Hi Hpc. unfold release_enter. destruct (holding m h l) eqn:Hh; simpl; [|done]. intros [= <-].
  apply (holding_spec m h l Hi) in Hh. pose proof Hh as Ho. apply elem_of_held_by in Ho.
  match goal with |- lock_inv (set_pc _ _ ?x) => set (m1 := x) end.
  pose proof (held_after_release h l m Hh) as Hheld. fold m1 in Hheld.
  assert (Hhas : forall h' l', has_lock (set_pc h (Clearing l) m1) h' l' <-> has_lock m h' l').
  { intros h' l'. unfold has_lock. rewrite pc_set. change (owner (set_pc _ _ m1)) with (delete l (owner m)).
    change (pc m1 h') with (pc m h'). rewrite lookup_delete_Some.
    case_decide; [subst; rewrite Hpc; destruct (decide (l' = l)); naive_solver|].
    split; [naive_solver|]. intros [Ho'|?]; [|naive_solver]. left. split; [|done]. intros ->. congruence. }
  split.
  - intros l'. change (locked (set_pc _ _ m1)) with (locked m). rewrite (inv_locked m Hi).
    by setoid_rewrite Hhas.
  - intros h1 h2 l'. rewrite !Hhas. apply (inv_one m Hi).
  - intros h' l'. change (owner _) with (delete l (owner m)). rewrite lookup_delete_Some, pc_set.
    change (pc m1 h') with (pc m h'). intros [Hne Ho']. case_decide; [|by apply (inv_owner m Hi)].
    split; [done|]. intros [=]. congruence.
  - intros h'. change (cpus (set_pc _ _ m1) h') with (cpus m h'). rewrite pc_set, Hheld.
    change (pc m1 h') with (pc m h'). pose proof (inv_noff m Hi h') as Hn. case_decide; [|done]. subst.
    rewrite Hpc in Hn. rewrite size_difference, size_singleton by (by apply singleton_subseteq_l).
    assert (0 < size (held_by h m))%nat; [|simpl pending in *; lia].
    destruct (size (held_by h m)) eqn:E; [|lia]. apply size_empty_inv in E. set_solver.
  - intros h'. apply (inv_intr m Hi).
Qed.

Lemma release_store_inv h l m m' :
  lock_inv m -> pc m h = Clearing l -> release_store h l m = Go m' -> lock_inv m'.
Proof.
  intros Hi Hpc. unfold release_store, pop_off. destruct (intr (cpus m h)) eqn:Hintr; [done|].
  destruct (Z.ltb_spec (noff (cpus m h)) 1) as [|Hpos]; [done|]. intros [= <-].
  match goal with |- context [set_cpu h ?c ?x] => set (c' := c); set (m1 := x) end.
  assert (Hmine : has_lock m h l) by (by right; right).
  assert (Hhas : forall h' l', has_lock (set_pc h Outside (set_cpu h c' m1)) h' l' <-> has_lock m h' l' /\ l' <> l).
  { intros h' l'. unfold has_lock. rewrite pc_set. change (owner (set_pc _ _ _)) with (owner m).
    change (pc (set_cpu h c' m1) h') with (pc m h'). case_decide as Hd.
    - subst. rewrite Hpc. split.
      + intros [Ho|[?|?]]; [|done..]. split; [by left|]. intros ->. by apply (inv_owner m Hi) in Ho as [_ ?].
      + intros [[?|[?|?]] ?]; [by left|done|congruence].
    - split; [|tauto]. intros Hh. split; [done|]. intros ->. by apply Hd, (inv_one m Hi h' h l). }
  split.
  - intros l'. change (locked _) with (locked m ∖ {[l]}). rewrite elem_of_difference, elem_of_singleton, (inv_locked m Hi).
    setoid_rewrite Hhas. naive_solver.
  - intros h1 h2 l'. rewrite !Hhas. intros [? _] [? _]. by eapply (inv_one m Hi).
  - intros h' l' Ho. rewrite pc_set. change (pc (set_cpu h c' m1) h') with (pc m h').
    case_decide; [done|]. by apply (inv_owner m Hi).
  - intros h'. change (cpus (set_pc _ _ ?x) h') with (cpus x h'). rewrite pc_set, cpu_set.
    rewrite (held_by_owner h' m) by done. change (pc (set_cpu h c' m1) h') with (pc m h').
    pose proof (inv_noff m Hi h') as Hn. case_decide; [|done]. subst. rewrite Hpc in Hn. simpl in *. lia.
  - intros h'. change (cpus (set_pc _ _ ?x) h') with (cpus x h'). rewrite cpu_set.
    case_decide; [|apply (inv_intr m Hi)]. subst. simpl. intros Hn.
    by rewrite (proj2 (Z.eqb_neq _ 0)) by lia.
Qed.

Lemma reachable_inv m : reachable m -> lock_inv m.
Proof.
  induction 1 as [|h m m' _ IH Hs]; [apply initial_inv|]. inversion Hs; subst.
  - by eapply acquire_enter_inv.
  - by eapply acquire_swap_inv.
  - by eapply acquire_record_inv.
  - by eapply release_enter_inv.
  - by eapply release_store_inv.
Qed.

(** ** Properties *)

(** C29: in every reachable state of the machine, whatever the interleaving of the
    harts' steps, a lock is held by at most one hart, its [locked] word is 1
    exactly when some hart is between the swap and the clearing store, noff
    counts the locks a hart holds plus the operation in progress, and a hart
    with a positive noff has interrupts off. *)
Theorem mutual_exclusion m :
  reachable m ->
  (forall h h' l, has_lock m h l -> has_lock m h' l -> h = h') /\
  (forall l, l ∈ locked m <-> exists h, has_lock m h l) /\
  (forall h, noff (cpus m h) = Z.of_nat (size (held_by h m)) + pending (pc m h)) /\
  (forall h, 0 < noff (cpus m h) -> intr (cpus m h) = false).
Proof. intros Hi%reachable_inv. destruct Hi. auto. Qed.

(** What a hart holds, as the state of Locks.v. *)
#[export] Program Instance gset_locks : HasLocks (gset lock) := {| held s := s; set_held h _ := h |}.
Next Obligation. done. Qed.
Next Obligation. done. Qed.
Next Obligation. done. Qed.

(** No hart holds other locks than before; no hart but [h] does. *)
Definition same_locks (m m' : machine) : Prop := forall h, held_by h m' = held_by h m.
Definition others_same (h : hart) (m m' : machine) : Prop := forall h', h' <> h -> held_by h' m' = held_by h' m.

Section Steps.
Context (m : machine) (h : hart) (l : lock) (Hi : lock_inv m).

Lemma enter_spec :
  pc m h = Outside ->
  (Locks.acquire l (held_by h m) = Panic "acquire" /\ acquire_enter h l m = PanicAcquire) \/
  (Locks.acquire l (held_by h m) = Done tt ({[l]} ∪ held_by h m) /\
   exists m', acquire_enter h l m = Go m' /\ pc m' h = Spinning l /\ same_locks m m').
Proof.
  intros Hpc. pose proof (holding_spec m h l Hi) as Hs. unfold acquire_enter, Locks.acquire.
  change (holding (set_cpu h (push_off (cpus m h)) m) h l) with (holding m h l). destruct (holding m h l).
  - left. by rewrite decide_True by (apply Hs; reflexivity).
  - right. rewrite decide_False by (intros E%Hs; discriminate E). split; [done|].
    eexists. split; [done|]. split; [rewrite pc_set; by rewrite decide_True|]. done.
Qed.

Lemma swap_spec :
  exists m', acquire_swap h l m = Go m' /\ same_locks m m' /\
    ((l ∈ locked m /\ m' = m) \/ ((l ∉ locked m) /\ pc m' h = Swapped l)).
Proof.
  unfold acquire_swap. case_decide as Hl; eexists; (split; [reflexivity|]); split; try done.
  - by left.
  - right. split; [done|]. by rewrite pc_set, decide_True.
Qed.

Lemma record_spec :
  pc m h = Swapped l ->
  exists m', acquire_record h l m = Go m' /\ Locks.acquire l (held_by h m) = Done tt (held_by h m') /\
    others_same h m m' /\ pc m' h = Outside.
Proof.
  intros Hpc. eexists. split; [reflexivity|]. pose proof (held_after_record h l m Hi Hpc) as Hheld.
  split; [|split; [|by rewrite pc_set, decide_True]].
  - rewrite Hheld, decide_True by done. unfold Locks.acquire. rewrite decide_False; [done|]. simpl.
    rewrite elem_of_held_by. intros Ho. by apply (inv_owner m Hi) in Ho as [? _].
  - intros h' Hne. by rewrite Hheld, decide_False.
Qed.

Lemma release_spec :
  pc m h = Outside ->
  (Locks.release l (held_by h m) = Panic "release" /\ release_enter h l m = PanicRelease) \/
  (exists m', release_enter h l m = Go m' /\ Locks.release l (held_by h m) = Done tt (held_by h m') /\
     others_same h m m' /\ pc m' h = Clearing l).
Proof.
  intros Hpc. pose proof (holding_spec m h l Hi) as Hs. unfold release_enter, Locks.release.
  destruct (holding m h l); cbn [negb].
  - right. assert (Hl : l ∈ held_by h m) by (by apply Hs). pose proof (held_after_release h l m Hl) as Hheld.
    eexists. split; [reflexivity|]. split; [|split; [|by rewrite pc_set, decide_True]].
    + by rewrite Hheld, !decide_True by done.
    + intros h' Hne. by rewrite Hheld, decide_False.
  - left. by rewrite decide_False by (intros E%Hs; discriminate E).
Qed.

Lemma store_spec :
  pc m h = Clearing l ->
  exists m', release_store h l m = Go m' /\ same_locks m m' /\ locked m' = (locked m ∖ {[l]}) /\ pc m' h = Outside.
Proof.
  intros Hpc. unfold release_store, pop_off.
  pose proof (inv_noff m Hi h) as Hn. rewrite Hpc in Hn. simpl pending in Hn.
  rewrite (inv_intr m Hi) by lia. rewrite (proj2 (Z.ltb_ge _ 1)) by lia.
  eexists. split; [reflexivity|]. split; [done|]. split; [done|]. by rewrite pc_set, decide_True.
Qed.

End Steps.

(** C30: the steps of a hart implement acquire and release of Locks.v on the set of
    locks the hart holds, and do not change what other harts hold.  acquire(l) panics
    exactly when the hart holds l already, spins for as long as the word of l is 1, and
    its last step adds l; release(l) panics exactly when the hart does not hold l, and
    otherwise its first step removes l and its second clears the word, without a panic
    in pop_off. *)
Theorem implements_locks m h l :
  reachable m ->
  (pc m h = Outside ->
     (Locks.acquire l (held_by h m) = Panic "acquire" /\ acquire_enter h l m = PanicAcquire) \/
     (Locks.acquire l (held_by h m) = Done tt ({[l]} ∪ held_by h m) /\
      exists m', acquire_enter h l m = Go m' /\ pc m' h = Spinning l /\ same_locks m m')) /\
  (pc m h = Spinning l ->
     exists m', acquire_swap h l m = Go m' /\ same_locks m m' /\
       ((l ∈ locked m /\ m' = m) \/ ((l ∉ locked m) /\ pc m' h = Swapped l))) /\
  (pc m h = Swapped l ->
     exists m', acquire_record h l m = Go m' /\ Locks.acquire l (held_by h m) = Done tt (held_by h m') /\
       others_same h m m' /\ pc m' h = Outside) /\
  (pc m h = Outside ->
     (Locks.release l (held_by h m) = Panic "release" /\ release_enter h l m = PanicRelease) \/
     (exists m', release_enter h l m = Go m' /\ Locks.release l (held_by h m) = Done tt (held_by h m') /\
        others_same h m m' /\ pc m' h = Clearing l)) /\
  (pc m h = Clearing l ->
     exists m', release_store h l m = Go m' /\ same_locks m m' /\ locked m' = (locked m ∖ {[l]}) /\ pc m' h = Outside).
Proof.
  intros Hi%reachable_inv. split; [by apply enter_spec|]. split; [intros _; apply swap_spec|].
  split; [by apply record_spec|]. split; [by apply release_spec|]. by apply store_spec.
Qed.

(** Hart 0 takes a lock while hart 1 spins. *)
Definition lk : lock := ("lk"%string, 0).
Definition after (o : outcome) : machine := match o with Go m => m | _ => initial end.
Definition taken : machine :=
  after (acquire_record 0%nat lk (after (acquire_swap 0%nat lk (after (acquire_enter 0%nat lk initial))))).
Definition contended : machine := after (acquire_enter 1%nat lk taken).

Lemma contended_reachable : reachable contended.
Proof.
  eapply (ReachStep 1%nat taken); [|by apply (StepAcquire 1%nat taken lk)].
  eapply (ReachStep 0%nat); [|by apply (StepRecord 0%nat _ lk)].
  eapply (ReachStep 0%nat); [|by apply (StepSwap 0%nat (after (acquire_enter 0%nat lk initial)) lk)].
  eapply (ReachStep 0%nat initial); [constructor|by apply (StepAcquire 0%nat initial lk)].
Qed.

Lemma mutual_exclusion_witness :
  ~ has_lock contended 1%nat lk /\ noff (cpus contended 1%nat) = Z.of_nat (size (held_by 1%nat contended)) + 1.
Proof.
  destruct (mutual_exclusion contended contended_reachable) as (H1 & _ & Hn & _).
  split; [|exact (Hn 1%nat)]. intros Hh. discriminate (H1 0%nat 1%nat lk ltac:(by left) Hh).
Defined.

(** Hart 0 enters acquire() of the lock it holds. *)
Lemma implements_locks_witness : acquire_enter 0%nat lk contended = PanicAcquire.
Proof.
  destruct (implements_locks contended 0%nat lk contended_reachable) as [Ha _].
  destruct Ha as [[_ E]|(E & _)]; [reflexivity|exact E|]. exfalso. revert E. by vm_compute.
Defined.
