(* ===== verification/Kalloc.v ===== *)
(** The physical page allocator with the reference counts of copy-on-write
    pages (kernel/kalloc.c).

    [phys] is the state: RAM, the head of the free list (whose links are the
    first words of the free pages themselves), the array of reference counts
    and the locks held.  [kmem_inv s l] is the allocator's invariant: the free
    list is the list [l] of distinct allocatable pages, and the pages on it are
    exactly those with reference count zero. *)

From S2P Require Import Prelude Mem Riscv Locks.

Record phys := Phys {
  pmem : mem;
  freelist : Z;
  page_ref : gmap Z Z;
  pheld : gset lock;
}.

#[export] Program Instance phys_locks : HasLocks phys := {|
  held := pheld;
  set_held h s := Phys (pmem s) (freelist s) (page_ref s) h
|}.
Next Obligation. done. Qed.
Next Obligation. done. Qed.
Next Obligation. intros []. done. Qed.

Definition set_pmem (f : mem -> mem) (s : phys) : phys :=
  Phys (f (pmem s)) (freelist s) (page_ref s) (pheld s).
Definition set_freelist (p : Z) (s : phys) : phys :=
  Phys (pmem s) p (page_ref s) (pheld s).
Definition set_count (i c : Z) (s : phys) : phys :=
  Phys (pmem s) (freelist s) (<[i := c]> (page_ref s)) (pheld s).

Definition kmem_lock : lock := ("kmem", 0).
Definition page_ref_lock : lock := ("page_ref", 0).

(** The length of page_ref.count[], a zero-initialised array. *)
Definition NREF : Z := Z.shiftr (PGROUNDUP PHYSTOP) 12.
Definition count (s : phys) (i : Z) : Z := default 0 (page_ref s !! i).

(** [page_ref.count[i]]: an index outside the array is undefined. *)
Definition ref_index (pa : Z) : M phys Z :=
  let i := Z.shiftr pa 12 in
  if (0 <=? i) && (i <? NREF) then ret i else undef "page_ref.count index".

Definition decrease_pgreference (pa : Z) : M phys Z :=
  acquire page_ref_lock;;;
  i <- ref_index pa;;
  c <- gets (fun s => count s i);;
  when (c <=? 0) (panic "decrease_pgreference");;;
  modify (set_count i (i32 (c - 1)));;;
  c' <- gets (fun s => count s i);;
  if c' >? 0 then
    release page_ref_lock;;;
    ret 0
  else
    release page_ref_lock;;;
    ret 1.

Definition increase_pgreference (pa : Z) : M phys unit :=
  acquire page_ref_lock;;;
  i <- ref_index pa;;
  c <- gets (fun s => count s i);;
  when (c <? 0) (panic "increase_pgreference");;;
  modify (set_count i (i32 (c + 1)));;;
  release page_ref_lock.

Section Kalloc.
Context `{Layout}.

Definition kfree (pa : Z) : M phys unit :=
  if negb (pa mod PGSIZE =? 0) || (pa <? end_) || (pa >=? PHYSTOP)
  then panic "kfree"
  else
    last <- decrease_pgreference pa;;
    if last =? 0 then ret tt
    else
      modify (set_pmem (fun m => mset m pa 1 PGSIZE));;;
      acquire kmem_lock;;;
      head <- gets freelist;;
      modify (set_pmem (fun m => store64 m pa head));;;
      modify (set_freelist pa);;;
      release kmem_lock.

Definition kalloc : M phys Z :=
  acquire kmem_lock;;;
  r <- gets freelist;;
  when (negb (r =? 0))
    (next <- gets (fun s => load64 (pmem s) r);;
     modify (set_freelist next));;;
  release kmem_lock;;;
  when (negb (r =? 0))
    (modify (set_pmem (fun m => mset m r 5 PGSIZE));;;
     increase_pgreference r);;;
  ret r.

(** [for(; p + PGSIZE <= pa_end; p += PGSIZE)], fuel for every page. *)
Definition freerange (pa_start pa_end : Z) : M phys unit :=
  loop (Z.to_nat ((pa_end - pa_start) / PGSIZE + 2))
    (fun p =>
       if p + PGSIZE <=? pa_end then
         increase_pgreference p;;;
         kfree p;;;
         continue (p + PGSIZE)
       else break tt)
    (PGROUNDUP pa_start).

(** [for (int i = 0; i < NREF; ++i) page_ref.count[i] = 0;] *)
Definition clear_counts : M phys unit :=
  loop (Z.to_nat NREF + 1)
    (fun i =>
       if i <? NREF then modify (set_count i 0);;; continue (i + 1)
       else break tt) 0.

Definition kinit : M phys unit :=
  acquire page_ref_lock;;;
  clear_counts;;;
  release page_ref_lock;;;
  freerange end_ PHYSTOP.

(** ** The invariant *)

(** The pages the allocator manages. *)
Definition valid_page (p : Z) : Prop := p mod PGSIZE = 0 /\ end_ <= p < PHYSTOP.

#[export] Instance valid_page_dec p : Decision (valid_page p).
Proof. unfold valid_page. apply _. Defined.

Definition refs (s : phys) (p : Z) : Z := count s (Z.shiftr p 12).

Fixpoint chain (m : mem) (head : Z) (l : list Z) : Prop :=
  match l with
  | [] => head = 0
  | p :: l' => head = p /\ chain m (load64 m p) l'
  end.

(** The invariant for the pages [V] handed to the allocator so far. *)
Record kmem_inv_on (V : Z -> Prop) (s : phys) (l : list Z) : Prop := KmemInv {
  inv_chain : chain (pmem s) (freelist s) l;
  inv_nodup : NoDup l;
  inv_valid : forall p, p ∈ l -> V p;
  inv_free : forall p, V p -> (p ∈ l <-> refs s p = 0);
  inv_refs : forall p, V p -> 0 <= refs s p < 2 ^ 31 - 1;
}.

Definition kmem_inv : phys -> list Z -> Prop := kmem_inv_on valid_page.

Definition in_page (p a : Z) : Prop := p <= a < p + PGSIZE.

(** Memory outside [P] is untouched. *)
Definition mem_frame (P : Z -> Prop) (m m' : mem) : Prop :=
  forall a, ~ P a -> load8 m' a = load8 m a.

(** Neither allocator lock is held, as the callers ensure. *)
Definition unlocked (s : phys) : Prop :=
  (kmem_lock ∉ pheld s) /\ (page_ref_lock ∉ pheld s).

(** ** Pages *)

Lemma page_bounds : KERNBASE < end_ /\ end_ <= PHYSTOP.
Proof. pose proof etext_end. pose proof end_phystop. lia. Qed.

Lemma valid_page_pos p : valid_page p -> 0 < p < 2 ^ 32.
Proof.
  intros [_ Hp]. pose proof page_bounds.
  unfold PHYSTOP, KERNBASE in *. lia.
Qed.

Lemma valid_pages_disjoint p q :
  p mod PGSIZE = 0 -> q mod PGSIZE = 0 -> p <> q -> p + PGSIZE <= q \/ q + PGSIZE <= p.
Proof. unfold PGSIZE. intros. zdiv. Qed.

Lemma shiftr12 p : Z.shiftr p 12 = p / PGSIZE.
Proof. rewrite Z.shiftr_div_pow2 by lia. done. Qed.

Lemma page_index_inj p q :
  p mod PGSIZE = 0 -> q mod PGSIZE = 0 -> Z.shiftr p 12 = Z.shiftr q 12 -> p = q.
Proof. rewrite !shiftr12. unfold PGSIZE. intros. zdiv. Qed.

Lemma NREF_eq : NREF = PHYSTOP / PGSIZE.
Proof. done. Qed.

Lemma ref_index_ok p s :
  0 <= p < PHYSTOP -> ref_index p s = Done (Z.shiftr p 12) s.
Proof.
  intros Hp. unfold ref_index. rewrite NREF_eq, shiftr12.
  rewrite (proj2 (Z.leb_le 0 _)), (proj2 (Z.ltb_lt _ _)); [done| |].
  - unfold PHYSTOP, KERNBASE, PGSIZE in *. zdiv.
  - unfold PGSIZE. zdiv.
Qed.

Lemma count_set i c s j : count (set_count i c s) j = if decide (i = j) then c else count s j.
Proof. unfold count, set_count. simpl. rewrite lookup_insert. by case_decide. Qed.

Lemma refs_set p c s q :
  p mod PGSIZE = 0 -> q mod PGSIZE = 0 ->
  refs (set_count (Z.shiftr p 12) c s) q = if decide (p = q) then c else refs s q.
Proof.
  intros Hp Hq. unfold refs. rewrite count_set.
  destruct (decide (p = q)) as [-> |Hne]; [by rewrite decide_True|].
  rewrite decide_False; [done|]. intros E. by apply Hne, page_index_inj.
Qed.

(** ** What each operation computes *)

Lemma phys_eta s : Phys (pmem s) (freelist s) (page_ref s) (pheld s) = s.
Proof. by destruct s. Qed.

Lemma decrease_eq p s :
  page_ref_lock ∉ pheld s -> 0 <= p < PHYSTOP -> 0 < refs s p < 2 ^ 31 ->
  decrease_pgreference p s
  = Done (if refs s p =? 1 then 1 else 0) (set_count (Z.shiftr p 12) (refs s p - 1) s).
Proof.
  intros Hl Hp Hc. unfold decrease_pgreference, bind.
  rewrite acquire_free by done. simpl. rewrite ref_index_ok by done. wp_pure.
  change (count (Phys (pmem s) (freelist s) (page_ref s) _) (Z.shiftr p 12)) with (refs s p).
  rewrite (proj2 (Z.leb_gt (refs s p) 0)) by lia. wp_pure.
  rewrite count_set, decide_True by done. rewrite i32_small by lia.
  rewrite Z.gtb_ltb. destruct (Z.ltb_spec 0 (refs s p - 1)), (Z.eqb_spec (refs s p) 1);
    try lia; wp_pure; rewrite release_held by (simpl; auto with kernel); simpl;
    unfold set_count; simpl; by rewrite held_cycle.
Qed.

Lemma increase_eq p s :
  page_ref_lock ∉ pheld s -> 0 <= p < PHYSTOP -> 0 <= refs s p < 2 ^ 31 - 1 ->
  increase_pgreference p s = Done tt (set_count (Z.shiftr p 12) (refs s p + 1) s).
Proof.
  intros Hl Hp Hc. unfold increase_pgreference, bind.
  rewrite acquire_free by done. simpl. rewrite ref_index_ok by done. wp_pure.
  change (count (Phys (pmem s) (freelist s) (page_ref s) _) (Z.shiftr p 12)) with (refs s p).
  rewrite (proj2 (Z.ltb_ge (refs s p) 0)) by lia. wp_pure.
  rewrite i32_small by lia. rewrite release_held by (simpl; auto with kernel).
  unfold set_count; simpl. by rewrite held_cycle.
Qed.

(** The state after the last reference to [p] is dropped. *)
Definition freed (p : Z) (s : phys) : phys :=
  Phys (store64 (mset (pmem s) p 1 PGSIZE) p (freelist s)) p
       (<[Z.shiftr p 12 := 0]> (page_ref s)) (pheld s).

Lemma kfree_eq p s :
  unlocked s -> valid_page p -> 0 < refs s p < 2 ^ 31 ->
  kfree p s = Done tt (if refs s p =? 1 then freed p s
                       else set_count (Z.shiftr p 12) (refs s p - 1) s).
Proof.
  intros [Hk Hr] Hv Hc. pose proof (valid_page_pos p Hv) as Hpos. destruct Hv as [Ha Hb].
  unfold kfree. rewrite Ha, Z.geb_leb. simpl (negb _).
  rewrite (proj2 (Z.ltb_ge p end_)), (proj2 (Z.leb_gt PHYSTOP p)) by lia. simpl.
  unfold bind. rewrite decrease_eq by (done || lia). simpl.
  destruct (Z.eqb_spec (refs s p) 1) as [E|E]; [|done].
  wp_pure. rewrite acquire_free by done. simpl.
  rewrite release_held by (simpl; auto with kernel). simpl.
  unfold freed. rewrite E, held_cycle by done. done.
Qed.

(** The state after [r] is taken off the free list. *)
Definition allocated (r : Z) (s : phys) : phys :=
  Phys (mset (pmem s) r 5 PGSIZE) (load64 (pmem s) r)
       (<[Z.shiftr r 12 := refs s r + 1]> (page_ref s)) (pheld s).

Lemma kalloc_eq s :
  unlocked s ->
  (freelist s <> 0 -> 0 <= freelist s < PHYSTOP /\ 0 <= refs s (freelist s) < 2 ^ 31 - 1) ->
  kalloc s = Done (freelist s) (if freelist s =? 0 then s else allocated (freelist s) s).
Proof.
  intros [Hk Hr] Hf. unfold kalloc, bind. rewrite acquire_free by done. simpl.
  destruct (Z.eqb_spec (freelist s) 0) as [E|E]; wp_pure.
  - rewrite release_held by (simpl; auto with kernel). simpl.
    by rewrite held_cycle, phys_eta.
  - rewrite release_held by (simpl; auto with kernel). wp_pure.
    unfold bindp at 1. destruct (Hf E) as [Hp Hc].
    rewrite increase_eq; [|simpl; rewrite held_cycle by done; done|done|done].
    simpl. unfold allocated, set_count. simpl. rewrite held_cycle by done. done.
Qed.

(** ** The free list *)

Lemma chain_frame (P : Z -> Prop) m m' h l :
  mem_frame P m m' -> (forall p a, p ∈ l -> p <= a < p + 8 -> ~ P a) ->
  chain m h l -> chain m' h l.
Proof.
  intros Hm. revert h. induction l as [|p l IH]; intros h HP; simpl; [done|].
  intros [-> Hc]. split; [done|].
  rewrite (load64_ext m' m).
  - apply IH; [|done]. intros q a Hq. apply HP. by right.
  - intros a Ha. apply Hm. apply (HP p); [by left|done].
Qed.

Lemma frame_mset m p c : mem_frame (in_page p) m (mset m p c PGSIZE).
Proof. intros a Ha. unfold in_page in Ha. mem_simpl. bool_split. Qed.

Lemma frame_freed p s : mem_frame (in_page p) (pmem s) (pmem (freed p s)).
Proof.
  intros a Ha. unfold in_page, PGSIZE in Ha. unfold freed, store64. simpl.
  mem_simpl. unfold PGSIZE. bool_split.
Qed.

Lemma refs_freed p s q :
  p mod PGSIZE = 0 -> q mod PGSIZE = 0 ->
  refs (freed p s) q = if decide (p = q) then 0 else refs s q.
Proof. apply (refs_set p 0 s q). Qed.

Lemma refs_allocated p s q :
  p mod PGSIZE = 0 -> q mod PGSIZE = 0 ->
  refs (allocated p s) q = if decide (p = q) then refs s p + 1 else refs s q.
Proof. apply (refs_set p _ s q). Qed.

(** ** The operations keep the invariant *)

Lemma kmem_inv_ext (V V' : Z -> Prop) s l :
  (forall p, V p <-> V' p) -> kmem_inv_on V s l -> kmem_inv_on V' s l.
Proof. intros HV []. split; try done; intros p; rewrite <- HV; auto. Qed.

(** Putting a page on the list, whether it was managed before or is new. *)
Lemma freed_inv V s l p :
  (forall q, V q -> valid_page q) -> kmem_inv_on V s l -> valid_page p -> p ∉ l ->
  kmem_inv_on (fun q => V q \/ q = p) (freed p s) (p :: l).
Proof.
  intros HV [Hc Hn Hv Hf Hr] Hp Hl.
  assert (Hal : forall q, V q -> q mod PGSIZE = 0) by (intros q Hq; by apply HV).
  destruct Hp as [Hpa Hpb] eqn:Ep. split.
  - simpl. split; [done|].
    rewrite load64_store64_eq.
    2: { destruct l as [|q l]; simpl in Hc; [lia|]. destruct Hc as [-> _].
         pose proof (valid_page_pos q (HV q (Hv q ltac:(by left)))). lia. }
    eapply chain_frame; [apply frame_freed| |done].
    intros q a Hq Ha Hin. unfold in_page in Hin.
    assert (q <> p) by (by intros ->).
    pose proof (Hal q (Hv q Hq)).
    destruct (valid_pages_disjoint q p); unfold PGSIZE in *; try done; lia.
  - by constructor.
  - intros q [-> |Hq]%elem_of_cons; [by right|left; auto].
  - intros q Hq. rewrite elem_of_cons.
    rewrite refs_freed by (done || (destruct Hq as [Hq| ->]; auto)).
    destruct (decide (p = q)) as [-> |Hne]; [by split; [|left]|].
    destruct Hq as [Hq| ->]; [|done]. rewrite <- (Hf q Hq).
    split; [intros [-> |]; done|by right].
  - intros q Hq. rewrite refs_freed by (done || (destruct Hq as [Hq| ->]; auto)).
    destruct (decide (p = q)); [lia|]. destruct Hq as [Hq| ->]; [auto|done].
Qed.

(** Changing the count of a page in use. *)
Lemma set_count_inv V s l p c :
  (forall q, V q -> valid_page q) -> kmem_inv_on V s l ->
  p mod PGSIZE = 0 -> (V p -> refs s p <> 0) -> 0 < c < 2 ^ 31 - 1 ->
  kmem_inv_on V (set_count (Z.shiftr p 12) c s) l.
Proof.
  intros HV [Hc Hn Hv Hf Hr] Hpa Hp Hcc.
  assert (Hal : forall q, V q -> q mod PGSIZE = 0) by (intros q Hq; by apply HV).
  split; try done.
  - intros q Hq. rewrite refs_set by auto. rewrite (Hf q Hq).
    destruct (decide (p = q)) as [-> |]; [|done]. specialize (Hp Hq). lia.
  - intros q Hq. rewrite refs_set by auto. destruct (decide (p = q)); [lia|auto].
Qed.

Lemma allocated_inv s p l :
  kmem_inv s (p :: l) -> kmem_inv (allocated p s) l.
Proof.
  intros [Hc Hn Hv Hf Hr]. apply NoDup_cons in Hn as [Hpl Hn].
  destruct Hc as [Hfl Hc].
  assert (Hp : valid_page p) by (apply Hv; by left).
  assert (Hrp : refs s p = 0) by (apply Hf; [done|by left]).
  split; [|done|..].
  - simpl. eapply chain_frame; [apply frame_mset| |done].
    intros q a Hq Ha Hin. unfold in_page in Hin.
    assert (Hvq : valid_page q) by (apply Hv; by right).
    assert (q <> p) by (by intros ->).
    destruct (valid_pages_disjoint q p); try apply Hvq; try apply Hp;
      unfold PGSIZE in *; try done; lia.
  - intros q Hq. apply Hv. by right.
  - intros q Hq. rewrite refs_allocated by (apply Hp || apply Hq).
    specialize (Hf q Hq). rewrite elem_of_cons in Hf.
    destruct (decide (p = q)) as [-> |Hne]; [split; [done|lia]|].
    rewrite <- Hf. split; [by right|intros [-> |]; done].
  - intros q Hq. rewrite refs_allocated by (apply Hp || apply Hq).
    destruct (decide (p = q)); [lia|auto].
Qed.

(** What kfree and kalloc do to a state that satisfies the invariant. *)
Lemma kfree_inv s l p :
  unlocked s -> kmem_inv s l -> valid_page p -> refs s p <> 0 ->
  exists s', kfree p s = Done tt s' /\ pheld s' = pheld s /\
    mem_frame (in_page p) (pmem s) (pmem s') /\
    (forall q, valid_page q -> refs s' q = if decide (p = q) then refs s p - 1 else refs s q) /\
    kmem_inv s' (if refs s p =? 1 then p :: l else l) /\
    (refs s p <> 1 -> pmem s' = pmem s).
Proof.
  intros Hu Hi Hp Hne. pose proof (inv_refs _ _ _ Hi p Hp) as Hr.
  rewrite kfree_eq by (done || lia). eexists. split; [done|].
  destruct (Z.eqb_spec (refs s p) 1) as [E|E].
  - split; [done|]. split; [apply frame_freed|]. split; [|split; [|done]].
    + intros q Hq. rewrite refs_freed by (apply Hp || apply Hq).
      destruct (decide (p = q)); [lia|done].
    + eapply kmem_inv_ext; [|apply (freed_inv valid_page); try done].
      * intros q. simpl. split; [by intros [| ->]|by left].
      * intros Hin%(inv_free _ _ _ Hi); [lia|done].
  - split; [done|]. split; [done|]. split; [|split; [|done]].
    + intros q Hq. by rewrite refs_set by (apply Hp || apply Hq).
    + apply set_count_inv; try done; [apply Hp|lia].
Qed.

Lemma kalloc_inv_nil s :
  unlocked s -> kmem_inv s [] -> kalloc s = Done 0 s.
Proof.
  intros Hu Hi. pose proof (inv_chain _ _ _ Hi) as Hc. simpl in Hc.
  rewrite kalloc_eq by (done || lia). by rewrite Hc.
Qed.

Lemma kalloc_inv_cons s p l :
  unlocked s -> kmem_inv s (p :: l) ->
  kalloc s = Done p (allocated p s) /\ kmem_inv (allocated p s) l /\
  valid_page p /\ refs s p = 0 /\ (p ∉ l).
Proof.
  intros Hu Hi. pose proof (inv_chain _ _ _ Hi) as [Hc _].
  assert (Hp : valid_page p) by (apply (inv_valid _ _ _ Hi); by left).
  pose proof (valid_page_pos p Hp).
  assert (Hr : refs s p = 0) by (apply (inv_free _ _ _ Hi); [done|by left]).
  rewrite kalloc_eq; [|done|rewrite Hc; destruct Hp as [? []]; lia].
  rewrite Hc. destruct (Z.eqb_spec p 0); [lia|].
  split; [done|]. split; [by apply allocated_inv|]. repeat split; try apply Hp; try done.
  pose proof (inv_nodup _ _ _ Hi) as Hn. by apply NoDup_cons in Hn as [? _].
Qed.

(** ** Initialisation *)

(** The pages below [x] that freerange has handed to the allocator. *)
Definition below (x p : Z) : Prop := valid_page p /\ p < x.

Lemma clear_counts_spec s Q :
  (forall s', pmem s' = pmem s -> freelist s' = freelist s -> pheld s' = pheld s ->
     (forall p, 0 <= p < PHYSTOP -> refs s' p = 0) -> Q tt s') ->
  runs clear_counts s Q.
Proof.
  intros HQ. unfold clear_counts.
  eapply (wp_loop _ _ (fun n i s' =>
    n = Z.to_nat (NREF - i) /\ 0 <= i <= NREF /\ pmem s' = pmem s /\
    freelist s' = freelist s /\ pheld s' = pheld s /\
    forall j, 0 <= j < i -> count s' j = 0)).
  - intros n i s' (-> & Hi & Hm & Hf & Hh & Hc).
    destruct (Z.ltb_spec i NREF) as [Hlt|Hge]; wp_pure.
    + exists (Z.to_nat (NREF - (i + 1))). split; [lia|].
      repeat split; try done; try lia. intros j Hj. rewrite count_set.
      destruct (decide (i = j)); [done|apply Hc; lia].
    + apply HQ; try done. intros p Hp. apply Hc. rewrite shiftr12.
      rewrite NREF_eq in *. unfold PGSIZE, PHYSTOP, KERNBASE in *. zdiv.
  - repeat split; try done; try lia.
  - rewrite NREF_eq. lia.
Qed.

Lemma freerange_step s l p :
  unlocked s -> kmem_inv_on (below p) s l -> valid_page p -> refs s p = 0 ->
  (p ∉ l) ->
  exists s', bind (increase_pgreference p) (fun _ => kfree p) s = Done tt s' /\
    pheld s' = pheld s /\ kmem_inv_on (below (p + PGSIZE)) s' (p :: l) /\
    (forall q, q mod PGSIZE = 0 -> q <> p -> refs s' q = refs s q).
Proof.
  intros Hu Hi Hp Hr Hl. pose proof (valid_page_pos p Hp) as Hpos.
  unfold bind. rewrite increase_eq; [|apply Hu|destruct Hp; lia|lia]. simpl.
  set (s1 := set_count _ _ _).
  assert (Hr1 : refs s1 p = 1).
  { unfold s1. rewrite refs_set by apply Hp. rewrite decide_True by done. lia. }
  rewrite kfree_eq; [|done|done|lia]. rewrite Hr1. simpl.
  eexists. split; [done|]. split; [done|]. split.
  - eapply kmem_inv_ext; [|apply (freed_inv (below p)); try done].
    + intros q. unfold below. split.
      * intros [[? ?]| ->]; (split; [done|]); unfold PGSIZE in *; lia.
      * intros [Hq Hlt]. destruct (decide (q = p)) as [-> |Hne]; [by right|left].
        split; [done|]. destruct (valid_pages_disjoint q p); try apply Hp; try apply Hq; try done;
          unfold PGSIZE in *; lia.
    + intros q [? ?]. done.
    + apply set_count_inv; try done; [by intros q [? ?]|apply Hp| |lia].
      intros [_ ?]. lia.
  - intros q Hq Hne. rewrite refs_freed by (done || apply Hp).
    rewrite decide_False by done. unfold s1. rewrite refs_set by (done || apply Hp).
    by rewrite decide_False.
Qed.

Lemma kfree_list_below s l p x : kmem_inv_on (below x) s l -> x <= p -> p ∉ l.
Proof. intros Hi Hx Hin%(inv_valid _ _ _ Hi). destruct Hin. lia. Qed.

Lemma PGROUNDUP_end :
  end_ <= PGROUNDUP end_ < end_ + PGSIZE /\ PGROUNDUP end_ mod PGSIZE = 0.
Proof.
  pose proof page_bounds. apply PGROUNDUP_bounds; unfold PGSIZE, PHYSTOP, KERNBASE in *; lia.
Qed.

Lemma freerange_spec s :
  unlocked s -> freelist s = 0 -> (forall p, 0 <= p < PHYSTOP -> refs s p = 0) ->
  runs (freerange end_ PHYSTOP) s (fun _ s' =>
    pheld s' = pheld s /\ exists l, kmem_inv s' l /\ forall p, valid_page p -> p ∈ l).
Proof.
  intros Hu Hf Hr. pose proof page_bounds as Hb. pose proof PGROUNDUP_end as [He Hea].
  unfold freerange.
  eapply (wp_loop _ _ (fun n p s' =>
    n = Z.to_nat ((PHYSTOP - p) / PGSIZE) /\ p mod PGSIZE = 0 /\ end_ <= p /\
    pheld s' = pheld s /\ (forall q, p <= q < PHYSTOP -> q mod PGSIZE = 0 -> refs s' q = 0) /\
    exists l, kmem_inv_on (below p) s' l /\ forall q, below p q -> q ∈ l)).
  - intros n p s' (-> & Hpa & Hpe & Hh & Hz & l & Hi & Hall).
    destruct (Z.leb_spec (p + PGSIZE) PHYSTOP) as [Hle|Hgt].
    + assert (Hp : valid_page p) by (split; [done|unfold PGSIZE in *; lia]).
      destruct (freerange_step s' l p) as (s2 & E & Hh2 & Hi2 & Hr2); try done.
      * unfold unlocked. by rewrite Hh.
      * apply Hz; [unfold PGSIZE in *; lia|done].
      * by eapply kfree_list_below.
      * change (wp nosleep (bind (increase_pgreference p)
          (fun _ => bind (kfree p) (fun _ => continue (p + PGSIZE))) s')) with
          (wp nosleep (bindp (increase_pgreference p s')
             (fun _ => bind (kfree p) (fun _ => continue (A:=unit) (p + PGSIZE))))).
        unfold bind in E |- *. destruct (increase_pgreference p s'); try done.
        simpl in *. rewrite E. wp_pure.
        exists (Z.to_nat ((PHYSTOP - (p + PGSIZE)) / PGSIZE)).
        split; [unfold PGSIZE in *; zdiv|]. split; [done|].
        split; [unfold PGSIZE in *; zdiv|]. split; [unfold PGSIZE in *; lia|].
        split; [congruence|]. split.
        { intros q Hq Hqa. rewrite Hr2; [apply Hz|..]; unfold PGSIZE in *; try done; lia. }
        exists (p :: l). split; [done|]. intros q [Hq1 Hq2].
        destruct (decide (q = p)) as [-> |Hne]; [by left|right]. apply Hall.
        split; [done|]. destruct (valid_pages_disjoint q p); try done; try apply Hq1;
          unfold PGSIZE in *; lia.
    + wp_pure. split; [done|]. exists l. split.
      * eapply kmem_inv_ext; [|exact Hi]. intros q. unfold below. split; [tauto|].
        intros Hq. split; [done|]. destruct Hq as [Hqa Hqb].
        unfold PGSIZE, PHYSTOP, KERNBASE in *. zdiv.
      * intros q Hq. apply Hall. split; [done|]. destruct Hq as [Hqa Hqb].
        unfold PGSIZE, PHYSTOP, KERNBASE in *. zdiv.
  - split; [done|]. split; [done|]. split; [lia|]. split; [done|]. split.
    + intros q Hq _. apply Hr. unfold KERNBASE in *. lia.
    + exists []. assert (forall q, ~ below (PGROUNDUP end_) q) as Hn.
      { intros q [[Hqa Hqb] Hq]. unfold PGSIZE in *. zdiv. }
      split; [|intros q Hq; by apply Hn in Hq].
      split; [done|constructor|set_solver|..]; intros q Hq; by apply Hn in Hq.
  - unfold PGSIZE in *. pose proof page_bounds. zdiv.
Qed.

Lemma kinit_spec s :
  unlocked s -> freelist s = 0 ->
  runs kinit s (fun _ s' =>
    pheld s' = pheld s /\ exists l, kmem_inv s' l /\ forall p, valid_page p -> p ∈ l).
Proof.
  intros Hu Hf. unfold kinit. apply wp_bind. apply wp_acquire; [apply Hu|].
  apply wp_bind. apply clear_counts_spec. intros s1 Hm1 Hf1 Hh1 Hr1. simpl in *.
  apply wp_bind. apply wp_release; [simpl; rewrite Hh1; auto with kernel|].
  simpl. rewrite Hh1, held_cycle by apply Hu.
  eapply wp_mono; [apply freerange_spec; [done|simpl; congruence|exact Hr1]|done].
Qed.

End Kalloc.
