(* ===== verification/Vm.v ===== *)
(** Page tables and copy-on-write memory (kernel/vm.c).

    The operations run in the allocator's state [phys]: page-table pages are
    pages of RAM, read and written as 64-bit words.  Pointers are addresses and
    0 is the null pointer.  The byte buffers of copyin and copyout are lists of
    bytes: what the kernel pointer points at, or what was copied to it. *)

From S2P Require Import Prelude Mem Riscv Locks Kalloc.

Definition rd64 (a : Z) : M phys Z := gets (fun s => load64 (pmem s) a).
Definition wr64 (a v : Z) : M phys unit := modify (set_pmem (fun m => store64 m a v)).

(** memset of a whole page; a null page is a kernel fault. *)
Definition fill (p c : Z) : M phys unit :=
  if p =? 0 then undef "memset through a null pointer"
  else modify (set_pmem (fun m => mset m p c PGSIZE)).

(** The bytes [bs] stored from [a] on: memmove from a kernel buffer. *)
Definition store_bytes (m : mem) (a : Z) (bs : list Z) : mem :=
  fun x => if (a <=? x) && (x <? a + Z.of_nat (length bs))
           then u8 (nth (Z.to_nat (x - a)) bs 0) else m x.

Section Vm.
Context `{Layout}.

(** One iteration per level of [for(int level = 2; level > 0; level--)]. *)
Fixpoint walk_level (level : nat) (pagetable va : Z) (alloc : bool) : M phys Z :=
  match level with
  | O => ret (pagetable + 8 * PX 0 va)
  | Datatypes.S l =>
      let pte := pagetable + 8 * PX (Z.of_nat level) va in
      v <- rd64 pte;;
      if has v PTE_V then walk_level l (PTE2PA v) va alloc
      else if negb alloc then ret 0
      else
        p <- kalloc;;
        if p =? 0 then ret 0
        else
          fill p 0;;;
          wr64 pte (Z.lor (PA2PTE p) PTE_V);;;
          walk_level l p va alloc
  end.

Definition walk (pagetable va : Z) (alloc : bool) : M phys Z :=
  if va >=? MAXVA then panic "walk" else walk_level 2 pagetable va alloc.

Definition walkaddr (pagetable va : Z) : M phys Z :=
  if va >=? MAXVA then ret 0
  else
    pte <- walk pagetable va false;;
    if pte =? 0 then ret 0
    else
      v <- rd64 pte;;
      if negb (has v PTE_V) then ret 0
      else if negb (has v PTE_U) then ret 0
      else ret (PTE2PA v).

(** [for(;;)] over the pages up to [last]; one iteration per page of [size]
    and one more for an unaligned range. *)
Definition mappages (pagetable va size pa perm : Z) : M phys Z :=
  if size =? 0 then panic "mappages: size"
  else
    let last := PGROUNDDOWN (u64 (va + size - 1)) in
    loop (Z.to_nat (size / PGSIZE + 2))
      (fun '(a, pa) =>
         pte <- walk pagetable a true;;
         if pte =? 0 then break (-1)
         else
           v <- rd64 pte;;
           if has v PTE_V then panic "mappages: remap"
           else
             wr64 pte (Z.lor (Z.lor (PA2PTE pa) perm) PTE_V);;;
             if a =? last then break 0
             else continue (a + PGSIZE, pa + PGSIZE))
      (PGROUNDDOWN va, pa).

Definition kvmmap (kpgtbl va pa sz perm : Z) : M phys unit :=
  r <- mappages kpgtbl va sz pa perm;;
  when (negb (r =? 0)) (panic "kvmmap").

Definition uvmunmap (pagetable va npages : Z) (do_free : bool) : M phys unit :=
  if negb (va mod PGSIZE =? 0) then panic "uvmunmap: not aligned"
  else
    loop (Z.to_nat (npages + 1))
      (fun a =>
         if a <? va + npages * PGSIZE then
           pte <- walk pagetable a false;;
           if pte =? 0 then panic "uvmunmap: walk"
           else
             v <- rd64 pte;;
             if negb (has v PTE_V) then panic "uvmunmap: not mapped"
             else if PTE_FLAGS v =? PTE_V then panic "uvmunmap: not a leaf"
             else
               when do_free (kfree (PTE2PA v));;;
               wr64 pte 0;;;
               continue (a + PGSIZE)
         else break tt)
      va.

Definition uvmcreate : M phys Z :=
  pagetable <- kalloc;;
  if pagetable =? 0 then ret 0
  else
    fill pagetable 0;;;
    ret pagetable.

Definition uvmfirst (pagetable : Z) (src : list Z) : M phys unit :=
  if Z.of_nat (length src) >=? PGSIZE then panic "uvmfirst: more than a page"
  else
    mem <- kalloc;;
    fill mem 0;;;
    mappages pagetable 0 PGSIZE mem (Z.lor (Z.lor (Z.lor PTE_W PTE_R) PTE_X) PTE_U);;;
    modify (set_pmem (fun m => store_bytes m mem src)).

Definition uvmdealloc (pagetable oldsz newsz : Z) : M phys Z :=
  if newsz >=? oldsz then ret oldsz
  else
    when (PGROUNDUP newsz <? PGROUNDUP oldsz)
      (let npages := i32 ((PGROUNDUP oldsz - PGROUNDUP newsz) / PGSIZE) in
       uvmunmap pagetable (PGROUNDUP newsz) npages true);;;
    ret newsz.

Definition uvmalloc (pagetable oldsz newsz xperm : Z) : M phys Z :=
  if newsz <? oldsz then ret oldsz
  else
    let oldsz := PGROUNDUP oldsz in
    loop (Z.to_nat ((newsz - oldsz) / PGSIZE + 2))
      (fun a =>
         if a <? newsz then
           mem <- kalloc;;
           if mem =? 0 then
             uvmdealloc pagetable a oldsz;;;
             break 0
           else
             fill mem 0;;;
             r <- mappages pagetable a PGSIZE mem (Z.lor (Z.lor PTE_R PTE_U) xperm);;
             if negb (r =? 0) then
               kfree mem;;;
               uvmdealloc pagetable a oldsz;;;
               break 0
             else continue (a + PGSIZE)
         else break newsz)
      oldsz.

(** Page tables nest three deep; [depth] bounds the recursion. *)
Fixpoint freewalk (depth : nat) (pagetable : Z) : M phys unit :=
  match depth with
  | O => out_of_fuel
  | Datatypes.S d =>
      loop 513
        (fun i =>
           if i <? 512 then
             pte <- rd64 (pagetable + 8 * i);;
             if has pte PTE_V && negb (has pte (Z.lor (Z.lor PTE_R PTE_W) PTE_X)) then
               freewalk d (PTE2PA pte);;;
               wr64 (pagetable + 8 * i) 0;;;
               continue (i + 1)
             else if has pte PTE_V then panic "freewalk: leaf"
             else continue (i + 1)
           else break tt) 0;;;
      kfree pagetable
  end.

Definition uvmfree (pagetable sz : Z) : M phys unit :=
  when (sz >? 0) (uvmunmap pagetable 0 (PGROUNDUP sz / PGSIZE) true);;;
  freewalk 3 pagetable.

Definition uvmcopy (old new sz : Z) : M phys Z :=
  loop (Z.to_nat (sz / PGSIZE + 2))
    (fun i =>
       if i <? sz then
         pte <- walk old i false;;
         if pte =? 0 then panic "uvmcopy: pte should exist"
         else
           v <- rd64 pte;;
           if negb (has v PTE_V) then panic "uvmcopy: page not present"
           else
             let pa := PTE2PA v in
             let flags := PTE_FLAGS v in
             let flags' := if has flags PTE_W
                           then Z.lor (Z.land flags (Z.lnot PTE_W)) PTE_COW
                           else flags in
             when (has flags PTE_W) (wr64 pte (Z.lor (PA2PTE pa) flags'));;;
             r <- mappages new i PGSIZE pa flags';;
             if negb (r =? 0) then
               uvmunmap new 0 (i / PGSIZE) true;;;
               break (-1)
             else
               increase_pgreference pa;;;
               continue (i + PGSIZE)
       else break 0) 0.

Definition uvmclear (pagetable va : Z) : M phys unit :=
  pte <- walk pagetable va false;;
  if pte =? 0 then panic "uvmclear"
  else
    v <- rd64 pte;;
    wr64 pte (Z.land v (Z.lnot PTE_U)).

Definition cowalloc (pagetable va : Z) : M phys Z :=
  if negb (va mod PGSIZE =? 0) then ret (-1)
  else if va >=? MAXVA then ret (-1)
  else
    pte <- walk pagetable va false;;
    if pte =? 0 then ret (-1)
    else
      v <- rd64 pte;;
      let pa := PTE2PA v in
      if pa =? 0 then ret (-1)
      else if has v PTE_COW then
        let flags := Z.lor (Z.land (PTE_FLAGS v) (Z.lnot PTE_COW)) PTE_W in
        ka <- kalloc;;
        if ka =? 0 then ret (-1)
        else
          modify (set_pmem (fun m => mmove m ka pa PGSIZE));;;
          uvmunmap pagetable (PGROUNDUP va) 1 true;;;
          mappages pagetable va PGSIZE ka flags;;;
          ret 0
      else ret 0.

(** [while(len > 0)]; one iteration per page touched. *)
Definition copy_fuel (va len : Z) : nat := Z.to_nat ((va mod PGSIZE + len) / PGSIZE + 2).

Definition copyout (pagetable dstva : Z) (src : list Z) : M phys Z :=
  loop (copy_fuel dstva (Z.of_nat (length src)))
    (fun '(dstva, src) =>
       if 0 <? Z.of_nat (length src) then
         let va0 := PGROUNDDOWN dstva in
         c <- cowalloc pagetable va0;;
         if c <? 0 then break (-1)
         else
           pa0 <- walkaddr pagetable va0;;
           if pa0 =? 0 then break (-1)
           else
             let n := Z.min (PGSIZE - (dstva - va0)) (Z.of_nat (length src)) in
             modify (set_pmem (fun m =>
               store_bytes m (pa0 + (dstva - va0)) (take (Z.to_nat n) src)));;;
             continue (va0 + PGSIZE, drop (Z.to_nat n) src)
       else break 0)
    (dstva, src).

(** The bytes read, or [None] for the return value -1. *)
Definition copyin (pagetable srcva len : Z) : M phys (option (list Z)) :=
  loop (copy_fuel srcva len)
    (fun '(srcva, len, dst) =>
       if 0 <? len then
         let va0 := PGROUNDDOWN srcva in
         pa0 <- walkaddr pagetable va0;;
         if pa0 =? 0 then break None
         else
           let n := Z.min (PGSIZE - (srcva - va0)) len in
           bs <- gets (fun s => bytes_at (pmem s) (pa0 + (srcva - va0)) (Z.to_nat n));;
           continue (va0 + PGSIZE, len - n, dst ++ bs)
       else break (Some dst))
    (srcva, len, []).

(** The inner loop of copyinstr over the [n] bytes at [p]: the characters
    before a NUL and whether there was one. *)
Fixpoint copystr (n : nat) (m : mem) (p : Z) : list Z * bool :=
  match n with
  | O => ([], false)
  | Datatypes.S k =>
      if load8 m p =? 0 then ([], true)
      else let '(cs, got) := copystr k m (p + 1) in (load8 m p :: cs, got)
  end.

(** The string read, without its NUL, or [None] for -1. *)
Definition copyinstr (pagetable srcva max : Z) : M phys (option (list Z)) :=
  loop (copy_fuel srcva max)
    (fun '(srcva, max, dst) =>
       if 0 <? max then
         let va0 := PGROUNDDOWN srcva in
         pa0 <- walkaddr pagetable va0;;
         if pa0 =? 0 then break None
         else
           let n := Z.min (PGSIZE - (srcva - va0)) max in
           r <- gets (fun s => copystr (Z.to_nat n) (pmem s) (pa0 + (srcva - va0)));;
           let '(cs, got_null) := r in
           if got_null then break (Some (dst ++ cs))
           else continue (va0 + PGSIZE, max - n, dst ++ cs)
       else break None)
    (srcva, max, []).

(** Allocate and map a kernel stack for each process (proc.c). *)
Definition proc_mapstacks (kpgtbl : Z) : M phys unit :=
  loop (Z.to_nat NPROC + 1)
    (fun i =>
       if i <? NPROC then
         pa <- kalloc;;
         if pa =? 0 then panic "kalloc"
         else
           kvmmap kpgtbl (KSTACK i) pa PGSIZE (Z.lor PTE_R PTE_W);;;
           continue (i + 1)
       else break tt) 0.

Definition kvmmake : M phys Z :=
  kpgtbl <- kalloc;;
  fill kpgtbl 0;;;
  kvmmap kpgtbl UART0 UART0 PGSIZE (Z.lor PTE_R PTE_W);;;
  kvmmap kpgtbl VIRTIO0 VIRTIO0 PGSIZE (Z.lor PTE_R PTE_W);;;
  kvmmap kpgtbl PLIC PLIC 0x400000 (Z.lor PTE_R PTE_W);;;
  kvmmap kpgtbl KERNBASE KERNBASE (etext - KERNBASE) (Z.lor PTE_R PTE_X);;;
  kvmmap kpgtbl etext etext (PHYSTOP - etext) (Z.lor PTE_R PTE_W);;;
  kvmmap kpgtbl TRAMPOLINE trampoline PGSIZE (Z.lor PTE_R PTE_X);;;
  proc_mapstacks kpgtbl;;;
  ret kpgtbl.

(** What the global kernel_pagetable becomes. *)
Definition kvminit : M phys Z := kvmmake.

End Vm.
