(* ===== verification/VmTree.v ===== *)
(** Page tables as finite maps.

    A [ptree] is the ghost description of a three-level Sv39 tree: its root and
    the page-table pages below it, by index.  [pt_rep m t] says that memory [m]
    holds the tree [t]; [lookup_pte m t va] is the leaf PTE of [va] (0 where no
    leaf page exists), so a page table stands for a finite map from virtual
    pages to PTEs.  The lemmas show that walk finds the slot of that map,
    allocating page-table pages without disturbing it, and that storing a PTE
    updates the map at one page. *)

From S2P Require Import Prelude Mem Riscv Locks Kalloc Vm.

Record ptree := PT { root : Z; mids : gmap Z Z; leaves : gmap (Z * Z) Z }.

Definition tpages (t : ptree) : list Z :=
  root t :: ((map_to_list (mids t)).*2 ++ (map_to_list (leaves t)).*2).

Definition entry (m : mem) (p i : Z) : Z := load64 m (p + 8 * i).

Definition slot (t : ptree) (va : Z) : option Z :=
  (fun q => q + 8 * PX 0 va) <$> leaves t !! (PX 2 va, PX 1 va).

Definition lookup_pte (m : mem) (t : ptree) (va : Z) : Z :=
  match slot t va with Some a => load64 m a | None => 0 end.

Definition add_mid (i p : Z) (t : ptree) : ptree := PT (root t) (<[i := p]> (mids t)) (leaves t).
Definition add_leaf (i j q : Z) (t : ptree) : ptree :=
  PT (root t) (mids t) (<[(i, j) := q]> (leaves t)).

Section Tree.
Context `{Layout}.

Record pt_rep (m : mem) (t : ptree) : Prop := PtRep {
  rep_valid : forall p, p ∈ tpages t -> valid_page p;
  rep_nodup : NoDup (tpages t);
  rep_root : forall i, 0 <= i < 512 ->
    entry m (root t) i = match mids t !! i with Some p => mkpte p PTE_V | None => 0 end;
  rep_mid : forall i p j, mids t !! i = Some p -> 0 <= j < 512 ->
    entry m p j = match leaves t !! (i, j) with Some q => mkpte q PTE_V | None => 0 end;
  rep_leaf : forall i j q, leaves t !! (i, j) = Some q -> is_Some (mids t !! i);
}.

(** ** The pages of a tree *)

Lemma root_tpages t : root t ∈ tpages t.
Proof. by left. Qed.

Lemma mid_tpages t i p : mids t !! i = Some p -> p ∈ tpages t.
Proof.
  intros E. right. apply elem_of_app. left. apply list_elem_of_fmap.
  exists (i, p). split; [done|]. by apply elem_of_map_to_list.
Qed.

Lemma leaf_tpages t ij q : leaves t !! ij = Some q -> q ∈ tpages t.
Proof.
  intros E. right. apply elem_of_app. right. apply list_elem_of_fmap.
  exists (ij, q). split; [done|]. by apply elem_of_map_to_list.
Qed.

Lemma tpages_add_mid t i p : mids t !! i = None -> tpages (add_mid i p t) ≡ₚ p :: tpages t.
Proof.
  intros E. unfold tpages, add_mid. simpl. rewrite map_to_list_insert by done. simpl.
  apply Permutation_swap.
Qed.

Lemma tpages_add_leaf t i j q :
  leaves t !! (i, j) = None -> tpages (add_leaf i j q t) ≡ₚ q :: tpages t.
Proof.
  intros E. unfold tpages, add_leaf. simpl. rewrite map_to_list_insert by done. simpl.
  rewrite <- Permutation_middle. apply Permutation_swap.
Qed.

Lemma valid_page_pa_ok p : valid_page p -> pa_ok p.
Proof. intros Hv. pose proof (valid_page_pos p Hv). destruct Hv. split; [lia|done]. Qed.

Lemma PTE_V_range : 0 <= PTE_V < 1024.
Proof. done. Qed.

Lemma PTE2PA_next p : valid_page p -> PTE2PA (mkpte p PTE_V) = p.
Proof. intros. apply PTE2PA_mkpte; [by apply valid_page_pa_ok|done]. Qed.

Lemma has_next p : valid_page p -> has (mkpte p PTE_V) PTE_V = true.
Proof. intros. rewrite has_mkpte; [done|by apply valid_page_pa_ok|done|done]. Qed.

Lemma mkpte_word p fl : valid_page p -> 0 <= fl < 1024 -> 0 <= mkpte p fl < 2 ^ 64.
Proof.
  intros Hp Hf. pose proof (mkpte_range p fl (valid_page_pa_ok p Hp) Hf). lia.
Qed.

Section Rep.
Context (m : mem) (t : ptree) (Hrep : pt_rep m t).

Lemma mid_valid i p : mids t !! i = Some p -> valid_page p.
Proof. intros E. eapply rep_valid; [done|]. by eapply mid_tpages. Qed.

Lemma leaf_valid ij q : leaves t !! ij = Some q -> valid_page q.
Proof. intros E. eapply rep_valid; [done|]. by eapply leaf_tpages. Qed.

Lemma root_valid : valid_page (root t).
Proof. eapply rep_valid; [done|apply root_tpages]. Qed.

(** Distinct entries of the maps name distinct pages. *)
Lemma leaf_inj ij ij' q : leaves t !! ij = Some q -> leaves t !! ij' = Some q -> ij = ij'.
Proof.
  intros E E'. pose proof (rep_nodup _ _ Hrep) as Hn.
  apply NoDup_cons in Hn as [_ Hn]. apply NoDup_app in Hn as (_ & _ & Hn).
  apply elem_of_map_to_list, list_elem_of_lookup in E as [k E].
  apply elem_of_map_to_list, list_elem_of_lookup in E' as [k' E'].
  assert (k = k') as ->.
  { eapply (NoDup_lookup _ _ _ q); [done|..]; rewrite list_lookup_fmap;
      [by rewrite E|by rewrite E']. }
  congruence.
Qed.

Lemma leaf_not_mid ij i q : leaves t !! ij = Some q -> mids t !! i = Some q -> False.
Proof.
  intros E E'. pose proof (rep_nodup _ _ Hrep) as Hn.
  apply NoDup_cons in Hn as [_ Hn]. apply NoDup_app in Hn as (_ & Hd & _).
  apply (Hd q); apply list_elem_of_fmap;
    [exists (i, q)|exists (ij, q)]; (split; [done|]); by apply elem_of_map_to_list.
Qed.

Lemma root_not_below ij : leaves t !! ij = Some (root t) -> False.
Proof.
  intros E. pose proof (rep_nodup _ _ Hrep) as Hn.
  apply NoDup_cons in Hn as [Hn _]. apply Hn, elem_of_app. right.
  apply list_elem_of_fmap. exists (ij, root t). split; [done|].
  by apply elem_of_map_to_list.
Qed.

Lemma mid_inj i i' q : mids t !! i = Some q -> mids t !! i' = Some q -> i = i'.
Proof.
  intros E E'. pose proof (rep_nodup _ _ Hrep) as Hn.
  apply NoDup_cons in Hn as [_ Hn]. apply NoDup_app in Hn as (Hn & _ & _).
  apply elem_of_map_to_list, list_elem_of_lookup in E as [k E].
  apply elem_of_map_to_list, list_elem_of_lookup in E' as [k' E'].
  assert (k = k') as ->.
  { eapply (NoDup_lookup _ _ _ q); [done|..]; rewrite list_lookup_fmap;
      [by rewrite E|by rewrite E']. }
  congruence.
Qed.

Lemma root_not_mid i : mids t !! i = Some (root t) -> False.
Proof.
  intros E. pose proof (rep_nodup _ _ Hrep) as Hn.
  apply NoDup_cons in Hn as [Hn _]. apply Hn, elem_of_app. left.
  apply list_elem_of_fmap. exists (i, root t). split; [done|].
  by apply elem_of_map_to_list.
Qed.
End Rep.

(** ** Words inside pages *)

Lemma in_page_slot p i a : 0 <= i < 512 -> p + 8 * i <= a < p + 8 * i + 8 -> in_page p a.
Proof. unfold in_page, PGSIZE. lia. Qed.

Lemma pages_disjoint p q a :
  p mod PGSIZE = 0 -> q mod PGSIZE = 0 -> in_page p a -> in_page q a -> p = q.
Proof.
  intros Hp Hq H1 H2. destruct (decide (p = q)) as [|Hne]; [done|].
  unfold in_page in *. destruct (valid_pages_disjoint p q); unfold PGSIZE in *; try done; lia.
Qed.

Lemma slot_disjoint q k r i :
  q mod PGSIZE = 0 -> r mod PGSIZE = 0 -> 0 <= k < 512 -> 0 <= i < 512 ->
  (q, k) <> (r, i) -> q + 8 * k + 8 <= r + 8 * i \/ r + 8 * i + 8 <= q + 8 * k.
Proof.
  intros Hq Hr Hk Hi Hne. destruct (decide (q = r)) as [-> |Hqr].
  - assert (k <> i) by congruence. lia.
  - destruct (valid_pages_disjoint q r); unfold PGSIZE in *; try done; lia.
Qed.

Lemma entry_ext m m' p i :
  (forall a, in_page p a -> load8 m' a = load8 m a) -> 0 <= i < 512 ->
  entry m' p i = entry m p i.
Proof. intros Hp Hi. apply load64_ext. intros a Ha. apply Hp. by apply (in_page_slot p i). Qed.

(** A tree survives changes outside its pages. *)
Lemma pt_rep_ext m m' t :
  (forall p a, p ∈ tpages t -> in_page p a -> load8 m' a = load8 m a) ->
  pt_rep m t -> pt_rep m' t.
Proof.
  intros Hm Hr. destruct Hr as [Hv Hn Hroot Hmid Hleaf]. split; try done.
  - intros i Hi. rewrite <- Hroot by done. apply entry_ext; [|done].
    intros a. apply Hm, root_tpages.
  - intros i p j Ep Hj. rewrite <- (Hmid i p j) by done. apply entry_ext; [|done].
    intros a. apply Hm. by eapply mid_tpages.
Qed.

Lemma lookup_pte_ext m m' t va :
  (forall p a, p ∈ tpages t -> in_page p a -> load8 m' a = load8 m a) ->
  lookup_pte m' t va = lookup_pte m t va.
Proof.
  intros Hm. unfold lookup_pte, slot.
  destruct (leaves t !! _) as [q|] eqn:E; simpl; [|done].
  apply (entry_ext m m' q); [|apply PX_range; lia].
  intros a. apply Hm. by eapply leaf_tpages.
Qed.

(** ** Walking without allocating *)

Lemma walk_va_ok va : va < MAXVA -> (va >=? MAXVA) = false.
Proof. rewrite Z.geb_leb, Z.leb_gt. done. Qed.

Lemma walk_false s t va :
  pt_rep (pmem s) t -> va < MAXVA ->
  walk (root t) va false s = Done (default 0 (slot t va)) s.
Proof.
  intros Hr Hva. unfold walk. rewrite walk_va_ok by done.
  unfold walk_level, slot, bind, rd64, gets. simpl bindp.
  change (Z.of_nat 2) with 2. change (Z.of_nat 1) with 1.
  change (load64 (pmem s) (root t + 8 * PX 2 va)) with (entry (pmem s) (root t) (PX 2 va)).
  rewrite (rep_root _ _ Hr) by (apply PX_range; lia).
  destruct (mids t !! PX 2 va) as [p|] eqn:Ep.
  - pose proof (mid_valid _ _ Hr _ _ Ep) as Hp. rewrite has_next, PTE2PA_next by done.
    simpl bindp. change (load64 (pmem s) (p + 8 * PX 1 va)) with (entry (pmem s) p (PX 1 va)).
    rewrite (rep_mid _ _ Hr _ _ _ Ep) by (apply PX_range; lia).
    destruct (leaves t !! (PX 2 va, PX 1 va)) as [q|] eqn:Eq; [|done].
    pose proof (leaf_valid _ _ Hr _ _ Eq) as Hq. by rewrite has_next, PTE2PA_next.
  - destruct (leaves t !! (PX 2 va, PX 1 va)) as [q|] eqn:Eq; [|done].
    apply (rep_leaf _ _ Hr) in Eq as [? Eq]. congruence.
Qed.

Lemma slot_pos m t va a : pt_rep m t -> slot t va = Some a -> 0 < a < 2 ^ 33.
Proof.
  intros Hr. unfold slot. destruct (leaves t !! _) as [q|] eqn:E; simpl; [|done].
  intros [= <-]. pose proof (valid_page_pos q (leaf_valid _ _ Hr _ _ E)).
  pose proof (PX_range 0 va ltac:(lia)). lia.
Qed.

(** ** Writing a leaf PTE *)

Lemma entry_store64_ne m q k r i v :
  q mod PGSIZE = 0 -> r mod PGSIZE = 0 -> 0 <= k < 512 -> 0 <= i < 512 ->
  (q, k) <> (r, i) -> entry (store64 m (r + 8 * i) v) q k = entry m q k.
Proof.
  intros. apply load64_store64_ne.
  destruct (slot_disjoint q k r i); try done; lia.
Qed.

Lemma slot_inv t va a :
  slot t va = Some a ->
  exists q, leaves t !! (PX 2 va, PX 1 va) = Some q /\ a = q + 8 * PX 0 va.
Proof.
  unfold slot. destruct (leaves t !! _) as [q|]; simpl; [|done]. intros [= <-]. eauto.
Qed.

Lemma write_pte_rep m t va a v :
  pt_rep m t -> slot t va = Some a -> pt_rep (store64 m a v) t.
Proof.
  intros Hr (q & Eq & ->)%slot_inv. pose proof (leaf_valid _ _ Hr _ _ Eq) as [Hqa _].
  pose proof (PX_range 0 va ltac:(lia)). pose proof Hr as [Hv Hn Hroot Hmid Hleaf].
  split; try done.
  - intros i Hi. rewrite entry_store64_ne; try done; [by apply Hroot|apply (root_valid _ _ Hr)|].
    intros [= <- _]. by eapply root_not_below.
  - intros i p j Ep Hj. rewrite entry_store64_ne; try done; [by apply Hmid|by apply (mid_valid _ _ Hr _ _ Ep)|].
    intros [= -> _]. by eapply leaf_not_mid.
Qed.

Lemma write_pte_lookup m t va a v vb :
  pt_rep m t -> slot t va = Some a -> 0 <= v < 2 ^ 64 ->
  0 <= va < MAXVA -> 0 <= vb < MAXVA ->
  lookup_pte (store64 m a v) t vb
  = if decide (vb / PGSIZE = va / PGSIZE) then v else lookup_pte m t vb.
Proof.
  intros Hr Ha Hv Hva Hvb. pose proof (slot_inv _ _ _ Ha) as (q & Eq & Eaq).
  unfold lookup_pte. destruct (decide (vb / PGSIZE = va / PGSIZE)) as [Ed|Ed].
  - assert (slot t vb = Some a) as ->; [|by apply load64_store64_eq].
    rewrite <- Ha. unfold slot. unfold PGSIZE in Ed.
    assert (forall k, 0 <= k -> PX k vb = PX k va) as HPX.
    { intros k Hk. rewrite !PX_eq, !Z.pow_add_r by lia.
      rewrite <- !Z.div_div by lia. change (2 ^ 12) with 4096. by rewrite Ed. }
    by rewrite !HPX by lia.
  - destruct (slot t vb) as [b|] eqn:Eb; [|done].
    pose proof (slot_inv _ _ _ Eb) as (q' & Eq' & ->). subst a.
    change (load64 (store64 m (q + 8 * PX 0 va) v) (q' + 8 * PX 0 vb))
      with (entry (store64 m (q + 8 * PX 0 va) v) q' (PX 0 vb)).
    rewrite entry_store64_ne; try done;
      [by eapply leaf_valid|by eapply leaf_valid|apply PX_range; lia|apply PX_range; lia|].
    intros [= -> E0]. pose proof (leaf_inj _ _ Hr _ _ _ Eq Eq') as [= E2 E1].
    apply Ed. symmetry. by apply PX_inj.
Qed.

(** ** The world of a page table

    [owned s l t]: the allocator's free list is [l] and memory holds the tree
    [t], whose pages are in use.  [extends] relates the states before and after
    an operation that may allocate: pages only leave the free list, the tree
    only grows, and nothing outside free pages and the tree's pages changes. *)

Record owned (s : phys) (l : list Z) (t : ptree) : Prop := Owned {
  own_unlocked : unlocked s;
  own_inv : kmem_inv s l;
  own_rep : pt_rep (pmem s) t;
  own_refs : forall p, p ∈ tpages t -> refs s p <> 0;
}.

Record extends (s s' : phys) (l l' : list Z) (t t' : ptree) : Prop := Extends {
  ext_owned : owned s' l' t';
  ext_held : pheld s' = pheld s;
  ext_free : forall q, q ∈ l' -> q ∈ l;
  ext_refs : forall q, valid_page q -> q ∉ l -> refs s' q = refs s q;
  ext_root : root t' = root t;
  ext_new : forall p, p ∈ tpages t' -> p ∈ tpages t \/ p ∈ l;
  ext_mem : mem_frame (fun a => exists q, (q ∈ l \/ q ∈ tpages t) /\ in_page q a)
              (pmem s) (pmem s');
}.

Lemma owned_not_free s l t p : owned s l t -> p ∈ tpages t -> p ∉ l.
Proof.
  intros Ho Hp Hl. pose proof (own_inv _ _ _ Ho) as Hi.
  apply (own_refs _ _ _ Ho p Hp). apply (inv_free _ _ _ Hi); [|done].
  by apply (inv_valid _ _ _ Hi).
Qed.

Lemma extends_refl s l t : owned s l t -> extends s s l l t t.
Proof. intros Ho. split; try done; auto. Qed.

Lemma extends_trans s1 s2 s3 l1 l2 l3 t1 t2 t3 :
  extends s1 s2 l1 l2 t1 t2 -> extends s2 s3 l2 l3 t2 t3 -> extends s1 s3 l1 l3 t1 t3.
Proof.
  intros [_ Hh1 Hf1 Hr1 Ht1 Hn1 Hm1] [Ho Hh Hf Hr Ht Hn Hm].
  split; [done|congruence|by auto| |congruence| |].
  - intros q Hq Hl. transitivity (refs s2 q); auto.
  - intros p [Hp|Hp]%Hn; auto.
  - intros a Ha. transitivity (load8 (pmem s2) a); [|by apply Hm1].
    apply Hm. intros (q & Hq & Hin). apply Ha. exists q. split; [|done].
    destruct Hq as [Hq|[Hq|Hq]%Hn1]; auto.
Qed.

(** The free list survives writes outside it. *)
Lemma kmem_inv_set_pmem s l f P :
  kmem_inv s l -> mem_frame P (pmem s) (f (pmem s)) ->
  (forall p a, p ∈ l -> in_page p a -> ~ P a) -> kmem_inv (set_pmem f s) l.
Proof.
  intros [Hc ? ? ? ?] Hm HP. split; try done. simpl.
  eapply chain_frame; [done| |done]. intros p a Hp Ha. apply (HP p); [done|].
  unfold in_page, PGSIZE. lia.
Qed.

(** The memory after a fresh page [p] is hooked into entry [i] of page [r]. *)
Definition hooked (r i p : Z) (m : mem) : mem :=
  store64 (mset (mset m p 5 PGSIZE) p 0 PGSIZE) (r + 8 * i) (mkpte p PTE_V).

Section Hook.
Context (m : mem) (r i p : Z).
Context (Hr : r mod PGSIZE = 0) (Hp : valid_page p) (Hi : 0 <= i < 512) (Hne : r <> p).

Lemma hooked_slot : entry (hooked r i p m) r i = mkpte p PTE_V.
Proof. apply load64_store64_eq, mkpte_word; done. Qed.

Lemma hooked_fresh j : 0 <= j < 512 -> entry (hooked r i p m) p j = 0.
Proof.
  intros Hj. unfold hooked. rewrite entry_store64_ne; try done; [|apply Hp|congruence].
  unfold entry. apply load64_mset0_in; unfold PGSIZE; lia.
Qed.

Lemma hooked_frame : mem_frame (fun a => in_page r a \/ in_page p a) m (hooked r i p m).
Proof.
  intros a Ha. unfold hooked, store64. rewrite load8_storen.
  destruct (Z.leb_spec (r + 8 * i) a), (Z.ltb_spec a (r + 8 * i + Z.of_nat 8)); simpl.
  1: { exfalso. apply Ha. left. apply (in_page_slot r i); lia. }
  all: rewrite !load8_mset;
    destruct (Z.leb_spec p a), (Z.ltb_spec a (p + PGSIZE)); simpl; try done;
    exfalso; apply Ha; right; unfold in_page; lia.
Qed.

Lemma hooked_other q k :
  valid_page q -> q <> p -> 0 <= k < 512 -> (q, k) <> (r, i) ->
  entry (hooked r i p m) q k = entry m q k.
Proof.
  intros Hq Hqp Hk Hd. unfold hooked. rewrite entry_store64_ne; try done; [|apply Hq].
  apply load64_ext. intros a Ha.
  assert (~ in_page p a).
  { intros Hin. apply Hqp. eapply pages_disjoint; [apply Hq|apply Hp| |done].
    by apply (in_page_slot q k). }
  rewrite !load8_mset. unfold in_page, PGSIZE in *.
  destruct (Z.leb_spec p a), (Z.ltb_spec a (p + 4096)); simpl; try done; lia.
Qed.
End Hook.

Lemma hook_mid_rep m t i p :
  pt_rep m t -> valid_page p -> p ∉ tpages t -> 0 <= i < 512 -> mids t !! i = None ->
  pt_rep (hooked (root t) i p m) (add_mid i p t).
Proof.
  intros Hr Hp Hnew Hi Hnone. pose proof (root_valid _ _ Hr) as [Hra Hrb].
  assert (Hrp : root t <> p) by (intros <-; apply Hnew, root_tpages).
  pose proof (tpages_add_mid t i p Hnone) as Ht.
  pose proof Hr as [Hv Hn Hroot Hmid Hleaf]. split.
  - intros q. rewrite Ht. intros [-> |Hq]%elem_of_cons; auto.
  - rewrite Ht. by constructor.
  - intros k Hk. simpl. rewrite lookup_insert. destruct (decide (i = k)) as [<- |Hik].
    + by apply hooked_slot.
    + rewrite hooked_other; try done; [by apply Hroot|congruence].
  - intros k q j. simpl. rewrite lookup_insert. destruct (decide (i = k)) as [<- |Hik].
    + intros [= <-] Hj. rewrite hooked_fresh by done.
      destruct (leaves t !! (i, j)) eqn:E; [|done]. apply Hleaf in E as [? E]. congruence.
    + intros Eq Hj. assert (q <> p) by (intros ->; by apply Hnew; eapply mid_tpages).
      rewrite hooked_other; try done; [by apply Hmid|by eapply mid_valid|].
      intros [= -> _]. by eapply root_not_mid.
  - intros k j q Eq. simpl. rewrite lookup_insert. destruct (decide (i = k)); eauto.
Qed.

Lemma hook_mid_lookup m t i p va :
  pt_rep m t -> valid_page p -> p ∉ tpages t -> 0 <= i < 512 -> mids t !! i = None ->
  lookup_pte (hooked (root t) i p m) (add_mid i p t) va = lookup_pte m t va.
Proof.
  intros Hr Hp Hnew Hi Hnone. pose proof (root_valid _ _ Hr) as [Hra Hrb].
  unfold lookup_pte, slot. simpl. destruct (leaves t !! _) as [q|] eqn:E; simpl; [|done].
  apply hooked_other; try done.
  - by eapply leaf_valid.
  - intros ->. apply Hnew. by eapply leaf_tpages.
  - apply PX_range. lia.
  - intros [= -> _]. by eapply root_not_below.
Qed.

Section HookLeaf.
Context (m : mem) (t : ptree) (i j r q : Z).
Context (Hr : pt_rep m t) (Hq : valid_page q) (Hnew : q ∉ tpages t).
Context (Hi : mids t !! i = Some r) (Hj : 0 <= j < 512) (Hnone : leaves t !! (i, j) = None).

Local Lemma hook_leaf_ne : r <> q.
Proof. intros <-. apply Hnew. by eapply mid_tpages. Qed.

Lemma hook_leaf_rep : pt_rep (hooked r j q m) (add_leaf i j q t).
Proof.
  pose proof (mid_valid _ _ Hr _ _ Hi) as Hrv. pose proof hook_leaf_ne as Hne.
  pose proof (tpages_add_leaf t i j q Hnone) as Ht.
  pose proof Hr as [Hv Hn Hroot Hmid Hleaf]. split.
  - intros p. rewrite Ht. intros [-> |Hp]%elem_of_cons; auto.
  - rewrite Ht. by constructor.
  - intros k Hk. simpl. rewrite hooked_other; try done; try apply Hrv; try by apply Hroot.
    + by eapply root_valid.
    + intros E. apply Hnew. rewrite <- E. apply root_tpages.
    + intros [= E _]. rewrite <- E in Hi. by eapply root_not_mid.
  - intros k p b Ep Hb. simpl. rewrite lookup_insert.
    destruct (decide ((i, j) = (k, b))) as [[= <- <-]|Hkb].
    + assert (p = r) as -> by (simpl in Ep; congruence). apply hooked_slot; try done.
    + rewrite hooked_other; try done; try apply Hrv.
      * by apply Hmid.
      * by eapply mid_valid.
      * intros ->. apply Hnew. by eapply mid_tpages.
      * intros [= -> ->]. apply Hkb. f_equal. by eapply mid_inj.
  - intros k b p. simpl. rewrite lookup_insert.
    destruct (decide ((i, j) = (k, b))) as [[= <- <-]|Hkb]; [by eauto|by apply Hleaf].
Qed.

Lemma hook_leaf_lookup va :
  0 <= va -> lookup_pte (hooked r j q m) (add_leaf i j q t) va = lookup_pte m t va.
Proof.
  intros Hva. pose proof (mid_valid _ _ Hr _ _ Hi) as Hrv. pose proof hook_leaf_ne as Hne.
  pose proof (PX_range 0 va ltac:(lia)). unfold lookup_pte, slot. simpl.
  rewrite lookup_insert. destruct (decide ((i, j) = _)) as [E|E].
  - rewrite <- E, Hnone. simpl. by apply hooked_fresh; try apply Hrv.
  - destruct (leaves t !! (PX 2 va, PX 1 va)) as [p|] eqn:Ep; simpl; [|done].
    apply hooked_other; try done; try apply Hrv.
    + by eapply leaf_valid.
    + intros ->. apply Hnew. by eapply leaf_tpages.
    + intros [= -> _]. by eapply leaf_not_mid.
Qed.
End HookLeaf.

(** The state after walk hooks the fresh page [p] into entry [i] of page [r]. *)
Definition hook_state (r i p : Z) (s : phys) : phys :=
  set_pmem (fun m => store64 m (r + 8 * i) (Z.lor (PA2PTE p) PTE_V))
    (set_pmem (fun m => mset m p 0 PGSIZE) (allocated p s)).

Lemma pmem_hook_state r i p s : pmem (hook_state r i p s) = hooked r i p (pmem s).
Proof. done. Qed.

Lemma refs_hook_state r i p s q :
  valid_page p -> valid_page q ->
  refs (hook_state r i p s) q = if decide (p = q) then refs s p + 1 else refs s q.
Proof. intros [] []. by apply refs_allocated. Qed.

Lemma hook_extends s p l t t' r i :
  owned s (p :: l) t -> r ∈ tpages t -> 0 <= i < 512 ->
  pt_rep (hooked r i p (pmem s)) t' -> root t' = root t -> tpages t' ≡ₚ p :: tpages t ->
  extends s (hook_state r i p s) (p :: l) l t t'.
Proof.
  intros Ho Hr Hi Hrep Hroot Hpages. pose proof Ho as [Hu Hinv Ht Hrefs].
  destruct (kalloc_inv_cons _ _ _ Hu Hinv) as (_ & Hinv' & Hp & Hp0 & Hpl).
  assert (Hrv : valid_page r) by (by apply (rep_valid _ _ Ht)).
  assert (Hrl : r ∉ p :: l) by (by eapply owned_not_free).
  assert (Hsub : forall q, q ∈ tpages t' -> q = p \/ q ∈ tpages t).
  { intros q. rewrite Hpages. by intros ?%elem_of_cons. }
  assert (Hlv : forall q, q ∈ l -> valid_page q).
  { intros q Hq. apply (inv_valid _ _ _ Hinv). by right. }
  split.
  - split; [done| |done|].
    + apply (kmem_inv_set_pmem _ _ _ (in_page r)).
      * apply (kmem_inv_set_pmem _ _ _ (in_page p)); [done|apply frame_mset|].
        intros q a Hq Ha Ha'. apply Hpl.
        by rewrite (pages_disjoint p q a) by (done || apply Hp || apply (Hlv q Hq)).
      * intros a Ha. unfold store64. simpl. rewrite load8_storen.
        destruct (Z.leb_spec (r + 8 * i) a), (Z.ltb_spec a (r + 8 * i + Z.of_nat 8)); try done.
        exfalso. apply Ha. by apply (in_page_slot r i).
      * intros q a Hq Ha Ha'. apply Hrl. right.
        by rewrite (pages_disjoint r q a) by (done || apply Hrv || apply (Hlv q Hq)).
    + intros q Hq. apply Hsub in Hq as [-> |Hq].
      * rewrite refs_hook_state, decide_True by done. lia.
      * rewrite refs_hook_state by (done || by apply (rep_valid _ _ Ht)).
        case_decide; [lia|auto].
  - done.
  - intros q Hq. by right.
  - intros q Hq Hql. rewrite refs_hook_state by done.
    rewrite decide_False; [done|]. intros ->. apply Hql. by left.
  - done.
  - intros q [-> |]%Hsub; [right; by left|by left].
  - rewrite pmem_hook_state. intros a Ha. apply (hooked_frame _ r i p); [done..|].
    intros [Hin|Hin]; apply Ha; [exists r|exists p]; (split; [|done]); [by right|left; by left].
Qed.

(** ** Walking with allocation *)

(** What walk(.., 1) achieves from level [lv] on: an address that is the slot
    of [va] in a tree that extends [t] and maps what [t] maps, or a null pointer
    when memory ran out. *)
(** The pages [g] from the front of the free list have become pages of the table. *)
Definition grew (l l' : list Z) (t t' : ptree) (n : nat) : Prop :=
  exists g, l = g ++ l' /\ tpages t' ≡ₚ g ++ tpages t /\ (length g <= n)%nat.

Lemma grew_refl l t n : grew l l t t n.
Proof. exists []. split_and!; [done|done|simpl; lia]. Qed.

Lemma grew_one p l t t' : tpages t' ≡ₚ p :: tpages t -> grew (p :: l) l t t' 1.
Proof. intros E. by exists [p]. Qed.

Lemma grew_trans l l1 l2 t t1 t2 n n1 :
  grew l l1 t t1 n -> grew l1 l2 t1 t2 n1 -> grew l l2 t t2 (n1 + n).
Proof.
  intros (g & -> & E & Hn) (g1 & -> & E1 & Hn1). exists (g ++ g1). rewrite <- app_assoc. split; [done|].
  split; [|rewrite length_app; lia]. rewrite E1, E, (Permutation_app_comm g g1). by rewrite <- app_assoc.
Qed.

Lemma grew_mono l l' t t' n n' : (n <= n')%nat -> grew l l' t t' n -> grew l l' t t' n'.
Proof. intros Hn (g & ? & ? & ?). exists g. split_and!; [done|done|lia]. Qed.

Lemma grew_length l l' t t' n : grew l l' t t' n -> (length l <= length l' + n)%nat.
Proof. intros (g & -> & _ & Hn). rewrite length_app. lia. Qed.

Definition walk_post (s : phys) (l : list Z) (t : ptree) (va : Z) (lv : nat)
    (p : prog phys Z) : Prop :=
  exists r s' l' t', p = Done r s' /\ extends s s' l l' t t' /\
    (forall vb, 0 <= vb -> lookup_pte (pmem s') t' vb = lookup_pte (pmem s) t vb) /\
    grew l l' t t' lv /\
    ((r = 0 /\ l' = [] /\ (length l < lv)%nat) \/ slot t' va = Some r).

Lemma walk_post_refl s l t va lv :
  owned s l t -> forall r,
  (r = 0 /\ l = [] /\ (length l < lv)%nat) \/ slot t va = Some r ->
  walk_post s l t va lv (Done r s).
Proof.
  intros Ho r Hr. exists r, s, l, t. split; [done|]. split; [by apply extends_refl|].
  split; [done|]. split; [apply grew_refl|done].
Qed.

Lemma walk_post_trans s s1 l l1 t t1 va lv p :
  extends s s1 l l1 t t1 ->
  (forall vb, 0 <= vb -> lookup_pte (pmem s1) t1 vb = lookup_pte (pmem s) t vb) ->
  grew l l1 t t1 1 ->
  walk_post s1 l1 t1 va lv p -> walk_post s l t va (Datatypes.S lv) p.
Proof.
  intros He Hl Hg (r & s' & l' & t' & -> & He' & Hl' & Hg' & Hr).
  exists r, s', l', t'. split; [done|]. split; [by eapply extends_trans|].
  split; [intros vb Hvb; by rewrite Hl', Hl|].
  split; [rewrite <- Nat.add_1_r; by eapply grew_trans|]. apply grew_length in Hg, Hg'.
  destruct Hr as [(-> & -> & ?)|?]; [left; repeat split; lia|by right].
Qed.

Lemma walk_post_mono s l t va lv p :
  walk_post s l t va lv p -> walk_post s l t va (Datatypes.S lv) p.
Proof.
  intros (r & s' & l' & t' & -> & ? & ? & ? & Hr). exists r, s', l', t'.
  split_and!; try done; [by eapply grew_mono; [|done]; lia|]. destruct Hr as [(-> & -> & ?)|?]; [left|by right].
  repeat split; lia.
Qed.

(** The two steps a missing page-table page takes. *)
Lemma hook_run {A} (r i p : Z) (k : M phys A) s :
  p <> 0 ->
  bind (fill p 0) (fun _ => bind (wr64 (r + 8 * i) (Z.lor (PA2PTE p) PTE_V)) (fun _ => k))
    (allocated p s)
  = k (hook_state r i p s).
Proof. intros Hp. unfold fill. by rewrite (proj2 (Z.eqb_neq p 0)). Qed.

Lemma walk_level1_post s l t va p :
  owned s l t -> 0 <= va < MAXVA -> mids t !! PX 2 va = Some p ->
  walk_post s l t va 1 (walk_level 1 p va true s).
Proof.
  intros Ho Hva Hmid. pose proof Ho as [Hu Hinv Ht Hrefs].
  pose proof (mid_valid _ _ Ht _ _ Hmid) as Hp.
  pose proof (PX_range 1 va ltac:(lia)) as HX.
  cbn [walk_level]. change (Z.of_nat 1) with 1. unfold bind at 1, rd64, gets. cbn [bindp].
  change (load64 (pmem s) (p + 8 * PX 1 va)) with (entry (pmem s) p (PX 1 va)).
  rewrite (rep_mid _ _ Ht _ _ _ Hmid HX).
  destruct (leaves t !! (PX 2 va, PX 1 va)) as [q|] eqn:Eq.
  - pose proof (leaf_valid _ _ Ht _ _ Eq) as Hq. rewrite has_next, PTE2PA_next by done.
    apply walk_post_refl; [done|]. right. unfold slot. by rewrite Eq.
  - change (has 0 PTE_V) with false. cbn [negb]. unfold bind at 1. destruct l as [|q l].
    + rewrite kalloc_inv_nil by done. apply walk_post_refl; [done|]. left. repeat split; simpl; lia.
    + destruct (kalloc_inv_cons _ _ _ Hu Hinv) as (E & Hinv' & Hq & Hq0 & Hql).
      rewrite E. cbn [bindp]. pose proof (valid_page_pos q Hq).
      rewrite (proj2 (Z.eqb_neq q 0)) by lia. rewrite hook_run by lia.
      assert (Hnew : q ∉ tpages t).
      { intros Hin%(owned_not_free _ _ _ _ Ho). apply Hin. by left. }
      eapply (walk_post_trans _ _ _ _ _ (add_leaf (PX 2 va) (PX 1 va) q t)).
      * apply hook_extends; try done; [by eapply mid_tpages|by apply hook_leaf_rep|].
        by apply tpages_add_leaf.
      * intros vb Hvb. rewrite pmem_hook_state. by apply hook_leaf_lookup.
      * apply grew_one. by apply tpages_add_leaf.
      * apply walk_post_refl.
        -- eapply ext_owned. apply hook_extends; try done;
             [by eapply mid_tpages|by apply hook_leaf_rep|by apply tpages_add_leaf].
        -- right. unfold slot, add_leaf. simpl. by rewrite lookup_insert_eq.
Qed.

Lemma walk_true s l t va :
  owned s l t -> 0 <= va < MAXVA -> walk_post s l t va 2 (walk (root t) va true s).
Proof.
  intros Ho Hva. pose proof Ho as [Hu Hinv Ht Hrefs].
  pose proof (PX_range 2 va ltac:(lia)) as HX. unfold walk. rewrite walk_va_ok by lia.
  remember 1%nat as lv eqn:Elv. cbn [walk_level]. subst lv.
  change (Z.of_nat 2) with 2. unfold bind at 1, rd64, gets. cbn [bindp].
  change (load64 (pmem s) (root t + 8 * PX 2 va)) with (entry (pmem s) (root t) (PX 2 va)).
  rewrite (rep_root _ _ Ht _ HX).
  destruct (mids t !! PX 2 va) as [p|] eqn:Ep.
  - pose proof (mid_valid _ _ Ht _ _ Ep) as Hp. rewrite has_next, PTE2PA_next by done.
    apply walk_post_mono. by apply walk_level1_post.
  - change (has 0 PTE_V) with false. cbn [negb]. unfold bind at 1. destruct l as [|p l].
    + rewrite kalloc_inv_nil by done. apply walk_post_refl; [done|]. left. repeat split; simpl; lia.
    + destruct (kalloc_inv_cons _ _ _ Hu Hinv) as (E & Hinv' & Hp & Hp0 & Hpl).
      rewrite E. cbn [bindp]. pose proof (valid_page_pos p Hp).
      rewrite (proj2 (Z.eqb_neq p 0)) by lia. rewrite hook_run by lia.
      assert (Hnew : p ∉ tpages t).
      { intros Hin%(owned_not_free _ _ _ _ Ho). apply Hin. by left. }
      assert (He : extends s (hook_state (root t) (PX 2 va) p s) (p :: l) l t
                     (add_mid (PX 2 va) p t)).
      { apply hook_extends; try done; [apply root_tpages|by apply hook_mid_rep|].
        by apply tpages_add_mid. }
      eapply walk_post_trans; [exact He| |by apply grew_one, tpages_add_mid|].
      * intros vb Hvb. rewrite pmem_hook_state. by apply hook_mid_lookup.
      * apply walk_level1_post; [by eapply ext_owned|done|].
        apply lookup_insert_eq.
Qed.

(** ** Page tables where the slot exists *)

Lemma walk_slot s t va b a :
  pt_rep (pmem s) t -> va < MAXVA -> slot t va = Some a ->
  walk (root t) va b s = Done a s.
Proof.
  intros Hr Hva (q & Eq & ->)%slot_inv. pose proof (leaf_valid _ _ Hr _ _ Eq) as Hq.
  destruct (rep_leaf _ _ Hr _ _ _ Eq) as [p Ep].
  pose proof (mid_valid _ _ Hr _ _ Ep) as Hp. unfold walk. rewrite walk_va_ok by done.
  unfold walk_level, bind, rd64, gets. simpl bindp.
  change (Z.of_nat 2) with 2. change (Z.of_nat 1) with 1.
  change (load64 (pmem s) (root t + 8 * PX 2 va)) with (entry (pmem s) (root t) (PX 2 va)).
  rewrite (rep_root _ _ Hr) by (apply PX_range; lia).
  rewrite Ep, has_next, PTE2PA_next by done. simpl bindp.
  change (load64 (pmem s) (p + 8 * PX 1 va)) with (entry (pmem s) p (PX 1 va)).
  rewrite (rep_mid _ _ Hr _ _ _ Ep) by (apply PX_range; lia).
  by rewrite Eq, has_next, PTE2PA_next.
Qed.

Lemma lookup_slot m t va a : slot t va = Some a -> lookup_pte m t va = load64 m a.
Proof. unfold lookup_pte. by intros ->. Qed.

Lemma lookup_present m t va :
  lookup_pte m t va <> 0 -> exists a, slot t va = Some a.
Proof. unfold lookup_pte. destruct (slot t va); [eauto|done]. Qed.

Lemma has_nonzero v f : has v f = true -> v <> 0.
Proof. by intros Hh ->. Qed.

(** Storing a PTE keeps everything but the map. *)
Definition set_pte (a v : Z) : phys -> phys := set_pmem (fun m => store64 m a v).

Lemma slot_in_page m t va a x :
  pt_rep m t -> slot t va = Some a -> a <= x < a + 8 ->
  exists q, q ∈ tpages t /\ in_page q x.
Proof.
  intros Hr (q & Eq & ->)%slot_inv Hx. exists q. split; [by eapply leaf_tpages|].
  eapply in_page_slot; [|done]. apply PX_range. lia.
Qed.

Lemma set_pte_frame s t va a v :
  pt_rep (pmem s) t -> slot t va = Some a ->
  mem_frame (fun x => exists q, q ∈ tpages t /\ in_page q x) (pmem s) (pmem (set_pte a v s)).
Proof.
  intros Hr Ha x Hx. unfold set_pte, store64. simpl. rewrite load8_storen.
  destruct (Z.leb_spec a x), (Z.ltb_spec x (a + Z.of_nat 8)); simpl; try done.
  exfalso. apply Hx. by eapply slot_in_page.
Qed.

Lemma set_pte_owned s l t va a v :
  owned s l t -> slot t va = Some a -> owned (set_pte a v s) l t.
Proof.
  intros Ho Ha. pose proof Ho as [Hu Hi Hr Hf]. split; [done| |by eapply write_pte_rep|done].
  eapply kmem_inv_set_pmem; [done|by apply (set_pte_frame s t va)|].
  intros p x Hp Hx (q & Hq & Hqx).
  assert (valid_page p) by (by apply (inv_valid _ _ _ Hi)).
  assert (valid_page q) by (by apply (rep_valid _ _ Hr)).
  apply (owned_not_free _ _ _ _ Ho Hq).
  by rewrite (pages_disjoint q p x) by (done || match goal with H : valid_page _ |- _ => apply H end).
Qed.

Lemma set_pte_extends s l t va a v :
  owned s l t -> slot t va = Some a -> extends s (set_pte a v s) l l t t.
Proof.
  intros Ho Ha. split; try done; auto.
  - by eapply set_pte_owned.
  - intros x Hx. apply (set_pte_frame s t va); [apply Ho|done|].
    intros (q & Hq & Hin). apply Hx. eauto.
Qed.

(** Another tree is not disturbed by changes that avoid its pages. *)
Definition apart (t t' : ptree) : Prop := forall p, p ∈ tpages t -> p ∉ tpages t'.

Lemma extends_other s s' l l' t t' u :
  owned s l t -> extends s s' l l' t t' -> owned s l u -> apart u t ->
  owned s' l' u /\ apart u t' /\
  (forall va, lookup_pte (pmem s') u va = lookup_pte (pmem s) u va).
Proof.
  intros Hos He Hu Hap. pose proof (ext_owned _ _ _ _ _ _ He) as [Hu1 Hi1 Ht1 Hr1].
  assert (Hbytes : forall p a, p ∈ tpages u -> in_page p a ->
                     load8 (pmem s') a = load8 (pmem s) a).
  { intros p a Hp Ha. apply (ext_mem _ _ _ _ _ _ He).
    intros (q & Hq & Hqa). assert (Hpv : valid_page p) by (by apply (rep_valid _ _ (own_rep _ _ _ Hu))).
    assert (Hnl : p ∉ l) by (by eapply owned_not_free).
    assert (q = p) as ->; [|destruct Hq as [|Hq]; [done|by apply (Hap p)]].
    destruct Hq as [Hq|Hq].
    - apply (inv_valid _ _ _ (own_inv _ _ _ Hu)) in Hq. eapply pages_disjoint; try done;
        [apply Hq|apply Hpv].
    - destruct (decide (q = p)) as [|Hne]; [done|].
      eapply pages_disjoint; try done; [|apply Hpv].
      by apply (rep_valid _ _ (own_rep _ _ _ Hos)). }
  split; [|split].
  - split; [done|done| |].
    + eapply pt_rep_ext; [|apply (own_rep _ _ _ Hu)]. eauto.
    + intros p Hp. rewrite (ext_refs _ _ _ _ _ _ He); [by apply (own_refs _ _ _ Hu)|..].
      * by apply (rep_valid _ _ (own_rep _ _ _ Hu)).
      * by eapply owned_not_free.
  - intros p Hp [Hq|Hq]%(ext_new _ _ _ _ _ _ He); [by apply (Hap p)|].
    by eapply owned_not_free.
  - intros va. apply lookup_pte_ext. eauto.
Qed.

End Tree.
