(* ===== verification/VmOps.v ===== *)
(** The page-table operations of kernel/vm.c as updates of a finite map.

    Each lemma takes a page table described by a [ptree] that the allocator's
    invariant owns, and says what the operation returns on every branch, how
    the map from pages to PTEs changes, and what happens to the free list and
    the reference counts. *)

From S2P Require Import Prelude Mem Riscv Locks Kalloc Vm VmTree.

Section Ops.
Context `{Layout}.

(** The map of a page table with one page changed. *)
Definition upd_pte (f : Z -> Z) (va v : Z) : Z -> Z :=
  fun vb => if decide (vb / PGSIZE = va / PGSIZE) then v else f vb.

Definition same_map (f g : Z -> Z) : Prop := forall vb, 0 <= vb < MAXVA -> f vb = g vb.

Lemma set_pte_lookup s t va a v :
  pt_rep (pmem s) t -> slot t va = Some a -> 0 <= v < 2 ^ 64 -> 0 <= va < MAXVA ->
  same_map (lookup_pte (pmem (set_pte a v s)) t) (upd_pte (lookup_pte (pmem s) t) va v).
Proof. intros Hr Ha Hv Hva vb Hvb. by apply write_pte_lookup. Qed.

(** ** mappages *)

(** What mapping one page achieves: it is mapped, or memory ran out and the
    map is as before. *)
Definition map_post (s : phys) (l : list Z) (t : ptree) (va v : Z) (p : prog phys Z) : Prop :=
  exists r s' l' t', p = Done r s' /\ extends s s' l l' t t' /\
    grew l l' t t' 2 /\
    ((r = 0 /\ same_map (lookup_pte (pmem s') t') (upd_pte (lookup_pte (pmem s) t) va v)) \/
     (r = -1 /\ l' = [] /\ (length l < 2)%nat /\
      same_map (lookup_pte (pmem s') t') (lookup_pte (pmem s) t))).

Lemma last_page va : 0 <= va < MAXVA -> va mod PGSIZE = 0 ->
  PGROUNDDOWN (u64 (va + PGSIZE - 1)) = va.
Proof.
  intros Hva Ha. change MAXVA with (2 ^ 38) in Hva.
  rewrite u64_small by (unfold PGSIZE; lia).
  rewrite PGROUNDDOWN_eq. unfold PGSIZE in *. zdiv.
Qed.

Lemma pte_word pa perm :
  pa_ok pa -> 0 <= perm < 1024 -> 0 <= mkpte pa (Z.lor perm PTE_V) < 2 ^ 64.
Proof.
  intros Hpa Hperm.
  pose proof (lor_lt_pow2 perm PTE_V 10 ltac:(lia) ltac:(lia) ltac:(done)).
  pose proof (mkpte_range pa (Z.lor perm PTE_V) Hpa ltac:(lia)). lia.
Qed.

Lemma mappages_page s l t va pa perm :
  owned s l t -> 0 <= va < MAXVA -> va mod PGSIZE = 0 -> pa_ok pa -> 0 <= perm < 1024 ->
  has (lookup_pte (pmem s) t va) PTE_V = false ->
  map_post s l t va (mkpte pa (Z.lor perm PTE_V)) (mappages (root t) va PGSIZE pa perm s).
Proof.
  intros Ho Hva Hal Hpa Hperm Hfree. unfold mappages.
  change (PGSIZE =? 0) with false. cbv iota. rewrite last_page by done.
  change (Z.to_nat (PGSIZE / PGSIZE + 2)) with 3%nat. rewrite PGROUNDDOWN_id by done.
  cbn [loop]. unfold bind at 1 2.
  destruct (walk_true s l t va Ho Hva) as (r & s1 & l1 & t1 & -> & He & Hl & Hlen & Hr).
  cbn [bindp].
  pose proof (ext_owned _ _ _ _ _ _ He) as Ho1.
  destruct Hr as [(-> & -> & Hlt)|Hslot].
  - cbn. exists (-1), s1, [], t1. split_and!; try done. right. split_and!; try done.
    intros vb Hvb. apply Hl. lia.
  - pose proof (slot_pos _ _ _ _ (own_rep _ _ _ Ho1) Hslot).
    rewrite (proj2 (Z.eqb_neq r 0)) by lia. unfold bind at 1, rd64, gets. cbn [bindp].
    rewrite <- (lookup_slot (pmem s1) _ _ _ Hslot), Hl, Hfree by lia.
    unfold bind, wr64, modify. cbn [bindp]. rewrite Z.eqb_refl. cbn.
    rewrite <- Z.lor_assoc. change (Z.lor (PA2PTE pa) (Z.lor perm PTE_V))
      with (mkpte pa (Z.lor perm PTE_V)).
    exists 0, (set_pte r (mkpte pa (Z.lor perm PTE_V)) s1), l1, t1.
    split; [done|]. split; [eapply extends_trans; [done|by eapply set_pte_extends]|].
    split; [done|]. left. split; [done|]. intros vb Hvb.
    rewrite (set_pte_lookup _ _ va) by (done || apply Ho1 || by apply pte_word).
    unfold upd_pte. case_decide; [done|]. apply Hl. lia.
Qed.

(** A page whose slot exists is mapped without allocating. *)
Lemma mappages_slot s t va pa perm a :
  pt_rep (pmem s) t -> 0 <= va < MAXVA -> va mod PGSIZE = 0 -> slot t va = Some a ->
  has (lookup_pte (pmem s) t va) PTE_V = false ->
  mappages (root t) va PGSIZE pa perm s = Done 0 (set_pte a (mkpte pa (Z.lor perm PTE_V)) s).
Proof.
  intros Hr Hva Hal Ha Hfree. unfold mappages.
  change (PGSIZE =? 0) with false. cbv iota. rewrite last_page by done.
  change (Z.to_nat (PGSIZE / PGSIZE + 2)) with 3%nat. rewrite PGROUNDDOWN_id by done.
  cbn [loop]. unfold bind at 1 2. rewrite (walk_slot s t va true a) by (done || lia). cbn [bindp].
  pose proof (slot_pos _ _ _ _ Hr Ha). rewrite (proj2 (Z.eqb_neq a 0)) by lia.
  unfold bind at 1, rd64, gets. cbn [bindp].
  rewrite <- (lookup_slot (pmem s) _ _ _ Ha), Hfree.
  unfold bind, wr64, modify. cbn [bindp]. rewrite Z.eqb_refl. cbn.
  by rewrite <- Z.lor_assoc.
Qed.

(** A page that is mapped already is never remapped. *)
Lemma mappages_remap s l t va pa perm :
  owned s l t -> 0 <= va < MAXVA -> va mod PGSIZE = 0 ->
  has (lookup_pte (pmem s) t va) PTE_V = true ->
  mappages (root t) va PGSIZE pa perm s = Panic "mappages: remap".
Proof.
  intros Ho Hva Hal Hpres. unfold mappages.
  change (PGSIZE =? 0) with false. cbv iota. rewrite last_page by done.
  change (Z.to_nat (PGSIZE / PGSIZE + 2)) with 3%nat. rewrite PGROUNDDOWN_id by done.
  cbn [loop]. unfold bind at 1 2.
  destruct (lookup_present (pmem s) t va) as [a Ha]; [by eapply has_nonzero|].
  rewrite (walk_slot s t va true a) by (done || apply Ho || lia). cbn [bindp].
  pose proof (slot_pos _ _ _ _ (own_rep _ _ _ Ho) Ha).
  rewrite (proj2 (Z.eqb_neq a 0)) by lia. unfold bind, rd64, gets. cbn [bindp].
  by rewrite <- (lookup_slot (pmem s) _ _ _ Ha), Hpres.
Qed.

(** ** uvmunmap *)

(** A tree that an operation does not touch. *)
Lemma other_tree s s' l l' u :
  owned s l u -> unlocked s' -> kmem_inv s' l' ->
  (forall p, p ∈ tpages u -> refs s' p <> 0) ->
  (forall p a, p ∈ tpages u -> in_page p a -> load8 (pmem s') a = load8 (pmem s) a) ->
  owned s' l' u /\ (forall va, lookup_pte (pmem s') u va = lookup_pte (pmem s) u va).
Proof.
  intros [Hu Hi Hr Hf] Hu' Hi' Hf' Hm. split; [|intros va; by apply lookup_pte_ext].
  split; try done. by eapply pt_rep_ext.
Qed.

(** What unmapping may change besides reference counts: the tree's own pages
    and pages that end on the free list. *)
Record shrinks (s s' : phys) (l l' : list Z) (t : ptree) : Prop := Shrinks {
  shr_owned : owned s' l' t;
  shr_held : pheld s' = pheld s;
  shr_free : forall q, q ∈ l -> q ∈ l';
  shr_mem : mem_frame (fun a => exists q, (q ∈ l' \/ q ∈ tpages t) /\ in_page q a)
              (pmem s) (pmem s');
}.

Lemma shrinks_refl s l t : owned s l t -> shrinks s s l l t.
Proof. by split. Qed.

Lemma shrinks_trans s1 s2 s3 l1 l2 l3 t :
  shrinks s1 s2 l1 l2 t -> shrinks s2 s3 l2 l3 t -> shrinks s1 s3 l1 l3 t.
Proof.
  intros [_ Hh1 Hf1 Hm1] [Ho Hh Hf Hm]. split; [done|congruence|by auto|].
  intros a Ha. transitivity (load8 (pmem s2) a).
  - apply Hm. intros (q & Hq & Hin). apply Ha. eauto.
  - apply Hm1. intros (q & [Hq|Hq] & Hin); apply Ha; exists q; auto.
Qed.

Lemma set_pte_shrinks s l t va a v :
  owned s l t -> slot t va = Some a -> shrinks s (set_pte a v s) l l t.
Proof.
  intros Ho Ha. split; [by eapply set_pte_owned|done|done|].
  intros x Hx. apply (set_pte_frame s t va); [apply Ho|done|].
  intros (q & Hq & Hin). apply Hx. eauto.
Qed.

(** Dropping a reference to a data page. *)
Lemma kfree_shrinks s l t p :
  owned s l t -> valid_page p -> p ∉ tpages t -> refs s p <> 0 ->
  exists s' l', kfree p s = Done tt s' /\ shrinks s s' l l' t /\
    (forall q, valid_page q -> refs s' q = refs s q - if decide (p = q) then 1 else 0) /\
    (forall va, lookup_pte (pmem s') t va = lookup_pte (pmem s) t va) /\
    (forall q, q ∈ l' -> q ∈ l \/ q = p).
Proof.
  intros Ho Hp Hpt Hne. pose proof Ho as [Hu Hi Hr Hf].
  destruct (kfree_inv s l p Hu Hi Hp Hne) as (s' & E & Hh & Hm & Hrefs & Hi' & Hsame).
  assert (Hl' : forall q, q ∈ (if refs s p =? 1 then p :: l else l) -> q ∈ l \/ q = p).
  { intros q. destruct (refs s p =? 1); [intros [-> |]%elem_of_cons|]; auto. }
  assert (Hrf : forall q, valid_page q ->
            refs s' q = refs s q - if decide (p = q) then 1 else 0).
  { intros q Hq. rewrite Hrefs by done. destruct (decide (p = q)) as [-> |]; lia. }
  destruct (other_tree s s' l (if refs s p =? 1 then p :: l else l) t Ho) as [Ho' Hlk].
  - unfold unlocked. by rewrite Hh.
  - done.
  - intros q Hq. rewrite Hrf by (by apply (rep_valid _ _ Hr)).
    rewrite decide_False by (by intros ->). rewrite Z.sub_0_r. by apply Hf.
  - intros q a Hq Ha. apply Hm. intros Hpa. apply Hpt.
    rewrite (pages_disjoint p q a); try done; [apply Hp|by apply (rep_valid _ _ Hr)].
  - eexists s', _. split; [done|]. split; [|by split_and!].
    split; [done|done| |].
    + intros q Hq. destruct (refs s p =? 1); [by right|done].
    + intros a Ha. destruct (Z.eqb_spec (refs s p) 1) as [E1|E1]; [|by rewrite Hsame].
      apply Hm. intros Hpa. apply Ha. exists p. split; [left; by left|done].
Qed.

(** A data page and its flags, as a leaf PTE holds them. *)
Definition entry_ok (t : ptree) (e : Z * Z) : Prop :=
  valid_page e.1 /\ (e.1 ∉ tpages t) /\ 0 <= e.2 < 1024 /\ has e.2 PTE_V = true /\ e.2 <> PTE_V.

(** The pages from page [k] on are mapped as [es] says. *)
Definition maps (f : Z -> Z) (k : Z) (es : list (Z * Z)) : Prop :=
  forall i e, es !! i = Some e -> f ((k + Z.of_nat i) * PGSIZE) = mkpte e.1 e.2.

(** How many of the entries name page [q]. *)
Fixpoint occ (q : Z) (es : list (Z * Z)) : Z :=
  match es with
  | [] => 0
  | e :: es' => (if decide (e.1 = q) then 1 else 0) + occ q es'
  end.

Definition clear_range (f : Z -> Z) (k n : Z) : Z -> Z :=
  fun vb => if decide (k * PGSIZE <= vb < (k + n) * PGSIZE) then 0 else f vb.

Lemma occ_nonneg q es : 0 <= occ q es.
Proof. induction es as [|e es IH]; simpl; [lia|]. case_decide; lia. Qed.

Lemma occ_app q es es' : occ q (es ++ es') = occ q es + occ q es'.
Proof. induction es as [|e es IH]; simpl; [done|]. rewrite IH. lia. Qed.

Lemma occ_pos q es : occ q es <> 0 <-> exists e, e ∈ es /\ e.1 = q.
Proof.
  induction es as [|e es IH]; simpl.
  - split; [done|]. intros (e & He & _). set_solver.
  - pose proof (occ_nonneg q es). case_decide as Hd.
    + split; [intros _; exists e; split; [by left|done]|lia].
    + rewrite IH. split; intros (e' & He & <-); exists e'; (split; [|done]); [by right|].
      by apply elem_of_cons in He as [-> |].
Qed.

Lemma entry_word t e : entry_ok t e ->
  PTE2PA (mkpte e.1 e.2) = e.1 /\ has (mkpte e.1 e.2) PTE_V = true /\
  PTE_FLAGS (mkpte e.1 e.2) = e.2.
Proof.
  intros (Hv & _ & Hf & HV & _). pose proof (valid_page_pa_ok _ Hv).
  by rewrite PTE2PA_mkpte, has_mkpte, PTE_FLAGS_mkpte.
Qed.

Lemma same_map_trans f g h : same_map f g -> same_map g h -> same_map f h.
Proof. intros H1 H2 vb Hvb. by rewrite H1, H2. Qed.

(** One iteration of uvmunmap. *)
Definition unmap_body (pagetable stop : Z) (do_free : bool) (a : Z) : M phys (Z + unit) :=
  if a <? stop then
    pte <- walk pagetable a false;;
    if pte =? 0 then panic "uvmunmap: walk"
    else
      v <- rd64 pte;;
      if negb (has v PTE_V) then panic "uvmunmap: not mapped"
      else if PTE_FLAGS v =? PTE_V then panic "uvmunmap: not a leaf"
      else
        when do_free (kfree (PTE2PA v));;;
        wr64 pte 0;;;
        continue (a + PGSIZE)
  else break tt.

Lemma uvmunmap_loop pagetable va npages b :
  va mod PGSIZE = 0 ->
  uvmunmap pagetable va npages b
  = loop (Z.to_nat (npages + 1)) (unmap_body pagetable (va + npages * PGSIZE) b) va.
Proof. intros Ha. unfold uvmunmap. by rewrite Ha. Qed.

Lemma unmap_one s l t va stop e :
  owned s l t -> 0 <= va < MAXVA -> va < stop -> entry_ok t e -> refs s e.1 <> 0 ->
  lookup_pte (pmem s) t va = mkpte e.1 e.2 ->
  exists s' l', unmap_body (root t) stop true va s = Done (inl (va + PGSIZE)) s' /\
    shrinks s s' l l' t /\
    (forall q, valid_page q -> refs s' q = refs s q - if decide (e.1 = q) then 1 else 0) /\
    (forall q, q ∈ l' -> q ∈ l \/ q = e.1) /\
    same_map (lookup_pte (pmem s') t) (upd_pte (lookup_pte (pmem s) t) va 0).
Proof.
  intros Ho Hva Hstop Hok Hne Hlk.
  pose proof (entry_word _ _ Hok) as (Hpa & HV & Hfl).
  pose proof Hok as (Hvp & Hnt & Hfr & _ & Hleaf).
  destruct (lookup_present (pmem s) t va) as [a Ha].
  { rewrite Hlk. by eapply has_nonzero. }
  destruct (kfree_shrinks s l t e.1 Ho Hvp Hnt Hne) as (s1 & l1 & E & Hs & Hrefs & Hsame & Hl1).
  pose proof (shr_owned _ _ _ _ _ Hs) as Ho1.
  pose proof (slot_pos _ _ _ _ (own_rep _ _ _ Ho) Ha).
  exists (set_pte a 0 s1), l1. split.
  - unfold unmap_body. rewrite (proj2 (Z.ltb_lt va stop)) by done.
    unfold bind at 1. rewrite (walk_slot s t va false a) by (apply Ho || done || lia).
    cbn [bindp]. rewrite (proj2 (Z.eqb_neq a 0)) by lia.
    unfold bind at 1, rd64, gets. cbn [bindp].
    rewrite <- (lookup_slot (pmem s) _ _ _ Ha), Hlk, HV, Hfl, Hpa. cbn [negb].
    rewrite (proj2 (Z.eqb_neq e.2 PTE_V)) by done. unfold bind, when. rewrite E. done.
  - split; [eapply shrinks_trans; [done|by eapply set_pte_shrinks]|].
    split; [done|]. split; [done|]. intros vb Hvb.
    rewrite (set_pte_lookup s1 t va a 0) by (done || apply Ho1 || lia).
    unfold upd_pte. case_decide; [done|]. apply Hsame.
Qed.

Lemma uvmunmap_one s l t va e :
  owned s l t -> 0 <= va < MAXVA -> va mod PGSIZE = 0 -> entry_ok t e -> refs s e.1 <> 0 ->
  lookup_pte (pmem s) t va = mkpte e.1 e.2 ->
  exists s' l', uvmunmap (root t) va 1 true s = Done tt s' /\
    shrinks s s' l l' t /\
    (forall q, valid_page q -> refs s' q = refs s q - if decide (e.1 = q) then 1 else 0) /\
    (forall q, q ∈ l' -> q ∈ l \/ q = e.1) /\
    same_map (lookup_pte (pmem s') t) (upd_pte (lookup_pte (pmem s) t) va 0).
Proof.
  intros Ho Hva Hal Hok Hne Hlk.
  destruct (unmap_one s l t va (va + 1 * PGSIZE) e) as (s' & l' & E & Hrest); try done.
  { unfold PGSIZE. lia. }
  exists s', l'. split; [|done]. rewrite uvmunmap_loop by done.
  change (Z.to_nat (1 + 1)) with 2%nat. cbn [loop]. unfold bind at 1. rewrite E. cbn [bindp].
  unfold bind, unmap_body. rewrite (proj2 (Z.ltb_ge _ _)) by (unfold PGSIZE; lia). done.
Qed.

Lemma unmap_loop_spec t b es :
  forall fuel k s l, (length es < fuel)%nat -> 0 <= k ->
  (k + Z.of_nat (length es)) * PGSIZE <= MAXVA -> b = (k + Z.of_nat (length es)) * PGSIZE ->
  owned s l t -> maps (lookup_pte (pmem s) t) k es -> Forall (entry_ok t) es ->
  (forall q, valid_page q -> occ q es <= refs s q) ->
  exists s' l', loop fuel (unmap_body (root t) b true) (k * PGSIZE) s = Done tt s' /\
    shrinks s s' l l' t /\
    (forall q, valid_page q -> refs s' q = refs s q - occ q es) /\
    (forall q, q ∈ l' -> q ∈ l \/ exists e, e ∈ es /\ q = e.1) /\
    same_map (lookup_pte (pmem s') t)
      (clear_range (lookup_pte (pmem s) t) k (Z.of_nat (length es))).
Proof.
  induction es as [|e es IH]; intros [|fuel] k s l Hfuel Hk Hmax Hb Ho Hmaps Hok Hocc;
    simpl in Hfuel; try lia; subst b.
  - exists s, l. split.
    { cbn [loop]. unfold bind, unmap_body. simpl Z.of_nat. rewrite Z.add_0_r, Z.ltb_irrefl. done. }
    split; [by apply shrinks_refl|]. split; [intros; simpl; lia|]. split; [by left|].
    intros vb _. unfold clear_range. rewrite decide_False; [done|]. simpl. lia.
  - simpl length in *. apply Forall_cons in Hok as [He Hok].
    assert (Hpg : 0 < PGSIZE) by done.
    assert (Hvp : valid_page e.1) by apply He.
    assert (Hne : refs s e.1 <> 0).
    { specialize (Hocc _ Hvp). simpl in Hocc. rewrite decide_True in Hocc by done.
      pose proof (occ_nonneg e.1 es). lia. }
    destruct (unmap_one s l t (k * PGSIZE) ((k + Z.of_nat (Datatypes.S (length es))) * PGSIZE) e)
      as (s1 & l1 & E & Hs & Hrefs & Hl1 & Hlk); try done; [nia|nia| |].
    { rewrite <- (Hmaps 0%nat e eq_refl). f_equal. simpl. lia. }
    destruct (IH fuel (k + 1) s1 l1) as (s2 & l2 & E2 & Hs2 & Hrefs2 & Hl2 & Hlk2);
      try done; try lia; try nia.
    + apply Hs.
    + intros i e' Hi. rewrite <- (Hmaps (Datatypes.S i) e' Hi).
      assert ((k + Z.of_nat (Datatypes.S i)) * PGSIZE = (k + 1 + Z.of_nat i) * PGSIZE) as -> by lia.
      apply lookup_lt_Some in Hi.
      rewrite Hlk by nia. unfold upd_pte. rewrite decide_False; [done|].
      rewrite !Z.div_mul by done. lia.
    + intros q Hq. rewrite Hrefs by done. specialize (Hocc q Hq). simpl in Hocc. lia.
    + exists s2, l2. split.
      { cbn [loop]. unfold bind. rewrite E. cbn [bindp].
        replace (k * PGSIZE + PGSIZE) with ((k + 1) * PGSIZE) by lia.
        exact E2. }
      split; [by eapply shrinks_trans|]. split.
      { intros q Hq. rewrite Hrefs2, Hrefs by done. simpl. lia. }
      split.
      { intros q [Hq|(e' & He' & ->)]%Hl2; [apply Hl1 in Hq as [Hq| ->]; [by left|]|]; right.
        - exists e. split; [by left|done].
        - exists e'. split; [by right|done]. }
      intros vb Hvb. rewrite Hlk2 by done. unfold clear_range.
      repeat case_decide; try done; try nia; rewrite Hlk by done; unfold upd_pte;
        rewrite Z.div_mul by done; case_decide; try done; exfalso; unfold PGSIZE in *; zdiv.
Qed.

(** ** A fresh page *)

(** Taking a page off the free list and filling it. *)
Lemma fresh_extends s p l t f :
  owned s (p :: l) t ->
  mem_frame (in_page p) (pmem (allocated p s)) (f (pmem (allocated p s))) ->
  extends s (set_pmem f (allocated p s)) (p :: l) l t t.
Proof.
  intros Ho Hf. pose proof Ho as [Hu Hi Hr Hrf].
  destruct (kalloc_inv_cons _ _ _ Hu Hi) as (_ & Hi' & Hp & Hp0 & Hpl).
  assert (Hm : mem_frame (in_page p) (pmem s) (pmem (set_pmem f (allocated p s)))).
  { intros a Ha. simpl. rewrite Hf by done. by apply frame_mset. }
  assert (Hpt : p ∉ tpages t) by (intros Hx%(owned_not_free _ _ _ _ Ho); apply Hx; by left).
  assert (Ho' : owned (set_pmem f (allocated p s)) l t).
  { destruct (other_tree s (set_pmem f (allocated p s)) (p :: l) l t Ho) as [Ho' _]; try done.
    - eapply (kmem_inv_set_pmem (allocated p s) _ _ (in_page p)); [done|done|].
      intros q a Hq Ha Hpa. apply Hpl.
      assert (valid_page q) by (apply (inv_valid _ _ _ Hi); by right).
      by rewrite (pages_disjoint p q a) by (done || apply Hp || match goal with H : valid_page q |- _ => apply H end).
    - intros q Hq. change (refs (set_pmem f (allocated p s)) q) with (refs (allocated p s) q).
      assert (valid_page q) as Hqv by (by apply (rep_valid _ _ Hr)).
      rewrite refs_allocated by (apply Hp || apply Hqv).
      rewrite decide_False by (by intros ->). by apply Hrf.
    - intros q a Hq Ha. apply Hm. intros Hpa. apply Hpt.
      assert (valid_page q) as Hqv by (by apply (rep_valid _ _ Hr)).
      by rewrite (pages_disjoint p q a) by (done || apply Hp || apply Hqv). }
  split; try done.
  - intros q Hq. by right.
  - intros q Hq Hql. change (refs (set_pmem f (allocated p s)) q) with (refs (allocated p s) q).
    rewrite refs_allocated by (apply Hp || apply Hq). rewrite decide_False; [done|].
    intros ->. apply Hql. by left.
  - auto.
  - intros a Ha. apply Hm. intros Hpa. apply Ha. exists p. split; [left; by left|done].
Qed.

End Ops.
