(* ===== verification/Space.v ===== *)
(** Address spaces that share pages copy-on-write.

    A [space] is a page table with the list of its user pages, entry [i] being
    the physical page and the flags of virtual page [i].  [world s l W] is the
    invariant of the whole memory system: the free list is [l], every space of
    [W] is laid out in memory, page-table pages and data pages do not overlap,
    the reference count of a data page is the number of PTEs that name it, and
    a page some PTE may write through has exactly one.  [Cow.v] proves that
    fork, the copy-on-write fault and copyout keep it. *)

From S2P Require Import Prelude Mem Riscv Locks Kalloc Vm VmTree VmOps.

Record space := Space { tree : ptree; ents : list (Z * Z) }.

Definition pages (W : list space) : list Z := flat_map (fun sp => tpages (tree sp)) W.
Definition entries (W : list space) : list (Z * Z) := flat_map ents W.

#[global] Arguments pages : simpl never.
#[global] Arguments entries : simpl never.

Section Space.
Context `{Layout}.

Record aspace (m : mem) (sp : space) : Prop := Aspace {
  as_rep : pt_rep m (tree sp);
  as_maps : maps (lookup_pte m (tree sp)) 0 (ents sp);
  as_ok : Forall (entry_ok (tree sp)) (ents sp);
  as_size : Z.of_nat (length (ents sp)) * PGSIZE <= MAXVA;
}.

Record wf (s : phys) (l : list Z) (W : list space) : Prop := Wf {
  wf_unlocked : unlocked s;
  wf_inv : kmem_inv s l;
  wf_space : Forall (aspace (pmem s)) W;
  wf_nodup : NoDup (pages W);
  wf_tref : forall p, p ∈ pages W -> refs s p <> 0;
  wf_data : forall e, e ∈ entries W -> e.1 ∉ pages W;
  wf_dref : forall e, e ∈ entries W -> refs s e.1 <> 0;
}.

(** Reference counts count PTEs, and write access is exclusive. *)
Record acct (s : phys) (W : list space) : Prop := Acct {
  ac_refs : forall e, e ∈ entries W -> refs s e.1 = occ e.1 (entries W);
  ac_write : forall e, e ∈ entries W -> has e.2 PTE_W = true -> occ e.1 (entries W) = 1;
}.

Definition world (s : phys) (l : list Z) (W : list space) : Prop := wf s l W /\ acct s W.

(** The contents of the pages the spaces map. *)
Definition data_same (W : list space) (s s' : phys) : Prop :=
  forall e a, e ∈ entries W -> in_page e.1 a -> load8 (pmem s') a = load8 (pmem s) a.

(** The byte a space reads at a user address. *)
Definition uread (s : phys) (sp : space) (va : Z) : option Z :=
  e ← geti (ents sp) (va / PGSIZE);
  Some (load8 (pmem s) (e.1 + va mod PGSIZE)).

(** ** Permutations *)

#[export] Instance pages_perm : Proper ((≡ₚ) ==> (≡ₚ)) pages.
Proof. intros W W' E. apply Permutation_flat_map, E. Qed.
#[export] Instance entries_perm : Proper ((≡ₚ) ==> (≡ₚ)) entries.
Proof. intros W W' E. apply Permutation_flat_map, E. Qed.
#[export] Instance occ_perm q : Proper ((≡ₚ) ==> eq) (occ q).
Proof. induction 1; simpl; lia. Qed.

#[export] Instance wf_perm s l : Proper ((≡ₚ) ==> iff) (wf s l).
Proof.
  enough (forall W W', W ≡ₚ W' -> wf s l W -> wf s l W') as Hw.
  { intros W W' E. split; apply Hw; done. }
  intros W W' E [Hu Hi Hs Hn Ht Hd Hr]. split; try done.
  - by rewrite <- E.
  - by rewrite <- E.
  - intros p. rewrite <- E. apply Ht.
  - intros e. rewrite <- E. apply Hd.
  - intros e. rewrite <- E. apply Hr.
Qed.

#[export] Instance acct_perm s : Proper ((≡ₚ) ==> iff) (acct s).
Proof.
  enough (forall W W', W ≡ₚ W' -> acct s W -> acct s W') as Hw.
  { intros W W' E. split; apply Hw; done. }
  intros W W' E [Hr Hw]. split; intros e; rewrite <- E; auto.
Qed.

#[export] Instance world_perm s l : Proper ((≡ₚ) ==> iff) (world s l).
Proof. intros W W' E. unfold world. by rewrite E. Qed.

(** ** Facts about a well-formed system *)

Lemma elem_of_pages p W : p ∈ pages W <-> exists sp, sp ∈ W /\ p ∈ tpages (tree sp).
Proof. unfold pages. rewrite list_elem_of_In, in_flat_map. setoid_rewrite <- list_elem_of_In. done. Qed.

Lemma elem_of_entries e W : e ∈ entries W <-> exists sp, sp ∈ W /\ e ∈ ents sp.
Proof. unfold entries. rewrite list_elem_of_In, in_flat_map. setoid_rewrite <- list_elem_of_In. done. Qed.

Lemma pages_cons sp W : pages (sp :: W) = tpages (tree sp) ++ pages W.
Proof. done. Qed.
Lemma entries_cons sp W : entries (sp :: W) = ents sp ++ entries W.
Proof. done. Qed.

Lemma in_pages_cons p sp W : p ∈ pages (sp :: W) <-> p ∈ tpages (tree sp) \/ p ∈ pages W.
Proof. rewrite pages_cons. apply elem_of_app. Qed.
Lemma in_entries_cons e sp W : e ∈ entries (sp :: W) <-> e ∈ ents sp \/ e ∈ entries W.
Proof. rewrite entries_cons. apply elem_of_app. Qed.

Section Facts.
Context (s : phys) (l : list Z) (W : list space) (Hw : wf s l W).

Lemma wf_aspace sp : sp ∈ W -> aspace (pmem s) sp.
Proof. intros Hsp. by eapply Forall_forall; [apply Hw|]. Qed.

Lemma wf_owned sp : sp ∈ W -> owned s l (tree sp).
Proof.
  intros Hsp. split; try apply Hw; [by apply wf_aspace|].
  intros p Hp. apply (wf_tref _ _ _ Hw). apply elem_of_pages. eauto.
Qed.

Lemma wf_page_valid p : p ∈ pages W -> valid_page p.
Proof.
  intros (sp & Hsp & Hp)%elem_of_pages. by apply (rep_valid _ _ (as_rep _ _ (wf_aspace _ Hsp))).
Qed.

Lemma wf_entry_ok sp e : sp ∈ W -> e ∈ ents sp -> entry_ok (tree sp) e.
Proof. intros Hsp He. eapply Forall_forall; [by eapply as_ok, wf_aspace|done]. Qed.

Lemma wf_entry_valid e : e ∈ entries W -> valid_page e.1.
Proof. intros (sp & Hsp & He)%elem_of_entries. by apply (wf_entry_ok sp). Qed.

Lemma wf_page_used p : p ∈ pages W -> p ∉ l.
Proof. intros (sp & Hsp & Hp)%elem_of_pages. eapply owned_not_free; [by apply wf_owned|done]. Qed.

Lemma wf_entry_used e : e ∈ entries W -> e.1 ∉ l.
Proof.
  intros He Hl. apply (wf_dref _ _ _ Hw e He), (inv_free _ _ _ (wf_inv _ _ _ Hw)); [|done].
  by apply wf_entry_valid.
Qed.
End Facts.

Lemma wf_apart s l sp R p : wf s l (sp :: R) -> p ∈ tpages (tree sp) -> p ∉ pages R.
Proof.
  intros Hw. pose proof (wf_nodup _ _ _ Hw) as Hn. rewrite pages_cons in Hn.
  apply NoDup_app in Hn as (_ & Hd & _). apply Hd.
Qed.

(** A space is not affected by changes outside its page table. *)
Lemma aspace_frame m m' sp :
  aspace m sp ->
  (forall p a, p ∈ tpages (tree sp) -> in_page p a -> load8 m' a = load8 m a) ->
  aspace m' sp.
Proof.
  intros [Hr Hm Ho Hs] Hf. split; try done.
  - by eapply pt_rep_ext.
  - intros i e Hi. rewrite <- (Hm i e Hi). by apply lookup_pte_ext.
Qed.

(** Changing one space of a system, and memory outside the others' tables. *)
Lemma wf_step s l s' l' sp sp' R :
  wf s l (sp :: R) -> unlocked s' -> kmem_inv s' l' -> aspace (pmem s') sp' ->
  (forall p a, p ∈ pages R -> in_page p a -> load8 (pmem s') a = load8 (pmem s) a) ->
  (forall p, p ∈ tpages (tree sp') -> p ∈ tpages (tree sp) \/ p ∈ l) ->
  (forall p, p ∈ tpages (tree sp') -> refs s' p <> 0) ->
  (forall p, p ∈ pages R -> refs s' p <> 0) ->
  (forall e, e ∈ entries (sp' :: R) -> refs s' e.1 <> 0 /\ (e.1 ∉ l) /\ e.1 ∉ pages (sp :: R)) ->
  wf s' l' (sp' :: R).
Proof.
  intros Hw Hu Hi Ha Hf Ht Hrt HrR He.
  assert (Hnew : forall p, p ∈ tpages (tree sp') -> p ∉ pages R).
  { intros p [Hp|Hp]%Ht Hin; [by eapply wf_apart|].
    eapply (wf_page_used _ _ _ Hw p); [|done]. apply in_pages_cons. by right. }
  split; try done.
  - constructor; [done|]. pose proof (wf_space _ _ _ Hw) as Hs.
    apply Forall_cons in Hs as [_ Hs]. rewrite Forall_forall in Hs |- *.
    intros sp2 Hsp2. eapply aspace_frame; [by apply Hs|].
    intros p a Hp. apply Hf, elem_of_pages. eauto.
  - rewrite pages_cons. apply NoDup_app. split; [apply Ha|]. split; [done|].
    pose proof (wf_nodup _ _ _ Hw) as Hn. rewrite pages_cons in Hn. by apply NoDup_app in Hn as (_ & _ & ?).
  - intros p. rewrite pages_cons. intros [?|?]%elem_of_app; auto.
  - intros e Hin. destruct (He e Hin) as (_ & Hl & Hp). rewrite in_pages_cons in Hp |- *.
    intros [[Hx|Hx]%Ht|Hx]; auto.
  - intros e Hin. by apply He.
Qed.

(** ** The pages outside a space's table stay as they are *)

Lemma extends_bytes s s' l l' t t' p a :
  owned s l t -> extends s s' l l' t t' ->
  valid_page p -> p ∉ l -> p ∉ tpages t -> in_page p a ->
  load8 (pmem s') a = load8 (pmem s) a.
Proof.
  intros Ho He Hp Hl Ht Ha. apply (ext_mem _ _ _ _ _ _ He).
  intros (q & Hq & Hqa). assert (valid_page q) as Hqv.
  { destruct Hq as [Hq|Hq]; [by apply (inv_valid _ _ _ (own_inv _ _ _ Ho))|
                             by apply (rep_valid _ _ (own_rep _ _ _ Ho))]. }
  assert (q = p) as -> by (eapply pages_disjoint; try done; [apply Hqv|apply Hp]).
  by destruct Hq.
Qed.

Lemma shrinks_bytes s s' l l' t p a :
  owned s l t -> shrinks s s' l l' t ->
  valid_page p -> p ∉ l' -> p ∉ tpages t -> in_page p a ->
  load8 (pmem s') a = load8 (pmem s) a.
Proof.
  intros Ho He Hp Hl Ht Ha. apply (shr_mem _ _ _ _ _ He).
  intros (q & Hq & Hqa). pose proof (shr_owned _ _ _ _ _ He) as Ho'.
  assert (valid_page q) as Hqv.
  { destruct Hq as [Hq|Hq]; [by apply (inv_valid _ _ _ (own_inv _ _ _ Ho'))|
                             by apply (rep_valid _ _ (own_rep _ _ _ Ho'))]. }
  assert (q = p) as -> by (eapply pages_disjoint; try done; [apply Hqv|apply Hp]).
  by destruct Hq.
Qed.

(** A space grown by an operation that allocates. *)
Lemma wf_extends s l s' l' t t' es es' R :
  wf s l (Space t es :: R) -> extends s s' l l' t t' ->
  maps (lookup_pte (pmem s') t') 0 es' ->
  Z.of_nat (length es') * PGSIZE <= MAXVA ->
  (forall e, e ∈ es' -> entry_ok t e /\ refs s e.1 <> 0 /\ e.1 ∉ pages R) ->
  wf s' l' (Space t' es' :: R) /\ data_same (Space t es' :: R) s s'.
Proof.
  intros Hw He Hm Hs Hes. set (sp := Space t es) in *.
  assert (Ho : owned s l t) by (apply (wf_owned _ _ _ Hw sp); by left).
  pose proof (ext_owned _ _ _ _ _ _ He) as Ho'.
  assert (Hent : forall e, e ∈ entries (Space t es' :: R) ->
     valid_page e.1 /\ (e.1 ∉ l) /\ (e.1 ∉ pages (sp :: R)) /\ refs s e.1 <> 0).
  { intros e. rewrite in_entries_cons. intros [Hin|Hin].
    - destruct (Hes e Hin) as ((Hv & Hnt & _) & Hr & HR). split_and!; try done.
      + intros Hl. by apply Hr, (inv_free _ _ _ (wf_inv _ _ _ Hw)).
      + rewrite in_pages_cons. by intros [].
    - assert (Hin' : e ∈ entries (sp :: R)) by (apply in_entries_cons; by right).
      split_and!; [by eapply wf_entry_valid|by eapply wf_entry_used| |by apply (wf_dref _ _ _ Hw)].
      by apply (wf_data _ _ _ Hw). }
  assert (HpR : forall p, p ∈ pages R -> valid_page p /\ (p ∉ l) /\ (p ∉ tpages t) /\ refs s p <> 0).
  { intros p Hp. assert (Hin : p ∈ pages (sp :: R)) by (apply in_pages_cons; by right).
    split_and!; [by eapply wf_page_valid|by eapply wf_page_used| |by apply (wf_tref _ _ _ Hw)].
    intros Hpt. by eapply wf_apart. }
  split.
  - eapply wf_step; try done.
    + apply Ho'.
    + apply Ho'.
    + split; try done; [apply Ho'|]. apply Forall_forall. intros e Hin. simpl in Hin.
      destruct (Hes e Hin) as ((Hv & Hnt & Hok) & Hr & HR). split; [done|]. split; [|done].
      intros [Hx|Hx]%(ext_new _ _ _ _ _ _ He); [done|].
      by apply Hr, (inv_free _ _ _ (wf_inv _ _ _ Hw)).
    + intros p a Hp Ha. destruct (HpR p Hp) as (Hv & Hl & Hpt & Hr). by eapply extends_bytes.
    + apply (ext_new _ _ _ _ _ _ He).
    + apply Ho'.
    + intros p Hp. destruct (HpR p Hp) as (Hv & Hl & Hpt & Hr).
      by rewrite (ext_refs _ _ _ _ _ _ He).
    + intros e Hin. destruct (Hent e Hin) as (Hv & Hl & Hpt & Hr).
      split; [|done]. by rewrite (ext_refs _ _ _ _ _ _ He).
  - intros e a Hin Ha. destruct (Hent e Hin) as (Hv & Hl & Hpt & Hr).
    eapply extends_bytes; try done. rewrite in_pages_cons in Hpt. auto.
Qed.

(** A space that gave pages back. *)
Lemma wf_shrinks s l s' l' t es es' R :
  wf s l (Space t es :: R) -> shrinks s s' l l' t ->
  maps (lookup_pte (pmem s') t) 0 es' -> Z.of_nat (length es') * PGSIZE <= MAXVA ->
  (forall e, e ∈ es' -> e ∈ es) ->
  (forall q, q ∈ pages R -> refs s' q <> 0) ->
  (forall e, e ∈ es' ++ entries R -> refs s' e.1 <> 0) ->
  wf s' l' (Space t es' :: R) /\ data_same (Space t es' :: R) s s'.
Proof.
  intros Hw Hs Hm Hsz Hes HrR Hre. set (sp := Space t es) in *.
  pose proof (shr_owned _ _ _ _ _ Hs) as Ho'.
  assert (Ho : owned s l t) by (apply (wf_owned _ _ _ Hw sp); by left).
  assert (Hsub : forall e, e ∈ entries (Space t es' :: R) -> e ∈ entries (sp :: R)).
  { intros e. rewrite !in_entries_cons. simpl. intros []; auto. }
  assert (Hfree : forall p, valid_page p -> refs s' p <> 0 -> p ∉ l').
  { intros p Hp Hr Hl. by apply Hr, (inv_free _ _ _ (own_inv _ _ _ Ho')). }
  assert (HpR : forall p, p ∈ pages R -> valid_page p /\ (p ∉ tpages t)).
  { intros p Hp. assert (Hin : p ∈ pages (sp :: R)) by (apply in_pages_cons; by right).
    split_and!; [by eapply wf_page_valid|]. intros Hpt. by eapply wf_apart. }
  split.
  - eapply wf_step; try done.
    + apply Ho'.
    + apply Ho'.
    + split; try done; [apply Ho'|]. apply Forall_forall. intros e Hin.
      eapply (wf_entry_ok _ _ _ Hw sp); [by left|by apply Hes].
    + intros p a Hp Ha. destruct (HpR p Hp) as [Hv Hpt].
      eapply shrinks_bytes; try done. apply Hfree; auto.
    + by left.
    + apply Ho'.
    + intros e Hin. split; [by apply Hre|]. split; [by eapply (wf_entry_used _ _ _ Hw), Hsub|].
      by apply (wf_data _ _ _ Hw), Hsub.
  - intros e a Hin Ha. assert (valid_page e.1) by (by eapply (wf_entry_valid _ _ _ Hw), Hsub).
    eapply shrinks_bytes; try done.
    + apply Hfree; [done|]. by apply Hre.
    + pose proof (wf_data _ _ _ Hw e (Hsub e Hin)) as Hx. rewrite in_pages_cons in Hx. auto.
Qed.

End Space.
