(* ===== verification/Cow.v ===== *)
(** Copy-on-write fork, faults and writes keep the address spaces right.

    uvmcopy shares every page of the parent with the child; cowalloc gives a
    faulting space a private copy; copyout writes user memory through cowalloc.
    Each keeps [world], and what other spaces read does not change. *)

From S2P Require Import Prelude Mem Riscv Locks Kalloc Vm VmTree VmOps Space.

(** ** Accounting on lists of entries *)

Section Acct.
Context `{Layout}.

Definition acct_on (s : phys) (E : list (Z * Z)) : Prop :=
  (forall e, e ∈ E -> refs s e.1 = occ e.1 E) /\
  (forall e, e ∈ E -> has e.2 PTE_W = true -> occ e.1 E = 1).

Lemma acct_acct_on s W : acct s W <-> acct_on s (entries W).
Proof. split; [by intros []|by intros []; split]. Qed.

#[export] Instance acct_on_perm s : Proper ((≡ₚ) ==> iff) (acct_on s).
Proof.
  enough (forall E E', E ≡ₚ E' -> acct_on s E -> acct_on s E') as Hw.
  { intros E E' HE. split; apply Hw; done. }
  intros E E' HE [Hr Hw]. split; intros e; rewrite <- HE; auto.
Qed.

Definition indic (p q : Z) : Z := if decide (p = q) then 1 else 0.

Lemma occ_cons q e E : occ q (e :: E) = indic e.1 q + occ q E.
Proof. done. Qed.

Lemma occ_in e E : e ∈ E -> 1 <= occ e.1 E.
Proof.
  intros He. pose proof (occ_nonneg e.1 E).
  assert (occ e.1 E <> 0) by (apply occ_pos; eauto). lia.
Qed.

(** A page is shared: one more PTE names it and none may write. *)
Lemma acct_share s s' e e1 e2 E :
  acct_on s (e :: E) -> e1.1 = e.1 -> e2.1 = e.1 ->
  has e1.2 PTE_W = false -> has e2.2 PTE_W = false ->
  (forall e', e' ∈ e :: E -> refs s' e'.1 = refs s e'.1 + indic e.1 e'.1) ->
  acct_on s' (e1 :: e2 :: E).
Proof.
  intros [Hr Hw] E1 E2 W1 W2 Hs.
  assert (Hocc : forall q, occ q (e1 :: e2 :: E) = occ q (e :: E) + indic e.1 q).
  { intros q. rewrite !occ_cons, E1, E2. lia. }
  assert (Hin : forall e', e' ∈ e1 :: e2 :: E -> exists e0, e0 ∈ e :: E /\ e0.1 = e'.1).
  { intros e' [-> |[-> |Hx]%elem_of_cons]%elem_of_cons.
    - exists e. split; [by left|done].
    - exists e. split; [by left|done].
    - exists e'. split; [by right|done]. }
  split.
  - intros e' He'. destruct (Hin e' He') as (e0 & He0 & <-).
    rewrite Hocc, Hs, Hr by done. done.
  - intros e' He' HW. rewrite Hocc.
    assert (Hx : e' ∈ E).
    { apply elem_of_cons in He' as [-> |[-> |]%elem_of_cons]; [congruence..|done]. }
    specialize (Hw e' ltac:(by right) HW). rewrite occ_cons in Hw.
    pose proof (occ_in _ _ Hx). rewrite occ_cons. unfold indic in *. case_decide; lia.
Qed.

(** A PTE changes its flags without gaining write access. *)
Lemma acct_reflag s s' e e1 E :
  acct_on s (e :: E) -> e1.1 = e.1 -> (has e1.2 PTE_W = true -> occ e.1 (e :: E) = 1) ->
  (forall e', e' ∈ e :: E -> refs s' e'.1 = refs s e'.1) -> acct_on s' (e1 :: E).
Proof.
  intros [Hr Hw] E1 W1 Hs.
  assert (Hocc : forall q, occ q (e1 :: E) = occ q (e :: E)).
  { intros q. by rewrite !occ_cons, E1. }
  split; intros e' [-> |Hx]%elem_of_cons; rewrite Hocc.
  - rewrite E1, Hs, Hr; [done|by left|by left].
  - rewrite Hs, Hr; [done|by right|by right].
  - rewrite E1. auto.
  - apply Hw. by right.
Qed.

(** PTEs are cleared and their references dropped. *)
Lemma acct_drop s s' D E :
  acct_on s (D ++ E) -> (forall e, e ∈ E -> refs s' e.1 = refs s e.1 - occ e.1 D) ->
  acct_on s' E.
Proof.
  intros [Hr Hw] Hs. split.
  - intros e He. rewrite Hs, Hr, occ_app by (done || (apply elem_of_app; by right)). lia.
  - intros e He HW. specialize (Hw e ltac:(apply elem_of_app; by right) HW).
    rewrite occ_app in Hw. pose proof (occ_in e E He). pose proof (occ_nonneg e.1 D). lia.
Qed.

(** ** Flags *)

Definition cow_flags (fl : Z) : Z :=
  if has fl PTE_W then Z.lor (Z.land fl (Z.lnot PTE_W)) PTE_COW else fl.
Definition cow_entry (e : Z * Z) : Z * Z := (e.1, cow_flags e.2).

Lemma cow_flags_ok fl : 0 <= fl < 1024 ->
  ((0 <=? cow_flags fl) && (cow_flags fl <? 1024) && negb (has (cow_flags fl) PTE_W) &&
   implb (has fl PTE_V && negb (fl =? PTE_V))
     (has (cow_flags fl) PTE_V && negb (cow_flags fl =? PTE_V) &&
      (Z.lor (cow_flags fl) PTE_V =? cow_flags fl)))%bool = true.
Proof. intros Hfl. all_flags (fun fl => 
  ((0 <=? cow_flags fl) && (cow_flags fl <? 1024) && negb (has (cow_flags fl) PTE_W) &&
   implb (has fl PTE_V && negb (fl =? PTE_V))
     (has (cow_flags fl) PTE_V && negb (cow_flags fl =? PTE_V) &&
      (Z.lor (cow_flags fl) PTE_V =? cow_flags fl)))%bool). Qed.

Lemma cow_entry_ok t e : entry_ok t e ->
  entry_ok t (cow_entry e) /\ has (cow_entry e).2 PTE_W = false /\
  Z.lor (cow_entry e).2 PTE_V = (cow_entry e).2.
Proof.
  intros (Hv & Ht & Hr & HV & Hn). pose proof (cow_flags_ok _ Hr) as Hc.
  rewrite HV, (proj2 (Z.eqb_neq e.2 PTE_V) Hn) in Hc. simpl in Hc.
  rewrite !andb_true_iff, !negb_true_iff, Z.leb_le, Z.ltb_lt, !Z.eqb_eq, Z.eqb_neq in Hc.
  unfold entry_ok, cow_entry. simpl. intuition.
Qed.

(** ** uvmcopy *)

Lemma wf_set_count s l W p c :
  wf s l W -> valid_page p -> refs s p <> 0 -> 0 < c < 2 ^ 31 - 1 ->
  wf (set_count (Z.shiftr p 12) c s) l W.
Proof.
  intros Hw Hp Hr Hc. pose proof Hw as [Hu Hi Hs Hn Ht Hd He].
  assert (Hrefs : forall q, valid_page q -> refs s q <> 0 ->
                  refs (set_count (Z.shiftr p 12) c s) q <> 0).
  { intros q Hq Hrq. rewrite refs_set by (apply Hp || apply Hq). case_decide; lia. }
  split; try done.
  - apply set_count_inv; try done. apply Hp.
  - intros q Hq. apply Hrefs; [by eapply wf_page_valid|auto].
  - intros e Hin. apply Hrefs; [by eapply wf_entry_valid|auto].
Qed.

(** One iteration of uvmcopy's loop. *)
Definition copy_body (old new sz i : Z) : M phys (Z + Z) :=
  if i <? sz then
    pte <- walk old i false;;
    if pte =? 0 then panic "uvmcopy: pte should exist"
    else
      v <- rd64 pte;;
      if negb (has v PTE_V) then panic "uvmcopy: page not present"
      else
        let pa := PTE2PA v in
        let flags := PTE_FLAGS v in
        let flags' := if has flags PTE_W
                      then Z.lor (Z.land flags (Z.lnot PTE_W)) PTE_COW
                      else flags in
        when (has flags PTE_W) (wr64 pte (Z.lor (PA2PTE pa) flags'));;;
        r <- mappages new i PGSIZE pa flags';;
        if negb (r =? 0) then
          uvmunmap new 0 (i / PGSIZE) true;;;
          break (-1)
        else
          increase_pgreference pa;;;
          continue (i + PGSIZE)
  else break 0.

Lemma uvmcopy_loop old new sz :
  uvmcopy old new sz = loop (Z.to_nat (sz / PGSIZE + 2)) (copy_body old new sz) 0.
Proof. done. Qed.

Lemma va_page_range k n : 0 <= k -> (k + n) * PGSIZE <= MAXVA -> 0 < n -> 0 <= k * PGSIZE < MAXVA.
Proof. unfold PGSIZE. lia. Qed.

(** The parent's PTE loses its write permission. *)
Definition cow_written (a : Z) (e : Z * Z) (s : phys) : phys :=
  if has e.2 PTE_W then set_pte a (mkpte e.1 (cow_flags e.2)) s else s.

Lemma maps_insert f k es i e :
  maps f k es -> 0 <= k -> (k + Z.of_nat (length es)) * PGSIZE <= MAXVA -> (i < length es)%nat ->
  forall f', same_map f' (upd_pte f ((k + Z.of_nat i) * PGSIZE) (mkpte e.1 e.2)) ->
  maps f' k (<[i := e]> es).
Proof.
  intros Hm Hk Hs Hi f' Hf j e' Hj.
  assert (Hjl : (j < length es)%nat) by (apply lookup_lt_Some in Hj; by rewrite length_insert in Hj).
  rewrite Hf by (unfold PGSIZE in *; nia). unfold upd_pte. rewrite !Z.div_mul by done.
  apply list_lookup_insert_Some in Hj as [(<- & -> & _)|[Hne Hj]].
  - by rewrite decide_True.
  - rewrite decide_False by lia. by apply Hm.
Qed.

Lemma maps_snoc f k es e :
  maps f k es -> 0 <= k -> (k + Z.of_nat (length es) + 1) * PGSIZE <= MAXVA ->
  forall f', same_map f' (upd_pte f ((k + Z.of_nat (length es)) * PGSIZE) (mkpte e.1 e.2)) ->
  maps f' k (es ++ [e]).
Proof.
  intros Hm Hk Hs f' Hf j e' Hj.
  assert (Hjl : (j <= length es)%nat).
  { apply lookup_lt_Some in Hj. rewrite length_app in Hj. simpl in Hj. lia. }
  rewrite Hf by (unfold PGSIZE in *; nia). unfold upd_pte. rewrite !Z.div_mul by done.
  apply lookup_app_Some in Hj as [Hj|[Hge Hj]].
  - apply lookup_lt_Some in Hj as Hlt. rewrite decide_False by lia. by apply Hm.
  - apply list_lookup_singleton_Some in Hj as [? <-]. by rewrite decide_True by lia.
Qed.

Lemma maps_same f f' k es :
  maps f k es -> 0 <= k -> (k + Z.of_nat (length es)) * PGSIZE <= MAXVA ->
  same_map f' f -> maps f' k es.
Proof.
  intros Hm Hk Hs Hf j e Hj. apply lookup_lt_Some in Hj as Hlt.
  rewrite Hf by (unfold PGSIZE in *; nia). by apply Hm.
Qed.


Lemma cow_entry_ro e : has e.2 PTE_W = false -> cow_entry e = e.
Proof. intros HW. unfold cow_entry, cow_flags. rewrite HW. by destruct e. Qed.

Lemma wf_head_entry s l t es R e :
  wf s l (Space t es :: R) -> e ∈ es -> entry_ok t e /\ refs s e.1 <> 0 /\ e.1 ∉ pages R.
Proof.
  intros Hw He. assert (Hin : e ∈ entries (Space t es :: R)) by (apply in_entries_cons; by left).
  split; [by eapply (wf_entry_ok _ _ _ Hw (Space t es)); [left|]|].
  split; [by apply (wf_dref _ _ _ Hw)|].
  pose proof (wf_data _ _ _ Hw e Hin) as Hd. rewrite in_pages_cons in Hd. auto.
Qed.

Lemma data_same_incl W W' s s' :
  (forall e, e ∈ entries W' -> exists e', e' ∈ entries W /\ e.1 = e'.1) ->
  data_same W s s' -> data_same W' s s'.
Proof. intros Hi Hd e a (e' & He' & ->)%Hi. by apply Hd. Qed.

(** Changing the flags of an entry keeps the pages. *)
Lemma insert_pages t t' es k e R e' :
  es !! k = Some e -> e' ∈ entries (Space t es :: R) ->
  exists e0, e0 ∈ entries (Space t' (<[k := cow_entry e]> es) :: R) /\ e'.1 = e0.1.
Proof.
  intros Hk [[j Hj]%list_elem_of_lookup|Hx]%in_entries_cons.
  - apply lookup_lt_Some in Hk as Hlt. simpl in Hj. destruct (decide (j = k)) as [-> |Hne].
    + exists (cow_entry e). rewrite in_entries_cons. split; [left|by simplify_eq].
      by apply list_elem_of_insert.
    + exists e'. rewrite in_entries_cons. split; [left|done]. apply list_elem_of_lookup. exists j.
      simpl. by rewrite list_lookup_insert_ne.
  - exists e'. rewrite in_entries_cons. auto.
Qed.

Lemma cow_written_wf s l t es R k e a :
  wf s l (Space t es :: R) -> es !! k = Some e -> slot t (Z.of_nat k * PGSIZE) = Some a ->
  wf (cow_written a e s) l (Space t (<[k := cow_entry e]> es) :: R) /\
  data_same (Space t es :: R) s (cow_written a e s).
Proof.
  intros Hw Hk Ha. unfold cow_written.
  destruct (has e.2 PTE_W) eqn:HW; [|by rewrite cow_entry_ro, list_insert_id].
  pose proof (wf_aspace _ _ _ Hw (Space t es) ltac:(by left)) as [Hr Hm Hok Hs]. simpl in *.
  pose proof (wf_owned _ _ _ Hw (Space t es) ltac:(by left)) as Ho. simpl in Ho.
  assert (Hlt : (k < length es)%nat) by (by eapply lookup_lt_Some).
  assert (Hin : e ∈ es) by (by eapply list_elem_of_lookup_2).
  pose proof (wf_head_entry _ _ _ _ _ _ Hw Hin) as (Hoke & Hre & HRe).
  destruct (cow_entry_ok t e Hoke) as (Hok' & _ & _).
  assert (Hva : 0 <= Z.of_nat k * PGSIZE < MAXVA) by (unfold PGSIZE in *; lia).
  assert (Hword : 0 <= mkpte e.1 (cow_flags e.2) < 2 ^ 64).
  { apply mkpte_word; [apply Hok'|]. apply Hok'. }
  destruct (wf_extends s l (set_pte a (mkpte e.1 (cow_flags e.2)) s) l t t es
              (<[k := cow_entry e]> es) R) as [Hw' Hd]; try done.
  - by eapply set_pte_extends.
  - apply (maps_insert (lookup_pte (pmem s) t) 0 es k); try done.
    by apply set_pte_lookup.
  - by rewrite length_insert.
  - intros e' [j [(<- & <- & _)|[_ Hj]]%list_lookup_insert_Some]%list_elem_of_lookup.
    + done.
    + eapply wf_head_entry; [done|by eapply list_elem_of_lookup_2].
  - split; [done|]. eapply data_same_incl; [|exact Hd]. intros e' He'. by apply (insert_pages t t es k e R).
Qed.

Lemma refs_cow_written a e s q : refs (cow_written a e s) q = refs s q.
Proof. unfold cow_written. by case_match. Qed.

(** The body up to the call of mappages. *)
Lemma copy_body_map s t new sz va a e :
  pt_rep (pmem s) t -> 0 <= va < MAXVA -> va < sz -> entry_ok t e ->
  slot t va = Some a -> lookup_pte (pmem s) t va = mkpte e.1 e.2 ->
  copy_body (root t) new sz va s
  = bindp (mappages new va PGSIZE e.1 (cow_flags e.2) (cow_written a e s)) (fun r =>
      if negb (r =? 0) then
        uvmunmap new 0 (va / PGSIZE) true;;; break (-1)
      else
        increase_pgreference e.1;;; continue (va + PGSIZE)).
Proof.
  intros Hr Hva Hsz Hok Ha Hlk. pose proof (entry_word _ _ Hok) as (Hpa & HV & Hfl).
  pose proof (slot_pos _ _ _ _ Hr Ha).
  unfold copy_body. rewrite (proj2 (Z.ltb_lt va sz)) by done.
  unfold bind at 1. rewrite (walk_slot s t va false a) by (done || lia). cbn [bindp].
  rewrite (proj2 (Z.eqb_neq a 0)) by lia. unfold bind at 1, rd64, gets. cbn [bindp].
  rewrite <- (lookup_slot (pmem s) _ _ _ Ha), Hlk, HV, Hfl, Hpa. cbn [negb].
  unfold cow_written. change (if has e.2 PTE_W then _ else e.2) with (cow_flags e.2).
  unfold when. destruct (has e.2 PTE_W) eqn:HW; done.
Qed.

Lemma data_same_trans W s1 s2 s3 : data_same W s1 s2 -> data_same W s2 s3 -> data_same W s1 s3.
Proof.
  intros H1 H2 e a He Ha. transitivity (load8 (pmem s2) a); [by eapply H2|by eapply H1].
Qed.

Lemma entries_lookup t es k e R :
  es !! k = Some e ->
  entries (Space t es :: R) ≡ₚ e :: (take k es ++ drop (Datatypes.S k) es ++ entries R).
Proof.
  intros Hk. rewrite entries_cons. simpl. rewrite <- (take_drop_middle es k e Hk) at 1.
  rewrite <- app_assoc, <- app_comm_cons. symmetry. apply Permutation_middle.
Qed.

Lemma entries_insert t es k e e' R :
  es !! k = Some e ->
  entries (Space t (<[k := e']> es) :: R)
  ≡ₚ e' :: (take k es ++ drop (Datatypes.S k) es ++ entries R).
Proof.
  intros Hk. assert (Hlt : (k < length es)%nat) by (by eapply lookup_lt_Some).
  rewrite (entries_lookup t _ k e' R) by (by apply list_lookup_insert_eq).
  by rewrite take_insert_ge, drop_insert_lt by lia.
Qed.

(** What one iteration reaches: the page is shared, or the child's page table
    cannot grow and the iteration goes on to undo the copy. *)
Definition step_shared s tP es tC ec R (k : nat) e (va : Z) (s' : phys) (l' : list Z) (tC' : ptree) :=
  world s' l' (Space tP (<[k := cow_entry e]> es) :: Space tC' (ec ++ [cow_entry e]) :: R) /\
  same_map (lookup_pte (pmem s') tC')
    (upd_pte (lookup_pte (pmem s) tC) va (mkpte e.1 (cow_flags e.2))).

Definition step_failed s tP es tC ec R (k : nat) e (s' : phys) (l' : list Z) (tC' : ptree) :=
  world s' l' (Space tP (<[k := cow_entry e]> es) :: Space tC' ec :: R) /\
  same_map (lookup_pte (pmem s') tC') (lookup_pte (pmem s) tC).

Lemma world_swap s l x y R : world s l (x :: y :: R) <-> world s l (y :: x :: R).
Proof. by rewrite Permutation_swap. Qed.
Lemma wf_swap s l x y R : wf s l (x :: y :: R) <-> wf s l (y :: x :: R).
Proof. by rewrite Permutation_swap. Qed.

Lemma lookup_cow_written s t u a e va vb :
  pt_rep (pmem s) t -> slot t va = Some a -> pt_rep (pmem s) u ->
  (forall p, p ∈ tpages u -> valid_page p /\ p ∉ tpages t) ->
  lookup_pte (pmem (cow_written a e s)) u vb = lookup_pte (pmem s) u vb.
Proof.
  intros Hr Ha Hu Hap. unfold cow_written. destruct (has e.2 PTE_W); [|done].
  apply lookup_pte_ext. intros p x Hp Hx. apply (set_pte_frame s t va a); try done.
  intros (q & Hq & Hqx). destruct (Hap p Hp) as [Hv Hn]. apply Hn.
  rewrite <- (pages_disjoint q p x); try done; [by apply (rep_valid _ _ Hr)|apply Hv].
Qed.

Lemma world_bound s l W e : world s l W -> e ∈ entries W -> 0 < refs s e.1 < 2 ^ 31 - 1.
Proof.
  intros [Hw Ha] He. pose proof (wf_dref _ _ _ Hw e He).
  pose proof (inv_refs _ _ _ (wf_inv _ _ _ Hw) e.1 (wf_entry_valid _ _ _ Hw e He)). lia.
Qed.

Section Step.
Context (s : phys) (l : list Z) (tP tC : ptree) (es ec : list (Z * Z)) (R : list space).
Context (k : nat) (e : Z * Z).
Context (Hworld : world s l (Space tP es :: Space tC ec :: R)).
Context (Hk : es !! k = Some e) (Hec : length ec = k).
Context (Hfree : has (lookup_pte (pmem s) tC (Z.of_nat k * PGSIZE)) PTE_V = false).
Context (Hroom : refs s e.1 + 1 < 2 ^ 31 - 1).

Let va := Z.of_nat k * PGSIZE.
Let E := take k es ++ drop (Datatypes.S k) es ++ ec ++ entries R.

Lemma step_facts :
  0 <= va < MAXVA /\ (Z.of_nat k + 1) * PGSIZE <= MAXVA /\ entry_ok tP e /\
  exists a, slot tP va = Some a /\ lookup_pte (pmem s) tP va = mkpte e.1 e.2.
Proof.
  destruct Hworld as [Hw _]. apply lookup_lt_Some in Hk as Hlt.
  pose proof (wf_aspace _ _ _ Hw (Space tP es) ltac:(by left)) as [Hr Hm Hok Hs]. simpl in *.
  assert (He : entry_ok tP e).
  { eapply wf_head_entry; [done|by eapply list_elem_of_lookup_2]. }
  assert (Hlk : lookup_pte (pmem s) tP va = mkpte e.1 e.2) by (by apply Hm).
  split; [unfold va, PGSIZE in *; lia|]. split; [unfold PGSIZE in *; lia|]. split; [done|].
  destruct (lookup_present (pmem s) tP va) as [a Ha]; [|by eauto].
  rewrite Hlk. eapply has_nonzero. by apply (entry_word tP).
Qed.

(** The parent's side, and the accounting when the child does not change. *)
Lemma step_parent a : slot tP va = Some a ->
  world (cow_written a e s) l (Space tP (<[k := cow_entry e]> es) :: Space tC ec :: R) /\
  data_same (Space tP es :: Space tC ec :: R) s (cow_written a e s) /\
  (forall vb, lookup_pte (pmem (cow_written a e s)) tC vb = lookup_pte (pmem s) tC vb).
Proof.
  intros Ha. destruct Hworld as [Hw Hacc]. destruct step_facts as (_ & _ & Hok & _).
  destruct (cow_written_wf _ _ _ _ _ _ _ _ Hw Hk Ha) as [Hw1 Hd].
  split; [|split; [done|]].
  - split; [done|]. apply acct_acct_on. rewrite entries_insert by done.
    apply acct_acct_on in Hacc. rewrite entries_lookup in Hacc by done.
    eapply acct_reflag; [done|done| |by intros; rewrite refs_cow_written].
    by destruct (cow_entry_ok tP e Hok) as (_ & -> & _).
  - intros vb. pose proof (wf_aspace _ _ _ Hw (Space tP es) ltac:(by left)) as [Hr _ _ _].
    pose proof (wf_aspace _ _ _ Hw (Space tC ec) ltac:(right; by left)) as [Hr' _ _ _].
    apply (lookup_cow_written s tP tC a e va); try done. intros p Hp.
    split; [by apply (rep_valid _ _ Hr')|]. intros Hp'. eapply (wf_apart _ _ _ _ _ Hw Hp').
    apply in_pages_cons. by left.
Qed.
(** What mapping the page in the child does. *)
Lemma step_child a : slot tP va = Some a ->
  let s1 := cow_written a e s in
  let P := Space tP (<[k := cow_entry e]> es) in
  exists r s2 l2 tC', mappages (root tC) va PGSIZE e.1 (cow_flags e.2) s1 = Done r s2 /\
    root tC' = root tC /\ (length l <= length l2 + 2)%nat /\ pheld s2 = pheld s1 /\
    (forall q, valid_page q -> q ∉ l -> refs s2 q = refs s1 q) /\
    data_same (Space tP es :: Space tC ec :: R) s1 s2 /\
    ((r = 0 /\ wf s2 l2 (Space tC' (ec ++ [cow_entry e]) :: P :: R) /\
      same_map (lookup_pte (pmem s2) tC')
        (upd_pte (lookup_pte (pmem s) tC) va (mkpte e.1 (cow_flags e.2)))) \/
     (r = -1 /\ l2 = [] /\ (length l < 2)%nat /\ wf s2 l2 (Space tC' ec :: P :: R) /\
      same_map (lookup_pte (pmem s2) tC') (lookup_pte (pmem s) tC))).
Proof.
  intros Ha s1 P. destruct (step_parent a Ha) as ([Hw1 _] & _ & Hlk1). fold s1 P in Hw1.
  destruct step_facts as (Hva & Hsz & Hok & _).
  destruct (cow_entry_ok tP e Hok) as (Hok' & _ & HV').
  rewrite wf_swap in Hw1. fold s1 in Hlk1.
  pose proof (wf_owned _ _ _ Hw1 (Space tC ec) ltac:(by left)) as Ho. simpl in Ho.
  pose proof (wf_aspace _ _ _ Hw1 (Space tC ec) ltac:(by left)) as [Hr Hm _ Hszc]. simpl in *.
  destruct (mappages_page s1 l tC va e.1 (cow_flags e.2)) as
    (r & s2 & l2 & tC' & Em & He & Hlen & Hcase); try done.
  { unfold va. by rewrite Z.mul_comm, Z.mul_comm, Z_mod_mult. }
  { by apply valid_page_pa_ok, Hok. }
  { apply Hok'. }
  { by rewrite Hlk1. }
  apply grew_length in Hlen. rewrite HV' in Hcase.
  assert (HeP : e ∈ es) by (by eapply list_elem_of_lookup_2).
  assert (HcP : cow_entry e ∈ entries (Space tC ec :: P :: R)).
  { rewrite !in_entries_cons. right. left. simpl. apply list_elem_of_insert.
    by eapply lookup_lt_Some. }
  assert (Hsub : forall e', e' ∈ entries (Space tP es :: Space tC ec :: R) ->
    exists e0, e0 ∈ entries (Space tC ec :: P :: R) /\ e'.1 = e0.1).
  { intros e' (e0 & He0 & E0)%(insert_pages _ tP _ _ _ _ _ Hk). exists e0. split; [|done].
    by rewrite Permutation_swap. }
  assert (Hold : forall e', e' ∈ ec -> entry_ok tC e' /\ refs s1 e'.1 <> 0 /\ e'.1 ∉ pages (P :: R)).
  { intros e' He'. by apply (wf_head_entry _ _ _ _ _ _ Hw1). }
  exists r, s2, l2, tC'. split; [done|]. split; [apply (ext_root _ _ _ _ _ _ He)|].
  split; [done|]. split; [apply (ext_held _ _ _ _ _ _ He)|].
  split; [apply (ext_refs _ _ _ _ _ _ He)|].
  destruct Hcase as [[-> Hmap]|(-> & -> & Hlt & Hmap)].
  - destruct (wf_extends s1 l s2 l2 tC tC' ec (ec ++ [cow_entry e]) (P :: R)) as [Hw2 Hd2]; try done.
    + apply (maps_snoc (lookup_pte (pmem s1) tC) 0 ec); try done; [|by rewrite Hec].
      rewrite Hec. done.
    + rewrite length_app, Hec. simpl. unfold PGSIZE in *. lia.
    + intros e' [He'| ->%list_elem_of_singleton]%elem_of_app; [by apply Hold|].
      pose proof (wf_data _ _ _ Hw1 _ HcP) as Hd. rewrite in_pages_cons in Hd. simpl in Hd.
      split; [|split; [by apply (wf_dref _ _ _ Hw1)|auto]].
      destruct Hok' as (? & ? & ?). split; [done|]. split; [|done]. auto.
    + split.
      * eapply data_same_incl; [|exact Hd2]. intros e' (e0 & He0 & E0)%Hsub. exists e0.
        split; [|done]. rewrite in_entries_cons in He0 |- *. simpl in *.
        rewrite elem_of_app. tauto.
      * left. split; [done|]. split; [done|]. intros vb Hvb. rewrite Hmap by done.
        unfold upd_pte. case_decide; [done|]. apply Hlk1.
  - destruct (wf_extends s1 l s2 [] tC tC' ec ec (P :: R)) as [Hw2 Hd2]; try done.
    + apply (maps_same (lookup_pte (pmem s1) tC)); try done.
    + split; [by eapply data_same_incl|]. right. split_and!; try done.
      intros vb Hvb. rewrite Hmap by done. apply Hlk1.
Qed.
Let P := Space tP (<[k := cow_entry e]> es).

Definition shared_step (sz : Z) : Prop :=
  exists s' l' tC', copy_body (root tP) (root tC) sz va s = Done (inl (va + PGSIZE)) s' /\
    root tC' = root tC /\ (length l <= length l' + 2)%nat /\ pheld s' = pheld s /\
    (forall q, valid_page q -> q ∉ l -> refs s' q = refs s q + indic e.1 q) /\
    data_same (Space tP es :: Space tC ec :: R) s s' /\
    world s' l' (P :: Space tC' (ec ++ [cow_entry e]) :: R) /\
    same_map (lookup_pte (pmem s') tC')
      (upd_pte (lookup_pte (pmem s) tC) va (mkpte e.1 (cow_flags e.2))).

Definition failed_step (sz : Z) : Prop :=
  exists s' tC', copy_body (root tP) (root tC) sz va s
      = bind (uvmunmap (root tC) 0 (Z.of_nat k) true) (fun _ => break (-1)) s' /\
    root tC' = root tC /\ (length l < 2)%nat /\ pheld s' = pheld s /\
    (forall q, valid_page q -> q ∉ l -> refs s' q = refs s q) /\
    data_same (Space tP es :: Space tC ec :: R) s s' /\
    world s' [] (P :: Space tC' ec :: R) /\
    same_map (lookup_pte (pmem s') tC') (lookup_pte (pmem s) tC).

Lemma step_entries tC' ec' :
  entries (P :: Space tC' ec' :: R)
  ≡ₚ cow_entry e :: (take k es ++ drop (Datatypes.S k) es ++ ec' ++ entries R).
Proof. unfold P. rewrite entries_insert by done. by rewrite entries_cons. Qed.

Lemma step_entries_snoc tC' :
  entries (P :: Space tC' (ec ++ [cow_entry e]) :: R) ≡ₚ cow_entry e :: cow_entry e :: E.
Proof.
  rewrite step_entries. apply perm_skip. unfold E. rewrite <- (app_assoc ec).
  rewrite (app_assoc (take k es)), (app_assoc (_ ++ _) ec). simpl.
  rewrite <- Permutation_middle. by rewrite <- !app_assoc.
Qed.

Lemma copy_step sz : va < sz -> shared_step sz \/ failed_step sz.
Proof.
  intros Hsz. destruct step_facts as (Hva & Hmax & Hok & a & Ha & Hlk).
  destruct (step_parent a Ha) as (Hw1 & Hd1 & _).
  destruct (step_child a Ha) as (r & s2 & l2 & tC' & Em & Hroot & Hlen & Hh & Hrefs & Hd2 & Hcase).
  fold P in Hw1, Hcase. set (s1 := cow_written a e s) in *.
  assert (Hh1 : pheld s1 = pheld s) by (unfold s1, cow_written; by case_match).
  assert (Hr1 : forall q, refs s1 q = refs s q) by (intros; apply refs_cow_written).
  pose proof Hworld as [Hw Hacc].
  pose proof (wf_aspace _ _ _ Hw (Space tP es) ltac:(by left)) as [Hrep _ _ _]. simpl in Hrep.
  assert (Hbody : copy_body (root tP) (root tC) sz va s
    = bindp (Done r s2) (fun r => if negb (r =? 0) then
      uvmunmap (root tC) 0 (va / PGSIZE) true;;; break (-1)
    else increase_pgreference e.1;;; continue (va + PGSIZE))).
  { rewrite <- Em. by apply copy_body_map. }
  assert (Hin : forall e', e' ∈ entries (P :: Space tC ec :: R) ->
                valid_page e'.1 /\ e'.1 ∉ l).
  { intros e' He'. destruct Hw1 as [Hw1 _].
    split; [by apply (wf_entry_valid _ _ _ Hw1)|by apply (wf_entry_used _ _ _ Hw1)]. }
  destruct Hcase as [(-> & Hw2 & Hmap)|(-> & -> & Hlt & Hw2 & Hmap)].
  - left. assert (He2 : refs s2 e.1 = refs s e.1).
    { rewrite Hrefs; [apply Hr1|apply Hok|]. apply (Hin (cow_entry e)).
      rewrite step_entries. by left. }
    pose proof (world_bound _ _ _ e Hworld) as Hb.
    assert (He : e ∈ entries (Space tP es :: Space tC ec :: R)).
    { apply in_entries_cons. left. by eapply list_elem_of_lookup_2. }
    specialize (Hb He).
    exists (set_count (Z.shiftr e.1 12) (refs s2 e.1 + 1) s2), l2, tC'. split.
    { rewrite Hbody. cbn [bindp]. change (negb (0 =? 0)) with false. cbv iota. unfold bind.
      rewrite increase_eq; [done| | |lia].
      - apply (wf_unlocked _ _ _ Hw2).
      - destruct Hok as [[_ Hv] _]. pose proof page_bounds. unfold KERNBASE in *. lia. }
    split; [done|]. split; [done|]. split; [simpl; congruence|].
    assert (Hrefs' : forall q, valid_page q -> q ∉ l ->
      refs (set_count (Z.shiftr e.1 12) (refs s2 e.1 + 1) s2) q = refs s q + indic e.1 q).
    { intros q Hq Hql. rewrite refs_set by (apply Hok || apply Hq). unfold indic.
      case_decide as Heq; [by subst; lia|]. rewrite Hrefs, Hr1 by done. lia. }
    split; [done|]. split; [|split; [split|done]].
    + intros e' x Hx Hxa. simpl. by apply (data_same_trans _ _ _ _ Hd1 Hd2 e').
    + apply wf_set_count; [by apply wf_swap|apply Hok|lia|lia].
    + apply acct_acct_on. rewrite step_entries_snoc.
      destruct Hw1 as [_ Hacc1]. apply acct_acct_on in Hacc1. rewrite step_entries in Hacc1.
      destruct (cow_entry_ok tP e Hok) as (_ & HWf & _).
      eapply acct_share; try done. intros e' He'.
      destruct (Hin e') as [Hv Hl]; [by rewrite step_entries|].
      rewrite Hrefs', Hr1 by done. done.
  - right. exists s2, tC'. split; [|split; [done|]; split; [done|]; split; [congruence|]; split; [|split]].
    + rewrite Hbody. cbn [bindp]. change (negb (-1 =? 0)) with true. cbv iota.
      unfold va. by rewrite Z.div_mul by done.
    + intros q Hq Hql. by rewrite Hrefs, Hr1.
    + by eapply data_same_trans.
    + split; [|done]. split; [by apply wf_swap|]. apply acct_acct_on.
      destruct Hw1 as [_ Hacc1]. apply acct_acct_on in Hacc1.
      rewrite step_entries in Hacc1 |- *. destruct Hacc1 as [Hx Hy]. split; [|done].
      intros e' He'. destruct (Hin e') as [Hv Hl]; [by rewrite step_entries|].
      rewrite Hrefs by done. auto.
Qed.
End Step.

(** ** Unmapping the end of a space *)

Lemma occ_page_zero s l W p E : wf s l W -> (forall e, e ∈ E -> e ∈ entries W) ->
  p ∈ pages W -> occ p E = 0.
Proof.
  intros Hw Hsub Hp. destruct (Z.eq_dec (occ p E) 0) as [|Hne]; [done|].
  apply occ_pos in Hne as (e & He & <-). by apply (wf_data _ _ _ Hw e) in Hp; [|auto].
Qed.

Definition unmap_tail_post s (l : list Z) t es1 es2 R (p : prog phys unit) : Prop :=
  exists s' l', p = Done tt s' /\ world s' l' (Space t es1 :: R) /\
    data_same (Space t es1 :: R) s s' /\ pheld s' = pheld s /\ (forall q, q ∈ l -> q ∈ l') /\
    (forall q, valid_page q -> refs s' q = refs s q - occ q es2) /\
    same_map (lookup_pte (pmem s') t)
      (clear_range (lookup_pte (pmem s) t) (Z.of_nat (length es1)) (Z.of_nat (length es2))).

Lemma uvmunmap_tail s l t es1 es2 R :
  world s l (Space t (es1 ++ es2) :: R) ->
  unmap_tail_post s l t es1 es2 R
    (uvmunmap (root t) (Z.of_nat (length es1) * PGSIZE) (Z.of_nat (length es2)) true s).
Proof.
  intros [Hw Hacc]. pose proof (wf_owned _ _ _ Hw (Space t (es1 ++ es2)) ltac:(by left)) as Ho.
  pose proof (wf_aspace _ _ _ Hw (Space t (es1 ++ es2)) ltac:(by left)) as [Hr Hm Hok Hsz].
  simpl in *. rewrite length_app, Nat2Z.inj_add in Hsz.
  assert (Hperm : entries (Space t (es1 ++ es2) :: R) ≡ₚ es2 ++ entries (Space t es1 :: R)).
  { rewrite !entries_cons. simpl. rewrite <- app_assoc, !(app_assoc _ _ (entries R)).
    by rewrite (Permutation_app_comm es1 es2). }
  assert (Hsub : forall e, e ∈ es2 -> e ∈ entries (Space t (es1 ++ es2) :: R)).
  { intros e He. rewrite Hperm. apply elem_of_app. by left. }
  assert (Hocc : forall q, valid_page q -> occ q es2 <= refs s q).
  { intros q Hq. destruct (Z.eq_dec (occ q es2) 0) as [-> |Hne].
    - pose proof (inv_refs _ _ _ (wf_inv _ _ _ Hw) q Hq). lia.
    - apply occ_pos in Hne as (e & He & <-). rewrite (ac_refs _ _ Hacc e) by auto.
      rewrite Hperm, occ_app. pose proof (occ_nonneg e.1 (entries (Space t es1 :: R))). lia. }
  rewrite uvmunmap_loop by apply Z_mod_mult.
  destruct (unmap_loop_spec t (Z.of_nat (length es1) * PGSIZE + Z.of_nat (length es2) * PGSIZE)
              es2 (Z.to_nat (Z.of_nat (length es2) + 1)) (Z.of_nat (length es1)) s l)
    as (s' & l' & E & Hs & Hrefs & _ & Hlk); try done; try lia.
  { intros i e Hi. rewrite <- Nat2Z.inj_add. apply Hm.
    rewrite lookup_app_r by lia. rewrite <- Hi. f_equal. lia. }
  { by apply Forall_app in Hok as [_ ?]. }
  assert (HaccE : acct_on s' (entries (Space t es1 :: R))).
  { apply acct_acct_on in Hacc. rewrite Hperm in Hacc. eapply acct_drop; [done|].
    intros e He. apply Hrefs. eapply (wf_entry_valid _ _ _ Hw). rewrite Hperm.
    apply elem_of_app. by right. }
  destruct (wf_shrinks s l s' l' t (es1 ++ es2) es1 R) as [Hw' Hd]; try done.
  - intros i e Hi. apply lookup_lt_Some in Hi as Hlt. rewrite Hlk by (unfold PGSIZE in *; lia).
    unfold clear_range. rewrite decide_False by (unfold PGSIZE; lia).
    apply (Hm i). by rewrite lookup_app_l.
  - unfold PGSIZE in *; lia.
  - intros e He. apply elem_of_app. by left.
  - intros q Hq. assert (Hq' : q ∈ pages (Space t (es1 ++ es2) :: R)) by (apply in_pages_cons; by right).
    rewrite Hrefs by (by eapply wf_page_valid).
    rewrite (occ_page_zero _ _ _ _ _ Hw Hsub Hq'), Z.sub_0_r. by apply (wf_tref _ _ _ Hw).
  - intros e He. change (e ∈ entries (Space t es1 :: R)) in He.
    rewrite (proj1 HaccE e He). pose proof (occ_in _ _ He). lia.
  - exists s', l'. split; [done|]. split; [split; [done|by apply acct_acct_on]|].
    split; [done|]. split; [apply Hs|]. split; [apply Hs|]. split; [done|done].
Qed.

(** ** The whole copy *)

(** The parent after [k] pages are shared. *)
Definition half_cow (k : nat) (es : list (Z * Z)) : list (Z * Z) :=
  (cow_entry <$> take k es) ++ drop k es.

Lemma half_cow_lookup k es e : es !! k = Some e -> half_cow k es !! k = Some e.
Proof.
  intros Hk. apply lookup_lt_Some in Hk as Hlt. unfold half_cow.
  rewrite lookup_app_r; rewrite length_fmap, length_take; [|lia].
  rewrite lookup_drop, <- Hk. f_equal. lia.
Qed.

Lemma half_cow_step k es e :
  es !! k = Some e -> <[k := cow_entry e]> (half_cow k es) = half_cow (Datatypes.S k) es.
Proof.
  intros Hk. apply lookup_lt_Some in Hk as Hlt. unfold half_cow.
  rewrite insert_app_r_alt; rewrite length_fmap, length_take; [|lia].
  replace (k - k `min` length es)%nat with 0%nat by lia.
  rewrite (drop_S _ e) by done. simpl.
  by rewrite (take_S_r _ _ e), fmap_app, <- app_assoc by done.
Qed.

Lemma cow_take_S k es e :
  es !! k = Some e -> (cow_entry <$> take k es) ++ [cow_entry e] = cow_entry <$> take (Datatypes.S k) es.
Proof. intros Hk. by rewrite (take_S_r _ _ e), fmap_app by done. Qed.

(** The result of uvmcopy run on a parent and a child whose first [k] pages are
    done already. *)
Definition copy_post s (l : list Z) tP tC (es : list (Z * Z)) (k : nat) R (p : prog phys Z) : Prop :=
  exists r s' l' tC', p = Done r s' /\ root tC' = root tC /\ pheld s' = pheld s /\
    data_same (Space tP (half_cow k es) :: R) s s' /\
    ((r = 0 /\ world s' l' (Space tP (cow_entry <$> es) :: Space tC' (cow_entry <$> es) :: R) /\
      (forall q, valid_page q -> q ∉ l -> refs s' q = refs s q + occ q (drop k es))) \/
     (r = -1 /\ (length l < 2 * (length es - k))%nat /\
      (forall q, valid_page q -> q ∉ l -> refs s' q = refs s q - occ q (take k es)) /\
      (forall i, 0 <= i < Z.of_nat (length es) -> has (lookup_pte (pmem s') tC' (i * PGSIZE)) PTE_V = false) /\
      exists j, world s' l' (Space tP (half_cow j es) :: Space tC' [] :: R))).

Lemma occ_cow q es : occ q (cow_entry <$> es) = occ q es.
Proof. induction es as [|e es IH]; [done|]. rewrite fmap_cons, !occ_cons, IH. done. Qed.

Lemma half_cow_from k es e : e ∈ half_cow k es -> exists e0, e0 ∈ es /\ e.1 = e0.1.
Proof.
  unfold half_cow. intros [He|He]%elem_of_app.
  - apply list_elem_of_fmap in He as (e0 & -> & He0). exists e0. split; [|done].
    rewrite <- (take_drop k es). apply elem_of_app. by left.
  - exists e. split; [|done]. rewrite <- (take_drop k es). apply elem_of_app. by right.
Qed.

Lemma half_cow_to k es e : e ∈ es -> exists e0, e0 ∈ half_cow k es /\ e.1 = e0.1.
Proof.
  intros He. rewrite <- (take_drop k es) in He. unfold half_cow.
  apply elem_of_app in He as [He|He].
  - exists (cow_entry e). split; [|done]. apply elem_of_app. left. apply list_elem_of_fmap. eauto.
  - exists e. split; [|done]. apply elem_of_app. by right.
Qed.

Lemma data_same_half tP k j es R s s' :
  data_same (Space tP (half_cow k es) :: R) s s' -> data_same (Space tP (half_cow j es) :: R) s s'.
Proof.
  apply data_same_incl. intros e He. rewrite in_entries_cons in He. simpl in He.
  destruct He as [(e0 & He0 & ->)%half_cow_from|He]; [|exists e; rewrite in_entries_cons; auto].
  destruct (half_cow_to k es e0 He0) as (e1 & He1 & ->). exists e1.
  rewrite in_entries_cons. auto.
Qed.

Lemma length_half_cow k es : length (half_cow k es) = length es.
Proof. unfold half_cow. rewrite length_app, length_fmap, length_take, length_drop. lia. Qed.

Section Loop.
Context (tP : ptree) (es : list (Z * Z)) (R : list space) (sz : Z).
Let n := length es.
Context (Hsz : (Z.of_nat n - 1) * PGSIZE < sz <= Z.of_nat n * PGSIZE).

Lemma copy_finish s l tC :
  world s l (Space tP (half_cow n es) :: Space tC (cow_entry <$> take n es) :: R) ->
  copy_post s l tP tC es n R (Done 0 s).
Proof.
  intros Hw. exists 0, s, l, tC. split_and!; try done. left. split; [done|].
  unfold half_cow, n in Hw. rewrite drop_all, app_nil_r, take_ge in Hw by lia.
  split; [done|]. intros q _ _. unfold n. rewrite drop_all. simpl. lia.
Qed.

(** The child's pages are unmapped again. *)
Lemma copy_undo s l k tC :
  (k < n)%nat -> world s l (Space tP (half_cow (Datatypes.S k) es) :: Space tC (cow_entry <$> take k es) :: R) ->
  (forall i, Z.of_nat k <= i < Z.of_nat n -> has (lookup_pte (pmem s) tC (i * PGSIZE)) PTE_V = false) ->
  exists s' l', bind (uvmunmap (root tC) 0 (Z.of_nat k) true) (fun _ => break (-1)) s
      = Done (inr (-1) : Z + Z) s' /\ pheld s' = pheld s /\
    data_same (Space tP (half_cow (Datatypes.S k) es) :: R) s s' /\
    (forall q, valid_page q -> refs s' q = refs s q - occ q (take k es)) /\
    (forall i, 0 <= i < Z.of_nat n -> has (lookup_pte (pmem s') tC (i * PGSIZE)) PTE_V = false) /\
    world s' l' (Space tP (half_cow (Datatypes.S k) es) :: Space tC [] :: R).
Proof.
  intros Hk Hw Hun. rewrite world_swap in Hw.
  assert (Hlen : length (cow_entry <$> take k es) = k) by (rewrite length_fmap, length_take; lia).
  destruct (uvmunmap_tail s l tC [] (cow_entry <$> take k es) _ Hw)
    as (s' & l' & E & Hw' & Hd & Hh & _ & Hrefs & Hlk).
  rewrite Hlen in E, Hlk. simpl in E. exists s', l'. split.
  { unfold bind. change (Z.of_nat 0 * PGSIZE) with 0 in E. by rewrite E. }
  split; [done|]. split.
  { intros e a He Ha. apply (Hd e); [|done]. rewrite in_entries_cons. by right. }
  split; [intros q Hq; by rewrite Hrefs, occ_cow|]. split; [|by apply world_swap].
  pose proof (wf_aspace _ _ _ (proj1 Hw) (Space tP (half_cow (Datatypes.S k) es))
                ltac:(right; by left)) as [_ _ _ Hmax]. simpl in Hmax.
  intros i Hi. rewrite Hlk.
  - unfold clear_range. case_decide; [done|]. apply Hun. unfold PGSIZE in *. simpl in *. lia.
  - rewrite length_half_cow in Hmax. fold n in Hmax. unfold PGSIZE in *. lia.
Qed.

Lemma world_va s l tC k i :
  world s l (Space tP (half_cow k es) :: Space tC (cow_entry <$> take k es) :: R) ->
  Z.of_nat k <= i < Z.of_nat n -> 0 <= i * PGSIZE < MAXVA.
Proof.
  intros [Hw _] Hi. pose proof (wf_aspace _ _ _ Hw (Space tP (half_cow k es)) ltac:(by left))
    as [_ _ _ Hmax]. simpl in Hmax. rewrite length_half_cow in Hmax. fold n in Hmax.
  unfold PGSIZE in *. lia.
Qed.

Lemma world_used s l tC k e :
  world s l (Space tP (half_cow k es) :: Space tC (cow_entry <$> take k es) :: R) ->
  e ∈ es -> valid_page e.1 /\ e.1 ∉ l.
Proof.
  intros [Hw _] (e0 & He0 & ->)%(half_cow_to k).
  assert (e0 ∈ entries (Space tP (half_cow k es) :: Space tC (cow_entry <$> take k es) :: R)).
  { rewrite in_entries_cons. by left. }
  split; [by eapply wf_entry_valid|by eapply wf_entry_used].
Qed.

Lemma copy_drop_child tC k ec s s' :
  data_same (Space tP (half_cow k es) :: Space tC ec :: R) s s' ->
  data_same (Space tP (half_cow k es) :: R) s s'.
Proof.
  apply data_same_incl. intros e He. exists e. rewrite !in_entries_cons in *. tauto.
Qed.

(** One more page is shared and the rest of the loop does its part. *)
Lemma copy_next fuel s l tC k e :
  world s l (Space tP (half_cow k es) :: Space tC (cow_entry <$> take k es) :: R) ->
  es !! k = Some e ->
  (forall i, Z.of_nat k <= i < Z.of_nat n -> has (lookup_pte (pmem s) tC (i * PGSIZE)) PTE_V = false) ->
  (forall e, e ∈ es -> refs s e.1 + Z.of_nat (n - k) < 2 ^ 31 - 1) ->
  (forall s' l' tC', root tC' = root tC ->
    world s' l' (Space tP (half_cow (Datatypes.S k) es) :: Space tC' (cow_entry <$> take (Datatypes.S k) es) :: R) ->
    (forall i, Z.of_nat (Datatypes.S k) <= i < Z.of_nat n -> has (lookup_pte (pmem s') tC' (i * PGSIZE)) PTE_V = false) ->
    (forall e, e ∈ es -> refs s' e.1 + Z.of_nat (n - Datatypes.S k) < 2 ^ 31 - 1) ->
    copy_post s' l' tP tC' es (Datatypes.S k) R
      (loop fuel (copy_body (root tP) (root tC) sz) (Z.of_nat (Datatypes.S k) * PGSIZE) s')) ->
  shared_step s l tP tC (half_cow k es) (cow_entry <$> take k es) R k e sz ->
  copy_post s l tP tC es k R
    (bind (copy_body (root tP) (root tC) sz (Z.of_nat k * PGSIZE)) (fun r => match r with
       | inl x => loop fuel (copy_body (root tP) (root tC) sz) x
       | inr a => ret a
       end) s).
Proof.
  intros Hw He Hun Hroom IH (s1 & l1 & tC1 & E & Hroot & Hlen & Hh & Hrefs & Hd & Hw1 & Hmap).
  rewrite half_cow_step, cow_take_S in Hw1 by done.
  apply lookup_lt_Some in He as Hlt. fold n in Hlt.
  assert (Hlfree : forall q, valid_page q -> q ∉ l -> q ∉ l1).
  { intros q Hq Hql Hq1. apply (inv_free _ _ _ (wf_inv _ _ _ (proj1 Hw1))) in Hq1; [|done].
    rewrite Hrefs in Hq1 by done. apply Hql, (inv_free _ _ _ (wf_inv _ _ _ (proj1 Hw))); [done|].
    pose proof (inv_refs _ _ _ (wf_inv _ _ _ (proj1 Hw)) q Hq).
    unfold indic in Hq1. case_decide; lia. }
  destruct (IH s1 l1 tC1) as (r & s' & l' & tC' & E' & Hroot' & Hh' & Hd' & Hcase); try done.
  { intros i Hi. rewrite Hmap by (apply (world_va s l tC k); [done|lia]).
    unfold upd_pte. rewrite !Z.div_mul by done. rewrite decide_False by lia. apply Hun. lia. }
  { intros e' He'. destruct (world_used s l tC k e' Hw He') as [Hv Hl].
    specialize (Hroom e' He'). rewrite Hrefs by done. unfold indic. case_decide; lia. }
  exists r, s', l', tC'. split.
  { unfold bind. rewrite E. cbn [bindp]. rewrite <- E'. f_equal. lia. }
  split; [congruence|]. split; [congruence|]. split.
  { eapply data_same_trans; [by eapply copy_drop_child|by eapply data_same_half]. }
  assert (Hdrop : drop k es = e :: drop (Datatypes.S k) es) by (by apply drop_S).
  destruct Hcase as [(-> & Hw' & Hr')|(-> & Hlen' & Hr' & Hun' & Hj)]; [left|right].
  - split; [done|]. split; [done|]. intros q Hq Hql.
    rewrite Hr', Hrefs, Hdrop, occ_cons by auto. lia.
  - split; [done|]. fold n in Hlen' |- *. split; [lia|]. split; [|done]. intros q Hq Hql.
    rewrite Hr', Hrefs by auto. rewrite (take_S_r _ _ e), occ_app, occ_cons by done. simpl. lia.
Qed.

Lemma copy_loop fuel : forall k s l tC,
  (n - k < fuel)%nat -> (k <= n)%nat ->
  world s l (Space tP (half_cow k es) :: Space tC (cow_entry <$> take k es) :: R) ->
  (forall i, Z.of_nat k <= i < Z.of_nat n -> has (lookup_pte (pmem s) tC (i * PGSIZE)) PTE_V = false) ->
  (forall e, e ∈ es -> refs s e.1 + Z.of_nat (n - k) < 2 ^ 31 - 1) ->
  copy_post s l tP tC es k R
    (loop fuel (copy_body (root tP) (root tC) sz) (Z.of_nat k * PGSIZE) s).
Proof.
  induction fuel as [|fuel IH]; intros k s l tC Hfuel Hkn Hw Hun Hroom; [lia|]. cbn [loop].
  destruct (decide (k = n)) as [-> |Hne].
  { unfold bind, copy_body. rewrite (proj2 (Z.ltb_ge _ sz)) by lia. by apply copy_finish. }
  destruct (lookup_lt_is_Some_2 es k) as [e He]; [fold n; lia|].
  assert (Hes : e ∈ es) by (by eapply list_elem_of_lookup_2).
  destruct (copy_step s l tP tC (half_cow k es) (cow_entry <$> take k es) R k e)
    with (sz := sz) as [Hstep|Hstep]; try done.
  - by apply half_cow_lookup.
  - rewrite length_fmap, length_take. fold n. lia.
  - apply Hun. lia.
  - specialize (Hroom e Hes). lia.
  - unfold PGSIZE in *. lia.
  - eapply copy_next; try done. intros s1 l1 tC1 Hr1 Hw1 Hun1 Hroom1. rewrite <- Hr1. apply IH; try done; lia.
  - destruct Hstep as (s1 & tC1 & E & Hroot & Hlen & Hh & Hrefs & Hd & Hw1 & Hmap).
    rewrite half_cow_step in Hw1 by done.
    destruct (copy_undo s1 [] k tC1) as (s' & l' & E' & Hh' & Hd' & Hrefs' & Hun' & Hw'); try done.
    { lia. }
    { intros i Hi. rewrite Hmap; [by apply Hun|]. by apply (world_va s l tC k). }
    exists (-1), s', l', tC1. split; [unfold bind at 1; by rewrite E, <- Hroot, E'|].
    split; [done|]. split; [congruence|]. split.
    { eapply data_same_trans; [by eapply copy_drop_child|by eapply data_same_half]. }
    right. split; [done|]. split; [lia|]. split; [|split; [done|by exists (Datatypes.S k)]].
    intros q Hq Hql. by rewrite Hrefs', Hrefs by done.
Qed.
End Loop.

End Acct.
