(* ===== verification/Fault.v ===== *)
(** The copy-on-write fault (cowalloc) and writes through it (copyout).

    cowalloc gives a space its own copy of a shared page; the lemmas follow the
    allocation, the copy, the unmapping of the shared page and the new mapping
    through the invariant [world] of all spaces. *)

From S2P Require Import Prelude Mem Riscv Locks Kalloc Vm VmTree VmOps Space Cow.

Section Fault.
Context `{Layout}.

(** A private page is added to the accounting. *)
Lemma acct_add s e E :
  acct_on s E -> occ e.1 E = 0 -> refs s e.1 = 1 -> acct_on s (e :: E).
Proof.
  intros [Hr Hw] H0 H1.
  assert (Hne : forall e', e' ∈ E -> e.1 <> e'.1).
  { intros e' He' Heq. pose proof (occ_in _ _ He') as Hx. rewrite <- Heq in Hx. lia. }
  split; intros e' [-> |He']%elem_of_cons; rewrite occ_cons; unfold indic.
  - rewrite decide_True by done. lia.
  - rewrite decide_False by auto. rewrite Hr by done. lia.
  - rewrite decide_True by done. lia.
  - intros HW. rewrite decide_False by auto. rewrite Hw by done. lia.
Qed.

(** The flags of the private copy. *)
Definition own_flags (fl : Z) : Z := Z.lor (Z.land fl (Z.lnot PTE_COW)) PTE_W.

Lemma own_flags_ok fl : 0 <= fl < 1024 ->
  ((0 <=? own_flags fl) && (own_flags fl <? 1024) && has (own_flags fl) PTE_W &&
   negb (has (own_flags fl) PTE_COW) && Bool.eqb (has (own_flags fl) PTE_U) (has fl PTE_U) &&
   implb (has fl PTE_V)
     (has (own_flags fl) PTE_V && negb (own_flags fl =? PTE_V) &&
      (Z.lor (own_flags fl) PTE_V =? own_flags fl)))%bool = true.
Proof. intros Hfl. all_flags (fun fl =>
  ((0 <=? own_flags fl) && (own_flags fl <? 1024) && has (own_flags fl) PTE_W &&
   negb (has (own_flags fl) PTE_COW) && Bool.eqb (has (own_flags fl) PTE_U) (has fl PTE_U) &&
   implb (has fl PTE_V)
     (has (own_flags fl) PTE_V && negb (own_flags fl =? PTE_V) &&
      (Z.lor (own_flags fl) PTE_V =? own_flags fl)))%bool). Qed.

Lemma own_entry_ok t e p : entry_ok t e -> valid_page p -> p ∉ tpages t ->
  entry_ok t (p, own_flags e.2) /\ Z.lor (own_flags e.2) PTE_V = own_flags e.2.
Proof.
  intros (Hv & Ht & Hr & HV & Hn) Hp Hpt. pose proof (own_flags_ok _ Hr) as Hc.
  rewrite HV in Hc. simpl in Hc.
  rewrite !andb_true_iff, !negb_true_iff, Z.leb_le, Z.ltb_lt, !Z.eqb_eq, Z.eqb_neq in Hc.
  unfold entry_ok. simpl. intuition.
Qed.

(** *** Giving a space its own copy of a page *)

Section Private.
Context (s : phys) (p : Z) (l : list Z) (t : ptree) (es : list (Z * Z)) (R : list space).
Context (k : nat) (e : Z * Z).
Context (Hworld : world s (p :: l) (Space t es :: R)).
Context (Hk : es !! k = Some e).

Let va := Z.of_nat k * PGSIZE.
Let sp := Space t es.

(** The fresh page holds a copy of the shared one. *)
Definition copied_page : phys := set_pmem (fun m => mmove m p e.1 PGSIZE) (allocated p s).

Lemma private_facts :
  valid_page p /\ (p ∉ l) /\ (p ∉ pages (sp :: R)) /\ refs s p = 0 /\
  (forall e', e' ∈ entries (sp :: R) -> valid_page e'.1 /\ e'.1 <> p) /\
  0 <= va < MAXVA /\ entry_ok t e /\ e ∈ entries (sp :: R) /\
  lookup_pte (pmem s) t va = mkpte e.1 e.2.
Proof.
  destruct Hworld as [Hw _].
  destruct (kalloc_inv_cons _ _ _ (wf_unlocked _ _ _ Hw) (wf_inv _ _ _ Hw)) as (_ & _ & Hp & Hp0 & Hpl).
  pose proof (wf_aspace _ _ _ Hw (Space t es) ltac:(by left)) as [_ Hm _ Hsz]. simpl in *.
  apply lookup_lt_Some in Hk as Hlt.
  assert (He : e ∈ es) by (by eapply list_elem_of_lookup_2).
  split; [done|]. split; [done|]. split.
  { intros Hx%(wf_page_used _ _ _ Hw). apply Hx. by left. }
  split; [done|]. split.
  { intros e' He'. split; [by apply (wf_entry_valid _ _ _ Hw)|].
    intros Heq. apply (wf_entry_used _ _ _ Hw) in He'. apply He'. rewrite Heq. by left. }
  split; [unfold va, PGSIZE in *; lia|]. split; [by eapply wf_head_entry|].
  split; [apply in_entries_cons; by left|]. by apply Hm.
Qed.

Lemma load8_copied_page a :
  load8 (pmem copied_page) a
  = if decide (in_page p a) then load8 (pmem s) (e.1 + (a - p)) else load8 (pmem s) a.
Proof.
  destruct private_facts as (Hp & _ & _ & _ & Hne & _ & _ & He & _).
  destruct (Hne e He) as [Hv Hep].
  unfold copied_page. simpl. rewrite load8_mmove.
  destruct (decide (in_page p a)) as [Hin|Hin]; unfold in_page in Hin.
  - rewrite (proj2 (Z.leb_le p a)), (proj2 (Z.ltb_lt a (p + PGSIZE))) by lia. simpl.
    apply frame_mset. intros Hx. apply Hep. symmetry.
    apply (pages_disjoint p e.1 (e.1 + (a - p))); [apply Hp|apply Hv|done|unfold in_page; lia].
  - assert ((p <=? a) && (a <? p + PGSIZE) = false) as ->.
    { apply andb_false_iff. rewrite Z.leb_gt, Z.ltb_ge. lia. }
    by apply frame_mset.
Qed.

Lemma refs_copied_page q : valid_page q ->
  refs copied_page q = if decide (p = q) then 1 else refs s q.
Proof.
  intros Hq. destruct private_facts as (Hp & _ & _ & Hp0 & _).
  change (refs copied_page q) with (refs (allocated p s) q).
  rewrite refs_allocated by (apply Hp || apply Hq). rewrite Hp0. done.
Qed.

Lemma copied_page_wf :
  wf copied_page l (sp :: R) /\ data_same (sp :: R) s copied_page /\
  (forall vb, lookup_pte (pmem copied_page) t vb = lookup_pte (pmem s) t vb).
Proof.
  destruct Hworld as [Hw _]. destruct private_facts as (Hp & _ & Hpp & _).
  pose proof (wf_owned _ _ _ Hw sp ltac:(by left)) as Ho.
  pose proof (wf_aspace _ _ _ Hw sp ltac:(by left)) as [Hr Hm Hok Hsz]. simpl in *.
  assert (Hf : mem_frame (in_page p) (pmem (allocated p s)) (mmove (pmem (allocated p s)) p e.1 PGSIZE)).
  { intros a Ha. unfold in_page in Ha. mem_simpl. bool_split. }
  assert (Hlk : forall vb, lookup_pte (pmem copied_page) t vb = lookup_pte (pmem s) t vb).
  { intros vb. apply lookup_pte_ext. intros q a Hq Ha. rewrite load8_copied_page.
    rewrite decide_False; [done|]. intros Hpa. apply Hpp. apply in_pages_cons. left.
    assert (valid_page q) as Hqv by (by apply (rep_valid _ _ Hr)).
    by rewrite (pages_disjoint p q a) by (done || apply Hp || apply Hqv). }
  destruct (wf_extends s (p :: l) copied_page l t t es es R) as [Hw' Hd]; try done.
  - by apply fresh_extends.
  - intros i e' Hi. rewrite Hlk. by apply Hm.
  - intros e' He'. by eapply wf_head_entry.
Qed.
(** Replacing the shared mapping by the private one. *)
Section Swap.
Context (s4 : phys) (l4 : list Z) (Hs : shrinks copied_page s4 l l4 t).
Context (Hrefs : forall q, valid_page q -> refs s4 q = refs copied_page q - indic e.1 q).
Context (Hmap : same_map (lookup_pte (pmem s4) t)
                  (upd_pte (lookup_pte (pmem s) t) va (mkpte p (own_flags e.2)))).

(** The PTEs other than the faulting one. *)
Let rest := take k es ++ drop (Datatypes.S k) es ++ entries R.

Lemma swap_old : entries (sp :: R) ≡ₚ e :: rest.
Proof. by apply entries_lookup. Qed.

Lemma swap_new :
  entries (Space t (<[k := (p, own_flags e.2)]> es) :: R) ≡ₚ (p, own_flags e.2) :: rest.
Proof. by eapply entries_insert. Qed.

Lemma swap_rest e' : e' ∈ rest -> e' ∈ entries (sp :: R) /\ valid_page e'.1 /\ e'.1 <> p.
Proof.
  intros He'. destruct private_facts as (_ & _ & _ & _ & Hne & _).
  assert (Hin : e' ∈ entries (sp :: R)) by (rewrite swap_old; by right).
  split; [done|]. by apply Hne.
Qed.

Lemma swap_acct_rest : acct_on s4 rest.
Proof.
  destruct Hworld as [_ Hacc]. apply acct_acct_on in Hacc. fold sp in Hacc.
  rewrite swap_old in Hacc. eapply (acct_drop s s4 [e]); [done|].
  intros e' (_ & Hv' & Hp')%swap_rest.
  rewrite Hrefs, refs_copied_page, decide_False by (done || congruence).
  rewrite occ_cons. simpl. unfold indic. lia.
Qed.

Lemma swap_rest_refs e' : e' ∈ rest -> refs s4 e'.1 <> 0.
Proof.
  intros He'. rewrite (proj1 swap_acct_rest e' He'). pose proof (occ_in _ _ He'). lia.
Qed.

Lemma swap_ref_p : refs s4 p = 1.
Proof.
  destruct private_facts as (Hp & _ & _ & _ & Hne & _ & _ & He & _).
  destruct (Hne e He) as [_ Hep].
  rewrite Hrefs, refs_copied_page, decide_True by done. unfold indic.
  by rewrite decide_False.
Qed.

Lemma swap_page_refs q : q ∈ pages (sp :: R) -> valid_page q /\ refs s4 q <> 0.
Proof.
  intros Hq. destruct Hworld as [Hw _].
  destruct private_facts as (_ & _ & _ & _ & _ & _ & _ & He & _).
  assert (Hqv : valid_page q) by (by eapply wf_page_valid). split; [done|].
  rewrite Hrefs, refs_copied_page by done. unfold indic.
  rewrite (decide_False (P := e.1 = q)) by (intros <-; by apply (wf_data _ _ _ Hw) in Hq).
  rewrite Z.sub_0_r. case_decide; [done|]. by apply (wf_tref _ _ _ Hw).
Qed.

Lemma swap_used q : valid_page q -> refs s4 q <> 0 -> q ∉ l4.
Proof.
  intros Hq Hrq Hl. by apply Hrq, (inv_free _ _ _ (own_inv _ _ _ (shr_owned _ _ _ _ _ Hs))).
Qed.

Lemma swap_aspace : aspace (pmem s4) (Space t (<[k := (p, own_flags e.2)]> es)).
Proof.
  destruct Hworld as [Hw _]. destruct private_facts as (Hp & _ & Hpp & _ & _ & _ & Hok & _).
  pose proof (wf_aspace _ _ _ Hw sp ltac:(by left)) as [_ Hm Hoks Hsz]. simpl in Hm, Hsz.
  apply lookup_lt_Some in Hk as Hlt.
  assert (Hpt : p ∉ tpages t) by (intros Hx; apply Hpp, in_pages_cons; by left).
  split; simpl.
  - apply (shr_owned _ _ _ _ _ Hs).
  - by apply (maps_insert (lookup_pte (pmem s) t) 0 es k).
  - apply Forall_insert; [done|by apply own_entry_ok].
  - by rewrite length_insert.
Qed.

Lemma swap_world : world s4 l4 (Space t (<[k := (p, own_flags e.2)]> es) :: R).
Proof.
  destruct Hworld as [Hw _]. destruct copied_page_wf as (Hw2 & _ & _).
  destruct private_facts as (Hp & Hpl & Hpp & _).
  pose proof (wf_owned _ _ _ Hw2 sp ltac:(by left)) as Ho2. simpl in Ho2.
  pose proof (shr_owned _ _ _ _ _ Hs) as Ho4. split.
  - eapply wf_step; [exact Hw2|apply Ho4|apply Ho4|apply swap_aspace| | | | |].
    + intros q a Hq Ha. destruct (swap_page_refs q) as [Hqv Hqr]; [apply in_pages_cons; by right|].
      eapply shrinks_bytes; try done; [by apply swap_used|]. intros Hx. by eapply (wf_apart _ _ _ _ _ Hw).
    + by left.
    + intros q Hq. apply swap_page_refs, in_pages_cons. by left.
    + intros q Hq. apply swap_page_refs, in_pages_cons. by right.
    + intros e'. rewrite swap_new. intros [-> |He']%elem_of_cons.
      * simpl. rewrite swap_ref_p. split; [done|]. by split.
      * destruct (swap_rest e' He') as (Hin & _ & _). split; [by apply swap_rest_refs|].
        split; [by apply (wf_entry_used _ _ _ Hw2)|by apply (wf_data _ _ _ Hw2)].
  - apply acct_acct_on. rewrite swap_new. apply acct_add; [apply swap_acct_rest| |apply swap_ref_p].
    destruct (Z.eq_dec (occ p rest) 0) as [|Hnz]; [done|].
    apply occ_pos in Hnz as (e' & (_ & _ & Hx)%swap_rest & Heq). done.
Qed.

Lemma swap_copy a : in_page p a -> load8 (pmem s4) a = load8 (pmem s) (e.1 + (a - p)).
Proof.
  intros Ha. destruct private_facts as (Hp & _ & Hpp & _). destruct copied_page_wf as (Hw2 & _ & _).
  transitivity (load8 (pmem copied_page) a); [|by rewrite load8_copied_page, decide_True].
  eapply shrinks_bytes; try done.
  - apply (wf_owned _ _ _ Hw2 sp). by left.
  - apply swap_used; [done|]. by rewrite swap_ref_p.
  - intros Hx. apply Hpp, in_pages_cons. by left.
Qed.

Lemma swap_others e' a : e' ∈ rest -> in_page e'.1 a -> load8 (pmem s4) a = load8 (pmem s) a.
Proof.
  intros He' Ha. destruct (swap_rest e' He') as (Hin & Hv' & _).
  destruct copied_page_wf as (Hw2 & Hd2 & _). destruct Hworld as [Hw _].
  transitivity (load8 (pmem copied_page) a); [|by apply (Hd2 e')].
  eapply shrinks_bytes; try done.
  - apply (wf_owned _ _ _ Hw2 sp). by left.
  - apply swap_used; [done|]. by apply swap_rest_refs.
  - pose proof (wf_data _ _ _ Hw _ Hin) as Hx. rewrite in_pages_cons in Hx. auto.
Qed.
End Swap.
End Private.

(** *** cowalloc, on every branch *)

(** Up to the test of PTE_COW. *)
Lemma cowalloc_entry s l t es R k e :
  wf s l (Space t es :: R) -> es !! k = Some e ->
  cowalloc (root t) (Z.of_nat k * PGSIZE) s
  = if has e.2 PTE_COW then
      bind kalloc (fun ka => if ka =? 0 then ret (-1) else
        modify (set_pmem (fun m => mmove m ka e.1 PGSIZE));;;
        uvmunmap (root t) (PGROUNDUP (Z.of_nat k * PGSIZE)) 1 true;;;
        mappages (root t) (Z.of_nat k * PGSIZE) PGSIZE ka (own_flags e.2);;;
        ret 0) s
    else Done 0 s.
Proof.
  intros Hw Hk. set (va := Z.of_nat k * PGSIZE).
  pose proof (wf_aspace _ _ _ Hw (Space t es) ltac:(by left)) as [Hr Hm Hok Hsz]. simpl in *.
  apply lookup_lt_Some in Hk as Hlt.
  assert (Hva : 0 <= va < MAXVA) by (unfold va, PGSIZE in *; lia).
  assert (He : entry_ok t e) by (eapply wf_head_entry; [done|by eapply list_elem_of_lookup_2]).
  pose proof (entry_word _ _ He) as (Hpa & HV & Hfl).
  assert (Hlk : lookup_pte (pmem s) t va = mkpte e.1 e.2) by (by apply Hm).
  destruct (lookup_present (pmem s) t va) as [a Ha]; [rewrite Hlk; by eapply has_nonzero|].
  pose proof (slot_pos _ _ _ _ Hr Ha). pose proof (valid_page_pos e.1 (proj1 He)).
  unfold cowalloc. unfold va at 1. rewrite Z_mod_mult. fold va. change (negb (0 =? 0)) with false. cbv iota.
  rewrite Z.geb_leb, (proj2 (Z.leb_gt MAXVA va)) by lia. cbv iota.
    unfold bind at 1. rewrite (walk_slot s t va false a) by (done || lia). cbn [bindp].
  rewrite (proj2 (Z.eqb_neq a 0)) by lia. unfold bind at 1, rd64, gets. cbn [bindp].
  rewrite <- (lookup_slot (pmem s) _ _ _ Ha), Hlk, Hpa, Hfl.
  rewrite (proj2 (Z.eqb_neq e.1 0)) by lia.
  destruct He as (Hv & Ht & Hf & _). rewrite has_mkpte by (done || by apply valid_page_pa_ok).
  by destruct (has e.2 PTE_COW).
Qed.

Lemma cowalloc_absent s t va :
  pt_rep (pmem s) t -> 0 <= va < MAXVA -> lookup_pte (pmem s) t va = 0 ->
  cowalloc (root t) va s = Done (-1) s.
Proof.
  intros Hr Hva Hlk. unfold cowalloc. destruct (negb _); [done|].
  rewrite Z.geb_leb, (proj2 (Z.leb_gt MAXVA va)) by lia. cbv iota.
  unfold bind at 1. rewrite walk_false by (done || lia). cbn [bindp].
  destruct (slot t va) as [a|] eqn:Ha; [|done].
  change (default 0 (Some a)) with a. pose proof (slot_pos _ _ _ _ Hr Ha). rewrite (proj2 (Z.eqb_neq a 0)) by lia.
  unfold bind at 1, rd64, gets. cbn [bindp].
  by rewrite <- (lookup_slot (pmem s) _ _ _ Ha), Hlk.
Qed.

Lemma cowalloc_copy s p l t es R k e :
  world s (p :: l) (Space t es :: R) -> es !! k = Some e -> has e.2 PTE_COW = true ->
  exists s' l', cowalloc (root t) (Z.of_nat k * PGSIZE) s = Done 0 s' /\ pheld s' = pheld s /\
    world s' l' (Space t (<[k := (p, own_flags e.2)]> es) :: R) /\
    (forall a, in_page p a -> load8 (pmem s') a = load8 (pmem s) (e.1 + (a - p))) /\
    (forall e' a, e' ∈ take k es ++ drop (Datatypes.S k) es ++ entries R -> in_page e'.1 a ->
       load8 (pmem s') a = load8 (pmem s) a) /\
    (forall q, valid_page q -> q ∉ p :: l -> refs s' q = refs s q - indic e.1 q).
Proof.
  intros Hworld Hk HC. pose proof Hworld as [Hw Hacc].
  destruct (private_facts s p l t es R k e Hworld Hk)
    as (Hp & Hpl & Hpp & Hp0 & Hne & Hva & Hok & He & Hlk).
  destruct (copied_page_wf s p l t es R k e Hworld Hk) as (Hw2 & Hd2 & Hlk2).
  set (va := Z.of_nat k * PGSIZE) in *. set (s2 := copied_page s p e) in *.
  pose proof (valid_page_pos p Hp). destruct (Hne e He) as [Hev Hep].
  pose proof (wf_owned _ _ _ Hw2 (Space t es) ltac:(by left)) as Ho2. simpl in Ho2.
  assert (Hal : va mod PGSIZE = 0) by apply Z_mod_mult.
  destruct (uvmunmap_one s2 l t va e) as (s3 & l3 & E3 & Hs3 & Hr3 & _ & Hlk3); try done.
  { by apply (wf_dref _ _ _ Hw2). }
  { by rewrite Hlk2. }
  pose proof (shr_owned _ _ _ _ _ Hs3) as Ho3.
  destruct (lookup_present (pmem s) t va) as [a Ha].
  { rewrite Hlk. eapply has_nonzero. by apply (entry_word t). }
  destruct (own_entry_ok t e p Hok Hp) as [Hown HV].
  { intros Hx. apply Hpp, in_pages_cons. by left. }
  set (s4 := set_pte a (mkpte p (own_flags e.2)) s3).
  assert (Hs4 : shrinks s2 s4 l l3 t) by (eapply shrinks_trans; [done|by eapply set_pte_shrinks]).
  assert (Hmap : same_map (lookup_pte (pmem s4) t)
                   (upd_pte (lookup_pte (pmem s) t) va (mkpte p (own_flags e.2)))).
  { intros vb Hvb. unfold s4. rewrite (set_pte_lookup s3 t va) by
      (done || apply Ho3 || (apply mkpte_word; apply Hown)).
    unfold upd_pte. case_decide as Hd; [done|]. rewrite Hlk3 by done. unfold upd_pte.
    by rewrite decide_False. }
  exists s4, l3. split; [|split; [|split; [|split; [|split]]]].
  - unfold va. rewrite (cowalloc_entry s (p :: l) t es R k e) by done. rewrite HC. fold va.
    unfold bind at 1. destruct (kalloc_inv_cons s p l) as [-> _]; try apply Hw. cbn [bindp].
    rewrite (proj2 (Z.eqb_neq p 0)) by lia. unfold bind at 1, modify. cbn [bindp].
    change (set_pmem (fun m => mmove m p e.1 PGSIZE) (allocated p s)) with s2.
    rewrite PGROUNDUP_id by (change MAXVA with (2 ^ 38) in *; unfold PGSIZE; done || lia).
    unfold bind at 1. rewrite E3. cbn [bindp]. unfold bind.
    rewrite (mappages_slot s3 t va p _ a); [by rewrite HV|apply Ho3|done|done|done|].
    rewrite Hlk3 by done. unfold upd_pte. by rewrite decide_True.
  - rewrite (shr_held _ _ _ _ _ Hs4). done.
  - by apply (swap_world s p l t es R k e).
  - by apply (swap_copy s p l t es R k e) with (l4 := l3).
  - by apply (swap_others s p l t es R k e) with (l4 := l3).
  - intros q Hq Hql. change (refs s4 q) with (refs s3 q). rewrite Hr3 by done.
    unfold s2. rewrite (refs_copied_page s p l t es R k e) by done.
    rewrite decide_False; [done|]. intros <-. apply Hql. by left.
Qed.

Lemma cowalloc_oom s t es R k e :
  world s [] (Space t es :: R) -> es !! k = Some e -> has e.2 PTE_COW = true ->
  cowalloc (root t) (Z.of_nat k * PGSIZE) s = Done (-1) s.
Proof.
  intros [Hw _] Hk HC. rewrite (cowalloc_entry s [] t es R k e) by done. rewrite HC.
  unfold bind at 1. by rewrite kalloc_inv_nil by apply Hw.
Qed.

End Fault.
