(* ===== verification/Copy.v ===== *)
(** Kernel access to user memory (copyout, copyin) in terms of what the
    address spaces read.

    [writes f dst src] is the user memory [f] with the bytes [src] at [dst].
    copyout makes the writer's memory that and leaves every other space's
    memory alone; copyin reads the bytes of the space. *)

From S2P Require Import Prelude Mem Riscv Locks Kalloc Vm VmTree VmOps Space Cow Fault.

Definition writes (f : Z -> option Z) (dst : Z) (src : list Z) : Z -> option Z :=
  fun va => if decide (dst <= va < dst + Z.of_nat (length src))
            then Some (u8 (nth (Z.to_nat (va - dst)) src 0)) else f va.

Section Copy.
Context `{Layout}.

(** What every space of [R] reads is the same. *)
Definition reads_same (R : list space) (s s' : phys) : Prop :=
  forall sp va, sp ∈ R -> uread s' sp va = uread s sp va.

Lemma reads_same_trans R s1 s2 s3 : reads_same R s1 s2 -> reads_same R s2 s3 -> reads_same R s1 s3.
Proof. intros H1 H2 sp va Hsp. by rewrite H2, H1. Qed.

Lemma uread_entry s t es va e :
  geti es (va / PGSIZE) = Some e ->
  uread s (Space t es) va = Some (load8 (pmem s) (e.1 + va mod PGSIZE)).
Proof. intros E. unfold uread. simpl. by rewrite E. Qed.

Lemma page_offset p va : in_page p (p + va mod PGSIZE).
Proof. unfold in_page. pose proof (Z.mod_pos_bound va PGSIZE ltac:(done)). lia. Qed.

Lemma geti_elem {A} (es : list A) i e : geti es i = Some e -> e ∈ es.
Proof. unfold geti. case_match; [apply list_elem_of_lookup_2|done]. Qed.

Lemma geti_nat {A} (es : list A) k : geti es (Z.of_nat k) = es !! k.
Proof. unfold geti. rewrite (proj2 (Z.leb_le 0 _)) by lia. by rewrite Nat2Z.id. Qed.

Lemma geti_inv {A} (es : list A) i e : geti es i = Some e -> es !! Z.to_nat i = Some e /\ 0 <= i.
Proof. unfold geti. destruct (Z.leb_spec 0 i); done. Qed.

Lemma uread_ext s s' sp va :
  (forall e a, e ∈ ents sp -> in_page e.1 a -> load8 (pmem s') a = load8 (pmem s) a) ->
  uread s' sp va = uread s sp va.
Proof.
  intros Hf. unfold uread. destruct (geti _ _) as [e|] eqn:E; [|done]. simpl. f_equal.
  apply (Hf e); [by eapply geti_elem|apply page_offset].
Qed.

Lemma data_same_reads W s s' : data_same W s s' -> reads_same W s s'.
Proof.
  intros Hd sp va Hsp. apply uread_ext. intros e a He. apply Hd, elem_of_entries. eauto.
Qed.

(** An entry at another index is among the others. *)
Lemma other_entry (es : list (Z * Z)) k i e' E :
  es !! i = Some e' -> i <> k -> e' ∈ take k es ++ drop (Datatypes.S k) es ++ E.
Proof.
  intros Hi Hne. apply elem_of_app. destruct (decide (i < k)%nat).
  - left. apply (list_elem_of_lookup_2 _ i). by rewrite lookup_take_lt.
  - right. apply elem_of_app. left. apply (list_elem_of_lookup_2 _ (i - Datatypes.S k)%nat).
    rewrite lookup_drop, <- Hi. f_equal. lia.
Qed.

(** ** The page a copyout writes *)

Definition writable (e : Z * Z) : Prop := has e.2 PTE_W = true \/ has e.2 PTE_COW = true.

Record owned_page s (l : list Z) t es R k (c : Z) s1 (l1 : list Z) es1 : Prop := OwnedPage {
  op_world : world s1 l1 (Space t es1 :: R);
  op_held : pheld s1 = pheld s;
  op_mine : forall va, uread s1 (Space t es1) va = uread s (Space t es) va;
  op_others : reads_same R s s1;
  op_len : length es1 = length es;
  op_rest : forall i, i <> k -> es1 !! i = es !! i;
  op_case : (c = -1 /\ l = [] /\ s1 = s /\ es1 = es) \/
            (c = 0 /\ exists e e1, es !! k = Some e /\ es1 !! k = Some e1 /\
               has e1.2 PTE_W = true /\ has e1.2 PTE_U = has e.2 PTE_U);
}.

Lemma own_page_refl s l t es R k c e :
  world s l (Space t es :: R) -> es !! k = Some e ->
  (c = 0 /\ has e.2 PTE_W = true) \/ (c = -1 /\ l = []) -> owned_page s l t es R k c s l es.
Proof.
  intros Hw Hk Hc. split; try done. destruct Hc as [[-> HW]|[-> ->]]; [right|by left].
  split; [done|]. by exists e, e.
Qed.

(** A space reads the same through a private copy of one of its pages. *)
Lemma copied_reads s s1 p t es R k e fl :
  es !! k = Some e ->
  (forall a, in_page p a -> load8 (pmem s1) a = load8 (pmem s) (e.1 + (a - p))) ->
  (forall e' a, e' ∈ take k es ++ drop (Datatypes.S k) es ++ entries R -> in_page e'.1 a ->
     load8 (pmem s1) a = load8 (pmem s) a) ->
  forall va, uread s1 (Space t (<[k := (p, fl)]> es)) va = uread s (Space t es) va.
Proof.
  intros Hk Hcopy Hoth va. apply lookup_lt_Some in Hk as Hlt.
  unfold uread. simpl. destruct (decide (va / PGSIZE = Z.of_nat k)) as [Ek|Ek].
  - rewrite Ek, !geti_nat, Hk, list_lookup_insert_eq by done. simpl. f_equal.
    rewrite Hcopy by apply page_offset. f_equal. lia.
  - assert (geti (<[k := (p, fl)]> es) (va / PGSIZE) = geti es (va / PGSIZE)) as ->.
    { unfold geti. destruct (Z.leb_spec 0 (va / PGSIZE)); [|done].
      by rewrite list_lookup_insert_ne by lia. }
    destruct (geti es (va / PGSIZE)) as [e'|] eqn:E'; [|done]. simpl. f_equal.
    apply geti_inv in E' as [E' Hpos]. apply (Hoth e'); [|apply page_offset].
    eapply other_entry; [done|lia].
Qed.

Lemma own_page s l t es R k e :
  world s l (Space t es :: R) -> es !! k = Some e -> writable e ->
  exists c s1 l1 es1, cowalloc (root t) (Z.of_nat k * PGSIZE) s = Done c s1 /\
    owned_page s l t es R k c s1 l1 es1.
Proof.
  intros Hw Hk Hwr. destruct (has e.2 PTE_COW) eqn:HC.
  2: { destruct Hwr as [HW|]; [|congruence]. exists 0, s, l, es. split.
       - rewrite (cowalloc_entry s l t es R k e) by (done || apply Hw). by rewrite HC.
       - eapply own_page_refl; eauto. }
  destruct l as [|p l].
  { exists (-1), s, [], es. split; [by eapply cowalloc_oom|]. eapply own_page_refl; eauto. }
  destruct (cowalloc_copy s p l t es R k e Hw Hk HC) as (s1 & l1 & E & Hh & Hw1 & Hcopy & Hoth & _).
  exists 0, s1, l1, (<[k := (p, own_flags e.2)]> es). split; [done|].
  apply lookup_lt_Some in Hk as Hlt.
  assert (Hok : entry_ok t e).
  { eapply wf_head_entry; [apply Hw|by eapply list_elem_of_lookup_2]. }
  split; try done.
  - by apply (copied_reads s s1 p t es R k e).
  - intros sp va Hsp. apply uread_ext. intros e' a He'. apply Hoth.
    rewrite !elem_of_app. right. right. apply elem_of_entries. eauto.
  - by rewrite length_insert.
  - intros i Hi. by rewrite list_lookup_insert_ne.
  - right. split; [done|]. exists e, (p, own_flags e.2).
    rewrite list_lookup_insert_eq by done. destruct Hok as (_ & _ & Hf & _).
    pose proof (own_flags_ok _ Hf) as Hc. rewrite !andb_true_iff in Hc.
    split; [done|]. split; [done|]. simpl. split; [tauto|]. apply Bool.eqb_prop. tauto.
Qed.

Lemma walkaddr_entry s l t es R k e :
  wf s l (Space t es :: R) -> es !! k = Some e ->
  walkaddr (root t) (Z.of_nat k * PGSIZE) s = Done (if has e.2 PTE_U then e.1 else 0) s.
Proof.
  intros Hw Hk. set (va := Z.of_nat k * PGSIZE).
  pose proof (wf_aspace _ _ _ Hw (Space t es) ltac:(by left)) as [Hr Hm Hok Hsz]. simpl in *.
  apply lookup_lt_Some in Hk as Hlt.
  assert (Hva : 0 <= va < MAXVA) by (unfold va, PGSIZE in *; lia).
  assert (He : entry_ok t e) by (eapply wf_head_entry; [done|by eapply list_elem_of_lookup_2]).
  pose proof (entry_word _ _ He) as (Hpa & HV & _). destruct He as (Hv & _ & Hf & _).
  assert (Hlk : lookup_pte (pmem s) t va = mkpte e.1 e.2) by (by apply Hm).
  destruct (lookup_present (pmem s) t va) as [a Ha]; [rewrite Hlk; by eapply has_nonzero|].
  pose proof (slot_pos _ _ _ _ Hr Ha).
  unfold walkaddr. rewrite Z.geb_leb, (proj2 (Z.leb_gt MAXVA va)) by lia. cbv iota.
  unfold bind at 1. rewrite (walk_slot s t va false a) by (done || lia). cbn [bindp].
  rewrite (proj2 (Z.eqb_neq a 0)) by lia. unfold bind at 1, rd64, gets. cbn [bindp].
  rewrite <- (lookup_slot (pmem s) _ _ _ Ha), Hlk, HV, Hpa.
  rewrite has_mkpte by (done || by apply valid_page_pa_ok). by destruct (has e.2 PTE_U).
Qed.

(** ** Storing into a page one PTE may write *)

Section Store.
Context (s : phys) (l : list Z) (t : ptree) (es : list (Z * Z)) (R : list space).
Context (k : nat) (e : Z * Z) (off : Z) (bs : list Z).
Context (Hworld : world s l (Space t es :: R)) (Hk : es !! k = Some e).
Context (HW : has e.2 PTE_W = true).
Context (Hoff : 0 <= off) (Hlen : off + Z.of_nat (length bs) <= PGSIZE).

Definition stored : phys := set_pmem (fun m => store_bytes m (e.1 + off) bs) s.

Lemma load8_stored a :
  load8 (pmem stored) a
  = if decide (e.1 + off <= a < e.1 + off + Z.of_nat (length bs))
    then u8 (nth (Z.to_nat (a - (e.1 + off))) bs 0) else load8 (pmem s) a.
Proof.
  unfold stored, store_bytes. simpl. unfold load8 at 1.
  destruct (Z.leb_spec (e.1 + off) a), (Z.ltb_spec a (e.1 + off + Z.of_nat (length bs)));
    simpl; case_decide; try lia; [apply u8_idem|done..].
Qed.

Lemma stored_frame : mem_frame (in_page e.1) (pmem s) (pmem stored).
Proof.
  intros a Ha. rewrite load8_stored, decide_False; [done|]. unfold in_page in Ha. lia.
Qed.

(** No other PTE names the page. *)
Lemma stored_alone e' : e' ∈ take k es ++ drop (Datatypes.S k) es ++ entries R -> e'.1 <> e.1.
Proof.
  intros He' Heq. destruct Hworld as [_ Hacc].
  pose proof (ac_write _ _ Hacc e) as Hone. rewrite (entries_lookup t es k e R) in Hone by done.
  specialize (Hone ltac:(by left) HW). rewrite occ_cons in Hone. unfold indic in Hone.
  rewrite decide_True in Hone by done. pose proof (occ_in _ _ He') as Hp. rewrite Heq in Hp. lia.
Qed.

Lemma stored_page p : p ∈ pages (Space t es :: R) \/ p ∈ l -> valid_page p /\ p <> e.1.
Proof.
  destruct Hworld as [Hw _].
  assert (He : e ∈ entries (Space t es :: R)).
  { apply in_entries_cons. left. by eapply list_elem_of_lookup_2. }
  intros [Hp|Hp]; split.
  - by eapply wf_page_valid.
  - intros ->. by apply (wf_data _ _ _ Hw e).
  - by apply (inv_valid _ _ _ (wf_inv _ _ _ Hw)).
  - intros ->. by apply (wf_entry_used _ _ _ Hw e).
Qed.

Lemma stored_bytes p a : valid_page p -> p <> e.1 -> in_page p a ->
  load8 (pmem stored) a = load8 (pmem s) a.
Proof.
  intros Hp Hne Ha. apply stored_frame. intros Hx. apply Hne.
  assert (valid_page e.1) as Hv.
  { destruct Hworld as [Hw _]. eapply (wf_entry_valid _ _ _ Hw), in_entries_cons.
    left. by eapply list_elem_of_lookup_2. }
  eapply pages_disjoint; [apply Hp|apply Hv|done..].
Qed.

Lemma stored_world : world stored l (Space t es :: R).
Proof.
  destruct Hworld as [Hw Hacc]. split; [|by destruct Hacc; split].
  pose proof Hw as [Hu Hi Hsp Hn Ht Hd Hr]. split; try done.
  - eapply kmem_inv_set_pmem; [done|apply stored_frame|].
    intros p a Hp Ha Hx. destruct (stored_page p) as [Hv Hne]; [by right|]. apply Hne.
    eapply pages_disjoint; [apply Hv| |done..].
    eapply (wf_entry_valid _ _ _ Hw), in_entries_cons. left. by eapply list_elem_of_lookup_2.
  - rewrite Forall_forall in Hsp |- *. intros sp Hin. eapply aspace_frame; [by apply Hsp|].
    intros p a Hp Ha. destruct (stored_page p) as [Hv Hne].
    { left. apply elem_of_pages. eauto. }
    by eapply stored_bytes.
Qed.

Lemma stored_others : reads_same R s stored.
Proof.
  intros sp va Hsp. apply uread_ext. intros e' a He' Ha. apply (stored_bytes e'.1); [| |done].
  - destruct Hworld as [Hw _]. eapply (wf_entry_valid _ _ _ Hw), in_entries_cons.
    right. apply elem_of_entries. eauto.
  - apply stored_alone. rewrite !elem_of_app. right. right. apply elem_of_entries. eauto.
Qed.

Lemma stored_mine va :
  uread stored (Space t es) va
  = writes (uread s (Space t es)) (Z.of_nat k * PGSIZE + off) bs va.
Proof.
  unfold writes. destruct (decide (va / PGSIZE = Z.of_nat k)) as [Ek|Ek].
  - assert (Hva : va = Z.of_nat k * PGSIZE + va mod PGSIZE) by (unfold PGSIZE in *; zdiv).
    rewrite !(uread_entry _ t es va e) by (by rewrite Ek, geti_nat).
    rewrite load8_stored. repeat case_decide; try lia; [|done].
    do 2 f_equal. f_equal. lia.
  - rewrite decide_False.
    2: { intros Hx. apply Ek. unfold PGSIZE in *. zdiv. }
    unfold uread. destruct (geti _ _) as [e'|] eqn:E'; [|done]. simpl in *. f_equal.
    apply geti_inv in E' as [E' Hpos]. destruct Hworld as [Hw _].
    apply (stored_bytes e'.1); [| |apply page_offset].
    + eapply (wf_entry_valid _ _ _ Hw), in_entries_cons. left. by eapply list_elem_of_lookup_2.
    + apply stored_alone. eapply other_entry; [done|lia].
Qed.
End Store.

(** ** copyout *)

Definition copyout_body (pagetable : Z) (x : Z * list Z) : M phys ((Z * list Z) + Z) :=
  let '(dstva, src) := x in
  if 0 <? Z.of_nat (length src) then
    let va0 := PGROUNDDOWN dstva in
    c <- cowalloc pagetable va0;;
    if c <? 0 then break (-1)
    else
      pa0 <- walkaddr pagetable va0;;
      if pa0 =? 0 then break (-1)
      else
        let n := Z.min (PGSIZE - (dstva - va0)) (Z.of_nat (length src)) in
        modify (set_pmem (fun m =>
          store_bytes m (pa0 + (dstva - va0)) (take (Z.to_nat n) src)));;;
        continue (va0 + PGSIZE, drop (Z.to_nat n) src)
  else break 0.

Lemma copyout_loop pagetable dstva src :
  copyout pagetable dstva src
  = loop (copy_fuel dstva (Z.of_nat (length src))) (copyout_body pagetable) (dstva, src).
Proof. done. Qed.

(** The writer's memory after copyout returns [r]. *)
Definition copyout_result (f f' : Z -> option Z) (dst : Z) (src : list Z) (r : Z) : Prop :=
  (r = 0 /\ forall va, f' va = writes f dst src va) \/
  (r = -1 /\ forall va, va < dst \/ dst + Z.of_nat (length src) <= va -> f' va = f va).

Definition copyout_post s t es R dst src (p : prog phys Z) : Prop :=
  exists r s' l' es', p = Done r s' /\ world s' l' (Space t es' :: R) /\ pheld s' = pheld s /\
    reads_same R s s' /\ length es' = length es /\
    copyout_result (uread s (Space t es)) (uread s' (Space t es')) dst src r.

Lemma writes_split f dst (n : nat) src va :
  writes (writes f dst (take n src)) (dst + Z.of_nat (length (take n src))) (drop n src) va
  = writes f dst src va.
Proof.
  unfold writes. rewrite length_take, length_drop.
  destruct (decide (dst <= va < dst + Z.of_nat (length src))) as [Hin|Hin].
  - destruct (decide (va < dst + Z.of_nat (n `min` length src))).
    + rewrite decide_False, decide_True by lia. do 2 f_equal.
      rewrite nth_firstn, (proj2 (Nat.ltb_lt _ _)) by lia. done.
    + rewrite decide_True by lia. do 2 f_equal. rewrite nth_skipn. f_equal. lia.
  - repeat rewrite decide_False by lia. done.
Qed.

Lemma copyout_result_step f f1 f' dst n src r :
  (forall va, f1 va = writes f dst (take n src) va) ->
  copyout_result f1 f' (dst + Z.of_nat (length (take n src))) (drop n src) r ->
  copyout_result f f' dst src r.
Proof.
  intros Hf [[-> Hr]|[-> Hr]]; [left|right]; (split; [done|]).
  - intros va. rewrite Hr, <- (writes_split f dst n). unfold writes at 1 2. by rewrite Hf.
  - intros va Hva. rewrite Hr by (rewrite length_take, length_drop in *; lia).
    rewrite Hf. unfold writes. rewrite decide_False; [done|]. rewrite length_take. lia.
Qed.

Lemma copyout_nothing s l t es R dst va fuel :
  world s l (Space t es :: R) -> (0 < fuel)%nat ->
  copyout_post s t es R dst [] (loop fuel (copyout_body (root t)) (va, []) s).
Proof.
  intros Hw Hf. destruct fuel as [|fuel]; [lia|]. exists 0, s, l, es. split; [done|].
  split_and!; try done. left. split; [done|]. intros vb. unfold writes. simpl.
  by rewrite decide_False by lia.
Qed.

(** What one iteration leaves behind. *)
Record chunk (s : phys) (t : ptree) (es : list (Z * Z)) (R : list space) (k : nat)
    (f : Z -> option Z) (s1 : phys) (l1 : list Z) (es1 : list (Z * Z)) : Prop := Chunk {
  ck_world : world s1 l1 (Space t es1 :: R);
  ck_held : pheld s1 = pheld s;
  ck_others : reads_same R s s1;
  ck_len : length es1 = length es;
  ck_rest : forall i, i <> k -> es1 !! i = es !! i;
  ck_mine : forall va, uread s1 (Space t es1) va = f va;
}.

Lemma chunk_owned s l t es R k c s1 l1 es1 :
  owned_page s l t es R k c s1 l1 es1 -> chunk s t es R k (uread s (Space t es)) s1 l1 es1.
Proof. intros []. by split. Qed.

Section Chunk.
Context (t : ptree) (R : list space) (dst : Z) (src : list Z).
Context (s : phys) (l : list Z) (es : list (Z * Z)).
Context (Hworld : world s l (Space t es :: R)) (Hdst : 0 <= dst) (Hsrc : 0 < Z.of_nat (length src)).

Let k := Z.to_nat (dst / PGSIZE).
Let off := dst - Z.of_nat k * PGSIZE.
Let n := Z.to_nat (Z.min (PGSIZE - off) (Z.of_nat (length src))).

Lemma chunk_bounds :
  PGROUNDDOWN dst = Z.of_nat k * PGSIZE /\ Z.of_nat k = dst / PGSIZE /\ 0 <= off < PGSIZE /\
  (0 < n)%nat /\ length (take n src) = n /\ off + Z.of_nat n <= PGSIZE.
Proof.
  assert (Hk : Z.of_nat k = dst / PGSIZE) by (unfold k; rewrite Z2Nat.id; [done|zdiv_page]).
  assert (Hoff : 0 <= off < PGSIZE) by (unfold off; zdiv_page).
  split; [by rewrite PGROUNDDOWN_eq, Hk|]. split; [done|]. split; [done|].
  rewrite length_take. unfold n. lia.
Qed.

Lemma copyout_chunk e : es !! k = Some e -> writable e ->
  (exists s1 l1 es1, copyout_body (root t) (dst, src) s = Done (inr (-1)) s1 /\
     chunk s t es R k (uread s (Space t es)) s1 l1 es1) \/
  (exists s1 l1 es1,
     copyout_body (root t) (dst, src) s = Done (inl (Z.of_nat k * PGSIZE + PGSIZE, drop n src)) s1 /\
     chunk s t es R k (writes (uread s (Space t es)) dst (take n src)) s1 l1 es1).
Proof.
  intros He Hwr. destruct chunk_bounds as (Hpg & _ & Hoff & Hn0 & Hn & Hfit).
  remember (copyout_body (root t) (dst, src) s) as out eqn:B.
  unfold copyout_body in B. rewrite (proj2 (Z.ltb_lt _ _) Hsrc), Hpg in B.
  destruct (own_page s l t es R k e Hworld He Hwr) as (c & s1 & l1 & es1 & E & Hop).
  unfold bind at 1 in B. rewrite E in B. cbn [bindp] in B.
  pose proof (chunk_owned _ _ _ _ _ _ _ _ _ _ Hop) as Hck.
  destruct Hop as [Hw1 Hh1 Hm1 Ho1 Hl1 Hr1 [(-> & -> & -> & ->)|(-> & e0 & e1 & _ & He1 & HW & _)]].
  { left. by exists s, l1, es. }
  change (0 <? 0) with false in B. cbv iota in B. unfold bind at 1 in B.
  rewrite (walkaddr_entry s1 l1 t es1 R k e1) in B by (done || apply Hw1). cbn [bindp] in B.
  destruct (has e1.2 PTE_U); [|left; by exists s1, l1, es1].
  assert (Hv : valid_page e1.1).
  { eapply (wf_entry_valid _ _ _ (proj1 Hw1)), in_entries_cons. left. by eapply list_elem_of_lookup_2. }
  pose proof (valid_page_pos _ Hv). rewrite (proj2 (Z.eqb_neq e1.1 0)) in B by lia.
  right. exists (stored s1 e1 off (take n src)), l1, es1. split; [by rewrite B|].
  assert (Hlen2 : off + Z.of_nat (length (take n src)) <= PGSIZE) by lia.
  destruct Hoff as [Hoff _]. split; try done.
  - by apply (stored_world s1 l1 t es1 R k e1).
  - eapply reads_same_trans; [exact Ho1|]. by apply (stored_others s1 l1 t es1 R k e1).
  - intros va. rewrite (stored_mine s1 l1 t es1 R k e1) by (done || lia).
    replace (Z.of_nat k * PGSIZE + off) with dst by (unfold off; lia).
    unfold writes. by rewrite Hm1.
Qed.
End Chunk.

Lemma copyout_loop_spec t R fuel : forall dst src s l es,
  world s l (Space t es :: R) -> 0 <= dst ->
  dst + Z.of_nat (length src) <= Z.of_nat (length es) * PGSIZE ->
  (forall i e, es !! i = Some e -> dst / PGSIZE <= Z.of_nat i ->
     Z.of_nat i * PGSIZE < dst + Z.of_nat (length src) -> writable e) ->
  (dst mod PGSIZE + Z.of_nat (length src)) / PGSIZE + 1 < Z.of_nat fuel ->
  copyout_post s t es R dst src (loop fuel (copyout_body (root t)) (dst, src) s).
Proof.
  induction fuel as [|fuel IH]; intros dst src s l es Hw Hdst Hend Hwr Hfuel; [zdiv_page|].
  destruct (Z.ltb_spec 0 (Z.of_nat (length src))) as [Hne|Hemp].
  2: { destruct src; [|simpl in Hemp; lia]. eapply copyout_nothing; [done|lia]. }
  destruct (chunk_bounds dst src Hdst Hne) as (_ & Hk & Hoff & Hn0 & Hn & Hfit).
  set (k := Z.to_nat (dst / PGSIZE)) in *. set (off := dst - Z.of_nat k * PGSIZE) in *.
  set (n := Z.to_nat (Z.min (PGSIZE - off) (Z.of_nat (length src)))) in *.
  destruct (lookup_lt_is_Some_2 es k) as [e He]; [zdiv_page|].
  cbn [loop]. unfold bind at 1.
  destruct (copyout_chunk t R dst src s l es Hw Hdst Hne e He)
    as [(s1 & l1 & es1 & E & [])|(s1 & l1 & es1 & E & [Hw1 Hh1 Ho1 Hl1 Hr1 Hm1])];
    [apply (Hwr k); [done|lia|zdiv_page]|..]; rewrite E; cbn [bindp].
  { exists (-1), s1, l1, es1. split; [done|]. split_and!; try done. right. auto. }
  assert (Hdone : copyout_post s1 t es1 R (dst + Z.of_nat n) (drop n src)
    (loop fuel (copyout_body (root t)) (Z.of_nat k * PGSIZE + PGSIZE, drop n src) s1)).
  { destruct (decide (Z.of_nat (length src) <= PGSIZE - off)) as [Hlast|Hmore].
    - rewrite (drop_ge src n) by lia. eapply copyout_nothing; [done|]. destruct fuel; [zdiv_page|lia].
    - replace (Z.of_nat k * PGSIZE + PGSIZE) with (dst + Z.of_nat n) by (unfold off in *; lia).
      assert (Hdrop : length (drop n src) = (length src - n)%nat) by apply length_drop.
      apply (IH _ _ _ l1); try done; [lia|lia| |].
      + intros i e' Hi Hge Hlt. rewrite Hr1 in Hi; [apply (Hwr i); [done|..]|]; zdiv_page.
      + zdiv_page. }
  destruct Hdone as (r & s' & l' & es' & E' & Hw' & Hh' & Ho' & Hl' & Hres).
  exists r, s', l', es'. split; [exact E'|]. split; [done|]. split; [by rewrite Hh'|].
  split; [by eapply reads_same_trans|]. split; [by rewrite Hl'|].
  eapply (copyout_result_step _ (uread s1 (Space t es1)) _ _ n); [done|by rewrite Hn].
Qed.

Lemma copy_fuel_enough dst len :
  0 <= dst -> 0 <= len -> (dst mod PGSIZE + len) / PGSIZE + 1 < Z.of_nat (copy_fuel dst len).
Proof. intros. unfold copy_fuel. rewrite Z2Nat.id; zdiv_page. Qed.

(** ** copyin *)

(** The [n] bytes a space reads from [va] on. *)
Definition user_bytes (s : phys) (sp : space) (va : Z) (n : nat) : list Z :=
  (fun i => default 0 (uread s sp (va + Z.of_nat i))) <$> seq 0 n.

Definition copyin_body (pagetable : Z) (x : Z * Z * list Z) : M phys (Z * Z * list Z + option (list Z)) :=
  let '(srcva, len, dst) := x in
  if 0 <? len then
    let va0 := PGROUNDDOWN srcva in
    pa0 <- walkaddr pagetable va0;;
    if pa0 =? 0 then break None
    else
      let n := Z.min (PGSIZE - (srcva - va0)) len in
      bs <- gets (fun s => bytes_at (pmem s) (pa0 + (srcva - va0)) (Z.to_nat n));;
      continue (va0 + PGSIZE, len - n, dst ++ bs)
  else break (Some dst).

Lemma copyin_loop pagetable srcva len :
  copyin pagetable srcva len = loop (copy_fuel srcva len) (copyin_body pagetable) (srcva, len, []).
Proof. done. Qed.

Lemma user_bytes_app s sp va n m :
  user_bytes s sp va (n + m) = user_bytes s sp va n ++ user_bytes s sp (va + Z.of_nat n) m.
Proof.
  unfold user_bytes. rewrite seq_app, fmap_app. f_equal.
  replace (seq (0 + n) m) with (Nat.add n <$> seq 0 m) by (rewrite fmap_add_seq; f_equal; lia).
  rewrite <- list_fmap_compose. apply list_fmap_ext. intros _ i _. simpl. do 2 f_equal. lia.
Qed.

Lemma bytes_at_user s t es k e off n va :
  es !! k = Some e -> va = Z.of_nat k * PGSIZE + off -> 0 <= off -> off + Z.of_nat n <= PGSIZE ->
  bytes_at (pmem s) (e.1 + off) n = user_bytes s (Space t es) va n.
Proof.
  intros Hk -> Hoff Hn. apply list_fmap_ext. intros j i Hi.
  assert (i < n)%nat. { apply list_elem_of_lookup_2, elem_of_seq in Hi. lia. }
  rewrite (uread_entry _ _ _ _ e).
  - simpl. f_equal. replace (Z.of_nat k * PGSIZE + off + Z.of_nat i) with
      (off + Z.of_nat i + Z.of_nat k * PGSIZE) by lia. rewrite Z_mod_plus_full, Z.mod_small by lia. lia.
  - assert ((Z.of_nat k * PGSIZE + off + Z.of_nat i) / PGSIZE = Z.of_nat k) as -> by zdiv_page.
    by rewrite geti_nat.
Qed.

Lemma copyin_loop_spec s l t es R fuel : forall src len acc,
  wf s l (Space t es :: R) -> 0 <= src -> 0 <= len -> src + len <= Z.of_nat (length es) * PGSIZE ->
  (forall i e, es !! i = Some e -> src / PGSIZE <= Z.of_nat i -> Z.of_nat i * PGSIZE < src + len ->
     has e.2 PTE_U = true) ->
  (src mod PGSIZE + len) / PGSIZE + 1 < Z.of_nat fuel ->
  loop fuel (copyin_body (root t)) (src, len, acc) s
  = Done (Some (acc ++ user_bytes s (Space t es) src (Z.to_nat len))) s.
Proof.
  induction fuel as [|fuel IH]; intros src len acc Hw Hsrc Hlen Hend HU Hfuel; [zdiv_page|].
  cbn [loop]. unfold bind at 1, copyin_body at 1.
  destruct (Z.ltb_spec 0 len) as [Hpos|Hz].
  2: { replace len with 0 by lia. simpl. by rewrite app_nil_r. }
  assert (Hl : 0 < Z.of_nat (length (replicate (Z.to_nat len) 0))) by (rewrite length_replicate; lia).
  destruct (chunk_bounds src _ Hsrc Hl) as (Hpg & Hk & Hoff & Hn0 & _ & Hfit).
  rewrite length_replicate, Z2Nat.id in Hn0, Hfit by lia. rewrite Hpg.
  set (k := Z.to_nat (src / PGSIZE)) in *. set (off := src - Z.of_nat k * PGSIZE) in *.
  destruct (lookup_lt_is_Some_2 es k) as [e He]; [zdiv_page|].
  unfold bind at 1. rewrite (walkaddr_entry s l t es R k e) by done. cbn [bindp].
  rewrite (HU k e He) by zdiv_page.
  assert (Hv : valid_page e.1).
  { eapply (wf_entry_valid _ _ _ Hw), in_entries_cons. left. by eapply list_elem_of_lookup_2. }
  pose proof (valid_page_pos _ Hv). rewrite (proj2 (Z.eqb_neq e.1 0)) by lia.
  unfold bind, gets, continue, ret. cbn [bindp]. set (n := Z.min (PGSIZE - off) len) in *.
  rewrite (bytes_at_user s t es k e off (Z.to_nat n) src) by (done || lia).
  replace (Z.to_nat len) with (Z.to_nat n + Z.to_nat (len - n))%nat by lia.
  rewrite user_bytes_app, app_assoc, Z2Nat.id by lia.
  destruct (decide (len <= PGSIZE - off)) as [Hlast|Hmore].
  - replace (len - n) with 0 by lia. destruct fuel as [|fuel]; [zdiv_page|].
    simpl. by rewrite app_nil_r.
  - replace (Z.of_nat k * PGSIZE + PGSIZE) with (src + n) by (unfold off in *; lia).
    apply IH; try done; [lia|lia|lia| |zdiv_page].
    intros i e' Hi Hge Hlt. apply (HU i); [done|zdiv_page..].
Qed.

End Copy.
