(* ===== verification/Grow.v ===== *)
(** Growing and shrinking an address space (uvmalloc, uvmdealloc).

    uvmalloc adds zeroed pages at the end of a space or, when memory runs out,
    takes back what it added; uvmdealloc gives the pages at the end back. *)

From S2P Require Import Prelude Mem Riscv Locks Kalloc Vm VmTree VmOps Space Cow Fault Copy.

Section Grow.
Context `{Layout}.

Lemma space_size s l t es R :
  wf s l (Space t es :: R) -> Z.of_nat (length es) * PGSIZE <= MAXVA.
Proof. intros Hw. by apply (wf_aspace _ _ _ Hw (Space t es) ltac:(by left)). Qed.

(** ** uvmdealloc *)

Lemma uvmdealloc_tail s l t es1 es2 R oldsz newsz :
  world s l (Space t (es1 ++ es2) :: R) -> newsz <= oldsz ->
  PGROUNDUP newsz = Z.of_nat (length es1) * PGSIZE ->
  PGROUNDUP oldsz = Z.of_nat (length (es1 ++ es2)) * PGSIZE ->
  exists s', uvmdealloc (root t) oldsz newsz s = Done newsz s' /\
    unmap_tail_post s l t es1 es2 R (Done tt s').
Proof.
  intros Hw Hle Hn Ho. pose proof (space_size _ _ _ _ _ (proj1 Hw)) as Hmax.
  change MAXVA with (2 ^ 38) in Hmax. rewrite length_app, Nat2Z.inj_add in Ho, Hmax.
  assert (Hsame : es2 = [] -> unmap_tail_post s l t es1 es2 R (Done tt s)).
  { intros ->. rewrite app_nil_r in Hw. exists s, l. split_and!; try done.
    - intros q _. simpl. lia.
    - intros vb _. unfold clear_range. rewrite decide_False; [done|]. simpl. lia. }
  unfold uvmdealloc. rewrite Z.geb_leb. destruct (Z.leb_spec oldsz newsz) as [Hge|Hlt].
  - assert (newsz = oldsz) as -> by lia. exists s. split; [done|]. apply Hsame.
    apply nil_length_inv. zdiv_page.
  - rewrite Hn, Ho. unfold when. destruct es2 as [|e es2].
    + simpl length. rewrite Z.add_0_r, Z.ltb_irrefl. exists s. split; [done|by apply Hsame].
    + rewrite (proj2 (Z.ltb_lt _ _)) by (simpl length; zdiv_page).
      replace (i32 _) with (Z.of_nat (length (e :: es2))).
      2: { rewrite Z.mul_add_distr_r, Z.add_simpl_l, Z.div_mul by done.
           rewrite i32_small; [done|]. zdiv_page. }
      destruct (uvmunmap_tail s l t es1 (e :: es2) R Hw) as (s' & l' & E & Hrest).
      exists s'. split; [unfold bind; by rewrite E|]. by exists s', l'.
Qed.

(** ** One page of uvmalloc *)

Definition user_perm (xperm : Z) : Z := Z.lor (Z.lor PTE_R PTE_U) xperm.

(** A page put on the free list again before it was mapped. *)
Lemma kfree_fresh s t es R p :
  wf s [] (Space t es :: R) -> acct_on s (entries (Space t es :: R)) ->
  valid_page p -> p ∉ pages (Space t es :: R) -> refs s p = 1 ->
  (forall e, e ∈ entries (Space t es :: R) -> e.1 <> p) ->
  exists s' l', kfree p s = Done tt s' /\ world s' l' (Space t es :: R) /\ pheld s' = pheld s /\
    data_same (Space t es :: R) s s' /\ l' ≡ₚ [p] /\
    (forall va, lookup_pte (pmem s') t va = lookup_pte (pmem s) t va).
Proof.
  intros Hw Hacc Hp Hpp Hp1 Hne.
  pose proof (wf_owned _ _ _ Hw (Space t es) ltac:(by left)) as Ho. simpl in Ho.
  destruct (kfree_shrinks s [] t p Ho Hp) as (s' & l' & E & Hs & Hrefs & Hlk & Hsub).
  { intros Hx. apply Hpp, in_pages_cons. by left. }
  { lia. }
  assert (Hkeep : forall q, valid_page q -> q <> p -> refs s' q = refs s q).
  { intros q Hq Hqp. rewrite Hrefs by done. rewrite decide_False by congruence. lia. }
  assert (Hent : forall e, e ∈ entries (Space t es :: R) -> refs s' e.1 = refs s e.1).
  { intros e He. apply Hkeep; [by eapply wf_entry_valid|by apply Hne]. }
  pose proof (wf_aspace _ _ _ Hw (Space t es) ltac:(by left)) as [_ Hm _ Hsz]. simpl in Hm, Hsz.
  destruct (wf_shrinks s [] s' l' t es es R) as [Hw' Hd]; try done.
  - intros i e Hi. rewrite Hlk. by apply Hm.
  - intros q Hq. assert (Hq' : q ∈ pages (Space t es :: R)) by (apply in_pages_cons; by right).
    rewrite Hkeep; [by apply (wf_tref _ _ _ Hw)|by eapply wf_page_valid|by intros ->].
  - intros e He. change (e ∈ entries (Space t es :: R)) in He. rewrite Hent by done.
    by apply (wf_dref _ _ _ Hw).
  - exists s', l'. split; [done|]. split; [split; [done|]|].
    + apply acct_acct_on. destruct Hacc as [Ha Hb]. split; [|done].
      intros e He. rewrite Hent by done. auto.
    + split; [apply Hs|]. split; [done|]. split; [|done].
      pose proof (wf_inv _ _ _ Hw') as Hi'. apply NoDup_Permutation; [apply Hi'|apply NoDup_singleton|].
      intros q. rewrite list_elem_of_singleton. split.
      * intros [Hq|]%Hsub; [by apply elem_of_nil in Hq|done].
      * intros ->. apply (inv_free _ _ _ Hi'); [done|]. rewrite Hrefs by done. rewrite decide_True by done. lia.
Qed.

(** One iteration of uvmalloc's loop. *)
Definition alloc_body (pagetable oldsz newsz xperm a : Z) : M phys (Z + Z) :=
  if a <? newsz then
    mem <- kalloc;;
    if mem =? 0 then
      uvmdealloc pagetable a oldsz;;;
      break 0
    else
      fill mem 0;;;
      r <- mappages pagetable a PGSIZE mem (Z.lor (Z.lor PTE_R PTE_U) xperm);;
      if negb (r =? 0) then
        kfree mem;;;
        uvmdealloc pagetable a oldsz;;;
        break 0
      else continue (a + PGSIZE)
  else break newsz.

Lemma uvmalloc_loop pagetable oldsz newsz xperm :
  oldsz <= newsz ->
  uvmalloc pagetable oldsz newsz xperm
  = loop (Z.to_nat ((newsz - PGROUNDUP oldsz) / PGSIZE + 2))
      (alloc_body pagetable (PGROUNDUP oldsz) newsz xperm) (PGROUNDUP oldsz).
Proof. intros Hle. unfold uvmalloc. by rewrite (proj2 (Z.ltb_ge _ _) Hle). Qed.

Section Page.
Context (s : phys) (p : Z) (l : list Z) (t : ptree) (es : list (Z * Z)) (R : list space).
Context (xperm : Z).
Context (Hworld : world s (p :: l) (Space t es :: R)).
Context (Hx : 0 <= xperm < 1024).

Let va := Z.of_nat (length es) * PGSIZE.
Let fl := Z.lor (user_perm xperm) PTE_V.

Context (Hfree : has (lookup_pte (pmem s) t va) PTE_V = false).
Context (Hmax : va + PGSIZE <= MAXVA).

Definition zeroed : phys := set_pmem (fun m => mset m p 0 PGSIZE) (allocated p s).

Lemma page_flags : 0 <= user_perm xperm < 1024 /\ 0 <= fl < 1024 /\ has fl PTE_V = true /\ fl <> PTE_V.
Proof.
  pose proof (lor_lt_pow2 (Z.lor PTE_R PTE_U) xperm 10 ltac:(lia) ltac:(done) ltac:(lia)) as H1.
  pose proof (lor_lt_pow2 _ PTE_V 10 ltac:(lia) H1 ltac:(done)) as H2.
  unfold fl. split; [exact H1|]. split; [exact H2|].
  split; [rewrite has_lor; apply orb_true_iff; by right|].
  intros Heq. assert (HR : has (Z.lor (user_perm xperm) PTE_V) PTE_R = true).
  { unfold user_perm. by rewrite !has_lor. }
  rewrite Heq in HR. done.
Qed.

Lemma zeroed_wf :
  wf zeroed l (Space t es :: R) /\ data_same (Space t es :: R) s zeroed /\
  (forall vb, lookup_pte (pmem zeroed) t vb = lookup_pte (pmem s) t vb) /\
  (forall q, valid_page q -> refs zeroed q = if decide (p = q) then 1 else refs s q) /\
  (forall a, in_page p a -> load8 (pmem zeroed) a = 0).
Proof.
  destruct Hworld as [Hw _].
  destruct (kalloc_inv_cons _ _ _ (wf_unlocked _ _ _ Hw) (wf_inv _ _ _ Hw)) as (_ & _ & Hp & Hp0 & Hpl).
  pose proof (wf_owned _ _ _ Hw (Space t es) ltac:(by left)) as Ho. simpl in Ho.
  pose proof (wf_aspace _ _ _ Hw (Space t es) ltac:(by left)) as [Hr Hm Hok Hsz]. simpl in *.
  assert (Hf : mem_frame (in_page p) (pmem (allocated p s)) (mset (pmem (allocated p s)) p 0 PGSIZE))
    by apply frame_mset.
  pose proof (fresh_extends s p l t (fun m => mset m p 0 PGSIZE) Ho Hf) as He.
  assert (Hlk : forall vb, lookup_pte (pmem zeroed) t vb = lookup_pte (pmem s) t vb).
  { intros vb. apply lookup_pte_ext. intros q a Hq Ha.
    unfold zeroed. simpl. rewrite frame_mset; [apply frame_mset|].
    all: intros Hpa; apply (owned_not_free _ _ _ _ Ho Hq); rewrite (pages_disjoint q p a);
      try done; [by left|by apply (rep_valid _ _ Hr)|apply Hp]. }
  destruct (wf_extends s (p :: l) zeroed l t t es es R) as [Hw' Hd]; try done.
  - intros i e' Hi. rewrite Hlk. by apply Hm.
  - intros e' He'. by eapply wf_head_entry.
  - split; [done|]. split; [done|]. split; [done|]. split.
    + intros q Hq. change (refs zeroed q) with (refs (allocated p s) q).
      rewrite refs_allocated, Hp0 by (apply Hp || apply Hq). done.
    + intros a Ha. unfold zeroed, in_page in *. simpl. rewrite load8_mset.
      by rewrite (proj2 (Z.leb_le p a)), (proj2 (Z.ltb_lt a _)) by lia.
Qed.
Lemma page_facts : valid_page p /\ (p ∉ l) /\ (p ∉ pages (Space t es :: R)) /\ 0 <= va < MAXVA /\
  (forall e, e ∈ entries (Space t es :: R) -> valid_page e.1 /\ e.1 <> p /\ refs zeroed e.1 = refs s e.1).
Proof.
  destruct Hworld as [Hw _].
  destruct (kalloc_inv_cons _ _ _ (wf_unlocked _ _ _ Hw) (wf_inv _ _ _ Hw)) as (_ & _ & Hp & _ & Hpl).
  destruct zeroed_wf as (_ & _ & _ & Hrefs & _).
  split; [done|]. split; [done|]. split; [|split; [unfold va, PGSIZE in *; lia|]].
  - intros Hpp%(wf_page_used _ _ _ Hw). apply Hpp. by left.
  - intros e He. assert (Hv : valid_page e.1) by (by eapply wf_entry_valid).
    assert (Hne : e.1 <> p).
    { intros Heq. apply (wf_entry_used _ _ _ Hw) in He. apply He. rewrite Heq. by left. }
    split_and!; try done. rewrite Hrefs by done. by rewrite decide_False by congruence.
Qed.

Definition grown_step (oldsz newsz : Z) : Prop :=
  exists s' l' t', alloc_body (root t) oldsz newsz xperm va s = Done (inl (va + PGSIZE)) s' /\
    root t' = root t /\ pheld s' = pheld s /\
    world s' l' (Space t' (es ++ [(p, fl)]) :: R) /\ data_same (Space t es :: R) s s' /\
    (forall a, in_page p a -> load8 (pmem s') a = 0) /\ grew l l' t t' 2 /\
    same_map (lookup_pte (pmem s') t') (upd_pte (lookup_pte (pmem s) t) va (mkpte p fl)).

Definition stopped_step (oldsz newsz : Z) : Prop :=
  exists s' l' t', alloc_body (root t) oldsz newsz xperm va s
      = bind (uvmdealloc (root t) va oldsz) (fun _ => break 0) s' /\
    root t' = root t /\ pheld s' = pheld s /\
    world s' l' (Space t' es :: R) /\ data_same (Space t es :: R) s s' /\
    (length l < 2)%nat /\ exists g, tpages t' ≡ₚ g ++ tpages t /\ p :: l ≡ₚ g ++ l'.

(** The body up to the call of mappages. *)
Lemma alloc_body_map oldsz newsz : va < newsz ->
  alloc_body (root t) oldsz newsz xperm va s
  = bindp (mappages (root t) va PGSIZE p (user_perm xperm) zeroed) (fun r =>
      if negb (r =? 0) then
        kfree p;;; uvmdealloc (root t) va oldsz;;; break 0
      else continue (va + PGSIZE)).
Proof.
  intros Hlt. destruct page_facts as (Hp & _). pose proof (valid_page_pos p Hp).
  destruct Hworld as [Hw _].
  unfold alloc_body. rewrite (proj2 (Z.ltb_lt _ _) Hlt). unfold bind at 1.
  destruct (kalloc_inv_cons s p l) as [-> _]; try apply Hw. cbn [bindp].
  unfold fill. rewrite (proj2 (Z.eqb_neq p 0)) by lia. done.
Qed.

Lemma acct_zeroed : acct_on zeroed (entries (Space t es :: R)).
Proof.
  destruct Hworld as [_ Hacc]. apply acct_acct_on in Hacc. destruct Hacc as [Ha Hb].
  split; [|done]. intros e He. destruct page_facts as (_ & _ & _ & _ & Hne).
  destruct (Hne e He) as (_ & _ & ->). auto.
Qed.

(** After mappages grew the page table. *)
Section Mapped.
Context (s2 : phys) (l2 : list Z) (t' : ptree) (He : extends zeroed s2 l l2 t t').

Lemma mapped_refs e : e ∈ entries (Space t es :: R) -> refs s2 e.1 = refs zeroed e.1.
Proof.
  intros Hin. destruct zeroed_wf as (Hw1 & _). destruct page_facts as (_ & _ & _ & _ & Hne).
  apply (ext_refs _ _ _ _ _ _ He); [by apply Hne|by eapply (wf_entry_used _ _ _ Hw1)].
Qed.

Lemma mapped_acct : acct_on s2 (entries (Space t es :: R)).
Proof.
  destruct acct_zeroed as [Ha Hb]. split; [|done]. intros e Hin.
  rewrite mapped_refs by done. auto.
Qed.

Lemma mapped_p : refs s2 p = 1.
Proof.
  destruct page_facts as (Hp & Hpl & _). destruct zeroed_wf as (_ & _ & _ & Hr1 & _).
  rewrite (ext_refs _ _ _ _ _ _ He), Hr1 by done. by rewrite decide_True.
Qed.

(** The page was mapped. *)
Lemma mapped_grown :
  same_map (lookup_pte (pmem s2) t') (upd_pte (lookup_pte (pmem zeroed) t) va (mkpte p fl)) ->
  world s2 l2 (Space t' (es ++ [(p, fl)]) :: R) /\ data_same (Space t es :: R) s s2 /\
  (forall a, in_page p a -> load8 (pmem s2) a = 0).
Proof.
  intros Hmap. destruct page_facts as (Hp & Hpl & Hpp & Hva & Hne).
  destruct zeroed_wf as (Hw1 & Hd1 & _ & Hr1 & Hz1). destruct page_flags as (_ & Hfl).
  pose proof (wf_aspace _ _ _ Hw1 (Space t es) ltac:(by left)) as [_ Hm _ _]. simpl in Hm.
  rewrite in_pages_cons in Hpp. simpl in Hpp.
  destruct (wf_extends zeroed l s2 l2 t t' es (es ++ [(p, fl)]) R) as [Hw2 Hd2]; try done.
  - apply (maps_snoc (lookup_pte (pmem zeroed) t) 0 es); try done. unfold va, PGSIZE in *. lia.
  - rewrite length_app. simpl. unfold va, PGSIZE in *. lia.
  - intros e [Hin| ->%list_elem_of_singleton]%elem_of_app; [by eapply wf_head_entry|]. simpl.
    split; [|split; [by rewrite Hr1, decide_True|auto]].
    unfold entry_ok. simpl. split; [done|]. split; [auto|done].
  - split; [split; [done|]|split].
    + apply acct_acct_on. pose proof mapped_acct as Hacc2. rewrite entries_cons in Hacc2 |- *.
      simpl in *. rewrite <- app_assoc. simpl. rewrite <- Permutation_middle.
      apply acct_add; [done| |apply mapped_p].
      destruct (Z.eq_dec (occ p (es ++ entries R)) 0) as [|Hnz]; [done|].
      apply occ_pos in Hnz as (e & Hin & Heq). by destruct (Hne e Hin) as (_ & Hx' & _).
    + eapply data_same_trans; [done|]. eapply data_same_incl; [|exact Hd2].
      intros e Hin. exists e. split; [|done]. rewrite in_entries_cons in Hin |- *. simpl in *.
      rewrite elem_of_app. tauto.
    + intros a Hain. rewrite <- (Hz1 a Hain). apply (Hd2 (p, fl)); [|done].
      rewrite in_entries_cons. simpl. left. apply elem_of_app. right. by left.
Qed.

(** The page was not mapped and is freed again. *)
Lemma mapped_undone : l2 = [] ->
  same_map (lookup_pte (pmem s2) t') (lookup_pte (pmem zeroed) t) ->
  exists s3 l3, kfree p s2 = Done tt s3 /\ world s3 l3 (Space t' es :: R) /\
    pheld s3 = pheld s2 /\ data_same (Space t es :: R) s s3 /\ l3 ≡ₚ [p] /\
    (forall vb, lookup_pte (pmem s3) t' vb = lookup_pte (pmem s2) t' vb).
Proof.
  intros Hl2 Hmap. destruct page_facts as (Hp & Hpl & Hpp & Hva & Hne).
  pose proof mapped_acct as Hacc2. pose proof mapped_p as Hp2. revert He. rewrite Hl2. intros He'.
  destruct zeroed_wf as (Hw1 & Hd1 & _ & Hr1 & _).
  pose proof (wf_aspace _ _ _ Hw1 (Space t es) ltac:(by left)) as [_ Hm _ Hsz]. simpl in Hm, Hsz.
  rewrite in_pages_cons in Hpp. simpl in Hpp.
  destruct (wf_extends zeroed l s2 [] t t' es es R Hw1 He') as [Hw2 Hd2]; try done.
  - by apply (maps_same (lookup_pte (pmem zeroed) t)).
  - intros e Hin. by eapply wf_head_entry.
  - destruct (kfree_fresh s2 t' es R p Hw2) as (s3 & l3 & E & Hw3 & Hh3 & Hd3 & Hl3 & Hlk3); try done.
    + rewrite in_pages_cons. simpl.
      intros [[Hx'|Hx']%(ext_new _ _ _ _ _ _ He')|]; auto.
    + intros e Hin. by apply Hne.
    + exists s3, l3. split_and!; try done.
      eapply data_same_trans; [done|]. by eapply data_same_trans.
Qed.
End Mapped.

Lemma alloc_step oldsz newsz : va < newsz -> grown_step oldsz newsz \/ stopped_step oldsz newsz.
Proof.
  intros Hlt. destruct page_facts as (Hp & Hpl & Hpp & Hva & Hne).
  destruct zeroed_wf as (Hw1 & _ & Hlk1 & _). destruct page_flags as (Hperm & Hfl).
  pose proof (wf_owned _ _ _ Hw1 (Space t es) ltac:(by left)) as Ho. simpl in Ho.
  assert (Hal : va mod PGSIZE = 0) by apply Z_mod_mult.
  destruct (mappages_page zeroed l t va p (user_perm xperm) Ho Hva Hal)
    as (r & s2 & l2 & t' & Em & He & Hlen & Hcase);
    [by apply valid_page_pa_ok|done|by rewrite Hlk1|]. fold fl in Hcase.
  pose proof (alloc_body_map oldsz newsz Hlt) as Hbody. rewrite Em in Hbody. cbn [bindp] in Hbody.
  pose proof (ext_root _ _ _ _ _ _ He) as Hroot. pose proof (ext_held _ _ _ _ _ _ He) as Hheld.
  destruct Hcase as [[-> Hmap]|(-> & Hl2 & Hlt2 & Hmap)]; [left|right].
  - destruct (mapped_grown s2 l2 t' He Hmap) as (Hw2 & Hd2 & Hz2).
    exists s2, l2, t'. split_and!; try done.
    intros vb Hvb. rewrite Hmap by done. unfold upd_pte. case_decide; [done|]. apply Hlk1.
  - destruct (mapped_undone s2 l2 t' He Hl2 Hmap) as (s3 & l3 & E & Hw3 & Hh3 & Hd3 & Hl3 & Hlk3).
    exists s3, l3, t'. split.
    { rewrite Hbody. change (negb (-1 =? 0)) with true. cbv iota. unfold bind at 1. by rewrite E. }
    split; [done|]. split; [by rewrite Hh3, Hheld|]. split; [done|]. split; [done|]. split; [done|].
    destruct Hlen as (g & -> & Eg & _). exists g. split; [done|]. rewrite Hl2, app_nil_r, Hl3.
    apply Permutation_cons_append.
Qed.
End Page.

(** ** uvmalloc *)

Lemma PGROUNDUP_pages n : 0 <= n -> n * PGSIZE <= MAXVA -> PGROUNDUP (n * PGSIZE) = n * PGSIZE.
Proof.
  intros Hn Hm. change MAXVA with (2 ^ 38) in Hm.
  apply PGROUNDUP_id; [unfold PGSIZE; lia|unfold PGSIZE in *; lia|apply Z_mod_mult].
Qed.

Definition zero_page (s : phys) (p : Z) : Prop := forall a, in_page p a -> load8 (pmem s) a = 0.

(** What uvmalloc run from [n0 + length new] pages on achieves: [g] are the pages that
    the page table has grown by. *)
Definition alloc_post s l (t : ptree) (es new : list (Z * Z)) (R : list space) (m : nat) xperm newsz
    (p : prog phys Z) : Prop :=
  exists r s' l' t' g, p = Done r s' /\ root t' = root t /\ pheld s' = pheld s /\
    data_same (Space t es :: R) s s' /\ tpages t' ≡ₚ g ++ tpages t /\
    ((r = newsz /\ exists new', length (new ++ new') = m /\
        Forall (fun e => e.2 = Z.lor (user_perm xperm) PTE_V /\ zero_page s' e.1) (new ++ new') /\
        l ≡ₚ g ++ new'.*1 ++ l' /\ world s' l' (Space t' (es ++ new ++ new') :: R)) \/
     (r = 0 /\ (length l < 3 * (m - length new))%nat /\ new.*1 ++ l ≡ₚ g ++ l' /\
        world s' l' (Space t' es :: R))).

Lemma occ_once (es : list (Z * Z)) q : NoDup es.*1 -> occ q es = if decide (q ∈ es.*1) then 1 else 0.
Proof.
  induction es as [|e es IH]; intros Hnd; [done|]. cbn [occ]. rewrite fmap_cons in *.
  apply NoDup_cons in Hnd as [Hn Hnd]. rewrite IH by done. destruct (decide (e.1 = q)) as [<-|Hne].
  - rewrite decide_False, decide_True by (done || by left). done.
  - destruct (decide (q ∈ es.*1)) as [Hq|Hq]; [rewrite decide_True by (by right); done|].
    rewrite decide_False; [done|]. intros [->|]%elem_of_cons; auto.
Qed.

(** Pages given back, each used by one PTE only. *)
Lemma unmapped_free s l s' l' t t' es new R :
  world s l (Space t (es ++ new) :: R) -> wf s' l' (Space t' es :: R) -> (forall q, q ∈ l -> q ∈ l') ->
  (forall q, valid_page q -> refs s' q = refs s q - occ q new) ->
  NoDup new.*1 -> (forall e, e ∈ es ++ entries R -> e.1 ∉ new.*1) -> l' ≡ₚ new.*1 ++ l.
Proof.
  intros [Hw Hacc] Hw' Hsub Hrefs Hnd Hne.
  pose proof (wf_inv _ _ _ Hw) as Hi. pose proof (wf_inv _ _ _ Hw') as Hi'.
  assert (Hin : forall q, q ∈ new.*1 -> exists e, e ∈ new /\ e.1 = q).
  { intros q (e & -> & He)%list_elem_of_fmap. by exists e. }
  assert (Hent : forall e, e ∈ new -> e ∈ entries (Space t (es ++ new) :: R)).
  { intros e He. rewrite in_entries_cons. left. apply elem_of_app. by right. }
  assert (Hone : forall q, q ∈ new.*1 -> valid_page q /\ refs s q = 1).
  { intros q Hq. destruct (Hin q Hq) as (e & He & <-). split; [by apply (wf_entry_valid _ _ _ Hw), Hent|].
    rewrite (ac_refs _ _ Hacc e) by auto. rewrite entries_cons. cbn [ents]. rewrite !occ_app, (occ_once new) by done.
    rewrite decide_True by done.
    assert (H0 : occ e.1 (es ++ entries R) = 0).
    { destruct (Z.eq_dec (occ e.1 (es ++ entries R)) 0) as [|Hp]; [done|]. apply occ_pos in Hp as (e' & He' & Ee).
      exfalso. apply (Hne e' He'). by rewrite Ee. }
    rewrite occ_app in H0. lia. }
  apply NoDup_Permutation; [apply Hi'| |].
  - apply NoDup_app. split; [done|]. split; [|apply Hi]. intros q Hq Hl. destruct (Hone q Hq) as [Hv H1].
    apply (inv_free _ _ _ Hi) in Hl; [lia|done].
  - intros q. rewrite elem_of_app. split.
    + intros Hq. destruct (decide (q ∈ new.*1)) as [Hn|Hn]; [by left|right].
      assert (Hv : valid_page q) by (by apply (inv_valid _ _ _ Hi')).
      apply (inv_free _ _ _ Hi' q Hv) in Hq. rewrite Hrefs, occ_once, decide_False in Hq by done.
      apply (inv_free _ _ _ Hi q Hv). lia.
    + intros [Hq|Hq]; [|by apply Hsub]. destruct (Hone q Hq) as [Hv H1]. apply (inv_free _ _ _ Hi' q Hv).
      rewrite Hrefs, occ_once, decide_True by done. lia.
Qed.

Lemma zero_pages_same s s' t es new R xperm :
  data_same (Space t (es ++ new) :: R) s s' ->
  Forall (fun e : Z * Z => e.2 = Z.lor (user_perm xperm) PTE_V /\ zero_page s e.1) new ->
  Forall (fun e => e.2 = Z.lor (user_perm xperm) PTE_V /\ zero_page s' e.1) new.
Proof.
  intros Hd Hz. rewrite Forall_forall in Hz |- *. intros e He.
  destruct (Hz e He) as [Hf Hze]. split; [done|]. intros a Ha. rewrite <- (Hze a Ha).
  apply (Hd e); [|done]. rewrite in_entries_cons. simpl. left. apply elem_of_app. by right.
Qed.

Lemma data_same_prefix t t' es new R s s' :
  data_same (Space t (es ++ new) :: R) s s' -> data_same (Space t' es :: R) s s'.
Proof.
  apply data_same_incl. intros e He. exists e. split; [|done].
  rewrite in_entries_cons in He |- *. simpl in *. rewrite elem_of_app. tauto.
Qed.

Section Loop.
Context (es : list (Z * Z)) (R : list space) (xperm newsz : Z) (m : nat).
Let n0 := Z.of_nat (length es).
Context (Hx : 0 <= xperm < 1024) (Hmax : (n0 + Z.of_nat m) * PGSIZE <= MAXVA).
Context (Hnew : forall i, i * PGSIZE < newsz <-> i < n0 + Z.of_nat m).

(** The pages added so far are distinct and in no other PTE. *)
Definition fresh (new : list (Z * Z)) : Prop :=
  NoDup new.*1 /\ forall e, e ∈ es ++ entries R -> e.1 ∉ new.*1.

Lemma alloc_finish s l t new :
  length new = m -> world s l (Space t (es ++ new) :: R) ->
  Forall (fun e => e.2 = Z.lor (user_perm xperm) PTE_V /\ zero_page s e.1) new ->
  alloc_post s l t es new R m xperm newsz (Done newsz s).
Proof.
  intros Hlen Hw Hz. exists newsz, s, l, t, []. split_and!; try done. left. split; [done|].
  exists []. by rewrite app_nil_r.
Qed.

(** What was added is taken back. *)
Lemma alloc_undo s l t new fuel :
  (length new < m)%nat -> (length l < 3)%nat -> fresh new -> world s l (Space t (es ++ new) :: R) ->
  alloc_post s l t es new R m xperm newsz
    (bindp (bind (uvmdealloc (root t) ((n0 + Z.of_nat (length new)) * PGSIZE) (n0 * PGSIZE))
              (fun _ => break 0) s) (fun r => match r with
       | inl x => loop fuel (alloc_body (root t) (n0 * PGSIZE) newsz xperm) x
       | inr a => ret a
       end)).
Proof.
  intros Hlt Hl [Hf1 Hf2] Hw. destruct (uvmdealloc_tail s l t es new R
    ((n0 + Z.of_nat (length new)) * PGSIZE) (n0 * PGSIZE) Hw) as (s' & E & s'' & l' & Es & Hw' & Hd & Hh & Hsub & Hrefs & _).
  - unfold PGSIZE. lia.
  - apply PGROUNDUP_pages; unfold n0, PGSIZE in *; lia.
  - rewrite length_app, Nat2Z.inj_add. fold n0. apply PGROUNDUP_pages; unfold n0, PGSIZE in *; lia.
  - injection Es as <-. exists 0, s', l', t, []. split; [unfold bind; by rewrite E|].
    split_and!; try done. right. split; [done|]. split; [lia|]. split; [|done].
    symmetry. by apply (unmapped_free s l s' l' t t es new R Hw (proj1 Hw')).
Qed.

Lemma fresh_snoc s p l t new fl :
  world s (p :: l) (Space t (es ++ new) :: R) -> fresh new -> fresh (new ++ [(p, fl)]).
Proof.
  intros [Hw _] [Hf1 Hf2].
  assert (Hp : forall e, e ∈ es ++ new ++ entries R -> e.1 <> p).
  { intros e He Ep. apply (wf_entry_used _ _ _ Hw e); [|rewrite Ep; by left].
    rewrite entries_cons. cbn [ents]. by rewrite <- app_assoc. }
  split; rewrite fmap_app.
  - apply NoDup_app. split; [done|]. split; [|apply NoDup_singleton].
    intros q (e & -> & He)%list_elem_of_fmap Hq%list_elem_of_singleton. apply (Hp e); [|done].
    apply elem_of_app. right. apply elem_of_app. by left.
  - intros e He [Hq|Hq%list_elem_of_singleton]%elem_of_app; [by apply (Hf2 e)|]. apply (Hp e); [|done].
    apply elem_of_app in He as [He|He]; apply elem_of_app; [by left|right; apply elem_of_app; by right].
Qed.

Lemma alloc_loop fuel : forall s l t new,
  (m - length new < fuel)%nat -> (length new <= m)%nat -> fresh new ->
  world s l (Space t (es ++ new) :: R) ->
  (forall i, n0 + Z.of_nat (length new) <= i < n0 + Z.of_nat m ->
     has (lookup_pte (pmem s) t (i * PGSIZE)) PTE_V = false) ->
  Forall (fun e => e.2 = Z.lor (user_perm xperm) PTE_V /\ zero_page s e.1) new ->
  alloc_post s l t es new R m xperm newsz
    (loop fuel (alloc_body (root t) (n0 * PGSIZE) newsz xperm) ((n0 + Z.of_nat (length new)) * PGSIZE) s).
Proof.
  induction fuel as [|fuel IH]; intros s l t new Hfuel Hle Hfr Hw Hun Hz; [lia|]. cbn [loop].
  unfold bind at 1. destruct (decide (length new = m)) as [Heq|Hne].
  { unfold alloc_body at 1. rewrite (proj2 (Z.ltb_ge _ _)) by (apply Z.nlt_ge; rewrite Hnew; lia).
    by eapply alloc_finish. }
  assert (Hva : (n0 + Z.of_nat (length new)) * PGSIZE < newsz) by (apply Hnew; lia).
  assert (Hlen : Z.of_nat (length (es ++ new)) = n0 + Z.of_nat (length new)).
  { rewrite length_app. unfold n0. lia. }
  destruct l as [|p l].
  { unfold alloc_body at 1. rewrite (proj2 (Z.ltb_lt _ _) Hva). unfold bind at 1.
    rewrite kalloc_inv_nil by apply Hw. cbn [bindp]. change (0 =? 0) with true. cbv iota.
    eapply alloc_undo; [lia|simpl; lia|done|done]. }
  destruct (alloc_step s p l t (es ++ new) R xperm Hw Hx) with (oldsz := n0 * PGSIZE) (newsz := newsz)
    as [Hstep|Hstep]; rewrite ?Hlen; try done.
  - apply Hun. lia.
  - unfold PGSIZE in *. lia.
  - destruct Hstep as (s1 & l1 & t1 & E & Hroot & Hh & Hw1 & Hd & Hzp & (g & -> & Eg & Hg) & Hmap).
    rewrite Hlen in E, Hmap. rewrite E. cbn [bindp]. rewrite <- app_assoc in Hw1.
    destruct (IH s1 l1 t1 (new ++ [(p, Z.lor (user_perm xperm) PTE_V)]))
      as (r & s' & l' & t' & g' & E' & Hroot' & Hh' & Hd' & Eg' & Hcase); try done;
      try (rewrite length_app; simpl; lia).
    + by eapply fresh_snoc.
    + intros i. rewrite length_app. simpl. intros Hi.
      rewrite Hmap by (unfold n0, PGSIZE in *; lia). unfold upd_pte.
      rewrite !Z.div_mul, decide_False by (done || lia). apply Hun. lia.
    + apply Forall_app. split; [by eapply zero_pages_same|]. by apply Forall_singleton.
    + exists r, s', l', t', (g' ++ g). split.
      { rewrite <- E', Hroot. f_equal. rewrite length_app. simpl. unfold PGSIZE. lia. }
      split; [congruence|]. split; [congruence|]. split.
      { eapply data_same_trans; [by eapply data_same_prefix|done]. }
      split; [by rewrite Eg', Eg, app_assoc|].
      destruct Hcase as [(-> & new' & Hm & HF & El & Hw')|(-> & Hlt & El & Hw')]; [left|right].
      * split; [done|]. exists ((p, Z.lor (user_perm xperm) PTE_V) :: new'). rewrite <- !app_assoc in *.
        split; [done|]. split; [done|]. split; [|done]. rewrite El. cbn. solve_Permutation.
      * split; [done|]. rewrite length_app in Hlt. simpl in Hlt. split; [simpl; rewrite length_app; lia|].
        split; [|done]. rewrite fmap_app in El. rewrite <- !app_assoc in *. cbn in El.
        transitivity (g ++ new.*1 ++ p :: l1); [solve_Permutation|]. rewrite El. solve_Permutation.
  - destruct Hstep as (s1 & l1 & t1 & E & Hroot & Hh & Hw1 & Hd & Hl & g & Eg & El).
    rewrite Hlen in E. rewrite E. rewrite <- Hroot.
    assert (Hl1 : (length l1 < 3)%nat).
    { apply Permutation_length in El. rewrite length_app in El. simpl in El. lia. }
    destruct (alloc_undo s1 l1 t1 new fuel ltac:(lia) Hl1 Hfr Hw1)
      as (r & s' & l' & t' & g' & E' & Hroot' & Hh' & Hd' & Eg' & Hcase).
    exists r, s', l', t', (g' ++ g). split; [done|]. split; [congruence|]. split; [congruence|].
    split; [eapply data_same_trans; [by eapply data_same_prefix|done]|].
    split; [by rewrite Eg', Eg, app_assoc|].
    destruct Hcase as [(-> & new' & Hm & HF & El' & Hw')|(-> & Hlt & El' & Hw')]; [left|right].
    + split; [done|]. exists new'. split; [done|]. split; [done|]. split; [|done]. rewrite El, El'. solve_Permutation.
    + split; [done|]. split; [simpl; lia|]. split; [|done]. rewrite El.
      transitivity (g ++ new.*1 ++ l1); [solve_Permutation|]. rewrite El'. solve_Permutation.
Qed.
End Loop.

End Grow.
