(* ===== verification/SpaceCheck.v ===== *)
(** A checker for the invariant of the address spaces.

    [world_check s l W] is a boolean test that implies [world s l W]; it makes
    the invariant executable on a concrete memory.  [tiny] is a machine with
    sixteen allocatable pages on which it runs quickly. *)

From S2P Require Import Prelude Mem Riscv Locks Kalloc Vm VmTree VmOps Space Cow.

Section SpaceCheck.
Context `{Layout}.

Fixpoint chain_check (m : mem) (h : Z) (l : list Z) : bool :=
  match l with
  | [] => h =? 0
  | p :: l' => (h =? p) && chain_check m (load64 m p) l'
  end.

(** The allocatable pages, in order. *)
Definition all_pages : list Z :=
  (fun i => PGROUNDUP end_ + PGSIZE * i)
    <$> seqZ 0 ((PHYSTOP - PGROUNDUP end_) / PGSIZE).

Definition kmem_check (s : phys) (l : list Z) : bool :=
  chain_check (pmem s) (freelist s) l && bool_decide (NoDup l) &&
  forallb (fun p => bool_decide (valid_page p)) l &&
  forallb (fun p => Bool.eqb (bool_decide (p ∈ l)) (refs s p =? 0) &&
                    (0 <=? refs s p) && (refs s p <? 2 ^ 31 - 1)) all_pages.

(** The indices of a page-table page. *)
Definition slots : list Z := seqZ 0 512.

Definition tree_check (m : mem) (t : ptree) : bool :=
  forallb (fun p => bool_decide (valid_page p)) (tpages t) &&
  bool_decide (NoDup (tpages t)) &&
  forallb (fun i => entry m (root t) i =? match mids t !! i with Some p => mkpte p PTE_V | None => 0 end)
    slots &&
  forallb (fun ip : Z * Z =>
    forallb (fun j => entry m ip.2 j =? match leaves t !! (ip.1, j) with Some q => mkpte q PTE_V | None => 0 end)
      slots) (map_to_list (mids t)) &&
  forallb (fun x : Z * Z * Z => bool_decide (is_Some (mids t !! x.1.1))) (map_to_list (leaves t)).

Definition entry_check (t : ptree) (e : Z * Z) : bool :=
  bool_decide (valid_page e.1) && bool_decide (e.1 ∉ tpages t) &&
  (0 <=? e.2) && (e.2 <? 1024) && has e.2 PTE_V && negb (e.2 =? PTE_V).

Definition space_check (m : mem) (sp : space) : bool :=
  tree_check m (tree sp) &&
  forallb (fun x : nat * (Z * Z) =>
    lookup_pte m (tree sp) ((0 + Z.of_nat x.1) * PGSIZE) =? mkpte x.2.1 x.2.2)
    (imap pair (ents sp)) &&
  forallb (entry_check (tree sp)) (ents sp) &&
  (Z.of_nat (length (ents sp)) * PGSIZE <=? MAXVA).

Definition world_check (s : phys) (l : list Z) (W : list space) : bool :=
  bool_decide (unlocked s) && kmem_check s l && forallb (space_check (pmem s)) W &&
  bool_decide (NoDup (pages W)) &&
  forallb (fun p => negb (refs s p =? 0)) (pages W) &&
  forallb (fun e : Z * Z => bool_decide (e.1 ∉ pages W) && negb (refs s e.1 =? 0) &&
    (refs s e.1 =? occ e.1 (entries W)) &&
    implb (has e.2 PTE_W) (occ e.1 (entries W) =? 1)) (entries W).

#[global] Arguments slots : simpl never.

(** ** Soundness *)

Lemma in_slots i : 0 <= i < 512 -> i ∈ slots.
Proof. intros. apply elem_of_seqZ. lia. Qed.

Lemma forallb_elem {A} (f : A -> bool) (l : list A) :
  forallb f l = true -> forall x, x ∈ l -> f x = true.
Proof. intros Hf x Hx. rewrite forallb_forall in Hf. by apply Hf, list_elem_of_In. Qed.

Lemma chain_check_sound m h l : chain_check m h l = true -> chain m h l.
Proof.
  revert h. induction l as [|p l IH]; intros h; simpl; [apply Z.eqb_eq|].
  intros [->%Z.eqb_eq Hc]%andb_true_iff. split; [done|auto].
Qed.

Lemma all_pages_complete p : valid_page p -> p ∈ all_pages.
Proof.
  intros [Ha Hb]. pose proof PGROUNDUP_end as [He Hea]. pose proof page_bounds.
  apply list_elem_of_fmap. exists ((p - PGROUNDUP end_) / PGSIZE).
  rewrite elem_of_seqZ. unfold PGSIZE, PHYSTOP, KERNBASE in *. split; zdiv.
Qed.

Lemma kmem_check_sound s l : kmem_check s l = true -> kmem_inv s l.
Proof.
  unfold kmem_check. rewrite !andb_true_iff, bool_decide_eq_true.
  intros [[[Hc Hn] Hv] Hp].
  assert (Hall : forall p, valid_page p -> (p ∈ l <-> refs s p = 0) /\ 0 <= refs s p < 2 ^ 31 - 1).
  { intros p Hp'. pose proof (forallb_elem _ _ Hp p (all_pages_complete p Hp')) as Hx. simpl in Hx.
    rewrite !andb_true_iff, Z.leb_le, Z.ltb_lt in Hx. destruct Hx as [[Hx ?] ?].
    apply Bool.eqb_prop in Hx. split; [|lia].
    destruct (Z.eqb_spec (refs s p) 0); [apply bool_decide_eq_true in Hx|apply bool_decide_eq_false in Hx];
      naive_solver. }
  split; try done.
  - by apply chain_check_sound.
  - intros p Hl. by eapply bool_decide_eq_true, (forallb_elem _ _ Hv p).
  - intros p Hpv. by apply Hall.
  - intros p Hpv. by apply Hall.
Qed.

Lemma tree_check_sound m t : tree_check m t = true -> pt_rep m t.
Proof.
  unfold tree_check. rewrite !andb_true_iff, bool_decide_eq_true. intros [[[[Hv Hn] Hr] Hm] Hl].
  split; try done.
  - intros p Hp. by eapply bool_decide_eq_true, (forallb_elem _ _ Hv p).
  - intros i Hi. by apply Z.eqb_eq, (forallb_elem _ _ Hr i), in_slots.
  - intros i p j Ei Hj. apply elem_of_map_to_list in Ei.
    pose proof (forallb_elem _ _ Hm (i, p) Ei) as Hx. cbn [fst snd] in Hx.
    by apply Z.eqb_eq, (forallb_elem _ _ Hx j), in_slots.
  - intros i j q Eq. apply elem_of_map_to_list in Eq.
    pose proof (forallb_elem _ _ Hl (i, j, q) Eq) as Hx. by apply bool_decide_eq_true in Hx.
Qed.

Lemma entry_check_sound t e : entry_check t e = true -> entry_ok t e.
Proof.
  unfold entry_check, entry_ok.
  rewrite !andb_true_iff, !bool_decide_eq_true, Z.leb_le, Z.ltb_lt, negb_true_iff, Z.eqb_neq. tauto.
Qed.

Lemma space_check_sound m sp : space_check m sp = true -> aspace m sp.
Proof.
  unfold space_check. rewrite !andb_true_iff, Z.leb_le. intros [[[Ht Hm] He] Hs]. split; try done.
  - by apply tree_check_sound.
  - intros i e Hi. assert (Hin : (i, e) ∈ imap pair (ents sp)).
    { apply (list_elem_of_lookup_2 _ i). by rewrite list_lookup_imap, Hi. }
    apply Z.eqb_eq. exact (forallb_elem _ _ Hm (i, e) Hin).
  - apply Forall_forall. intros e Hin. by apply entry_check_sound, (forallb_elem _ _ He).
Qed.

Lemma world_check_sound s l W : world_check s l W = true -> world s l W.
Proof.
  unfold world_check. rewrite !andb_true_iff, !bool_decide_eq_true.
  intros [[[[[Hu Hk] Hs] Hn] Hp] He].
  assert (Hent : forall e, e ∈ entries W -> (e.1 ∉ pages W) /\ refs s e.1 <> 0 /\
    refs s e.1 = occ e.1 (entries W) /\ (has e.2 PTE_W = true -> occ e.1 (entries W) = 1)).
  { intros e Hin. pose proof (forallb_elem _ _ He e Hin) as Hx. simpl in Hx.
    rewrite !andb_true_iff, bool_decide_eq_true, negb_true_iff, Z.eqb_neq, Z.eqb_eq in Hx.
    destruct Hx as [[[? ?] ?] Hw]. split_and!; try done. intros HW. rewrite HW in Hw. by apply Z.eqb_eq. }
  split; split.
  - exact Hu.
  - by apply kmem_check_sound.
  - apply Forall_forall. intros sp Hin. by apply space_check_sound, (forallb_elem _ _ Hs).
  - exact Hn.
  - intros p Hin. pose proof (forallb_elem _ _ Hp p Hin) as Hx. simpl in Hx.
    by apply negb_true_iff, Z.eqb_neq in Hx.
  - intros e Hin. apply (Hent e Hin).
  - intros e Hin. apply (Hent e Hin).
  - intros e Hin. apply (Hent e Hin).
  - intros e Hin. apply (Hent e Hin).
Qed.

End SpaceCheck.

(** ** A small machine *)

Program Definition tiny : Layout := {|
  end_ := 0x87ff0000; etext := 0x80008000; trampoline := 0x80007000
|}.
Next Obligation. unfold KERNBASE. lia. Qed.
Next Obligation. unfold PHYSTOP, KERNBASE. lia. Qed.
Next Obligation. done. Qed.
Next Obligation. done. Qed.
Next Obligation. unfold KERNBASE. lia. Qed.

Definition fresh_ram : phys := Phys (fun _ => 0) 0 ∅ ∅.

Definition result {S A} (p : prog S A) (s : S) : S := match p with Done _ s' => s' | _ => s end.
Definition value {S A} (p : prog S A) (a : A) : A := match p with Done a' _ => a' | _ => a end.

(** The free pages after boot, then a parent with a writable and a read-only
    page and a child without pages, built by the code itself. *)
Section Tiny.
#[local] Existing Instance tiny.

Definition pg (i : Z) : Z := (0x87ff0 + i) * PGSIZE.

Definition boot : phys := result (freerange end_ PHYSTOP fresh_ram) fresh_ram.

Definition two_spaces : M phys Z :=
  parent <- uvmcreate;;
  uvmalloc parent 0 PGSIZE PTE_W;;;
  uvmalloc parent PGSIZE (2 * PGSIZE) PTE_X;;;
  uvmcreate.

Definition before_fork : phys := result (two_spaces boot) boot.

Definition parent_tree : ptree := PT (pg 15) {[0 := pg 13]} {[(0, 0) := pg 12]}.
Definition child_tree : ptree := PT (pg 10) ∅ ∅.
Definition parent_space : space := Space parent_tree [(pg 14, 23); (pg 11, 27)].
Definition child_space : space := Space child_tree [].
Definition free_before : list Z := pg <$> [9; 8; 7; 6; 5; 4; 3; 2; 1; 0].

Lemma before_fork_world : world before_fork free_before [parent_space; child_space].
Proof. apply world_check_sound. vm_compute. reflexivity. Qed.

(** The same after uvmcopy of both pages. *)
Definition after_fork : phys :=
  result (uvmcopy (pg 15) (pg 10) (2 * PGSIZE) before_fork) before_fork.

Definition child_tree' : ptree := PT (pg 10) {[0 := pg 9]} {[(0, 0) := pg 8]}.
Definition shared_ents : list (Z * Z) := cow_entry <$> ents parent_space.
Definition free_after : list Z := pg <$> [7; 6; 5; 4; 3; 2; 1; 0].

Lemma after_fork_world :
  world after_fork free_after [Space child_tree' shared_ents; Space parent_tree shared_ents].
Proof. apply world_check_sound. vm_compute. reflexivity. Qed.

End Tiny.
