(* ===== verification/VmProps.v ===== *)
(** What vm.c promises its callers: fork, faults, user copies, growth.

    The theorems are about whole systems of address spaces ([world]); each is
    applied to the machine [tiny] of SpaceCheck.v. *)

From S2P Require Import Prelude Mem Riscv Locks Kalloc Vm VmTree VmOps Space Cow Fault Copy SpaceCheck Grow.

Section Props.
Context `{Layout}.

Lemma uread_pages s s' t t' es es' va :
  fst <$> es' = fst <$> es ->
  (forall e a, e ∈ es -> in_page e.1 a -> load8 (pmem s') a = load8 (pmem s) a) ->
  uread s' (Space t' es') va = uread s (Space t es) va.
Proof.
  intros Heq Hd. unfold uread. simpl.
  assert (Hg : fst <$> geti es' (va / PGSIZE) = fst <$> geti es (va / PGSIZE)).
  { unfold geti. case_match; [|done]. by rewrite <- !list_lookup_fmap, Heq. }
  destruct (geti es _) as [e|] eqn:E, (geti es' _) as [e'|]; simplify_eq/=; [|done].
  rewrite Hg. f_equal. apply (Hd e); [by eapply geti_elem|apply page_offset].
Qed.

Lemma half_cow_pages k es : fst <$> half_cow k es = fst <$> es.
Proof.
  unfold half_cow. rewrite fmap_app, <- list_fmap_compose.
  rewrite <- (take_drop k es) at 3. rewrite fmap_app. f_equal.
Qed.

Lemma cow_pages (es : list (Z * Z)) : fst <$> (cow_entry <$> es) = fst <$> es.
Proof. by rewrite <- list_fmap_compose. Qed.

(** C1: fork's copy (uvmcopy) of a space of [n] pages into an empty page table
    either returns 0 with both spaces mapping the same pages, every writable
    page turned read-only and marked copy-on-write in both and every reference
    count raised by the number of new PTEs; or, when fewer than [2n] pages are
    free, it may return -1 with the child empty again and the reference counts
    of pages in use as before.  Either way what the parent and every other
    space read is unchanged, and the invariant of all spaces holds. *)
Theorem uvmcopy_shares s l tP tC es R sz :
  world s l (Space tP es :: Space tC [] :: R) ->
  (Z.of_nat (length es) - 1) * PGSIZE < sz <= Z.of_nat (length es) * PGSIZE ->
  (forall i, 0 <= i < Z.of_nat (length es) -> has (lookup_pte (pmem s) tC (i * PGSIZE)) PTE_V = false) ->
  (forall e, e ∈ es -> refs s e.1 + Z.of_nat (length es) < 2 ^ 31 - 1) ->
  exists r s' l' tC' es', uvmcopy (root tP) (root tC) sz s = Done r s' /\ root tC' = root tC /\
    reads_same R s s' /\ (forall va, uread s' (Space tP es') va = uread s (Space tP es) va) /\
    ((r = 0 /\ es' = cow_entry <$> es /\ world s' l' (Space tP es' :: Space tC' es' :: R) /\
      (forall q, valid_page q -> q ∉ l -> refs s' q = refs s q + occ q es)) \/
     (r = -1 /\ (length l < 2 * length es)%nat /\ world s' l' (Space tP es' :: Space tC' [] :: R) /\
      (forall q, valid_page q -> q ∉ l -> refs s' q = refs s q))).
Proof.
  intros Hw Hsz Hun Hroom. rewrite uvmcopy_loop. change 0 with (Z.of_nat 0 * PGSIZE) at 1.
  destruct (copy_loop tP es R sz Hsz (Z.to_nat (sz / PGSIZE + 2)) 0 s l tC)
    as (r & s' & l' & tC' & E & Hroot & _ & Hd & Hcase); try done; [zdiv_page|lia|by rewrite Nat.sub_0_r|].
  assert (Hr : reads_same R s s').
  { intros sp va Hsp. apply (data_same_reads _ _ _ Hd). by right. }
  assert (He : forall e a, e ∈ es -> in_page e.1 a -> load8 (pmem s') a = load8 (pmem s) a).
  { intros e a He. apply Hd, in_entries_cons. by left. }
  destruct Hcase as [(-> & Hw' & Hrefs)|(-> & Hlt & Hrefs & _ & j & Hw')].
  - exists 0, s', l', tC', (cow_entry <$> es). split_and!; try done.
    + intros va. apply uread_pages; [apply cow_pages|done].
    + by left.
  - exists (-1), s', l', tC', (half_cow j es). split_and!; try done.
    + intros va. apply uread_pages; [apply half_cow_pages|done].
    + right. split; [done|]. split; [lia|]. split; [done|].
      intros q Hq Hl. rewrite Hrefs by done. simpl. lia.
Qed.

(** C4: cowalloc on a page marked copy-on-write returns -1 and changes nothing
    when no page is free; otherwise it returns 0 with the first free page
    mapped in its place, writable and no longer copy-on-write.  The invariant
    is kept, so the page is referenced by this PTE alone; the shared page loses
    one reference; and what this space and every other space read is unchanged.
    On a page that is not copy-on-write it returns 0 and changes nothing. *)
Theorem cowalloc_private s l t es R k e :
  world s l (Space t es :: R) -> es !! k = Some e ->
  if has e.2 PTE_COW then
    match l with
    | [] => cowalloc (root t) (Z.of_nat k * PGSIZE) s = Done (-1) s
    | p :: _ => exists s' l', cowalloc (root t) (Z.of_nat k * PGSIZE) s = Done 0 s' /\
        world s' l' (Space t (<[k := (p, own_flags e.2)]> es) :: R) /\ refs s' p = 1 /\
        (forall q, valid_page q -> q ∉ l -> refs s' q = refs s q - if decide (e.1 = q) then 1 else 0) /\
        reads_same R s s' /\
        (forall va, uread s' (Space t (<[k := (p, own_flags e.2)]> es)) va = uread s (Space t es) va)
    end
  else cowalloc (root t) (Z.of_nat k * PGSIZE) s = Done 0 s.
Proof.
  intros Hw Hk. destruct (has e.2 PTE_COW) eqn:HC.
  2: { rewrite (cowalloc_entry s l t es R k e) by (done || apply Hw). by rewrite HC. }
  destruct l as [|p l]; [by eapply cowalloc_oom|].
  destruct (cowalloc_copy s p l t es R k e Hw Hk HC) as (s1 & l1 & E & Hh & Hw1 & Hcopy & Hoth & Hrefs).
  exists s1, l1. split; [done|]. split; [done|]. apply lookup_lt_Some in Hk as Hlt.
  assert (Hin : (p, own_flags e.2) ∈ entries (Space t (<[k := (p, own_flags e.2)]> es) :: R)).
  { apply in_entries_cons. left. by apply list_elem_of_insert. }
  destruct (own_page s (p :: l) t es R k e Hw Hk) as (c & s2 & l2 & es2 & E2 & Hop); [by right|].
  split.
  { destruct Hw1 as [Hwf1 Hacc1]. rewrite (ac_refs _ _ Hacc1 _ Hin : refs s1 p = _).
    apply (ac_write _ _ Hacc1 _ Hin). simpl.
    assert (Hok : entry_ok t e) by (eapply wf_head_entry; [apply Hw|by eapply list_elem_of_lookup_2]).
    pose proof (own_flags_ok e.2 (proj1 (proj2 (proj2 Hok)))) as Hf. rewrite !andb_true_iff in Hf. tauto. }
  split; [exact Hrefs|]. split.
  - intros sp va Hsp. apply uread_ext. intros e' a He'. apply Hoth.
    rewrite !elem_of_app. right. right. apply elem_of_entries. eauto.
  - by apply (copied_reads s s1 p t es R k e).
Qed.

(** C2: copyout of [src] to user addresses whose pages are writable or marked
    copy-on-write keeps the invariant and never changes what another space
    reads.  If it returns 0 the writer reads exactly [src] at [dst] and its old
    memory elsewhere; if it returns -1 (a copy could not be allocated, or a page
    is not a user page) the writer's memory outside the range is unchanged. *)
Theorem copyout_isolated s l t es R dst src :
  world s l (Space t es :: R) -> 0 <= dst ->
  dst + Z.of_nat (length src) <= Z.of_nat (length es) * PGSIZE ->
  (forall i e, es !! i = Some e -> dst / PGSIZE <= Z.of_nat i ->
     Z.of_nat i * PGSIZE < dst + Z.of_nat (length src) -> writable e) ->
  exists r s' l' es', copyout (root t) dst src s = Done r s' /\
    world s' l' (Space t es' :: R) /\ reads_same R s s' /\ length es' = length es /\
    ((r = 0 /\ forall va, uread s' (Space t es') va = writes (uread s (Space t es)) dst src va) \/
     (r = -1 /\ forall va, va < dst \/ dst + Z.of_nat (length src) <= va ->
        uread s' (Space t es') va = uread s (Space t es) va)).
Proof.
  intros Hw Hdst Hend Hwr. rewrite copyout_loop.
  destruct (copyout_loop_spec t R (copy_fuel dst (Z.of_nat (length src))) dst src s l es Hw Hdst Hend Hwr)
    as (r & s' & l' & es' & E & Hw' & _ & Ho & Hl & Hres); [apply copy_fuel_enough; lia|].
  by exists r, s', l', es'.
Qed.

(** copyin of [len] bytes from user pages returns exactly the bytes the
    space reads at these addresses, and changes nothing. *)
Theorem copyin_reads s l t es R src len :
  world s l (Space t es :: R) -> 0 <= src -> 0 <= len ->
  src + len <= Z.of_nat (length es) * PGSIZE ->
  (forall i e, es !! i = Some e -> src / PGSIZE <= Z.of_nat i -> Z.of_nat i * PGSIZE < src + len ->
     has e.2 PTE_U = true) ->
  copyin (root t) src len s = Done (Some (user_bytes s (Space t es) src (Z.to_nat len))) s.
Proof.
  intros Hw Hsrc Hlen Hend HU. rewrite copyin_loop.
  rewrite (copyin_loop_spec s l t es R _ src len [] (proj1 Hw)); try done.
  by apply copy_fuel_enough.
Qed.

(** C24: a page that is neither writable nor copy-on-write (program text) stays
    shared after fork, and copyout writes it all the same: a byte that a system
    call stores there for one space is then read by the other. *)
Theorem copyout_shared_readonly s l t es R k e sp j e2 b :
  world s l (Space t es :: R) -> es !! k = Some e ->
  has e.2 PTE_W = false -> has e.2 PTE_COW = false -> has e.2 PTE_U = true ->
  sp ∈ R -> ents sp !! j = Some e2 -> e2.1 = e.1 ->
  exists s', copyout (root t) (Z.of_nat k * PGSIZE) [b] s = Done 0 s' /\
    uread s' sp (Z.of_nat j * PGSIZE) = Some (u8 b).
Proof.
  intros Hw Hk HW HC HU Hsp Hj Hpage. set (va := Z.of_nat k * PGSIZE).
  assert (Hv : valid_page e.1).
  { eapply (wf_entry_valid _ _ _ (proj1 Hw)), in_entries_cons. left. by eapply list_elem_of_lookup_2. }
  pose proof (valid_page_pos _ Hv).
  assert (Hdown : PGROUNDDOWN va = va) by (apply PGROUNDDOWN_id, Z_mod_mult).
  exists (stored s e 0 [b]). split.
  - rewrite copyout_loop.
    assert (Hbody : copyout_body (root t) (va, [b]) s = Done (inl (va + PGSIZE, [])) (stored s e 0 [b])).
    { unfold copyout_body. change (0 <? Z.of_nat (length [b])) with true. cbv iota. rewrite Hdown.
      unfold bind at 1, va. rewrite (cowalloc_entry s l t es R k e) by (done || apply Hw).
      rewrite HC. cbn [bindp]. change (0 <? 0) with false. cbv iota. unfold bind at 1.
      rewrite (walkaddr_entry s l t es R k e) by (done || apply Hw). rewrite HU. cbn [bindp].
      rewrite (proj2 (Z.eqb_neq e.1 0)) by lia. fold va. rewrite Z.sub_diag.
      change (Z.to_nat (Z.min (PGSIZE - 0) (Z.of_nat (length [b])))) with 1%nat. done. }
    assert (Hfuel : exists f, copy_fuel va (Z.of_nat (length [b])) = Datatypes.S (Datatypes.S f)).
    { pose proof (copy_fuel_enough va 1 ltac:(unfold va, PGSIZE; lia) ltac:(lia)) as Hf.
      change (Z.of_nat (length [b])) with 1. destruct (copy_fuel va 1) as [|[|f]]; [zdiv_page..|by exists f]. }
    destruct Hfuel as [f ->]. cbn [loop]. unfold bind at 1. rewrite Hbody. done.
  - destruct sp as [t2 es2]. rewrite (uread_entry _ _ _ _ e2).
    2: { rewrite Z.div_mul by done. by rewrite geti_nat. }
    rewrite Z_mod_mult, Z.add_0_r, Hpage, load8_stored. simpl.
    rewrite decide_True by lia. by replace (e.1 - (e.1 + 0)) with 0 by lia.
Qed.

(** C22: uvmalloc from [oldsz], the end of a space, to [newsz] either returns
    [newsz] with exactly the missing [m] pages added, mapped with R, U and [xperm] and
    full of zeros, or, only when fewer than [3m] pages are free, returns 0 with the space
    as it was.  Nothing leaks: the pages that leave the free list are those added and the
    pages [g] that the page table has grown by.  No existing page of any space changes. *)
Theorem uvmalloc_grows s l t es R oldsz newsz xperm m :
  world s l (Space t es :: R) -> oldsz <= newsz ->
  PGROUNDUP oldsz = Z.of_nat (length es) * PGSIZE -> 0 <= xperm < 1024 ->
  (Z.of_nat (length es) + Z.of_nat m) * PGSIZE <= MAXVA ->
  (forall i, i * PGSIZE < newsz <-> i < Z.of_nat (length es) + Z.of_nat m) ->
  (forall i, Z.of_nat (length es) <= i < Z.of_nat (length es) + Z.of_nat m ->
     has (lookup_pte (pmem s) t (i * PGSIZE)) PTE_V = false) ->
  exists r s' l' t' g, uvmalloc (root t) oldsz newsz xperm s = Done r s' /\ root t' = root t /\
    data_same (Space t es :: R) s s' /\ tpages t' ≡ₚ g ++ tpages t /\
    ((r = newsz /\ exists new, length new = m /\
        Forall (fun e => e.2 = Z.lor (user_perm xperm) PTE_V /\ zero_page s' e.1) new /\
        l ≡ₚ g ++ new.*1 ++ l' /\ world s' l' (Space t' (es ++ new) :: R)) \/
     (r = 0 /\ (length l < 3 * m)%nat /\ l ≡ₚ g ++ l' /\ world s' l' (Space t' es :: R))).
Proof.
  intros Hw Hle Hup Hx Hmax Hnew Hun. rewrite uvmalloc_loop by done. rewrite Hup.
  destruct (alloc_loop es R xperm newsz m Hx Hmax Hnew
              (Z.to_nat ((newsz - Z.of_nat (length es) * PGSIZE) / PGSIZE + 2)) s l t [])
    as (r & s' & l' & t' & g & E & Hroot & _ & Hd & Eg & Hcase).
  - simpl. pose proof (proj2 (Hnew (Z.of_nat (length es) + Z.of_nat m - 1)) ltac:(lia)).
    destruct m; zdiv_page.
  - simpl. lia.
  - split; [constructor|]. intros e _. apply not_elem_of_nil.
  - by rewrite app_nil_r.
  - simpl. intros i Hi. apply Hun. lia.
  - constructor.
  - exists r, s', l', t', g. simpl in E, Hcase. rewrite Z.add_0_r in E. rewrite Nat.sub_0_r in Hcase. split_and!; try done.
Qed.

(** uvmdealloc from [oldsz] to a smaller [newsz] unmaps exactly the pages
    above [newsz]: the space keeps its first pages, every unmapped page loses
    one reference, its PTEs are cleared and no remaining page changes. *)
Theorem uvmdealloc_shrinks s l t es1 es2 R oldsz newsz :
  world s l (Space t (es1 ++ es2) :: R) -> newsz <= oldsz ->
  PGROUNDUP newsz = Z.of_nat (length es1) * PGSIZE ->
  PGROUNDUP oldsz = Z.of_nat (length (es1 ++ es2)) * PGSIZE ->
  exists s' l', uvmdealloc (root t) oldsz newsz s = Done newsz s' /\
    world s' l' (Space t es1 :: R) /\ data_same (Space t es1 :: R) s s' /\
    (forall q, valid_page q -> refs s' q = refs s q - occ q es2) /\
    same_map (lookup_pte (pmem s') t)
      (clear_range (lookup_pte (pmem s) t) (Z.of_nat (length es1)) (Z.of_nat (length es2))).
Proof.
  intros Hw Hle Hn Ho.
  destruct (uvmdealloc_tail s l t es1 es2 R oldsz newsz Hw Hle Hn Ho)
    as (s' & E & s'' & l' & [= <-] & Hw' & Hd & _ & _ & Hrefs & Hmap).
  by exists s', l'.
Qed.

(** mappages of one page whose PTE is not valid either installs exactly
    this PTE (result 0) or, when fewer than two pages are free for page-table
    pages, leaves the map unchanged (result -1); a page that is already mapped
    panics. *)
Theorem mappages_maps s l t va pa perm :
  owned s l t -> 0 <= va < MAXVA -> va mod PGSIZE = 0 -> pa_ok pa -> 0 <= perm < 1024 ->
  if has (lookup_pte (pmem s) t va) PTE_V
  then mappages (root t) va PGSIZE pa perm s = Panic "mappages: remap"
  else exists r s' l' t', mappages (root t) va PGSIZE pa perm s = Done r s' /\
    extends s s' l l' t t' /\ (length l <= length l' + 2)%nat /\
    ((r = 0 /\ same_map (lookup_pte (pmem s') t')
                 (upd_pte (lookup_pte (pmem s) t) va (mkpte pa (Z.lor perm PTE_V)))) \/
     (r = -1 /\ l' = [] /\ (length l < 2)%nat /\
      same_map (lookup_pte (pmem s') t') (lookup_pte (pmem s) t))).
Proof.
  intros Ho Hva Hal Hpa Hperm. destruct (has _ PTE_V) eqn:HV.
  - by eapply mappages_remap.
  - destruct (mappages_page s l t va pa perm Ho Hva Hal Hpa Hperm HV) as (r & s' & l' & t' & E & He & Hg & Hcase).
    apply grew_length in Hg. by exists r, s', l', t'.
Qed.

(** C23: the allocator, whole: from a state that satisfies its invariant, kalloc
    returns 0 and changes nothing when the free list is empty, and otherwise the
    first page with reference count 1; kfree of a managed page drops one
    reference, and only the last one puts the page on the free list.  Both keep
    the invariant (the free list is a list without repetition of exactly the
    pages with count zero) and touch no byte outside the page. *)
Theorem allocator_correct s l p :
  unlocked s -> kmem_inv s l -> valid_page p -> refs s p <> 0 ->
  match l with
  | [] => kalloc s = Done 0 s
  | q :: l' => exists s', kalloc s = Done q s' /\ kmem_inv s' l' /\ valid_page q /\ q <> p /\
      refs s q = 0 /\ mem_frame (in_page q) (pmem s) (pmem s') /\
      forall r, valid_page r -> refs s' r = if decide (q = r) then 1 else refs s r
  end /\
  exists s', kfree p s = Done tt s' /\ kmem_inv s' (if refs s p =? 1 then p :: l else l) /\
    mem_frame (in_page p) (pmem s) (pmem s') /\ (refs s p <> 1 -> pmem s' = pmem s) /\
    forall r, valid_page r -> refs s' r = if decide (p = r) then refs s p - 1 else refs s r.
Proof.
  intros Hu Hi Hp Hne. split.
  - destruct l as [|q l]; [by apply kalloc_inv_nil|].
    destruct (kalloc_inv_cons s q l Hu Hi) as (E & Hi' & Hq & Hq0 & Hql).
    exists (allocated q s). split_and!; try done; [by intros ->|apply frame_mset|].
    intros r Hr. rewrite refs_allocated, Hq0 by (apply Hq || apply Hr). done.
  - destruct (kfree_inv s l p Hu Hi Hp Hne) as (s' & E & _ & Hm & Hr & Hi' & Hsame).
    by exists s'.
Qed.

(** Kfree panics on an address that is not the start of an allocatable
    page, and on a page whose reference count is already zero. *)
Theorem kfree_rejects p s :
  unlocked s -> (~ valid_page p) \/ (valid_page p /\ refs s p <= 0) ->
  exists msg, kfree p s = Panic msg.
Proof.
  intros [Hk Hr] [Hp|[Hp H0]].
  - exists "kfree"%string. unfold kfree.
    destruct (Z.eqb_spec (p mod PGSIZE) 0), (Z.ltb_spec p end_); simpl; try done.
    rewrite Z.geb_leb. destruct (Z.leb_spec PHYSTOP p); [done|].
    exfalso. apply Hp. split; [done|lia].
  - exists "decrease_pgreference"%string. pose proof (valid_page_pos p Hp). destruct Hp as [Ha Hb].
    unfold kfree. rewrite Ha, Z.geb_leb. simpl (negb _).
    rewrite (proj2 (Z.ltb_ge p end_)), (proj2 (Z.leb_gt PHYSTOP p)) by lia. simpl.
    unfold decrease_pgreference, bind. rewrite acquire_free by done. simpl.
    rewrite ref_index_ok by lia. wp_pure.
    change (count (Phys (pmem s) (freelist s) (page_ref s) _) (Z.shiftr p 12)) with (refs s p).
    by rewrite (proj2 (Z.leb_le (refs s p) 0)).
Qed.

(** Kinit from any memory with an empty free list, whatever the counts,
    terminates without panic with every allocatable page free exactly once. *)
Theorem kinit_all_free s :
  unlocked s -> freelist s = 0 ->
  exists s' l, kinit s = Done tt s' /\ kmem_inv s' l /\ forall p, valid_page p <-> p ∈ l.
Proof.
  intros Hu Hf. destruct (wp_done_inv _ _ (kinit_spec s Hu Hf)) as ([] & s' & E & _ & l & Hi & Hall).
  exists s', l. split; [done|]. split; [done|]. intros p. split; [apply Hall|apply (inv_valid _ _ _ Hi)].
Qed.

End Props.

(** ** The theorems on the small machine *)

Section Witnesses.
#[local] Existing Instance tiny.

Ltac cases_of He := repeat (apply elem_of_cons in He as [->|He]); try by apply not_elem_of_nil in He.

Lemma uvmcopy_shares_witness :
  exists s', uvmcopy (pg 15) (pg 10) (2 * PGSIZE) before_fork = Done 0 s' /\
    uread s' (Space parent_tree shared_ents) 5 = uread before_fork parent_space 5.
Proof.
  destruct (uvmcopy_shares before_fork free_before parent_tree child_tree (ents parent_space) []
    (2 * PGSIZE)) as (r & s' & l' & tC' & es' & E & _ & _ & Hmine & Hcase).
  - apply before_fork_world.
  - split; vm_compute; congruence.
  - intros i Hi. assert (i = 0 \/ i = 1) as [-> | ->] by (simpl in Hi; lia); vm_compute; reflexivity.
  - intros e He. cases_of He; vm_compute; reflexivity.
  - destruct Hcase as [(-> & -> & _)|(_ & Hlt & _)]; [|simpl in Hlt; lia].
    exists s'. split; [exact E|]. exact (Hmine 5).
Defined.

Lemma cowalloc_private_witness :
  exists s', cowalloc (pg 10) 0 after_fork = Done 0 s' /\ refs s' (pg 7) = 1.
Proof.
  pose proof (cowalloc_private after_fork free_after child_tree' shared_ents
    [Space parent_tree shared_ents] 0 (cow_entry (pg 14, 23)) after_fork_world eq_refl) as H.
  change (has (cow_entry (pg 14, 23)).2 PTE_COW) with true in H.
  destruct H as (s' & l' & E & _ & Hr & _). exists s'. split; [exact E|exact Hr].
Defined.

Lemma copyout_isolated_witness :
  exists s' es', copyout (pg 10) 4090 [7; 8; 9] after_fork = Done 0 s' /\
    uread s' (Space parent_tree shared_ents) 4091 = uread after_fork (Space parent_tree shared_ents) 4091 /\
    uread s' (Space child_tree' es') 4091 = Some 8.
Proof.
  destruct (copyout_isolated after_fork free_after child_tree' shared_ents
    [Space parent_tree shared_ents] 4090 [7; 8; 9]) as (r & s' & l' & es' & E & _ & Ho & _ & Hcase).
  - apply after_fork_world.
  - vm_compute; congruence.
  - vm_compute; congruence.
  - intros [|[|i]] e Hi _ Hlt; [| |done]; unfold PGSIZE in Hlt; simpl in Hlt; [|lia].
    injection Hi as <-. right. reflexivity.
  - assert (r = 0) as ->.
    { destruct Hcase as [[-> _]|[-> _]]; [done|]. exfalso.
      assert (Hv : value (copyout (pg 10) 4090 [7; 8; 9] after_fork) 5 = 0) by (vm_compute; reflexivity).
      unfold child_tree' in E. simpl root in E. rewrite E in Hv. done. }
    exists s', es'. split; [exact E|]. split; [apply (Ho _ 4091); by left|].
    destruct Hcase as [[_ Hw]|[? _]]; [|done]. rewrite Hw. reflexivity.
Defined.

Lemma copyin_reads_witness :
  copyin (pg 15) 4090 10 before_fork
  = Done (Some (user_bytes before_fork parent_space 4090 10)) before_fork.
Proof.
  apply (copyin_reads before_fork free_before parent_tree (ents parent_space) [child_space] 4090 10).
  - apply before_fork_world.
  - lia.
  - lia.
  - vm_compute; congruence.
  - intros [|[|i]] e Hi _ _; [injection Hi as <-; reflexivity..|done].
Defined.

Lemma copyout_shared_readonly_witness :
  exists s', copyout (pg 10) 4096 [99] after_fork = Done 0 s' /\
    uread s' (Space parent_tree shared_ents) 4096 = Some 99.
Proof.
  apply (copyout_shared_readonly after_fork free_after child_tree' shared_ents
    [Space parent_tree shared_ents] 1 (pg 11, 27) (Space parent_tree shared_ents) 1 (pg 11, 27) 99
    after_fork_world); try reflexivity. by left.
Defined.

Lemma uvmalloc_grows_witness :
  exists s', uvmalloc (pg 15) (2 * PGSIZE) (3 * PGSIZE) PTE_W before_fork = Done (3 * PGSIZE) s'.
Proof.
  destruct (uvmalloc_grows before_fork free_before parent_tree (ents parent_space) [child_space]
    (2 * PGSIZE) (3 * PGSIZE) PTE_W 1) as (r & s' & l' & t' & g & E & _ & _ & _ & Hcase).
  - apply before_fork_world.
  - vm_compute; congruence.
  - vm_compute; reflexivity.
  - split; vm_compute; congruence.
  - vm_compute; congruence.
  - intros i. unfold PGSIZE. simpl. lia.
  - intros i Hi. assert (i = 2) as -> by (simpl in Hi; lia). vm_compute; reflexivity.
  - destruct Hcase as [(-> & _)|(_ & Hlt & _)]; [by exists s'|]. exfalso. revert Hlt. vm_compute. lia.
Defined.

Lemma uvmdealloc_shrinks_witness :
  exists s', uvmdealloc (pg 15) (2 * PGSIZE) 5 before_fork = Done 5 s' /\
    refs s' (pg 11) = refs before_fork (pg 11) - 1.
Proof.
  destruct (uvmdealloc_shrinks before_fork free_before parent_tree [(pg 14, 23)] [(pg 11, 27)]
    [child_space] (2 * PGSIZE) 5) as (s' & l' & E & _ & _ & Hr & _).
  - apply before_fork_world.
  - vm_compute; congruence.
  - vm_compute; reflexivity.
  - vm_compute; reflexivity.
  - exists s'. split; [exact E|]. rewrite Hr; [vm_compute; reflexivity|].
    split; [vm_compute; reflexivity|split; vm_compute; congruence].
Defined.

Lemma mappages_maps_witness :
  exists r s', mappages (pg 15) (5 * PGSIZE) PGSIZE (pg 3) PTE_R before_fork = Done r s'.
Proof.
  assert (Ho : owned before_fork free_before parent_tree).
  { destruct before_fork_world as [Hw _]. apply (wf_owned _ _ _ Hw parent_space). by left. }
  pose proof (mappages_maps before_fork free_before parent_tree (5 * PGSIZE) (pg 3) PTE_R Ho) as H.
  assert (Hno : has (lookup_pte (pmem before_fork) parent_tree (5 * PGSIZE)) PTE_V = false)
    by (vm_compute; reflexivity).
  rewrite Hno in H. destruct H as (r & s' & _ & _ & E & _).
  - split; vm_compute; congruence.
  - reflexivity.
  - split; [split; vm_compute; congruence|reflexivity].
  - split; vm_compute; congruence.
  - exists r, s'. exact E.
Defined.

Lemma allocator_correct_witness :
  exists s', kfree (pg 14) before_fork = Done tt s' /\ kmem_inv s' (pg 14 :: free_before).
Proof.
  destruct before_fork_world as [Hw _].
  destruct (allocator_correct before_fork free_before (pg 14)) as (_ & s' & E & Hi & _).
  - apply Hw.
  - apply Hw.
  - split; [vm_compute; reflexivity|split; vm_compute; congruence].
  - vm_compute; congruence.
  - exists s'. split; [exact E|exact Hi].
Defined.

Lemma kfree_rejects_witness : exists msg, kfree (pg 3) before_fork = Panic msg.
Proof.
  apply kfree_rejects.
  - apply before_fork_world.
  - right. split; [split; [vm_compute; reflexivity|split; vm_compute; congruence]|vm_compute; congruence].
Defined.

Lemma kinit_all_free_witness : exists s' l, kinit fresh_ram = Done tt s' /\ kmem_inv s' l.
Proof.
  destruct (kinit_all_free fresh_ram) as (s' & l & E & Hi & _).
  - split; apply not_elem_of_empty.
  - reflexivity.
  - exists s', l. split; [exact E|exact Hi].
Defined.

End Witnesses.
