(* ===== verification/Proc.v ===== *)
(** Processes (kernel/proc.c, kernel/proc.h): the process table, sleep and
    wakeup, kill, wait, memory growth, time accounting.

    [pstate] is what one hart sees: the process table, the pid counter, the
    clock, physical memory, the process running on this hart ([cur], -1 for
    none) and the spin locks the hart holds.  A process is named by its index
    in proc[]; -1 is the null pointer.  Giving up the CPU in sched() is the
    [Sleep] outcome: what follows swtch() is its continuation. *)

From S2P Require Import Prelude Mem Riscv Locks Kalloc Vm.

Inductive procstate := UNUSED | USED | SLEEPING | RUNNABLE | RUNNING | ZOMBIE.

#[export] Instance procstate_eq_dec : EqDecision procstate.
Proof. solve_decision. Defined.

Record proc := Proc {
  state : procstate;
  p_chan : option chan;
  p_killed : Z;
  xstate : Z;
  pid : Z;
  parent : Z;
  kstack : Z;
  sz : Z;
  pagetable : Z;
  trapframe : Z;
  ctx_ra : Z;
  ctx_sp : Z;
  ofile : list Z;
  cwd : Z;
  name : list Z;
  rtime : Z;
  ctime : Z;
  etime : Z;
  my_wtime : Z;
  my_rtime : Z;
  my_stime : Z;
  static_pri : Z;
  rbi : Z;
  tot_sche : Z;
  curr_rbi : Z;
}.

Record pstate := PState {
  procs : list proc;
  nextpid : Z;
  initproc : Z;
  ticks : Z;
  cur : Z;
  ram : phys;
  plocks : gset lock;
}.

#[export] Program Instance pstate_locks : HasLocks pstate := {|
  held := plocks;
  set_held h s := s {{ plocks := h }}
|}.
Next Obligation. done. Qed.
Next Obligation. done. Qed.
Next Obligation. intros []. done. Qed.

Program Definition ram_lens : lens pstate phys := {|
  lget := ram;
  lput m s := s {{ ram := m }}
|}.
Next Obligation. done. Qed.
Next Obligation. intros []. done. Qed.
Next Obligation. done. Qed.

(** Memory operations, run in the process state. *)
Definition in_ram {A} (m : M phys A) : M pstate A := zoom ram_lens m.

Definition proc_lock (i : Z) : lock := ("proc", i).
Definition pid_lock : lock := ("nextpid", 0).
Definition wait_lock : lock := ("wait_lock", 0).
Definition tickslock : lock := ("time", 0).
Definition proc_chan (i : Z) : chan := ("proc", i).
Definition ticks_chan : chan := ("ticks", 0).

(** [proc[i]] and an assignment to its members. *)
Definition getp (i : Z) : M pstate proc :=
  o <- gets (fun s => geti (procs s) i);;
  match o with Some p => ret p | None => undef "proc[]" end.

Definition setp (i : Z) (f : proc -> proc) : M pstate unit :=
  p <- getp i;;
  modify (fun s => s {{ procs ::= seti i (f p) }}).

(** The bytes of an integer in memory. *)
Definition int_bytes (n : nat) (v : Z) : list Z :=
  (fun i => (v / 256 ^ Z.of_nat i) mod 256) <$> seq 0 n.

Definition wr_tf (tf off v : Z) : M pstate unit :=
  if tf =? 0 then undef "null trapframe" else in_ram (wr64 (tf + off) v).
Definition rd_tf (tf off : Z) : M pstate Z :=
  if tf =? 0 then undef "null trapframe" else in_ram (rd64 (tf + off)).

(** Offsets in struct trapframe. *)
Definition TF_KERNEL_SATP : Z := 0.
Definition TF_KERNEL_SP : Z := 8.
Definition TF_KERNEL_TRAP : Z := 16.
Definition TF_EPC : Z := 24.
Definition TF_KERNEL_HARTID : Z := 32.
Definition TF_SP : Z := 48.
Definition TF_A (n : Z) : Z := 112 + 8 * n.
Definition TF_SIZE : Z := 288.

Definition myproc : M pstate Z := gets cur.

(** [for (p = proc; p < &proc[NPROC]; p++)]. *)
Definition for_procs {S A} (body : Z -> M S (option A)) (done : M S A) : M S A :=
  for_to NPROC body done.

Definition next {S A} : M S (option A) := ret None.
Definition leave {S A} (a : A) : M S (option A) := ret (Some a).

Definition procinit : M pstate unit :=
  for_procs (fun i =>
    setp i (fun p => p {{ state := UNUSED; kstack := KSTACK i }});;;
    next) (ret tt).

Definition allocpid : M pstate Z :=
  acquire pid_lock;;;
  n <- gets nextpid;;
  modify (fun s => s {{ nextpid := i32 (n + 1) }});;;
  release pid_lock;;;
  ret n.

Section Proc.
Context `{Layout}.

Definition proc_pagetable (i : Z) : M pstate Z :=
  p <- getp i;;
  in_ram (
    pt <- uvmcreate;;
    if pt =? 0 then ret 0
    else
      r <- mappages pt TRAMPOLINE PGSIZE trampoline (Z.lor PTE_R PTE_X);;
      if r <? 0 then uvmfree pt 0;;; ret 0
      else
        r <- mappages pt TRAPFRAME PGSIZE (trapframe p) (Z.lor PTE_R PTE_W);;
        if r <? 0 then
          uvmunmap pt TRAMPOLINE 1 false;;;
          uvmfree pt 0;;;
          ret 0
        else ret pt).

Definition proc_freepagetable (pt size : Z) : M phys unit :=
  uvmunmap pt TRAMPOLINE 1 false;;;
  uvmunmap pt TRAPFRAME 1 false;;;
  uvmfree pt size.

Definition freeproc (i : Z) : M pstate unit :=
  p <- getp i;;
  when (negb (trapframe p =? 0)) (in_ram (kfree (trapframe p)));;;
  setp i (fun p => p {{ trapframe := 0 }});;;
  when (negb (pagetable p =? 0)) (in_ram (proc_freepagetable (pagetable p) (sz p)));;;
  setp i (fun p => p {{ pagetable := 0; sz := 0; pid := 0; parent := -1; name ::= seti 0 0;
                        p_chan := None; p_killed := 0; xstate := 0; state := UNUSED }}).

(** The search of allocproc: the first UNUSED slot, returned locked. *)
Definition find_unused : M pstate Z :=
  for_procs (fun i =>
    acquire (proc_lock i);;;
    p <- getp i;;
    if decide (state p = UNUSED) then leave i
    else
      release (proc_lock i);;;
      next) (ret (-1)).

Definition allocproc (forkret : Z) : M pstate Z :=
  i <- find_unused;;
  if i =? -1 then ret (-1)
  else
    n <- allocpid;;
    setp i (fun p => p {{ pid := n; state := USED }});;;
    tf <- in_ram kalloc;;
    setp i (fun p => p {{ trapframe := tf }});;;
    if tf =? 0 then
      freeproc i;;;
      release (proc_lock i);;;
      ret (-1)
    else
      pt <- proc_pagetable i;;
      setp i (fun p => p {{ pagetable := pt }});;;
      if pt =? 0 then
        freeproc i;;;
        release (proc_lock i);;;
        ret (-1)
      else
        t <- gets ticks;;
        setp i (fun p => p {{ ctx_ra := forkret; ctx_sp := kstack p + PGSIZE;
          rtime := 0; etime := 0; ctime := t;
          my_wtime := 0; my_rtime := 0; my_stime := 0;
          static_pri := 50; rbi := 25; tot_sche := 0; curr_rbi := 0 }});;;
        ret i.

Definition growproc (n : Z) : M pstate Z :=
  i <- myproc;;
  p <- getp i;;
  let size := sz p in
  if n >? 0 then
    r <- in_ram (uvmalloc (pagetable p) size (u64 (size + n)) PTE_W);;
    if r =? 0 then ret (-1)
    else setp i (fun p => p {{ sz := r }});;; ret 0
  else if n <? 0 then
    r <- in_ram (uvmdealloc (pagetable p) size (u64 (size + n)));;
    setp i (fun p => p {{ sz := r }});;; ret 0
  else setp i (fun p => p {{ sz := size }});;; ret 0.

(** ** Scheduling primitives *)

(** swtch(): another context runs until this one is switched to again. *)
Definition swtch (i : Z) : M pstate unit := block ("swtch", i).

(** [mycpu()->noff] is the number of locks held: each acquire pushes one. *)
Definition noff (s : pstate) : Z := Z.of_nat (size (plocks s)).

Definition sched : M pstate unit :=
  i <- myproc;;
  h <- gets (fun s => holding (proc_lock i) s);;
  if negb h then panic "sched p->lock"
  else
    n <- gets noff;;
    if negb (n =? 1) then panic "sched locks"
    else
      p <- getp i;;
      if decide (state p = RUNNING) then panic "sched running"
      else swtch i.

Definition yield : M pstate unit :=
  i <- myproc;;
  acquire (proc_lock i);;;
  setp i (fun p => p {{ state := RUNNABLE }});;;
  sched;;;
  release (proc_lock i).

(** Statements one after the other; between two of them another hart may run. *)
Fixpoint seqs (l : list (M pstate unit)) : M pstate unit :=
  match l with
  | [] => ret tt
  | m :: l => m;;; seqs l
  end.

(** The statements of sleep() in the process [i]. *)
Definition sleep_steps (i : Z) (ch : chan) (lk : lock) : list (M pstate unit) :=
  [ acquire (proc_lock i);
    release lk;
    setp i (fun p => p {{ p_chan := Some ch; state := SLEEPING }});
    sched;
    setp i (fun p => p {{ p_chan := None }});
    release (proc_lock i);
    acquire lk ].

Definition sleep (ch : chan) (lk : lock) : M pstate unit :=
  i <- myproc;;
  seqs (sleep_steps i ch lk).

(** [if (p->state == SLEEPING && p->chan == chan) p->state = RUNNABLE]. *)
Definition wake_slot (ch : chan) (i : Z) : M pstate unit :=
  p <- getp i;;
  when (bool_decide (state p = SLEEPING /\ p_chan p = Some ch))
    (setp i (fun p => p {{ state := RUNNABLE }})).

(** The statements of wakeup() for the slot [i], in the process [me]. *)
Definition wake_steps (ch : chan) (me i : Z) : list (M pstate unit) :=
  if i =? me then [] else [ acquire (proc_lock i); wake_slot ch i; release (proc_lock i) ].

Definition wakeup (ch : chan) : M pstate unit :=
  for_procs (fun i =>
    me <- myproc;;
    seqs (wake_steps ch me i);;;
    next) (ret tt).

Definition kill (target : Z) : M pstate Z :=
  for_procs (fun i =>
    acquire (proc_lock i);;;
    p <- getp i;;
    if pid p =? target then
      setp i (fun p => p {{ p_killed := 1 }});;;
      when (bool_decide (state p = SLEEPING)) (setp i (fun p => p {{ state := RUNNABLE }}));;;
      release (proc_lock i);;;
      leave 0
    else
      release (proc_lock i);;;
      next) (ret (-1)).

Definition setkilled (i : Z) : M pstate unit :=
  acquire (proc_lock i);;;
  setp i (fun p => p {{ p_killed := 1 }});;;
  release (proc_lock i).

Definition killed (i : Z) : M pstate Z :=
  acquire (proc_lock i);;;
  p <- getp i;;
  release (proc_lock i);;;
  ret (p_killed p).

(** Bytes to and from a user address, or a kernel address. *)
Definition either_copyout (user_dst : bool) (dst : Z) (src : list Z) : M pstate Z :=
  i <- myproc;;
  p <- getp i;;
  if user_dst then in_ram (copyout (pagetable p) dst src)
  else in_ram (modify (set_pmem (fun m => store_bytes m dst src)));;; ret 0.

Definition either_copyin (user_src : bool) (src len : Z) : M pstate (option (list Z)) :=
  i <- myproc;;
  p <- getp i;;
  if user_src then in_ram (copyin (pagetable p) src len)
  else in_ram (gets (fun m => Some (bytes_at (pmem m) src (Z.to_nat len)))).

Definition update_time : M pstate unit :=
  for_procs (fun i =>
    acquire (proc_lock i);;;
    p <- getp i;;
    when (bool_decide (state p = RUNNING)) (setp i (fun p => p {{ rtime ::= fun t => u32 (t + 1) }}));;;
    release (proc_lock i);;;
    next) (ret tt).

(** ** Waiting for children *)

(** Give the exit status of zombie [i] to its parent [me] and free its slot:
    the part of wait and waitx after a zombie child is found. *)
Definition reap (me i addr : Z) : M pstate Z :=
  p <- getp me;;
  c <- getp i;;
  r <- (if negb (addr =? 0)
        then in_ram (copyout (pagetable p) addr (int_bytes 4 (u32 (xstate c))))
        else ret 0);;
  if r <? 0 then
    release (proc_lock i);;;
    release wait_lock;;;
    ret (-1)
  else
    freeproc i;;;
    release (proc_lock i);;;
    release wait_lock;;;
    ret (pid c).

(** The scan of the table: [inr i] with zombie child [i] locked, or [inl b]
    with whether there are children. *)
Definition scan_children (me : Z) : M pstate (bool + Z) :=
  loop (Datatypes.S (Z.to_nat NPROC))
    (fun '(i, havekids) =>
       if i <? NPROC then
         c <- getp i;;
         if parent c =? me then
           acquire (proc_lock i);;;
           c <- getp i;;
           if decide (state c = ZOMBIE) then break (inr i)
           else
             release (proc_lock i);;;
             continue (i + 1, true)
         else continue (i + 1, havekids)
       else break (inl havekids)) (0, false).

(** [fuel] bounds how often the parent is woken before a child has exited. *)
Definition wait (fuel : nat) (addr : Z) : M pstate Z :=
  me <- myproc;;
  acquire wait_lock;;;
  loop fuel
    (fun _ : unit =>
       r <- scan_children me;;
       match r with
       | inr i => v <- reap me i addr;; break v
       | inl havekids =>
           stop <- (if negb havekids then ret true
                    else k <- killed me;; ret (negb (k =? 0)));;
           if stop then
             release wait_lock;;;
             break (-1)
           else
             sleep (proc_chan me) wait_lock;;;
             continue tt
       end) tt.

(** The result, and the waiting and running times if they were stored. *)
Definition waitx (fuel : nat) (addr : Z) : M pstate (Z * option (Z * Z)) :=
  me <- myproc;;
  acquire wait_lock;;;
  loop fuel
    (fun _ : unit =>
       r <- scan_children me;;
       match r with
       | inr i =>
           c <- getp i;;
           let times := (u32 (etime c - ctime c - rtime c), rtime c) in
           v <- reap me i addr;;
           break (v, Some times)
       | inl havekids =>
           p <- getp me;;
           if negb havekids || negb (p_killed p =? 0) then
             release wait_lock;;;
             break (-1, None)
           else
             sleep (proc_chan me) wait_lock;;;
             continue tt
       end) tt.

End Proc.
