(* ===== verification/Sched.v ===== *)
(** The two schedulers of kernel/proc.c (round robin, and the priority-based
    one of the assignment) and the clock that feeds them (kernel/trap.c).

    scheduler() loops forever; [rr_round] and [pbs_round] are one iteration of
    its [for (;;)].  [pbs_select] is the scan that chooses a process, keeping
    the lock of the best candidate; [better] is the comparison of the code. *)

From S2P Require Import Prelude Mem Riscv Locks Kalloc Vm Proc.

(** [_rbi]: the quotient is computed in unsigned arithmetic, because my_rtime,
    my_stime and my_wtime are of type uint, and then converted to int. *)
Definition _rbi (i : Z) : M pstate Z :=
  p <- getp i;;
  if rbi p =? 25 then
    setp i (fun p => p {{ rbi := -1 }});;;
    ret 25
  else
    let den := u32 (my_rtime p + my_wtime p + my_stime p + 1) in
    if den =? 0 then undef "division by zero"
    else
      let a := i32 (u32 (50 * (u32 (3 * my_rtime p - my_stime p - my_wtime p) / den))) in
      ret (if a <? 0 then 0 else a).

Definition min (a b : Z) : Z := if a <? b then a else b.

(** [min(p->static_pri + p->curr_rbi, 100)]: an unsigned sum passed as int. *)
Definition dp (p : proc) : Z := min (i32 (u32 (static_pri p + curr_rbi p))) 100.

(** The test by which [p] replaces the candidate [h]. *)
Definition better (p h : proc) : bool :=
  (dp p <? dp h) ||
  ((dp p =? dp h) && (tot_sche p >? tot_sche h)) ||
  ((dp p =? dp h) && (tot_sche p =? tot_sche h) && (ctime p <? ctime h)).

(** One process of the scan; [high] is the candidate so far, -1 for none. *)
Definition pbs_visit (i high : Z) : M pstate Z :=
  r <- _rbi i;;
  setp i (fun p => p {{ curr_rbi := r }});;;
  acquire (proc_lock i);;;
  p <- getp i;;
  if decide (state p = RUNNABLE) then
    if high =? -1 then ret i
    else
      h <- getp high;;
      if better p h then
        release (proc_lock high);;;
        ret i
      else
        release (proc_lock i);;;
        ret high
  else
    release (proc_lock i);;;
    ret high.

Definition pbs_select : M pstate Z :=
  loop (Datatypes.S (Z.to_nat NPROC))
    (fun '(i, high) =>
       if i <? NPROC then
         high' <- pbs_visit i high;;
         continue (i + 1, high')
       else break high) (0, -1).

(** After the scan [p] is [&proc[NPROC]], and so is the [p] of the statement
    [p->tot_sche++] that follows the context switch. *)
Definition pbs_round : M pstate unit :=
  high <- pbs_select;;
  if high =? -1 then ret tt
  else
    h <- getp high;;
    when (bool_decide (state h = RUNNABLE)) (
      setp high (fun p => p {{ state := RUNNING }});;;
      modify (fun s => s {{ cur := high }});;;
      swtch high;;;
      setp NPROC (fun p => p {{ tot_sche ::= fun n => i32 (n + 1) }});;;
      modify (fun s => s {{ cur := -1 }});;;
      release (proc_lock high)).

Definition rr_round : M pstate unit :=
  for_procs (fun i =>
    acquire (proc_lock i);;;
    p <- getp i;;
    when (bool_decide (state p = RUNNABLE)) (
      setp i (fun p => p {{ state := RUNNING }});;;
      modify (fun s => s {{ cur := i }});;;
      swtch i;;;
      modify (fun s => s {{ cur := -1 }}));;;
    release (proc_lock i);;;
    next) (ret tt).

(** ** The clock (trap.c) *)

Definition charge (p : proc) : proc :=
  match state p with
  | RUNNING => p {{ my_rtime ::= fun t => u32 (t + 1) }}
  | SLEEPING => p {{ my_stime ::= fun t => u32 (t + 1) }}
  | RUNNABLE => p {{ my_wtime ::= fun t => u32 (t + 1) }}
  | _ => p
  end.

Definition clockintr : M pstate unit :=
  acquire tickslock;;;
  modify (fun s => s {{ ticks ::= fun t => u32 (t + 1) }});;;
  update_time;;;
  for_procs (fun i =>
    acquire (proc_lock i);;;
    setp i charge;;;
    release (proc_lock i);;;
    next) (ret tt);;;
  wakeup ticks_chan;;;
  release tickslock.

(** set_priority (sysproc.c): reset the index, and give up the CPU when the
    priority rises. *)
Definition set_priority (target new_priority : Z) : M pstate Z :=
  if (new_priority <? 0) || (new_priority >? 100) then ret (-1)
  else
    r <- loop (Datatypes.S (Z.to_nat NPROC))
      (fun '(i, old, do_yield) =>
         if i <? NPROC then
           acquire (proc_lock i);;;
           p <- getp i;;
           if pid p =? target then
             let old' := i32 (static_pri p) in
             setp i (fun p => p {{ rbi := 25; static_pri := new_priority }});;;
             release (proc_lock i);;;
             continue (i + 1, old', do_yield || (old' >? new_priority))
           else
             release (proc_lock i);;;
             continue (i + 1, old, do_yield)
         else break (old, do_yield)) (0, -1, false);;
    let '(old, do_yield) := r in
    when do_yield yield;;;
    ret old.
