(* ===== verification/ProcFacts.v ===== *)
(** The process table: what the loops over proc[] compute, and what sleep,
    wakeup, kill, allocproc and wait promise. *)

From S2P Require Import Prelude Mem Riscv Locks Kalloc Vm Proc.

(** ** Access to the table *)

Lemma getp_ok i p s : geti (procs s) i = Some p -> getp i s = Done p s.
Proof. intros E. unfold getp, bind, gets. cbn [bindp]. by rewrite E. Qed.

Lemma setp_ok i f p s :
  geti (procs s) i = Some p -> setp i f s = Done tt (s {{ procs ::= seti i (f p) }}).
Proof. intros E. unfold setp, bind. rewrite (getp_ok i p s E). done. Qed.

(** The table after the processes below [n] were updated by [g]. *)
Definition upto (n : Z) (g : Z -> proc -> proc) (l : list proc) : list proc :=
  imap (fun j p => if Z.of_nat j <? n then g (Z.of_nat j) p else p) l.

Definition map_procs (g : Z -> proc -> proc) (s : pstate) : pstate :=
  s {{ procs ::= imap (fun j => g (Z.of_nat j)) }}.

Lemma geti_imap {A B} (f : nat -> A -> B) l i :
  geti (imap f l) i = f (Z.to_nat i) <$> geti l i.
Proof. unfold geti. case_match; [apply list_lookup_imap|done]. Qed.

Lemma upto_0 g l : upto 0 g l = l.
Proof.
  unfold upto. apply list_eq. intros j. rewrite list_lookup_imap.
  destruct (l !! j); simpl; [|done]. destruct (Z.ltb_spec (Z.of_nat j) 0); [lia|done].
Qed.

Lemma upto_length n g l : length (upto n g l) = length l.
Proof. apply length_imap. Qed.

Lemma upto_step i g l p :
  geti l i = Some p -> seti i (g i p) (upto i g l) = upto (i + 1) g l.
Proof.
  intros E. pose proof (geti_Some_lt _ _ _ E) as Hi. unfold geti in E. unfold seti.
  rewrite (proj2 (Z.leb_le 0 i)) in * by lia. apply list_eq. intros j.
  destruct (decide (j = Z.to_nat i)) as [-> |Hne].
  - rewrite list_lookup_insert_eq by (rewrite upto_length; lia). unfold upto.
    rewrite list_lookup_imap, E. simpl. rewrite Z2Nat.id by lia.
    by rewrite (proj2 (Z.ltb_lt _ _)) by lia.
  - rewrite list_lookup_insert_ne by done. unfold upto. rewrite !list_lookup_imap.
    destruct (l !! j); simpl; [|done].
    destruct (Z.ltb_spec (Z.of_nat j) i), (Z.ltb_spec (Z.of_nat j) (i + 1)); done || lia.
Qed.

Lemma upto_all g l n :
  Z.of_nat (length l) <= n -> upto n g l = imap (fun j => g (Z.of_nat j)) l.
Proof.
  intros Hn. unfold upto. apply list_eq. intros j. rewrite !list_lookup_imap.
  destruct (l !! j) eqn:E; simpl; [|done]. apply lookup_lt_Some in E.
  by rewrite (proj2 (Z.ltb_lt _ _)) by lia.
Qed.

Lemma upto_here i g l : geti (upto i g l) i = geti l i.
Proof.
  unfold upto. rewrite geti_imap. destruct (geti l i) as [p|] eqn:E; simpl; [|done].
  apply geti_Some_lt in E. rewrite Z2Nat.id by lia. by rewrite Z.ltb_irrefl.
Qed.

Definition full_table (s : pstate) : Prop := Z.of_nat (length (procs s)) = NPROC.

Lemma seti_same {A} i (x y : A) l : seti i x (seti i y l) = seti i x l.
Proof. unfold seti. case_match; [apply list_insert_insert_eq|done]. Qed.

(** A loop whose body updates one process at a time. *)
Lemma for_procs_map (body : Z -> M pstate (option unit)) g s :
  full_table s ->
  (forall i s' p, geti (procs s') i = Some p -> plocks s' = plocks s -> cur s' = cur s ->
     body i s' = Done None (s' {{ procs ::= seti i (g i p) }})) ->
  for_procs body (ret tt) s = Done tt (map_procs g s).
Proof.
  intros Hfull Hbody. unfold for_procs, full_table in *.
  assert (Hruns : runs (for_to NPROC body (ret tt)) s (fun _ s' => s' = map_procs g s)).
  { apply (wp_for_to _ _ _ _ (fun i s' => s' = s {{ procs ::= upto i g }})); [done| | |].
    - destruct s; simpl. by rewrite upto_0.
    - intros i s' Hi ->. destruct (geti_is_Some (procs s) i) as [p E]; [lia|].
      rewrite (Hbody i _ p);
        [|change (geti (upto i g (procs s)) i = Some p); by rewrite upto_here|done|done].
      simpl. destruct s as [pr a b c d e f]. simpl in *. by rewrite (upto_step i g pr p).
    - intros s' ->. simpl. unfold map_procs. destruct s. simpl in *.
      by rewrite (upto_all g) by lia. }
  destruct (wp_done_inv _ _ Hruns) as ([] & s' & E & ->). done.
Qed.

(** ** The body shared by the accounting loops: lock, update, unlock *)

Lemma locked_update i f p s :
  proc_lock i ∉ plocks s -> geti (procs s) i = Some p ->
  bind (acquire (proc_lock i)) (fun _ =>
    bind (setp i f) (fun _ => bind (release (proc_lock i)) (fun _ => @next pstate unit))) s
  = Done None (s {{ procs ::= seti i (f p) }}).
Proof.
  intros Hl E. unfold bind. rewrite acquire_free by done. cbn [bindp].
  rewrite (setp_ok i f p) by done. cbn [bindp].
  rewrite release_held by (simpl; auto with kernel). cbn.
  by rewrite held_cycle by done.
Qed.

Lemma seti_id {A} (l : list A) i x : geti l i = Some x -> seti i x l = l.
Proof. unfold geti, seti. case_match; [apply list_insert_id|done]. Qed.

Lemma pstate_eta s : PState (procs s) (nextpid s) (initproc s) (ticks s) (cur s) (ram s) (plocks s) = s.
Proof. by destruct s. Qed.

(** ** wakeup, update_time *)

(** The locks of other processes are free, as the callers ensure. *)
Definition others_unlocked (s : pstate) : Prop := forall i, i <> cur s -> proc_lock i ∉ plocks s.
Definition procs_unlocked (s : pstate) : Prop := forall i, proc_lock i ∉ plocks s.

Definition woken (ch : chan) (me i : Z) (p : proc) : proc :=
  if decide (i <> me /\ state p = SLEEPING /\ p_chan p = Some ch)
  then p {{ state := RUNNABLE }} else p.

(** The statements of wakeup() for one slot, and what follows them. *)
Lemma wake_steps_eq ch i p s rest :
  (i <> cur s -> proc_lock i ∉ plocks s) -> geti (procs s) i = Some p ->
  seqs (wake_steps ch (cur s) i ++ rest) s = seqs rest (s {{ procs ::= seti i (woken ch (cur s) i p) }}).
Proof.
  intros Hl E. unfold wake_steps, woken. destruct (Z.eqb_spec i (cur s)) as [Heq|Hne]; cbn [seqs app].
  - rewrite decide_False by tauto. destruct s as [pr a b c d e f]. simpl in *. by rewrite (seti_id pr i p).
  - unfold wake_slot, when, bind. rewrite acquire_free by auto. cbn [bindp].
    rewrite (getp_ok i p) by done. cbn [bindp].
    destruct (decide (state p = SLEEPING /\ p_chan p = Some ch)) as [Hd|Hd].
    + rewrite bool_decide_eq_true_2 by done. rewrite (setp_ok i _ p) by done. cbn [bindp].
      rewrite release_held by (simpl; auto with kernel). cbn.
      rewrite decide_True by tauto. by rewrite held_cycle by auto.
    + rewrite bool_decide_eq_false_2 by done. cbn [bindp ret].
      rewrite release_held by (simpl; auto with kernel). cbn. rewrite held_cycle by auto.
      rewrite decide_False by tauto. destruct s as [pr a b c d e f]. simpl in *. by rewrite (seti_id pr i p).
Qed.

Lemma wakeup_eq ch s :
  full_table s -> others_unlocked s -> wakeup ch s = Done tt (map_procs (woken ch (cur s)) s).
Proof.
  intros Hfull Hun. apply for_procs_map; [done|]. intros i s' p E Hl Hc.
  unfold bind at 1, myproc, gets. cbn [bindp]. rewrite <- Hc, <- (app_nil_r (wake_steps ch (cur s') i)). unfold bind.
  rewrite (wake_steps_eq ch i p) by (done || (rewrite Hl, Hc; apply Hun)). done.
Qed.

(** All the statements of wakeup(). *)
Definition wakeup_steps (ch : chan) (me : Z) : list (M pstate unit) :=
  concat (wake_steps ch me <$> seqZ 0 NPROC).

Lemma wakeup_steps_eq ch s :
  full_table s -> others_unlocked s -> wakeup ch s = seqs (wakeup_steps ch (cur s)) s.
Proof.
  intros Hfull Hun. rewrite wakeup_eq by done. unfold full_table in Hfull.
  set (g := woken ch (cur s)).
  assert (Hgen : forall n i, 0 <= i -> i + Z.of_nat n = NPROC ->
    seqs (concat (wake_steps ch (cur s) <$> seqZ i (Z.of_nat n))) (s {{ procs ::= upto i g }})
    = Done tt (s {{ procs ::= upto NPROC g }})).
  { induction n as [|n IH]; intros i Hi Hn.
    - replace i with NPROC by lia. done.
    - rewrite seqZ_cons by lia. rewrite fmap_cons. cbn [concat].
      destruct (geti_is_Some (procs s) i) as [p E]; [lia|].
      pose proof (wake_steps_eq ch i p (s {{ procs ::= upto i g }})) as Hw. cbn [cur plocks procs apply_update] in Hw.
      rewrite Hw; [|by apply Hun|change (geti (upto i g (procs s)) i = Some p); by rewrite upto_here].
      rewrite <- (IH (i + 1)) by lia. replace (Z.pred (Z.of_nat (Datatypes.S n))) with (Z.of_nat n) by lia.
      replace (Z.succ i) with (i + 1) by lia. f_equal. destruct s as [pr a b c d e f]. simpl in *.
      change (woken ch d i p) with (g i p). by rewrite (upto_step i g pr p). }
  specialize (Hgen (Z.to_nat NPROC) 0 ltac:(lia) ltac:(done)). change (Z.of_nat (Z.to_nat NPROC)) with NPROC in Hgen.
  unfold wakeup_steps. replace (s {{ procs ::= upto 0 g }}) with s in Hgen by (destruct s; simpl; by rewrite upto_0).
  rewrite Hgen. unfold map_procs. destruct s. simpl in *. by rewrite (upto_all g) by lia.
Qed.

Definition ran (i : Z) (p : proc) : proc :=
  if decide (state p = RUNNING) then p {{ rtime ::= fun t => u32 (t + 1) }} else p.

Lemma update_time_eq s :
  full_table s -> procs_unlocked s -> update_time s = Done tt (map_procs ran s).
Proof.
  intros Hfull Hun. apply for_procs_map; [done|]. intros i s' p E Hl Hc.
  unfold when, bind. rewrite acquire_free by (simpl; rewrite Hl; by apply Hun). cbn [bindp].
  rewrite (getp_ok i p) by done. cbn [bindp]. unfold ran.
  destruct (decide (state p = RUNNING)) as [Hd|Hd].
  - rewrite bool_decide_eq_true_2 by done. rewrite (setp_ok i _ p) by done. cbn [bindp].
    rewrite release_held by (simpl; auto with kernel). cbn.
    rewrite held_cycle by (rewrite Hl; by apply Hun). done.
  - rewrite bool_decide_eq_false_2 by done. cbn [bindp ret].
    rewrite release_held by (simpl; auto with kernel). cbn.
    rewrite held_cycle by (rewrite Hl; by apply Hun).
    rewrite (seti_id _ _ p) by done. by destruct s'.
Qed.

(** ** Searches with an early exit *)

(** The first process that satisfies [f]. *)
Definition first_proc (f : proc -> bool) (l : list proc) : option (Z * proc) :=
  '(i, p) ← list_find (fun p => f p = true) l; Some (Z.of_nat i, p).

Lemma first_proc_Some f l i p :
  first_proc f l = Some (i, p) <->
  geti l i = Some p /\ f p = true /\ forall j q, j < i -> geti l j = Some q -> f q = false.
Proof.
  unfold first_proc. split.
  - destruct (list_find _ l) as [[k q]|] eqn:E; simpl; [|done]. intros [= <- <-].
    apply list_find_Some in E as (Hk & Hf & Hlt). split; [|split; [done|]].
    + unfold geti. rewrite (proj2 (Z.leb_le 0 _)) by lia. by rewrite Nat2Z.id.
    + intros j q' Hj Hq. unfold geti in Hq. destruct (Z.leb_spec 0 j); [|done].
      destruct (f q') eqn:Hf'; [|done]. exfalso. by apply (Hlt (Z.to_nat j) q'); [|lia|].
  - intros (Hi & Hf & Hlt). pose proof (geti_Some_lt _ _ _ Hi) as Hr.
    unfold geti in Hi. rewrite (proj2 (Z.leb_le 0 _)) in Hi by lia.
    assert (list_find (fun p => f p = true) l = Some (Z.to_nat i, p)) as ->.
    { apply list_find_Some. split; [done|]. split; [done|]. intros j q Hj Hlt' Hq.
      rewrite (Hlt (Z.of_nat j) q) in Hq; [done|lia|]. unfold geti.
      rewrite (proj2 (Z.leb_le 0 _)) by lia. by rewrite Nat2Z.id. }
    simpl. by rewrite Z2Nat.id by lia.
Qed.

Lemma first_proc_None f l :
  first_proc f l = None <-> forall j q, geti l j = Some q -> f q = false.
Proof.
  unfold first_proc. split.
  - destruct (list_find _ l) as [[k q]|] eqn:E; simpl; [done|]. intros _ j q Hq.
    apply list_find_None in E. rewrite Forall_forall in E. destruct (f q) eqn:Hf; [|done].
    exfalso. unfold geti in Hq. case_match; [|done]. by eapply E, Hf; eapply list_elem_of_lookup_2.
  - intros Hall. assert (list_find (fun p => f p = true) l = None) as ->; [|done].
    apply list_find_None, Forall_forall. intros q [j Hj]%list_elem_of_lookup Hq.
    rewrite (Hall (Z.of_nat j) q) in Hq; [done|]. unfold geti.
    rewrite (proj2 (Z.leb_le 0 _)) by lia. by rewrite Nat2Z.id.
Qed.

(** A loop that leaves at the first process that satisfies [f] and changes
    nothing before. *)
Lemma for_procs_find {A} (body : Z -> M pstate (option A)) (d : A) f s :
  full_table s ->
  (forall i p, geti (procs s) i = Some p -> f p = false -> body i s = Done None s) ->
  (forall i p, geti (procs s) i = Some p -> f p = true -> exists a s', body i s = Done (Some a) s') ->
  for_procs body (ret d) s
  = match first_proc f (procs s) with
    | Some (i, _) => bindp (body i s) (fun r => match r with Some a => ret a | None => ret d end)
    | None => Done d s
    end.
Proof.
  intros Hfull Hskip Hhit. unfold for_procs, for_to, full_table in *.
  assert (Hgen : forall k i, 0 <= i <= NPROC -> (Z.to_nat (NPROC - i) < k)%nat ->
    (forall j q, j < i -> geti (procs s) j = Some q -> f q = false) ->
    loop k (fun i => if i <? NPROC then
         r <- body i;; match r with Some a => break a | None => continue (i + 1) end
       else a <- ret d;; break a) i s
    = match first_proc f (procs s) with
      | Some (i, _) => bindp (body i s) (fun r => match r with Some a => ret a | None => ret d end)
      | None => Done d s
      end).
  { induction k as [|k IH]; intros i Hi Hk Hbefore; [lia|]. cbn [loop].
    destruct (Z.ltb_spec i NPROC) as [Hlt|Hge].
    - destruct (geti_is_Some (procs s) i) as [p E]; [lia|]. unfold bind at 1 2.
      destruct (f p) eqn:Hf.
      + destruct (Hhit i p E Hf) as (a & s' & Eb).
        assert (first_proc f (procs s) = Some (i, p)) as -> by (by apply first_proc_Some).
        by rewrite Eb.
      + rewrite (Hskip i p E Hf). cbn. apply IH; [lia|lia|].
        intros j q Hj Hq. destruct (decide (j = i)) as [-> |]; [congruence|].
        apply (Hbefore j); [lia|done].
    - assert (first_proc f (procs s) = None) as ->.
      { apply first_proc_None. intros j q Hq. apply (Hbefore j q); [|done].
        apply geti_Some_lt in Hq. lia. }
      done. }
  apply Hgen; [unfold NPROC; lia|unfold NPROC; lia|].
  intros j q Hj Hq. apply geti_Some_lt in Hq. lia.
Qed.

Lemma geti_nat_inv {A} (l : list A) i x : geti l i = Some x -> l !! Z.to_nat i = Some x.
Proof. unfold geti. by case_match. Qed.

(** A process updated in the table. *)
Definition up (i : Z) (f : proc -> proc) (s : pstate) : pstate :=
  match geti (procs s) i with
  | Some p => s {{ procs ::= seti i (f p) }}
  | None => s
  end.

(** ** The zombie scan of wait and waitx *)

Definition child_of (me : Z) (p : proc) : bool := parent p =? me.
Definition zombie_of (me : Z) (p : proc) : bool := (parent p =? me) && bool_decide (state p = ZOMBIE).

Lemma scan_children_eq me s :
  full_table s -> procs_unlocked s ->
  scan_children me s
  = match first_proc (zombie_of me) (procs s) with
    | Some (i, _) => Done (inr i) (s {{ plocks := {[proc_lock i]} ∪ plocks s }})
    | None => Done (inl (existsb (child_of me) (procs s))) s
    end.
Proof.
  intros Hfull Hun. unfold scan_children, full_table in *.
  assert (Hgen : forall k i b, 0 <= i <= NPROC -> (Z.to_nat (NPROC - i) < k)%nat ->
    b = existsb (child_of me) (take (Z.to_nat i) (procs s)) ->
    (forall j q, j < i -> geti (procs s) j = Some q -> zombie_of me q = false) ->
    loop k (fun '(i, havekids) =>
       if i <? NPROC then
         c <- getp i;;
         if parent c =? me then
           acquire (proc_lock i);;;
           c <- getp i;;
           if decide (state c = ZOMBIE) then break (inr i)
           else release (proc_lock i);;; continue (i + 1, true)
         else continue (i + 1, havekids)
       else break (inl havekids)) (i, b) s
    = match first_proc (zombie_of me) (procs s) with
      | Some (i, _) => Done (inr i) (s {{ plocks := {[proc_lock i]} ∪ plocks s }})
      | None => Done (inl (existsb (child_of me) (procs s))) s
      end).
  { induction k as [|k IH]; intros i b Hi Hk Hb Hbefore; [lia|]. cbn [loop].
    destruct (Z.ltb_spec i NPROC) as [Hlt|Hge].
    - destruct (geti_is_Some (procs s) i) as [p E]; [lia|].
      unfold bind at 1 2. rewrite (getp_ok i p s E). cbn [bindp].
      assert (Hgo : zombie_of me p = false ->
        forall j q, j < i + 1 -> geti (procs s) j = Some q -> zombie_of me q = false).
      { intros Hz j q Hj Hq. destruct (decide (j = i)) as [-> |]; [congruence|].
        apply (Hbefore j); [lia|done]. }
      assert (Htake : existsb (child_of me) (take (Z.to_nat (i + 1)) (procs s)) = b || child_of me p).
      { replace (Z.to_nat (i + 1)) with (Datatypes.S (Z.to_nat i)) by lia.
        apply geti_nat_inv in E. rewrite (take_S_r _ _ p), existsb_app by done. simpl.
        by rewrite orb_false_r, Hb. }
      unfold zombie_of, child_of in *. destruct (Z.eqb_spec (parent p) me) as [Hp|Hp].
      + unfold bind at 1. rewrite acquire_free by apply Hun. cbn [bindp].
        unfold bind at 1. rewrite (getp_ok i p) by done. cbn [bindp].
        destruct (decide (state p = ZOMBIE)) as [Hz|Hz].
        * assert (first_proc (zombie_of me) (procs s) = Some (i, p)) as Hf.
          { apply first_proc_Some. split; [done|]. split; [|done]. unfold zombie_of.
            by rewrite (proj2 (Z.eqb_eq _ _) Hp), bool_decide_eq_true_2. }
          unfold zombie_of in Hf. rewrite Hf. done.
        * unfold bind at 1. rewrite lock_cycle by apply Hun. cbn. apply IH; [lia|lia| |].
          -- by rewrite Htake, orb_true_r.
          -- apply Hgo. by rewrite bool_decide_eq_false_2.
      + cbn. apply IH; [lia|lia| |].
        * by rewrite Htake, orb_false_r.
        * apply Hgo. done.
    - assert (first_proc (zombie_of me) (procs s) = None) as ->.
      { apply first_proc_None. intros j q Hq. apply (Hbefore j q); [|done].
        apply geti_Some_lt in Hq. lia. }
      rewrite Hb, take_ge by lia. done. }
  apply Hgen; [unfold NPROC; lia|unfold NPROC; lia|done|].
  intros j q Hj Hq. apply geti_Some_lt in Hq. lia.
Qed.

(** ** A run that works on one slot of the table *)

Lemma bind_done {S A B} (m : M S A) (f : A -> M S B) s a s' :
  m s = Done a s' -> bind m f s = f a s'.
Proof. intros E. unfold bind. by rewrite E. Qed.

(** [put i q s]: slot [i] holds [q]. *)
Definition put (i : Z) (q : proc) (s : pstate) : pstate := s {{ procs ::= seti i q }}.

Lemma put_id i p s : geti (procs s) i = Some p -> put i p s = s.
Proof. intros E. unfold put. destruct s; simpl in *. by rewrite (seti_id _ _ p). Qed.

Lemma put_put i p q s : put i p (put i q s) = put i p s.
Proof. unfold put. simpl. by rewrite seti_same. Qed.

Lemma geti_put i q s : 0 <= i < Z.of_nat (length (procs s)) -> geti (procs (put i q s)) i = Some q.
Proof. intros Hi. by apply geti_seti_eq. Qed.

Lemma getp_put i q s : 0 <= i < Z.of_nat (length (procs s)) -> getp i (put i q s) = Done q (put i q s).
Proof. intros Hi. apply getp_ok. by apply geti_put. Qed.

Lemma setp_put i f q s :
  0 <= i < Z.of_nat (length (procs s)) -> setp i f (put i q s) = Done tt (put i (f q) s).
Proof. intros Hi. rewrite (setp_ok i f q) by (by apply geti_put). by rewrite <- (put_put i (f q) q). Qed.

Lemma in_ram_same {A} (m : M phys A) a s : m (ram s) = Done a (ram s) -> in_ram m s = Done a s.
Proof.
  intros E. unfold in_ram, zoom. destruct s; simpl in *. by rewrite E.
Qed.

(** ** A small process table, for concrete runs *)

Definition blank : proc :=
  Proc UNUSED None 0 0 0 (-1) 0 0 0 0 0 0 (replicate 16 (-1)) (-1) (replicate 16 0)
    0 0 0 0 0 0 0 0 0 0.

(** The first process runs on this hart; it has a child asleep on the clock, a
    runnable child that waited long, and a zombie grandchild. *)
Definition demo_table : list proc :=
  [ blank {{ state := RUNNING; pid := 1; static_pri := 50; rbi := 25 }};
    blank {{ state := SLEEPING; p_chan := Some ticks_chan; pid := 2; parent := 0; static_pri := 50; rbi := 25 }};
    blank {{ state := RUNNABLE; pid := 3; parent := 0; static_pri := 40; rbi := -1; my_wtime := 3 }};
    blank {{ state := ZOMBIE; pid := 4; parent := 2; xstate := 7; static_pri := 50; rbi := 25 }} ]
  ++ replicate 60 blank.

Definition demo : pstate :=
  PState demo_table 5 0 100 0 (Phys (fun _ => 0) 0 ∅ ∅) ∅.

Lemma demo_full : full_table demo.
Proof. reflexivity. Qed.

Lemma demo_unlocked : procs_unlocked demo.
Proof. intros i. apply not_elem_of_empty. Qed.
