(* ===== verification/ProcProps.v ===== *)
(** What the process layer promises: sleep and wakeup, kill, the search for a
    free slot, the zombie scan, and the clock. *)

From stdpp Require Import functions.
From S2P Require Import Prelude Mem Riscv Locks Kalloc Vm Proc ProcFacts Sched.

Section Props.
Context `{Layout}.

(** The sleeping process's entry in the table. *)
Definition asleep (ch : chan) (p : proc) : proc := p {{ p_chan := Some ch; state := SLEEPING }}.

Lemma sched_yields s p :
  geti (procs s) (cur s) = Some p -> plocks s = {[proc_lock (cur s)]} -> state p <> RUNNING ->
  sched s = Sleep ("swtch"%string, cur s) s (Done tt).
Proof.
  intros E Hl Hs. unfold sched, bind, myproc, gets. cbn [bindp].
  unfold holding, noff. change (held s) with (plocks s). rewrite Hl.
  rewrite bool_decide_eq_true_2 by set_solver. cbn [negb]. cbv beta iota.
  rewrite Hl, size_singleton. change (negb (Z.of_nat 1 =? 1)) with false. cbv iota beta.
  rewrite (getp_ok _ p) by done. cbn [bindp]. by rewrite decide_False.
Qed.

(** sleep(chan, lk), called with only [lk] held, gives up the CPU in a state where the
    process is SLEEPING on [chan], [lk] is free and only the process's own lock is
    held; when it is switched to again it clears the channel and returns holding
    exactly [lk]. *)
Lemma sleep_yields s p ch lk :
  geti (procs s) (cur s) = Some p -> plocks s = {[lk]} -> lk <> proc_lock (cur s) ->
  exists k, sleep ch lk s
  = Sleep ("swtch"%string, cur s)
      (s {{ plocks := {[proc_lock (cur s)]}; procs := seti (cur s) (asleep ch p) (procs s) }}) k /\
    forall s2 p2, cur s2 = cur s -> plocks s2 = {[proc_lock (cur s)]} ->
      geti (procs s2) (cur s) = Some p2 ->
      k s2 = Done tt (s2 {{ procs ::= seti (cur s) (p2 {{ p_chan := None }}); plocks := {[lk]} }}).
Proof.
  intros E Hl Hne. pose proof (geti_Some_lt _ _ _ E) as Hrange.
  set (me := cur s) in *.
  set (s1 := s {{ plocks := {[proc_lock me]}; procs := seti me (asleep ch p) (procs s) }}).
  unfold sleep, sleep_steps, bind. cbn [bindp myproc gets seqs]. fold me. unfold bind.
  rewrite acquire_free by (simpl; rewrite Hl; set_solver). cbn [bindp].
  rewrite release_held by (simpl; rewrite Hl; set_solver). cbn [bindp].
  erewrite setp_ok by exact E. cbn [bindp].
  match goal with |- context [sched ?x] => replace x with s1 end.
  2: { unfold s1. destruct s; simpl in *; subst. f_equal; set_solver. }
  rewrite (sched_yields s1 (asleep ch p)) by (done || by apply geti_seti_eq). cbn [bindp].
  eexists. split; [done|]. intros s2 p2 Hc2 Hl2 E2. cbn [bindp ret]. rewrite (setp_ok me _ p2) by done. cbn [bindp].
  set (q := p2 {{ p_chan := None }}). destruct s2; simpl in Hc2, Hl2, E2; subst.
  rewrite release_held by (change (proc_lock me ∈@{gset lock} {[proc_lock me]}); set_solver).
  cbn [bindp].
  rewrite acquire_free by (simpl; set_solver). simpl. unfold ret. do 2 f_equal. set_solver.
Qed.

End Props.

(** ** Sleepers and wakers on several harts *)

Definition hart : Type := nat.

(** What the harts share, the locks each holds, the process each runs and the
    statements each has left. *)
Record harts := Harts {
  shared : pstate;
  locks_of : hart -> gset lock;
  runs_on : hart -> Z;
  code : hart -> list (M pstate unit);
}.

Definition view (g : harts) (h : hart) : pstate :=
  (shared g) {{ cur := runs_on g h; plocks := locks_of g h }}.

Definition after (g : harts) (h : hart) (v : pstate) (l : list (M pstate unit)) : harts :=
  Harts v (<[h := plocks v]> (locks_of g)) (runs_on g) (<[h := l]> (code g)).

(** acquire() waits for a lock that another hart holds. *)
Definition may_take (g : harts) (h : hart) (v : pstate) : Prop :=
  forall l h', l ∈ plocks v -> l ∉ locks_of g h -> l ∉ locks_of g h'.

(** A statement of a hart.  After swtch() the hart runs its scheduler, which releases
    the process's lock and goes on with other processes. *)
Inductive hart_step (h : hart) (g : harts) : harts -> Prop :=
| hart_runs m l v :
    code g h = m :: l -> m (view g h) = Done tt v -> may_take g h v -> hart_step h g (after g h v l)
| hart_switches m l i v k :
    code g h = m :: l -> m (view g h) = Sleep ("swtch"%string, i) v k ->
    hart_step h g (after g h v [release (proc_lock i)]).

(** What other harts than [h1] and [h2] do: anything but changing whether and on what the
    process [i] sleeps. *)
Record others_step (i : Z) (h1 h2 : hart) (g g' : harts) : Prop := {
  others_code : forall h, h = h1 \/ h = h2 ->
    code g' h = code g h /\ locks_of g' h = locks_of g h /\ runs_on g' h = runs_on g h;
  others_table : length (procs (shared g')) = length (procs (shared g));
  others_slot : forall p, geti (procs (shared g)) i = Some p ->
    exists p', geti (procs (shared g')) i = Some p' /\ state p' = state p /\ p_chan p' = p_chan p;
}.

Section Interleaved.
Context (i me : Z) (ch : chan) (lk : lock) (h1 h2 : hart).

(** Hart [h1] runs the process [i], which calls sleep(ch, lk) with [lk] held; hart [h2]
    waits for [lk], wakes [ch] up and releases [lk]. *)
Record about_to_sleep (g : harts) : Prop := {
  ats_harts : h1 <> h2;
  ats_procs : me <> i;
  ats_lock : forall j, lk <> proc_lock j;
  ats_table : full_table (shared g);
  ats_slot : is_Some (geti (procs (shared g)) i);
  ats_runs : runs_on g h1 = i /\ runs_on g h2 = me;
  ats_held : locks_of g h1 = {[lk]} /\ locks_of g h2 = ∅;
  ats_sleep : code g h1 = sleep_steps i ch lk;
  ats_wake : code g h2 = acquire lk :: wakeup_steps ch me ++ [release lk];
}.

Inductive sleep_step (g g' : harts) : Prop :=
| step_one h : h = h1 \/ h = h2 -> hart_step h g g' -> sleep_step g g'
| step_others : others_step i h1 h2 g g' -> sleep_step g g'.

(** *** Where the two harts are *)

(** The sleeper: at which of its statements, and with which locks. *)
Inductive sleeper : nat -> list (M pstate unit) -> gset lock -> Prop :=
| at_acquire : sleeper 0 (sleep_steps i ch lk) {[lk]}
| at_release : sleeper 1 (drop 1 (sleep_steps i ch lk)) {[proc_lock i; lk]}
| at_set : sleeper 2 (drop 2 (sleep_steps i ch lk)) {[proc_lock i]}
| at_sched : sleeper 3 (drop 3 (sleep_steps i ch lk)) {[proc_lock i]}
| at_switched : sleeper 4 [release (proc_lock i)] {[proc_lock i]}
| at_away : sleeper 5 [] ∅.

(** The statements for the slots [js]. *)
Fixpoint slots_code (js : list Z) : list (M pstate unit) :=
  match js with
  | [] => []
  | j :: js => acquire (proc_lock j) :: wake_slot ch j :: release (proc_lock j) :: slots_code js
  end.

Definition slots (js : list Z) : Prop := NoDup js /\ forall j, j ∈ js -> 0 <= j < NPROC.

(** The waker, with the slots it has not come to. *)
Inductive waker : option (list Z) -> list (M pstate unit) -> gset lock -> Prop :=
| at_start js : wakeup_steps ch me = slots_code js -> slots js -> i ∈ js ->
    waker None (acquire lk :: wakeup_steps ch me ++ [release lk]) ∅
| at_slots js : slots js -> waker (Some js) (slots_code js ++ [release lk]) {[lk]}
| at_slot j js : slots (j :: js) ->
    waker (Some (j :: js)) (wake_slot ch j :: release (proc_lock j) :: slots_code js ++ [release lk]) {[proc_lock j; lk]}
| at_unlock j js : slots js -> waker (Some js) (release (proc_lock j) :: slots_code js ++ [release lk]) {[proc_lock j; lk]}
| at_end : waker (Some []) [] ∅.

Definition past (w : option (list Z)) : Prop := match w with None => False | Some js => i ∉ js end.

Record sleep_inv (g : harts) (k : nat) (w : option (list Z)) : Prop := {
  si_sleeper : sleeper k (code g h1) (locks_of g h1);
  si_waker : waker w (code g h2) (locks_of g h2);
  si_runs : runs_on g h1 = i /\ runs_on g h2 = me;
  si_table : full_table (shared g);
  si_slot : exists p, geti (procs (shared g)) i = Some p /\
    ((3 <= k)%nat -> p_chan p = Some ch /\ (past w -> state p = RUNNABLE) /\ (~ past w -> state p = SLEEPING));
  si_started : w <> None -> (2 <= k)%nat;
  si_locked : proc_lock i ∈ locks_of g h2 -> k = 5%nat;
  si_past : past w -> k = 5%nat;
}.


(** *** Each statement of the two harts *)

Lemma after_view g h v l :
  locks_of (after g h v l) h = plocks v /\ code (after g h v l) h = l /\ runs_on (after g h v l) = runs_on g.
Proof. unfold after. cbn. by rewrite !fn_lookup_insert. Qed.

Lemma after_other g h h' v l :
  h' <> h -> locks_of (after g h v l) h' = locks_of g h' /\ code (after g h v l) h' = code g h'.
Proof. intros Hne. unfold after. cbn. by rewrite !fn_lookup_insert_ne. Qed.

Lemma wakeup_steps_slots : exists js, wakeup_steps ch me = slots_code js /\ slots js /\ (0 <= i < NPROC -> me <> i -> i ∈ js).
Proof.
  exists (filter (fun j => j <> me) (seqZ 0 NPROC)). split; [|split].
  - unfold wakeup_steps. induction (seqZ 0 NPROC) as [|j l IH]; [done|]. rewrite fmap_cons, filter_cons. cbn [concat].
    unfold wake_steps at 1. destruct (Z.eqb_spec j me) as [->|Hne].
    + by rewrite decide_False by tauto.
    + rewrite decide_True by done. cbn [slots_code app]. by rewrite IH.
  - split; [apply NoDup_filter, NoDup_seqZ|]. intros j [_ Hj%elem_of_seqZ]%list_elem_of_filter. lia.
  - intros Hi Hne. apply list_elem_of_filter. split; [done|]. by apply elem_of_seqZ.
Qed.

Lemma start_inv g : about_to_sleep g -> sleep_inv g 0 None.
Proof.
  intros [Hh Hp Hl Ht [p Hs] Hr [L1 L2] C1 C2].
  pose proof (geti_Some_lt _ _ _ Hs) as Hi. unfold full_table in Ht.
  destruct wakeup_steps_slots as (js & Ew & Hnd & Hin).
  split; rewrite ?L1, ?L2, ?C1, ?C2; try done.
  - constructor.
  - apply (at_start js); [done|done|apply Hin; [lia|done]].
  - exists p. split; [done|]. lia.
Qed.

(** What a step has to give for the invariant to go on. *)
Lemma sleeper_next g k w v l :
  h1 <> h2 -> sleep_inv g k w -> (k < 5)%nat -> sleeper (Datatypes.S k) l (plocks v) ->
  length (procs v) = length (procs (shared g)) ->
  (exists p, geti (procs v) i = Some p /\ ((2 <= k)%nat -> p_chan p = Some ch /\ state p = SLEEPING)) ->
  sleep_inv (after g h1 v l) (Datatypes.S k) w.
Proof.
  intros Hh [S1 S2 S3 S4 S5 S6 S7 S8] Hk Hs Hlen (p & Hp & Hslot).
  destruct (after_view g h1 v l) as (E1 & E2 & E3). destruct (after_other g h1 h2 v l) as (E4 & E5); [done|].
  split; rewrite ?E1, ?E2, ?E3, ?E4, ?E5; try done.
  - change (full_table v). unfold full_table in *. by rewrite Hlen.
  - exists p. split; [done|]. intros Hk2. destruct Hslot as [Hc Hst]; [lia|]. split; [done|]. split; [|done].
    intros Hw. apply S8 in Hw. lia.
  - intros Hw. apply S6 in Hw. lia.
  - intros Hl. apply S7 in Hl. lia.
  - intros Hl. apply S8 in Hl. lia.
Qed.

Lemma waker_next g k w w' v l :
  h1 <> h2 -> sleep_inv g k w -> waker w' l (plocks v) ->
  length (procs v) = length (procs (shared g)) ->
  (forall p, geti (procs (shared g)) i = Some p -> exists p', geti (procs v) i = Some p' /\
    ((3 <= k)%nat -> p_chan p = Some ch -> (past w -> state p = RUNNABLE) -> (~ past w -> state p = SLEEPING) ->
     p_chan p' = Some ch /\ (past w' -> state p' = RUNNABLE) /\ (~ past w' -> state p' = SLEEPING))) ->
  (2 <= k)%nat -> (proc_lock i ∈ plocks v -> k = 5%nat) -> (past w' -> k = 5%nat) ->
  sleep_inv (after g h2 v l) k w'.
Proof.
  intros Hh [S1 S2 S3 S4 (p & Hp & Hslot) S6 S7 S8] Hw Hlen Hs Hk Hl Hpast.
  destruct (after_view g h2 v l) as (E1 & E2 & E3). destruct (after_other g h2 h1 v l) as (E4 & E5); [done|].
  split; rewrite ?E1, ?E2, ?E3, ?E4, ?E5; try done.
  - change (full_table v). unfold full_table in *. by rewrite Hlen.
  - destruct (Hs p Hp) as (p' & Hp' & Hs'). exists p'. split; [done|]. intros Hk3. destruct (Hslot Hk3) as (? & ? & ?). auto.
Qed.

(** The next statement of the sleeper. *)
Lemma sleeper_step g k w m l :
  h1 <> h2 -> (forall j, lk <> proc_lock j) -> sleep_inv g k w -> code g h1 = m :: l ->
  (k < 5)%nat /\
  ((exists v, m (view g h1) = Done tt v /\ (k = 0%nat \/ plocks v ⊆ locks_of g h1) /\
     sleep_inv (after g h1 v l) (Datatypes.S k) w) \/
   (exists v, m (view g h1) = Sleep ("swtch"%string, i) v (Done tt) /\ (0 < length l)%nat /\
     sleep_inv (after g h1 v [release (proc_lock i)]) (Datatypes.S k) w)).
Proof.
  intros Hh Hlk HI Hc. pose proof (si_sleeper g k w HI) as Hs. rewrite Hc in Hs.
  destruct (si_slot g k w HI) as (p & Hp & Hslot). destruct (si_runs g k w HI) as [Hr _].
  pose proof (geti_Some_lt _ _ _ Hp) as Hi.
  assert (Hne : lk <> proc_lock i) by apply Hlk.
  assert (Hv : geti (procs (view g h1)) i = Some p) by done.
  remember (locks_of g h1) as L eqn:HL.
  assert (HL' : held (view g h1) = L) by (by rewrite HL).
  inversion Hs as [Ek E1 E2|Ek E1 E2|Ek E1 E2|Ek E1 E2|Ek E1 E2|]; subst k; (injection E1 as <- <- || subst m l);
    (split; [lia|]); clear Hs Hc.
  - left. eexists. split; [apply acquire_free; rewrite HL', <- E2, elem_of_singleton; congruence|]. split; [by left|].
    apply sleeper_next; [done|done|lia| |done|exists p; split; [done|lia]].
    change (sleeper 1 (drop 1 (sleep_steps i ch lk)) ({[proc_lock i]} ∪ held (view g h1))).
    rewrite HL', <- E2. constructor.
  - left. eexists. split; [apply release_held; rewrite HL', <- E2; set_solver|]. split; [right; cbn; set_solver|].
    apply sleeper_next; [done|done|lia| |done|exists p; split; [done|lia]].
    change (sleeper 2 (drop 2 (sleep_steps i ch lk)) (held (view g h1) ∖ {[lk]})).
    rewrite HL', <- E2. replace (({[proc_lock i; lk]} : gset lock) ∖ {[lk]}) with ({[proc_lock i]} : gset lock) by set_solver.
    constructor.
  - left. eexists. split; [by apply (setp_ok i _ p)|]. split; [right; cbn; rewrite <- ?HL; set_solver|].
    apply sleeper_next; [done|done|lia| | |].
    + change (sleeper 3 (drop 3 (sleep_steps i ch lk)) (held (view g h1))). rewrite HL', <- E2. constructor.
    + apply length_seti.
    + eexists. split; [by apply geti_seti_eq|]. done.
  - right. destruct Hslot as (Hch & _ & Hst); [lia|]. exists (view g h1).
    assert (Hnp : ~ past w) by (intros Hw%(si_past g 3 w HI); lia). split; [|split; [cbn; lia|]].
    + rewrite (sched_yields (view g h1) p); [by cbn; rewrite Hr|by cbn; rewrite Hr| |rewrite Hst by done; done].
      change (held (view g h1) = {[proc_lock (runs_on g h1)]}). by rewrite HL', <- E2, Hr.
    + apply sleeper_next; [done|done|lia| |done|].
      * change (sleeper 4 [release (proc_lock i)] (held (view g h1))). rewrite HL', <- E2. constructor.
      * exists p. split; [done|]. auto.
  - left. destruct Hslot as (Hch & _ & Hst); [lia|].
    assert (Hnp : ~ past w) by (intros Hw%(si_past g 4 w HI); lia).
    eexists. split; [apply release_held; rewrite HL', <- E2; set_solver|]. split; [right; cbn; set_solver|].
    apply sleeper_next; [done|done|lia| |done|].
    + change (sleeper 5 [] (held (view g h1) ∖ {[proc_lock i]})).
      rewrite HL', <- E2. replace (({[proc_lock i]} : gset lock) ∖ {[proc_lock i]}) with (∅ : gset lock) by set_solver.
      constructor.
    + exists p. split; [done|]. auto.
Qed.

Lemma wake_slot_eq j p s :
  geti (procs s) j = Some p -> exists p', wake_slot ch j s = Done tt (s {{ procs ::= seti j p' }}) /\
    (state p = SLEEPING -> p_chan p = Some ch -> state p' = RUNNABLE /\ p_chan p' = Some ch).
Proof.
  intros Hp. unfold wake_slot, bind. rewrite (getp_ok j p) by done. cbn [bindp]. case_bool_decide as Hd.
  - eexists. split; [by apply (setp_ok j _ p)|]. intros _ Hc. done.
  - exists p. split; [|tauto]. unfold when, ret. destruct s as [pr a b c d e f]. simpl in *. by rewrite (seti_id pr j p).
Qed.

Lemma slots_tail j js : slots (j :: js) -> slots js /\ j ∉ js.
Proof. intros [[Hj Hn]%NoDup_cons Hb]. split; [|done]. split; [done|]. intros j' Hj'. apply Hb. by right. Qed.

(** The sets of locks of the waker. *)
Lemma waker_lock (a : lock) : {[a]} ∪ ∅ = ({[a]} : gset lock).
Proof. set_solver. Qed.
Lemma waker_unlock (a b : lock) : a <> b -> ({[a; b]} : gset lock) ∖ {[a]} = {[b]}.
Proof. set_solver. Qed.
Lemma waker_free (a : lock) : ({[a]} : gset lock) ∖ {[a]} = ∅.
Proof. set_solver. Qed.

(** The next statement of the waker; acquire() of what the sleeper holds waits. *)
Lemma waker_step g k w m l :
  h1 <> h2 -> (forall j, lk <> proc_lock j) -> sleep_inv g k w -> code g h2 = m :: l ->
  exists v, m (view g h2) = Done tt v /\
    (may_take g h2 v -> exists w', sleep_inv (after g h2 v l) k w').
Proof.
  intros Hh Hlk HI Hc. pose proof (si_waker g k w HI) as Hw. rewrite Hc in Hw.
  pose proof (si_sleeper g k w HI) as Hs. pose proof (si_started g k w HI) as Hst.
  remember (locks_of g h2) as L eqn:HL.
  assert (HL' : held (view g h2) = L) by (by rewrite HL).
  inversion Hw as [js Ec Hj Hin E0 E1 E2|js Hj E0 E1 E2|j js Hj E0 E1 E2|j js Hj E0 E1 E2|]; subst w; clear Hw.
  - subst m l. eexists. split; [apply acquire_free; rewrite HL', <- E2; set_solver|].
    intros Ht. exists (Some js).
    assert (Hk : (2 <= k)%nat).
    { assert (Hn : lk ∉ locks_of g h1).
      { apply Ht; [apply elem_of_union; left; by apply elem_of_singleton|]. rewrite <- HL, <- E2. set_solver. }
      inversion Hs as [Ek E3 E4|Ek E3 E4|Ek|Ek|Ek|Ek]; subst k; try lia; rewrite <- E4 in Hn; set_solver. }
    assert (Hnp : ~ past (Some js)) by (cbn; tauto).
    eapply waker_next; [done|done| |done| |done| |].
    + change (waker (Some js) (wakeup_steps ch me ++ [release lk]) ({[lk]} ∪ held (view g h2))).
      rewrite HL', <- E2, waker_lock, Ec. by constructor.
    + intros p Hp. exists p. split; [done|]. intros _ Hch Ha Hb. split; [done|]. split; [done|]. intros _. apply Hb; cbn; tauto.
    + change (proc_lock i ∈ {[lk]} ∪ held (view g h2) -> k = 5%nat). rewrite HL', <- E2, waker_lock, elem_of_singleton.
      intros E. by destruct (Hlk i).
    + done.
  - destruct js as [|j js].
    + injection E1 as <- <-. eexists. split; [apply release_held; rewrite HL', <- E2; set_solver|].
      intros _. exists (Some []). eapply waker_next; [done|done| |done| |by apply Hst| |apply (si_past g k _ HI)].
      * change (waker (Some []) [] (held (view g h2) ∖ {[lk]})). rewrite HL', <- E2, waker_free. constructor.
      * intros p Hp. exists p. tauto.
      * change (proc_lock i ∈ held (view g h2) ∖ {[lk]} -> k = 5%nat). rewrite HL', <- E2, waker_free. set_solver.
    + injection E1 as <- <-. eexists.
      split; [apply acquire_free; rewrite HL', <- E2, elem_of_singleton; by apply not_eq_sym, Hlk|].
      intros Ht. exists (Some (j :: js)). eapply waker_next; [done|done| |done| |by apply Hst| |apply (si_past g k _ HI)].
      * change (waker (Some (j :: js)) (wake_slot ch j :: release (proc_lock j) :: slots_code js ++ [release lk])
          ({[proc_lock j]} ∪ held (view g h2))). rewrite HL', <- E2. by constructor.
      * intros p Hp. exists p. tauto.
      * change (proc_lock i ∈ {[proc_lock j]} ∪ held (view g h2) -> k = 5%nat). rewrite HL', <- E2.
        intros Hi. assert (Eij : proc_lock i = proc_lock j).
        { apply elem_of_union in Hi as [Hi|Hi]; apply elem_of_singleton in Hi; [done|by destruct (Hlk i)]. }
        assert (Hn : proc_lock i ∉ locks_of g h1).
        { rewrite Eij. apply Ht; [apply elem_of_union; left; by apply elem_of_singleton|].
          rewrite <- HL, <- E2, elem_of_singleton. by apply not_eq_sym, Hlk. }
        assert (Hk : (2 <= k)%nat) by (by apply Hst).
        inversion Hs as [Ek E3 E4|Ek E3 E4|Ek E3 E4|Ek E3 E4|Ek E3 E4|Ek]; subst k; try lia; rewrite <- E4 in Hn; set_solver.
  - subst m l. destruct (slots_tail j js Hj) as [Hj' Hnj].
    destruct (geti_is_Some (procs (view g h2)) j) as [p Hp].
    { change (0 <= j < Z.of_nat (length (procs (shared g)))). rewrite (si_table g k _ HI). apply Hj. by left. }
    destruct (wake_slot_eq j p (view g h2) Hp) as (p' & E & Hp'). eexists. split; [exact E|].
    intros _. exists (Some js).
    assert (Hki : j = i -> k = 5%nat).
    { intros ->. apply (si_locked g k _ HI). rewrite <- HL, <- E2. set_solver. }
    eapply waker_next; [done|done| | | |by apply Hst| |].
    + change (waker (Some js) (release (proc_lock j) :: slots_code js ++ [release lk]) (held (view g h2))).
      rewrite HL', <- E2. by constructor.
    + apply length_seti.
    + intros q Hq. destruct (decide (j = i)) as [->|Hne].
      * change (geti (procs (shared g)) i = Some p) in Hp. rewrite Hp in Hq. injection Hq as <-.
        exists p'. split; [apply geti_seti_eq; by eapply geti_Some_lt|]. intros _ Hch _ Hb.
        destruct Hp' as [? ?]; [apply Hb; cbn; set_solver|done|]. split; [done|]. split; [done|]. intros Hn. by destruct Hn.
      * exists q. split; [by rewrite <- Hq; apply geti_seti_ne|]. intros _ Hch Ha Hb.
        split; [done|]. cbn in *. split; intros Hx; [apply Ha|apply Hb]; set_solver.
    + change (proc_lock i ∈ held (view g h2) -> k = 5%nat). rewrite HL', HL. apply (si_locked g k _ HI).
    + cbn. intros Hx. destruct (decide (j = i)) as [->|Hne]; [by apply Hki|]. apply (si_past g k _ HI). cbn. set_solver.
  - subst m l. eexists. split; [apply release_held; rewrite HL', <- E2; set_solver|].
    intros _. exists (Some js). eapply waker_next; [done|done| |done| |by apply Hst| |apply (si_past g k _ HI)].
    + change (waker (Some js) (slots_code js ++ [release lk]) (held (view g h2) ∖ {[proc_lock j]})).
      rewrite HL', <- E2, waker_unlock by (by apply not_eq_sym, Hlk). by constructor.
    + intros p Hp. exists p. tauto.
    + change (proc_lock i ∈ held (view g h2) ∖ {[proc_lock j]} -> k = 5%nat).
      rewrite HL', <- E2, waker_unlock, elem_of_singleton by (by apply not_eq_sym, Hlk). intros E. by destruct (Hlk i).
Qed.

Lemma others_inv g g' k w : sleep_inv g k w -> others_step i h1 h2 g g' -> sleep_inv g' k w.
Proof.
  intros [S1 S2 S3 S4 (p & Hp & Hslot) S6 S7 S8] [Ho Hlen Hs].
  destruct (Ho h1) as (E1 & E2 & E3); [by left|]. destruct (Ho h2) as (E4 & E5 & E6); [by right|].
  split; rewrite ?E1, ?E2, ?E3, ?E4, ?E5, ?E6; try done.
  - unfold full_table in *. by rewrite Hlen.
  - destruct (Hs p Hp) as (p' & Hp' & Es & Ec). exists p'. split; [done|]. by rewrite Es, Ec.
Qed.

(** *** Runs *)

Section Run.
Context (Hh : h1 <> h2) (Hlk : forall j, lk <> proc_lock j).

Lemma inv_step g g' k w : sleep_inv g k w -> sleep_step g g' -> exists k' w', sleep_inv g' k' w'.
Proof.
  intros HI [h Hor Hs|Ho]; [|exists k, w; by eapply others_inv].
  destruct Hor as [->| ->]; destruct Hs as [m l v Hc Hm Ht|m l j v kk Hc Hm].
  - destruct (sleeper_step g k w m l Hh Hlk HI Hc) as [_ [(v' & E & _ & HI')|(v' & E & _)]]; [|congruence].
    rewrite Hm in E. injection E as <-. by exists (Datatypes.S k), w.
  - destruct (sleeper_step g k w m l Hh Hlk HI Hc) as [_ [(v' & E & _)|(v' & E & _ & HI')]]; [congruence|].
    rewrite Hm in E. injection E as -> <- _. by exists (Datatypes.S k), w.
  - destruct (waker_step g k w m l Hh Hlk HI Hc) as (v' & E & HI').
    rewrite Hm in E. injection E as <-. destruct (HI' Ht) as [w' HIw]. by exists k, w'.
  - destruct (waker_step g k w m l Hh Hlk HI Hc) as (v' & E & _). congruence.
Qed.

Lemma run_inv g0 g : about_to_sleep g0 -> rtc sleep_step g0 g -> exists k w, sleep_inv g k w.
Proof.
  intros Hs Hr. revert Hr. apply (rtc_ind_r (fun g => exists k w, sleep_inv g k w)).
  - exists 0%nat, None. by apply start_inv.
  - intros g1 g2 _ Hst (k & w & HI). by eapply inv_step.
Qed.

Lemma woken_at_end g k w :
  sleep_inv g k w -> code g h2 = [] ->
  code g h1 = [] /\ exists p, geti (procs (shared g)) i = Some p /\ state p = RUNNABLE /\ p_chan p = Some ch.
Proof.
  intros HI Hc. pose proof (si_waker g k w HI) as Hw. rewrite Hc in Hw.
  assert (Ew : past w).
  { inversion Hw as [|js Hj Ew E1 E2| | |]; subst w; [by destruct js|cbn; apply not_elem_of_nil]. }
  destruct (si_slot g k w HI) as (p & Hp & Hslot). pose proof (si_past g k w HI Ew) as ->.
  destruct Hslot as (Hch & Hr & _); [lia|]. split; [|exists p; auto].
  pose proof (si_sleeper g 5 w HI) as Hs. by inversion Hs.
Qed.

(** One of the two harts can go on. *)
Lemma one_goes g k w :
  sleep_inv g k w -> (forall h, h <> h1 -> h <> h2 -> locks_of g h = ∅) ->
  (code g h1 = [] /\ code g h2 = []) \/
  exists g', sleep_step g g' /\ (forall h, h <> h1 -> h <> h2 -> locks_of g' h = locks_of g h) /\
    (length (code g' h1) + length (code g' h2) < length (code g h1) + length (code g h2))%nat.
Proof.
  intros HI Hfree. destruct (code g h1) as [|m l] eqn:Ec.
  - destruct (code g h2) as [|m l] eqn:Ec2; [by left|]. right.
    assert (Hl1 : locks_of g h1 = ∅).
    { pose proof (si_sleeper g k w HI) as Hs. rewrite Ec in Hs. by inversion Hs. }
    destruct (waker_step g k w m l Hh Hlk HI Ec2) as (v & E & _). exists (after g h2 v l).
    destruct (after_view g h2 v l) as (_ & E2 & _). destruct (after_other g h2 h1 v l Hh) as (_ & E4).
    split; [|split].
    + apply (step_one _ _ h2); [by right|]. apply (hart_runs _ _ m); [done|done|]. intros a h' _ Ha.
      destruct (decide (h' = h2)) as [->|]; [done|]. destruct (decide (h' = h1)) as [->|]; [by rewrite Hl1|by rewrite Hfree].
    + intros h _ Hne. by apply after_other.
    + rewrite E2, E4, Ec. cbn. lia.
  - right. destruct (sleeper_step g k w m l Hh Hlk HI Ec) as [Hk Hcase].
    assert (Hgo : exists v l', hart_step h1 g (after g h1 v l') /\ (length l' < length (m :: l))%nat).
    { destruct Hcase as [(v & E & Hl & _)|(v & E & Hlen & _)].
      - exists v, l. split; [|cbn; lia]. apply (hart_runs _ _ m); [done|done|]. intros a h' Ha Hna.
        destruct Hl as [->|Hl]; [|by apply Hl in Ha].
        destruct (decide (h' = h1)) as [->|]; [done|]. destruct (decide (h' = h2)) as [->|]; [|by rewrite Hfree].
        pose proof (si_waker g 0 w HI) as Hw. destruct w as [js|]; [by pose proof (si_started g 0 _ HI ltac:(done)); lia|].
        by inversion Hw.
      - exists v, [release (proc_lock i)]. split; [by eapply (hart_switches _ _ m)|].
        cbn. lia. }
    destruct Hgo as (v & l' & Hst & Hlen). exists (after g h1 v l').
    destruct (after_view g h1 v l') as (_ & E2 & _). destruct (after_other g h1 h2 v l' (not_eq_sym Hh)) as (_ & E4).
    split; [by apply (step_one _ _ h1); [left|]|]. split; [intros h Hne _; by apply after_other|].
    rewrite E2, E4. cbn in *. lia.
Qed.

Lemma both_finish n g k w :
  sleep_inv g k w -> (forall h, h <> h1 -> h <> h2 -> locks_of g h = ∅) ->
  (length (code g h1) + length (code g h2) <= n)%nat ->
  exists g', rtc sleep_step g g' /\ code g' h1 = [] /\ code g' h2 = [].
Proof.
  revert g k w. induction n as [|n IH]; intros g k w HI Hfree Hn;
    (destruct (one_goes g k w HI Hfree) as [[E1 E2]|(g1 & Hst & Hl & Hlt)]; [by exists g|]); [lia|].
  destruct (inv_step g g1 k w HI Hst) as (k1 & w1 & HI1).
  destruct (IH g1 k1 w1 HI1) as (g' & Hr & E); [intros h Hn1 Hn2; rewrite Hl; auto|lia|].
  exists g'. split; [by eapply rtc_l|done].
Qed.

End Run.

End Interleaved.

(** C26: a process on hart [h1] that holds [lk] calls sleep(ch, lk); on another hart [h2]
    a waker takes [lk], runs wakeup(ch) and releases [lk].  The statements of the two, and
    what other harts do without touching whether this process sleeps, come in any order.
    When the waker is done the sleeper was asleep on [ch] and has been made RUNNABLE:
    no wakeup after the release of [lk] passes it by.  Neither hart panics, and unless
    other harts hold locks for ever both finish.  The statements are those of sleep() and
    wakeup(): without interference sleep() gives up the CPU asleep on [ch] with its own
    lock only, and when it is switched to again clears the channel and returns with [lk]. *)
Theorem sleep_no_lost_wakeup i me ch lk h1 h2 g0 g :
  about_to_sleep i me ch lk h1 h2 g0 -> rtc (sleep_step i h1 h2) g0 g ->
  (code g h2 = [] -> code g h1 = [] /\
     exists p, geti (procs (shared g)) i = Some p /\ state p = RUNNABLE /\ p_chan p = Some ch) /\
  (forall h m l, h = h1 \/ h = h2 -> code g h = m :: l ->
     exists v, m (view g h) = Done tt v \/ m (view g h) = Sleep ("swtch"%string, i) v (Done tt)) /\
  ((forall h, h <> h1 -> h <> h2 -> locks_of g h = ∅) ->
     exists g', rtc (sleep_step i h1 h2) g g' /\ code g' h1 = [] /\ code g' h2 = []) /\
  (exists s k, sleep ch lk (view g0 h1) = Sleep ("swtch"%string, i) s k /\ plocks s = {[proc_lock i]} /\
     (exists p, geti (procs s) i = Some p /\ state p = SLEEPING /\ p_chan p = Some ch) /\
     forall s' p', cur s' = i -> plocks s' = {[proc_lock i]} -> geti (procs s') i = Some p' ->
       k s' = Done tt (s' {{ procs ::= seti i (p' {{ p_chan := None }}); plocks := {[lk]} }})) /\
  (forall s, full_table s -> others_unlocked s -> wakeup ch s = seqs (wakeup_steps ch (cur s)) s).
Proof.
  intros Hs Hr. pose proof (ats_harts _ _ _ _ _ _ _ Hs) as Hh. pose proof (ats_lock _ _ _ _ _ _ _ Hs) as Hlk.
  destruct (run_inv i me ch lk h1 h2 Hh Hlk g0 g Hs Hr) as (k & w & HI).
  split; [by eapply woken_at_end|]. split; [|split; [|split]].
  - intros h m l [->| ->] Hc.
    + destruct (sleeper_step i me ch lk h1 h2 g k w m l Hh Hlk HI Hc) as [_ [(v & E & _)|(v & E & _)]]; exists v; auto.
    + destruct (waker_step i me ch lk h1 h2 g k w m l Hh Hlk HI Hc) as (v & E & _). exists v. auto.
  - intros Hfree. by eapply (both_finish i me ch lk h1 h2 Hh Hlk).
  - destruct (ats_slot _ _ _ _ _ _ _ Hs) as [p Hp]. destruct (ats_runs _ _ _ _ _ _ _ Hs) as [Er _].
    destruct (ats_held _ _ _ _ _ _ _ Hs) as [El _].
    destruct (sleep_yields (view g0 h1) p ch lk) as (k0 & E & Hk); [by cbn; rewrite Er|done|apply Hlk|].
    change (cur (view g0 h1)) with (runs_on g0 h1) in *. rewrite Er in *.
    eexists _, k0. split; [exact E|]. split; [done|]. split; [|exact Hk].
    eexists. split; [by apply geti_seti_eq; eapply geti_Some_lt|done].
  - apply wakeup_steps_eq.
Qed.

Section Table.
Context `{Layout}.

(** kill(pid) marks the first process with this pid killed, makes it
    RUNNABLE if it sleeps, changes nothing else and returns 0; without such a
    process it returns -1 and changes nothing.  No lock stays held. *)
Theorem kill_marks s target :
  full_table s -> procs_unlocked s ->
  kill target s
  = match first_proc (fun p => pid p =? target) (procs s) with
    | Some (i, p) =>
        Done 0 (s {{ procs ::= seti i (if bool_decide (state p = SLEEPING)
                                       then p {{ p_killed := 1; state := RUNNABLE }}
                                       else p {{ p_killed := 1 }}) }})
    | None => Done (-1) s
    end.
Proof.
  intros Hfull Hun.
  assert (Hhit : forall i p, geti (procs s) i = Some p -> (pid p =? target) = true ->
    bind (acquire (proc_lock i)) (fun _ => p <- getp i;;
      if pid p =? target then
        setp i (fun p => p {{ p_killed := 1 }});;;
        when (bool_decide (state p = SLEEPING)) (setp i (fun p => p {{ state := RUNNABLE }}));;;
        release (proc_lock i);;;
        leave 0
      else release (proc_lock i);;; next) s
    = Done (Some 0) (s {{ procs ::= seti i (if bool_decide (state p = SLEEPING)
                                       then p {{ p_killed := 1; state := RUNNABLE }}
                                       else p {{ p_killed := 1 }}) }})).
  { intros i p E Hp. unfold bind, when. rewrite acquire_free by apply Hun. cbn [bindp].
    rewrite (getp_ok i p) by done. cbn [bindp]. rewrite Hp. rewrite (setp_ok i _ p) by done. cbn [bindp].
    pose proof (geti_Some_lt _ _ _ E). destruct (bool_decide _).
    - erewrite setp_ok by (by apply geti_seti_eq). cbn [bindp].
      rewrite release_held by (simpl; auto with kernel). cbn. rewrite held_cycle by apply Hun.
      destruct s; simpl. by rewrite seti_same.
    - cbn [bindp ret]. rewrite release_held by (simpl; auto with kernel). cbn.
      rewrite held_cycle by apply Hun. by destruct s. }
  unfold kill. rewrite (for_procs_find _ (-1) (fun p => pid p =? target)); [|done| |].
  - destruct (first_proc _ _) as [[i p]|] eqn:Ef; [|done].
    apply first_proc_Some in Ef as (E & Hp & _). by rewrite (Hhit i p E Hp).
  - intros i p E Hp. unfold bind. rewrite acquire_free by apply Hun. cbn [bindp].
    rewrite (getp_ok i p) by done. cbn [bindp]. rewrite Hp. by rewrite lock_cycle by apply Hun.
  - intros i p E Hp. eexists _, _. by apply Hhit.
Qed.

(** ** Allocation of a slot *)

Lemma find_unused_eq s :
  full_table s -> procs_unlocked s ->
  find_unused s
  = match first_proc (fun p => bool_decide (state p = UNUSED)) (procs s) with
    | Some (i, _) => Done i (s {{ plocks := {[proc_lock i]} ∪ plocks s }})
    | None => Done (-1) s
    end.
Proof.
  intros Hfull Hun.
  assert (Hbody : forall i p, geti (procs s) i = Some p ->
    bind (acquire (proc_lock i)) (fun _ => p <- getp i;;
      if decide (state p = UNUSED) then leave i else release (proc_lock i);;; next) s
    = if bool_decide (state p = UNUSED)
      then Done (Some i) (s {{ plocks := {[proc_lock i]} ∪ plocks s }}) else Done None s).
  { intros i p E. unfold bind. rewrite acquire_free by apply Hun. cbn [bindp].
    rewrite (getp_ok i p) by done. cbn [bindp]. case_bool_decide as Hs.
    - by rewrite decide_True.
    - rewrite decide_False by done. by rewrite lock_cycle by apply Hun. }
  unfold find_unused. rewrite (for_procs_find _ (-1) (fun p => bool_decide (state p = UNUSED))); [|done| |].
  - destruct (first_proc _ _) as [[i p]|] eqn:Ef; [|done].
    apply first_proc_Some in Ef as (E & Hp & _). by rewrite (Hbody i p E), Hp.
  - intros i p E Hp. by rewrite (Hbody i p E), Hp.
  - intros i p E Hp. rewrite (Hbody i p E), Hp. by eexists _, _.
Qed.

Lemma allocpid_eq s :
  pid_lock ∉ plocks s -> allocpid s = Done (nextpid s) (s {{ nextpid := i32 (nextpid s + 1) }}).
Proof.
  intros Hl. unfold allocpid, bind. rewrite acquire_free by done. cbn [bindp gets modify].
  rewrite release_held by (apply held_top). cbn [bindp ret]. destruct s; simpl in *.
  by rewrite held_cycle.
Qed.

Lemma kalloc_empty (m : phys) : freelist m = 0 -> kmem_lock ∉ pheld m -> kalloc m = Done 0 m.
Proof.
  intros Hf Hl. unfold kalloc, bind. rewrite acquire_free by done. cbn [bindp gets].
  change (freelist (set_held _ m)) with (freelist m). rewrite Hf. cbn [Z.eqb negb when ret bindp].
  by rewrite lock_cycle.
Qed.

(** What freeproc leaves in a slot without a trapframe and a page table. *)
Definition cleared (p : proc) : proc :=
  p {{ trapframe := 0; pagetable := 0; sz := 0; pid := 0; parent := -1; name ::= seti 0 0;
       p_chan := None; p_killed := 0; xstate := 0; state := UNUSED }}.

(** C27: allocproc without free memory: when no slot is UNUSED it returns null and
    changes nothing; otherwise the first UNUSED slot is tried, a pid is used up,
    the slot is cleared and UNUSED again, memory is unchanged, no lock is kept
    and the result is null. *)
Theorem allocproc_oom s forkret :
  full_table s -> procs_unlocked s -> pid_lock ∉ plocks s ->
  freelist (ram s) = 0 -> kmem_lock ∉ pheld (ram s) ->
  (forall p, p ∈ procs s -> state p = UNUSED -> pagetable p = 0) ->
  allocproc forkret s
  = match first_proc (fun p => bool_decide (state p = UNUSED)) (procs s) with
    | Some (i, p) =>
        Done (-1) (s {{ procs ::= seti i (cleared p); nextpid := i32 (nextpid s + 1) }})
    | None => Done (-1) s
    end.
Proof.
  intros Hfull Hun Hpl Hfl Hkl Hpt. unfold allocproc. unfold bind at 1.
  rewrite find_unused_eq by done. destruct (first_proc _ _) as [[i p]|] eqn:Ef; [|done].
  apply first_proc_Some in Ef as (E & Hp & _). apply bool_decide_eq_true in Hp.
  pose proof (geti_Some_lt _ _ _ E) as Hr. cbn [bindp]. rewrite (proj2 (Z.eqb_neq i (-1))) by lia.
  assert (Hpt' : pagetable p = 0) by (apply Hpt; [apply geti_nat_inv in E; by eapply list_elem_of_lookup_2|done]).
  set (s1 := s {{ plocks := {[proc_lock i]} ∪ plocks s }}).
  assert (Hpid : allocpid s1 = Done (nextpid s) (s1 {{ nextpid := i32 (nextpid s + 1) }})).
  { apply (allocpid_eq s1). change (pid_lock ∉ {[proc_lock i]} ∪ plocks s).
    rewrite elem_of_union, elem_of_singleton. intros [[=]|?]; done. }
  rewrite (bind_done _ _ _ _ _ Hpid).
  set (s2 := s1 {{ nextpid := i32 (nextpid s + 1) }}). rewrite <- (put_id i p s2) by done.
  assert (Hr2 : 0 <= i < Z.of_nat (length (procs s2))) by done.
  erewrite bind_done by (by apply setp_put).
  erewrite bind_done by (apply in_ram_same; by apply kalloc_empty).
  erewrite bind_done by (by apply setp_put). cbn [Z.eqb].
  assert (Hfree : freeproc i (put i (p {{ pid := nextpid s; state := USED; trapframe := 0 }}) s2)
                  = Done tt (put i (cleared p) s2)).
  { unfold freeproc. erewrite bind_done by (by apply getp_put). cbn [trapframe Z.eqb negb when].
    erewrite bind_done by done. erewrite bind_done by (by apply setp_put).
    change (pagetable _) with (pagetable p) at 1. rewrite Hpt'. cbn [Z.eqb negb when]. erewrite bind_done by done.
    rewrite setp_put by done. done. }
  erewrite bind_done by exact Hfree.
  erewrite bind_done.
  2: { apply release_held, held_top. }
  unfold s2, s1, ret, put. destruct s; simpl in *. rewrite held_cycle by apply Hun. done.
Qed.

(** ** Waiting *)

(** wait by a process without zombie children, called with no lock held,
    returns -1 at once when it has no children or was killed, leaving the state
    as it was, and otherwise goes to sleep on its own address with wait_lock
    free: an exiting child wakes it.  If a child is a zombie but its exit status
    cannot be copied to the user's address, wait returns -1 and the zombie stays. *)
Theorem wait_cases s fuel addr p :
  full_table s -> plocks s = ∅ -> geti (procs s) (cur s) = Some p ->
  match first_proc (zombie_of (cur s)) (procs s) with
  | None =>
      if negb (existsb (child_of (cur s)) (procs s)) || negb (p_killed p =? 0)
      then wait (Datatypes.S fuel) addr s = Done (-1) s
      else exists k, wait (Datatypes.S fuel) addr s
             = Sleep ("swtch"%string, cur s)
                 (s {{ plocks := {[proc_lock (cur s)]};
                       procs := seti (cur s) (asleep (proc_chan (cur s)) p) (procs s) }}) k
  | Some (i, c) => forall m, addr <> 0 ->
      copyout (pagetable p) addr (int_bytes 4 (u32 (xstate c))) (ram s) = Done (-1) m ->
      wait (Datatypes.S fuel) addr s = Done (-1) (s {{ ram := m }})
  end.
Proof.
  intros Hfull Hl E. set (s1 := s {{ plocks := {[wait_lock]} }}).
  assert (Hacq : acquire wait_lock s = Done tt s1).
  { rewrite acquire_free by (simpl; rewrite Hl; set_solver). unfold s1. destruct s; simpl in *; subst.
    do 2 f_equal; set_solver. }
  assert (Hun1 : procs_unlocked s1).
  { intros i. change (proc_lock i ∉@{gset lock} {[wait_lock]}). rewrite elem_of_singleton. by intros [=]. }
  assert (Hrel : release wait_lock s1 = Done tt s).
  { rewrite release_held by (change (wait_lock ∈@{gset lock} {[wait_lock]}); set_solver).
    unfold s1. destruct s; simpl in *; subst. do 2 f_equal; set_solver. }
  assert (Hscan : scan_children (cur s) s1 = match first_proc (zombie_of (cur s)) (procs s) with
    | Some (i, _) => Done (inr i) (s1 {{ plocks := {[proc_lock i]} ∪ {[wait_lock]} }})
    | None => Done (inl (existsb (child_of (cur s)) (procs s))) s1 end) by (by apply (scan_children_eq (cur s) s1)).
  unfold wait. erewrite bind_done by done. erewrite bind_done by exact Hacq. cbn [loop].
  destruct (first_proc _ _) as [[i c]|] eqn:Ef.
  - intros m Ha Hout. unfold bind at 1 2. rewrite Hscan. cbn [bindp].
    apply first_proc_Some in Ef as (Ec & _). unfold reap.
    set (s2 := s1 {{ plocks := {[proc_lock i]} ∪ {[wait_lock]} }}).
    rewrite (proj2 (Z.eqb_neq addr 0)) by done. simpl negb. cbv iota.
    assert (Hout' : in_ram (copyout (pagetable p) addr (int_bytes 4 (u32 (xstate c)))) s2
                    = Done (-1) (s2 {{ ram := m }})).
    { unfold in_ram, zoom. simpl. fold (ram s). by rewrite Hout. }
    assert (Hne : proc_lock i ∉@{gset lock} {[wait_lock]}) by (rewrite elem_of_singleton; by intros [=]).
    unfold bind. rewrite (getp_ok (cur s) p s2) by done. cbn [bindp].
    rewrite (getp_ok i c s2) by done. cbn [bindp]. rewrite Hout'. cbn [bindp]. change (-1 <? 0) with true. cbv iota beta.
    rewrite release_held by (apply held_top). cbn [bindp].
    rewrite release_held by (simpl; rewrite held_cycle by done; set_solver). cbn [bindp ret break].
    destruct s; simpl in *; subst. do 2 f_equal. rewrite held_cycle by done. set_solver.
  - assert (Hk : killed (cur s) s1 = Done (p_killed p) s1).
    { unfold killed. erewrite bind_done by (apply acquire_free; apply Hun1).
      erewrite bind_done by (by apply getp_ok). erewrite bind_done by (apply lock_cycle; apply Hun1). done. }
    destruct (existsb _ _) eqn:Ex; cbn [negb orb].
    + destruct (p_killed p =? 0) eqn:Ek; cbn [negb].
      * destruct (sleep_yields s1 p (proc_chan (cur s)) wait_lock) as (k & Hk' & _); [done|done|by intros [=]|].
        eexists. unfold bind at 1 2. rewrite Hscan. cbn [bindp negb]. unfold bind at 1 2. rewrite Hk.
        cbn [bindp ret]. rewrite Ek. cbn [negb]. unfold bind at 1. rewrite Hk'. simpl. done.
      * unfold bind at 1 2. rewrite Hscan. cbn [bindp negb]. unfold bind at 1 2. rewrite Hk.
        cbn [bindp ret]. rewrite Ek. cbn [negb]. unfold bind at 1. by rewrite Hrel.
    + unfold bind at 1 2. rewrite Hscan. cbn [bindp negb]. unfold bind at 1. cbn [bindp ret].
      unfold bind at 1. by rewrite Hrel.
Qed.

End Table.

(** ** The theorems on a small table *)

Definition demo_parent : proc := blank {{ state := RUNNING; pid := 1; static_pri := 50; rbi := 25 }}.
Definition demo_child : proc :=
  blank {{ state := SLEEPING; p_chan := Some ticks_chan; pid := 2; parent := 0; static_pri := 50; rbi := 25 }}.

Definition demo_other : pstate := demo {{ cur := 1 }}.

(** The first process is about to sleep on hart 0 with the lock of a pipe held, and an
    interrupt handler of hart 1, which runs no process, wakes the pipe up. *)
Definition demo_pipe : lock := ("pipe"%string, 0).
Definition demo_harts : harts :=
  Harts demo (fun h => if Nat.eqb h 0 then {[demo_pipe]} else ∅) (fun h => if Nat.eqb h 0 then 0 else -1)
    (fun h => if Nat.eqb h 0 then sleep_steps 0 demo_pipe demo_pipe
              else acquire demo_pipe :: wakeup_steps demo_pipe (-1) ++ [release demo_pipe]).

Lemma demo_about : about_to_sleep 0 (-1) demo_pipe demo_pipe 0%nat 1%nat demo_harts.
Proof. by split. Qed.

Lemma sleep_no_lost_wakeup_witness :
  exists g p, rtc (sleep_step 0 0%nat 1%nat) demo_harts g /\ code g 1%nat = [] /\
    geti (procs (shared g)) 0 = Some p /\ state p = RUNNABLE.
Proof.
  destruct (sleep_no_lost_wakeup 0 (-1) demo_pipe demo_pipe 0%nat 1%nat demo_harts demo_harts demo_about (rtc_refl _ _))
    as (_ & _ & Hfin & _).
  destruct Hfin as (g & Hr & _ & Hc); [intros [|h] H0 _; [by destruct H0|reflexivity]|].
  destruct (proj1 (sleep_no_lost_wakeup 0 (-1) demo_pipe demo_pipe 0%nat 1%nat demo_harts g demo_about Hr) Hc)
    as (_ & p & Hp & Hst & _).
  exists g, p. done.
Defined.

Lemma kill_marks_witness :
  kill 2 demo = Done 0 (demo {{ procs ::= seti 1 (blank {{ state := RUNNABLE; p_chan := Some ticks_chan;
    pid := 2; parent := 0; static_pri := 50; rbi := 25; p_killed := 1 }}) }}) /\
  kill 9 demo = Done (-1) demo.
Proof.
  split; [apply (kill_marks demo 2 demo_full demo_unlocked)|apply (kill_marks demo 9 demo_full demo_unlocked)].
Defined.

Lemma allocproc_oom_witness :
  allocproc 0 demo = Done (-1) (demo {{ procs ::= seti 4 (cleared blank); nextpid := 6 }}).
Proof.
  apply (allocproc_oom demo 0 demo_full demo_unlocked); try apply not_elem_of_empty; [done|].
  intros p Hp%list_elem_of_In _. simpl in Hp. by repeat destruct Hp as [<-|Hp].
Defined.

Lemma wait_cases_witness :
  (exists k, wait 1 0 demo = Sleep ("swtch"%string, 0)
     (demo {{ plocks := {[proc_lock 0]}; procs := seti 0 (asleep (proc_chan 0)
        demo_parent) demo_table }}) k) /\
  wait 1 0 demo_other = Done (-1) demo_other.
Proof.
  split; [apply (wait_cases demo 0 0 demo_parent demo_full eq_refl eq_refl)|].
  apply (wait_cases demo_other 0 0 demo_child demo_full eq_refl eq_refl).
Defined.
