(* ===== verification/SchedProps.v ===== *)
(** The priority scheduler and the clock: which process a round chooses, what
    the dynamic-priority formula computes on machine integers, how a tick
    charges the processes. *)

From S2P Require Import Prelude Mem Riscv Locks Kalloc Vm Proc ProcFacts Sched.

(** ** The scan of the PBS scheduler *)

(** The divisor of _rbi and the quotient as the code computes them. *)
Definition rbi_den (p : proc) : Z := u32 (my_rtime p + my_wtime p + my_stime p + 1).
Definition rbi_value (p : proc) : Z :=
  Z.max 0 (i32 (u32 (50 * (u32 (3 * my_rtime p - my_stime p - my_wtime p) / rbi_den p)))).

(** A process after its index was recomputed. *)
Definition aged (p : proc) : proc :=
  if rbi p =? 25 then p {{ rbi := -1; curr_rbi := 25 }} else p {{ curr_rbi := rbi_value p }}.

Definition divisible (p : proc) : Prop := rbi p = 25 \/ rbi_den p <> 0.

Lemma rbi_visit i p s :
  geti (procs s) i = Some p -> divisible p ->
  bind (_rbi i) (fun r => setp i (fun p => p {{ curr_rbi := r }})) s
  = Done tt (s {{ procs ::= seti i (aged p) }}).
Proof.
  intros E Hd. pose proof (geti_Some_lt _ _ _ E) as Hr. unfold _rbi, bind.
  rewrite (getp_ok i p) by done. cbn [bindp]. unfold aged.
  destruct (Z.eqb_spec (rbi p) 25) as [H25|H25].
  - rewrite (setp_ok i _ p) by done. cbn [bindp ret].
    erewrite setp_ok by (by apply geti_seti_eq). destruct s; simpl. by rewrite seti_same.
  - destruct Hd as [Hd|Hd]; [done|]. fold (rbi_den p).
    rewrite (proj2 (Z.eqb_neq _ _) Hd). cbn [bindp ret]. rewrite (setp_ok i _ p) by done.
    assert (Hv : forall v, (if v <? 0 then 0 else v) = Z.max 0 v) by (intros v; case_test; lia).
    unfold rbi_value. by rewrite Hv.
Qed.

(** The order of the code: smaller dynamic priority, then scheduled more
    often, then created earlier. *)
Definition key (p : proc) : Z * Z * Z := (dp p, - tot_sche p, ctime p).
Definition lex (a b : Z * Z * Z) : Prop :=
  a.1.1 < b.1.1 \/ (a.1.1 = b.1.1 /\ (a.1.2 < b.1.2 \/ (a.1.2 = b.1.2 /\ a.2 < b.2))).

Lemma better_spec p h : better p h = true <-> lex (key p) (key h).
Proof.
  unfold better, lex, key. simpl.
  rewrite !orb_true_iff, !andb_true_iff, Z.gtb_ltb, !Z.ltb_lt, !Z.eqb_eq. lia.
Qed.

Lemma lex_trans a b c : lex a b -> ~ lex c b -> lex a c.
Proof. unfold lex. lia. Qed.

Lemma not_lex_trans a b c : ~ lex b a -> ~ lex c b -> ~ lex c a.
Proof. unfold lex. lia. Qed.

(** [h] at index [high] is what the scheduler wants among the processes below
    [n]: no runnable process beats it, and none before it is as good. *)
Definition best (n : Z) (l : list proc) (high : Z) : Prop :=
  if high =? -1 then forall j q, j < n -> geti l j = Some q -> state q <> RUNNABLE
  else exists h, geti l high = Some h /\ high < n /\ state h = RUNNABLE /\
    (forall j q, j < n -> geti l j = Some q -> state q = RUNNABLE -> ~ lex (key q) (key h)) /\
    (forall j q, j < high -> geti l j = Some q -> state q = RUNNABLE -> lex (key h) (key q)).

Definition held_high (high : Z) : gset lock := if high =? -1 then ∅ else {[proc_lock high]}.

Lemma aged_state p : state (aged p) = state p.
Proof. unfold aged. by case_match. Qed.

Section Select.
Variable s : pstate.
Hypothesis Hfull : full_table s.
Hypothesis Hfree : forall i, proc_lock i ∉ plocks s.
Hypothesis Hdiv : Forall divisible (procs s).

(** The state after [n] processes were visited and [high] is the candidate. *)
Definition visited (n high : Z) : pstate :=
  s {{ procs ::= upto n (fun _ => aged); plocks := held_high high ∪ plocks s }}.

Definition seen (n : Z) : list proc := upto n (fun _ => aged) (procs s).

Lemma seen_same n j : j < n -> geti (seen n) j = geti (seen (n + 1)) j.
Proof.
  intros Hj. unfold seen, upto. rewrite !geti_imap. destruct (geti (procs s) j) as [p|] eqn:E; [|done].
  apply geti_Some_lt in E. simpl. rewrite Z2Nat.id by lia.
  by rewrite !(proj2 (Z.ltb_lt _ _)) by lia.
Qed.

Lemma seen_next n p : geti (procs s) n = Some p -> geti (seen (n + 1)) n = Some (aged p).
Proof.
  intros E. unfold seen, upto. rewrite geti_imap, E. apply geti_Some_lt in E. simpl.
  rewrite Z2Nat.id by lia. by rewrite (proj2 (Z.ltb_lt _ _)) by lia.
Qed.

Lemma best_same n high : best n (seen n) high -> best n (seen (n + 1)) high.
Proof.
  unfold best. case_match.
  - intros Hb j q Hj. rewrite <- seen_same by done. by apply Hb.
  - intros (h & Hh & Hlt & Hrun & H1 & H2). exists h. rewrite <- seen_same by done.
    split_and!; [done..| |]; intros j q Hj; rewrite <- seen_same by lia; eauto.
Qed.

Lemma best_skip n p high :
  geti (procs s) n = Some p -> best n (seen n) high ->
  (state p = RUNNABLE -> high <> -1 /\
     forall h, geti (seen n) high = Some h -> ~ lex (key (aged p)) (key h)) ->
  best (n + 1) (seen (n + 1)) high.
Proof.
  intros E Hb Hp. pose proof (best_same _ _ Hb) as Hb'. unfold best in *. case_match.
  - intros j q Hj Hq. destruct (decide (j = n)) as [-> |].
    + rewrite (seen_next n p) in Hq by done. simplify_eq. rewrite aged_state. intros Hrun.
      apply Hp in Hrun as [? _]. lia.
    + apply (Hb' j); [lia|done].
  - destruct Hb' as (h & Hh & Hlt & Hrun & H1 & H2). exists h.
    split_and!; [done|lia|done| |done].
    intros j q Hj Hq Hrq. destruct (decide (j = n)) as [-> |]; [|eapply (H1 j); [lia|done..]].
    rewrite (seen_next n p) in Hq by done. simplify_eq. rewrite aged_state in Hrq.
    apply Hp in Hrq as [_ Hrq]. apply Hrq. by rewrite seen_same.
Qed.

Lemma best_take n p high :
  geti (procs s) n = Some p -> best n (seen n) high -> state p = RUNNABLE ->
  (high = -1 \/ exists h, geti (seen n) high = Some h /\ lex (key (aged p)) (key h)) ->
  best (n + 1) (seen (n + 1)) n.
Proof.
  intros E Hb Hrun Hp. pose proof (geti_Some_lt _ _ _ E) as Hn. apply best_same in Hb.
  unfold best. rewrite (proj2 (Z.eqb_neq n (-1))) by lia. exists (aged p).
  rewrite (seen_next n p) by done. split_and!; [done|lia|by rewrite aged_state| |].
  - intros j q Hj Hq Hrq. destruct (decide (j = n)) as [-> |].
    + rewrite (seen_next n p) in Hq by done. simplify_eq. unfold lex. lia.
    + destruct Hp as [-> |(h & Hh & Hl)].
      * exfalso. apply (Hb j q); [lia|done|done].
      * unfold best in Hb. case_match; [exfalso; apply (Hb j q); [lia|done..]|].
        destruct Hb as (h' & Hh' & Hlt & _ & H1 & _). rewrite <- seen_same in Hh' by done.
        simplify_eq. intros Hq'. assert (~ lex (key q) (key h')) by (eapply (H1 j); [lia|done..]).
        unfold lex in *. lia.
  - intros j q Hj Hq Hrq. destruct Hp as [-> |(h & Hh & Hl)].
    + exfalso. by apply (Hb j q).
    + unfold best in Hb. case_match; [exfalso; by apply (Hb j q)|].
      destruct Hb as (h' & Hh' & Hlt & _ & H1 & _). rewrite <- seen_same in Hh' by done.
      simplify_eq. eapply lex_trans; [done|]. by eapply (H1 j).
Qed.

Lemma pbs_visit_spec n high :
  0 <= n < NPROC -> best n (seen n) high -> -1 <= high < n ->
  exists high', pbs_visit n high (visited n high) = Done high' (visited (n + 1) high') /\
    best (n + 1) (seen (n + 1)) high' /\ -1 <= high' < n + 1.
Proof.
  intros Hn Hb Hhigh. unfold full_table in *.
  destruct (geti_is_Some (procs s) n) as [p E]; [lia|].
  assert (Hp : divisible p).
  { rewrite Forall_forall in Hdiv. apply Hdiv. apply geti_nat_inv in E. by eapply list_elem_of_lookup_2. }
  assert (Hv : visited (n + 1) high = (visited n high) {{ procs ::= seti n (aged p) }}).
  { unfold visited. simpl. fold (procs s). by rewrite <- (upto_step n (fun _ => aged) (procs s) p). }
  assert (Hnl : proc_lock n ∉ held_high high ∪ plocks s).
  { unfold held_high. case_match; [set_solver|]. rewrite elem_of_union, elem_of_singleton.
    intros [[= ->]|Hx]; [lia|by apply (Hfree n)]. }
  assert (En : geti (procs (visited n high)) n = Some p) by (unfold visited; simpl; by rewrite upto_here).
  assert (En' : geti (procs (visited (n + 1) high)) n = Some (aged p)) by (by apply seen_next).
  unfold pbs_visit.
  assert (Hstep : forall (k : unit -> M pstate Z),
    bind (_rbi n) (fun r => bind (setp n (fun p => p {{ curr_rbi := r }})) k) (visited n high)
    = k tt (visited (n + 1) high)).
  { intros k. pose proof (rbi_visit n p _ En Hp) as Hx. unfold bind in *. rewrite Hv.
    destruct (_rbi n (visited n high)) as [r s1| | | |]; cbn [bindp] in *; try done.
    by rewrite Hx. }
  rewrite Hstep. unfold bind. rewrite acquire_free by done. cbn [bindp].
  rewrite (getp_ok n (aged p)) by done. cbn [bindp]. rewrite aged_state.
  assert (Hback : release (proc_lock n) (set_held ({[proc_lock n]} ∪ held (visited (n + 1) high)) (visited (n + 1) high))
                  = Done tt (visited (n + 1) high)) by (by apply lock_cycle).
  destruct (decide (state p = RUNNABLE)) as [Hrun|Hrun].
  2: { rewrite Hback. exists high. split; [done|]. split; [|lia]. by apply (best_skip n p). }
  destruct (Z.eqb_spec high (-1)) as [-> |Hne].
  - exists n. split; [|split; [|lia]].
    + unfold ret, visited, held_high. rewrite Z.eqb_refl, (proj2 (Z.eqb_neq n (-1))) by lia. simpl.
      do 2 f_equal. set_solver.
    + apply (best_take n p (-1)); [done..|by left].
  - destruct (geti_is_Some (seen (n + 1)) high) as [h Eh].
    { unfold seen. rewrite upto_length. lia. }
    rewrite (getp_ok high h) by done. cbn [bindp].
    assert (Eh' : geti (seen n) high = Some h) by (by rewrite seen_same by lia).
    destruct (better (aged p) h) eqn:Hbt.
    + apply better_spec in Hbt. exists n. split; [|split; [|lia]].
      * unfold visited, held_high. rewrite (proj2 (Z.eqb_neq high (-1))), (proj2 (Z.eqb_neq n (-1))) by lia.
        rewrite release_held by (simpl; rewrite !elem_of_union, !elem_of_singleton; tauto).
        cbn [bindp ret]. unfold set_held. simpl. do 2 f_equal.
        apply set_eq. intros x. rewrite elem_of_difference, !elem_of_union, !elem_of_singleton.
        split; [tauto|]. intros [-> | Hx]; [split; [tauto|]; intros [= ?]; lia|].
        split; [tauto|]. intros ->. by apply (Hfree high).
      * apply (best_take n p high); [done..|]. right. by exists h.
    + exists high. rewrite Hback. split; [done|]. split; [|lia].
      apply (best_skip n p); [done..|]. intros _. split; [done|]. intros h' Hh'. simplify_eq.
      intros Hl%better_spec. congruence.
Qed.

Lemma pbs_select_spec :
  exists high, pbs_select s = Done high (visited NPROC high) /\ best NPROC (seen NPROC) high /\ -1 <= high < NPROC.
Proof.
  unfold pbs_select.
  assert (Hgen : forall k n high, 0 <= n <= NPROC -> (Z.to_nat (NPROC - n) < k)%nat ->
    best n (seen n) high -> -1 <= high < n \/ high = -1 ->
    exists high', loop k (fun '(i, high) =>
       if i <? NPROC then high' <- pbs_visit i high;; continue (i + 1, high')
       else break high) (n, high) (visited n high) = Done high' (visited NPROC high') /\
      best NPROC (seen NPROC) high' /\ -1 <= high' < NPROC).
  { induction k as [|k IH]; intros n high Hn Hk Hb Hh; [lia|]. cbn [loop].
    destruct (Z.ltb_spec n NPROC) as [Hlt|Hge].
    - destruct (pbs_visit_spec n high) as (high' & Hv & Hb' & Hr); [lia|done|lia|].
      unfold bind at 1 2. rewrite Hv. cbn. apply IH; [lia|lia|done|by left].
    - replace n with NPROC in * by lia. exists high. split; [done|]. split; [done|]. lia. }
  destruct (Hgen (Datatypes.S (Z.to_nat NPROC)) 0 (-1)) as (high & Hs & Hb & Hr);
    [unfold NPROC; lia|unfold NPROC; lia| |by right|].
  - unfold best. simpl. intros j q Hj Hq. apply geti_Some_lt in Hq. lia.
  - exists high. split; [|done]. rewrite <- Hs. f_equal. unfold visited, held_high. simpl.
    rewrite upto_0. destruct s; simpl. f_equal. set_solver.
Qed.

End Select.

Lemma setp_undef i f s : geti (procs s) i = None -> setp i f s = Undef "proc[]".
Proof. intros E. unfold setp, getp, bind, gets. cbn [bindp]. by rewrite E. Qed.

Section Props.
Context `{Layout}.

(** C28: one scan of the PBS scheduler recomputes the behaviour index of every
    process and returns, with only its lock held, the RUNNABLE process with the
    least min(static + dynamic, 100), ties broken by the larger number of
    schedulings, then by the earlier creation, then by the place in the table;
    it returns none exactly when no process is RUNNABLE.  (The divisor of _rbi
    must not wrap to 0.) *)
Theorem pbs_select_best s :
  full_table s -> procs_unlocked s -> Forall divisible (procs s) ->
  exists high s', pbs_select s = Done high s' /\
    (forall i, geti (procs s') i = aged <$> geti (procs s) i) /\
    plocks s' = held_high high ∪ plocks s /\
    best NPROC (procs s') high.
Proof.
  intros Hfull Hfree Hdiv.
  destruct (pbs_select_spec s Hfull Hfree Hdiv) as (high & E & Hb & _).
  exists high, (visited s NPROC high). split; [done|]. split; [|done].
  intros i. change (geti (seen s NPROC) i = aged <$> geti (procs s) i).
  unfold seen, full_table in *. by rewrite upto_all, geti_imap by lia.
Qed.

(** when the scan finds a process, the round dispatches it as RUNNING on this
    hart, and when control returns the statement p->tot_sche++ is applied to
    &proc[NPROC], one past the table: undefined behaviour, on every dispatch. *)
Theorem pbs_round_past_end s :
  full_table s -> procs_unlocked s -> Forall divisible (procs s) ->
  Exists (fun p => state p = RUNNABLE) (procs s) ->
  exists high p s1 k, pbs_round s = Sleep ("swtch"%string, high) s1 k /\
    geti (procs s) high = Some p /\ state p = RUNNABLE /\ cur s1 = high /\
    geti (procs s1) high = Some ((aged p) {{ state := RUNNING }}) /\
    forall s2, full_table s2 -> k s2 = Undef "proc[]".
Proof.
  intros Hfull Hfree Hdiv Hex. destruct (pbs_select_spec s Hfull Hfree Hdiv) as (high & E & Hb & Hr).
  unfold full_table in *. unfold best in Hb. destruct (Z.eqb_spec high (-1)) as [->|Hne].
  { exfalso. apply Exists_exists in Hex as (p & Hp & Hrun). apply list_elem_of_lookup in Hp as [j Hj].
    pose proof (lookup_lt_Some _ _ _ Hj). apply (Hb (Z.of_nat j) (aged p)); [lia| |by rewrite aged_state].
    unfold seen, upto. rewrite geti_imap. unfold geti. rewrite (proj2 (Z.leb_le 0 _)), Nat2Z.id, Hj by lia.
    simpl. by rewrite (proj2 (Z.ltb_lt _ _)) by lia. }
  destruct Hb as (h & Eh & _ & Hrun & _). destruct (geti_is_Some (procs s) high) as [p Ep]; [lia|].
  assert (h = aged p) as ->.
  { unfold seen in Eh. rewrite upto_all, geti_imap, Ep in Eh by lia. simpl in Eh. congruence. }
  assert (Eh' : geti (procs (visited s NPROC high)) high = Some (aged p)) by done.
  unfold pbs_round. unfold bind at 1. rewrite E. cbn [bindp]. rewrite (proj2 (Z.eqb_neq _ _) Hne).
  unfold bind at 1. rewrite (getp_ok high (aged p)) by done. cbn [bindp].
  rewrite bool_decide_eq_true_2 by done. unfold when, bind.
  rewrite (setp_ok high _ (aged p)) by done. unfold swtch, block, modify. cbn [bindp].
  eexists high, p, _, _. split; [done|]. rewrite aged_state in Hrun.
  split; [done|]. split; [done|]. split; [done|]. split.
  - apply geti_seti_eq. change (0 <= high < Z.of_nat (length (upto NPROC (fun _ => aged) (procs s)))).
    rewrite upto_length. lia.
  - intros s2 Hs2. assert (Hn : geti (procs s2) NPROC = None).
    { unfold geti. simpl. apply lookup_ge_None_2. unfold full_table, NPROC in *. lia. }
    cbn [bindp]. by rewrite setp_undef.
Qed.

(** Outside a priority reset, when the sleeping and waiting time outweighs
    three times the running time, _rbi does not return 0, as max(a, 0) says it
    should, but what 50 times a quotient near 2^32 / divisor leaves in an int:
    the subtraction is unsigned and wraps before the division. *)
Theorem rbi_wraps s i p :
  geti (procs s) i = Some p -> rbi p <> 25 ->
  0 <= my_rtime p -> 0 <= my_stime p -> 0 <= my_wtime p ->
  my_rtime p + my_stime p + my_wtime p < 2 ^ 31 ->
  3 * my_rtime p < my_stime p + my_wtime p ->
  let n := my_rtime p + my_wtime p + my_stime p + 1 in
  let d := my_stime p + my_wtime p - 3 * my_rtime p in
  _rbi i s = Done (Z.max 0 (i32 (50 * ((2 ^ 32 - d) / n)))) s.
Proof.
  intros E H25 Hr Hs Hw Hb Hlt n d. unfold _rbi, bind. rewrite (getp_ok i p) by done. cbn [bindp].
  rewrite (proj2 (Z.eqb_neq _ _) H25).
  replace (u32 (my_rtime p + my_wtime p + my_stime p + 1)) with n by (unfold n; rewrite u32_small; lia).
  rewrite (proj2 (Z.eqb_neq n 0)) by (unfold n; lia). unfold ret. f_equal.
  replace (u32 (3 * my_rtime p - my_stime p - my_wtime p)) with (2 ^ 32 - d).
  2: { unfold u32, d. apply (Z.mod_unique _ _ (-1)); lia. }
  assert (Hi : forall x, i32 (u32 x) = i32 x).
  { intros x. unfold i32, u32. by rewrite Z.add_mod_idemp_l by lia. }
  rewrite Hi. case_test; lia.
Qed.

(** A process after a tick: its running time, and the time in its state; a
    process sleeping for the clock wakes up. *)
Definition ticked (me i : Z) (p : proc) : proc := woken ticks_chan me i (charge (ran i p)).

(** A clock tick, taken with no process lock held, adds 1 to ticks, charges
    every process one unit of running, sleeping or waiting time by its state
    (and rtime when running), and then makes every other process that sleeps on
    ticks RUNNABLE; it leaves no lock held. *)
Theorem clockintr_charges s :
  full_table s -> procs_unlocked s -> tickslock ∉ plocks s ->
  exists s', clockintr s = Done tt s' /\
    ticks s' = u32 (ticks s + 1) /\ plocks s' = plocks s /\ cur s' = cur s /\ ram s' = ram s /\
    forall i, geti (procs s') i = ticked (cur s) i <$> geti (procs s) i.
Proof.
  intros Hfull Hfree Ht. unfold full_table, procs_unlocked in *. unfold clockintr, bind.
  rewrite acquire_free by done. cbn [bindp modify].
  match goal with |- context [update_time ?x] => set (s1 := x) end.
  assert (Hl1 : plocks s1 = {[tickslock]} ∪ plocks s) by done.
  assert (Hfree1 : forall i, proc_lock i ∉ {[tickslock]} ∪ plocks s).
  { intros i. rewrite elem_of_union, elem_of_singleton. intros [[=]|Hx]. by apply (Hfree i). }
  assert (Hlen : forall g u, length (procs (map_procs g u)) = length (procs u)) by (intros; apply length_imap).
  rewrite update_time_eq; [|done|unfold procs_unlocked; by rewrite Hl1]. cbn [bindp].
  rewrite (for_procs_map _ (fun _ => charge)).
  2: { unfold full_table. by rewrite Hlen. }
  2: { intros i s' p E Hl Hc. apply locked_update; [|done].
       rewrite Hl. change (proc_lock i ∉ plocks s1). by rewrite Hl1. }
  cbn [bindp]. rewrite wakeup_eq.
  2: { unfold full_table. by rewrite !Hlen. }
  2: { intros i _. change (proc_lock i ∉ plocks s1). by rewrite Hl1. }
  cbn [bindp]. rewrite release_held by (change (tickslock ∈ plocks s1); rewrite Hl1; set_solver).
  eexists. split; [done|]. split; [done|]. split.
  { change (plocks s1 ∖ {[tickslock]} = plocks s). rewrite Hl1. by apply held_cycle. }
  split; [done|]. split; [done|]. intros i.
  change (geti (imap (fun j => woken ticks_chan (cur s) (Z.of_nat j))
    (imap (fun _ => charge) (imap (fun j => ran (Z.of_nat j)) (procs s)))) i
    = ticked (cur s) i <$> geti (procs s) i).
  rewrite !geti_imap. destruct (geti (procs s) i) as [p|] eqn:E; [|done].
  apply geti_Some_lt in E. simpl. by rewrite Z2Nat.id by lia.
Qed.

End Props.

(** ** The theorems on a small table *)

Lemma demo_divisible : Forall divisible (procs demo).
Proof.
  apply Forall_forall. intros p Hp%list_elem_of_In. simpl in Hp.
  repeat destruct Hp as [<-|Hp]; try (by left); try (right; vm_compute; discriminate); done.
Qed.

Lemma pbs_select_best_witness :
  exists high s', pbs_select demo = Done high s' /\
    (forall i, geti (procs s') i = aged <$> geti (procs demo) i) /\
    plocks s' = held_high high ∪ plocks demo /\ best NPROC (procs s') high.
Proof. apply (pbs_select_best demo demo_full demo_unlocked demo_divisible). Defined.

Lemma pbs_round_past_end_witness :
  exists high p s1 k, pbs_round demo = Sleep ("swtch"%string, high) s1 k /\
    geti (procs demo) high = Some p /\ state p = RUNNABLE /\ cur s1 = high /\
    geti (procs s1) high = Some ((aged p) {{ state := RUNNING }}) /\
    forall s2, full_table s2 -> k s2 = Undef "proc[]".
Proof.
  apply (pbs_round_past_end demo demo_full demo_unlocked demo_divisible).
  apply Exists_exists. exists (blank {{ state := RUNNABLE; pid := 3; parent := 0; static_pri := 40; rbi := -1; my_wtime := 3 }}).
  split; [apply list_elem_of_In; simpl; tauto|done].
Defined.

(** Waiting 3 ticks and running none gives 2147483598 instead of 0. *)
Lemma rbi_wraps_witness : _rbi 2 demo = Done 2147483598 demo.
Proof. apply (rbi_wraps demo 2 _ eq_refl); vm_compute; congruence. Defined.

Lemma clockintr_charges_witness :
  exists s', clockintr demo = Done tt s' /\ ticks s' = 101 /\ plocks s' = ∅ /\ cur s' = 0 /\
    ram s' = ram demo /\ forall i, geti (procs s') i = ticked 0 i <$> geti (procs demo) i.
Proof.
  apply (clockintr_charges demo demo_full demo_unlocked). apply not_elem_of_empty.
Defined.
