(* ===== verification/Kernel.v ===== *)
(** The kernel's global variables (kernel/*.c) as one state.

    [kernel] holds the process layer's state and the globals of the other
    components: the buffer cache, the log, the inode and file tables, the pipes,
    the console, the UART and the disk.  Pointers into a table are indices and
    -1 is the null pointer; a pipe, which lives in a page of its own, is named
    by the page's address. *)

From Stdlib Require Export Ascii.
From S2P Require Import Prelude Mem Riscv Locks Kalloc Vm Proc.

Record sleeplock := SleepLock { sl_locked : Z; sl_pid : Z }.

(** struct buf; [prev] and [next] are indices of bcache.buf[], or [NBUF] for
    bcache.head, which is stored after the array. *)
Record buf := Buf {
  b_valid : Z;
  b_dev : Z;
  b_blockno : Z;
  b_lock : sleeplock;
  b_refcnt : Z;
  b_prev : Z;
  b_next : Z;
  b_data : list Z;
}.

Record logstate := Log {
  l_start : Z;
  l_size : Z;
  outstanding : Z;
  committing : Z;
  l_dev : Z;
  lh_n : Z;
  lh_block : list Z;
}.

Record superblock := SuperBlock {
  sb_magic : Z;
  sb_size : Z;
  sb_nblocks : Z;
  sb_ninodes : Z;
  sb_nlog : Z;
  sb_logstart : Z;
  sb_inodestart : Z;
  sb_bmapstart : Z;
}.

Record inode := Inode {
  i_dev : Z;
  i_inum : Z;
  i_ref : Z;
  i_lock : sleeplock;
  i_valid : Z;
  i_type : Z;
  i_major : Z;
  i_minor : Z;
  i_nlink : Z;
  i_size : Z;
  i_addrs : list Z;
}.

Inductive ftype := FD_NONE | FD_PIPE | FD_INODE | FD_DEVICE.

#[export] Instance ftype_eq_dec : EqDecision ftype.
Proof. solve_decision. Defined.

Record file := File {
  f_type : ftype;
  f_ref : Z;
  f_readable : Z;
  f_writable : Z;
  f_pipe : Z;
  f_ip : Z;
  f_off : Z;
  f_major : Z;
}.

Record pipe := Pipe {
  p_data : list Z;
  nread : Z;
  nwrite : Z;
  readopen : Z;
  writeopen : Z;
}.

Record console := Cons {
  cons_buf : list Z;
  cons_r : Z;
  cons_w : Z;
  cons_e : Z;
}.

(** The transmit buffer of uart.c, and what the device shows: the bytes
    written to THR, the bytes that wait in RHR, and its next answers to "is
    the transmitter idle?" (idle when no answer is left). *)
Record uartstate := Uart {
  tx_buf : list Z;
  tx_w : Z;
  tx_r : Z;
  thr : list Z;
  rhr : list Z;
  tx_idle : list bool;
}.

(** The disk: its first contents and the writes it has performed, oldest
    first. *)
Record diskstate := Disk {
  d_init : Z -> list Z;
  d_writes : list (Z * list Z);
}.

(** devsw[]: whether an entry has the console's functions. *)
Inductive devfun := NoDevice | ConsoleDevice.

Record kernel := Kernel {
  kp : pstate;
  bufs : list buf;
  klog : logstate;
  sb : superblock;
  itable : list inode;
  ftable : list file;
  pipes : gmap Z pipe;
  cons : console;
  uart : uartstate;
  disk : diskstate;
  devsw : list devfun;
  pr_locking : Z;
  panicked : Z;
  readCount : Z;
  first : Z;
}.

#[export] Program Instance kernel_locks : HasLocks kernel := {|
  held s := plocks (kp s);
  set_held h s := s {{ kp := (kp s) {{ plocks := h }} }}
|}.
Next Obligation. done. Qed.
Next Obligation. done. Qed.
Next Obligation. intros [[]]. done. Qed.

Program Definition kp_lens : lens kernel pstate := {|
  lget := kp;
  lput p s := s {{ kp := p }}
|}.
Next Obligation. done. Qed.
Next Obligation. intros []. done. Qed.
Next Obligation. done. Qed.

(** An operation of the process layer, run in the kernel. *)
Definition in_proc {A} (m : M pstate A) : M kernel A := zoom kp_lens m.

(** The bound on the iterations of the loops that wait for another process or
    for a device. *)
Class Fuel := fuel : nat.

Definition ksleep (ch : chan) (lk : lock) : M kernel unit := in_proc (sleep ch lk).
Definition kwakeup (ch : chan) : M kernel unit := in_proc (wakeup ch).
Definition kmyproc : M kernel Z := in_proc myproc.
Definition kgetp (i : Z) : M kernel proc := in_proc (getp i).
Definition ksetp (i : Z) (f : proc -> proc) : M kernel unit := in_proc (setp i f).

(** [while (c) body], for conditions that read the state. *)
Definition while {S} (n : nat) (c : M S bool) (body : M S unit) : M S unit :=
  loop n (fun _ : unit =>
    b <- c;;
    if b then body;;; continue tt else break tt) tt.

(** An element of a table: null and out-of-range pointers are undefined. *)
Definition elem {A} (tab : kernel -> list A) (what : string) (i : Z) : M kernel A :=
  o <- gets (fun s => geti (tab s) i);;
  match o with Some x => ret x | None => undef what end.

Definition getbuf (i : Z) : M kernel buf := elem bufs "buf" i.
Definition setbuf (i : Z) (f : buf -> buf) : M kernel unit :=
  b <- getbuf i;;
  modify (fun s => s {{ bufs ::= seti i (f b) }}).

Definition getinode (i : Z) : M kernel inode := elem itable "inode" i.
Definition setinode (i : Z) (f : inode -> inode) : M kernel unit :=
  ip <- getinode i;;
  modify (fun s => s {{ itable ::= seti i (f ip) }}).

Definition getfile (i : Z) : M kernel file := elem ftable "file" i.
Definition setfile (i : Z) (f : file -> file) : M kernel unit :=
  x <- getfile i;;
  modify (fun s => s {{ ftable ::= seti i (f x) }}).

Definition getpipe (pi : Z) : M kernel pipe :=
  o <- gets (fun s => pipes s !! pi);;
  match o with Some x => ret x | None => undef "pipe" end.
Definition setpipe (pi : Z) (f : pipe -> pipe) : M kernel unit :=
  x <- getpipe pi;;
  modify (fun s => s {{ pipes ::= insert pi (f x) }}).

Definition setlog (f : logstate -> logstate) : M kernel unit :=
  modify (fun s => s {{ klog ::= f }}).

(** ** Integers in byte arrays (little endian) *)

Fixpoint le_value (bs : list Z) : Z :=
  match bs with
  | [] => 0
  | b :: r => b + 256 * le_value r
  end.

Definition field (off : Z) (n : nat) (data : list Z) : Z :=
  le_value (take n (drop (Z.to_nat off) data)).

(** The bytes [bs] stored at [off]. *)
Definition splice (off : Z) (bs data : list Z) : list Z :=
  take (Z.to_nat off) data ++ bs ++ drop (Z.to_nat off + length bs) data.

Definition put_field (off : Z) (n : nat) (v : Z) (data : list Z) : list Z :=
  splice off (int_bytes n v) data.

(** The bytes of a C string up to its NUL. *)
Fixpoint cstr (bs : list Z) : list Z :=
  match bs with
  | [] => []
  | b :: r => if b =? 0 then [] else b :: cstr r
  end.

(** The code of a character. *)
Definition chr (c : Ascii.ascii) : Z := Z.of_nat (Ascii.nat_of_ascii c).
#[global] Arguments chr c%_char_scope.

(** The bytes of a string literal. *)
Fixpoint str (s : string) : list Z :=
  match s with
  | EmptyString => []
  | String c r => chr c :: str r
  end.

(** An operation on physical memory, run in the kernel. *)
Definition in_mem {A} (m : M phys A) : M kernel A := in_proc (in_ram m).
