(* ===== verification/KernelFacts.v ===== *)
(** Equations for the kernel's building blocks: an operation of a lower layer
    runs in its part of the state, table accesses, locks, loops.  A kernel with one
    running process on the small machine of SpaceCheck.v serves for concrete runs. *)

From S2P Require Import Prelude Mem Riscv Locks Kalloc Vm Space SpaceCheck Proc ProcFacts Kernel.

Lemma in_proc_done {A} (m : M pstate A) a p s :
  m (kp s) = Done a p -> in_proc m s = Done a (s {{ kp := p }}).
Proof. intros E. unfold in_proc, zoom. simpl. fold (kp s). by rewrite E. Qed.

Lemma in_proc_same {A} (m : M pstate A) a s : m (kp s) = Done a (kp s) -> in_proc m s = Done a s.
Proof. intros E. rewrite (in_proc_done m a (kp s)) by done. by destruct s. Qed.

Lemma in_mem_done {A} (m : M phys A) a r s :
  m (ram (kp s)) = Done a r -> in_mem m s = Done a (s {{ kp := (kp s) {{ ram := r }} }}).
Proof.
  intros E. apply in_proc_done. unfold in_ram, zoom. destruct s as [[]]. simpl in *. by rewrite E.
Qed.

Lemma in_mem_same {A} (m : M phys A) a s : m (ram (kp s)) = Done a (ram (kp s)) -> in_mem m s = Done a s.
Proof. intros E. rewrite (in_mem_done m a (ram (kp s))) by done. by destruct s as [[]]. Qed.

Lemma kmyproc_eq s : kmyproc s = Done (cur (kp s)) s.
Proof. by apply in_proc_same. Qed.

Lemma kgetp_ok i p s : geti (procs (kp s)) i = Some p -> kgetp i s = Done p s.
Proof. intros E. apply in_proc_same. by apply getp_ok. Qed.

Lemma killed_eq i p s :
  geti (procs s) i = Some p -> proc_lock i ∉ plocks s -> killed i s = Done (p_killed p) s.
Proof.
  intros E Hl. unfold killed. erewrite bind_done by (by apply acquire_free).
  erewrite bind_done by (by apply getp_ok). erewrite bind_done by (by apply lock_cycle). done.
Qed.

(** The process layer after a wakeup. *)
Definition woke (ch : chan) (s : kernel) : kernel :=
  s {{ kp := map_procs (woken ch (cur (kp s))) (kp s) }}.

Lemma kwakeup_eq ch s :
  full_table (kp s) -> others_unlocked (kp s) -> kwakeup ch s = Done tt (woke ch s).
Proof. intros Hf Hu. apply in_proc_done. by apply wakeup_eq. Qed.

Lemma elem_ok {A} (tab : kernel -> list A) what i x s :
  geti (tab s) i = Some x -> elem tab what i s = Done x s.
Proof. intros E. unfold elem, bind, gets. cbn [bindp]. by rewrite E. Qed.

Lemma getpipe_ok pi p s : pipes s !! pi = Some p -> getpipe pi s = Done p s.
Proof. intros E. unfold getpipe, bind, gets. cbn [bindp]. by rewrite E. Qed.

Lemma setpipe_ok pi f p s :
  pipes s !! pi = Some p -> setpipe pi f s = Done tt (s {{ pipes ::= insert pi (f p) }}).
Proof. intros E. unfold setpipe, bind. by rewrite (getpipe_ok pi p). Qed.

Lemma setbuf_ok i f b s :
  geti (bufs s) i = Some b -> setbuf i f s = Done tt (s {{ bufs ::= seti i (f b) }}).
Proof. intros E. unfold setbuf, getbuf. by erewrite bind_done by (by apply elem_ok). Qed.

Lemma setinode_ok i f ip s :
  geti (itable s) i = Some ip -> setinode i f s = Done tt (s {{ itable ::= seti i (f ip) }}).
Proof. intros E. unfold setinode, getinode. by erewrite bind_done by (by apply elem_ok). Qed.

Lemma setfile_ok i f x s :
  geti (ftable s) i = Some x -> setfile i f s = Done tt (s {{ ftable ::= seti i (f x) }}).
Proof. intros E. unfold setfile, getfile. by erewrite bind_done by (by apply elem_ok). Qed.

(** The state with lock [l] held. *)
Definition locked {S} `{HasLocks S} (l : lock) (s : S) : S := set_held ({[l]} ∪ held s) s.

Lemma acquire_eq {S} `{HasLocks S} l (s : S) : l ∉ held s -> acquire l s = Done tt (locked l s).
Proof. apply acquire_free. Qed.

Lemma release_eq {S} `{HasLocks S} l (s : S) : l ∉ held s -> release l (locked l s) = Done tt s.
Proof. apply lock_cycle. Qed.

(** A loop step by step. *)
Lemma loop_break {S X A} n (body : X -> M S (X + A)) x s a s' :
  body x s = Done (inr a) s' -> loop (Datatypes.S n) body x s = Done a s'.
Proof. intros E. cbn [loop]. unfold bind. by rewrite E. Qed.

Lemma loop_continue {S X A} n (body : X -> M S (X + A)) x s x' s' :
  body x s = Done (inl x') s' -> loop (Datatypes.S n) body x s = loop n body x' s'.
Proof. intros E. cbn [loop]. unfold bind. by rewrite E. Qed.

(** One step of a run: the first operation of a sequence is done. *)
Ltac step_with lem := erewrite bind_done by (lem; (done || eassumption || eauto)).

(** ** What an operation leaves alone *)

(** Whenever [m] is done, [f] of the state is what it was. *)
Definition keeps {S X A} (f : S -> X) (m : M S A) : Prop :=
  forall s a s', m s = Done a s' -> f s' = f s.

Section Keeps.
Context {S X : Type} (f : S -> X).

Lemma keeps_ret {A} (a : A) : keeps f (ret a).
Proof. intros s b s' [= _ <-]. done. Qed.

Lemma keeps_gets {A} (g : S -> A) : keeps f (gets g).
Proof. intros s b s' [= _ <-]. done. Qed.

Lemma keeps_modify (g : S -> S) : (forall s, f (g s) = f s) -> keeps f (modify g).
Proof. intros Hg s b s' [= _ <-]. apply Hg. Qed.

Lemma keeps_panic {A} msg : keeps f (@panic S A msg).
Proof. done. Qed.

Lemma keeps_undef {A} msg : keeps f (@undef S A msg).
Proof. done. Qed.

Lemma keeps_bind {A B} (m : M S A) (k : A -> M S B) :
  keeps f m -> (forall a, keeps f (k a)) -> keeps f (bind m k).
Proof.
  intros Hm Hk s b s' E. unfold bind in E. destruct (m s) as [a s1| | | |] eqn:Em; try done.
  rewrite (Hk a _ _ _ E). by eapply Hm.
Qed.

Lemma keeps_when b (m : M S unit) : keeps f m -> keeps f (when b m).
Proof. intros Hm. destruct b; [done|apply keeps_ret]. Qed.

Lemma keeps_loop {Y A} n (body : Y -> M S (Y + A)) :
  (forall y, keeps f (body y)) -> forall y, keeps f (loop n body y).
Proof.
  intros Hb. induction n as [|n IH]; intros y; [done|]. cbn [loop].
  apply keeps_bind; [apply Hb|]. intros [y'|a]; [apply IH|apply keeps_ret].
Qed.

Lemma keeps_while n (c : M S bool) (body : M S unit) :
  keeps f c -> keeps f body -> keeps f (while n c body).
Proof.
  intros Hc Hb. apply keeps_loop. intros _. apply keeps_bind; [done|]. intros [].
  - apply keeps_bind; [done|intros; apply keeps_ret].
  - apply keeps_ret.
Qed.

Lemma keeps_if {A} (b : bool) (m m' : M S A) : keeps f m -> keeps f m' -> keeps f (if b then m else m').
Proof. by destruct b. Qed.

End Keeps.

Lemma keeps_zoom {S C X A} (L : lens S C) (f : S -> X) (m : M C A) :
  (forall c s, f (lput L c s) = f s) -> keeps f (zoom L m).
Proof.
  intros Hf s a s' E. unfold zoom in E. destruct (m (lget L s)) as [b c| | | |]; simpl in E; try done.
  injection E as _ <-. apply Hf.
Qed.

Lemma keeps_in_proc {X A} (f : kernel -> X) (m : M pstate A) :
  (forall p s, f (s {{ kp := p }}) = f s) -> keeps f (in_proc m).
Proof. intros Hf. by apply keeps_zoom. Qed.

Lemma keeps_acquire {X} (f : kernel -> X) l : (forall h s, f (set_held h s) = f s) -> keeps f (acquire l).
Proof. intros Hf s a s'. unfold acquire. case_decide; [done|]. intros [= _ <-]. apply Hf. Qed.

Lemma keeps_release {X} (f : kernel -> X) l : (forall h s, f (set_held h s) = f s) -> keeps f (release l).
Proof. intros Hf s a s'. unfold release. case_decide; [|done]. intros [= _ <-]. apply Hf. Qed.

Lemma keeps_elem {X A} (f : kernel -> X) (tab : kernel -> list A) what i : keeps f (elem tab what i).
Proof.
  apply keeps_bind; [apply keeps_gets|]. intros []; [apply keeps_ret|apply keeps_undef].
Qed.

(** One step of the search for a frame. *)
Ltac keeps_step :=
  match goal with
  | |- keeps _ (if _ then _ else _) => apply keeps_if
  | |- keeps _ (match ?x with _ => _ end) => destruct x
  | |- keeps _ (bind _ _) => apply keeps_bind; [|intros ?]
  | |- keeps _ (when _ _) => apply keeps_when
  | |- keeps _ (loop _ _ _) => apply keeps_loop; intros ?
  | |- keeps _ (while _ _ _) => apply keeps_while
  | |- keeps _ (ret _) => apply keeps_ret
  | |- keeps _ (break _) => apply keeps_ret
  | |- keeps _ (continue _) => apply keeps_ret
  | |- keeps _ (gets _) => apply keeps_gets
  | |- keeps _ (panic _) => apply keeps_panic
  | |- keeps _ (undef _) => apply keeps_undef
  | |- keeps _ (elem _ _ _) => apply keeps_elem
  | |- keeps _ (getbuf _) => apply keeps_elem
  | |- keeps _ (getinode _) => apply keeps_elem
  | |- keeps _ (acquire _) => apply keeps_acquire; done
  | |- keeps _ (release _) => apply keeps_release; done
  | |- keeps _ (kmyproc) => apply keeps_in_proc; done
  | |- keeps _ (kgetp _) => apply keeps_in_proc; done
  | |- keeps _ (ksleep _ _) => apply keeps_in_proc; done
  | |- keeps _ (kwakeup _) => apply keeps_in_proc; done
  | |- keeps _ (in_proc _) => apply keeps_in_proc; done
  | |- keeps _ (modify _) => apply keeps_modify; done
  end.
Ltac keeps_auto := repeat (first [eassumption | solve [eauto with keeps] | keeps_step]).
Create HintDb keeps.

(** The user's memory starts with the bytes of "hi!". *)
Definition user_ram : phys :=
  let p := copyout (H := tiny) (pg 15) 0 [104; 105; 33] before_fork in result p before_fork.

Definition demo_proc : proc :=
  blank {{ state := RUNNING; pid := 1; sz := 8192; pagetable := pg 15; trapframe := pg 9 }}.

Definition demo_pstate : pstate :=
  PState (demo_proc :: replicate 63 blank) 2 0 100 0 user_ram ∅.

Definition blank_buf : buf := Buf 0 0 0 (SleepLock 0 0) 0 0 0 (replicate 1024 0).
Definition blank_inode : inode := Inode 0 0 0 (SleepLock 0 0) 0 0 0 0 0 0 (replicate 13 0).
Definition blank_file : file := File FD_NONE 0 0 0 0 (-1) 0 0.

Definition demo_pipe : pipe := Pipe ([7; 8; 9] ++ replicate 509 0) 0 3 1 1.
Definition pipe_page : Z := pg 8.

Definition demo_kernel : kernel :=
  Kernel demo_pstate (replicate 31 blank_buf) (Log 0 0 0 0 0 0 (replicate 30 0))
    (SuperBlock 0 0 0 0 0 0 0 0) (replicate 50 blank_inode) (replicate 100 blank_file)
    {[pipe_page := demo_pipe]} (Cons (replicate 128 0) 0 0 0) (Uart (replicate 32 0) 0 0 [] [] [])
    (Disk (fun _ => replicate 1024 0) []) (replicate 10 NoDevice) 1 0 0 1.

Lemma demo_kernel_full : full_table (kp demo_kernel).
Proof. reflexivity. Qed.

Lemma demo_kernel_unlocked : procs_unlocked (kp demo_kernel).
Proof. intros i. apply not_elem_of_empty. Qed.

(** A result computed from one component of an outcome. *)
Lemma value_done {S A} (p : prog S A) (a b : A) s : value p a = b -> a <> b -> p = Done b (result p s).
Proof. destruct p; simpl; congruence. Qed.
