(* ===== verification/Boot.v ===== *)
(** Starting the machine (kernel/start.c, main.c, plic.c, the register accessors of
    riscv.h, and timervec of kernelvec.S).

    A hart has control registers, general registers, a privilege mode and a program
    counter; memory and the memory-mapped registers of the devices are [word], by
    address, as each of them is accessed at one width only.
    sstatus, sie and sip are views of mstatus, mie and mip.  What a control register
    keeps of a value written to it ([legal]) and which bits of mstatus sstatus shows
    ([smask]) is up to the hardware, whose manual promises the laws of [Hardware]. *)

From stdpp Require Import functions.
From S2P Require Import Prelude Mem Riscv Locks Kalloc Vm Proc ProcFacts Kernel KernelFacts.

(** ** Hardware *)

Inductive csr :=
| MHARTID | MSTATUS | MEPC | MIE | MIP | MEDELEG | MIDELEG | MTVEC | MSCRATCH | MCOUNTEREN
| PMPCFG0 | PMPADDR0 | TIME | SSTATUS | SIE | SIP | SEPC | STVEC | SATP | SCAUSE | STVAL | SSCRATCH.

#[export] Instance csr_eq_dec : EqDecision csr.
Proof. solve_decision. Defined.

Inductive reg :=
| RA | SP | GP | TP | T0 | T1 | T2 | T3 | T4 | T5 | T6 | A0 | A1 | A2 | A3 | A4 | A5 | A6 | A7
| S0 | S1 | S2 | S3 | S4 | S5 | S6 | S7 | S8 | S9 | S10 | S11.

(** The numbers of the registers x1, ..., x31. *)
Definition registers : list reg :=
  [RA; SP; GP; TP; T0; T1; T2; S0; S1; A0; A1; A2; A3; A4; A5; A6; A7; S2; S3; S4; S5; S6; S7; S8; S9; S10; S11; T3; T4; T5; T6].

Definition number (r : reg) : nat :=
  match r with
  | RA => 1 | SP => 2 | GP => 3 | TP => 4 | T0 => 5 | T1 => 6 | T2 => 7 | S0 => 8 | S1 => 9
  | A0 => 10 | A1 => 11 | A2 => 12 | A3 => 13 | A4 => 14 | A5 => 15 | A6 => 16 | A7 => 17
  | S2 => 18 | S3 => 19 | S4 => 20 | S5 => 21 | S6 => 22 | S7 => 23 | S8 => 24 | S9 => 25 | S10 => 26 | S11 => 27
  | T3 => 28 | T4 => 29 | T5 => 30 | T6 => 31
  end.

Lemma registers_number r : registers !! pred (number r) = Some r.
Proof. by destruct r. Qed.

#[export] Instance number_inj : Inj (=) (=) number.
Proof. intros r r' E. pose proof (registers_number r) as H. rewrite E, registers_number in H. by injection H. Qed.

#[export] Instance reg_eq_dec : EqDecision reg.
Proof. refine (fun r r' => cast_if (decide (number r = number r'))); [by apply number_inj|by intros ->]. Defined.

Record machine := Machine {
  csrs : csr -> Z;
  regs : reg -> Z;
  mode : Z;
  pc : Z;
  word : Z -> Z;
}.

#[global] Arguments csrs !_ /.
#[global] Arguments regs !_ /.
#[global] Arguments mode !_ /.
#[global] Arguments pc !_ /.
#[global] Arguments word !_ /.

Definition MSTATUS_MPP_MASK : Z := Z.shiftl 3 11.
Definition MSTATUS_MPP_M : Z := Z.shiftl 3 11.
Definition MSTATUS_MPP_S : Z := Z.shiftl 1 11.
Definition MSTATUS_MPP_U : Z := Z.shiftl 0 11.
Definition MSTATUS_MIE : Z := Z.shiftl 1 3.
Definition SSTATUS_SPP : Z := Z.shiftl 1 8.
Definition SSTATUS_SPIE : Z := Z.shiftl 1 5.
Definition SSTATUS_SIE : Z := Z.shiftl 1 1.
Definition SIE_SEIE : Z := Z.shiftl 1 9.
Definition SIE_STIE : Z := Z.shiftl 1 5.
Definition SIE_SSIE : Z := Z.shiftl 1 1.
Definition MIE_MEIE : Z := Z.shiftl 1 11.
Definition MIE_MTIE : Z := Z.shiftl 1 7.
Definition MIE_MSIE : Z := Z.shiftl 1 3.

(** The bits that registers keep: in mstatus the interrupt enables and, unless it is
    the reserved mode 2, the previous mode; the interrupts of a supervisor and the machine
    timer; addresses of instructions, compressed ones included, and of handlers that are
    multiples of 4.  The machine timer's interrupt cannot be delegated. *)
Class Hardware := {
  legal : csr -> Z -> Z;
  smask : Z;
  legal_mstatus : forall v i, In i [1; 3; 5; 7; 8] -> Z.testbit (legal MSTATUS v) i = Z.testbit v i;
  legal_mpp : forall v, Z.land v MSTATUS_MPP_MASK <> Z.shiftl 2 11 ->
    Z.land (legal MSTATUS v) MSTATUS_MPP_MASK = Z.land v MSTATUS_MPP_MASK;
  legal_interrupts : forall v i c, In i [1; 5; 9] -> In c [MIE; MIP; MIDELEG] -> Z.testbit (legal c v) i = Z.testbit v i;
  legal_timer : forall v, Z.testbit (legal MIE v) 7 = Z.testbit v 7;
  legal_address : forall v, 0 <= v < 2 ^ 64 -> v mod 2 = 0 -> legal MEPC v = v;
  legal_vector : forall v c, 0 <= v < 2 ^ 64 -> v mod 4 = 0 -> In c [MTVEC; STVEC] -> legal c v = v;
  legal_value : forall v c, 0 <= v < 2 ^ 64 -> In c [MSCRATCH; SSCRATCH] -> legal c v = v;
  legal_delegation : forall v, Z.testbit (legal MIDELEG v) 7 = false;
  legal_bare : legal SATP 0 = 0;
  smask_bits : forall i, Z.testbit smask i = true -> In i [1; 5; 6; 8; 9; 10; 13; 14; 15; 16; 18; 19; 32; 33; 63];
  smask_interrupts : Z.testbit smask 1 = true /\ Z.testbit smask 5 = true /\ Z.testbit smask 8 = true;
}.

(** Where the linker puts things; kernelvec.S aligns the handlers. *)
Class Image := {
  main_addr : Z;
  timervec_addr : Z;
  kernelvec_addr : Z;
  timer_scratch : Z;
  image_main : 0 <= main_addr < 2 ^ 64 /\ main_addr mod 2 = 0;
  image_vectors : forall a, In a [timervec_addr; kernelvec_addr] -> 0 <= a < 2 ^ 64 /\ a mod 4 = 0;
  image_data : KERNBASE <= timer_scratch < 2 ^ 63;
}.

(** ** memlayout.h *)

Definition CLINT : Z := 0x2000000.
Definition CLINT_MTIMECMP (hartid : Z) : Z := CLINT + 0x4000 + 8 * hartid.
Definition CLINT_MTIME : Z := CLINT + 0xBFF8.
Definition PLIC_SENABLE (hart : Z) : Z := PLIC + 0x2080 + hart * 0x100.
Definition PLIC_SPRIORITY (hart : Z) : Z := PLIC + 0x201000 + hart * 0x2000.
Definition PLIC_SCLAIM (hart : Z) : Z := PLIC + 0x201004 + hart * 0x2000.

Section Boot.
Context `{Hardware} `{Image}.

Definition csr_value (s : machine) (c : csr) : Z :=
  match c with
  | SSTATUS => Z.land (csrs s MSTATUS) smask
  | SIE => Z.land (csrs s MIE) (csrs s MIDELEG)
  | SIP => Z.land (csrs s MIP) (csrs s MIDELEG)
  | _ => csrs s c
  end.

(** The bits of [v] in [mask], the others of [old]. *)
Definition merge (mask old v : Z) : Z := Z.lor (Z.land old (Z.lnot mask)) (Z.land v mask).

(** Of sip, only the software interrupt's bit can be written. *)
Definition csr_write (s : machine) (c : csr) (v : Z) : csr * Z :=
  match c with
  | SSTATUS => (MSTATUS, merge smask (csrs s MSTATUS) v)
  | SIE => (MIE, merge (csrs s MIDELEG) (csrs s MIE) v)
  | SIP => (MIP, merge (Z.land (csrs s MIDELEG) 2) (csrs s MIP) v)
  | _ => (c, v)
  end.

Definition csrr (c : csr) : M machine Z := gets (fun s => csr_value s c).
Definition csrw (c : csr) (v : Z) : M machine unit :=
  modify (fun s => let '(d, w) := csr_write s c v in s {{ csrs ::= <[d := legal d w]> }}).

Definition mv_from (r : reg) : M machine Z := gets (fun s => regs s r).
Definition mv_to (r : reg) (v : Z) : M machine unit := modify (fun s => s {{ regs ::= <[r := u64 v]> }}).

(** Loads and stores of doubles and words. *)
Definition load (a : Z) : M machine Z := gets (fun s => word s a).
Definition store (a v : Z) : M machine unit := modify (fun s => s {{ word ::= <[a := v]> }}).

(** mret: back to the previous mode, at mepc. *)
Definition mret : M machine unit :=
  modify (fun s =>
    let x := csrs s MSTATUS in
    let x' := merge (Z.lor MSTATUS_MIE (Z.shiftl 1 7)) (Z.land x (Z.lnot MSTATUS_MPP_MASK))
                (Z.lor (if Z.testbit x 7 then MSTATUS_MIE else 0) (Z.shiftl 1 7)) in
    s {{ mode := Z.shiftr (Z.land x MSTATUS_MPP_MASK) 11; pc := csrs s MEPC; csrs ::= <[MSTATUS := legal MSTATUS x']> }}).

(** A machine-mode interrupt arrives. *)
Definition machine_interrupt : M machine unit :=
  modify (fun s =>
    let x := csrs s MSTATUS in
    let x' := merge (Z.lor MSTATUS_MIE (Z.lor (Z.shiftl 1 7) MSTATUS_MPP_MASK)) x
                (Z.lor (if Z.testbit x 3 then Z.shiftl 1 7 else 0) (Z.shiftl (mode s) 11)) in
    s {{ csrs ::= fun r => <[MSTATUS := legal MSTATUS x']> (<[MEPC := legal MEPC (pc s)]> r);
         mode := 3; pc := csrs s MTVEC }}).

(** ** The accessors of riscv.h *)

Definition r_mhartid := csrr MHARTID.
Definition r_mstatus := csrr MSTATUS.
Definition w_mstatus := csrw MSTATUS.
Definition w_mepc := csrw MEPC.
Definition r_sstatus := csrr SSTATUS.
Definition w_sstatus := csrw SSTATUS.
Definition r_sip := csrr SIP.
Definition w_sip := csrw SIP.
Definition r_sie := csrr SIE.
Definition w_sie := csrw SIE.
Definition r_mie := csrr MIE.
Definition w_mie := csrw MIE.
Definition w_sepc := csrw SEPC.
Definition r_sepc := csrr SEPC.
Definition r_medeleg := csrr MEDELEG.
Definition w_medeleg := csrw MEDELEG.
Definition r_mideleg := csrr MIDELEG.
Definition w_mideleg := csrw MIDELEG.
Definition w_stvec := csrw STVEC.
Definition r_stvec := csrr STVEC.
Definition w_mtvec := csrw MTVEC.
Definition w_pmpcfg0 := csrw PMPCFG0.
Definition w_pmpaddr0 := csrw PMPADDR0.
Definition w_satp := csrw SATP.
Definition r_satp := csrr SATP.
Definition w_mscratch := csrw MSCRATCH.
Definition r_scause := csrr SCAUSE.
Definition r_stval := csrr STVAL.
Definition w_mcounteren := csrw MCOUNTEREN.
Definition r_mcounteren := csrr MCOUNTEREN.
Definition r_time := csrr TIME.
Definition r_sp := mv_from SP.
Definition r_tp := mv_from TP.
Definition w_tp := mv_to TP.
Definition r_ra := mv_from RA.

Definition intr_on : M machine unit := x <- r_sstatus;; w_sstatus (Z.lor x SSTATUS_SIE).
Definition intr_off : M machine unit := x <- r_sstatus;; w_sstatus (Z.land x (Z.lnot SSTATUS_SIE)).
Definition intr_get : M machine bool := x <- r_sstatus;; ret (negb (Z.land x SSTATUS_SIE =? 0)).

(** proc.c's cpuid() *)
Definition cpuid : M machine Z := id <- r_tp;; ret (i32 id).


(** ** start.c *)

(** The address of timer_scratch[id][k]. *)
Definition scratch (id k : Z) : Z := timer_scratch + 40 * id + 8 * k.

Definition interval : Z := 1000000.

Definition timerinit : M machine unit :=
  id <- r_mhartid;;
  let id := i32 id in
  t <- load CLINT_MTIME;;
  store (CLINT_MTIMECMP id) (u64 (t + interval));;;
  store (scratch id 3) (CLINT_MTIMECMP id);;;
  store (scratch id 4) interval;;;
  w_mscratch (scratch id 0);;;
  w_mtvec timervec_addr;;;
  x <- r_mstatus;;
  w_mstatus (Z.lor x MSTATUS_MIE);;;
  x <- r_mie;;
  w_mie (Z.lor x MIE_MTIE).

Definition start : M machine unit :=
  x <- r_mstatus;;
  let x := Z.land x (Z.lnot MSTATUS_MPP_MASK) in
  let x := Z.lor x MSTATUS_MPP_S in
  w_mstatus x;;;
  w_mepc main_addr;;;
  w_satp 0;;;
  w_medeleg 0xffff;;;
  w_mideleg 0xffff;;;
  x <- r_sie;;
  w_sie (Z.lor (Z.lor (Z.lor x SIE_SEIE) SIE_STIE) SIE_SSIE);;;
  w_pmpaddr0 0x3fffffffffffff;;;
  w_pmpcfg0 0xf;;;
  timerinit;;;
  id <- r_mhartid;;
  let id := i32 id in
  w_tp id;;;
  mret.

(** ** kernelvec.S: the machine's timer interrupt *)

Definition timervec : M machine unit :=
  a0 <- mv_from A0;;
  x <- csrr MSCRATCH;;
  csrw MSCRATCH a0;;;
  mv_to A0 x;;;
  a1 <- mv_from A1;; store x a1;;;
  a2 <- mv_from A2;; store (x + 8) a2;;;
  a3 <- mv_from A3;; store (x + 16) a3;;;
  cmp <- load (x + 24);;
  mv_to A1 cmp;;;
  i <- load (x + 32);;
  mv_to A2 i;;;
  t <- load cmp;;
  mv_to A3 (t + i);;;
  store cmp (u64 (t + i));;;
  mv_to A1 2;;;
  csrw SIP 2;;;
  v <- load (x + 16);; mv_to A3 v;;;
  v <- load (x + 8);; mv_to A2 v;;;
  v <- load x;; mv_to A1 v;;;
  a0 <- csrr MSCRATCH;;
  y <- mv_from A0;;
  csrw MSCRATCH y;;;
  mv_to A0 a0;;;
  mret.

(** What is at an address that a trap goes to: the kernel has one handler for machine mode. *)
Definition code_at (a : Z) : M machine unit := if a =? timervec_addr then timervec else undef "no handler".

(** The machine timer's interrupt while a user program or the kernel runs: when mie lets
    it in and mideleg leaves it to machine mode, the hart runs what is where the trap
    takes it. *)
Definition timer_trap : M machine unit :=
  on <- gets (fun s => Z.testbit (csrs s MIE) 7 && negb (Z.testbit (csrs s MIDELEG) 7));;
  when on (machine_interrupt;;; a <- gets pc;; code_at a).

(** ** plic.c *)

Definition plicinit : M machine unit :=
  store (PLIC + UART0_IRQ * 4) 1;;;
  store (PLIC + VIRTIO0_IRQ * 4) 1.

Definition plicinithart : M machine unit :=
  hart <- cpuid;;
  store (PLIC_SENABLE hart) (Z.lor (Z.shiftl 1 UART0_IRQ) (Z.shiftl 1 VIRTIO0_IRQ));;;
  store (PLIC_SPRIORITY hart) 0.

Definition plic_claim : M machine Z :=
  hart <- cpuid;;
  irq <- load (PLIC_SCLAIM hart);;
  ret (i32 irq).

Definition plic_complete (irq : Z) : M machine unit :=
  hart <- cpuid;;
  store (PLIC_SCLAIM hart) (u32 irq).

(** trap.c and vm.c; the translation cache is not modelled, so sfence_vma() does nothing. *)
Definition trapinithart : M machine unit := w_stvec kernelvec_addr.
Definition sfence_vma : M machine unit := ret tt.
Definition kvminithart (kernel_pagetable : Z) : M machine unit :=
  sfence_vma;;;
  w_satp (MAKE_SATP kernel_pagetable);;;
  sfence_vma.

End Boot.

(** ** main.c: several harts *)

(** The functions that main() calls. *)
Inductive call :=
| Consoleinit | Printfinit | Printf (s : string) | Kinit | Kvminit | Kvminithart | Procinit | Trapinit
| Trapinithart | Plicinit | Plicinithart | Binit | Iinit | Fileinit | Virtio_disk_init | Userinit | Scheduler.

#[export] Instance call_eq_dec : EqDecision call.
Proof. solve_decision. Defined.

(** What a hart does: calls, accesses of [started], and the barrier. *)
Inductive op := Call (c : call) | SetStarted | WaitStarted | Synchronize.

(** A line of text, with its newline. *)
Definition line (s : string) : string := String.append s (String "010" "").

Definition main (cpuid : Z) : list op :=
  (if cpuid =? 0 then
     (Call <$> [Consoleinit; Printfinit; Printf (line ""); Printf (line "xv6 kernel is booting");
                Printf (line "First run schedulertest then usertest ->PBS:all test passed"); Printf (line "");
                Kinit; Kvminit; Kvminithart; Procinit; Trapinit; Trapinithart; Plicinit; Plicinithart;
                Binit; Iinit; Fileinit; Virtio_disk_init; Userinit]) ++ [Synchronize; SetStarted]
   else
     [WaitStarted; Synchronize; Call (Printf (line "hart %d starting")); Call Kvminithart; Call Trapinithart; Call Plicinithart])
  ++ [Call Scheduler].

Record booting := Booting { todo : Z -> list op; started : bool; calls : list (Z * call) }.

(** A step of one hart; WaitStarted goes round while [started] is 0. *)
Inductive boot_step : booting -> booting -> Prop :=
| boot_call b h c l :
    todo b h = Call c :: l -> boot_step b (Booting (<[h := l]> (todo b)) (started b) (calls b ++ [(h, c)]))
| boot_set b h l :
    todo b h = SetStarted :: l -> boot_step b (Booting (<[h := l]> (todo b)) true (calls b))
| boot_wait b h l :
    todo b h = WaitStarted :: l ->
    boot_step b (Booting (<[h := if started b then l else WaitStarted :: l]> (todo b)) (started b) (calls b))
| boot_sync b h l :
    todo b h = Synchronize :: l -> boot_step b (Booting (<[h := l]> (todo b)) (started b) (calls b)).

(** ** The timer *)

(** Registers after a write of one of them. *)
Ltac csr_simpl :=
  cbn [csrs regs mode pc word csr_value csr_write apply_update constant];
  repeat first [rewrite fn_lookup_insert | rewrite fn_lookup_insert_ne by discriminate].

Section Timer.
Context `{Hardware} `{Image}.

(** What timervec relies on. *)
Record timer_ready (h : Z) (s : machine) : Prop := {
  ready_hart : csrs s MHARTID = h;
  ready_vector : csrs s MTVEC = timervec_addr;
  ready_mscratch : csrs s MSCRATCH = scratch h 0;
  ready_cmp : word s (scratch h 3) = CLINT_MTIMECMP h;
  ready_interval : word s (scratch h 4) = interval;
  ready_enabled : Z.testbit (csrs s MIE) 7 = true;
  ready_delegated : Z.testbit (csrs s MIDELEG) 1 = true;
  ready_machine : Z.testbit (csrs s MIDELEG) 7 = false;
}.

Lemma merge_testbit mask old v i :
  0 <= i -> Z.testbit (merge mask old v) i = if Z.testbit mask i then Z.testbit v i else Z.testbit old i.
Proof.
  intros Hi. unfold merge. rewrite Z.lor_spec, !Z.land_spec, Z.lnot_spec by done.
  destruct (Z.testbit mask i), (Z.testbit old i), (Z.testbit v i); done.
Qed.

Lemma merge_land mask old v k : Z.land mask k = k -> Z.land (merge mask old v) k = Z.land v k.
Proof.
  intros Hk. apply Z.bits_inj'. intros i Hi. rewrite !Z.land_spec, merge_testbit by done.
  rewrite <- Hk, Z.land_spec. destruct (Z.testbit mask i), (Z.testbit k i); rewrite ?andb_false_r; done.
Qed.

Lemma u64_add x y : u64 (u64 x + y) = u64 (x + y).
Proof. apply Zplus_mod_idemp_l. Qed.

Lemma hart_addresses h : 0 <= h < NCPU -> 0 <= scratch h 0 < 2 ^ 64 /\ forall k, 0 <= k < 5 -> scratch h k <> CLINT_MTIMECMP h.
Proof.
  unfold scratch, CLINT_MTIMECMP, CLINT, NCPU. pose proof image_data as Hd. unfold KERNBASE in Hd.
  split; [|intros k Hk]; lia.
Qed.

Lemma timerinit_done s h :
  0 <= h < NCPU -> csrs s MHARTID = h ->
  timerinit s = Done tt
    (Machine
       (<[MIE := legal MIE (Z.lor (csrs s MIE) MIE_MTIE)]>
          (<[MSTATUS := legal MSTATUS (Z.lor (csrs s MSTATUS) MSTATUS_MIE)]>
             (<[MTVEC := timervec_addr]> (<[MSCRATCH := scratch h 0]> (csrs s)))))
       (regs s) (mode s) (pc s)
       (<[scratch h 4 := interval]> (<[scratch h 3 := CLINT_MTIMECMP h]>
          (<[CLINT_MTIMECMP h := u64 (word s CLINT_MTIME + interval)]> (word s))))).
Proof.
  intros Hh Eh. destruct (hart_addresses h Hh) as [Hs Hne].
  assert (Ei : i32 h = h) by (apply i32_small; unfold NCPU in Hh; lia).
  destruct s as [cs rs m p w]. cbn [csrs] in Eh. unfold timerinit.
  cbv [bind bindp csrr csrw gets modify load store w_mscratch w_mtvec w_mstatus w_mie r_mhartid r_mstatus r_mie].
  csr_simpl. rewrite Eh, Ei, (legal_value (scratch h 0) MSCRATCH) by (done || by left).
  rewrite (legal_vector timervec_addr MTVEC); [reflexivity| | |by left]; apply image_vectors; by left.
Qed.

Lemma mpp_supervisor x : Z.land (Z.lor (Z.land x (Z.lnot MSTATUS_MPP_MASK)) MSTATUS_MPP_S) MSTATUS_MPP_MASK = MSTATUS_MPP_S.
Proof.
  rewrite Z.land_lor_distr_l, <- Z.land_assoc.
  change (Z.land (Z.lnot MSTATUS_MPP_MASK) MSTATUS_MPP_MASK) with 0. by rewrite Z.land_0_r.
Qed.

Lemma mpp_start x :
  Z.land (legal MSTATUS (Z.lor (legal MSTATUS (Z.lor (Z.land x (Z.lnot MSTATUS_MPP_MASK)) MSTATUS_MPP_S)) MSTATUS_MIE))
    MSTATUS_MPP_MASK = MSTATUS_MPP_S.
Proof.
  assert (E : Z.land (Z.lor (legal MSTATUS (Z.lor (Z.land x (Z.lnot MSTATUS_MPP_MASK)) MSTATUS_MPP_S)) MSTATUS_MIE)
    MSTATUS_MPP_MASK = MSTATUS_MPP_S).
  { rewrite Z.land_lor_distr_l. change (Z.land MSTATUS_MIE MSTATUS_MPP_MASK) with 0.
    rewrite Z.lor_0_r, legal_mpp; rewrite mpp_supervisor; done. }
  rewrite legal_mpp; rewrite E; done.
Qed.

(** The interrupts that start() enables and delegates. *)
Lemma delegated i : In i [1; 5; 9] -> Z.testbit (legal MIDELEG 0xffff) i = true.
Proof. intros Hi. rewrite legal_interrupts; [by destruct Hi as [<-|[<-|[<-|[]]]]|done|]. right; right; by left. Qed.

Lemma enabled x i :
  In i [1; 5; 9] -> Z.testbit (Z.lor (Z.lor (Z.lor x SIE_SEIE) SIE_STIE) SIE_SSIE) i = true.
Proof.
  intros Hi. rewrite !Z.lor_spec. destruct Hi as [<-|[<-|[<-|[]]]]; cbn; rewrite ?orb_true_r; done.
Qed.

Lemma start_timer h s :
  0 <= h < NCPU -> csrs s MHARTID = h ->
  exists s', start s = Done tt s' /\ timer_ready h s' /\
    mode s' = 1 /\ pc s' = main_addr /\ csrs s' SATP = 0 /\ regs s' = <[TP := h]> (regs s) /\
    word s' = <[scratch h 4 := interval]> (<[scratch h 3 := CLINT_MTIMECMP h]>
      (<[CLINT_MTIMECMP h := u64 (word s CLINT_MTIME + interval)]> (word s))) /\
    (forall i, In i [1; 5; 9] -> Z.testbit (csr_value s' SIE) i = true).
Proof.
  intros Hh Eh.
  assert (Ei : i32 h = h) by (apply i32_small; unfold NCPU in Hh; lia).
  destruct s as [cs rs m p w]. cbn [csrs] in Eh. unfold start.
  cbv [bind bindp csrr csrw gets modify load store mv_to w_tp r_sie w_sie r_mhartid r_mstatus w_mstatus w_mepc w_satp
       w_medeleg w_mideleg w_pmpaddr0 w_pmpcfg0 mret].
  csr_simpl.
  erewrite timerinit_done; [|done|by csr_simpl]. csr_simpl. rewrite Eh, Ei, u64_small by (unfold NCPU in Hh; lia).
  eexists. split; [reflexivity|].
  assert (Hd : forall i, In i [1; 5; 9] -> 0 <= i) by (intros i [<-|[<-|[<-|[]]]]; done).
  repeat split.
  - csr_simpl. done.
  - csr_simpl. rewrite fn_lookup_insert_ne by (unfold scratch; lia). by rewrite fn_lookup_insert.
  - csr_simpl. done.
  - csr_simpl. rewrite legal_timer, Z.lor_spec. apply orb_true_r.
  - csr_simpl. apply delegated. by left.
  - csr_simpl. apply legal_delegation.
  - cbn [mode]. by rewrite mpp_start.
  - cbn [pc]. apply legal_address; apply image_main.
  - csr_simpl. apply legal_bare.
  - intros i Hi. csr_simpl. rewrite Z.land_spec, legal_interrupts, Z.lor_spec, legal_interrupts by (done || by left).
    rewrite merge_testbit, delegated, enabled by eauto. done.
Qed.

(** The same for memory, whose addresses are compared by [lia]. *)
Ltac word_simpl :=
  repeat first
    [ rewrite fn_lookup_insert
    | match goal with
      |- context [(<[?a := ?v]> ?f) ?b] =>
        let E := fresh in
        assert (E : a <> b) by
          (discriminate || (unfold scratch; lia) ||
           match goal with Hne : forall k, _ -> scratch _ k <> _ |- _ => apply Hne || apply not_eq_sym, Hne; lia end);
        rewrite (fn_lookup_insert_ne f a b v E); clear E
      end ].

(** The mode that an interrupt saves is the mode that mret restores. *)
Lemma mpp_saved x (b : bool) m :
  m = 0 \/ m = 1 ->
  Z.shiftr (Z.land (legal MSTATUS (merge (Z.lor MSTATUS_MIE (Z.lor (Z.shiftl 1 7) MSTATUS_MPP_MASK)) x
    (Z.lor (if b then Z.shiftl 1 7 else 0) (Z.shiftl m 11)))) MSTATUS_MPP_MASK) 11 = m.
Proof.
  intros Hm. set (v := merge _ _ _).
  assert (E : Z.land v MSTATUS_MPP_MASK = Z.shiftl m 11).
  { unfold v. rewrite merge_land by done. by destruct b, Hm as [-> | ->]. }
  rewrite legal_mpp; rewrite E; by destruct Hm as [-> | ->].
Qed.

Lemma mstatus_restored x m i :
  m = 0 \/ m = 1 -> In i [1; 3; 5; 8] ->
  let y := legal MSTATUS (merge (Z.lor MSTATUS_MIE (Z.lor (Z.shiftl 1 7) MSTATUS_MPP_MASK)) x
    (Z.lor (if Z.testbit x 3 then Z.shiftl 1 7 else 0) (Z.shiftl m 11))) in
  Z.testbit (legal MSTATUS (merge (Z.lor MSTATUS_MIE (Z.shiftl 1 7)) (Z.land y (Z.lnot MSTATUS_MPP_MASK))
    (Z.lor (if Z.testbit y 7 then MSTATUS_MIE else 0) (Z.shiftl 1 7)))) i = Z.testbit x i.
Proof.
  intros Hm Hi y.
  assert (Hl : In i [1; 3; 5; 7; 8]) by (cbn in *; tauto).
  assert (Hy : forall j, In j [1; 3; 5; 7; 8] -> Z.testbit y j =
    if j =? 3 then false else if j =? 7 then Z.testbit x 3 else Z.testbit x j).
  { intros j Hj. unfold y. rewrite legal_mstatus by done.
    rewrite merge_testbit by (destruct Hj as [<-|[<-|[<-|[<-|[<-|[]]]]]]; done).
    rewrite Z.lor_spec. destruct Hj as [<-|[<-|[<-|[<-|[<-|[]]]]]]; destruct (Z.testbit x 3), Hm as [-> | ->]; done. }
  rewrite legal_mstatus by done. rewrite merge_testbit by (destruct Hi as [<-|[<-|[<-|[<-|[]]]]]; done).
  rewrite Z.land_spec, (Hy 7), (Hy i) by (cbn; tauto).
  destruct Hi as [<-|[<-|[<-|[<-|[]]]]].
  - exact (andb_true_r (Z.testbit x 1)).
  - change (Z.testbit (Z.lor (if Z.testbit x 3 then MSTATUS_MIE else 0) (Z.shiftl 1 7)) 3 = Z.testbit x 3).
    by destruct (Z.testbit x 3).
  - exact (andb_true_r (Z.testbit x 5)).
  - exact (andb_true_r (Z.testbit x 8)).
Qed.

(** timervec, but for its mret. *)
Lemma timervec_done h t :
  0 <= h < NCPU -> csrs t MSCRATCH = scratch h 0 -> word t (scratch h 3) = CLINT_MTIMECMP h -> word t (scratch h 4) = interval ->
  (forall r, 0 <= regs t r < 2 ^ 64) ->
  timervec t = mret (Machine
    (<[MSCRATCH := scratch h 0]> (<[MIP := legal MIP (merge (Z.land (csrs t MIDELEG) 2) (csrs t MIP) 2)]>
       (<[MSCRATCH := regs t A0]> (csrs t))))
    (<[A0 := regs t A0]> (<[A1 := regs t A1]> (<[A2 := regs t A2]> (<[A3 := regs t A3]> (<[A1 := 2]>
       (<[A3 := u64 (word t (CLINT_MTIMECMP h) + interval)]> (<[A2 := u64 interval]>
          (<[A1 := u64 (CLINT_MTIMECMP h)]> (<[A0 := scratch h 0]> (regs t))))))))))
    (mode t) (pc t)
    (<[CLINT_MTIMECMP h := u64 (word t (CLINT_MTIMECMP h) + interval)]>
       (<[scratch h 2 := regs t A3]> (<[scratch h 1 := regs t A2]> (<[scratch h 0 := regs t A1]> (word t)))))).
Proof.
  intros Hh R3 R4 R5 Hr. destruct (hart_addresses h Hh) as [Hs Hne]. destruct t as [cs rs m p w]. cbn [csrs regs mode pc word] in *.
  assert (Es : forall k j, j = 8 * k -> scratch h 0 + j = scratch h k) by (intros k j ->; unfold scratch; lia).
  unfold timervec. cbv [bind bindp csrr csrw gets modify load store mv_to mv_from].
  csr_simpl. rewrite R3, (u64_small _ Hs), (Es 1 8), (Es 2 16), (Es 3 24), (Es 4 32) by done.
  word_simpl. rewrite R4. word_simpl. rewrite R5. word_simpl.
  by rewrite !(legal_value _ MSCRATCH), !u64_small by (done || by left).
Qed.

Lemma timer_interrupt h t :
  0 <= h < NCPU -> timer_ready h t -> mode t = 0 \/ mode t = 1 -> 0 <= pc t < 2 ^ 64 -> pc t mod 2 = 0 ->
  (forall r, 0 <= regs t r < 2 ^ 64) ->
  exists t', timer_trap t = Done tt t' /\ timer_ready h t' /\
    (forall r, regs t' r = regs t r) /\ mode t' = mode t /\ pc t' = pc t /\
    word t' (CLINT_MTIMECMP h) = u64 (word t (CLINT_MTIMECMP h) + interval) /\
    (forall a, a <> CLINT_MTIMECMP h -> (forall k, 0 <= k < 3 -> a <> scratch h k) -> word t' a = word t a) /\
    Z.testbit (csr_value t' SIP) 1 = true /\
    (forall i, In i [1; 3; 5; 8] -> Z.testbit (csrs t' MSTATUS) i = Z.testbit (csrs t MSTATUS) i).
Proof.
  intros Hh [R1 R2 R3 R4 R5 R6 R7 R8] Hm Hp Hpe Hr. destruct (hart_addresses h Hh) as [Hs Hne].
  unfold timer_trap, code_at. erewrite bind_done by reflexivity. rewrite R6, R8. cbn [andb negb when].
  destruct t as [cs rs m p w]. cbn [csrs regs mode pc word] in *.
  unfold machine_interrupt. do 2 erewrite bind_done by reflexivity. cbn [csrs regs mode pc word apply_update constant].
  rewrite R2, Z.eqb_refl.
  erewrite (timervec_done h) by (done || (csr_simpl; done)). unfold mret, modify. csr_simpl.
  eexists. split; [reflexivity|].
  split; [|split; [|split; [|split; [|split; [|split; [|split]]]]]]; cbn [regs mode pc word].
  - split; csr_simpl; word_simpl; try done.
  - intros []; word_simpl; done.
  - by apply mpp_saved.
  - by apply legal_address.
  - word_simpl. done.
  - intros a Ha Hk. rewrite fn_lookup_insert_ne by done.
    rewrite !fn_lookup_insert_ne by (apply not_eq_sym, Hk; lia). done.
  - csr_simpl. rewrite Z.land_spec, legal_interrupts, merge_testbit, Z.land_spec, R7 by (cbn; tauto || lia). done.
  - intros i Hi. csr_simpl. by apply mstatus_restored.
Qed.

(** What runs between two timer interrupts may do anything but write what is the timer's:
    machine mode's registers, the hart's comparator and the scratch area. *)
Definition lower_mode (h : Z) (t t' : machine) : Prop :=
  (forall c, In c [MHARTID; MTVEC; MSCRATCH; MIE; MIDELEG] -> csrs t' c = csrs t c) /\
  (forall a, a = CLINT_MTIMECMP h \/ a = scratch h 3 \/ a = scratch h 4 -> word t' a = word t a).

Definition interruptible (t : machine) : Prop :=
  (mode t = 0 \/ mode t = 1) /\ 0 <= pc t < 2 ^ 64 /\ pc t mod 2 = 0 /\ forall r, 0 <= regs t r < 2 ^ 64.

(** [n] timer interrupts, and what the hart does between them. *)
Inductive timer_run (h : Z) (s : machine) : Z -> machine -> Prop :=
| run_nil : timer_run h s 0 s
| run_lower n t t' : timer_run h s n t -> lower_mode h t t' -> timer_run h s n t'
| run_tick n t t' :
    timer_run h s n t -> interruptible t -> timer_trap t = Done tt t' -> timer_run h s (n + 1) t'.

(** The interrupted code goes on as if nothing had happened, but for a software interrupt. *)
Definition resumes (t t' : machine) : Prop :=
  (forall r, regs t' r = regs t r) /\ mode t' = mode t /\ pc t' = pc t /\
  (forall i, In i [1; 3; 5; 8] -> Z.testbit (csrs t' MSTATUS) i = Z.testbit (csrs t MSTATUS) i) /\
  Z.testbit (csr_value t' SIP) 1 = true.

Lemma ready_lower h t t' : timer_ready h t -> lower_mode h t t' -> timer_ready h t'.
Proof.
  intros [R1 R2 R3 R4 R5 R6 R7 R8] [Hc Hw]. split; rewrite ?Hc, ?Hw by (cbn; tauto); done.
Qed.

Lemma run_ready h s n t :
  0 <= h < NCPU -> timer_ready h s -> timer_run h s n t ->
  timer_ready h t /\ (0 <= word s (CLINT_MTIMECMP h) < 2 ^ 64 ->
    word t (CLINT_MTIMECMP h) = u64 (word s (CLINT_MTIMECMP h) + n * interval)).
Proof.
  intros Hh Hs. induction 1 as [|n t t' Hr [IH IHw] Hl|n t t' Hr [IH IHw] (Hm & Hp & Hpe & Hg) E].
  - split; [done|]. intros Hb. rewrite u64_small; lia.
  - split; [by eapply ready_lower|]. intros Hb. destruct Hl as [_ ->]; [auto|by left].
  - destruct (timer_interrupt h t) as (t1 & E1 & HR & _ & _ & _ & Hw & _); [done..|].
    rewrite E in E1. injection E1 as <-. split; [done|]. intros Hb. rewrite Hw, IHw by done.
    rewrite u64_add. f_equal. lia.
Qed.

(** C11: start(), on any hart, gives it its number in tp, turns paging off, lets the three
    kinds of supervisor interrupts in and leaves for main() in supervisor mode; from then
    on, whatever the kernel and user programs do in their modes, the timer's interrupt
    stays enabled and mtvec takes it to timervec, which sets the comparator one
    [interval] further each time, asks for a software interrupt and returns to the
    interrupted code with its registers, mode and interrupt enables as they were. *)
Theorem boot_timer h s :
  0 <= h < NCPU -> csrs s MHARTID = h ->
  exists s0, start s = Done tt s0 /\
    mode s0 = 1 /\ pc s0 = main_addr /\ csrs s0 SATP = 0 /\ regs s0 = <[TP := h]> (regs s) /\
    (forall i, In i [1; 5; 9] -> Z.testbit (csr_value s0 SIE) i = true) /\
    forall n t, timer_run h s0 n t ->
      word t (CLINT_MTIMECMP h) = u64 (word s CLINT_MTIME + (n + 1) * interval) /\
      Z.testbit (csrs t MIE) 7 = true /\ csrs t MTVEC = timervec_addr /\
      (interruptible t -> exists t', timer_trap t = Done tt t' /\ resumes t t').
Proof.
  intros Hh Eh. destruct (hart_addresses h Hh) as [_ Hne].
  destruct (start_timer h s Hh Eh) as (s0 & E & HR & Em & Ep & Es & Er & Ew & Hi).
  exists s0. do 6 (split; [done|]). intros n t Hrun.
  destruct (run_ready h s0 n t Hh HR Hrun) as [HRt Hw]. split.
  - assert (E0 : word s0 (CLINT_MTIMECMP h) = u64 (word s CLINT_MTIME + interval)).
    { rewrite Ew, !fn_lookup_insert_ne by (apply Hne; lia). apply fn_lookup_insert. }
    rewrite Hw, E0 by (rewrite E0; apply u64_range). rewrite u64_add. f_equal. lia.
  - split; [apply (ready_enabled h t HRt)|]. split; [apply (ready_vector h t HRt)|]. intros (Hm & Hp & Hpe & Hg).
    destruct (timer_interrupt h t) as (t' & E' & _ & H1 & H2 & H3 & _ & _ & H4 & H5); [done..|].
    exists t'. done.
Qed.

End Timer.

(** ** The order of the harts *)

Definition op_call (o : op) : option call := match o with Call c => Some c | _ => None end.

(** The calls of hart [h]. *)
Definition calls_of (h : Z) (l : list (Z * call)) : list call := (filter (fun x => x.1 = h) l).*2.

(** All that hart 0 calls before scheduler(). *)
Definition inits : list call := filter (fun c => c <> Scheduler) (omap op_call (main 0)).

Lemma calls_of_app h l1 l2 : calls_of h (l1 ++ l2) = calls_of h l1 ++ calls_of h l2.
Proof. unfold calls_of. by rewrite filter_app, fmap_app. Qed.

Lemma calls_of_one h h' c : calls_of h [(h', c)] = if decide (h' = h) then [c] else [].
Proof. unfold calls_of. rewrite filter_cons. cbn. by destruct (decide (h' = h)). Qed.

(** The order of the calls, and what [started] says. *)
Record boot_inv (b : booting) : Prop := {
  boot_done : forall h, exists d, main h = d ++ todo b h /\ omap op_call d = calls_of h (calls b);
  boot_started : started b = true -> inits `prefix_of` calls_of 0 (calls b);
  boot_waited : forall h, h <> 0 -> ~ In WaitStarted (todo b h) -> started b = true;
  boot_calls : forall l1 h c l2, calls b = l1 ++ (h, c) :: l2 -> h <> 0 -> inits `prefix_of` calls_of 0 l1;
}.

(** An element that a list has once splits it in one way. *)
Lemma split_once {A} (f : A -> bool) (d l l1 l2 : list A) x :
  f x = true -> existsb f (l1 ++ l2) = false -> d ++ x :: l = l1 ++ x :: l2 -> d = l1.
Proof.
  intros Hx. revert l1. induction d as [|y d IH]; intros [|z l1] Hf E; cbn in *.
  - done.
  - injection E as <- _. by rewrite Hx in Hf.
  - injection E as -> E. rewrite <- E, existsb_app in Hf. cbn in Hf. by rewrite Hx, orb_true_r in Hf.
  - injection E as -> E. apply orb_false_iff in Hf as [_ Hf]. f_equal. by apply IH.
Qed.

Definition is_set (o : op) : bool := match o with SetStarted => true | _ => false end.
Definition is_wait (o : op) : bool := match o with WaitStarted => true | _ => false end.

Lemma In_existsb {A} (f : A -> bool) (x : A) l : f x = true -> In x l -> existsb f l = true.
Proof. intros Hx Hi. apply existsb_exists. eauto. Qed.

Lemma main_wait h d l : h <> 0 -> main h = d ++ l -> d <> [] -> ~ In WaitStarted l.
Proof.
  intros Hh E Hd Hl%(In_existsb is_wait); [|done]. unfold main in E. destruct (Z.eqb_spec h 0); [done|].
  destruct d as [|x d]; [done|]. injection E as _ E.
  assert (Hf : existsb is_wait (d ++ l) = false) by (by rewrite <- E).
  by rewrite existsb_app, Hl, orb_true_r in Hf.
Qed.

Lemma main_set h d l : main h = d ++ SetStarted :: l -> h = 0 /\ omap op_call d = inits.
Proof.
  intros E. unfold main in E. destruct (Z.eqb_spec h 0) as [->|Hh].
  - split; [done|]. rewrite <- !app_assoc in E. change ([Synchronize; SetStarted] ++ [Call Scheduler]) with
      ([Synchronize] ++ SetStarted :: [Call Scheduler]) in E. rewrite app_assoc in E.
    symmetry in E. apply (split_once is_set) in E as ->; reflexivity.
  - assert (Hf : existsb is_set (d ++ SetStarted :: l) = false) by (by rewrite <- E).
    by rewrite existsb_app, orb_true_r in Hf.
Qed.

Lemma boot_inv_init : boot_inv (Booting main false []).
Proof.
  split; cbn [todo started calls].
  - intros h. exists []. done.
  - done.
  - intros h Hh Hn. destruct Hn. unfold main. destruct (Z.eqb_spec h 0); [done|]. by left.
  - intros [] h c l2 E; discriminate E.
Qed.

(** Hart [h] goes from [o :: l] to [l]. *)
Lemma done_next b h o l :
  boot_inv b -> todo b h = o :: l -> forall h', exists d,
    main h' = d ++ (<[h := l]> (todo b)) h' /\
    omap op_call d = calls_of h' (calls b) ++ (if decide (h = h') then option_list (op_call o) else []).
Proof.
  intros HI E h'. destruct (boot_done b HI h') as (d & Ed & Ec). destruct (decide (h = h')) as [<-|Hne].
  - exists (d ++ [o]). rewrite fn_lookup_insert, <- app_assoc. rewrite E in Ed. split; [done|].
    rewrite omap_app, Ec. f_equal.
  - exists d. rewrite fn_lookup_insert_ne, app_nil_r by done. done.
Qed.

Lemma inits_prefix_call l h c : inits `prefix_of` calls_of 0 l -> inits `prefix_of` calls_of 0 (l ++ [(h, c)]).
Proof. intros Hp. rewrite calls_of_app. by apply prefix_app_r. Qed.

(** The last element of a list, and the ones before it. *)
Lemma app_one_split {A} (l l1 l2 : list A) x y : l ++ [x] = l1 ++ y :: l2 -> (l2 = [] /\ x = y /\ l = l1) \/ exists l2', l = l1 ++ y :: l2'.
Proof.
  destruct l2 as [|z l2 _] using rev_ind; intros E.
  - apply app_inj_tail in E as [-> ->]. by left.
  - right. exists l2. rewrite app_comm_cons, app_assoc in E. by apply app_inj_tail in E as [-> _].
Qed.

(** Once a hart does not wait, its other steps do not make it wait. *)
Lemma waited_next b h o l h' :
  boot_inv b -> todo b h = o :: l -> o <> WaitStarted -> h' <> 0 ->
  ~ In WaitStarted ((<[h := l]> (todo b)) h') -> started b = true.
Proof.
  intros HI E Ho Hh Hn. apply (boot_waited b HI h' Hh). intros Hw. apply Hn.
  destruct (decide (h = h')) as [<-|Hne]; [|by rewrite fn_lookup_insert_ne].
  rewrite fn_lookup_insert. rewrite E in Hw. destruct Hw as [->|Hw]; [by destruct Ho|done].
Qed.

Lemma boot_inv_step b b' : boot_inv b -> boot_step b b' -> boot_inv b'.
Proof.
  intros HI Hs. destruct Hs as [b h c l E|b h l E|b h l E|b h l E].
  - split; cbn [todo started calls].
    + intros h'. destruct (done_next b h _ l HI E h') as (d & Ed & Ec). exists d. split; [done|].
      rewrite Ec, calls_of_app, calls_of_one. done.
    + intros Hst. by apply inits_prefix_call, (boot_started b HI).
    + intros h' Hh Hn. by eapply waited_next.
    + intros l1 h' c' l2 E2 Hh. apply app_one_split in E2 as [(-> & Hc & <-)|[l2' E2]].
      * injection Hc as <- <-. apply (boot_started b HI), (boot_waited b HI h Hh). rewrite E.
        destruct (boot_done b HI h) as (d & Ed & _). rewrite E in Ed. destruct d as [|x d].
        { unfold main in Ed. destruct (Z.eqb_spec h 0); [done|discriminate Ed]. }
        by eapply main_wait.
      * by eapply (boot_calls b HI).
  - destruct (boot_done b HI h) as (d & Ed & Ec). rewrite E in Ed. destruct (main_set _ _ _ Ed) as [-> Ei].
    split; cbn [todo started calls].
    + intros h'. destruct (done_next b 0 _ l HI E h') as (d' & Ed' & Ec'). exists d'. split; [done|].
      rewrite Ec'. destruct (decide (0 = h')); apply app_nil_r.
    + intros _. rewrite <- Ec, Ei. done.
    + done.
    + apply (boot_calls b HI).
  - destruct (started b) eqn:Est.
    + split; cbn [todo started calls].
      * intros h'. destruct (done_next b h _ l HI E h') as (d' & Ed' & Ec'). exists d'. split; [done|].
        rewrite Ec'. destruct (decide (h = h')); apply app_nil_r.
      * intros _. by apply (boot_started b HI).
      * done.
      * apply (boot_calls b HI).
    + assert (Et : forall h', (<[h := WaitStarted :: l]> (todo b)) h' = todo b h').
      { intros h'. destruct (decide (h = h')) as [<-|Hne]; [by rewrite fn_lookup_insert|by rewrite fn_lookup_insert_ne]. }
      split; cbn [todo started calls].
      * intros h'. rewrite Et. apply (boot_done b HI).
      * done.
      * intros h'. rewrite Et. rewrite <- Est. apply (boot_waited b HI).
      * apply (boot_calls b HI).
  - split; cbn [todo started calls].
    + intros h'. destruct (done_next b h _ l HI E h') as (d' & Ed' & Ec'). exists d'. split; [done|].
      rewrite Ec'. destruct (decide (h = h')); apply app_nil_r.
    + apply (boot_started b HI).
    + intros h' Hh Hn. by eapply waited_next.
    + apply (boot_calls b HI).
Qed.

(** C20: the harts start at the same time and in any interleaving; each makes the calls
    of main() in its order, and no hart but 0 prints, turns paging on, sets its trap
    vector, asks for device interrupts or schedules before hart 0 has made all its
    initialisation calls, the first process's included. *)
Theorem boot_order b :
  rtc boot_step (Booting main false []) b ->
  (forall h, calls_of h (calls b) `prefix_of` omap op_call (main h)) /\
  (forall l1 h c l2, calls b = l1 ++ (h, c) :: l2 -> h <> 0 -> inits `prefix_of` calls_of 0 l1).
Proof.
  intros Hr. assert (HI : boot_inv b).
  { revert Hr. apply (rtc_ind_r (fun b => boot_inv b)); [apply boot_inv_init|].
    intros b1 b2 _ Hs HI. by eapply boot_inv_step. }
  split; [|apply (boot_calls b HI)].
  intros h. destruct (boot_done b HI h) as (d & -> & <-). rewrite omap_app. by exists (omap op_call (todo b h)).
Qed.

(** ** Running the model *)

(** A machine whose registers keep all that is written, mideleg the interrupts of a
    supervisor only, and the addresses of kernel.sym. *)
#[export, refine] Instance plain_hardware : Hardware := {| legal := fun c v => if decide (c = MIDELEG) then Z.land v 0x222 else v; smask := 0x122 |}.
Proof.
  all: try done.
  - intros v i c Hi _. destruct (decide (c = MIDELEG)); [|done]. rewrite Z.land_spec.
    destruct Hi as [<-|[<-|[<-|[]]]]; apply andb_true_r.
  - intros v c _ _ [<-|[<-|[]]]; done.
  - intros v c _ [<-|[<-|[]]]; done.
  - intros v. change (Z.testbit (Z.land v 0x222) 7 = false). rewrite Z.land_spec. apply andb_false_r.
  -
  intros i Hi. assert (0 <= i < 9) as Hb.
  { split.
    - apply Z.nlt_ge. intros Hn. by rewrite Z.testbit_neg_r in Hi.
    - apply Z.nle_gt. intros Hn. rewrite Z.bits_above_log2 in Hi; [done..|]. change (Z.log2 0x122) with 8. lia. }
  assert (i = 0 \/ i = 1 \/ i = 2 \/ i = 3 \/ i = 4 \/ i = 5 \/ i = 6 \/ i = 7 \/ i = 8) as Hc by lia.
  repeat destruct Hc as [->|Hc]; try discriminate Hi; subst; cbn; tauto.
Defined.

#[export, refine] Instance plain_image : Image :=
  {| main_addr := 0x80000fec; timervec_addr := 0x80006310; kernelvec_addr := 0x80006280; timer_scratch := 0x80008930 |}.
Proof.
  - done.
  - intros a [<-|[<-|[]]]; done.
  - unfold KERNBASE. lia.
Defined.

Definition reset : machine := Machine (fun c => if decide (c = MHARTID) then 2 else 0) (fun _ => 7) 3 0x80000000 (fun _ => 500).

(** A hart next in turn. *)
Definition boot_next (b : booting) (h : Z) : booting :=
  match todo b h with
  | Call c :: l => Booting (<[h := l]> (todo b)) (started b) (calls b ++ [(h, c)])
  | SetStarted :: l => Booting (<[h := l]> (todo b)) true (calls b)
  | WaitStarted :: l => Booting (<[h := if started b then l else WaitStarted :: l]> (todo b)) (started b) (calls b)
  | Synchronize :: l => Booting (<[h := l]> (todo b)) (started b) (calls b)
  | [] => b
  end.

Lemma boot_next_run hs b : rtc boot_step b (foldl boot_next b hs).
Proof.
  revert b. induction hs as [|h hs IH]; intros b; cbn; [done|].
  transitivity (boot_next b h); [|apply IH]. unfold boot_next.
  destruct (todo b h) as [|[c| | |] l] eqn:E; [done|apply rtc_once..].
  - by apply boot_call.
  - by apply boot_set.
  - by apply boot_wait.
  - by apply boot_sync.
Qed.

(** Hart 2 comes out of reset, starts and is interrupted at once. *)
Lemma boot_timer_witness :
  exists s0 t', start reset = Done tt s0 /\ timer_trap s0 = Done tt t' /\
    resumes s0 t' /\ regs t' TP = 2 /\ word t' (CLINT_MTIMECMP 2) = 2000500.
Proof.
  destruct (boot_timer 2 reset) as (s0 & E & Em & Ep & _ & Er & _ & Hrun); [done|reflexivity|].
  assert (Hi : interruptible s0).
  { unfold interruptible. rewrite Em, Ep, Er. split; [by right|]. split; [done|]. split; [reflexivity|]. intros []; done. }
  destruct (proj2 (proj2 (proj2 (Hrun 0 s0 (run_nil 2 s0)))) Hi) as (t' & Et & Hres).
  exists s0, t'. split; [done|]. split; [done|]. split; [done|]. split.
  - destruct Hres as [-> _]. by rewrite Er.
  - apply (proj1 (Hrun 1 t' (run_tick 2 s0 0 s0 t' (run_nil 2 s0) Hi Et))).
Defined.

(** Hart 1 waits, hart 0 boots, and hart 1 goes on. *)
Definition turns : list Z := [1] ++ replicate 21 0 ++ [1; 1; 1].

Lemma boot_order_witness :
  let b := foldl boot_next (Booting main false []) turns in
  calls_of 1 (calls b) = [Printf (line "hart %d starting")] /\
  inits `prefix_of` calls_of 0 (take 19 (calls b)).
Proof.
  intros b. split; [reflexivity|].
  apply (proj2 (boot_order b (boot_next_run turns (Booting main false [])))) with 1 (Printf (line "hart %d starting")) []; [reflexivity|done].
Defined.
