(* ===== verification/Asm.v ===== *)
(** The assembly of the kernel that saves and restores registers: uservec and userret
    (kernel/trampoline.S), swtch (swtch.S) and kernelvec (kernelvec.S).

    Programs are lists of instructions, run on the machine of Boot.v.  A load or a store
    goes through the page table that satp names; where an address leads is
    the parameter [trans], and theorems say which addresses they need it for. *)

From stdpp Require Import functions.
From S2P Require Import Prelude Mem Riscv Locks Kalloc Vm Proc ProcFacts Kernel KernelFacts Boot.

Class Mmu := trans : Z -> Z -> Z.

(** [Sd r o b] is "sd r, o(b)". *)
Inductive instr :=
| Sd (r : reg) (o : Z) (b : reg)
| Ld (r : reg) (o : Z) (b : reg)
| Addi (r b : reg) (i : Z)
| Li (r : reg) (v : Z)
| Csrw (c : csr) (r : reg)
| Csrr (r : reg) (c : csr)
| Sfence.

Section Asm.
Context `{Hardware} `{Mmu}.

(** Where in memory an access at [a] goes. *)
Definition va (s : machine) (a : Z) : Z := trans (csrs s SATP) (u64 a).

Definition run1 (s : machine) (i : instr) : machine :=
  match i with
  | Sd r o b => s {{ word ::= <[va s (regs s b + o) := regs s r]> }}
  | Ld r o b => s {{ regs ::= <[r := word s (va s (regs s b + o))]> }}
  | Addi r b i => s {{ regs ::= <[r := u64 (regs s b + i)]> }}
  | Li r v => s {{ regs ::= <[r := u64 v]> }}
  | Csrw c r => let '(d, w) := csr_write s c (regs s r) in s {{ csrs ::= <[d := legal d w]> }}
  | Csrr r c => s {{ regs ::= <[r := csr_value s c]> }}
  | Sfence => s
  end.

Definition run (l : list instr) (s : machine) : machine := foldl run1 s l.

Definition jr (r : reg) (s : machine) : machine := s {{ pc := regs s r }}.

(** Back to the mode before the trap, at sepc. *)
Definition sret (s : machine) : machine :=
  let x := csrs s MSTATUS in
  let x' := merge (Z.lor SSTATUS_SIE (Z.lor SSTATUS_SPIE SSTATUS_SPP)) x
              (Z.lor (if Z.testbit x 5 then SSTATUS_SIE else 0) SSTATUS_SPIE) in
  s {{ mode := if Z.testbit x 8 then 1 else 0; pc := csrs s SEPC; csrs ::= <[MSTATUS := legal MSTATUS x']> }}.

(** ** trampoline.S *)

Definition uservec (s : machine) : machine :=
  jr T0 (run
    [ Csrw SSCRATCH A0;
      Li A0 TRAPFRAME;
      Sd RA 40 A0; Sd SP 48 A0; Sd GP 56 A0; Sd TP 64 A0; Sd T0 72 A0; Sd T1 80 A0; Sd T2 88 A0;
      Sd S0 96 A0; Sd S1 104 A0;
      Sd A1 120 A0; Sd A2 128 A0; Sd A3 136 A0; Sd A4 144 A0; Sd A5 152 A0; Sd A6 160 A0; Sd A7 168 A0;
      Sd S2 176 A0; Sd S3 184 A0; Sd S4 192 A0; Sd S5 200 A0; Sd S6 208 A0; Sd S7 216 A0; Sd S8 224 A0;
      Sd S9 232 A0; Sd S10 240 A0; Sd S11 248 A0;
      Sd T3 256 A0; Sd T4 264 A0; Sd T5 272 A0; Sd T6 280 A0;
      Csrr T0 SSCRATCH;
      Sd T0 112 A0;
      Ld SP 8 A0;
      Ld TP 32 A0;
      Ld T0 16 A0;
      Ld T1 0 A0;
      Sfence;
      Csrw SATP T1;
      Sfence ] s).

Definition userret (s : machine) : machine :=
  sret (run
    [ Sfence;
      Csrw SATP A0;
      Sfence;
      Li A0 TRAPFRAME;
      Ld RA 40 A0; Ld SP 48 A0; Ld GP 56 A0; Ld TP 64 A0; Ld T0 72 A0; Ld T1 80 A0; Ld T2 88 A0;
      Ld S0 96 A0; Ld S1 104 A0;
      Ld A1 120 A0; Ld A2 128 A0; Ld A3 136 A0; Ld A4 144 A0; Ld A5 152 A0; Ld A6 160 A0; Ld A7 168 A0;
      Ld S2 176 A0; Ld S3 184 A0; Ld S4 192 A0; Ld S5 200 A0; Ld S6 208 A0; Ld S7 216 A0; Ld S8 224 A0;
      Ld S9 232 A0; Ld S10 240 A0; Ld S11 248 A0;
      Ld T3 256 A0; Ld T4 264 A0; Ld T5 272 A0; Ld T6 280 A0;
      Ld A0 112 A0 ] s).

(** ** swtch.S *)

Definition swtch (s : machine) : machine :=
  jr RA (run
    [ Sd RA 0 A0; Sd SP 8 A0; Sd S0 16 A0; Sd S1 24 A0; Sd S2 32 A0; Sd S3 40 A0; Sd S4 48 A0;
      Sd S5 56 A0; Sd S6 64 A0; Sd S7 72 A0; Sd S8 80 A0; Sd S9 88 A0; Sd S10 96 A0; Sd S11 104 A0;
      Ld RA 0 A1; Ld SP 8 A1; Ld S0 16 A1; Ld S1 24 A1; Ld S2 32 A1; Ld S3 40 A1; Ld S4 48 A1;
      Ld S5 56 A1; Ld S6 64 A1; Ld S7 72 A1; Ld S8 80 A1; Ld S9 88 A1; Ld S10 96 A1; Ld S11 104 A1 ] s).

(** ** kernelvec.S: before and after the call of kerneltrap() *)

Definition kernelvec_save (s : machine) : machine :=
  run
    [ Addi SP SP (-256);
      Sd RA 0 SP; Sd SP 8 SP; Sd GP 16 SP; Sd TP 24 SP; Sd T0 32 SP; Sd T1 40 SP; Sd T2 48 SP;
      Sd S0 56 SP; Sd S1 64 SP; Sd A0 72 SP; Sd A1 80 SP; Sd A2 88 SP; Sd A3 96 SP; Sd A4 104 SP;
      Sd A5 112 SP; Sd A6 120 SP; Sd A7 128 SP; Sd S2 136 SP; Sd S3 144 SP; Sd S4 152 SP; Sd S5 160 SP;
      Sd S6 168 SP; Sd S7 176 SP; Sd S8 184 SP; Sd S9 192 SP; Sd S10 200 SP; Sd S11 208 SP;
      Sd T3 216 SP; Sd T4 224 SP; Sd T5 232 SP; Sd T6 240 SP ] s.

Definition kernelvec_restore (s : machine) : machine :=
  sret (run
    [ Ld RA 0 SP; Ld SP 8 SP; Ld GP 16 SP; Ld T0 32 SP; Ld T1 40 SP; Ld T2 48 SP;
      Ld S0 56 SP; Ld S1 64 SP; Ld A0 72 SP; Ld A1 80 SP; Ld A2 88 SP; Ld A3 96 SP; Ld A4 104 SP;
      Ld A5 112 SP; Ld A6 120 SP; Ld A7 128 SP; Ld S2 136 SP; Ld S3 144 SP; Ld S4 152 SP; Ld S5 160 SP;
      Ld S6 168 SP; Ld S7 176 SP; Ld S8 184 SP; Ld S9 192 SP; Ld S10 200 SP; Ld S11 208 SP;
      Ld T3 216 SP; Ld T4 224 SP; Ld T5 232 SP; Ld T6 240 SP;
      Addi SP SP 256 ] s).

(** ** Blocks of stores and of loads *)

Definition sds (b : reg) (l : list (reg * Z)) : list instr := (fun x => Sd x.1 x.2 b) <$> l.
Definition lds (b : reg) (l : list (reg * Z)) : list instr := (fun x => Ld x.1 x.2 b) <$> l.

Lemma run_app l1 l2 s : run (l1 ++ l2) s = run l2 (run l1 s).
Proof. apply foldl_app. Qed.

(** Two runs from one state, by their instructions. *)
Ltac same_code :=
  rewrite <- ?run_app;
  match goal with
  | |- ?f (run ?l ?s) = ?f (run ?l' ?s) => exact (f_equal (fun code => f (run code s)) (eq_refl : l = l'))
  | |- run ?l ?s = run ?l' ?s => exact (f_equal (fun code => run code s) (eq_refl : l = l'))
  end.

(** What jumps do. *)
Lemma jr_csrs r s : csrs (jr r s) = csrs s.
Proof. by destruct s. Qed.
Lemma jr_regs r s : regs (jr r s) = regs s.
Proof. by destruct s. Qed.
Lemma jr_mode r s : mode (jr r s) = mode s.
Proof. by destruct s. Qed.
Lemma jr_pc r s : pc (jr r s) = regs s r.
Proof. by destruct s. Qed.
Lemma jr_word r s : word (jr r s) = word s.
Proof. by destruct s. Qed.

Lemma sret_csrs s c : c <> MSTATUS -> csrs (sret s) c = csrs s c.
Proof. intros Hc. destruct s as [cs rs m p w]. apply (fn_lookup_insert_ne cs). by apply not_eq_sym. Qed.

Lemma sret_regs s : regs (sret s) = regs s.
Proof. by destruct s. Qed.
Lemma sret_word s : word (sret s) = word s.
Proof. by destruct s. Qed.
Lemma sret_pc s : pc (sret s) = csrs s SEPC.
Proof. by destruct s. Qed.
Lemma sret_mode s : mode (sret s) = if Z.testbit (csrs s MSTATUS) 8 then 1 else 0.
Proof. by destruct s. Qed.

(** The places that a block accesses. *)
Definition places (s : machine) (b : reg) (l : list (reg * Z)) : list Z := (fun x => va s (regs s b + x.2)) <$> l.

Lemma run_sds b l : forall s,
  let s' := run (sds b l) s in
  csrs s' = csrs s /\ regs s' = regs s /\ mode s' = mode s /\ pc s' = pc s /\
  (forall a, a ∉ places s b l -> word s' a = word s a) /\
  (NoDup (places s b l) -> forall r o, (r, o) ∈ l -> word s' (va s (regs s b + o)) = regs s r).
Proof.
  induction l as [|[r o] l IH]; intros s; cbn [run sds fmap list_fmap foldl].
  - split_and!; try done. intros _ r o Hin. by apply elem_of_nil in Hin.
  - destruct (IH (run1 s (Sd r o b))) as (E1 & E2 & E3 & E4 & E5 & E6). clear IH. set (s' := run _ _) in *.
    destruct s as [cs rs m p w]. cbn [run1] in *. rec_simpl.
    unfold places, va in *. cbn [csrs regs mode pc word apply_update fst snd] in *.
    split_and!; try done.
    + intros a Ha. rewrite fmap_cons in Ha. apply not_elem_of_cons in Ha as [Hne Ha]. rewrite E5 by done.
      by rewrite fn_lookup_insert_ne.
    + intros Hnd r' o' Hin. rewrite fmap_cons in Hnd. apply NoDup_cons in Hnd as [Hnot Hnd].
      apply elem_of_cons in Hin as [[= -> ->]|Hin]; [|by apply E6].
      rewrite E5 by done. by rewrite fn_lookup_insert.
Qed.

(** Loads; if the base register is among those loaded, it gets the value it has. *)
Lemma run_lds b l : forall s,
  NoDup l.*1 -> (forall o, (b, o) ∈ l -> word s (va s (regs s b + o)) = regs s b) ->
  let s' := run (lds b l) s in
  csrs s' = csrs s /\ word s' = word s /\ mode s' = mode s /\ pc s' = pc s /\
  (forall r, r ∉ l.*1 -> regs s' r = regs s r) /\
  (forall r o, (r, o) ∈ l -> regs s' r = word s (va s (regs s b + o))).
Proof.
  induction l as [|[r o] l IH]; intros s Hnd Hb; cbn [run lds fmap list_fmap foldl].
  - split_and!; try done. intros r o Hin. by apply elem_of_nil in Hin.
  - rewrite fmap_cons in Hnd. apply NoDup_cons in Hnd as [Hnot Hnd]. cbn [fst] in Hnot.
    assert (Eb : regs (run1 s (Ld r o b)) b = regs s b).
    { destruct s as [cs rs m p w]. cbn [run1]. rec_simpl. cbn [regs].
      change ((<[r := w (va (Machine cs rs m p w) (rs b + o))]> rs) b = rs b).
      destruct (decide (r = b)) as [->|Hne]; [|by rewrite fn_lookup_insert_ne]. rewrite fn_lookup_insert.
      apply (Hb o). by left. }
    destruct (IH (run1 s (Ld r o b)) Hnd) as (E1 & E2 & E3 & E4 & E5 & E6).
    { intros o' Hin. rewrite Eb. destruct s. apply (Hb o'). by right. }
    set (s' := run _ _) in *. destruct s as [cs rs m p w]. cbn [run1] in *. rec_simpl.
    unfold va in *. cbn [csrs regs mode pc word apply_update fst snd] in *. rewrite Eb in E6.
    split_and!; try done.
    + intros r' Hr. apply not_elem_of_cons in Hr as [Hne Hr]. rewrite E5 by done.
      by rewrite fn_lookup_insert_ne.
    + intros r' o' Hin. apply elem_of_cons in Hin as [[= -> ->]|Hin]; [|by apply E6].
      rewrite E5 by done. by rewrite fn_lookup_insert.
Qed.

(** ** Into the kernel and back *)

(** Where struct trapframe keeps a register. *)
Definition slot (r : reg) : Z := 32 + 8 * Z.of_nat (number r).

(** Under the page table [satp] the trapframe at [F] is at TRAPFRAME. *)
Definition frame_at (F satp : Z) : Prop := forall o, 0 <= o < TF_SIZE -> trans satp (TRAPFRAME + o) = F + o.

Definition user_slots : list (reg * Z) := (fun r => (r, slot r)) <$> filter (fun r => r <> A0) registers.

Lemma registers_all r : r ∈ registers.
Proof. apply list_elem_of_lookup. exists (pred (number r)). apply registers_number. Qed.

Lemma user_slots_elem r : r <> A0 -> (r, slot r) ∈ user_slots.
Proof. intros Hr. apply list_elem_of_fmap. exists r. split; [done|]. apply list_elem_of_filter. split; [done|apply registers_all]. Qed.

Lemma user_slots_inv r o : (r, o) ∈ user_slots -> o = slot r /\ r <> A0.
Proof. intros (r' & [= -> ->] & [Hr _]%list_elem_of_filter)%list_elem_of_fmap. done. Qed.

Lemma slot_range r : 40 <= slot r < TF_SIZE.
Proof. unfold slot, TF_SIZE. destruct r; cbn; lia. Qed.

Lemma slot_inj r r' : slot r = slot r' -> r = r'.
Proof. unfold slot. intros E. apply (inj number). lia. Qed.

Lemma user_regs_nodup : NoDup user_slots.*1.
Proof. apply (bool_decide_unpack _). by vm_compute. Qed.

Lemma frame_addr F satp o : frame_at F satp -> 0 <= o < TF_SIZE -> trans satp (u64 (u64 TRAPFRAME + o)) = F + o.
Proof.
  intros HF Ho. rewrite (u64_small TRAPFRAME) by done.
  rewrite u64_small by (unfold TF_SIZE in Ho; change TRAPFRAME with 0x3fffffe000; lia). by apply HF.
Qed.

Lemma frame_places F s : frame_at F (csrs s SATP) -> regs s A0 = u64 TRAPFRAME ->
  places s A0 user_slots = (fun r => F + slot r) <$> filter (fun r => r <> A0) registers.
Proof.
  intros HF E. unfold places, user_slots. rewrite <- list_fmap_compose. apply list_fmap_ext. intros i r _.
  unfold compose, va. cbn [snd]. rewrite E. apply frame_addr; [done|]. pose proof (slot_range r). lia.
Qed.

(** uservec in four parts: sscratch and the base, the stores, a0, and the kernel's values. *)
Definition entry_base : list instr := [Csrw SSCRATCH A0; Li A0 TRAPFRAME].
Definition entry_a0 : list instr := [Csrr T0 SSCRATCH; Sd T0 112 A0].
Definition entry_kernel : list instr := [Ld SP 8 A0; Ld TP 32 A0; Ld T0 16 A0; Ld T1 0 A0; Sfence; Csrw SATP T1; Sfence].

Lemma uservec_parts s : uservec s = jr T0 (run entry_kernel (run entry_a0 (run (sds A0 user_slots) (run entry_base s)))).
Proof. unfold uservec. same_code. Qed.

Lemma entry_base_run s :
  0 <= regs s A0 < 2 ^ 64 ->
  let s' := run entry_base s in
  csrs s' SATP = csrs s SATP /\ regs s' = <[A0 := u64 TRAPFRAME]> (regs s) /\ word s' = word s /\ mode s' = mode s /\
  csrs s' SSCRATCH = regs s A0.
Proof.
  intros Ha0. destruct s as [cs rs m p w]. cbn [run entry_base foldl run1 csr_write]. rec_simpl.
  cbn [csrs regs mode pc word apply_update] in *. split_and!; try done.
  csr_simpl. apply legal_value; [done|]. right; by left.
Qed.

Lemma entry_a0_run F s v :
  frame_at F (csrs s SATP) -> regs s A0 = u64 TRAPFRAME -> csrs s SSCRATCH = v ->
  let s' := run entry_a0 s in
  csrs s' = csrs s /\ regs s' = <[T0 := v]> (regs s) /\ mode s' = mode s /\ word s' = <[F + slot A0 := v]> (word s).
Proof.
  intros HF E0 Ev. destruct s as [cs rs m p w]. cbn [run entry_a0 foldl run1]. rec_simpl.
  cbn [csrs regs mode pc word apply_update csr_value] in *. subst v. split_and!; try done.
  rewrite fn_lookup_insert, fn_lookup_insert_ne by done. unfold va. cbn [csrs]. rewrite E0.
  by rewrite (frame_addr F) by done.
Qed.

Lemma entry_kernel_run F s :
  frame_at F (csrs s SATP) -> regs s A0 = u64 TRAPFRAME ->
  let s' := run entry_kernel s in
  regs s' SP = word s (F + TF_KERNEL_SP) /\ regs s' TP = word s (F + TF_KERNEL_HARTID) /\
  regs s' T0 = word s (F + TF_KERNEL_TRAP) /\ csrs s' SATP = legal SATP (word s (F + TF_KERNEL_SATP)) /\
  mode s' = mode s /\ word s' = word s.
Proof.
  intros HF E0. destruct s as [cs rs m p w]. cbn [run entry_kernel foldl run1 csr_write]. unfold va. rec_simpl.
  cbn [csrs regs mode pc word apply_update] in *. csr_simpl. rewrite E0, !(frame_addr F) by done. done.
Qed.

Lemma places_nodup F : NoDup ((fun r => F + slot r) <$> filter (fun r => r <> A0) registers).
Proof.
  apply (NoDup_fmap_2_strong (fun r => F + slot r)).
  - intros r r' _ _ E. apply slot_inj. lia.
  - apply NoDup_filter, (NoDup_fmap_1 number), (bool_decide_unpack _). by vm_compute.
Qed.

(** What uservec does: the user's registers are in the trapframe, and the kernel's stack,
    hart number and page table in their places. *)
Lemma uservec_saves F s :
  frame_at F (csrs s SATP) -> 0 <= regs s A0 < 2 ^ 64 ->
  let s1 := uservec s in
  (forall r, word s1 (F + slot r) = regs s r) /\
  (forall a, (forall r, a <> F + slot r) -> word s1 a = word s a) /\
  regs s1 SP = word s (F + TF_KERNEL_SP) /\ regs s1 TP = word s (F + TF_KERNEL_HARTID) /\
  pc s1 = word s (F + TF_KERNEL_TRAP) /\ csrs s1 SATP = legal SATP (word s (F + TF_KERNEL_SATP)) /\ mode s1 = mode s.
Proof.
  intros HF Ha0. cbv zeta. rewrite uservec_parts.
  destruct (entry_base_run s Ha0) as (Ea1 & Ea2 & Ea3 & Ea4 & Ea5). remember (run entry_base s) as sa eqn:Hsa in *. clear Hsa.
  assert (Ea0 : regs sa A0 = u64 TRAPFRAME) by (rewrite Ea2; apply fn_lookup_insert).
  destruct (run_sds A0 user_slots sa) as (Eb1 & Eb2 & Eb3 & _ & Eb5 & Eb6). remember (run (sds A0 user_slots) sa) as sb eqn:Hsb in *. clear Hsb.
  rewrite (frame_places F sa) in Eb5, Eb6 by (done || by rewrite Ea1). specialize (Eb6 (places_nodup F)).
  destruct (entry_a0_run F sb (regs s A0)) as (Ec1 & Ec2 & Ec3 & Ec4); [by rewrite Eb1, Ea1|by rewrite Eb2|by rewrite Eb1|].
  remember (run entry_a0 sb) as sc eqn:Hsc in *. clear Hsc.
  destruct (entry_kernel_run F sc) as (Ed1 & Ed2 & Ed3 & Ed4 & Ed5 & Ed6).
  { by rewrite Ec1, Eb1, Ea1. }
  { rewrite Ec2, fn_lookup_insert_ne, Eb2 by done. done. }
  remember (run entry_kernel sc) as sd eqn:Hsd in *. clear Hsd.
  assert (Ek : forall a, (forall r, a <> F + slot r) -> word sc a = word s a).
  { intros a Ha. rewrite Ec4, fn_lookup_insert_ne by (apply not_eq_sym, Ha). rewrite Eb5, Ea3; [done|].
    intros (r & -> & _)%list_elem_of_fmap. by apply (Ha r). }
  assert (Ew : forall o, o < 40 -> word sc (F + o) = word s (F + o)).
  { intros o Ho. apply Ek. intros r E. pose proof (slot_range r). lia. }
  rewrite jr_word, jr_regs, jr_pc, jr_csrs, jr_mode, Ed6. split_and!.
  - intros r. rewrite Ec4. destruct (decide (r = A0)) as [->|Hr].
    { by rewrite fn_lookup_insert. }
    rewrite fn_lookup_insert_ne by (intros E; apply Hr; symmetry; apply slot_inj; lia).
    pose proof (Eb6 r (slot r) (user_slots_elem r Hr)) as E. unfold va in E. rewrite Ea0, (frame_addr F), Ea2 in E.
    + by rewrite fn_lookup_insert_ne in E.
    + by rewrite Ea1.
    + pose proof (slot_range r). lia.
  - exact Ek.
  - by rewrite Ed1, Ew.
  - by rewrite Ed2, Ew.
  - by rewrite Ed3, Ew.
  - by rewrite Ed4, Ew.
  - by rewrite Ed5, Ec3, Eb3.
Qed.

(** userret in three parts: the page table and the base, the loads, and a0. *)
Definition exit_base : list instr := [Sfence; Csrw SATP A0; Sfence; Li A0 TRAPFRAME].
Definition exit_a0 : list instr := [Ld A0 112 A0].

Lemma userret_parts s : userret s = sret (run exit_a0 (run (lds A0 user_slots) (run exit_base s))).
Proof. unfold userret. same_code. Qed.

Lemma exit_base_run s :
  let s' := run exit_base s in
  csrs s' = <[SATP := legal SATP (regs s A0)]> (csrs s) /\ regs s' A0 = u64 TRAPFRAME /\ word s' = word s.
Proof.
  destruct s as [cs rs m p w]. split_and!; [reflexivity| |reflexivity]. apply (fn_lookup_insert rs A0).
Qed.

Lemma exit_a0_run F s :
  frame_at F (csrs s SATP) -> regs s A0 = u64 TRAPFRAME ->
  let s' := run exit_a0 s in
  csrs s' = csrs s /\ word s' = word s /\ regs s' = <[A0 := word s (F + slot A0)]> (regs s).
Proof.
  intros HF E0. destruct s as [cs rs m p w]. cbn [run exit_a0 foldl run1]. unfold va. rec_simpl.
  cbn [csrs regs mode pc word apply_update] in *. rewrite E0, (frame_addr F) by done. done.
Qed.

Lemma user_slots_a0 : A0 ∉ user_slots.*1.
Proof.
  intros ([r o] & E & Hin)%list_elem_of_fmap. cbn [fst] in E. subst r. by destruct (user_slots_inv _ _ Hin).
Qed.

(** What userret does: the registers are those of the trapframe. *)
Lemma userret_restores F s :
  frame_at F (legal SATP (regs s A0)) ->
  let s1 := userret s in
  (forall r, regs s1 r = word s (F + slot r)) /\ csrs s1 SATP = legal SATP (regs s A0) /\
  word s1 = word s /\ pc s1 = csrs s SEPC /\ mode s1 = (if Z.testbit (csrs s MSTATUS) 8 then 1 else 0).
Proof.
  intros HF. cbv zeta. rewrite userret_parts.
  destruct (exit_base_run s) as (Ea1 & Ea2 & Ea3). remember (run exit_base s) as sa eqn:Hsa in *. clear Hsa.
  assert (EF : frame_at F (csrs sa SATP)) by (by rewrite Ea1, fn_lookup_insert).
  destruct (run_lds A0 user_slots sa user_regs_nodup) as (Eb1 & Eb2 & _ & _ & Eb5 & Eb6).
  { intros o Ho. by destruct (user_slots_inv _ _ Ho). }
  remember (run (lds A0 user_slots) sa) as sb eqn:Hsb in *. clear Hsb.
  destruct (exit_a0_run F sb) as (Ec1 & Ec2 & Ec3); [by rewrite Eb1|by rewrite (Eb5 _ user_slots_a0)|].
  remember (run exit_a0 sb) as sc eqn:Hsc in *. clear Hsc.
  rewrite sret_regs, sret_csrs, sret_word, sret_pc, sret_mode, Ec1, Ec2, Ec3, Eb1, Eb2, Ea1, Ea3 by done. split_and!.
  - intros r. destruct (decide (r = A0)) as [->|Hr]; [by rewrite fn_lookup_insert|].
    rewrite fn_lookup_insert_ne by done. rewrite (Eb6 r (slot r) (user_slots_elem r Hr)). unfold va.
    rewrite Ea2, (frame_addr F), Ea3; [done|done|]. pose proof (slot_range r). lia.
  - apply fn_lookup_insert.
  - done.
  - by apply fn_lookup_insert_ne.
  - by rewrite fn_lookup_insert_ne.
Qed.

(** C12: a trap from user space and the return from it.  uservec, under any user page
    table that has the trapframe at TRAPFRAME, stores all of the user's registers there
    and nothing else, and enters the kernel at kernel_trap with the kernel's stack,
    hart number and page table; and whatever the kernel then does, with any
    page table that has the same trapframe at TRAPFRAME, userret gives the user
    exactly what the trapframe says: registers that the kernel has not written in it are
    as they were before the trap, and the user program goes on at sepc. *)
Theorem trap_roundtrip F s :
  frame_at F (csrs s SATP) -> 0 <= regs s A0 < 2 ^ 64 ->
  let s1 := uservec s in
  (forall a, (forall r, a <> F + slot r) -> word s1 a = word s a) /\
  regs s1 SP = word s (F + TF_KERNEL_SP) /\ regs s1 TP = word s (F + TF_KERNEL_HARTID) /\
  pc s1 = word s (F + TF_KERNEL_TRAP) /\ csrs s1 SATP = legal SATP (word s (F + TF_KERNEL_SATP)) /\
  forall s2, frame_at F (legal SATP (regs s2 A0)) ->
    let s3 := userret s2 in
    (forall r, word s2 (F + slot r) = word s1 (F + slot r) -> regs s3 r = regs s r) /\
    (forall r, regs s3 r = word s2 (F + slot r)) /\
    csrs s3 SATP = legal SATP (regs s2 A0) /\ word s3 = word s2 /\ pc s3 = csrs s2 SEPC /\
    mode s3 = (if Z.testbit (csrs s2 MSTATUS) 8 then 1 else 0).
Proof.
  intros HF Ha0. cbv zeta. destruct (uservec_saves F s HF Ha0) as (E1 & E2 & E3 & E4 & E5 & E6 & _).
  do 5 (split; [assumption|]). intros s2 HF2.
  destruct (userret_restores F s2 HF2) as (R1 & R2 & R3 & R4 & R5).
  split; [|do 4 (split; [assumption|]); assumption].
  intros r Hr. rewrite R1, Hr. apply E1.
Qed.

(** ** Context switches *)

(** struct context *)
Definition context : list (reg * Z) :=
  [(RA, 0); (SP, 8); (S0, 16); (S1, 24); (S2, 32); (S3, 40); (S4, 48); (S5, 56); (S6, 64); (S7, 72); (S8, 80);
   (S9, 88); (S10, 96); (S11, 104)].

Lemma swtch_parts s : swtch s = jr RA (run (lds A1 context) (run (sds A0 context) s)).
Proof. unfold swtch. same_code. Qed.

(** The kernel's page table maps its data where they are. *)
Definition direct (satp c : Z) : Prop := forall o, 0 <= o < 112 -> trans satp (u64 (c + o)) = c + o.

Lemma context_range r o : (r, o) ∈ context -> 0 <= o < 112 /\ r <> A0 /\ r <> A1.
Proof.
  intros Hin. assert (H' : Forall (fun x => 0 <= x.2 < 112 /\ x.1 <> A0 /\ x.1 <> A1) context) by (repeat constructor; cbn; done || lia).
  rewrite Forall_forall in H'. apply (H' _ Hin).
Qed.

Lemma ra_context : (RA, 0) ∈ context.
Proof. unfold context. left. Qed.

Lemma context_places s b : direct (csrs s SATP) (regs s b) -> places s b context = (fun x => regs s b + x.2) <$> context.
Proof.
  intros Hd. unfold places. apply list_fmap_ext. intros i [r o] Hi%list_elem_of_lookup_2. apply Hd.
  by apply context_range in Hi as [? _].
Qed.

Lemma context_nodup c : NoDup ((fun x => c + x.2) <$> context).
Proof.
  change (fun x : reg * Z => c + x.2) with (Z.add c ∘ @snd reg Z). rewrite list_fmap_compose.
  apply NoDup_fmap_2; [intros x y; lia|]. apply (bool_decide_unpack _). by vm_compute.
Qed.

Lemma context_regs_nodup : NoDup context.*1.
Proof. apply (bool_decide_unpack _). by vm_compute. Qed.

(** What one call of swtch(old, new) does. *)
Lemma swtch_done s :
  direct (csrs s SATP) (regs s A0) -> direct (csrs s SATP) (regs s A1) ->
  (regs s A0 + 112 <= regs s A1 \/ regs s A1 + 112 <= regs s A0) ->
  let s' := swtch s in
  csrs s' = csrs s /\ mode s' = mode s /\ pc s' = word s (regs s A1) /\
  (forall r o, (r, o) ∈ context -> word s' (regs s A0 + o) = regs s r /\ regs s' r = word s (regs s A1 + o)) /\
  (forall r, r ∉ context.*1 -> regs s' r = regs s r) /\
  (forall a, ~ regs s A0 <= a < regs s A0 + 112 -> word s' a = word s a).
Proof.
  intros Hd0 Hd1 Hsep. cbv zeta. rewrite swtch_parts.
  destruct (run_sds A0 context s) as (Ea1 & Ea2 & Ea3 & _ & Ea5 & Ea6). remember (run (sds A0 context) s) as sa eqn:Hsa in *. clear Hsa.
  rewrite context_places in Ea5, Ea6 by done. specialize (Ea6 (context_nodup _)).
  destruct (run_lds A1 context sa) as (Eb1 & Eb2 & Eb3 & _ & Eb5 & Eb6).
  { exact context_regs_nodup. }
  { intros o Ho. destruct (proj2 (proj2 (context_range _ _ Ho)) eq_refl). }
  remember (run (lds A1 context) sa) as sb eqn:Hsb in *. clear Hsb.
  assert (Ew : forall a, ~ regs s A0 <= a < regs s A0 + 112 -> word sa a = word s a).
  { intros a Ha. apply Ea5. intros ([r o] & -> & Hin)%list_elem_of_fmap. apply context_range in Hin as [? _]. cbn in Ha. lia. }
  assert (Er : forall r o, (r, o) ∈ context -> regs sb r = word s (regs s A1 + o)).
  { intros r o Hin. destruct (context_range r o Hin) as [Ho _]. rewrite (Eb6 r o Hin). unfold va.
    rewrite Ea1, Ea2, Hd1 by done. apply Ew. lia. }
  rewrite jr_csrs, jr_regs, jr_mode, jr_pc, jr_word. split_and!.
  - exact (eq_trans Eb1 Ea1).
  - exact (eq_trans Eb3 Ea3).
  - rewrite (Er RA 0 ra_context). f_equal. apply Z.add_0_r.
  - intros r o Hin. split; [|exact (Er r o Hin)].
    destruct (context_range r o Hin) as [Ho _]. rewrite Eb2, <- (Ea6 r o Hin). unfold va. rewrite (Hd0 o Ho). reflexivity.
  - intros r Hr. rewrite (Eb5 r Hr), Ea2. reflexivity.
  - intros a Ha. rewrite Eb2. exact (Ew a Ha).
Qed.

(** C21: a process that calls swtch() and is switched back to goes on where it was.
    swtch(old, new) returns into the context of [new], and when any later call
    swtch(other, old), from a state in which nobody has written the context
    [old], is done, the return address, the stack and the callee-saved registers are
    those of the first call. *)
Theorem swtch_resumes s s2 :
  direct (csrs s SATP) (regs s A0) -> direct (csrs s SATP) (regs s A1) ->
  (regs s A0 + 112 <= regs s A1 \/ regs s A1 + 112 <= regs s A0) ->
  direct (csrs s2 SATP) (regs s2 A0) -> direct (csrs s2 SATP) (regs s2 A1) ->
  (regs s2 A0 + 112 <= regs s2 A1 \/ regs s2 A1 + 112 <= regs s2 A0) ->
  regs s2 A1 = regs s A0 -> (forall o, 0 <= o < 112 -> word s2 (regs s A0 + o) = word (swtch s) (regs s A0 + o)) ->
  pc (swtch s) = word s (regs s A1) /\
  (forall r o, (r, o) ∈ context -> regs (swtch s) r = word s (regs s A1 + o)) /\
  pc (swtch s2) = regs s RA /\
  (forall r, r ∈ context.*1 -> regs (swtch s2) r = regs s r) /\
  (forall r, r ∉ context.*1 -> regs (swtch s2) r = regs s2 r).
Proof.
  intros Hd0 Hd1 Hsep Hd2 Hd3 Hsep2 E01 Hw.
  destruct (swtch_done s Hd0 Hd1 Hsep) as (_ & _ & P & C & _). destruct (swtch_done s2 Hd2 Hd3 Hsep2) as (_ & _ & P2 & C2 & R2 & _).
  rewrite E01 in P2, C2.
  assert (Ew : forall r o, (r, o) ∈ context -> word s2 (regs s A0 + o) = regs s r).
  { intros r o Hin. destruct (context_range r o Hin) as [Ho _]. rewrite Hw by done. apply (C r o Hin). }
  split_and!.
  - exact P.
  - intros r o Hin. apply (C r o Hin).
  - rewrite P2. rewrite <- (Ew RA 0 ra_context). f_equal. symmetry. apply Z.add_0_r.
  - intros r ([r' o] & -> & Hin)%list_elem_of_fmap. cbn [fst]. rewrite (proj2 (C2 r' o Hin)). by apply Ew.
  - exact R2.
Qed.

(** ** Traps in the kernel *)

(** What kernelvec keeps on the stack, and what it loads again. *)
Definition stacked (r : reg) : Z := 8 * (Z.of_nat (number r) - 1).
Definition kernel_slots : list (reg * Z) := (fun r => (r, stacked r)) <$> registers.
Definition kernel_loads : list (reg * Z) := (fun r => (r, stacked r)) <$> filter (fun r => r <> TP) registers.

Lemma kernelvec_save_parts s : kernelvec_save s = run (sds SP kernel_slots) (run [Addi SP SP (-256)] s).
Proof. unfold kernelvec_save. same_code. Qed.

Lemma kernelvec_restore_parts s : kernelvec_restore s = sret (run [Addi SP SP 256] (run (lds SP kernel_loads) s)).
Proof. unfold kernelvec_restore. same_code. Qed.

(** The stack is in one place for each of the 32 words. *)
Definition stack_at (satp sp : Z) : Prop :=
  forall i j, 0 <= i < 32 -> 0 <= j < 32 -> trans satp (u64 (sp + 8 * i)) = trans satp (u64 (sp + 8 * j)) -> i = j.

Lemma kernel_slots_elem r : (r, stacked r) ∈ kernel_slots.
Proof. apply list_elem_of_fmap. exists r. split; [done|apply registers_all]. Qed.

Lemma kernel_loads_elem r : r <> TP -> (r, stacked r) ∈ kernel_loads.
Proof. intros Hr. apply list_elem_of_fmap. exists r. split; [done|]. apply list_elem_of_filter. split; [done|apply registers_all]. Qed.

Lemma kernel_loads_nodup : NoDup kernel_loads.*1.
Proof. apply (bool_decide_unpack _). by vm_compute. Qed.

Lemma stack_nodup satp sp : stack_at satp sp -> NoDup ((fun x => trans satp (u64 (sp + x.2))) <$> kernel_slots).
Proof.
  intros Hs. unfold kernel_slots. rewrite <- list_fmap_compose.
  apply (NoDup_fmap_2_strong ((fun x : reg * Z => trans satp (u64 (sp + x.2))) ∘ (fun r => (r, stacked r)))).
  - intros r r' _ _ E. unfold compose in E. cbn [snd] in E. unfold stacked in E.
    apply (inj number). assert (Hb : forall q, 0 <= Z.of_nat (number q) - 1 < 32) by (intros []; cbn; lia).
    pose proof (Hs _ _ (Hb r) (Hb r') E). lia.
  - apply (NoDup_fmap_1 number), (bool_decide_unpack _). by vm_compute.
Qed.

Lemma addi_run r i s :
  let s' := run [Addi r r i] s in
  csrs s' = csrs s /\ regs s' = <[r := u64 (regs s r + i)]> (regs s) /\ word s' = word s.
Proof. by destruct s. Qed.

(** An interrupt in the kernel is not noticed: when kerneltrap() returns with the stack
    pointer and the page table it was called with and has left what kernelvec pushed alone, all
    registers but tp, which may be another hart's by then, are as before, and sret goes
    to sepc. *)
Theorem kernelvec_transparent s s2 :
  let sp := u64 (regs s SP - 256) in
  0 <= regs s SP < 2 ^ 64 -> stack_at (csrs s SATP) sp ->
  regs s2 SP = sp -> csrs s2 SATP = csrs s SATP ->
  (forall i, 0 <= i < 32 -> word s2 (va s2 (sp + 8 * i)) = word (kernelvec_save s) (va s2 (sp + 8 * i))) ->
  let s3 := kernelvec_restore s2 in
  (forall r, r <> TP -> regs s3 r = regs s r) /\ regs s3 TP = regs s2 TP /\ pc s3 = csrs s2 SEPC /\ word s3 = word s2.
Proof.
  intros sp Hr Hst E2 Es2 Hw. cbv zeta. rewrite kernelvec_restore_parts. rewrite kernelvec_save_parts in Hw.
  destruct (addi_run SP (-256) s) as (Ea1 & Ea2 & _). change (regs s SP + -256) with (regs s SP - 256) in Ea2. fold sp in Ea2.
  remember (run [Addi SP SP (-256)] s) as sa eqn:Hsa in *. clear Hsa.
  destruct (run_sds SP kernel_slots sa) as (_ & _ & _ & _ & _ & Eb6). unfold places, va in Eb6.
  rewrite Ea1, Ea2, fn_lookup_insert in Eb6. specialize (Eb6 (stack_nodup _ _ Hst)).
  assert (Ew : forall r, word s2 (va s2 (sp + stacked r)) = (<[SP := sp]> (regs s)) r).
  { intros r. unfold stacked. rewrite Hw by (destruct r; cbn; lia). unfold va. rewrite Es2.
    apply (Eb6 r (stacked r)), kernel_slots_elem. }
  destruct (run_lds SP kernel_loads s2 kernel_loads_nodup) as (Ec1 & Ec2 & _ & _ & Ec5 & Ec6).
  { intros o (r & [= <- ->] & _)%list_elem_of_fmap. rewrite E2, (Ew SP). apply fn_lookup_insert. }
  rewrite E2 in Ec6. remember (run (lds SP kernel_loads) s2) as sc eqn:Hsc in *. clear Hsc.
  destruct (addi_run SP 256 sc) as (Ed2 & Ed1 & Ed3). remember (run [Addi SP SP 256] sc) as sd eqn:Hsd in *. clear Hsd.
  rewrite sret_regs, sret_pc, sret_word, Ed1, Ed2, Ed3, Ec1, Ec2. split_and!; [|rewrite fn_lookup_insert_ne by done|reflexivity..].
  - intros r Htp. destruct (decide (r = SP)) as [->|Hsp].
    + rewrite fn_lookup_insert, (Ec6 SP (stacked SP)), Ew, fn_lookup_insert by (by apply kernel_loads_elem).
      unfold sp. rewrite u64_add. replace (regs s SP - 256 + 256) with (regs s SP) by lia. by apply u64_small.
    + rewrite fn_lookup_insert_ne by done. rewrite (Ec6 r (stacked r)), Ew, fn_lookup_insert_ne by (done || by apply kernel_loads_elem).
      reflexivity.
  - apply Ec5. intros ([r o] & E & (r' & [= -> ->] & [Hne _]%list_elem_of_filter)%list_elem_of_fmap)%list_elem_of_fmap.
    by apply Hne.
Qed.

End Asm.

(** ** Running the model *)

(** The trapframe's page, and everything else where it is. *)
#[export] Instance plain_mmu : Mmu := fun _ a => if TRAPFRAME <=? a then 0x87f00000 + (a - TRAPFRAME) else a.

(** A user program at work: register x[i] holds 100 + i. *)
Definition demo_user : machine :=
  Machine (fun c => if decide (c = SATP) then 5 else 0) (fun r => 100 + Z.of_nat (number r)) 0 0x1000 (fun a => a mod 1000).

(** The kernel has written the result 42 of a system call. *)
Definition demo_return : machine :=
  (uservec demo_user) {{ word ::= <[0x87f00000 + slot A0 := 42]>; regs ::= <[A0 := 5]>; csrs ::= <[SEPC := 0x1004]> }}.

Lemma trap_roundtrip_witness :
  regs (userret demo_return) A0 = 42 /\ regs (userret demo_return) S7 = 123 /\ pc (userret demo_return) = 0x1004.
Proof.
  assert (HF : forall satp, frame_at 0x87f00000 satp).
  { intros satp o Ho. unfold trans, plain_mmu. rewrite (proj2 (Z.leb_le _ _)) by lia. lia. }
  destruct (trap_roundtrip 0x87f00000 demo_user (HF _) ltac:(done)) as (_ & _ & _ & _ & _ & Hret).
  destruct (Hret demo_return (HF _)) as (Hsame & Hall & _ & _ & Hpc & _). split_and!.
  - rewrite Hall. reflexivity.
  - rewrite (Hsame S7); reflexivity.
  - rewrite Hpc. reflexivity.
Defined.

(** Two processes in the kernel: the first calls swtch(), the second switches back. *)
Definition demo_first : machine :=
  Machine (fun _ => 0) (fun r => if decide (r = A0) then 0x80010000 else if decide (r = A1) then 0x80020000 else 7 * Z.of_nat (number r))
    1 0x80001000 (fun a => a).
Definition demo_second : machine := (swtch demo_first) {{ regs ::= fun f => <[A0 := 0x80020000]> (<[A1 := 0x80010000]> f) }}.

Lemma word_regs s f : word (s {{ regs ::= f }}) = word s.
Proof. by destruct s. Qed.

Lemma swtch_resumes_witness :
  pc (swtch demo_first) = 0x80020000 /\ pc (swtch demo_second) = 7 /\ regs (swtch demo_second) S1 = 63.
Proof.
  assert (Hd : forall satp c, c = 0x80010000 \/ c = 0x80020000 -> direct satp c).
  { intros satp c Hc o Ho. rewrite u64_small by lia. unfold trans, plain_mmu.
    rewrite (proj2 (Z.leb_gt _ _)); [done|]. change TRAPFRAME with 0x3fffffe000. lia. }
  destruct (swtch_resumes demo_first demo_second) as (P & _ & P2 & R2 & _).
  - apply Hd. by left.
  - apply Hd. by right.
  - left. done.
  - apply Hd. by right.
  - apply Hd. by left.
  - right. done.
  - reflexivity.
  - intros o _. unfold demo_second. by rewrite word_regs.
  - split_and!; [rewrite P; reflexivity|rewrite P2; reflexivity|]. rewrite (R2 S1); [reflexivity|]. apply (bool_decide_unpack _). by vm_compute.
Defined.
