(* ===== verification/Sleeplock.v ===== *)
(** Sleeping locks (kernel/sleeplock.c).

    A sleep lock is a member of a buffer or of an inode; [slname] names it by
    its owner.  Its spin lock is [lk->lk], and processes that wait for it sleep
    on the address of the lock itself. *)

From S2P Require Import Prelude Mem Riscv Locks Kalloc Vm Proc Kernel.

Inductive slname := BufLock (i : Z) | InodeLock (i : Z).

Definition sl_spin (n : slname) : lock :=
  match n with BufLock i => ("buffer", i) | InodeLock i => ("inode", i) end.
Definition sl_chan (n : slname) : chan :=
  match n with BufLock i => ("&buf.lock", i) | InodeLock i => ("&inode.lock", i) end.

Definition getsl (n : slname) : M kernel sleeplock :=
  match n with
  | BufLock i => b <- getbuf i;; ret (b_lock b)
  | InodeLock i => ip <- getinode i;; ret (i_lock ip)
  end.

Definition setsl (n : slname) (l : sleeplock) : M kernel unit :=
  match n with
  | BufLock i => setbuf i (fun b => b {{ b_lock := l }})
  | InodeLock i => setinode i (fun ip => ip {{ i_lock := l }})
  end.

Definition initsleeplock (n : slname) : M kernel unit := setsl n (SleepLock 0 0).

Section Sleeplock.
Context `{Fuel}.

Definition acquiresleep (n : slname) : M kernel unit :=
  acquire (sl_spin n);;;
  while fuel (l <- getsl n;; ret (negb (sl_locked l =? 0)))
    (ksleep (sl_chan n) (sl_spin n));;;
  me <- kmyproc;;
  p <- kgetp me;;
  setsl n (SleepLock 1 (pid p));;;
  release (sl_spin n).

Definition releasesleep (n : slname) : M kernel unit :=
  acquire (sl_spin n);;;
  setsl n (SleepLock 0 0);;;
  kwakeup (sl_chan n);;;
  release (sl_spin n).

Definition holdingsleep (n : slname) : M kernel bool :=
  acquire (sl_spin n);;;
  l <- getsl n;;
  me <- kmyproc;;
  p <- (if negb (sl_locked l =? 0) then q <- kgetp me;; ret (Some q) else ret None);;
  let r := match p with Some q => sl_pid l =? pid q | None => false end in
  release (sl_spin n);;;
  ret r.

End Sleeplock.
