(* ===== verification/Uart.v ===== *)
(** The UART driver (kernel/uart.c): the transmit ring between uartputc() and
    the device.

    [read_lsr] is a read of the line status register: whether input waits, and
    the device's next answer to whether the transmitter is idle.  Waiting for
    the device is bounded by [fuel]. *)

From S2P Require Import Prelude Mem Riscv Locks Kalloc Vm Proc Kernel.

Definition UART_TX_BUF_SIZE : Z := 32.
Definition LSR_RX_READY : Z := 1.
Definition LSR_TX_IDLE : Z := 32.
Definition uart_tx_lock : lock := ("uart", 0).
Definition uart_chan : chan := ("&uart_tx_r", 0).

Definition setuart (f : uartstate -> uartstate) : M kernel unit :=
  modify (fun s => s {{ uart ::= f }}).

(** ** The device registers *)

Definition read_lsr : M kernel Z :=
  u <- gets uart;;
  setuart (fun u => u {{ tx_idle ::= tail }});;;
  ret ((if decide (rhr u = []) then 0 else LSR_RX_READY)
       + (if default true (head (tx_idle u)) then LSR_TX_IDLE else 0)).

Definition read_rhr : M kernel Z :=
  u <- gets uart;;
  setuart (fun u => u {{ rhr ::= tail }});;;
  ret (default 0 (head (rhr u))).

Definition write_thr (c : Z) : M kernel unit :=
  setuart (fun u => u {{ thr ::= fun t => t ++ [u8 c] }}).

(** ** The driver *)

Definition uartinit : M kernel unit :=
  setuart (fun u => u {{ tx_w := 0; tx_r := 0; tx_buf := replicate 32 0 }}).

(** [while(1)]: an iteration either returns or takes a byte out of the buffer. *)
Definition uartstart : M kernel unit :=
  n <- gets (fun s => u64 (tx_w (uart s) - tx_r (uart s)));;
  loop (Datatypes.S (Z.to_nat n))
    (fun _ : unit =>
       u <- gets uart;;
       if tx_w u =? tx_r u then break tt
       else
         lsr <- read_lsr;;
         if negb (has lsr LSR_TX_IDLE) then break tt
         else
           u <- gets uart;;
           let c := default 0 (geti (tx_buf u) (tx_r u mod UART_TX_BUF_SIZE)) in
           setuart (fun u => u {{ tx_r ::= fun r => u64 (r + 1) }});;;
           kwakeup uart_chan;;;
           write_thr c;;;
           continue tt) tt.

(** [for(;;) ;] *)
Definition hang : M kernel unit := out_of_fuel.

Section Uart.
Context `{Fuel}.

Definition uartputc (c : Z) : M kernel unit :=
  acquire uart_tx_lock;;;
  p <- gets panicked;;
  when (negb (p =? 0)) hang;;;
  while fuel (u <- gets uart;; ret (tx_w u =? u64 (tx_r u + UART_TX_BUF_SIZE)))
    (ksleep uart_chan uart_tx_lock);;;
  setuart (fun u => u {{ tx_buf ::= seti (tx_w u mod UART_TX_BUF_SIZE) (u8 c);
                         tx_w ::= fun w => u64 (w + 1) }});;;
  uartstart;;;
  release uart_tx_lock.

Definition uartputc_sync (c : Z) : M kernel unit :=
  p <- gets panicked;;
  when (negb (p =? 0)) hang;;;
  while fuel (lsr <- read_lsr;; ret (negb (has lsr LSR_TX_IDLE))) (ret tt);;;
  write_thr c.

(** -1 when no input waits. *)
Definition uartgetc : M kernel Z :=
  lsr <- read_lsr;;
  if has lsr LSR_RX_READY then read_rhr else ret (-1).

End Uart.
