(* ===== verification/Printf.v ===== *)
(** Formatted console output (kernel/printf.c), consputc() of console.c and
    procdump() of proc.c.

    A format string is the list of its bytes; the variadic arguments are a list,
    and taking an argument that is missing or of another kind is undefined. *)

From S2P Require Import Prelude Mem Riscv Locks Kalloc Vm Proc Sched Kernel Uart.

Definition BACKSPACE : Z := 0x100.
Definition pr_lock : lock := ("pr", 0).

Inductive arg := Num (n : Z) | Text (s : option (list Z)).

Definition digits : list Z := str "0123456789abcdef".
Definition digit (d : Z) : Z := default 0 (geti digits d).

(** The [do ... while((x /= base) != 0)] loop of printint: the digits from the
    least significant one. *)
Fixpoint digits_of (n : nat) (base x : Z) : list Z :=
  match n with
  | O => []
  | Datatypes.S k =>
      digit (x mod base) :: if x / base =? 0 then [] else digits_of k base (x / base)
  end.

(** The characters printint prints: [x] is the unsigned magnitude. *)
Definition int_chars (xx base : Z) (sign : bool) : list Z :=
  let neg := sign && (xx <? 0) in
  let x := if neg then u32 (- xx) else u32 xx in
  rev (digits_of 32 base x ++ (if neg then [chr "-"] else [])).

(** The characters printptr prints: sixteen hexadecimal digits, highest first. *)
Fixpoint hex_chars (n : nat) (x : Z) : list Z :=
  match n with
  | O => []
  | Datatypes.S k => digit (Z.shiftr x (64 - 4)) :: hex_chars k (u64 (Z.shiftl x 4))
  end.

Section Printf.
Context `{Fuel}.

Definition consputc (c : Z) : M kernel unit :=
  if c =? BACKSPACE then
    uartputc_sync 8;;; uartputc_sync (chr " ");;; uartputc_sync 8
  else uartputc_sync c.

Fixpoint put_chars (cs : list Z) : M kernel unit :=
  match cs with
  | [] => ret tt
  | c :: r => consputc c;;; put_chars r
  end.

Definition printint (xx base : Z) (sign : bool) : M kernel unit :=
  put_chars (int_chars xx base sign).

Definition printptr (x : Z) : M kernel unit :=
  consputc (chr "0");;;
  consputc (chr "x");;;
  put_chars (hex_chars 16 (u64 x)).

(** The next variadic argument. *)
Definition take_num (args : list arg) : M kernel (Z * list arg) :=
  match args with Num n :: r => ret (n, r) | _ => undef "va_arg" end.
Definition take_text (args : list arg) : M kernel (list Z * list arg) :=
  match args with
  | Text (Some s) :: r => ret (s, r)
  | Text None :: r => ret (str "(null)", r)
  | _ => undef "va_arg"
  end.

Fixpoint print_fmt (fmt : list Z) (args : list arg) : M kernel unit :=
  match fmt with
  | [] => ret tt
  | c :: rest =>
      if negb (c =? chr "%") then consputc c;;; print_fmt rest args
      else
        match rest with
        | [] => ret tt
        | d :: rest' =>
            if d =? chr "d" then
              a <- take_num args;; printint (i32 a.1) 10 true;;; print_fmt rest' a.2
            else if d =? chr "x" then
              a <- take_num args;; printint (i32 a.1) 16 true;;; print_fmt rest' a.2
            else if d =? chr "p" then
              a <- take_num args;; printptr a.1;;; print_fmt rest' a.2
            else if d =? chr "s" then
              a <- take_text args;; put_chars a.1;;; print_fmt rest' a.2
            else if d =? chr "%" then
              consputc (chr "%");;; print_fmt rest' args
            else
              consputc (chr "%");;; consputc d;;; print_fmt rest' args
        end
  end.

Definition printf (fmt : list Z) (args : list arg) : M kernel unit :=
  locking <- gets pr_locking;;
  when (negb (locking =? 0)) (acquire pr_lock);;;
  print_fmt fmt args;;;
  when (negb (locking =? 0)) (release pr_lock).

(** The message of panic() on the console; the machine then stops, which is the
    [Panic] outcome of the other definitions. *)
Definition panic_message (msg : list Z) : M kernel unit :=
  modify (fun s => s {{ pr_locking := 0 }});;;
  printf (str "panic: ") [];;;
  printf msg [];;;
  printf [10] [];;;
  modify (fun s => s {{ panicked := 1 }}).

Definition printfinit : M kernel unit := modify (fun s => s {{ pr_locking := 1 }}).

(** No lock is taken, as the process table may be in any state. *)
Definition procdump : M kernel unit :=
  for_procs (fun i =>
    p <- kgetp i;;
    when (negb (bool_decide (state p = UNUSED))) (
      t <- gets (fun s => ticks (kp s));;
      printf (str "(" ++ [34] ++ str "P%d" ++ [34] ++ str ",%d,%d)," ++ [10])
        [Num (pid p); Num (dp p); Num t]);;;
    next) (ret tt).

End Printf.
