(* ===== verification/Console.v ===== *)
(** The console (kernel/console.c): the input line buffer between the interrupt
    handler and read(), and the UART interrupt (uart.c) that feeds it. *)

From S2P Require Import Prelude Mem Riscv Locks Kalloc Vm Proc Kernel Uart Printf.

Definition INPUT_BUF_SIZE : Z := 128.
Definition CONSOLE : Z := 1.
Definition cons_lock : lock := ("cons", 0).
Definition cons_chan : chan := ("&cons.r", 0).

(** [C(x)]: control-x. *)
Definition Ctrl (x : Ascii.ascii) : Z := chr x - chr "@".

Definition setcons (f : console -> console) : M kernel unit :=
  modify (fun s => s {{ cons ::= f }}).

(** [cons.buf[i % INPUT_BUF_SIZE]]. *)
Definition cons_at (c : console) (i : Z) : Z :=
  default 0 (geti (cons_buf c) (u32 i mod INPUT_BUF_SIZE)).

Section Console.
Context `{Layout} `{Fuel}.

Definition consolewrite (user_src : bool) (src n : Z) : M kernel Z :=
  loop (Datatypes.S (Z.to_nat n))
    (fun i =>
       if i <? n then
         c <- in_proc (either_copyin user_src (u64 (src + i)) 1);;
         match c with
         | None => break i
         | Some bs => uartputc (default 0 (head bs));;; continue (i + 1)
         end
       else break i) 0.

(** The inner [while(cons.r == cons.w)]: true when the process was killed. *)
Definition await_input : M kernel bool :=
  loop fuel (fun _ : unit =>
    c <- gets cons;;
    if cons_r c =? cons_w c then
      me <- kmyproc;;
      k <- in_proc (killed me);;
      if negb (k =? 0) then break true
      else ksleep cons_chan cons_lock;;; continue tt
    else break false) tt.

Definition consoleread (user_dst : bool) (dst n : Z) : M kernel Z :=
  let target := u32 n in
  acquire cons_lock;;;
  r <- loop (Datatypes.S (Z.to_nat n))
    (fun '(dst, n) =>
       if 0 <? n then
         dead <- await_input;;
         if dead then break (inr tt)
         else
           cs <- gets cons;;
           let c := cons_at cs (cons_r cs) in
           setcons (fun k => k {{ cons_r ::= fun r => u32 (r + 1) }});;;
           if c =? Ctrl "D" then
             when (n <? target) (setcons (fun k => k {{ cons_r ::= fun r => u32 (r - 1) }}));;;
             break (inl n)
           else
             v <- in_proc (either_copyout user_dst dst [c]);;
             if v =? -1 then break (inl n)
             else if c =? 10 then break (inl (n - 1))
             else continue (u64 (dst + 1), n - 1)
       else break (inl n)) (dst, n);;
  release cons_lock;;;
  match r with
  | inl n' => ret (i32 (u32 (target - n')))
  | inr _ => ret (-1)
  end.

(** [while(cons.e != cons.w && ...)] of the kill-line character. *)
Definition kill_line : M kernel unit :=
  n <- gets (fun s => u32 (cons_e (cons s) - cons_w (cons s)));;
  while (Datatypes.S (Z.to_nat n))
    (c <- gets cons;;
     ret (negb (cons_e c =? cons_w c) && negb (cons_at c (cons_e c - 1) =? 10)))
    (setcons (fun k => k {{ cons_e ::= fun e => u32 (e - 1) }});;;
     consputc BACKSPACE).

Definition consoleintr (c : Z) : M kernel unit :=
  acquire cons_lock;;;
  k <- gets cons;;
  (if c =? Ctrl "P" then procdump
   else if c =? Ctrl "U" then kill_line
   else if (c =? Ctrl "H") || (c =? 127) then
     when (negb (cons_e k =? cons_w k)) (
       setcons (fun k => k {{ cons_e ::= fun e => u32 (e - 1) }});;;
       consputc BACKSPACE)
   else
     when (negb (c =? 0) && (u32 (cons_e k - cons_r k) <? INPUT_BUF_SIZE)) (
       let c := if c =? 13 then 10 else c in
       consputc c;;;
       setcons (fun k => k {{ cons_buf ::= seti (cons_e k mod INPUT_BUF_SIZE) (u8 c);
                              cons_e ::= fun e => u32 (e + 1) }});;;
       k' <- gets cons;;
       when ((c =? 10) || (c =? Ctrl "D") || (u32 (cons_e k' - cons_r k') =? INPUT_BUF_SIZE)) (
         setcons (fun k => k {{ cons_w := cons_e k }});;;
         kwakeup cons_chan)));;;
  release cons_lock.

Definition consoleinit : M kernel unit :=
  uartinit;;;
  modify (fun s => s {{ devsw ::= seti CONSOLE ConsoleDevice }}).

(** Every byte that waits in the device is read; then buffered output goes out. *)
Definition uartintr : M kernel unit :=
  n <- gets (fun s => length (rhr (uart s)));;
  loop (Datatypes.S n)
    (fun _ : unit =>
       c <- uartgetc;;
       if c =? -1 then break tt
       else consoleintr c;;; continue tt) tt;;;
  acquire uart_tx_lock;;;
  uartstart;;;
  release uart_tx_lock.

End Console.
