(* ===== verification/Bio.v ===== *)
(** The buffer cache (kernel/bio.c).

    The LRU list is the doubly linked list of the code, through the [b_prev]
    and [b_next] members; index [NBUF] is bcache.head.  [Disk] is what the
    cache asks of the disk driver: [virtio_disk_rw i w] transfers the block of
    buffer [i] between its data and the disk and returns when the device is
    done. *)

From S2P Require Import Prelude Mem Riscv Locks Kalloc Vm Proc Kernel Sleeplock.

Definition BSIZE : Z := 1024.
Definition bcache_lock : lock := ("bcache", 0).
Definition HEAD : Z := NBUF.

(** The contents of a block of the disk: the last write to it. *)
Fixpoint last_write (ws : list (Z * list Z)) (b : Z) (d : list Z) : list Z :=
  match ws with
  | [] => d
  | (b', v) :: r => last_write r b (if b' =? b then v else d)
  end.
Definition block (d : diskstate) (b : Z) : list Z := last_write (d_writes d) b (d_init d b).

Class DiskDriver := {
  virtio_disk_rw : Z -> bool -> M kernel unit;
  virtio_disk_intr : M kernel unit;
  disk_write : forall i b s, geti (bufs s) i = Some b ->
    virtio_disk_rw i true s
    = Done tt (s {{ disk := (disk s) {{ d_writes ::= fun l => l ++ [(b_blockno b, b_data b)] }} }});
  disk_read : forall i b s, geti (bufs s) i = Some b ->
    virtio_disk_rw i false s
    = Done tt (s {{ bufs ::= seti i (b {{ b_data := block (disk s) (b_blockno b) }}) }});
  disk_null : forall i w s, geti (bufs s) i = None -> virtio_disk_rw i w s = Undef "buf";
}.

Section Bio.
Context `{Fuel} `{DiskDriver}.

Definition binit : M kernel unit :=
  setbuf HEAD (fun b => b {{ b_prev := HEAD; b_next := HEAD }});;;
  loop (Datatypes.S (Z.to_nat NBUF))
    (fun i =>
       if i <? NBUF then
         h <- getbuf HEAD;;
         setbuf i (fun b => b {{ b_next := b_next h; b_prev := HEAD }});;;
         initsleeplock (BufLock i);;;
         setbuf (b_next h) (fun b => b {{ b_prev := i }});;;
         setbuf HEAD (fun b => b {{ b_next := i }});;;
         continue (i + 1)
       else break tt) 0.

(** [for(b = bcache.head.next; b != &bcache.head; b = b->next)] for the cached
    block, and [for(b = bcache.head.prev; ...; b = b->prev)] for a free buffer:
    an index, or -1 when the loop ends.  The list has NBUF buffers. *)
Definition find_cached (dev blockno : Z) : M kernel Z :=
  h <- getbuf HEAD;;
  loop (Datatypes.S (Z.to_nat NBUF))
    (fun i =>
       if i =? HEAD then break (-1)
       else
         b <- getbuf i;;
         if (b_dev b =? dev) && (b_blockno b =? blockno) then break i
         else continue (b_next b)) (b_next h).

Definition find_free : M kernel Z :=
  h <- getbuf HEAD;;
  loop (Datatypes.S (Z.to_nat NBUF))
    (fun i =>
       if i =? HEAD then break (-1)
       else
         b <- getbuf i;;
         if b_refcnt b =? 0 then break i
         else continue (b_prev b)) (b_prev h).

Definition bget (dev blockno : Z) : M kernel Z :=
  acquire bcache_lock;;;
  i <- find_cached dev blockno;;
  if negb (i =? -1) then
    setbuf i (fun b => b {{ b_refcnt ::= fun n => u32 (n + 1) }});;;
    release bcache_lock;;;
    acquiresleep (BufLock i);;;
    ret i
  else
    i <- find_free;;
    if negb (i =? -1) then
      setbuf i (fun b => b {{ b_dev := dev; b_blockno := blockno; b_valid := 0; b_refcnt := 1 }});;;
      release bcache_lock;;;
      acquiresleep (BufLock i);;;
      ret i
    else panic "bget: no buffers".

Definition bread (dev blockno : Z) : M kernel Z :=
  i <- bget dev blockno;;
  b <- getbuf i;;
  when (b_valid b =? 0) (
    virtio_disk_rw i false;;;
    setbuf i (fun b => b {{ b_valid := 1 }}));;;
  ret i.

Definition bwrite (i : Z) : M kernel unit :=
  h <- holdingsleep (BufLock i);;
  if negb h then panic "bwrite" else virtio_disk_rw i true.

(** Take buffer [i] out of the list and put it behind the head. *)
Definition move_front (i : Z) : M kernel unit :=
  b <- getbuf i;;
  setbuf (b_next b) (fun n => n {{ b_prev := b_prev b }});;;
  setbuf (b_prev b) (fun p => p {{ b_next := b_next b }});;;
  h <- getbuf HEAD;;
  setbuf i (fun b => b {{ b_next := b_next h; b_prev := HEAD }});;;
  setbuf (b_next h) (fun n => n {{ b_prev := i }});;;
  setbuf HEAD (fun h => h {{ b_next := i }}).

Definition brelse (i : Z) : M kernel unit :=
  h <- holdingsleep (BufLock i);;
  if negb h then panic "brelse"
  else
    releasesleep (BufLock i);;;
    acquire bcache_lock;;;
    setbuf i (fun b => b {{ b_refcnt ::= fun n => u32 (n - 1) }});;;
    b <- getbuf i;;
    when (b_refcnt b =? 0) (move_front i);;;
    release bcache_lock.

Definition bpin (i : Z) : M kernel unit :=
  acquire bcache_lock;;;
  setbuf i (fun b => b {{ b_refcnt ::= fun n => u32 (n + 1) }});;;
  release bcache_lock.

Definition bunpin (i : Z) : M kernel unit :=
  acquire bcache_lock;;;
  setbuf i (fun b => b {{ b_refcnt ::= fun n => u32 (n - 1) }});;;
  release bcache_lock.

(** The bytes of a buffer, and a store into them. *)
Definition bdata (i : Z) : M kernel (list Z) := b <- getbuf i;; ret (b_data b).
Definition bstore (i off : Z) (bs : list Z) : M kernel unit :=
  setbuf i (fun b => b {{ b_data ::= splice off bs }}).

End Bio.

(** A driver and a device that complete a request at once. *)
Definition sync_rw (i : Z) (write : bool) : M kernel unit :=
  b <- getbuf i;;
  if write then modify (fun s => s {{ disk := (disk s) {{ d_writes ::= fun l => l ++ [(b_blockno b, b_data b)] }} }})
  else modify (fun s => s {{ bufs ::= seti i (b {{ b_data := block (disk s) (b_blockno b) }}) }}).

Program Definition sync_disk : DiskDriver := {|
  virtio_disk_rw := sync_rw;
  virtio_disk_intr := ret tt
|}.
Next Obligation.
  intros i b s E. unfold sync_rw, getbuf, elem, bind, gets. cbn [bindp]. by rewrite E.
Qed.
Next Obligation.
  intros i b s E. unfold sync_rw, getbuf, elem, bind, gets. cbn [bindp]. by rewrite E.
Qed.
Next Obligation.
  intros i w s E. unfold sync_rw, getbuf, elem, bind, gets. cbn [bindp]. by rewrite E.
Qed.
