(* ===== verification/BioRing.v ===== *)
(** The LRU list of the buffer cache: the [b_next] and [b_prev] members form a
    ring through bcache.head whose order is a list of buffer indices. *)

From stdpp Require Import functions.
From S2P Require Import Prelude Mem Riscv Locks Kalloc Vm Proc ProcFacts Kernel KernelFacts Bio.

(** ** Doubly linked segments *)

Definition nxt (bs : list buf) (i : Z) : option Z := b_next <$> geti bs i.
Definition prv (bs : list buf) (i : Z) : option Z := b_prev <$> geti bs i.

(** Neighbours in the list point at each other. *)
Fixpoint links (nx pv : Z -> option Z) (l : list Z) : Prop :=
  match l with
  | a :: r =>
      match r with
      | b :: _ => nx a = Some b /\ pv b = Some a /\ links nx pv r
      | [] => True
      end
  | [] => True
  end.

Lemma links_cons nx pv a b l :
  links nx pv (a :: b :: l) <-> nx a = Some b /\ pv b = Some a /\ links nx pv (b :: l).
Proof. done. Qed.

Lemma links_app nx pv l1 x l2 :
  links nx pv (l1 ++ x :: l2) <-> links nx pv (l1 ++ [x]) /\ links nx pv (x :: l2).
Proof.
  induction l1 as [|a l1 IH]; [simpl; tauto|].
  destruct l1 as [|b l1]; [|cbn [app] in *; rewrite !links_cons, IH; tauto].
  cbn [app]. rewrite (links_cons _ _ a x l2), (links_cons _ _ a x []). simpl. tauto.
Qed.

Lemma links_ext nx pv nx' pv' l :
  (forall i, nx' i = nx i) -> (forall i, pv' i = pv i) -> links nx pv l -> links nx' pv' l.
Proof.
  intros Hn Hp. induction l as [|a [|b l] IH]; intros Hl; [done..|].
  apply links_cons in Hl as (Ha & Hb & Hl). apply links_cons. rewrite Hn, Hp. auto.
Qed.

(** A segment depends on [next] of all but its last element, and on [prev] of
    all but its first. *)
Lemma links_set_next nx pv l x v :
  x ∉ removelast l -> links nx pv l -> links (<[x := v]> nx) pv l.
Proof.
  induction l as [|a [|b l] IH]; intros Hx Hl; [done..|].
  change (removelast (a :: b :: l)) with (a :: removelast (b :: l)) in Hx.
  apply not_elem_of_cons in Hx as [Hne Hx].
  apply links_cons in Hl as (Ha & Hb & Hl). apply links_cons.
  split; [by etransitivity; [apply fn_lookup_insert_ne|]|auto].
Qed.

Lemma links_set_prev nx pv l y v :
  y ∉ tail l -> links nx pv l -> links nx (<[y := v]> pv) l.
Proof.
  induction l as [|a [|b l] IH]; intros Hy Hl; [done..|]. cbn [tail] in *.
  apply not_elem_of_cons in Hy as [Hne Hy].
  apply links_cons in Hl as (Ha & Hb & Hl). apply links_cons.
  split; [done|]. split; [by etransitivity; [apply fn_lookup_insert_ne|]|auto].
Qed.

Lemma removelast_snoc {A} (l : list A) x : removelast (l ++ [x]) = l.
Proof. by rewrite removelast_app, app_nil_r. Qed.

(** Taking [i] out of between [x] and [y]. *)
Lemma links_unlink nx pv a x i y b :
  links nx pv (a ++ x :: i :: y :: b) ->
  x ∉ a -> x ∉ removelast (y :: b) -> y ∉ tail (a ++ [x]) -> y ∉ b ->
  links (<[x := Some y]> nx) (<[y := Some x]> pv) (a ++ x :: y :: b).
Proof.
  rewrite (links_app _ _ a x (i :: y :: b)). intros [Ha Hl] Hx1 Hx2 Hy1 Hy2.
  apply links_cons in Hl as (_ & _ & Hl). apply links_cons in Hl as (_ & _ & Hl).
  apply links_app. split.
  - apply links_set_next; [by rewrite removelast_snoc|]. by apply links_set_prev.
  - apply links_cons. split; [apply fn_lookup_insert|]. split; [apply fn_lookup_insert|].
    apply links_set_next; [done|]. by apply links_set_prev.
Qed.

(** Putting [i] between [h] and [y]. *)
Lemma links_insert nx pv h y b i :
  links nx pv (h :: y :: b) ->
  i ∉ h :: y :: b -> h ∉ removelast (y :: b) -> y ∉ b ->
  links (<[h := Some i]> (<[i := Some y]> nx)) (<[y := Some i]> (<[i := Some h]> pv)) (h :: i :: y :: b).
Proof.
  intros (_ & _ & Hl)%links_cons Hi Hh Hy.
  assert (i <> h /\ i <> y /\ i ∉ b) as (Hih & Hiy & Hib) by set_solver.
  assert (i ∉ removelast (y :: b)) as Hir.
  { intros Hin. assert (i ∈ y :: b); [|set_solver].
    destruct (exists_last (l := y :: b)) as (l & z & Heq); [done|].
    rewrite Heq in *. rewrite removelast_snoc in Hin. set_solver. }
  rewrite !links_cons. split_and!.
  - apply fn_lookup_insert.
  - etransitivity; [by apply fn_lookup_insert_ne|]. apply fn_lookup_insert.
  - etransitivity; [by apply fn_lookup_insert_ne|]. apply fn_lookup_insert.
  - apply fn_lookup_insert.
  - apply links_set_next; [done|]. apply links_set_next; [done|].
    apply links_set_prev; [done|]. by apply links_set_prev.
Qed.

(** What a store to one buffer's link does. *)
Lemma nxt_seti bs i x j :
  is_Some (geti bs i) -> nxt (seti i x bs) j = if decide (j = i) then Some (b_next x) else nxt bs j.
Proof.
  intros [y Hy]. unfold nxt. case_decide as Hd.
  - subst. by rewrite geti_seti_eq by (by eapply geti_Some_lt).
  - by rewrite geti_seti_ne.
Qed.

Lemma prv_seti bs i x j :
  is_Some (geti bs i) -> prv (seti i x bs) j = if decide (j = i) then Some (b_prev x) else prv bs j.
Proof.
  intros [y Hy]. unfold prv. case_decide as Hd.
  - subst. by rewrite geti_seti_eq by (by eapply geti_Some_lt).
  - by rewrite geti_seti_ne.
Qed.

(** ** The ring *)

Record ring (bs : list buf) (order : list Z) : Prop := {
  ring_len : Z.of_nat (length bs) = NBUF + 1;
  ring_links : links (nxt bs) (prv bs) (HEAD :: order ++ [HEAD]);
  ring_nodup : NoDup order;
  ring_all : forall i, i ∈ order <-> 0 <= i < NBUF;
}.

(** Only the links matter. *)
Lemma ring_same_links bs bs' order :
  ring bs order -> length bs' = length bs ->
  (forall i, nxt bs' i = nxt bs i) -> (forall i, prv bs' i = prv bs i) -> ring bs' order.
Proof.
  intros [H1 H2 H3 H4] Hl Hn Hp. split; [by rewrite Hl| |done..].
  by eapply links_ext; [..|exact H2].
Qed.

Lemma ring_seti bs order i x y :
  ring bs order -> geti bs i = Some x -> b_next y = b_next x -> b_prev y = b_prev x ->
  ring (seti i y bs) order.
Proof.
  intros Hr Hx Hn Hp. apply (ring_same_links bs); [done|apply length_seti| |]; intros j.
  - rewrite nxt_seti by done. case_decide; [subst|done]. unfold nxt. rewrite Hx. simpl. by rewrite Hn.
  - rewrite prv_seti by done. case_decide; [subst|done]. unfold prv. rewrite Hx. simpl. by rewrite Hp.
Qed.

Lemma ring_length bs order : ring bs order -> length order = Z.to_nat NBUF.
Proof.
  intros Hr. assert (order ≡ₚ Z.of_nat <$> seq 0 (Z.to_nat NBUF)) as Hp.
  { apply NoDup_Permutation; [apply Hr|apply NoDup_fmap_2, NoDup_seq; by intros ? ? ?%Nat2Z.inj|].
    intros i. rewrite (ring_all _ _ Hr), list_elem_of_fmap. split.
    - intros Hi. exists (Z.to_nat i). rewrite elem_of_seq. lia.
    - intros (n & -> & Hn%elem_of_seq). lia. }
  by rewrite Hp, length_fmap, length_seq.
Qed.

Lemma ring_geti bs order i : ring bs order -> 0 <= i <= NBUF -> is_Some (geti bs i).
Proof. intros Hr Hi. apply geti_is_Some. pose proof (ring_len _ _ Hr). lia. Qed.

(** ** Searching the ring *)

(** The first buffer of a list of indices with a property, or -1. *)
Fixpoint search (P : buf -> bool) (bs : list buf) (l : list Z) : Z :=
  match l with
  | [] => -1
  | j :: l =>
      match geti bs j with
      | Some x => if P x then j else search P bs l
      | None => -1
      end
  end.

(** The loops of bget, with the member they follow. *)
Definition walk (P : buf -> bool) (next : buf -> Z) (n : nat) (i : Z) : M kernel Z :=
  loop n (fun i =>
    if i =? HEAD then break (-1)
    else b <- getbuf i;; if P b then break i else continue (next b)) i.

Lemma walk_eq P next l n s :
  (length l < n)%nat ->
  (forall l1 j l2, l = l1 ++ j :: l2 -> j <> HEAD /\
     exists x, geti (bufs s) j = Some x /\ next x = hd HEAD l2) ->
  walk P next n (hd HEAD l) s = Done (search P (bufs s) l) s.
Proof.
  revert n. induction l as [|j l IH]; intros [|n] Hn Hl; simpl in Hn; try lia.
  - by apply loop_break.
  - destruct (Hl [] j l eq_refl) as (Hj & x & Hx & Hnx). cbn [hd search]. rewrite Hx.
    assert (getbuf j s = Done x s) as Hg by (by apply elem_ok).
    destruct (P x) eqn:HP.
    + apply loop_break. rewrite (proj2 (Z.eqb_neq _ _) Hj). by rewrite (bind_done _ _ _ _ _ Hg), HP.
    + unfold walk. erewrite loop_continue.
      2: { rewrite (proj2 (Z.eqb_neq _ _) Hj). by rewrite (bind_done _ _ _ _ _ Hg), HP. }
      rewrite Hnx. apply IH; [lia|]. intros l1 k l2 ->. by apply (Hl (j :: l1)).
Qed.

Lemma links_next bs l1 a b l2 : links (nxt bs) (prv bs) (l1 ++ a :: b :: l2) -> nxt bs a = Some b.
Proof. rewrite links_app. intros [_ Hl]. by apply links_cons in Hl as (? & _). Qed.

Lemma links_prev bs l1 a b l2 : links (nxt bs) (prv bs) (l1 ++ a :: b :: l2) -> prv bs b = Some a.
Proof. rewrite links_app. intros [_ Hl]. by apply links_cons in Hl as (_ & ? & _). Qed.

Lemma ring_not_head bs order i : ring bs order -> i ∈ order -> i <> HEAD.
Proof. intros Hr Hi%(ring_all _ _ Hr). unfold HEAD. lia. Qed.

(** Following [next] from an element of the ring, and [prev]. *)
Lemma ring_next bs order l1 j l2 :
  ring bs order -> order = l1 ++ j :: l2 ->
  exists x, geti bs j = Some x /\ b_next x = hd HEAD l2.
Proof.
  intros Hr ->. pose proof (ring_links _ _ Hr) as Hl. rewrite <- app_assoc in Hl. cbn [app] in Hl.
  assert (nxt bs j = Some (hd HEAD l2)) as Hn.
  { destruct l2 as [|k l2]; apply (links_next bs (HEAD :: l1) _ _ _ Hl). }
  unfold nxt in Hn. destruct (geti bs j) as [x|]; simpl in Hn; [|done]. exists x. naive_solver.
Qed.

Lemma ring_prev bs order l1 j l2 :
  ring bs order -> reverse order = l1 ++ j :: l2 ->
  exists x, geti bs j = Some x /\ b_prev x = hd HEAD l2.
Proof.
  intros Hr Ho. assert (order = reverse l2 ++ j :: reverse l1) as ->.
  { rewrite <- (reverse_involutive order), Ho, reverse_app, reverse_cons, <- app_assoc. done. }
  pose proof (ring_links _ _ Hr) as Hl. rewrite <- app_assoc in Hl. cbn [app] in Hl.
  assert (prv bs j = Some (hd HEAD l2)) as Hn.
  { destruct l2 as [|k l2].
    - rewrite reverse_nil in Hl. by apply (links_prev bs [] _ _ _ Hl).
    - rewrite reverse_cons, <- app_assoc in Hl. by apply (links_prev bs (HEAD :: reverse l2) _ _ _ Hl). }
  unfold prv in Hn. destruct (geti bs j) as [x|]; simpl in Hn; [|done]. exists x. naive_solver.
Qed.

Lemma ring_head bs order :
  ring bs order ->
  exists x, geti bs HEAD = Some x /\ b_next x = hd HEAD order /\ b_prev x = hd HEAD (reverse order).
Proof.
  intros Hr. destruct (ring_geti bs order HEAD Hr) as [x Hx]; [by split|].
  exists x. pose proof (ring_links _ _ Hr) as Hl.
  assert (nxt bs HEAD = Some (hd HEAD order)) as Hn.
  { destruct order as [|j l]; by apply (links_next bs [] _ _ _ Hl). }
  assert (prv bs HEAD = Some (hd HEAD (reverse order))) as Hp.
  { destruct order as [|j l] using rev_ind; [by apply (links_prev bs [] _ _ _ Hl)|].
    rewrite reverse_app. rewrite <- app_assoc in Hl. by apply (links_prev bs (HEAD :: l) _ _ _ Hl). }
  unfold nxt, prv in *. rewrite Hx in *. simpl in *. split_and!; congruence.
Qed.

Definition is_block (dev blockno : Z) (b : buf) : bool := (b_dev b =? dev) && (b_blockno b =? blockno).
Definition unused (b : buf) : bool := b_refcnt b =? 0.

Lemma find_cached_eq dev blockno order s :
  ring (bufs s) order ->
  find_cached dev blockno s = Done (search (is_block dev blockno) (bufs s) order) s.
Proof.
  intros Hr. destruct (ring_head _ _ Hr) as (h & Hh & Hn & _). unfold find_cached.
  rewrite (bind_done _ _ _ _ _ (elem_ok bufs "buf" HEAD h s Hh)), Hn.
  apply (walk_eq (is_block dev blockno) b_next order (Datatypes.S (Z.to_nat NBUF)) s).
  - rewrite (ring_length _ _ Hr). lia.
  - intros l1 j l2 Ho. split; [|by eapply ring_next].
    apply (ring_not_head _ _ _ Hr). rewrite Ho. set_solver.
Qed.

Lemma find_free_eq order s :
  ring (bufs s) order -> find_free s = Done (search unused (bufs s) (reverse order)) s.
Proof.
  intros Hr. destruct (ring_head _ _ Hr) as (h & Hh & _ & Hn). unfold find_free.
  rewrite (bind_done _ _ _ _ _ (elem_ok bufs "buf" HEAD h s Hh)), Hn.
  apply (walk_eq unused b_prev (reverse order) (Datatypes.S (Z.to_nat NBUF)) s).
  - rewrite length_reverse, (ring_length _ _ Hr). lia.
  - intros l1 j l2 Ho. split; [|by eapply ring_prev].
    apply (ring_not_head _ _ _ Hr). rewrite <- elem_of_reverse, Ho. set_solver.
Qed.

(** ** Moving a buffer to the front *)

(** A buffer without its links. *)
Definition view (x : buf) : Z * Z * Z * sleeplock * Z * list Z :=
  (b_valid x, b_dev x, b_blockno x, b_lock x, b_refcnt x, b_data x).

Definition set_next (v : Z) (x : buf) : buf := x {{ b_next := v }}.
Definition set_prev (v : Z) (x : buf) : buf := x {{ b_prev := v }}.

(** [s] is [s0] with other links in the buffers. *)
Definition relinked (s0 : kernel) (nx pv : Z -> option Z) (s : kernel) : Prop :=
  exists bs, s = s0 {{ bufs := bs }} /\ view <$> bs = view <$> bufs s0 /\
    (forall i, nxt bs i = nx i) /\ (forall i, prv bs i = pv i).

Lemma relinked_self s : relinked s (nxt (bufs s)) (prv (bufs s)) s.
Proof. exists (bufs s). split_and!; try done. by destruct s. Qed.

Lemma view_length bs bs' : view <$> bs = view <$> bs' -> length bs = length bs'.
Proof. intros He. by rewrite <- (length_fmap view bs), He, length_fmap. Qed.

Lemma relinked_get s0 nx pv s k :
  relinked s0 nx pv s -> 0 <= k < Z.of_nat (length (bufs s0)) ->
  exists x, geti (bufs s) k = Some x /\ nx k = Some (b_next x) /\ pv k = Some (b_prev x).
Proof.
  intros (bs & -> & Hv & Hn & Hp) Hk. simpl.
  destruct (geti_is_Some bs k) as [x Hx]; [by rewrite (view_length _ _ Hv)|].
  exists x. rewrite <- Hn, <- Hp. unfold nxt, prv. by rewrite Hx.
Qed.

(** A store to the links of one buffer. *)
Lemma relinked_set s0 nx pv s k x f :
  relinked s0 nx pv s -> geti (bufs s) k = Some x -> view (f x) = view x ->
  exists s', setbuf k f s = Done tt s' /\
    relinked s0 (<[k := Some (b_next (f x))]> nx) (<[k := Some (b_prev (f x))]> pv) s'.
Proof.
  intros (bs & -> & Hv & Hn & Hp) Hx Hf. eexists. split; [by apply setbuf_ok|].
  exists (seti k (f x) bs). split; [done|]. simpl in Hx. split_and!.
  - rewrite <- Hv. apply list_eq. intros j. rewrite !list_lookup_fmap. unfold seti, geti in *.
    case_match; [|done]. destruct (decide (j = Z.to_nat k)) as [->|Hne].
    + rewrite list_lookup_insert_eq by (by eapply lookup_lt_Some). rewrite Hx. simpl. by f_equal.
    + by rewrite list_lookup_insert_ne.
  - intros i. rewrite nxt_seti by done. case_decide; [subst; symmetry; apply fn_lookup_insert|].
    rewrite Hn. symmetry. by apply fn_lookup_insert_ne.
  - intros i. rewrite prv_seti by done. case_decide; [subst; symmetry; apply fn_lookup_insert|].
    rewrite Hp. symmetry. by apply fn_lookup_insert_ne.
Qed.

Lemma relinked_ext s0 nx pv nx' pv' s :
  relinked s0 nx pv s -> (forall i, nx' i = nx i) -> (forall i, pv' i = pv i) -> relinked s0 nx' pv' s.
Proof.
  intros (bs & Hs & Hv & Hn & Hp) Hn' Hp'. exists bs. split_and!; [done|done| |]; congruence.
Qed.

Lemma fn_insert_same (f : Z -> option Z) k v : f k = v -> forall i, f i = (<[k := v]> f) i.
Proof.
  intros Hf i. destruct (decide (i = k)) as [->|Hne].
  - rewrite Hf. symmetry. apply fn_lookup_insert.
  - symmetry. by apply fn_lookup_insert_ne.
Qed.

Lemma relinked_set_prev s0 nx pv s k v :
  relinked s0 nx pv s -> 0 <= k < Z.of_nat (length (bufs s0)) ->
  exists s', setbuf k (set_prev v) s = Done tt s' /\ relinked s0 nx (<[k := Some v]> pv) s'.
Proof.
  intros Hr Hk. destruct (relinked_get _ _ _ _ _ Hr Hk) as (x & Hx & Hn & _).
  destruct (relinked_set _ _ _ _ _ _ (set_prev v) Hr Hx) as (s' & Hs & Hr'); [done|].
  exists s'. split; [done|]. eapply relinked_ext; [exact Hr'| |done]. by apply fn_insert_same.
Qed.

Lemma relinked_set_next s0 nx pv s k v :
  relinked s0 nx pv s -> 0 <= k < Z.of_nat (length (bufs s0)) ->
  exists s', setbuf k (set_next v) s = Done tt s' /\ relinked s0 (<[k := Some v]> nx) pv s'.
Proof.
  intros Hr Hk. destruct (relinked_get _ _ _ _ _ Hr Hk) as (x & Hx & _ & Hp).
  destruct (relinked_set _ _ _ _ _ _ (set_next v) Hr Hx) as (s' & Hs & Hr'); [done|].
  exists s'. split; [done|]. eapply relinked_ext; [exact Hr'|done|]. by apply fn_insert_same.
Qed.

(** brelse's list surgery puts the buffer first and keeps the others in order. *)
Lemma move_front_ring l1 i l2 s :
  ring (bufs s) (l1 ++ i :: l2) ->
  exists bs, move_front i s = Done tt (s {{ bufs := bs }}) /\
    ring bs (i :: l1 ++ l2) /\ view <$> bs = view <$> bufs s.
Proof.
  intros Hr. pose proof (ring_len _ _ Hr) as Hlen.
  assert (forall j, j ∈ HEAD :: l1 ++ i :: l2 -> 0 <= j < Z.of_nat (length (bufs s))) as Hrng.
  { intros j [->|Hj%(ring_all _ _ Hr)]%elem_of_cons; rewrite Hlen; [done|lia]. }
  pose proof (relinked_self s) as R0. pose proof (ring_links _ _ Hr) as Hl.
  pose proof (ring_nodup _ _ Hr) as Hnd.
  assert (HEAD ∉ l1 ++ i :: l2) as Hh by (intros Hin; by apply (ring_not_head _ _ _ Hr Hin)).
  rewrite <- app_assoc in Hl. cbn [app] in Hl.
  destruct (exists_last (l := HEAD :: l1)) as (a & x & Ha); [done|].
  destruct (l2 ++ [HEAD]) as [|y b] eqn:Hb; [by destruct l2|].
  destruct ((l1 ++ l2) ++ [HEAD]) as [|f m] eqn:Hm; [by destruct (l1 ++ l2)|].
  apply NoDup_app in Hnd as (Hnd1 & Hdis & (Hi2 & Hnd2)%NoDup_cons).
  assert (NoDup (a ++ [x])) as Hnda by (rewrite <- Ha; constructor; [set_solver|done]).
  assert (NoDup (y :: b)) as Hndb.
  { rewrite <- Hb. apply NoDup_app. split_and!; [done|set_solver|apply NoDup_singleton]. }
  assert (x ∈ HEAD :: l1) as Hx by (rewrite Ha; set_solver).
  assert (y ∈ l2 ++ [HEAD]) as Hy by (rewrite Hb; set_solver).
  assert (links (nxt (bufs s)) (prv (bufs s)) (a ++ x :: i :: y :: b)) as Hlx.
  { change (x :: i :: y :: b) with ([x] ++ i :: y :: b). rewrite app_assoc, <- Ha. done. }
  assert (nxt (bufs s) i = Some y /\ prv (bufs s) i = Some x) as [Hni Hpi].
  { apply links_app in Hlx as [_ Hlx]. apply links_cons in Hlx as (_ & Hp & Hlx).
    by apply links_cons in Hlx as (Hn & _). }
  apply links_unlink in Hlx;
    [|apply NoDup_app in Hnda; set_solver|rewrite <- Hb, removelast_snoc; set_solver
     |rewrite <- Ha; cbn [tail]; set_solver|by apply NoDup_cons in Hndb as [? _]].
  assert (a ++ x :: y :: b = HEAD :: f :: m) as Hlist.
  { rewrite <- Hm. change (x :: y :: b) with ([x] ++ y :: b). rewrite app_assoc, <- Ha, <- Hb.
    cbn [app]. by rewrite <- !app_assoc. }
  rewrite Hlist in Hlx.
  assert (NoDup (f :: m)) as Hndm.
  { rewrite <- Hm. apply NoDup_app. split_and!; [|set_solver|apply NoDup_singleton].
    apply NoDup_app. split_and!; [done|set_solver|done]. }
  assert (f ∈ (l1 ++ l2) ++ [HEAD]) as Hf by (rewrite Hm; set_solver).
  assert (i ∉ HEAD :: f :: m) as Him by (rewrite <- Hm; set_solver).
  assert ((<[x := Some y]> (nxt (bufs s))) HEAD = Some f) as Hnh by by apply links_cons in Hlx as (? & _).
  apply (links_insert _ _ HEAD f m i) in Hlx;
    [|done|rewrite <- Hm, removelast_snoc; set_solver|by apply NoDup_cons in Hndm as [? _]].
  (* the stores *)
  destruct (relinked_get _ _ _ _ i R0) as (bi & Hbi & Hni' & Hpi'); [apply Hrng; set_solver|].
  assert (b_next bi = y /\ b_prev bi = x) as [Eyi Exi] by (split; congruence).
  destruct (relinked_set_prev _ _ _ _ y x R0) as (s1 & E1 & R1); [apply Hrng; set_solver|].
  destruct (relinked_set_next _ _ _ _ x y R1) as (s2 & E2 & R2); [apply Hrng; set_solver|].
  destruct (relinked_get _ _ _ _ HEAD R2) as (h & Hbh & Hnh' & _); [apply Hrng; set_solver|].
  assert (b_next h = f) as Efh by congruence.
  destruct (relinked_get _ _ _ _ i R2) as (bi2 & Hbi2 & _); [apply Hrng; set_solver|].
  destruct (relinked_set _ _ _ _ i bi2 (fun b => b {{ b_next := f; b_prev := HEAD }}) R2 Hbi2)
    as (s3 & E3 & R3); [done|].
  destruct (relinked_set_prev _ _ _ _ f i R3) as (s4 & E4 & R4); [apply Hrng; set_solver|].
  destruct (relinked_set_next _ _ _ _ HEAD i R4) as (s5 & E5 & R5); [apply Hrng; set_solver|].
  destruct R5 as (bs & -> & Hv & Hn & Hp). exists bs. split.
  - unfold move_front. rewrite (bind_done _ _ _ _ _ (elem_ok bufs "buf" i bi s Hbi)), Eyi, Exi.
    rewrite (bind_done _ _ _ _ _ E1), (bind_done _ _ _ _ _ E2).
    rewrite (bind_done _ _ _ _ _ (elem_ok bufs "buf" HEAD h s2 Hbh)), Efh.
    rewrite (bind_done _ _ _ _ _ E3), (bind_done _ _ _ _ _ E4). done.
  - split; [|done]. split.
    + by rewrite (view_length _ _ Hv).
    + cbn [app]. rewrite Hm. eapply links_ext; [exact Hn|exact Hp|exact Hlx].
    + constructor; [set_solver|]. apply NoDup_app. split_and!; [done|set_solver|done].
    + intros j. rewrite <- (ring_all _ _ Hr). set_solver.
Qed.
