(* ===== verification/BioFacts.v ===== *)
(** The buffer cache as the rest of the kernel sees it: a block is read into a
    locked buffer, written back, released.

    [bc r h s] says that the cache of device [D] is well formed, that the
    current process holds the buffers [h] locked and no process another one,
    and that [r i] references to buffer [i] are not its own (pins).
    [content s b] is the current content of block [b], in the cache or on the
    disk.  With a buffer to spare, bread() gives a locked buffer with the
    content, and neither it nor brelse() changes what any block contains. *)

From stdpp Require Import functions.
From S2P Require Import Prelude Mem Riscv Locks Kalloc Vm Proc ProcFacts Kernel KernelFacts Sleeplock Bio BioRing.

(** ** Sleep locks of buffers *)

(** The process runs as [me] and holds no spin lock. *)
Record proc_ok (me : Z) (s : kernel) : Prop := {
  po_full : full_table (kp s);
  po_held : held s = ∅;
  po_me : exists p, geti (procs (kp s)) (cur (kp s)) = Some p /\ pid p = me;
}.

Lemma woke_proc_ok me ch s : proc_ok me s -> proc_ok me (woke ch s).
Proof.
  intros [Hf Hh (p & Hp & Hme)]. split.
  - unfold full_table in *. simpl. by rewrite length_imap.
  - done.
  - exists (woken ch (cur (kp s)) (cur (kp s)) p).
    change (procs (kp (woke ch s))) with
      (imap (fun j => woken ch (cur (kp s)) (Z.of_nat j)) (procs (kp s))).
    change (cur (kp (woke ch s))) with (cur (kp s)). rewrite geti_imap, Hp. simpl.
    rewrite Z2Nat.id by (apply geti_Some_lt in Hp; lia). split; [done|].
    unfold woken. by case_decide.
Qed.

Section ops.
Context `{Fuel} `{DiskDriver} (n : nat) (Hfuel : fuel = Datatypes.S n).

Lemma acquiresleep_eq me i x s :
  proc_ok me s -> geti (bufs s) i = Some x -> sl_locked (b_lock x) = 0 ->
  acquiresleep (BufLock i) s = Done tt (s {{ bufs ::= seti i (x {{ b_lock := SleepLock 1 me }}) }}).
Proof.
  intros [_ Hh (p & Hp & Hme)] Hx Hl. unfold acquiresleep.
  rewrite (bind_done _ _ _ _ _ (acquire_eq (sl_spin (BufLock i)) s ltac:(rewrite Hh; set_solver))).
  rewrite Hfuel. unfold while. erewrite bind_done.
  2: { apply loop_break. unfold getsl, getbuf. unfold bind.
       rewrite (elem_ok bufs "buf" i x (locked (sl_spin (BufLock i)) s)) by done. cbn [bindp ret].
       rewrite Hl. done. }
  rewrite (bind_done _ _ _ _ _ (kmyproc_eq (locked (sl_spin (BufLock i)) s))).
  erewrite bind_done by (apply (kgetp_ok _ p); exact Hp).
  unfold setsl. erewrite bind_done by (by apply (setbuf_ok i _ x)). rewrite Hme.
  set (s1 := s {{ bufs ::= seti i (x {{ b_lock := SleepLock 1 me }}) }}).
  change (release (sl_spin (BufLock i)) _) with
    (release (sl_spin (BufLock i)) (locked (sl_spin (BufLock i)) s1)).
  rewrite release_eq; [done|]. change (held s1) with (held s). rewrite Hh. set_solver.
Qed.

Lemma holdingsleep_eq me i x s :
  proc_ok me s -> geti (bufs s) i = Some x ->
  holdingsleep (BufLock i) s = Done (negb (sl_locked (b_lock x) =? 0) && (sl_pid (b_lock x) =? me)) s.
Proof.
  intros [_ Hh (p & Hp & Hme)] Hx. unfold holdingsleep.
  rewrite (bind_done _ _ _ _ _ (acquire_eq (sl_spin (BufLock i)) s ltac:(rewrite Hh; set_solver))).
  unfold getsl, getbuf. unfold bind at 1 2.
  rewrite (elem_ok bufs "buf" i x (locked (sl_spin (BufLock i)) s)) by done. cbn [bindp ret].
  rewrite (bind_done _ _ _ _ _ (kmyproc_eq (locked (sl_spin (BufLock i)) s))).
  assert (release (sl_spin (BufLock i)) (locked (sl_spin (BufLock i)) s) = Done tt s) as Hr.
  { apply release_eq. rewrite Hh. set_solver. }
  destruct (sl_locked (b_lock x) =? 0); cbn [negb andb].
  - unfold bind. cbn [bindp ret]. by rewrite Hr.
  - unfold bind. change (cur (kp (locked (sl_spin (BufLock i)) s))) with (cur (kp s)).
    rewrite (kgetp_ok (cur (kp s)) p) by exact Hp. cbn [bindp ret]. rewrite Hr. cbn [bindp]. by rewrite Hme.
Qed.

(** releasesleep() also wakes the processes that sleep on the lock. *)
Lemma releasesleep_eq me i x s :
  proc_ok me s -> geti (bufs s) i = Some x ->
  releasesleep (BufLock i) s =
    Done tt (woke (sl_chan (BufLock i)) (s {{ bufs ::= seti i (x {{ b_lock := SleepLock 0 0 }}) }})).
Proof.
  intros [Hf Hh _] Hx. unfold releasesleep.
  rewrite (bind_done _ _ _ _ _ (acquire_eq (sl_spin (BufLock i)) s ltac:(rewrite Hh; set_solver))).
  unfold setsl. erewrite bind_done by (by apply (setbuf_ok i _ x)).
  set (s1 := s {{ bufs ::= seti i (x {{ b_lock := SleepLock 0 0 }}) }}).
  match goal with |- bind _ _ ?t = _ => change t with (locked (sl_spin (BufLock i)) s1) end.
  erewrite bind_done.
  2: { apply kwakeup_eq; [exact Hf|]. intros j _.
       change (proc_lock j ∉ {[sl_spin (BufLock i)]} ∪ held s). rewrite Hh.
       rewrite elem_of_union, elem_of_singleton. intros [[=]|?]; set_solver. }
  change (woke ?c (locked ?l s1)) with (locked l (woke c s1)).
  apply release_eq. change (held (woke _ s1)) with (held s). rewrite Hh. set_solver.
Qed.


(** ** bget and bread *)

(** Buffer [x] after bget() found it, and after it took it for another block. *)
Definition claimed (me : Z) (x : buf) : buf :=
  x {{ b_refcnt := u32 (b_refcnt x + 1) }} {{ b_lock := SleepLock 1 me }}.
Definition recycled (me dev blockno : Z) (x : buf) : buf :=
  x {{ b_dev := dev; b_blockno := blockno; b_valid := 0; b_refcnt := 1 }} {{ b_lock := SleepLock 1 me }}.

Lemma proc_ok_bufs me s bs : proc_ok me s -> proc_ok me (s {{ bufs := bs }}).
Proof. intros [H1 H2 H3]. by split. Qed.

Lemma seti_seti_bufs (s : kernel) i x y :
  (s {{ bufs ::= seti i x }}) {{ bufs ::= seti i y }} = s {{ bufs ::= seti i y }}.
Proof. destruct s. simpl. by rewrite seti_same. Qed.

(** The end of bget(): the buffer [i], in state [x], is locked. *)
Lemma bget_lock me i x s :
  proc_ok me s -> is_Some (geti (bufs s) i) -> sl_locked (b_lock x) = 0 ->
  bind (setbuf i (fun _ => x)) (fun _ => bind (release bcache_lock) (fun _ =>
    bind (acquiresleep (BufLock i)) (fun _ => ret i))) (locked bcache_lock s)
  = Done i (s {{ bufs ::= seti i (x {{ b_lock := SleepLock 1 me }}) }}).
Proof.
  intros Hp [y Hy] Hl. erewrite bind_done by (by apply (setbuf_ok i _ y)).
  set (s1 := s {{ bufs ::= seti i x }}).
  match goal with |- bind _ _ ?t = _ => change t with (locked bcache_lock s1) end.
  erewrite bind_done.
  2: { apply release_eq. change (held s1) with (held s). rewrite (po_held _ _ Hp). set_solver. }
  erewrite bind_done.
  2: { apply (acquiresleep_eq me i x); [by apply proc_ok_bufs| |done].
       change (bufs s1) with (seti i x (bufs s)). apply geti_seti_eq. by eapply geti_Some_lt. }
  unfold s1. by rewrite seti_seti_bufs.
Qed.

Lemma bget_hit me order dev blockno i x s :
  proc_ok me s -> ring (bufs s) order -> search (is_block dev blockno) (bufs s) order = i ->
  i <> -1 -> geti (bufs s) i = Some x -> sl_locked (b_lock x) = 0 ->
  bget dev blockno s = Done i (s {{ bufs ::= seti i (claimed me x) }}).
Proof.
  intros Hp Hr Hs Hi Hx Hl. unfold bget.
  rewrite (bind_done _ _ _ _ _ (acquire_eq bcache_lock s ltac:(rewrite (po_held _ _ Hp); set_solver))).
  erewrite bind_done by (by apply (find_cached_eq _ _ order (locked bcache_lock s))).
  change (bufs (locked bcache_lock s)) with (bufs s). rewrite Hs, (proj2 (Z.eqb_neq _ _) Hi). cbn [negb].
  etransitivity; [|by apply (bget_lock me i (x {{ b_refcnt := u32 (b_refcnt x + 1) }}) s)].
  unfold bind at 1 4. rewrite !(setbuf_ok i _ x) by done. done.
Qed.

Lemma bget_miss me order dev blockno i x s :
  proc_ok me s -> ring (bufs s) order -> search (is_block dev blockno) (bufs s) order = -1 ->
  search unused (bufs s) (reverse order) = i -> i <> -1 ->
  geti (bufs s) i = Some x -> sl_locked (b_lock x) = 0 ->
  bget dev blockno s = Done i (s {{ bufs ::= seti i (recycled me dev blockno x) }}).
Proof.
  intros Hp Hr Hs Hf Hi Hx Hl. unfold bget.
  rewrite (bind_done _ _ _ _ _ (acquire_eq bcache_lock s ltac:(rewrite (po_held _ _ Hp); set_solver))).
  erewrite bind_done by (by apply (find_cached_eq _ _ order (locked bcache_lock s))).
  change (bufs (locked bcache_lock s)) with (bufs s). rewrite Hs.
  change (negb (-1 =? -1)) with false. cbv iota.
  erewrite bind_done by (by apply (find_free_eq order (locked bcache_lock s))).
  change (bufs (locked bcache_lock s)) with (bufs s). rewrite Hf, (proj2 (Z.eqb_neq _ _) Hi). cbn [negb].
  etransitivity;
    [|by apply (bget_lock me i (x {{ b_dev := dev; b_blockno := blockno; b_valid := 0; b_refcnt := 1 }}) s)].
  unfold bind at 1 4. rewrite !(setbuf_ok i _ x) by done. done.
Qed.

(** Filling the buffer that bget returned. *)
Definition filled (d : diskstate) (x : buf) : buf :=
  if b_valid x =? 0 then x {{ b_data := block d (b_blockno x) }} {{ b_valid := 1 }} else x.

Lemma bread_eq dev blockno i y s :
  bget dev blockno s = Done i (s {{ bufs ::= seti i y }}) -> is_Some (geti (bufs s) i) ->
  bread dev blockno s = Done i (s {{ bufs ::= seti i (filled (disk s) y) }}).
Proof.
  intros Hg [x Hx]. unfold bread. rewrite (bind_done _ _ _ _ _ Hg).
  set (s1 := s {{ bufs ::= seti i y }}).
  assert (geti (bufs s1) i = Some y) as Hy by (by apply geti_seti_eq; eapply geti_Some_lt).
  rewrite (bind_done _ _ _ _ _ (elem_ok bufs "buf" i y s1 Hy)). unfold filled.
  destruct (b_valid y =? 0) eqn:Hv; cbn [when].
  - unfold bind at 1 2. rewrite (disk_read i y) by done. cbn [bindp].
    rewrite (setbuf_ok i _ (y {{ b_data := block (disk s) (b_blockno y) }})).
    2: { unfold s1. simpl. rewrite seti_same. apply geti_seti_eq. by eapply geti_Some_lt. }
    cbn [bindp ret]. unfold s1. by rewrite !seti_seti_bufs.
  - done.
Qed.
End ops.

(** ** The cache's invariant *)

Definition bsize : nat := Z.to_nat BSIZE.

(** Another buffer [i]; other data in a buffer; one more write to the disk. *)
Definition with_buf (i : Z) (y : buf) (s : kernel) : kernel := s {{ bufs ::= seti i y }}.
Definition stored (data : list Z) (x : buf) : buf := x {{ b_data := data }}.
Definition with_write (b : Z) (data : list Z) (s : kernel) : kernel :=
  s {{ disk := (disk s) {{ d_writes ::= fun l => l ++ [(b, data)] }} }}.

Section cache.
Context (D me : Z).

(** Buffer [x] is for block [b], and holds its content. *)
Definition for_block (b : Z) (x : buf) : Prop := b_dev x = D /\ b_blockno x = b.
#[export] Instance for_block_dec b x : Decision (for_block b x).
Proof. unfold for_block. apply _. Defined.

(** The content of a block: in a valid buffer, or else on the disk. *)
Definition content (s : kernel) (b : Z) : list Z :=
  match list_find (fun x => for_block b x /\ b_valid x <> 0) (bufs s) with
  | Some (_, x) => b_data x
  | None => block (disk s) b
  end.

Record bc (r : Z -> Z) (h : gset Z) (s : kernel) : Prop := {
  bc_proc : proc_ok me s;
  bc_ring : exists order, ring (bufs s) order;
  bc_head : forall x, geti (bufs s) HEAD = Some x -> b_dev x <> D;
  bc_uniq : forall i j x y b, geti (bufs s) i = Some x -> geti (bufs s) j = Some y ->
    for_block b x -> for_block b y -> i = j;
  bc_ref : forall i x, geti (bufs s) i = Some x ->
    b_refcnt x = r i + (if decide (i ∈ h) then 1 else 0) /\ 0 <= r i < 2 ^ 31;
  bc_lock : forall i x, geti (bufs s) i = Some x ->
    if decide (i ∈ h) then b_lock x = SleepLock 1 me /\ b_dev x = D /\ b_valid x = 1
    else sl_locked (b_lock x) = 0;
  bc_clean : forall i x, geti (bufs s) i = Some x -> i ∉ h -> r i = 0 -> b_dev x = D ->
    b_valid x <> 0 -> b_data x = block (disk s) (b_blockno x);
  bc_len : forall i x, geti (bufs s) i = Some x -> length (b_data x) = bsize;
  bc_disk : forall b, length (block (disk s) b) = bsize;
  bc_range : forall i, i ∈ h -> 0 <= i < NBUF;
  bc_bool : forall i x, geti (bufs s) i = Some x -> b_valid x = 0 \/ b_valid x = 1;
}.

Lemma geti_lookup {A} (l : list A) i x : geti l i = Some x -> l !! Z.to_nat i = Some x.
Proof. unfold geti. by case_match. Qed.

Lemma geti_of_nat {A} (l : list A) i x : l !! i = Some x -> geti l (Z.of_nat i) = Some x.
Proof. intros Hi. unfold geti. by rewrite (proj2 (Z.leb_le _ _)), Nat2Z.id by lia. Qed.

(** The content of a block in the cache, and of one that is not. *)
Lemma content_hit r h s i x b :
  bc r h s -> geti (bufs s) i = Some x -> for_block b x -> b_valid x <> 0 -> content s b = b_data x.
Proof.
  intros Hi Hx Hb Hv. unfold content.
  destruct (list_find _ (bufs s)) as [[j y]|] eqn:Hf.
  - apply list_find_Some in Hf as (Hj & [Hb' Hv'] & _). apply geti_of_nat in Hj.
    assert (i = Z.of_nat j) as -> by (by eapply (bc_uniq _ _ _ Hi)). congruence.
  - rewrite list_find_None, Forall_forall in Hf. exfalso.
    apply (Hf x); [|done]. apply geti_lookup in Hx. by eapply list_elem_of_lookup_2.
Qed.

Lemma content_miss s b :
  (forall i x, geti (bufs s) i = Some x -> for_block b x -> b_valid x = 0) ->
  content s b = block (disk s) b.
Proof.
  intros Hm. unfold content. destruct (list_find _ (bufs s)) as [[j y]|] eqn:Hf; [|done].
  apply list_find_Some in Hf as (Hj & [Hb' Hv'] & _). apply geti_of_nat in Hj.
  by apply Hm in Hj.
Qed.

(** Is a block in the cache, validly? *)
Lemma content_cases r h s b :
  bc r h s ->
  (exists i x, geti (bufs s) i = Some x /\ for_block b x /\ b_valid x <> 0 /\ content s b = b_data x) \/
  ((forall i x, geti (bufs s) i = Some x -> for_block b x -> b_valid x = 0) /\
   content s b = block (disk s) b).
Proof.
  intros Hi. unfold content. destruct (list_find _ (bufs s)) as [[j y]|] eqn:Hf.
  - left. apply list_find_Some in Hf as (Hj & [Hb' Hv'] & _). apply geti_of_nat in Hj.
    by exists (Z.of_nat j), y.
  - right. split; [|done]. intros i x Hx Hb. rewrite list_find_None, Forall_forall in Hf.
    apply dec_stable. intros Hv. apply (Hf x); [|done].
    apply geti_lookup in Hx. by eapply list_elem_of_lookup_2.
Qed.

Lemma content_len r h s b : bc r h s -> length (content s b) = bsize.
Proof.
  intros Hi. destruct (content_cases r h s b Hi) as [(i & x & Hx & _ & _ & ->)|[_ ->]].
  - by apply (bc_len _ _ _ Hi i).
  - by apply (bc_disk _ _ _ Hi).
Qed.

(** The searches of bget. *)
Lemma search_Some P bs l i :
  search P bs l = i -> i <> -1 -> exists x, i ∈ l /\ geti bs i = Some x /\ P x = true.
Proof.
  induction l as [|j l IH]; simpl; [done|]. destruct (geti bs j) as [x|] eqn:Hx; [|done].
  destruct (P x) eqn:HP.
  - intros <- _. exists x. split_and!; [by left|done|done].
  - intros Hs Hi. destruct (IH Hs Hi) as (y & Hin & Hy). exists y. split; [by right|done].
Qed.

Lemma search_None P bs l i x :
  search P bs l = -1 -> (forall j, j ∈ l -> 0 <= j /\ is_Some (geti bs j)) ->
  i ∈ l -> geti bs i = Some x -> P x = false.
Proof.
  induction l as [|j l IH]; intros Hs Hl Hi Hx; [by apply elem_of_nil in Hi|].
  simpl in Hs. destruct (Hl j ltac:(by left)) as [Hj [y Hy]]. rewrite Hy in Hs.
  destruct (P y) eqn:HP; [lia|]. apply elem_of_cons in Hi as [->|Hi]; [congruence|].
  apply IH; try done. intros k Hk. apply Hl. by right.
Qed.

Lemma is_block_spec b x : is_block D b x = true <-> for_block b x.
Proof.
  unfold is_block, for_block. rewrite andb_true_iff, !Z.eqb_eq. done.
Qed.

(** ** Taking a buffer *)

Lemma geti_seti {A} (l : list A) i j x y :
  geti (seti i x l) j = Some y ->
  (j = i /\ y = x) \/ (j <> i /\ geti l j = Some y).
Proof.
  intros Hy. destruct (decide (j = i)) as [->|Hne].
  - left. split; [done|]. pose proof (geti_Some_lt _ _ _ Hy) as Hl. rewrite length_seti in Hl.
    rewrite geti_seti_eq in Hy by done. congruence.
  - right. rewrite geti_seti_ne in Hy by done. done.
Qed.

(** The valid buffers that satisfy [P] keep their blocks and their data; [kept]
    are those that are pinned or held. *)
Definition stable (P : Z -> Prop) (s s' : kernel) : Prop :=
  forall j x, geti (bufs s) j = Some x -> b_valid x <> 0 -> P j ->
    exists y, geti (bufs s') j = Some y /\ b_dev y = b_dev x /\ b_blockno y = b_blockno x /\
      b_valid y <> 0 /\ b_data y = b_data x.

Definition kept (r : Z -> Z) (h : gset Z) (j : Z) : Prop := 0 < r j \/ j ∈ h.

Section take.
Context (r : Z -> Z) (h : gset Z) (s : kernel) (b i : Z) (x y : buf).
Context (Hi : bc r h s) (Hrange : 0 <= i < NBUF) (Hfree : i ∉ h) (Hx : geti (bufs s) i = Some x).
Context (Hy : for_block b y) (Hv : b_valid y = 1) (Hlock : b_lock y = SleepLock 1 me).
Context (Href : b_refcnt y = r i + 1) (Hdata : b_data y = content s b).
Context (Hn : b_next y = b_next x) (Hp : b_prev y = b_prev x).
Context (Hold : for_block b x \/
  (r i = 0 /\ forall j z, geti (bufs s) j = Some z -> ~ for_block b z)).

Let s' : kernel := with_buf i y s.

Lemma take_other j z :
  geti (bufs s') j = Some z -> (j = i /\ z = y) \/ (j <> i /\ geti (bufs s) j = Some z).
Proof. apply geti_seti. Qed.

Lemma take_uniq j z b' : geti (bufs s) j = Some z -> j <> i -> for_block b' z -> ~ for_block b' y.
Proof.
  intros Hz Hne Hb [_ Hb']. destruct Hy as [_ Hyb]. assert (b' = b) as -> by congruence.
  destruct Hold as [Hxb|[_ Hno]].
  - apply Hne. symmetry. by eapply (bc_uniq _ _ _ Hi i j x z b).
  - by apply (Hno j z).
Qed.

Lemma take_bc : bc r ({[i]} ∪ h) s'.
Proof.
  destruct (bc_ring _ _ _ Hi) as [order Hr].
  assert (i <> HEAD) as HiH by (unfold HEAD; lia).
  split.
  - apply proc_ok_bufs, (bc_proc _ _ _ Hi).
  - exists order. by apply (ring_seti _ _ i x).
  - intros z [[Heq _]|[_ Hz]]%take_other; [congruence|]. by apply (bc_head _ _ _ Hi).
  - intros j k z w b' [[-> ->]|[Hj Hz]]%take_other [[-> ->]|[Hk Hw]]%take_other Hb1 Hb2;
      [done|by destruct (take_uniq k w b')|by destruct (take_uniq j z b')|].
    by eapply (bc_uniq _ _ _ Hi).
  - intros j z [[-> ->]|[Hj Hz]]%take_other.
    + rewrite decide_True by set_solver. split; [done|]. by apply (bc_ref _ _ _ Hi i x).
    + destruct (bc_ref _ _ _ Hi j z Hz) as [-> Hrj]. split; [|done].
      destruct (decide (j ∈ h)); [rewrite decide_True by set_solver|rewrite decide_False by set_solver]; done.
  - intros j z [[-> ->]|[Hj Hz]]%take_other.
    + rewrite decide_True by set_solver. split_and!; [done|apply Hy|done].
    + pose proof (bc_lock _ _ _ Hi j z Hz) as Hl.
      destruct (decide (j ∈ h)); [rewrite decide_True by set_solver|rewrite decide_False by set_solver]; done.
  - intros j z [[-> ->]|[Hj Hz]]%take_other Hjh; [set_solver|]. apply (bc_clean _ _ _ Hi j z Hz). set_solver.
  - intros j z [[-> ->]|[Hj Hz]]%take_other.
    + rewrite Hdata. by apply (content_len r h).
    + by apply (bc_len _ _ _ Hi j).
  - apply (bc_disk _ _ _ Hi).
  - intros j [->%elem_of_singleton|Hj]%elem_of_union; [done|]. by apply (bc_range _ _ _ Hi).
  - intros j z [[-> ->]|[Hj Hz]]%take_other; [by right|]. by apply (bc_bool _ _ _ Hi j).
Qed.

Lemma take_here : geti (bufs s') i = Some y.
Proof. apply geti_seti_eq. by eapply geti_Some_lt. Qed.

Lemma take_content b' : content s' b' = content s b'.
Proof.
  pose proof take_bc as Hi'. destruct (decide (b' = b)) as [->|Hne].
  { rewrite (content_hit _ _ _ i y b Hi' take_here Hy) by lia. done. }
  destruct (content_cases _ _ _ b' Hi) as [(j & z & Hz & Hb' & Hvz & ->)|[Hmiss ->]].
  - destruct (decide (j = i)) as [->|Hji].
    + assert (z = x) as -> by congruence. destruct Hold as [[_ ?]|[Hri _]].
      { destruct Hb' as [_ ?]. congruence. }
      rewrite (bc_clean _ _ _ Hi i x) by (done || apply Hb'). rewrite (proj2 Hb').
      change (block (disk s) b') with (block (disk s') b'). apply content_miss.
      intros k w [[-> ->]|[Hk Hw]]%take_other Hb2; [destruct Hb2, Hy; congruence|].
      exfalso. apply Hk. by eapply (bc_uniq _ _ _ Hi k i w x b').
    + apply (content_hit r ({[i]} ∪ h) s' j z b' Hi'); try done. unfold s', with_buf. simpl. by rewrite geti_seti_ne.
  - change (block (disk s) b') with (block (disk s') b'). apply content_miss.
    intros k w [[-> ->]|[Hk Hw]]%take_other Hb2; [|by eapply Hmiss].
    destruct Hb2, Hy. congruence.
Qed.

Lemma take_stable : stable (kept r h) s s'.
Proof.
  intros j z Hz Hvz Hj. destruct (decide (j = i)) as [->|Hne].
  - assert (z = x) as -> by congruence. exists y.
    destruct Hold as [Hxb|[Hri _]]; [|destruct Hj; [lia|done]].
    destruct Hxb as [Hd Hb], Hy as [Hd' Hb']. split_and!; [apply take_here|congruence..|lia|].
    rewrite Hdata. by apply (content_hit r h s i).
  - exists z. unfold s', with_buf. simpl. by rewrite geti_seti_ne.
Qed.
End take.

(** ** The operations on blocks *)

Section ops.
Context `{Fuel} `{DiskDriver} (n : nat) (Hfuel : fuel = Datatypes.S n).

(** Buffer [i], now in state [y], is the locked buffer of block [b]. *)
Record taken (r : Z -> Z) (h : gset Z) (s : kernel) (b i : Z) (y : buf) : Prop := {
  tk_range : 0 <= i < NBUF;
  tk_new : i ∉ h;
  tk_block : for_block b y;
  tk_valid : b_valid y = 1;
  tk_data : b_data y = content s b;
  tk_bc : bc r ({[i]} ∪ h) (with_buf i y s);
  tk_content : forall b', content (with_buf i y s) b' = content s b';
  tk_stable : stable (kept r h) s (with_buf i y s);
  tk_clean : r i = 0 -> content s b = block (disk s) b;
}.

Lemma order_ok s order :
  ring (bufs s) order -> forall j, j ∈ order -> 0 <= j /\ is_Some (geti (bufs s) j).
Proof.
  intros Hr j Hj%(ring_all _ _ Hr). split; [lia|]. apply (ring_geti _ order); [done|lia].
Qed.

Lemma in_order r h s order j z b :
  bc r h s -> ring (bufs s) order -> geti (bufs s) j = Some z -> for_block b z -> j ∈ order.
Proof.
  intros Hi Hr Hz Hb. apply (ring_all _ _ Hr). pose proof (geti_Some_lt _ _ _ Hz) as Hlt.
  rewrite (ring_len _ _ Hr) in Hlt. assert (j <> HEAD); [|unfold HEAD in *; lia].
  intros ->. by apply (bc_head _ _ _ Hi z Hz), Hb.
Qed.

(** The block is not cached: the least recently used free buffer is taken. *)
Lemma bread_miss r h s order b :
  bc r h s -> ring (bufs s) order -> search (is_block D b) (bufs s) order = -1 ->
  (exists j, (0 <= j < NBUF) /\ r j = 0 /\ j ∉ h) ->
  exists i y, bread D b s = Done i (with_buf i y s) /\ taken r h s b i y.
Proof.
  intros Hi Hr Hs (f & Hf & Hrf & Hfh). pose proof (order_ok s order Hr) as Hall.
  assert (forall j z, geti (bufs s) j = Some z -> ~ for_block b z) as Hno.
  { intros j z Hz Hb. pose proof (in_order _ _ _ _ _ _ _ Hi Hr Hz Hb) as Hj.
    apply is_block_spec in Hb. by rewrite (search_None _ _ _ _ _ Hs Hall Hj Hz) in Hb. }
  assert (search unused (bufs s) (reverse order) <> -1) as Hu.
  { intros Hu. destruct (ring_geti _ _ f Hr) as [xf Hxf]; [lia|].
    assert (unused xf = false) as Hun.
    { eapply search_None; [exact Hu| | |exact Hxf].
      - intros j Hj. apply Hall. by apply elem_of_reverse.
      - apply elem_of_reverse. by apply (ring_all _ _ Hr). }
    destruct (bc_ref _ _ _ Hi f xf Hxf) as [Hrc _]. rewrite decide_False in Hrc by done.
    unfold unused in Hun. by rewrite Hrc, Hrf in Hun. }
  destruct (search_Some _ _ _ _ eq_refl Hu) as (x & Hin & Hx & Hun).
  set (i := search unused (bufs s) (reverse order)) in *.
  apply elem_of_reverse, (ring_all _ _ Hr) in Hin.
  destruct (bc_ref _ _ _ Hi i x Hx) as [Hrc Hri]. unfold unused in Hun. apply Z.eqb_eq in Hun.
  assert ((i ∉ h) /\ r i = 0) as [Hih Hri0] by (case_decide; [lia|split; [done|lia]]).
  pose proof (bc_lock _ _ _ Hi i x Hx) as Hl. rewrite decide_False in Hl by done.
  set (y := filled (disk s) (recycled me D b x)).
  assert (b_data y = content s b) as Hd.
  { symmetry. apply (content_miss s b). intros j z Hz Hb. by destruct (Hno j z). }
  assert (b_refcnt y = r i + 1) as Hry by (rewrite Hri0; done).
  assert (for_block b x \/ (r i = 0 /\ forall j z, geti (bufs s) j = Some z -> ~ for_block b z))
    as Hold by by right.
  exists i, y. split.
  - apply bread_eq; [|done]. by apply (bget_miss n Hfuel me order D b i x s (bc_proc _ _ _ Hi) Hr).
  - split; try done.
    + by apply (take_bc r h s b i x y).
    + by apply (take_content r h s b i x y).
    + by apply (take_stable r h s b i x y).
Qed.

(** It is cached, in a buffer the process does not hold. *)
Lemma bread_hit r h s order b i :
  bc r h s -> ring (bufs s) order -> search (is_block D b) (bufs s) order = i -> i <> -1 ->
  (forall j x, j ∈ h -> geti (bufs s) j = Some x -> ~ for_block b x) ->
  exists y, bread D b s = Done i (with_buf i y s) /\ taken r h s b i y.
Proof.
  intros Hi Hr Hs Hne Hheld. destruct (search_Some _ _ _ _ Hs Hne) as (x & Hin & Hx & Hb).
  apply is_block_spec in Hb. apply (ring_all _ _ Hr) in Hin.
  assert (i ∉ h) as Hih by (intros Hih; by apply (Hheld i x)).
  destruct (bc_ref _ _ _ Hi i x Hx) as [Hrc Hri]. rewrite decide_False in Hrc by done.
  pose proof (bc_lock _ _ _ Hi i x Hx) as Hl. rewrite decide_False in Hl by done.
  set (y := filled (disk s) (claimed me x)).
  assert (b_data y = content s b) as Hd.
  { unfold y, filled. change (b_valid (claimed me x)) with (b_valid x).
    destruct (Z.eqb_spec (b_valid x) 0) as [Hv|Hv].
    - symmetry. change (content s b = block (disk s) (b_blockno x)). rewrite (proj2 Hb).
      apply content_miss. intros j z Hz Hbz.
      assert (j = i) as -> by (by eapply (bc_uniq _ _ _ Hi)). congruence.
    - symmetry. by apply (content_hit r h s i x b). }
  assert (b_refcnt y = r i + 1) as Hry.
  { unfold y, filled. case_match; change (u32 (b_refcnt x + 1) = r i + 1);
      rewrite Hrc, u32_small; lia. }
  assert (for_block b y /\ b_lock y = SleepLock 1 me /\ b_next y = b_next x /\ b_prev y = b_prev x)
    as (Hby & Hly & Hny & Hpy) by (unfold y, filled; by case_match).
  assert (b_valid y = 1) as Hvy.
  { unfold y, filled. change (b_valid (claimed me x)) with (b_valid x).
    destruct (Z.eqb_spec (b_valid x) 0); [done|]. by destruct (bc_bool _ _ _ Hi i x Hx). }
  exists y. split.
  - apply bread_eq; [|done]. by apply (bget_hit n Hfuel me order D b i x s (bc_proc _ _ _ Hi) Hr).
  - split; try done.
    + apply (take_bc r h s b i x y); try done. by left.
    + apply (take_content r h s b i x y); try done. by left.
    + apply (take_stable r h s b i x y); try done. by left.
    + intros Hr0. destruct (decide (b_valid x = 0)) as [Hv|Hv].
      * apply content_miss. intros j z Hz Hbz.
        assert (j = i) as -> by (by eapply (bc_uniq _ _ _ Hi)). congruence.
      * rewrite (content_hit r h s i x b Hi Hx Hb Hv), (bc_clean _ _ _ Hi i x); try done; [|apply Hb].
        by rewrite (proj2 Hb).
Qed.

(** bread() with a buffer to spare, of a block the process does not hold. *)
Lemma bread_spec r h s b :
  bc r h s ->
  (forall j x, j ∈ h -> geti (bufs s) j = Some x -> ~ for_block b x) ->
  (exists j, (0 <= j < NBUF) /\ r j = 0 /\ j ∉ h) ->
  exists i y, bread D b s = Done i (with_buf i y s) /\ taken r h s b i y.
Proof.
  intros Hi Hheld Hfree. destruct (bc_ring _ _ _ Hi) as [order Hr].
  destruct (decide (search (is_block D b) (bufs s) order = -1)) as [Hs|Hs].
  - by apply (bread_miss _ _ _ order).
  - eexists. by apply (bread_hit r h s order b).
Qed.

(** bread() of a block that is cached needs no other buffer. *)
Lemma bread_cached r h s b :
  bc r h s ->
  (forall j x, j ∈ h -> geti (bufs s) j = Some x -> ~ for_block b x) ->
  (exists j z, geti (bufs s) j = Some z /\ for_block b z) ->
  exists i y, bread D b s = Done i (with_buf i y s) /\ taken r h s b i y.
Proof.
  intros Hi Hheld (j & z & Hz & Hb). destruct (bc_ring _ _ _ Hi) as [order Hr].
  eexists. apply (bread_hit r h s order b); [done..| |done]. intros Hs.
  pose proof (in_order _ _ _ _ _ _ _ Hi Hr Hz Hb) as Hj. apply is_block_spec in Hb.
  by rewrite (search_None _ _ _ _ _ Hs (order_ok s order Hr) Hj Hz) in Hb.
Qed.

End ops.

(** ** Stores into a held buffer *)

(** A held buffer, and where its block's content is. *)
Lemma held_content r h s i x b :
  bc r h s -> i ∈ h -> geti (bufs s) i = Some x -> b_blockno x = b ->
  for_block b x /\ content s b = b_data x.
Proof.
  intros Hi Hih Hx Hb. pose proof (bc_lock _ _ _ Hi i x Hx) as Hl. rewrite decide_True in Hl by done.
  destruct Hl as (_ & Hd & Hv). assert (for_block b x) as Hfb by done. split; [done|].
  apply (content_hit r h s i x b); [done..|lia].
Qed.

(** A store into a held buffer. *)
Section store.
Context (r : Z -> Z) (h : gset Z) (s : kernel) (b i : Z) (x : buf) (data : list Z).
Context (Hi : bc r h s) (Hh : i ∈ h) (Hx : geti (bufs s) i = Some x) (Hb : b_blockno x = b).
Context (Hlen : length data = bsize).

Lemma store_bc : bc r h (with_buf i (stored data x) s).
Proof.
  destruct (bc_ring _ _ _ Hi) as [order Hr]. pose proof (bc_range _ _ _ Hi i Hh) as Hrng.
  split.
  - apply proc_ok_bufs, (bc_proc _ _ _ Hi).
  - exists order. by apply (ring_seti _ _ i x).
  - intros z [[Heq _]|[_ Hz]]%geti_seti; [unfold HEAD in Heq; lia|]. by apply (bc_head _ _ _ Hi).
  - intros j k z w b' [[-> ->]|[Hj Hz]]%geti_seti [[-> ->]|[Hk Hw]]%geti_seti Hb1 Hb2; [done|..];
      by eapply (bc_uniq _ _ _ Hi).
  - intros j z [[-> ->]|[Hj Hz]]%geti_seti; [by apply (bc_ref _ _ _ Hi i x)|by apply (bc_ref _ _ _ Hi)].
  - intros j z [[-> ->]|[Hj Hz]]%geti_seti; [by apply (bc_lock _ _ _ Hi i x)|by apply (bc_lock _ _ _ Hi)].
  - intros j z [[-> ->]|[Hj Hz]]%geti_seti Hjh; [done|]. by apply (bc_clean _ _ _ Hi).
  - intros j z [[-> ->]|[Hj Hz]]%geti_seti; [done|]. by apply (bc_len _ _ _ Hi j).
  - apply (bc_disk _ _ _ Hi).
  - apply (bc_range _ _ _ Hi).
  - intros j z [[-> ->]|[Hj Hz]]%geti_seti; [by apply (bc_bool _ _ _ Hi i x)|by apply (bc_bool _ _ _ Hi j)].
Qed.

Lemma store_content b' :
  content (with_buf i (stored data x) s) b' = if decide (b' = b) then data else content s b'.
Proof.
  pose proof store_bc as Hi'. set (s' := with_buf i (stored data x) s) in *.
  assert (geti (bufs s') i = Some (stored data x)) as Hx'.
  { apply geti_seti_eq. by eapply geti_Some_lt. }
  case_decide as Hd.
  - subst b'. by apply (held_content r h s' i (stored data x) b Hi' Hh Hx').
  - destruct (content_cases _ _ _ b' Hi) as [(j & z & Hz & Hb' & Hvz & ->)|[Hmiss ->]].
    + assert (j <> i) as Hji by (intros ->; destruct Hb'; congruence).
      apply (content_hit r h s' j z b' Hi'); try done. unfold s', with_buf. simpl. by rewrite geti_seti_ne.
    + change (block (disk s) b') with (block (disk s') b'). apply content_miss.
      intros k w [[-> ->]|[Hk Hw]]%geti_seti Hb2; [|by eapply Hmiss].
      destruct Hb2 as [_ Hb2]. change (b_blockno x = b') in Hb2. congruence.
Qed.
End store.

Lemma bstore_eq off bytes i x s :
  geti (bufs s) i = Some x ->
  bstore i off bytes s = Done tt (with_buf i (stored (splice off bytes (b_data x)) x) s).
Proof. intros Hx. unfold bstore. by rewrite (setbuf_ok i _ x). Qed.

(** ** Writing a held buffer to the disk *)

Lemma last_write_app ws ws' b d : last_write (ws ++ ws') b d = last_write ws' b (last_write ws b d).
Proof. revert d. induction ws as [|[b1 v] ws IH]; intros d; simpl; [done|]. apply IH. Qed.

Lemma block_write b data s b' :
  block (disk (with_write b data s)) b' = if decide (b' = b) then data else block (disk s) b'.
Proof.
  change (last_write (d_writes (disk s) ++ [(b, data)]) b' (d_init (disk s) b') =
    if decide (b' = b) then data else block (disk s) b').
  rewrite last_write_app. cbn [last_write]. unfold block.
  destruct (Z.eqb_spec b b'), (decide (b' = b)); congruence.
Qed.

Section write.
Context `{Fuel} `{DiskDriver} (n : nat) (Hfuel : fuel = Datatypes.S n).

Lemma bwrite_eq r h s i x :
  bc r h s -> i ∈ h -> geti (bufs s) i = Some x ->
  bwrite i s = Done tt (with_write (b_blockno x) (b_data x) s).
Proof.
  intros Hi Hih Hx. pose proof (bc_lock _ _ _ Hi i x Hx) as Hl. rewrite decide_True in Hl by done.
  destruct Hl as (Hl & _ & _). unfold bwrite.
  rewrite (bind_done _ _ _ _ _ (holdingsleep_eq n Hfuel me i x s (bc_proc _ _ _ Hi) Hx)), Hl. simpl.
  rewrite Z.eqb_refl. cbv iota. cbn [negb]. by rewrite (disk_write i x).
Qed.

End write.

Lemma bwrite_bc r h s i x :
  bc r h s -> i ∈ h -> geti (bufs s) i = Some x ->
  bc r h (with_write (b_blockno x) (b_data x) s) /\
  forall b', content (with_write (b_blockno x) (b_data x) s) b' = content s b'.
Proof.
  intros Hi Hih Hx. set (s' := with_write (b_blockno x) (b_data x) s).
  destruct (held_content r h s i x _ Hi Hih Hx eq_refl) as [Hfb Hcx].
  assert (bc r h s') as Hi'.
  { destruct Hi as [H1 H2 H3 H4 H5 H6 H7 H8 H9 H10 H11]. split; try done.
    - destruct H1. by split.
    - intros j z Hz Hjh Hr0 Hd Hv. unfold s'. rewrite block_write. case_decide as Heq; [|by apply (H7 j)].
      exfalso. apply Hjh. by rewrite <- (H4 i j x z (b_blockno x) Hx Hz Hfb).
    - intros b. unfold s'. rewrite block_write. case_decide; [|done]. by apply (H8 i). }
  split; [done|]. intros b'.
  destruct (content_cases _ _ _ b' Hi) as [(j & z & Hz & Hb' & Hvz & ->)|[Hmiss ->]].
  - by apply (content_hit r h s' j z b' Hi').
  - transitivity (block (disk s') b').
    + by apply content_miss.
    + unfold s'. rewrite block_write. case_decide as Heq; [|done]. subst.
      pose proof (Hmiss i x Hx Hfb). pose proof (bc_lock _ _ _ Hi i x Hx) as Hl.
      rewrite decide_True in Hl by done. lia.
Qed.

(** ** Giving a buffer back *)

(** The links do not matter, nor does who waits. *)
Lemma view_geti bs bs' j z :
  view <$> bs' = view <$> bs -> geti bs j = Some z ->
  exists z', geti bs' j = Some z' /\ view z' = view z.
Proof.
  intros Hv Hz. unfold geti in *. case_match; [|done].
  assert ((view <$> bs') !! Z.to_nat j = Some (view z)) as Hl.
  { rewrite Hv, list_lookup_fmap, Hz. done. }
  rewrite list_lookup_fmap in Hl. destruct (bs' !! Z.to_nat j) as [z'|]; [|done].
  exists z'. split; [done|]. by apply (inj Some).
Qed.

Section same.
Context (r : Z -> Z) (h : gset Z) (s s' : kernel).
Context (Hi : bc r h s) (Hv : view <$> bufs s' = view <$> bufs s).
Context (Hr : exists order, ring (bufs s') order) (Hp : proc_ok me s') (Hd : disk s' = disk s).

Lemma same_back j z : geti (bufs s') j = Some z -> exists z', geti (bufs s) j = Some z' /\ view z' = view z.
Proof. apply (view_geti (bufs s') (bufs s)). by rewrite Hv. Qed.

Lemma same_bc : bc r h s'.
Proof.
  split; try done.
  - intros z (z' & Hz & Hvz)%same_back. pose proof (bc_head _ _ _ Hi z' Hz). unfold view in Hvz. congruence.
  - intros j k z w b (z' & Hz & Hvz)%same_back (w' & Hw & Hvw)%same_back [Hb1 Hb2] [Hb3 Hb4].
    unfold view in *. apply (bc_uniq _ _ _ Hi j k z' w' b); try done; split; congruence.
  - intros j z (z' & Hz & Hvz)%same_back. pose proof (bc_ref _ _ _ Hi j z' Hz). unfold view in *.
    by replace (b_refcnt z) with (b_refcnt z') by congruence.
  - intros j z (z' & Hz & Hvz)%same_back. pose proof (bc_lock _ _ _ Hi j z' Hz). unfold view in *.
    replace (b_lock z) with (b_lock z') by congruence. replace (b_dev z) with (b_dev z') by congruence.
    by replace (b_valid z) with (b_valid z') by congruence.
  - intros j z (z' & Hz & Hvz)%same_back Hjh Hrj Hdz Hvl. unfold view in *. rewrite Hd.
    replace (b_data z) with (b_data z') by congruence. replace (b_blockno z) with (b_blockno z') by congruence.
    apply (bc_clean _ _ _ Hi j z'); congruence.
  - intros j z (z' & Hz & Hvz)%same_back. unfold view in *.
    replace (b_data z) with (b_data z') by congruence. by apply (bc_len _ _ _ Hi j).
  - rewrite Hd. apply (bc_disk _ _ _ Hi).
  - apply (bc_range _ _ _ Hi).
  - intros j z (z' & Hz & Hvz)%same_back. unfold view in *.
    replace (b_valid z) with (b_valid z') by congruence. by apply (bc_bool _ _ _ Hi j).
Qed.

Lemma same_content b : content s' b = content s b.
Proof.
  destruct (content_cases _ _ _ b Hi) as [(j & z & Hz & Hb & Hvl & ->)|[Hm ->]].
  - destruct (view_geti (bufs s) (bufs s') j z Hv Hz) as (z' & Hz' & Hvz). unfold view in *.
    rewrite (content_hit r h s' j z' b same_bc Hz'); [congruence| |congruence].
    destruct Hb. split; congruence.
  - rewrite <- Hd. apply content_miss. intros j z (z' & Hz & Hvz)%same_back [Hb1 Hb2]. unfold view in *.
    replace (b_valid z) with (b_valid z') by congruence. apply (Hm j z' Hz). split; congruence.
Qed.

Lemma same_stable P : stable P s s'.
Proof.
  intros j z Hz Hvl _. destruct (view_geti (bufs s) (bufs s') j z Hv Hz) as (z' & Hz' & Hvz).
  unfold view in *. exists z'. split_and!; congruence.
Qed.
End same.

(** Buffer [x] unlocked and with one reference less, or only the latter. *)
Definition dropped (x : buf) : buf := x {{ b_refcnt := u32 (b_refcnt x - 1) }}.
Definition unlocked (x : buf) : buf := x {{ b_lock := SleepLock 0 0 }}.

(** Less references: the process's own ([h']), or a pin ([r']). *)
Section drop.
Context (r r' : Z -> Z) (h h' : gset Z) (s : kernel) (i : Z) (x y : buf).
Context (Hi : bc r h s) (Hih : i ∈ h) (Hx : geti (bufs s) i = Some x).
Context (Hview : b_valid y = b_valid x /\ b_dev y = b_dev x /\ b_blockno y = b_blockno x /\
  b_data y = b_data x /\ b_next y = b_next x /\ b_prev y = b_prev x).
Context (Hsub : forall j, j ∈ h' -> j ∈ h) (Hother : forall j, j <> i -> r' j = r j /\ (j ∈ h <-> j ∈ h')).
Context (Href : b_refcnt y = r' i + (if decide (i ∈ h') then 1 else 0)) (Hr' : 0 <= r' i < 2 ^ 31).
Context (Hlock : if decide (i ∈ h') then b_lock y = b_lock x else sl_locked (b_lock y) = 0).
Context (Hclean : i ∉ h' -> r' i = 0 -> b_data x = block (disk s) (b_blockno x)).

Lemma drop_bc : bc r' h' (with_buf i y s).
Proof.
  destruct (bc_ring _ _ _ Hi) as [order Hr]. pose proof (bc_range _ _ _ Hi i Hih) as Hrng.
  destruct Hview as (Hv & Hd & Hb & Hda & Hn & Hp).
  split.
  - apply proc_ok_bufs, (bc_proc _ _ _ Hi).
  - exists order. by apply (ring_seti _ _ i x).
  - intros z [[Heq _]|[_ Hz]]%geti_seti; [unfold HEAD in Heq; lia|]. by apply (bc_head _ _ _ Hi).
  - intros j k z w b [[-> ->]|[Hj Hz]]%geti_seti [[-> ->]|[Hk Hw]]%geti_seti [? ?] [? ?]; [done|..];
      (eapply (bc_uniq _ _ _ Hi _ _ _ _ b); [eassumption|eassumption|split; congruence|split; congruence]).
  - intros j z [[-> ->]|[Hj Hz]]%geti_seti; [done|].
    destruct (Hother j Hj) as [-> Hjh]. destruct (bc_ref _ _ _ Hi j z Hz) as [-> Hrj]. split; [|done].
    f_equal. by apply decide_ext.
  - intros j z [[-> ->]|[Hj Hz]]%geti_seti.
    + pose proof (bc_lock _ _ _ Hi i x Hx) as Hl. rewrite decide_True in Hl by done.
      case_decide; [|done]. rewrite Hlock, Hd, Hv. done.
    + pose proof (bc_lock _ _ _ Hi j z Hz) as Hl. destruct (Hother j Hj) as [_ Hjh].
      destruct (decide (j ∈ h)), (decide (j ∈ h')); tauto.
  - intros j z [[-> ->]|[Hj Hz]]%geti_seti Hjh Hr0 Hdz Hvz.
    + rewrite Hda, Hb. by apply Hclean.
    + destruct (Hother j Hj) as [Hrj Hjh']. apply (bc_clean _ _ _ Hi j z); try done; [tauto|congruence].
  - intros j z [[-> ->]|[Hj Hz]]%geti_seti; [rewrite Hda; by apply (bc_len _ _ _ Hi i)|].
    by apply (bc_len _ _ _ Hi j).
  - apply (bc_disk _ _ _ Hi).
  - intros j Hj. by apply (bc_range _ _ _ Hi), Hsub.
  - intros j z [[-> ->]|[Hj Hz]]%geti_seti; [rewrite Hv; by apply (bc_bool _ _ _ Hi i)|].
    by apply (bc_bool _ _ _ Hi j).
Qed.

Lemma drop_content b : content (with_buf i y s) b = content s b.
Proof.
  pose proof drop_bc as Hi'. set (s' := with_buf i y s) in *.
  destruct Hview as (Hv & Hd & Hb & Hda & _ & _).
  assert (geti (bufs s') i = Some y) as Hy by (apply geti_seti_eq; by eapply geti_Some_lt).
  destruct (content_cases _ _ _ b Hi) as [(j & z & Hz & [Hb1 Hb2] & Hvl & ->)|[Hm ->]].
  - destruct (decide (j = i)) as [->|Hne].
    + assert (z = x) as -> by congruence.
      rewrite (content_hit r' h' s' i y b Hi' Hy); [done|split; congruence|congruence].
    + apply (content_hit r' h' s' j z b Hi'); try done. unfold s', with_buf. simpl. by rewrite geti_seti_ne.
  - change (block (disk s) b) with (block (disk s') b). apply content_miss.
    intros k w [[-> ->]|[Hk Hw]]%geti_seti [Hb1 Hb2]; [|by eapply Hm].
    rewrite Hv. apply (Hm i x Hx). split; congruence.
Qed.

Lemma drop_stable P : stable P s (with_buf i y s).
Proof.
  destruct Hview as (Hv & Hd & Hb & Hda & _ & _). intros j z Hz Hvl _.
  destruct (decide (j = i)) as [->|Hne].
  - assert (z = x) as -> by congruence. exists y.
    split_and!; [apply geti_seti_eq; by eapply geti_Some_lt|done|done|congruence|done].
  - exists z. unfold with_buf. simpl. by rewrite geti_seti_ne.
Qed.
End drop.

Section release.
Context `{Fuel} `{DiskDriver} (n : nat) (Hfuel : fuel = Datatypes.S n).

Lemma brelse_eq r h s i x :
  bc r h s -> i ∈ h -> geti (bufs s) i = Some x ->
  exists bs, brelse i s = Done tt ((woke (sl_chan (BufLock i)) s) {{ bufs := bs }}) /\
    view <$> bs = view <$> seti i (dropped (unlocked x)) (bufs s) /\ (exists order, ring bs order).
Proof.
  intros Hi Hih Hx. pose proof (bc_lock _ _ _ Hi i x Hx) as Hl. rewrite decide_True in Hl by done.
  destruct Hl as (Hl & _ & _). pose proof (bc_proc _ _ _ Hi) as Hp.
  destruct (bc_ring _ _ _ Hi) as [order Hr]. pose proof (bc_range _ _ _ Hi i Hih) as Hrng.
  assert (i ∈ order) as Hio by by apply (ring_all _ _ Hr).
  unfold brelse. rewrite (bind_done _ _ _ _ _ (holdingsleep_eq n Hfuel me i x s Hp Hx)), Hl. cbn [sl_locked sl_pid].
  change (negb (1 =? 0)) with true. rewrite Z.eqb_refl. cbn [andb negb].
  rewrite (bind_done _ _ _ _ _ (releasesleep_eq n Hfuel me i x s Hp Hx)).
  set (s1 := woke (sl_chan (BufLock i)) (s {{ bufs ::= seti i (x {{ b_lock := SleepLock 0 0 }}) }})).
  assert (held s1 = ∅) as Hh1 by apply (po_held _ _ Hp).
  assert (geti (bufs s1) i = Some (unlocked x)) as Hx1 by (apply geti_seti_eq; by eapply geti_Some_lt).
  rewrite (bind_done _ _ _ _ _ (acquire_eq bcache_lock s1 ltac:(rewrite Hh1; set_solver))).
  erewrite bind_done by by apply (setbuf_ok i _ (unlocked x) (locked bcache_lock s1)).
  set (x2 := dropped (unlocked x)). set (s2 := with_buf i x2 s1).
  match goal with |- context [bind _ _ ?t] => change t with (locked bcache_lock s2) end.
  assert (bufs s2 = seti i x2 (bufs s)) as Hb2.
  { unfold s2, s1, with_buf. simpl. by rewrite seti_same. }
  assert (geti (bufs s2) i = Some x2) as Hx2.
  { rewrite Hb2. apply geti_seti_eq. by eapply geti_Some_lt. }
  assert (ring (bufs s2) order) as Hr2 by (rewrite Hb2; by apply (ring_seti _ _ i x)).
  assert (bufs (locked bcache_lock s2) = bufs s2) as Hbl by done.
  unfold getbuf at 1. erewrite bind_done by (apply (elem_ok bufs "buf" i x2); by rewrite Hbl).
  assert (forall bs, release bcache_lock (locked bcache_lock (s2 {{ bufs := bs }})) =
    Done tt ((woke (sl_chan (BufLock i)) s) {{ bufs := bs }})) as Hrel.
  { intros bs. rewrite release_eq; [done|]. change (held (s2 {{ bufs := bs }})) with (held s1).
    rewrite Hh1. set_solver. }
  destruct (b_refcnt x2 =? 0); cbn [when].
  - apply list_elem_of_split in Hio as (l1 & l2 & ->). rewrite <- Hbl in Hr2.
    destruct (move_front_ring l1 i l2 (locked bcache_lock s2) Hr2) as (bs & Hmf & Hrb & Hvb).
    exists bs. split.
    + rewrite (bind_done _ _ _ _ _ Hmf). exact (Hrel bs).
    + split; [by rewrite Hvb, Hbl, <- Hb2|by eexists].
  - exists (bufs s2). split; [|split; [by rewrite Hb2|by exists order]].
    unfold bind. cbn [bindp ret].
    change (locked bcache_lock s2) with (locked bcache_lock (s2 {{ bufs := bufs s2 }})). exact (Hrel (bufs s2)).
Qed.

(** brelse() of a buffer whose block is on the disk, or which is pinned. *)
Lemma brelse_spec r h s i x :
  bc r h s -> i ∈ h -> geti (bufs s) i = Some x ->
  (r i = 0 -> b_data x = block (disk s) (b_blockno x)) ->
  exists s', brelse i s = Done tt s' /\ bc r (h ∖ {[i]}) s' /\
    (forall b, content s' b = content s b) /\ (forall P, stable P s s') /\
    disk s' = disk s /\ klog s' = klog s.
Proof.
  intros Hi Hih Hx Hcl. destruct (brelse_eq r h s i x Hi Hih Hx) as (bs & He & Hv & Hr).
  destruct (bc_ref _ _ _ Hi i x Hx) as [Hrc Hri]. rewrite decide_True in Hrc by done.
  set (y := dropped (unlocked x)) in *. set (s1 := with_buf i y s).
  assert (forall j, j ∈ h ∖ {[i]} -> j ∈ h) as Hsub by set_solver.
  assert (forall j, j <> i -> r j = r j /\ (j ∈ h <-> j ∈ h ∖ {[i]})) as Hoth.
  { intros j Hj. split; [done|]. rewrite elem_of_difference, elem_of_singleton. tauto. }
  assert (i ∉ h ∖ {[i]}) as Hin by set_solver.
  assert (b_refcnt y = r i + (if decide (i ∈ h ∖ {[i]}) then 1 else 0)) as Href.
  { rewrite decide_False by done. change (u32 (b_refcnt x - 1) = r i + 0). rewrite Hrc, u32_small; lia. }
  assert (if decide (i ∈ h ∖ {[i]}) then b_lock y = b_lock x else sl_locked (b_lock y) = 0) as Hlk
    by (by rewrite decide_False).
  assert (bc r (h ∖ {[i]}) s1) as Hi1 by (apply (drop_bc r r h _ s i x y); auto; done).
  assert (forall b, content s1 b = content s b) as Hc1
    by (apply (drop_content r r h (h ∖ {[i]}) s i x y); auto; done).
  eexists. split; [exact He|]. set (s' := (woke _ s) {{ bufs := bs }}).
  assert (proc_ok me s') as Hp by (apply proc_ok_bufs, woke_proc_ok, (bc_proc _ _ _ Hi)).
  split_and!; [by apply (same_bc r _ s1)| | |done|done].
  - intros b. rewrite <- Hc1. by apply (same_content r (h ∖ {[i]}) s1 s').
  - intros P j z Hz Hvl Hg. destruct (drop_stable s i x y Hx ltac:(done) P j z Hz Hvl Hg) as (z1 & Hz1 & E1 & E2 & E3 & E4).
    destruct (same_stable s1 s' Hv P j z1) as (z2 & Hz2 & F1 & F2 & F3 & F4); [done..|].
    exists z2. split_and!; congruence.
Qed.
End release.

(** bunpin() of a held buffer. *)
Lemma bunpin_spec r h s i x :
  bc r h s -> i ∈ h -> geti (bufs s) i = Some x -> 1 <= r i ->
  bunpin i s = Done tt (with_buf i (dropped x) s) /\
  bc (<[i := r i - 1]> r) h (with_buf i (dropped x) s) /\
  (forall b, content (with_buf i (dropped x) s) b = content s b) /\
  (forall P, stable P s (with_buf i (dropped x) s)).
Proof.
  intros Hi Hih Hx H1. destruct (bc_ref _ _ _ Hi i x Hx) as [Hrc Hri]. rewrite decide_True in Hrc by done.
  set (r' := <[i := r i - 1]> r). assert (r' i = r i - 1) as Hr'i by apply fn_lookup_insert.
  assert (forall j, j <> i -> r' j = r j /\ (j ∈ h <-> j ∈ h)) as Hoth.
  { intros j Hj. split; [by apply fn_lookup_insert_ne|done]. }
  assert (b_refcnt (dropped x) = r' i + (if decide (i ∈ h) then 1 else 0)) as Href.
  { rewrite decide_True, Hr'i by done. change (u32 (b_refcnt x - 1) = r i - 1 + 1).
    rewrite Hrc, u32_small; lia. }
  assert (if decide (i ∈ h) then b_lock (dropped x) = b_lock x else sl_locked (b_lock (dropped x)) = 0) as Hlk
    by (by rewrite decide_True).
  split_and!.
  - unfold bunpin. pose proof (po_held _ _ (bc_proc _ _ _ Hi)) as Hh.
    rewrite (bind_done _ _ _ _ _ (acquire_eq bcache_lock s ltac:(rewrite Hh; set_solver))).
    erewrite bind_done by by apply (setbuf_ok i _ x (locked bcache_lock s)).
    change (release bcache_lock (locked bcache_lock (with_buf i (dropped x) s)) =
      Done tt (with_buf i (dropped x) s)).
    apply release_eq. change (held (with_buf i (dropped x) s)) with (held s). rewrite Hh. set_solver.
  - apply (drop_bc r r' h h s i x (dropped x)); auto; [done|lia|done].
  - apply (drop_content r r' h h s i x (dropped x)); auto; [done|lia|done].
  - intros g. by apply (drop_stable s i x).
Qed.

(** Several operations in a row. *)
Lemma stable_trans P s1 s2 s3 : stable P s1 s2 -> stable P s2 s3 -> stable P s1 s3.
Proof.
  intros H1 H2 j x Hx Hv Hg. destruct (H1 j x Hx Hv Hg) as (y & Hy & E1 & E2 & E3 & E4).
  destruct (H2 j y Hy E3 Hg) as (z & Hz & F1 & F2 & F3 & F4). exists z. split_and!; congruence.
Qed.

Lemma stable_weaken (P Q : Z -> Prop) s s' : stable P s s' -> (forall j, Q j -> P j) -> stable Q s s'.
Proof. intros Hs HQ j x Hx Hv Hj. by apply (Hs j x Hx Hv), HQ. Qed.

Lemma store_stable s i x data :
  geti (bufs s) i = Some x -> stable (fun j => j <> i) s (with_buf i (stored data x) s).
Proof.
  intros Hx j z Hz Hv Hne. exists z. unfold with_buf. simpl. by rewrite geti_seti_ne.
Qed.
End cache.
