(* ===== verification/Bytes.v ===== *)
(** Integers and byte strings inside blocks: a store by [splice] is read back
    by [field], and leaves the other fields alone. *)

From S2P Require Import Prelude Mem Riscv Locks Kalloc Vm Proc Kernel.

Lemma length_int_bytes n v : length (int_bytes n v) = n.
Proof. unfold int_bytes. by rewrite length_fmap, length_seq. Qed.

Lemma int_bytes_S n v : int_bytes (Datatypes.S n) v = v mod 256 :: int_bytes n (v / 256).
Proof.
  unfold int_bytes. cbn [seq fmap list_fmap]. f_equal.
  - by rewrite Z.pow_0_r, Z.div_1_r.
  - rewrite <- (fmap_S_seq 0), <- list_fmap_compose. apply list_fmap_ext. intros _ i _. simpl.
    rewrite Z.div_div by lia. do 2 f_equal. rewrite Nat2Z.inj_succ, Z.pow_succ_r by lia. lia.
Qed.

Lemma le_value_int_bytes n v : le_value (int_bytes n v) = v mod 256 ^ Z.of_nat n.
Proof.
  revert v. induction n as [|n IH]; intros v; [by rewrite Z.mod_1_r|].
  rewrite int_bytes_S. cbn [le_value]. rewrite IH, Nat2Z.inj_succ, Z.pow_succ_r by lia.
  rewrite Z.rem_mul_r by lia. lia.
Qed.

Lemma splice_length off bs data :
  0 <= off -> (Z.to_nat off + length bs <= length data)%nat -> length (splice off bs data) = length data.
Proof. intros. unfold splice. rewrite !length_app, length_take, length_drop. lia. Qed.

Lemma splice_all bs data : length bs = length data -> splice 0 bs data = bs.
Proof.
  intros Hl. unfold splice. simpl. rewrite drop_ge by lia. by rewrite app_nil_r.
Qed.

Lemma splice_lookup off bs data k :
  0 <= off -> (Z.to_nat off + length bs <= length data)%nat ->
  splice off bs data !! k =
    if decide (Z.to_nat off <= k < Z.to_nat off + length bs)%nat then bs !! (k - Z.to_nat off)%nat
    else data !! k.
Proof.
  intros Ho Hl. unfold splice. case_decide as Hk.
  - rewrite lookup_app_r by (rewrite length_take; lia). rewrite length_take, Nat.min_l by lia.
    by rewrite lookup_app_l by lia.
  - destruct (decide (k < Z.to_nat off)%nat) as [Hlt|Hge].
    + rewrite lookup_app_l by (rewrite length_take; lia). by rewrite lookup_take_lt.
    + rewrite lookup_app_r by (rewrite length_take; lia). rewrite length_take, Nat.min_l by lia.
      rewrite lookup_app_r by lia. rewrite lookup_drop. f_equal. lia.
Qed.

Lemma field_splice_eq off bs data :
  0 <= off -> (Z.to_nat off + length bs <= length data)%nat ->
  field off (length bs) (splice off bs data) = le_value bs.
Proof.
  intros Ho Hl. unfold field. f_equal. apply list_eq. intros k.
  destruct (decide (k < length bs)%nat) as [Hk|Hk].
  - rewrite lookup_take_lt, lookup_drop, splice_lookup by lia. rewrite decide_True by lia. f_equal. lia.
  - rewrite lookup_take_ge by lia. by rewrite lookup_ge_None_2 by lia.
Qed.

Lemma field_splice_ne off off' m bs data :
  0 <= off -> 0 <= off' -> (Z.to_nat off + length bs <= length data)%nat ->
  off' + Z.of_nat m <= off \/ off + Z.of_nat (length bs) <= off' ->
  field off' m (splice off bs data) = field off' m data.
Proof.
  intros Ho Ho' Hl Hd. unfold field. f_equal. apply list_eq. intros k.
  destruct (decide (k < m)%nat) as [Hk|Hk]; [|by rewrite !lookup_take_ge by lia].
  rewrite !lookup_take_lt, !lookup_drop, splice_lookup by lia. by rewrite decide_False by lia.
Qed.

(** A number that fits is read back. *)
Lemma field_splice_int off n v data :
  0 <= off -> (Z.to_nat off + n <= length data)%nat -> 0 <= v < 256 ^ Z.of_nat n ->
  field off n (splice off (int_bytes n v) data) = v.
Proof.
  intros Ho Hl Hv. pose proof (field_splice_eq off (int_bytes n v) data Ho) as He.
  rewrite length_int_bytes in He. rewrite He by done. rewrite le_value_int_bytes. by apply Z.mod_small.
Qed.

(** A field inside what has been stored. *)
Lemma field_splice_in off off' m bs data :
  0 <= off <= off' -> off' + Z.of_nat m <= off + Z.of_nat (length bs) ->
  (Z.to_nat off + length bs <= length data)%nat ->
  field off' m (splice off bs data) = field (off' - off) m bs.
Proof.
  intros Ho Hm Hl. unfold field. f_equal. apply list_eq. intros k.
  destruct (decide (k < m)%nat) as [Hk|Hk]; [|by rewrite !lookup_take_ge by lia].
  rewrite !lookup_take_lt, !lookup_drop, splice_lookup by lia. rewrite decide_True by lia. f_equal. lia.
Qed.

(** Fields of consecutive members. *)
Lemma field_head n a b : length a = n -> field 0 n (a ++ b) = le_value a.
Proof. intros <-. unfold field. simpl. rewrite drop_0, take_app_length. done. Qed.

Lemma field_tail off m a b : 0 <= off -> field (Z.of_nat (length a) + off) m (a ++ b) = field off m b.
Proof.
  intros Ho. unfold field. do 2 f_equal.
  replace (Z.to_nat (Z.of_nat (length a) + off)) with (length a + Z.to_nat off)%nat by lia.
  by rewrite drop_app_add.
Qed.

Lemma field_int_head n v b : field 0 n (int_bytes n v ++ b) = v mod 256 ^ Z.of_nat n.
Proof. by rewrite field_head, le_value_int_bytes by apply length_int_bytes. Qed.

Lemma field_int_tail off n v m b :
  Z.of_nat n <= off -> field off m (int_bytes n v ++ b) = field (off - Z.of_nat n) m b.
Proof.
  intros Ho. rewrite <- (field_tail (off - Z.of_nat n) m (int_bytes n v) b), length_int_bytes by lia.
  f_equal. lia.
Qed.

(** An array of integers. *)
Lemma field_array n vs j v :
  vs !! j = Some v -> field (Z.of_nat (n * j)) n (concat (int_bytes n <$> vs)) = v mod 256 ^ Z.of_nat n.
Proof.
  revert j. induction vs as [|w vs IH]; intros [|j] Hj; [done..| |]; simpl in *.
  - injection Hj as ->. rewrite Nat.mul_0_r. apply field_int_head.
  - rewrite field_int_tail by nia. rewrite <- (IH j Hj). f_equal. nia.
Qed.

Lemma length_int_array n vs : length (concat (int_bytes n <$> vs)) = (n * length vs)%nat.
Proof.
  induction vs as [|v vs IH]; [simpl; lia|]. rewrite fmap_cons. cbn [concat length].
  rewrite length_app, length_int_bytes, IH. lia.
Qed.
