(* ===== verification/Log.v ===== *)
(** The log (kernel/log.c): transactions of file-system calls as atomic groups
    of block writes. *)

From S2P Require Import Prelude Mem Riscv Locks Kalloc Vm Proc Kernel Sleeplock Bio.

Definition log_lock : lock := ("log", 0).
Definition log_chan : chan := ("&log", 0).

(** [log.lh.block[i]], an array of LOGSIZE ints. *)
Definition lh_at (l : logstate) (i : Z) : M kernel Z :=
  match geti (lh_block l) i with Some b => ret b | None => undef "log.lh.block[]" end.

Section Log.
Context `{Fuel} `{DiskDriver}.

(** [for (tail = 0; tail < log.lh.n; tail++)]. *)
Definition for_tail (body : Z -> M kernel unit) : M kernel unit :=
  n <- gets (fun s => lh_n (klog s));;
  loop (Datatypes.S (Z.to_nat n))
    (fun tail =>
       l <- gets klog;;
       if tail <? lh_n l then body tail;;; continue (tail + 1)
       else break tt) 0.

Definition install_trans (recovering : bool) : M kernel unit :=
  for_tail (fun tail =>
    l <- gets klog;;
    lbuf <- bread (l_dev l) (l_start l + tail + 1);;
    home <- lh_at l tail;;
    dbuf <- bread (l_dev l) home;;
    data <- bdata lbuf;;
    bstore dbuf 0 data;;;
    bwrite dbuf;;;
    when (negb recovering) (bunpin dbuf);;;
    brelse lbuf;;;
    brelse dbuf).

(** The header block: the count, then the block numbers. *)
Definition read_head : M kernel unit :=
  l <- gets klog;;
  i <- bread (l_dev l) (l_start l);;
  data <- bdata i;;
  let n := i32 (field 0 4 data) in
  setlog (fun l => l {{ lh_n := n }});;;
  loop (Datatypes.S (Z.to_nat n))
    (fun k =>
       if k <? n then
         if k <? LOGSIZE then
           setlog (fun l => l {{ lh_block ::= seti k (i32 (field (4 + 4 * k) 4 data)) }});;;
           continue (k + 1)
         else undef "log.lh.block[]"
       else break tt) 0;;;
  brelse i.

Definition write_head : M kernel unit :=
  l <- gets klog;;
  i <- bread (l_dev l) (l_start l);;
  bstore i 0 (int_bytes 4 (u32 (lh_n l)));;;
  for_tail (fun k =>
    b <- lh_at l k;;
    bstore i (4 + 4 * k) (int_bytes 4 (u32 b)));;;
  bwrite i;;;
  brelse i.

Definition recover_from_log : M kernel unit :=
  read_head;;;
  install_trans true;;;
  setlog (fun l => l {{ lh_n := 0 }});;;
  write_head.

(** sizeof(struct logheader) is 4 + 4 * LOGSIZE. *)
Definition initlog (dev : Z) (sb : superblock) : M kernel unit :=
  when (4 + 4 * LOGSIZE >=? BSIZE) (panic "initlog: too big logheader");;;
  setlog (fun l => l {{ l_start := i32 (sb_logstart sb); l_size := i32 (sb_nlog sb); l_dev := dev }});;;
  recover_from_log.

Definition begin_op : M kernel unit :=
  acquire log_lock;;;
  loop fuel (fun _ : unit =>
    l <- gets klog;;
    if negb (committing l =? 0) then ksleep log_chan log_lock;;; continue tt
    else if lh_n l + (outstanding l + 1) * MAXOPBLOCKS >? LOGSIZE then
      ksleep log_chan log_lock;;; continue tt
    else
      setlog (fun l => l {{ outstanding ::= fun n => n + 1 }});;;
      release log_lock;;;
      break tt) tt.

Definition write_log : M kernel unit :=
  for_tail (fun tail =>
    l <- gets klog;;
    to <- bread (l_dev l) (l_start l + tail + 1);;
    home <- lh_at l tail;;
    from <- bread (l_dev l) home;;
    data <- bdata from;;
    bstore to 0 data;;;
    bwrite to;;;
    brelse from;;;
    brelse to).

Definition commit : M kernel unit :=
  n <- gets (fun s => lh_n (klog s));;
  when (n >? 0) (
    write_log;;;
    write_head;;;
    install_trans false;;;
    setlog (fun l => l {{ lh_n := 0 }});;;
    write_head).

Definition end_op : M kernel unit :=
  acquire log_lock;;;
  setlog (fun l => l {{ outstanding ::= fun n => n - 1 }});;;
  l <- gets klog;;
  when (negb (committing l =? 0)) (panic "log.committing");;;
  do_commit <- (if outstanding l =? 0 then
                  setlog (fun l => l {{ committing := 1 }});;; ret true
                else kwakeup log_chan;;; ret false);;
  release log_lock;;;
  when do_commit (
    commit;;;
    acquire log_lock;;;
    setlog (fun l => l {{ committing := 0 }});;;
    kwakeup log_chan;;;
    release log_lock).

(** The loop of log_write: the first [i] with [log.lh.block[i] == blockno],
    or [log.lh.n]. *)
Fixpoint absorb (blocks : list Z) (n : nat) (blockno : Z) : Z :=
  match n, blocks with
  | Datatypes.S k, b :: r => if b =? blockno then 0 else 1 + absorb r k blockno
  | _, _ => 0
  end.

Definition log_write (i : Z) : M kernel unit :=
  acquire log_lock;;;
  l <- gets klog;;
  when ((lh_n l >=? LOGSIZE) || (lh_n l >=? l_size l - 1)) (panic "too big a transaction");;;
  when (outstanding l <? 1) (panic "log_write outside of trans");;;
  b <- getbuf i;;
  let k := absorb (lh_block l) (Z.to_nat (lh_n l)) (i32 (b_blockno b)) in
  setlog (fun l => l {{ lh_block ::= seti k (i32 (b_blockno b)) }});;;
  when (k =? lh_n l) (
    bpin i;;;
    setlog (fun l => l {{ lh_n ::= fun n => n + 1 }}));;;
  release log_lock.

End Log.
