(* ===== verification/LogProps.v ===== *)
(** The log's space: what begin_op reserves is enough for what log_write uses,
    if the on-disk log has room for LOGSIZE blocks, which the one mkfs makes
    does not. *)

From S2P Require Import Prelude Mem Riscv Locks Kalloc Vm SpaceCheck Proc ProcFacts Kernel KernelFacts Sleeplock Bio Log.

(** The blocks of the running transaction. *)
Definition logged (l : logstate) : list Z := take (Z.to_nat (lh_n l)) (lh_block l).

(** ** Frames: nothing but the log's own functions changes its state *)

Section Frames.
Context `{Fuel} `{DiskDriver}.

Lemma keeps_disk i w : keeps klog (virtio_disk_rw i w).
Proof.
  intros s a s'. destruct (geti (bufs s) i) as [b|] eqn:E.
  - destruct w; [rewrite (disk_write i b) by done|rewrite (disk_read i b) by done]; by intros [= _ <-].
  - by rewrite disk_null.
Qed.
#[local] Hint Resolve keeps_disk : keeps.

Lemma keeps_setbuf i g : keeps klog (setbuf i g).
Proof. unfold setbuf. keeps_auto. Qed.
#[local] Hint Resolve keeps_setbuf : keeps.

Lemma keeps_getsl n : keeps klog (getsl n).
Proof. unfold getsl. keeps_auto. Qed.
Lemma keeps_setsl n l : keeps klog (setsl n l).
Proof. unfold setsl, setinode. keeps_auto. Qed.
#[local] Hint Resolve keeps_getsl keeps_setsl : keeps.

Lemma keeps_acquiresleep n : keeps klog (acquiresleep n).
Proof. unfold acquiresleep. keeps_auto. Qed.
Lemma keeps_releasesleep n : keeps klog (releasesleep n).
Proof. unfold releasesleep. keeps_auto. Qed.
Lemma keeps_holdingsleep n : keeps klog (holdingsleep n).
Proof. unfold holdingsleep. keeps_auto. Qed.
#[local] Hint Resolve keeps_acquiresleep keeps_releasesleep keeps_holdingsleep : keeps.

Lemma keeps_bget d b : keeps klog (bget d b).
Proof. unfold bget, find_cached, find_free. keeps_auto. Qed.
#[local] Hint Resolve keeps_bget : keeps.

Lemma keeps_bread d b : keeps klog (bread d b).
Proof. unfold bread. keeps_auto. Qed.
Lemma keeps_bwrite i : keeps klog (bwrite i).
Proof. unfold bwrite. keeps_auto. Qed.
Lemma keeps_brelse i : keeps klog (brelse i).
Proof. unfold brelse, move_front. keeps_auto. Qed.
Lemma keeps_bpin i : keeps klog (bpin i).
Proof. unfold bpin. keeps_auto. Qed.
Lemma keeps_bunpin i : keeps klog (bunpin i).
Proof. unfold bunpin. keeps_auto. Qed.
Lemma keeps_bdata i : keeps klog (bdata i).
Proof. unfold bdata. keeps_auto. Qed.
Lemma keeps_bstore i o b : keeps klog (bstore i o b).
Proof. apply keeps_setbuf. Qed.
Lemma keeps_lh_at l i : keeps klog (lh_at l i).
Proof. unfold lh_at. keeps_auto. Qed.
#[local] Hint Resolve keeps_bread keeps_bwrite keeps_brelse keeps_bpin keeps_bunpin keeps_bdata keeps_bstore keeps_lh_at : keeps.

Lemma keeps_write_head : keeps klog write_head.
Proof. unfold write_head, for_tail. keeps_auto. Qed.
Lemma keeps_write_log : keeps klog write_log.
Proof. unfold write_log, for_tail. keeps_auto. Qed.
Lemma keeps_install r : keeps klog (install_trans r).
Proof. unfold install_trans, for_tail. keeps_auto. Qed.

(** A commit empties the transaction and changes nothing else of the log's state. *)
Lemma commit_log s s' :
  0 <= lh_n (klog s) -> commit s = Done tt s' -> klog s' = (klog s) {{ lh_n := 0 }}.
Proof.
  intros Hn. unfold commit, bind, gets. cbn [bindp].
  destruct (lh_n (klog s) >? 0) eqn:E; cbn [when].
  - destruct (write_log s) as [[] s1| | | |] eqn:E1; try done. cbn [bindp].
    destruct (write_head s1) as [[] s2| | | |] eqn:E2; try done. cbn [bindp].
    destruct (install_trans false s2) as [[] s3| | | |] eqn:E3; try done. cbn [bindp setlog modify].
    intros E4%keeps_write_head. rewrite E4.
    apply keeps_write_log in E1. apply keeps_write_head in E2. apply keeps_install in E3.
    transitivity ((klog s3) {{ lh_n := 0 }}); [done|]. by rewrite E3, E2, E1.
  - intros [= <-]. rewrite Z.gtb_ltb in E. apply Z.ltb_ge in E.
    assert (lh_n (klog s) = 0) as Hz by lia. destruct (klog s); simpl in *. by subst.
Qed.

(** ** The three operations on the log's state *)

Lemma release_keeps_log s s' : release log_lock s = Done tt s' -> klog s' = klog s.
Proof. intros E. by eapply (keeps_release klog log_lock). Qed.

Lemma acquire_keeps_log s s' : acquire log_lock s = Done tt s' -> klog s' = klog s.
Proof. intros E. by eapply (keeps_acquire klog log_lock). Qed.

(** sleep() always gives up the CPU. *)
Lemma ksleep_not_done ch lk s a s' : ksleep ch lk s <> Done a s'.
Proof.
  unfold ksleep, in_proc, zoom, sleep, sleep_steps. cbn [seqs]. unfold bind. cbn [bindp myproc gets].
  destruct (acquire _ _) as [[] s1| | | |]; try done. cbn [bindp].
  destruct (release _ _) as [[] s2| | | |]; try done. cbn [bindp].
  destruct (setp _ _ _) as [[] s3| | | |]; try done. cbn [bindp].
  unfold sched, bind. cbn [bindp myproc gets].
  destruct (negb _); [done|]. cbn [bindp]. destruct (negb _); [done|]. unfold bindp at 4.
  destruct (getp _ _) as [p s4| | | |]; try done. cbn [bindp]. by destruct (decide _).
Qed.

Lemma begin_op_log s s' :
  begin_op s = Done tt s' ->
  committing (klog s) = 0 /\ lh_n (klog s) + (outstanding (klog s) + 1) * MAXOPBLOCKS <= LOGSIZE /\
  klog s' = (klog s) {{ outstanding ::= fun n => n + 1 }}.
Proof.
  unfold begin_op. unfold bind at 1. destruct (acquire log_lock s) as [[] s1| | | |] eqn:E1; try done.
  apply acquire_keeps_log in E1. cbn [bindp]. rewrite <- E1. clear E1 s.
  destruct fuel as [|n]; [done|]. cbn [loop].
  unfold bind at 1 2, gets. cbn [bindp].
  destruct (Z.eqb_spec (committing (klog s1)) 0) as [Hc|Hc]; cbn [negb].
  - rewrite Z.gtb_ltb. destruct (Z.ltb_spec LOGSIZE (lh_n (klog s1) + (outstanding (klog s1) + 1) * MAXOPBLOCKS)).
    + unfold bind at 1. destruct (ksleep _ _ _) as [[] s2| | | |] eqn:E2; try done. by apply ksleep_not_done in E2.
    + unfold bind. cbn [bindp setlog modify].
      destruct (release log_lock _) as [[] s2| | | |] eqn:E2; try done. apply release_keeps_log in E2.
      cbn [bindp break ret]. intros [= <-]. by rewrite E2.
  - unfold bind at 1. destruct (ksleep _ _ _) as [[] s2| | | |] eqn:E2; try done. by apply ksleep_not_done in E2.
Qed.

Lemma begin_op_eq n s :
  fuel = Datatypes.S n -> log_lock ∉ held s -> committing (klog s) = 0 ->
  lh_n (klog s) + (outstanding (klog s) + 1) * MAXOPBLOCKS <= LOGSIZE ->
  begin_op s = Done tt (s {{ klog ::= fun l => l {{ outstanding ::= fun n => n + 1 }} }}).
Proof.
  intros Hf Hl Hc Hroom. unfold begin_op. rewrite (bind_done _ _ _ _ _ (acquire_eq log_lock s Hl)).
  rewrite Hf. apply loop_break. unfold bind at 1. cbn [bindp gets].
  change (klog (locked log_lock s)) with (klog s). rewrite Hc. cbn [Z.eqb negb].
  rewrite Z.gtb_ltb, (proj2 (Z.ltb_ge _ _) Hroom). unfold bind. cbn [bindp setlog modify].
  set (s1 := s {{ klog ::= fun l => l {{ outstanding ::= fun n => n + 1 }} }}).
  change (release log_lock _) with (release log_lock (locked log_lock s1)).
  by rewrite release_eq.
Qed.

Lemma end_op_log s s' :
  0 <= lh_n (klog s) -> end_op s = Done tt s' ->
  committing (klog s) = 0 /\
  (exists n, klog s' = (klog s) {{ outstanding ::= fun n => n - 1; committing := 0; lh_n := n }} /\
     n = if outstanding (klog s) =? 1 then 0 else lh_n (klog s)).
Proof.
  intros Hn. unfold end_op. unfold bind at 1. destruct (acquire log_lock s) as [[] s1| | | |] eqn:E1; try done.
  apply acquire_keeps_log in E1. cbn [bindp]. rewrite <- E1 in *. clear E1 s.
  unfold bind at 1. cbn [bindp setlog modify]. set (s2 := s1 {{ klog ::= _ }}).
  unfold bind at 1. cbn [bindp gets].
  assert (E2 : klog s2 = (klog s1) {{ outstanding ::= fun n => n - 1 }}) by done.
  assert (Hc : committing (klog s2) = committing (klog s1)) by done.
  assert (Ho : outstanding (klog s2) = outstanding (klog s1) - 1) by done.
  unfold when at 1. rewrite Hc, Ho. destruct (Z.eqb_spec (committing (klog s1)) 0) as [Hz|Hz]; cbn [negb]; [|done].
  intros E. split; [done|]. revert E.
  unfold bind at 1. cbn [ret bindp].
  replace (outstanding (klog s1) - 1 =? 0) with (outstanding (klog s1) =? 1).
  2: { destruct (Z.eqb_spec (outstanding (klog s1)) 1), (Z.eqb_spec (outstanding (klog s1) - 1) 0); done || lia. }
  destruct (outstanding (klog s1) =? 1) eqn:Eo.
  - unfold bind at 1. unfold bind at 1. cbn [bindp setlog modify ret].
    unfold bind at 1. destruct (release log_lock _) as [[] s3| | | |] eqn:E3; try done. apply release_keeps_log in E3.
    cbn [bindp when]. unfold bind at 1. destruct (commit s3) as [[] s4| | | |] eqn:E4; try done.
    apply commit_log in E4; [|by rewrite E3]. cbn [bindp].
    unfold bind at 1. destruct (acquire log_lock s4) as [[] s5| | | |] eqn:E5; try done.
    apply acquire_keeps_log in E5. cbn [bindp]. unfold bind at 1. cbn [bindp setlog modify].
    unfold bind at 1. destruct (kwakeup _ _) as [[] s6| | | |] eqn:E6; try done.
    apply (keeps_in_proc klog) in E6; [|done]. cbn [bindp].
    intros E7%release_keeps_log. exists 0. split; [|done]. rewrite E7, E6.
    transitivity ((klog s5) {{ committing := 0 }}); [done|]. rewrite E5, E4, E3. done.
  - unfold bind at 1. unfold bind at 1.
    destruct (kwakeup log_chan s2) as [[] s3| | | |] eqn:E3; try done.
    apply (keeps_in_proc klog) in E3; [|done]. cbn [bindp ret].
    unfold bind. destruct (release log_lock s3) as [[] s4| | | |] eqn:E4; try done. apply release_keeps_log in E4.
    cbn [bindp when ret]. intros [= <-]. exists (lh_n (klog s1)). split; [|done].
    rewrite E4, E3, E2. clear -Hz. destruct (klog s1); simpl in *. by subst.
Qed.

(** The loop of log_write searches the transaction. *)
Lemma absorb_spec blocks n b :
  0 <= absorb blocks n b <= Z.of_nat (Nat.min n (length blocks)) /\
  (absorb blocks n b < Z.of_nat (Nat.min n (length blocks)) <-> b ∈ take n blocks) /\
  (b ∈ take n blocks -> geti blocks (absorb blocks n b) = Some b).
Proof.
  revert n. induction blocks as [|x r IH]; intros [|n]; simpl; rewrite ?elem_of_nil.
  1-3: split; [lia|split; [split; [lia|done]|done]].
  destruct (Z.eqb_spec x b) as [-> |Hne].
  - split; [lia|]. split; [|done]. split; [intros _; by left|lia].
  - destruct (IH n) as (Hr & Hlt & Hg). rewrite elem_of_cons. split; [lia|]. split.
    + split; [intros; right; apply Hlt; lia|].
      intros [?|Hin]; [congruence|]. apply Hlt in Hin. lia.
    + intros [?|Hin]; [congruence|]. specialize (Hg Hin). unfold geti in *.
      rewrite (proj2 (Z.leb_le 0 (absorb r n b))) in Hg by lia.
      rewrite (proj2 (Z.leb_le 0 _)) by lia.
      by replace (Z.to_nat (1 + absorb r n b)) with (Datatypes.S (Z.to_nat (absorb r n b))) by lia.
Qed.

(** The log's state after log_write of block [b]. *)
Definition add_block (b : Z) (l : logstate) : logstate :=
  let k := absorb (lh_block l) (Z.to_nat (lh_n l)) b in
  let l := l {{ lh_block ::= seti k b }} in
  if k =? lh_n l then l {{ lh_n ::= fun n => n + 1 }} else l.

Definition log_ok (l : logstate) : Prop :=
  Z.of_nat (length (lh_block l)) = LOGSIZE /\ 0 <= lh_n l <= LOGSIZE /\ NoDup (logged l).

Lemma add_block_spec b l :
  log_ok l -> lh_n l < LOGSIZE ->
  log_ok (add_block b l) /\
  logged (add_block b l) = (if decide (b ∈ logged l) then logged l else logged l ++ [b]) /\
  lh_n (add_block b l) = (if decide (b ∈ logged l) then lh_n l else lh_n l + 1) /\
  outstanding (add_block b l) = outstanding l /\ committing (add_block b l) = committing l /\
  l_size (add_block b l) = l_size l.
Proof.
  intros (Hlen & Hn & Hnd) Hlt. destruct (absorb_spec (lh_block l) (Z.to_nat (lh_n l)) b) as (Hr & Hin & Hg).
  fold (logged l) in Hin, Hg. unfold add_block.
  set (k := absorb (lh_block l) (Z.to_nat (lh_n l)) b) in *.
  assert (Hmin : Z.of_nat (Nat.min (Z.to_nat (lh_n l)) (length (lh_block l))) = lh_n l) by lia.
  rewrite Hmin in *. change (lh_n (l {{ lh_block ::= seti k b }})) with (lh_n l). case_decide as Hd.
  - assert (k < lh_n l) by (by apply Hin). rewrite (proj2 (Z.eqb_neq k (lh_n l))) by lia.
    assert (El : l {{ lh_block ::= seti k b }} = l).
    { specialize (Hg Hd). clear -Hg. unfold geti, seti in *. destruct l; simpl in *.
      case_match; [|done]. by rewrite list_insert_id. }
    rewrite El. done.
  - assert (k = lh_n l) as Ek by (destruct (decide (k < lh_n l)) as [Hk|]; [by apply Hin in Hk|lia]).
    rewrite (proj2 (Z.eqb_eq _ _) Ek).
    assert (Hlog : logged (l {{ lh_block ::= seti k b; lh_n ::= fun n => n + 1 }}) = logged l ++ [b]).
    { change (take (Z.to_nat (lh_n l + 1)) (seti k b (lh_block l)) = logged l ++ [b]). unfold logged. rewrite Ek. unfold seti. rewrite (proj2 (Z.leb_le 0 _)) by lia.
      replace (Z.to_nat (lh_n l + 1)) with (Datatypes.S (Z.to_nat (lh_n l))) by lia.
      rewrite (take_S_r _ _ b) by (apply list_lookup_insert_eq; lia).
      by rewrite take_insert_ge by lia. }
    split; [|split; [exact Hlog|done]]. split; [simpl; by rewrite length_seti|].
    split; [change (0 <= lh_n l + 1 <= LOGSIZE); lia|].
    change (NoDup (logged (l {{ lh_block ::= seti k b; lh_n ::= fun n => n + 1 }}))). rewrite Hlog.
    apply NoDup_app. split; [done|]. split; [|apply NoDup_singleton].
    intros x Hx ->%list_elem_of_singleton. done.
Qed.

(** The buffers after log_write: a block new to the transaction is pinned. *)
Definition pin_new (i : Z) (new : bool) (l : list buf) : list buf :=
  match geti l i with
  | Some b => if new then seti i (b {{ b_refcnt ::= fun n => u32 (n + 1) }}) l else l
  | None => l
  end.

Lemma log_write_eq i b s :
  geti (bufs s) i = Some b -> log_lock ∉ held s -> bcache_lock ∉ held s ->
  lh_n (klog s) < LOGSIZE -> lh_n (klog s) < l_size (klog s) - 1 -> 1 <= outstanding (klog s) ->
  let x := i32 (b_blockno b) in
  log_write i s = Done tt (s {{ klog := add_block x (klog s);
    bufs := pin_new i (absorb (lh_block (klog s)) (Z.to_nat (lh_n (klog s))) x =? lh_n (klog s)) (bufs s) }}).
Proof.
  intros E Hl Hb Hn1 Hn2 Ho x. unfold log_write.
  rewrite (bind_done _ _ _ _ _ (acquire_eq log_lock s Hl)).
  unfold bind at 1. cbn [bindp gets]. change (klog (locked log_lock s)) with (klog s).
  rewrite (proj2 (orb_false_iff _ _)).
  2: { split; rewrite Z.geb_leb; apply Z.leb_gt; lia. }
  rewrite (proj2 (Z.ltb_ge _ _) Ho).
  unfold bind at 1 2. cbn [bindp when ret].
  erewrite bind_done by (by apply (elem_ok bufs _ i b)). fold x.
  unfold bind at 1. cbn [bindp setlog modify].
  set (k := absorb _ _ x). unfold pin_new. rewrite E. unfold add_block. fold k.
  destruct (Z.eqb_spec k (lh_n (klog s))) as [Ek|Ek].
  - cbn [when]. unfold bind at 1 2, bpin. unfold bind at 1.
    set (s1 := s {{ klog ::= fun l => l {{ lh_block ::= seti k x }} }}).
    change (acquire bcache_lock _) with (acquire bcache_lock (locked log_lock s1)).
    rewrite acquire_eq.
    2: { change (bcache_lock ∉ {[log_lock]} ∪ held s). rewrite elem_of_union, elem_of_singleton.
         intros [[=]|?]. done. }
    cbn [bindp]. unfold bind at 1.
    rewrite (setbuf_ok i _ b) by done. cbn [bindp].
    set (s2 := s1 {{ bufs ::= seti i (b {{ b_refcnt ::= fun n => u32 (n + 1) }}) }}).
    change (release bcache_lock _) with (release bcache_lock (locked bcache_lock (locked log_lock s2))).
    rewrite release_eq.
    2: { change (bcache_lock ∉ {[log_lock]} ∪ held s). rewrite elem_of_union, elem_of_singleton.
         intros [[=]|?]. done. }
    cbn [bindp setlog modify].
    set (s3 := s2 {{ klog ::= fun l => l {{ lh_n ::= fun n => n + 1 }} }}).
    change (release log_lock _) with (release log_lock (locked log_lock s3)).
    rewrite release_eq by done. unfold s3, s2, s1. simpl.
    rewrite (proj2 (Z.eqb_eq k _)) by done. done.
  - cbn [when]. unfold bind. cbn [bindp ret].
    set (s1 := s {{ klog ::= fun l => l {{ lh_block ::= seti k x }} }}).
    change (release log_lock _) with (release log_lock (locked log_lock s1)).
    rewrite release_eq by done. unfold s1. simpl. rewrite (proj2 (Z.eqb_neq k _)) by done. by destruct s.
Qed.

End Frames.

Lemma log_write_full i s :
  log_lock ∉ held s -> LOGSIZE <= lh_n (klog s) \/ l_size (klog s) - 1 <= lh_n (klog s) ->
  log_write i s = Panic "too big a transaction".
Proof.
  intros Hl Hf. unfold log_write. rewrite (bind_done _ _ _ _ _ (acquire_eq log_lock s Hl)).
  unfold bind at 1. cbn [bindp gets]. change (klog (locked log_lock s)) with (klog s).
  rewrite (proj2 (orb_true_iff _ _)); [done|]. rewrite !Z.geb_leb, !Z.leb_le. done.
Qed.

(** ** Runs of file-system calls *)

Section Runs.
Context `{Fuel} `{DiskDriver}.

(** [fs_run bs s]: [s] is reached from an idle log by calls that are still in
    progress and may log as many more new blocks as the list [bs] says, one
    entry per call; each started with MAXOPBLOCKS.  Everything else the kernel
    does leaves the log's state alone ([RunOther]). *)
Inductive fs_run : list Z -> kernel -> Prop :=
| RunStart s : log_ok (klog s) -> lh_n (klog s) = 0 -> outstanding (klog s) = 0 -> fs_run [] s
| RunBegin bs s s' : fs_run bs s -> begin_op s = Done tt s' -> fs_run (MAXOPBLOCKS :: bs) s'
| RunWrite bs1 n bs2 i b s s' :
    fs_run (bs1 ++ n :: bs2) s -> geti (bufs s) i = Some b -> log_lock ∉ held s -> bcache_lock ∉ held s ->
    let cost := if decide (i32 (b_blockno b) ∈ logged (klog s)) then 0 else 1 in
    cost <= n -> log_write i s = Done tt s' ->
    fs_run (bs1 ++ (n - cost) :: bs2) s'
| RunEnd bs1 n bs2 s s' : fs_run (bs1 ++ n :: bs2) s -> end_op s = Done tt s' -> fs_run (bs1 ++ bs2) s'
| RunOther bs s s' : fs_run bs s -> klog s' = klog s -> fs_run bs s'.

Definition sum (bs : list Z) : Z := foldr Z.add 0 bs.

Lemma sum_app a b : sum (a ++ b) = sum a + sum b.
Proof. induction a as [|x a IH]; simpl; [done|]. rewrite IH. lia. Qed.

Lemma sum_bound bs : Forall (fun n => 0 <= n <= MAXOPBLOCKS) bs -> 0 <= sum bs <= MAXOPBLOCKS * Z.of_nat (length bs).
Proof. induction 1 as [|n bs Hn _ IH]; simpl length; simpl sum; unfold sum in *; simpl; lia. Qed.

Definition run_inv (bs : list Z) (l : logstate) : Prop :=
  log_ok l /\ outstanding l = Z.of_nat (length bs) /\
  Forall (fun n => 0 <= n <= MAXOPBLOCKS) bs /\ lh_n l + sum bs <= LOGSIZE.

Lemma run_preserved bs s : fs_run bs s -> run_inv bs (klog s).
Proof.
  induction 1 as [s Hok Hz Ho|bs s s' _ (Hok & Ho & Hb & Hs) E|bs1 n bs2 i b s s' _ (Hok & Ho & Hb & Hs) Eb Hl Hc cost Hcost E
                 |bs1 n bs2 s s' _ (Hok & Ho & Hb & Hs) E|bs s s' _ IH E].
  - split; [done|]. split; [done|]. split; [constructor|]. rewrite Hz. unfold sum, LOGSIZE, MAXOPBLOCKS. simpl. lia.
  - apply begin_op_log in E as (_ & Hroom & ->). pose proof (sum_bound bs Hb).
    split; [exact Hok|]. split; [simpl; fold (outstanding (klog s)); lia|].
    split; [constructor; [unfold MAXOPBLOCKS; lia|done]|].
    change (lh_n (klog s) + (MAXOPBLOCKS + sum bs) <= LOGSIZE). lia.
  - apply Forall_app in Hb as [Hb1 Hb2]. apply Forall_cons in Hb2 as [Hn Hb2].
    rewrite sum_app in Hs. change (sum (n :: bs2)) with (n + sum bs2) in Hs.
    pose proof (sum_bound _ Hb1). pose proof (sum_bound _ Hb2). rewrite length_app in Ho. simpl in Ho.
    assert (Hlt : lh_n (klog s) < LOGSIZE) by (apply Z.nle_gt; intros Hf; by rewrite log_write_full in E by auto).
    assert (Hsz : lh_n (klog s) < l_size (klog s) - 1) by (apply Z.nle_gt; intros Hf; by rewrite log_write_full in E by auto).
    rewrite (log_write_eq i b) in E by (done || lia). injection E as <-.
    change (run_inv (bs1 ++ (n - cost) :: bs2) (add_block (i32 (b_blockno b)) (klog s))).
    destruct (add_block_spec (i32 (b_blockno b)) (klog s) Hok Hlt) as (Hok' & _ & Hn' & Ho' & _).
    split; [done|]. split; [rewrite Ho', length_app; simpl; lia|].
    split; [apply Forall_app; split; [done|]; constructor; [subst cost; case_decide; lia|done]|].
    rewrite Hn', sum_app. change (sum ((n - cost) :: bs2)) with (n - cost + sum bs2).
    subst cost. case_decide; lia.
  - apply end_op_log in E as (_ & k & -> & Hk); [|apply Hok].
    apply Forall_app in Hb as [Hb1 Hb2]. apply Forall_cons in Hb2 as [Hn Hb2].
    rewrite sum_app in Hs. change (sum (n :: bs2)) with (n + sum bs2) in Hs.
    pose proof (sum_bound _ Hb1). pose proof (sum_bound _ Hb2). rewrite length_app in Ho. simpl in Ho.
    assert (Hk' : k = lh_n (klog s) \/ (k = 0 /\ bs1 ++ bs2 = [])).
    { destruct (Z.eqb_spec (outstanding (klog s)) 1); [right|by left]. split; [done|].
      destruct bs1, bs2; [done|simpl in *; lia..]. }
    split.
    + destruct Hok as (Hlen & Hr & Hnd). split; [done|].
      destruct Hk' as [-> |[-> _]]; [done|]. split; [split; [done|unfold LOGSIZE, MAXOPBLOCKS; simpl; lia]|constructor].
    + split; [simpl; fold (outstanding (klog s)); rewrite length_app; lia|].
      split; [by apply Forall_app|]. change (k + sum (bs1 ++ bs2) <= LOGSIZE).
      destruct Hk' as [-> |[-> ->]]; [rewrite sum_app; lia|]. unfold sum, LOGSIZE, MAXOPBLOCKS. simpl. lia.
  - by rewrite E.
Qed.

(** C33: in any run of file-system calls, each of which has reserved space with begin_op,
    a call that has logged fewer than MAXOPBLOCKS distinct blocks finds the transaction
    below LOGSIZE blocks.  Then log_write panics exactly when the log on disk, of which
    one block is the header, has no block left; otherwise it adds the buffer's block to
    the transaction once (a block that is there already is absorbed) and keeps the
    transaction free of duplicates and within LOGSIZE blocks.  A log of more than LOGSIZE
    blocks therefore never panics. *)
Theorem log_space bs n s i b :
  fs_run bs s -> n ∈ bs -> 0 < n ->
  geti (bufs s) i = Some b -> log_lock ∉ held s -> bcache_lock ∉ held s ->
  lh_n (klog s) < LOGSIZE /\
  (l_size (klog s) - 1 <= lh_n (klog s) -> log_write i s = Panic "too big a transaction") /\
  (lh_n (klog s) < l_size (klog s) - 1 \/ LOGSIZE < l_size (klog s) ->
   exists s', log_write i s = Done tt s' /\ held s' = held s /\ log_ok (klog s') /\
     logged (klog s') = (if decide (i32 (b_blockno b) ∈ logged (klog s)) then logged (klog s)
                         else logged (klog s) ++ [i32 (b_blockno b)])).
Proof.
  intros (Hok & Ho & Hb & Hs)%run_preserved Hn Hpos Eb Hl Hc.
  apply list_elem_of_split in Hn as (bs1 & bs2 & ->).
  apply Forall_app in Hb as [Hb1 Hb2]. apply Forall_cons in Hb2 as [Hn Hb2].
  rewrite sum_app in Hs. change (sum (n :: bs2)) with (n + sum bs2) in Hs.
  pose proof (sum_bound _ Hb1). pose proof (sum_bound _ Hb2). rewrite length_app in Ho. simpl in Ho.
  assert (Hlt : lh_n (klog s) < LOGSIZE) by lia.
  split; [done|]. split; [intros Hf; apply log_write_full; auto|]. intros Hsz.
  destruct (add_block_spec (i32 (b_blockno b)) (klog s) Hok Hlt) as (Hok' & Hlog & _).
  eexists. split; [by apply log_write_eq; try done; lia|]. split; [done|]. split; [exact Hok'|exact Hlog].
Qed.

End Runs.

(** ** The log that mkfs makes *)

Section TooSmall.
#[local] Existing Instance sync_disk.
#[local] Instance few : Fuel := 1%nat.

(** mkfs sets sb.nlog to LOGSIZE, header included; each buffer holds a block of
    its own. *)
Definition log_kernel : kernel :=
  demo_kernel {{ klog := Log 2 LOGSIZE 0 0 1 0 (replicate 30 0);
    bufs := (fun k => blank_buf {{ b_blockno := 100 + Z.of_nat k }}) <$> seq 0 31 }}.

(** Log the buffers [i], [i + 1], ..., [n] of them. *)
Fixpoint write_bufs (i : Z) (n : nat) : M kernel unit :=
  match n with
  | O => ret tt
  | Datatypes.S k => log_write i;;; write_bufs (i + 1) k
  end.

(** begin_op admits three calls on the file system that mkfs makes, and the
    first two may log MAXOPBLOCKS blocks each; but the third call panics the
    kernel at its tenth block, because log_write allows only log.size - 1 blocks
    and begin_op counts with LOGSIZE. *)
Lemma log_too_small :
  (exists s, (begin_op;;; begin_op;;; begin_op;;; write_bufs 0 10;;; write_bufs 10 10;;; write_bufs 20 9) log_kernel
             = Done tt s /\ outstanding (klog s) = 3 /\ lh_n (klog s) = 29) /\
  (begin_op;;; begin_op;;; begin_op;;; write_bufs 0 10;;; write_bufs 10 10;;; write_bufs 20 10) log_kernel
  = Panic "too big a transaction".
Proof.
  split; [|vm_compute; reflexivity].
  set (p := (begin_op;;; _) log_kernel).
  assert (Hp : match p with Done _ s => outstanding (klog s) = 3 /\ lh_n (klog s) = 29 | _ => False end)
    by (vm_compute; done).
  destruct p as [[] s| | | |]; try done. by exists s.
Qed.

(** With a log one block larger the same run goes through. *)
Lemma demo_log_ok : log_ok (Log 2 31 0 0 1 0 (replicate 30 0)).
Proof. split; [done|]. split; [vm_compute; intuition congruence|constructor]. Qed.

Definition big_log_kernel : kernel := log_kernel {{ klog := Log 2 31 0 0 1 0 (replicate 30 0) }}.

Definition begun : kernel := big_log_kernel {{ klog := Log 2 31 1 0 1 0 (replicate 30 0) }}.

Lemma log_space_witness :
  begin_op big_log_kernel = Done tt begun /\
  exists s', log_write 3 begun = Done tt s' /\ logged (klog s') = [103].
Proof.
  assert (E : begin_op big_log_kernel = Done tt begun)
    by (apply (begin_op_eq 0); [done|apply not_elem_of_empty|done|vm_compute; congruence]).
  split; [exact E|].
  destruct (log_space [MAXOPBLOCKS] MAXOPBLOCKS begun 3 (blank_buf {{ b_blockno := 103 }})) as (_ & _ & Hgo).
  - apply (RunBegin [] big_log_kernel begun); [|done]. by apply RunStart; [apply demo_log_ok| |].
  - by left.
  - unfold MAXOPBLOCKS. lia.
  - reflexivity.
  - apply not_elem_of_empty.
  - apply not_elem_of_empty.
  - destruct Hgo as (s' & E' & _ & _ & Hl); [by right|]. exists s'. split; [exact E'|exact Hl].
Defined.

End TooSmall.
