(* ===== verification/LogCrash.v ===== *)
(** Transactions in the cache: a transaction is the list of blocks it changes,
    each pinned in the cache, and write_log() copies them to the log. *)

From stdpp Require Import functions.
From S2P Require Import Prelude Mem Riscv Locks Kalloc Vm Proc ProcFacts Kernel KernelFacts Sleeplock Bio BioRing BioFacts Bytes Log LogProps.

(** ** The operations the log builds on *)

Lemma bdata_eq i x s : geti (bufs s) i = Some x -> bdata i s = Done (b_data x) s.
Proof. intros Hx. unfold bdata. by rewrite (bind_done _ _ _ _ _ (elem_ok bufs "buf" i x s Hx)). Qed.

(** A loop over the transaction's blocks. *)
Lemma for_tail_spec (I : Z -> kernel -> Prop) body s :
  0 <= lh_n (klog s) -> I 0 s ->
  (forall t s1, 0 <= t < lh_n (klog s) -> klog s1 = klog s -> I t s1 ->
     exists s2, body t s1 = Done tt s2 /\ klog s2 = klog s /\ I (t + 1) s2) ->
  exists s', for_tail body s = Done tt s' /\ klog s' = klog s /\ I (lh_n (klog s)) s'.
Proof.
  intros Hn HI0 Hbody. unfold for_tail. unfold bind at 1. cbn [gets bindp].
  set (N := lh_n (klog s)) in *.
  assert (forall k t s1, N - t = Z.of_nat k -> 0 <= t -> klog s1 = klog s -> I t s1 ->
    exists s', loop (Datatypes.S k) (fun tail => bind (gets klog) (fun l =>
      if tail <? lh_n l then bind (body tail) (fun _ => continue (tail + 1)) else break tt)) t s1
      = Done tt s' /\ klog s' = klog s /\ I N s') as Hloop.
  { induction k as [|k IH]; intros t s1 Hk Ht Hl HI.
    - exists s1. split_and!; [|done|by replace N with t by lia]. apply loop_break.
      unfold bind at 1. cbn [gets bindp]. rewrite Hl. fold N. by rewrite (proj2 (Z.ltb_ge _ _)) by lia.
    - destruct (Hbody t s1) as (s2 & E & Hl2 & HI2); [lia|done..|].
      destruct (IH (t + 1) s2) as (s' & E' & Hl' & HI'); [lia|lia|done..|].
      exists s'. split_and!; [|done..]. erewrite loop_continue; [exact E'|].
      unfold bind at 1. cbn [gets bindp]. rewrite Hl. fold N. rewrite (proj2 (Z.ltb_lt _ _)) by lia.
      by rewrite (bind_done _ _ _ _ _ E). }
  apply Hloop; [lia|lia|done..].
Qed.

(** The disk after some more writes. *)
Definition dapp (d : diskstate) (ws : list (Z * list Z)) : diskstate :=
  d {{ d_writes ::= fun l => l ++ ws }}.

Lemma dapp_nil d : dapp d [] = d.
Proof. destruct d. unfold dapp. simpl. by rewrite app_nil_r. Qed.

Lemma dapp_app d ws ws' : dapp (dapp d ws) ws' = dapp d (ws ++ ws').
Proof. destruct d. unfold dapp. simpl. by rewrite <- app_assoc. Qed.

Lemma block_dapp d ws b : block (dapp d ws) b = last_write ws b (block d b).
Proof. destruct d. unfold block, dapp. simpl. apply last_write_app. Qed.

(** No other held buffer: bread's condition. *)
Lemma held_other D me r i x s b :
  bc D me r ({[i]} ∪ ∅) s -> geti (bufs s) i = Some x -> b_blockno x <> b ->
  forall j y, j ∈ ({[i]} ∪ ∅ : gset Z) -> geti (bufs s) j = Some y -> ~ for_block D b y.
Proof.
  intros Hi Hx Hne j y Hj Hy [_ Hb]. assert (j = i) as -> by set_solver. congruence.
Qed.

Section log.
Context (D me : Z).

#[local] Abbreviation bc := (bc D me).
#[local] Abbreviation content := (content D).
#[local] Abbreviation taken := (taken D me).

(** ** A transaction *)

(** The log of [s] describes the blocks [homes], logged from block [start]+1. *)
Record txn (l : logstate) (start : Z) (homes : list Z) : Prop := {
  tx_dev : l_dev l = D;
  tx_start : l_start l = start;
  tx_n : lh_n l = Z.of_nat (length homes);
  tx_homes : forall t h, homes !! t = Some h -> geti (lh_block l) (Z.of_nat t) = Some h;
  tx_nodup : NoDup homes;
  tx_out : forall h, h ∈ homes -> ~ (start <= h <= start + Z.of_nat (length homes));
}.

(** A block that is pinned in the cache. *)
Definition pinned (r : Z -> Z) (s : kernel) (h : Z) : Prop :=
  exists i x, geti (bufs s) i = Some x /\ for_block D h x /\ b_valid x <> 0 /\ 0 < r i.

(** A buffer to spare, and two of them. *)
Definition spare (r : Z -> Z) : Prop := exists j, (0 <= j < NBUF) /\ r j = 0.

Definition spare_pair (r : Z -> Z) : Prop :=
  exists j k, j <> k /\ (0 <= j < NBUF) /\ (0 <= k < NBUF) /\ r j = 0 /\ r k = 0.

Lemma spare_one r : spare r -> exists j, (0 <= j < NBUF) /\ r j = 0 /\ j ∉ (∅ : gset Z).
Proof. intros (j & Hj & Hr). exists j. set_solver. Qed.

Lemma spare_two r i : spare_pair r -> exists j, (0 <= j < NBUF) /\ r j = 0 /\ j ∉ ({[i]} ∪ ∅ : gset Z).
Proof.
  intros (j & k & Hne & Hj & Hk & Hr & Hr'). destruct (decide (j = i)) as [->|].
  - exists k. set_solver.
  - exists j. set_solver.
Qed.

Lemma pinned_cached r s h : pinned r s h -> exists j z, geti (bufs s) j = Some z /\ for_block D h z.
Proof. intros (j & z & Hz & Hb & _). by exists j, z. Qed.

Lemma pinned_step (P : Z -> Prop) r s s' h :
  stable P s s' ->
  (forall i x, geti (bufs s) i = Some x -> for_block D h x -> 0 < r i -> P i) ->
  pinned r s h -> pinned r s' h.
Proof.
  intros Hs HP (i & x & Hx & [Hd Hb] & Hv & Hr).
  destruct (Hs i x Hx Hv (HP i x Hx (conj Hd Hb) Hr)) as (y & Hy & E1 & E2 & E3 & E4).
  exists i, y. split_and!; [done|split; congruence|done|done].
Qed.

(** The held buffer of a pinned block is pinned. *)
Lemma pinned_held r h s i x b :
  bc r h s -> pinned r s b -> geti (bufs s) i = Some x -> for_block D b x -> 0 < r i.
Proof.
  intros Hi (j & y & Hy & Hb & _ & Hr) Hx Hbx.
  by rewrite (bc_uniq _ _ _ _ _ Hi i j x y b Hx Hy Hbx Hb).
Qed.

(** A taken buffer as a held one. *)
Lemma taken_here r h s b i y :
  taken r h s b i y -> is_Some (geti (bufs s) i) ->
  geti (bufs (with_buf i y s)) i = Some y.
Proof. intros Ht [x Hx]. apply geti_seti_eq. by eapply geti_Some_lt. Qed.

Lemma taken_is_Some r h s b i y : bc r h s -> taken r h s b i y -> is_Some (geti (bufs s) i).
Proof.
  intros Hi Ht. destruct (bc_ring _ _ _ _ _ Hi) as [order Hr]. apply (ring_geti _ order); [done|].
  pose proof (tk_range _ _ _ _ _ _ _ _ Ht). lia.
Qed.

(** A home is not the block of the log that it is copied to. *)
Lemma home_block s0 start homes t h :
  txn (klog s0) start homes -> homes !! t = Some h -> h <> start + Z.of_nat t + 1 /\ h ∈ homes.
Proof.
  intros Htx Ht. pose proof (list_elem_of_lookup_2 _ _ _ Ht) as Hin. split; [|done]. intros ->.
  apply (tx_out _ _ _ Htx _ Hin). apply lookup_lt_Some in Ht. lia.
Qed.

(** ** write_log *)

Context `{Fuel} `{DiskDriver} (n : nat) (Hfuel : fuel = Datatypes.S n).

(** memmove into a held buffer and bwrite it. *)
Lemma store_write_spec r h s i x b data :
  bc r h s -> i ∈ h -> geti (bufs s) i = Some x -> b_blockno x = b -> length data = bsize ->
  exists s1 s' x', bstore i 0 data s = Done tt s1 /\ bwrite i s1 = Done tt s' /\
    bc r h s' /\ (forall b', content s' b' = if decide (b' = b) then data else content s b') /\
    stable (fun j => j <> i) s s' /\ disk s' = disk (with_write b data s) /\ klog s' = klog s /\
    geti (bufs s') i = Some x' /\ b_blockno x' = b /\ b_data x' = data.
Proof.
  intros Hi Hih Hx Hb Hl.
  assert (splice 0 data (b_data x) = data) as Hsp.
  { apply splice_all. rewrite Hl. symmetry. by apply (bc_len _ _ _ _ _ Hi i). }
  pose proof (bstore_eq 0 data i x s Hx) as Hst. rewrite Hsp in Hst.
  pose proof (store_bc D me r h s i x data Hi Hih Hx Hl) as Hi1.
  pose proof (store_content D me r h s b i x data Hi Hih Hx Hb Hl) as Hc1.
  set (s1 := with_buf i (stored data x) s) in *.
  assert (geti (bufs s1) i = Some (stored data x)) as Hx1.
  { apply geti_seti_eq. by eapply geti_Some_lt. }
  pose proof (bwrite_eq D me n Hfuel r h s1 i _ Hi1 Hih Hx1) as Hw.
  destruct (bwrite_bc D me r h s1 i _ Hi1 Hih Hx1) as [Hi2 Hc2].
  change (b_blockno (stored data x)) with (b_blockno x) in *. rewrite Hb in *.
  exists s1, (with_write b data s1), (stored data x). split_and!; try done.
  - intros b'. by rewrite Hc2, Hc1.
  - by apply store_stable.
Qed.

Section write_log.
Context (r : Z -> Z) (s0 : kernel) (start : Z) (homes : list Z).
Context (Htx : txn (klog s0) start homes) (Hspare : spare r).

(** The writes of the first blocks of the log. *)
Definition log_writes (datas : list (list Z)) : list (Z * list Z) :=
  imap (fun u d => (start + Z.of_nat u + 1, d)) datas.

Definition datas : list (list Z) := content s0 <$> homes.

Record logging (t : nat) (s : kernel) : Prop := {
  lg_bc : bc r ∅ s;
  lg_pinned : forall h, h ∈ homes -> pinned r s h;
  lg_disk : disk s = dapp (disk s0) (log_writes (take t datas));
  lg_log : forall u h, (u < t)%nat -> homes !! u = Some h ->
    content s (start + Z.of_nat u + 1) = content s0 h;
  lg_other : forall b, ~ (start < b <= start + Z.of_nat (length homes)) -> content s b = content s0 b;
}.

Lemma write_log_body t h s1 :
  homes !! t = Some h -> klog s1 = klog s0 -> logging t s1 ->
  exists s2,
    bind (gets klog) (fun l =>
    bind (bread (l_dev l) (l_start l + Z.of_nat t + 1)) (fun to =>
    bind (lh_at l (Z.of_nat t)) (fun home =>
    bind (bread (l_dev l) home) (fun from =>
    bind (bdata from) (fun data =>
    bind (bstore to 0 data) (fun _ =>
    bind (bwrite to) (fun _ =>
    bind (brelse from) (fun _ => brelse to)))))))) s1 = Done tt s2 /\
    klog s2 = klog s0 /\ logging (t + 1) s2.
Proof.
  intros Ht Hl1 [Hi1 Hp1 Hd1 Hlg1 Ho1]. set (b := start + Z.of_nat t + 1).
  destruct (home_block s0 start homes t h Htx Ht) as [Hhb Hhin].
  (* the two reads *)
  destruct (bread_spec D me n Hfuel r ∅ s1 b Hi1) as (i1 & y1 & E1 & T1); [set_solver|by apply spare_one|].
  pose proof (taken_here _ _ _ _ _ _ T1 (taken_is_Some _ _ _ _ _ _ Hi1 T1)) as Hy1.
  set (s2 := with_buf i1 y1 s1) in *. pose proof (tk_bc _ _ _ _ _ _ _ _ T1) as Hi2.
  destruct (tk_block _ _ _ _ _ _ _ _ T1) as [Hdev1 Hbn1].
  assert (pinned r s2 h) as Hp2 by (apply (pinned_step (kept r ∅) r s1); [apply T1|by left|by apply Hp1]).
  destruct (bread_cached D me n Hfuel r ({[i1]} ∪ ∅) s2 h Hi2) as (i2 & y2 & E2 & T2);
    [apply (held_other D me _ _ _ _ _ Hi2 Hy1); rewrite Hbn1; by apply not_eq_sym|by eapply pinned_cached|].
  pose proof (taken_here _ _ _ _ _ _ T2 (taken_is_Some _ _ _ _ _ _ Hi2 T2)) as Hy2.
  set (s3 := with_buf i2 y2 s2) in *. pose proof (tk_bc _ _ _ _ _ _ _ _ T2) as Hi3.
  assert (i1 <> i2) as Hne by (pose proof (tk_new _ _ _ _ _ _ _ _ T2); set_solver).
  assert (geti (bufs s3) i1 = Some y1) as Hy1'.
  { unfold s3, with_buf. simpl. by rewrite geti_seti_ne. }
  assert (b_data y2 = content s0 h) as Hdata.
  { rewrite (tk_data _ _ _ _ _ _ _ _ T2), (tk_content _ _ _ _ _ _ _ _ T1). apply Ho1.
    intros Hin. apply (tx_out _ _ _ Htx h Hhin). lia. }
  assert (pinned r s3 h) as Hph.
  { apply (pinned_step (kept r ({[i1]} ∪ ∅)) r s2); [apply T2|by left|done]. }
  assert (0 < r i2) as Hr2 by apply (pinned_held _ _ _ _ _ _ Hi3 Hph Hy2), T2.
  (* the store and the write *)
  destruct (store_write_spec r _ s3 i1 y1 b (b_data y2) Hi3) as
    (s4 & s5 & x5 & E4 & E5 & Hi5 & Hc5 & Hs5 & Hd5 & Hk5 & Hx5 & Hxb5 & Hxd5); [set_solver|done|done| |].
  { rewrite Hdata. rewrite <- (Ho1 h); [by apply (content_len D me r ∅)|].
    intros Hin. apply (tx_out _ _ _ Htx h Hhin). lia. }
  destruct (Hs5 i2 y2 Hy2) as (y5 & Hy5 & F1 & F2 & F3 & F4); [rewrite (tk_valid _ _ _ _ _ _ _ _ T2); lia|done|].
  (* the releases *)
  destruct (brelse_spec D me n Hfuel r _ s5 i2 y5 Hi5) as (s6 & E6 & Hi6 & Hc6 & Hs6 & Hd6 & Hk6);
    [set_solver|done|lia|].
  destruct (Hs6 (fun _ => True) i1 x5 Hx5) as (x6 & Hx6 & G1 & G2 & G3 & G4); [|done|].
  { pose proof (bc_lock _ _ _ _ _ Hi5 i1 x5 Hx5) as Hlk. rewrite decide_True in Hlk by set_solver. lia. }
  destruct (brelse_spec D me n Hfuel r _ s6 i1 x6 Hi6) as (s7 & E7 & Hi7 & Hc7 & Hs7 & Hd7 & Hk7);
    [set_solver|done| |].
  { intros _. rewrite G4, G2, Hxb5, Hxd5, Hd6, Hd5, block_write. by rewrite decide_True. }
  exists s7. split_and!.
  - unfold bind at 1. cbn [gets bindp]. rewrite Hl1, (tx_dev _ _ _ Htx), (tx_start _ _ _ Htx). fold b.
    rewrite (bind_done _ _ _ _ _ E1). fold s2. unfold lh_at. rewrite (tx_homes _ _ _ Htx t h Ht).
    unfold bind at 1. cbn [ret bindp]. rewrite (bind_done _ _ _ _ _ E2). fold s3.
    rewrite (bind_done _ _ _ _ _ (bdata_eq i2 y2 s3 Hy2)).
    rewrite (bind_done _ _ _ _ _ E4), (bind_done _ _ _ _ _ E5), (bind_done _ _ _ _ _ E6). exact E7.
  - rewrite Hk7, Hk6, Hk5. done.
  - assert (({[i2]} ∪ ({[i1]} ∪ ∅)) ∖ {[i2]} ∖ {[i1]} = (∅ : gset Z)) as Hset by set_solver.
    rewrite Hset in Hi7. split.
    + done.
    + intros g Hg. apply (pinned_step (fun _ => True) r s6); [by apply Hs7|done|].
      apply (pinned_step (fun _ => True) r s5); [by apply Hs6|done|].
      apply (pinned_step (fun j => j <> i1) r s3); [done| |].
      * intros j z Hz Hb _ ->. assert (z = y1) as -> by congruence. destruct Hb as [_ Hb].
        apply (tx_out _ _ _ Htx g Hg). apply lookup_lt_Some in Ht. lia.
      * apply (pinned_step (kept r ({[i1]} ∪ ∅)) r s2); [apply T2|by left|].
        apply (pinned_step (kept r ∅) r s1); [apply T1|by left|by apply Hp1].
    + rewrite Hd7, Hd6, Hd5. change (disk (with_write b (b_data y2) s3)) with (dapp (disk s1) [(b, b_data y2)]).
      rewrite Hd1, dapp_app. f_equal.
      assert (datas !! t = Some (content s0 h)) as Hdt by (unfold datas; by rewrite list_lookup_fmap, Ht).
      rewrite Nat.add_1_r, (take_S_r _ _ _ Hdt). unfold log_writes. rewrite imap_app. simpl.
      pose proof (lookup_lt_Some _ _ _ Hdt). rewrite length_take, Nat.min_l, Nat.add_0_r, Hdata by lia. done.
    + intros u g Hu Hg. rewrite Hc7, Hc6, Hc5. case_decide as Heq.
      * assert (u = t) as -> by lia. congruence.
      * rewrite (tk_content _ _ _ _ _ _ _ _ T2), (tk_content _ _ _ _ _ _ _ _ T1). apply Hlg1; [|done].
        assert (u <> t); [|lia]. intros ->. done.
    + intros b' Hb'. rewrite Hc7, Hc6, Hc5, decide_False.
      * rewrite (tk_content _ _ _ _ _ _ _ _ T2), (tk_content _ _ _ _ _ _ _ _ T1). by apply Ho1.
      * intros ->. apply Hb'. apply lookup_lt_Some in Ht. lia.
Qed.

Lemma write_log_spec :
  bc r ∅ s0 -> (forall h, h ∈ homes -> pinned r s0 h) ->
  exists s', write_log s0 = Done tt s' /\ klog s' = klog s0 /\ logging (length homes) s'.
Proof.
  intros Hi Hp. unfold write_log.
  destruct (for_tail_spec (fun t s => logging (Z.to_nat t) s) (fun tail =>
    bind (gets klog) (fun l =>
    bind (bread (l_dev l) (l_start l + tail + 1)) (fun to =>
    bind (lh_at l tail) (fun home =>
    bind (bread (l_dev l) home) (fun from =>
    bind (bdata from) (fun data =>
    bind (bstore to 0 data) (fun _ =>
    bind (bwrite to) (fun _ =>
    bind (brelse from) (fun _ => brelse to))))))))) s0) as (s' & E & Hk & Hl).
  - rewrite (tx_n _ _ _ Htx). lia.
  - split; try done; [by rewrite dapp_nil|lia].
  - intros t s1 Ht Hk HI. rewrite (tx_n _ _ _ Htx) in Ht.
    destruct (lookup_lt_is_Some_2 homes (Z.to_nat t)) as [h Hh]; [lia|].
    destruct (write_log_body _ h s1 Hh Hk HI) as (s2 & E & Hk2 & HI2).
    rewrite Z2Nat.id in E by lia. exists s2. split_and!; [exact E|done|].
    by replace (Z.to_nat (t + 1)) with (Z.to_nat t + 1)%nat by lia.
  - exists s'. split_and!; [exact E|done|]. rewrite (tx_n _ _ _ Htx), Nat2Z.id in Hl. done.
Qed.
End write_log.
End log.
