(* ===== verification/LogInstall.v ===== *)
(** Installing a transaction: the header block (write_head() stores what
    read_head() reads back), and install_trans(), which copies every logged block
    to its home. *)

From stdpp Require Import functions.
From S2P Require Import Prelude Mem Riscv Locks Kalloc Vm Proc ProcFacts Kernel KernelFacts Sleeplock Bio BioRing BioFacts Bytes Log LogProps LogCrash.

(** A header block with the count and the block numbers of a transaction. *)
Record heads (data : list Z) (homes : list Z) : Prop := {
  hd_n : field 0 4 data = Z.of_nat (length homes);
  hd_block : forall t h, homes !! t = Some h -> field (4 + 4 * Z.of_nat t) 4 data = h;
}.

(** What the log of [l] holds: a transaction of the blocks [homes]. *)
Record holds (l : logstate) (homes : list Z) : Prop := {
  ho_n : lh_n l = Z.of_nat (length homes);
  ho_block : forall t h, homes !! t = Some h -> geti (lh_block l) (Z.of_nat t) = Some h;
  ho_small : Z.of_nat (length homes) <= LOGSIZE;
  ho_range : Forall (fun h => 0 <= h < 2 ^ 31) homes;
}.

Lemma stored_stored d d' x : stored d' (stored d x) = stored d' x.
Proof. by destruct x. Qed.

Lemma with_buf_twice i y z s : with_buf i z (with_buf i y s) = with_buf i z s.
Proof. apply seti_seti_bufs. Qed.

Lemma with_buf_here i y x s : geti (bufs s) i = Some x -> geti (bufs (with_buf i y s)) i = Some y.
Proof. intros Hx. apply geti_seti_eq. by eapply geti_Some_lt. Qed.

(** The stores of write_head, up to block number [t]. *)
Record header_upto (homes : list Z) (t : Z) (data : list Z) : Prop := {
  hu_len : length data = bsize;
  hu_n : field 0 4 data = Z.of_nat (length homes);
  hu_block : forall u h, Z.of_nat u < t -> homes !! u = Some h -> field (4 + 4 * Z.of_nat u) 4 data = h;
}.

Lemma header_start homes data :
  length data = bsize -> Z.of_nat (length homes) <= LOGSIZE ->
  header_upto homes 0 (splice 0 (int_bytes 4 (u32 (Z.of_nat (length homes)))) data).
Proof.
  intros Hl Hn. assert (bsize = 1024%nat) as Hb by done. split.
  - rewrite splice_length; rewrite ?length_int_bytes; lia.
  - unfold LOGSIZE, MAXOPBLOCKS in Hn. rewrite field_splice_int; rewrite ?u32_small; lia.
  - lia.
Qed.

Lemma header_step homes t h data :
  Z.of_nat (length homes) <= LOGSIZE -> homes !! t = Some h -> 0 <= h < 2 ^ 31 ->
  header_upto homes (Z.of_nat t) data ->
  header_upto homes (Z.of_nat t + 1) (splice (4 + 4 * Z.of_nat t) (int_bytes 4 (u32 h)) data).
Proof.
  intros Hn Ht Hh [Hl H0 Hu]. assert (bsize = 1024%nat) as Hb by done.
  unfold LOGSIZE, MAXOPBLOCKS in Hn. pose proof (lookup_lt_Some _ _ _ Ht) as Hlt. split.
  - rewrite splice_length; rewrite ?length_int_bytes; lia.
  - rewrite field_splice_ne; rewrite ?length_int_bytes; lia.
  - intros u g Hut Hg. destruct (decide (u = t)) as [->|Hne].
    + assert (g = h) as -> by congruence. rewrite field_splice_int; rewrite ?u32_small; lia.
    + rewrite field_splice_ne; rewrite ?length_int_bytes; [apply Hu; [lia|done]|lia..].
Qed.

(** ** write_head and read_head *)

Section head.
Context `{Fuel} `{DiskDriver} (n : nat) (Hfuel : fuel = Datatypes.S n).
Context (D me : Z).

#[local] Abbreviation bc := (bc D me).
#[local] Abbreviation content := (content D).
#[local] Abbreviation taken := (taken D me).

(** The loop of write_head fills in the header, which is in buffer [i]. *)
Lemma fill_header homes s i x data :
  geti (bufs s) i = Some x -> holds (klog s) homes -> header_upto homes 0 data ->
  exists data', heads data' homes /\ length data' = bsize /\
    for_tail (fun k => bind (lh_at (klog s) k) (fun b =>
      bstore i (4 + 4 * k) (int_bytes 4 (u32 b)))) (with_buf i (stored data x) s) =
    Done tt (with_buf i (stored data' x) s).
Proof.
  intros Hx [Hn Hb Hs Hr] Hd. set (s1 := with_buf i (stored data x) s).
  destruct (for_tail_spec (fun t s' => exists d, header_upto homes t d /\ s' = with_buf i (stored d x) s)
    (fun k => bind (lh_at (klog s) k) (fun b => bstore i (4 + 4 * k) (int_bytes 4 (u32 b)))) s1)
    as (s' & E & _ & d & [Hl Hd0 Hu] & ->).
  - change (klog s1) with (klog s). lia.
  - by exists data.
  - intros t s2 Ht _ (d & Hd2 & ->). change (klog s1) with (klog s) in *. rewrite Hn in Ht.
    destruct (lookup_lt_is_Some_2 homes (Z.to_nat t)) as [h Hh]; [lia|].
    assert (0 <= h < 2 ^ 31) as Hrh by (rewrite Forall_forall in Hr; by apply Hr, (list_elem_of_lookup_2 _ _ _ Hh)).
    pose proof (header_step homes (Z.to_nat t) h d Hs Hh Hrh) as Hst.
    pose proof (Hb _ _ Hh) as Hgh. rewrite Z2Nat.id in Hst, Hgh by lia.
    eexists. split; [|split; [|eexists; split; [exact (Hst Hd2)|reflexivity]]]; [|done].
    unfold lh_at. rewrite Hgh. unfold bind at 1. cbn [ret bindp].
    rewrite (bstore_eq _ _ i (stored d x)) by by eapply with_buf_here.
    by rewrite with_buf_twice, stored_stored.
  - exists d. change (klog s1) with (klog s) in Hu. split_and!; [|done|done].
    split; [done|]. intros t h Ht. apply Hu; [|done]. rewrite Hn. apply lookup_lt_Some in Ht. lia.
Qed.

(** Write a filled buffer to the disk and give it back. *)
Lemma flush_spec r s i x :
  bc r {[i]} s -> geti (bufs s) i = Some x ->
  exists s', bind (bwrite i) (fun _ => brelse i) s = Done tt s' /\ bc r ∅ s' /\
    (forall b, content s' b = content s b) /\ (forall P, stable P s s') /\
    disk s' = dapp (disk s) [(b_blockno x, b_data x)] /\ klog s' = klog s.
Proof.
  intros Hi Hx. assert (i ∈ ({[i]} : gset Z)) as Hin by set_solver.
  pose proof (bwrite_eq D me n Hfuel r _ s i x Hi Hin Hx) as Ew.
  destruct (bwrite_bc D me r _ s i x Hi Hin Hx) as [Hi1 Hc1].
  set (s1 := with_write (b_blockno x) (b_data x) s) in *.
  destruct (brelse_spec D me n Hfuel r _ s1 i x Hi1 Hin Hx) as (s2 & Er & Hi2 & Hc2 & Hs2 & Hd2 & Hk2).
  { intros _. unfold s1. rewrite block_write. by rewrite decide_True. }
  exists s2. split_and!.
  - by rewrite (bind_done _ _ _ _ _ Ew).
  - by replace (∅ : gset Z) with ({[i]} ∖ {[i]} : gset Z) by set_solver.
  - intros b. by rewrite Hc2.
  - intros P. exact (Hs2 P).
  - by rewrite Hd2.
  - by rewrite Hk2.
Qed.

Lemma write_head_spec r s start homes :
  bc r ∅ s -> spare r -> l_dev (klog s) = D -> l_start (klog s) = start -> holds (klog s) homes ->
  exists s' data, write_head s = Done tt s' /\ heads data homes /\ length data = bsize /\ bc r ∅ s' /\
    (forall b, content s' b = if decide (b = start) then data else content s b) /\
    (forall h, h <> start -> pinned D r s h -> pinned D r s' h) /\
    disk s' = dapp (disk s) [(start, data)] /\ klog s' = klog s.
Proof.
  intros Hi Hsp Hdev Hst Hho.
  destruct (bread_spec D me n Hfuel r ∅ s start Hi) as (i & y & E1 & T1); [set_solver|by eapply spare_one|].
  pose proof (taken_here D me _ _ _ _ _ _ T1 (taken_is_Some D me _ _ _ _ _ _ Hi T1)) as Hy.
  set (s1 := with_buf i y s) in *. pose proof (tk_bc _ _ _ _ _ _ _ _ T1) as Hi1.
  destruct (tk_block _ _ _ _ _ _ _ _ T1) as [_ Hbn].
  replace ({[i]} ∪ ∅ : gset Z) with ({[i]} : gset Z) in Hi1 by set_solver.
  assert (i ∈ ({[i]} : gset Z)) as Hin by set_solver.
  pose proof (header_start homes (b_data y) (bc_len _ _ _ _ _ Hi1 i y Hy) (ho_small _ _ Hho)) as Hd0.
  set (data0 := splice 0 _ (b_data y)) in *.
  destruct (fill_header homes s1 i y data0 Hy Hho Hd0) as (data & Hh & Hl & E2).
  pose proof (store_bc D me r _ s1 i y data Hi1 Hin Hy Hl) as Hi2.
  pose proof (store_content D me r _ s1 start i y data Hi1 Hin Hy Hbn Hl) as Hc2.
  pose proof (store_stable s1 i y data Hy) as Hs2. set (s2 := with_buf i (stored data y) s1) in *.
  assert (geti (bufs s2) i = Some (stored data y)) as Hy2 by by eapply with_buf_here.
  destruct (flush_spec r s2 i _ Hi2 Hy2) as (s3 & E3 & Hi3 & Hc3 & Hs3 & Hd3 & Hk3).
  exists s3, data. split_and!; try done.
  - unfold write_head. unfold bind at 1. cbn [gets bindp]. rewrite Hdev, Hst.
    rewrite (bind_done _ _ _ _ _ E1). fold s1.
    rewrite (bind_done _ _ _ _ _ (bstore_eq _ _ i y s1 Hy)), (ho_n _ _ Hho). fold data0.
    rewrite (bind_done _ _ _ _ _ E2). exact E3.
  - intros b. rewrite Hc3, Hc2. case_decide; [done|]. by apply (tk_content _ _ _ _ _ _ _ _ T1).
  - intros h Hne Hp. apply (pinned_step D (fun _ => True) r s2); [by apply Hs3|done|].
    apply (pinned_step D (fun j => j <> i) r s1); [done| |].
    + intros j z Hz [_ Hb] _ ->. assert (z = y) as -> by congruence. congruence.
    + apply (pinned_step D (kept r ∅) r s); [apply T1|by left|done].
  - rewrite Hd3. change (b_blockno (stored data y)) with (b_blockno y). by rewrite Hbn.
Qed.

End head.

Lemma last_write_other ws b d : b ∉ ws.*1 -> last_write ws b d = d.
Proof.
  revert d. induction ws as [|[b1 v] ws IH]; intros d Hb; [done|]. simpl in *.
  apply not_elem_of_cons in Hb as [Hne Hb]. rewrite (proj2 (Z.eqb_neq _ _)) by congruence. by apply IH.
Qed.

Lemma last_write_one b1 v b d : last_write [(b1, v)] b d = if decide (b = b1) then v else d.
Proof. simpl. destruct (Z.eqb_spec b1 b), (decide (b = b1)); congruence. Qed.

Section install.
Context (D me : Z).

#[local] Abbreviation bc := (bc D me).
#[local] Abbreviation content := (content D).
#[local] Abbreviation taken := (taken D me).

(** More pins elsewhere do not matter. *)
Lemma pinned_other r r' s g :
  (forall i x, geti (bufs s) i = Some x -> for_block D g x -> r' i = r i) ->
  pinned D r s g -> pinned D r' s g.
Proof.
  intros Hr (i & x & Hx & Hb & Hv & Hp). exists i, x. rewrite (Hr i x Hx Hb). done.
Qed.

(** [if (recovering == 0) bunpin(dbuf)]. *)
Lemma unpin_spec (rec : bool) r h s i x :
  bc r h s -> i ∈ h -> geti (bufs s) i = Some x -> (rec = false -> 0 < r i) ->
  exists r' s', when (negb rec) (bunpin i) s = Done tt s' /\ bc r' h s' /\
    (forall j, j <> i -> r' j = r j) /\ (r i = 0 -> r' i = 0) /\
    (forall b, content s' b = content s b) /\ (forall P, stable P s s') /\
    disk s' = disk s /\ klog s' = klog s.
Proof.
  intros Hi Hih Hx Hrec. destruct rec; cbn [negb when].
  - exists r, s. split_and!; try done. intros P j z Hz Hv _. by exists z.
  - destruct (bunpin_spec D me r h s i x Hi Hih Hx) as (E & Hi' & Hc & Hs); [specialize (Hrec eq_refl); lia|].
    exists (<[i := r i - 1]> r), (with_buf i (dropped x) s). split_and!; try done.
    + intros j Hj. by apply fn_lookup_insert_ne.
    + specialize (Hrec eq_refl). lia.
Qed.

Context (rec : bool) (s0 : kernel) (start : Z) (homes : list Z).
Context (Htx : txn D (klog s0) start homes).

(** The writes to the homes. *)
Definition home_writes : list (Z * list Z) :=
  imap (fun u h => (h, content s0 (start + Z.of_nat u + 1))) homes.

Record installing (t : nat) (s : kernel) : Prop := {
  in_bc : exists r, bc r ∅ s /\ spare r /\ (rec = true -> spare_pair r) /\
    (rec = false -> forall u h, (t <= u)%nat -> homes !! u = Some h -> pinned D r s h);
  in_disk : disk s = dapp (disk s0) (take t home_writes);
  in_content : forall b, content s b = last_write (take t home_writes) b (content s0 b);
}.

Lemma home_writes_homes : home_writes.*1 = homes.
Proof.
  unfold home_writes. apply list_eq. intros u. rewrite list_lookup_fmap, list_lookup_imap.
  by destruct (homes !! u).
Qed.

Lemma home_writes_lookup t h :
  homes !! t = Some h -> home_writes !! t = Some (h, content s0 (start + Z.of_nat t + 1)).
Proof. intros Ht. unfold home_writes. by rewrite list_lookup_imap, Ht. Qed.

(** The log's blocks are not installed to. *)
Lemma log_untouched t u s :
  installing t s -> (u < length homes)%nat ->
  content s (start + Z.of_nat u + 1) = content s0 (start + Z.of_nat u + 1).
Proof.
  intros Hin Hu. rewrite (in_content _ _ Hin). apply last_write_other. intros Hb.
  assert (start + Z.of_nat u + 1 ∈ homes) as Hh.
  { rewrite <- home_writes_homes. rewrite fmap_take in Hb. by apply elem_of_take in Hb as (? & ?%list_elem_of_lookup_2 & _). }
  apply (tx_out _ _ _ _ Htx _ Hh). lia.
Qed.

Context `{Fuel} `{DiskDriver} (n : nat) (Hfuel : fuel = Datatypes.S n).

Lemma install_body t h s1 :
  homes !! t = Some h -> klog s1 = klog s0 -> installing t s1 ->
  exists s2,
    bind (gets klog) (fun l =>
    bind (bread (l_dev l) (l_start l + Z.of_nat t + 1)) (fun lbuf =>
    bind (lh_at l (Z.of_nat t)) (fun home =>
    bind (bread (l_dev l) home) (fun dbuf =>
    bind (bdata lbuf) (fun data =>
    bind (bstore dbuf 0 data) (fun _ =>
    bind (bwrite dbuf) (fun _ =>
    bind (when (negb rec) (bunpin dbuf)) (fun _ =>
    bind (brelse lbuf) (fun _ => brelse dbuf))))))))) s1 = Done tt s2 /\
    klog s2 = klog s0 /\ installing (t + 1) s2.
Proof.
  intros Ht Hl1 Hin. pose proof Hin as [(r & Hi1 & Hspare & Hpair & Hp1) Hd1 Hc1]. set (b := start + Z.of_nat t + 1).
  pose proof (lookup_lt_Some _ _ _ Ht) as Htlt.
  destruct (home_block D s0 start homes t h Htx Ht) as [Hhb Hhin]. fold b in Hhb.
  (* the two reads *)
  destruct (bread_spec D me n Hfuel r ∅ s1 b Hi1) as (i1 & y1 & E1 & T1); [set_solver|by apply spare_one|].
  pose proof (taken_here D me _ _ _ _ _ _ T1 (taken_is_Some D me _ _ _ _ _ _ Hi1 T1)) as Hy1.
  set (s2 := with_buf i1 y1 s1) in *. pose proof (tk_bc _ _ _ _ _ _ _ _ T1) as Hi2.
  destruct (tk_block _ _ _ _ _ _ _ _ T1) as [Hdev1 Hbn1].
  assert (exists i2 y2, bread D h s2 = Done i2 (with_buf i2 y2 s2) /\ taken r ({[i1]} ∪ ∅) s2 h i2 y2)
    as (i2 & y2 & E2 & T2).
  { pose proof (held_other D me _ _ _ _ h Hi2 Hy1) as Hother. rewrite Hbn1 in Hother.
    destruct rec.
    - apply (bread_spec D me n Hfuel); [done|by apply Hother, not_eq_sym|by apply spare_two, Hpair].
    - apply (bread_cached D me n Hfuel); [done|by apply Hother, not_eq_sym|]. eapply (pinned_cached D r).
      apply (pinned_step D (kept r ∅) r s1); [apply T1|by left|by apply (Hp1 eq_refl t)]. }
  pose proof (taken_here D me _ _ _ _ _ _ T2 (taken_is_Some D me _ _ _ _ _ _ Hi2 T2)) as Hy2.
  set (s3 := with_buf i2 y2 s2) in *. pose proof (tk_bc _ _ _ _ _ _ _ _ T2) as Hi3.
  destruct (tk_block _ _ _ _ _ _ _ _ T2) as [Hdev2 Hbn2].
  assert (i1 <> i2) as Hne by (pose proof (tk_new _ _ _ _ _ _ _ _ T2); set_solver).
  assert (geti (bufs s3) i1 = Some y1) as Hy1'.
  { unfold s3, with_buf. simpl. by rewrite geti_seti_ne. }
  assert (b_data y1 = content s0 b) as Hdata.
  { rewrite (tk_data _ _ _ _ _ _ _ _ T1). by apply (log_untouched t). }
  assert (forall g, pinned D r s1 g -> pinned D r s3 g) as Hpp.
  { intros g Hg. apply (pinned_step D (kept r ({[i1]} ∪ ∅)) r s2); [apply T2|by left|].
    apply (pinned_step D (kept r ∅) r s1); [apply T1|by left|done]. }
  (* the store and the write *)
  destruct (store_write_spec D me n Hfuel r _ s3 i2 y2 h (b_data y1) Hi3) as
    (s4 & s5 & x5 & E4 & E5 & Hi5 & Hc5 & Hs5 & Hd5 & Hk5 & Hx5 & Hxb5 & Hxd5);
    [set_solver|done|done|by apply (bc_len _ _ _ _ _ Hi3 i1)|].
  assert (b_valid x5 <> 0) as Hv5.
  { pose proof (bc_lock _ _ _ _ _ Hi5 i2 x5 Hx5) as Hlk. rewrite decide_True in Hlk by set_solver. lia. }
  (* the pin *)
  destruct (unpin_spec rec r _ s5 i2 x5 Hi5) as (r' & s6 & E6 & Hi6 & Hr6 & Hr6' & Hc6 & Hs6 & Hd6 & Hk6);
    [set_solver|done| |].
  { intros Hrec. eapply pinned_held; [exact Hi3| |exact Hy2|done]. apply Hpp. by eapply (Hp1 Hrec t). }
  (* the releases *)
  destruct (Hs5 i1 y1 Hy1') as (z5 & Hz5 & F1 & F2 & F3 & F4); [rewrite (tk_valid _ _ _ _ _ _ _ _ T1); lia|done|].
  destruct (Hs6 (fun _ => True) i1 z5 Hz5) as (z6 & Hz6 & G1 & G2 & G3 & G4); [done..|].
  destruct (Hs6 (fun _ => True) i2 x5 Hx5) as (x6 & Hx6 & K1 & K2 & K3 & K4); [done..|].
  destruct (brelse_spec D me n Hfuel r' _ s6 i1 z6 Hi6) as (s7 & E7 & Hi7 & Hc7 & Hs7 & Hd7 & Hk7);
    [set_solver|done| |].
  { intros Hr0. rewrite G4, F4, G2, F2, Hbn1, Hd6, Hd5, block_write, decide_False by congruence.
    rewrite (tk_data _ _ _ _ _ _ _ _ T1). apply T1. by rewrite <- Hr6. }
  destruct (Hs7 (fun _ => True) i2 x6 Hx6) as (x7 & Hx7 & L1 & L2 & L3 & L4); [done..|].
  destruct (brelse_spec D me n Hfuel r' _ s7 i2 x7 Hi7) as (s8 & E8 & Hi8 & Hc8 & Hs8 & Hd8 & Hk8);
    [set_solver|done| |].
  { intros _. by rewrite L4, K4, Hxd5, L2, K2, Hxb5, Hd7, Hd6, Hd5, block_write, decide_True. }
  pose proof (home_writes_lookup t h Ht) as Hw.
  exists s8. split_and!.
  - unfold bind at 1. cbn [gets bindp]. rewrite Hl1, (tx_dev _ _ _ _ Htx), (tx_start _ _ _ _ Htx). fold b.
    rewrite (bind_done _ _ _ _ _ E1). fold s2. unfold lh_at. rewrite (tx_homes _ _ _ _ Htx t h Ht).
    unfold bind at 1. cbn [ret bindp]. rewrite (bind_done _ _ _ _ _ E2). fold s3.
    rewrite (bind_done _ _ _ _ _ (bdata_eq i1 y1 s3 Hy1')).
    rewrite (bind_done _ _ _ _ _ E4), (bind_done _ _ _ _ _ E5), (bind_done _ _ _ _ _ E6),
      (bind_done _ _ _ _ _ E7). exact E8.
  - rewrite Hk8, Hk7, Hk6, Hk5. done.
  - assert (({[i2]} ∪ ({[i1]} ∪ ∅)) ∖ {[i1]} ∖ {[i2]} = (∅ : gset Z)) as Hset by set_solver.
    rewrite Hset in Hi8. rewrite Nat.add_1_r. split.
    + assert (forall j, r j = 0 -> r' j = 0) as Hzero.
      { intros j' Hj'. destruct (decide (j' = i2)) as [->|Hn]; [by apply Hr6'|by rewrite Hr6]. }
      exists r'. split; [done|]. split; [|split].
      * destruct Hspare as (j & Hj & Hrj). exists j. auto.
      * intros (j & k & Hjk & Hj & Hk & Hrj & Hrk)%Hpair. exists j, k. auto 10.
      * intros Hrec u g Hu Hg.
        assert (g <> h) as Hgh.
        { intros ->. pose proof (NoDup_lookup _ _ _ _ (tx_nodup _ _ _ _ Htx) Ht Hg). lia. }
        assert (pinned D r s5 g) as Hp5.
        { apply (pinned_step D (fun j => j <> i2) r s3); [done| |apply Hpp, (Hp1 Hrec u); [lia|done]].
          intros j z Hz [_ Hb] _ ->. assert (z = y2) as -> by congruence. congruence. }
        apply (pinned_step D (fun _ => True) r' s7); [by apply Hs8|done|].
        apply (pinned_step D (fun _ => True) r' s6); [by apply Hs7|done|].
        apply (pinned_step D (fun _ => True) r' s5); [by apply Hs6|done|].
        apply (pinned_other r); [|done]. intros j z Hz [_ Hb]. apply Hr6. intros ->.
        assert (z = x5) as -> by congruence. congruence.
    + rewrite Hd8, Hd7, Hd6, Hd5. change (disk (with_write h (b_data y1) s3)) with (dapp (disk s1) [(h, b_data y1)]).
      rewrite Hd1, dapp_app, (take_S_r _ _ _ Hw). by rewrite Hdata.
    + intros b'. rewrite Hc8, Hc7, Hc6, Hc5, (tk_content _ _ _ _ _ _ _ _ T2), (tk_content _ _ _ _ _ _ _ _ T1), Hc1.
      by rewrite (take_S_r _ _ _ Hw), last_write_app, last_write_one, Hdata.
Qed.

Lemma install_spec :
  (exists r, bc r ∅ s0 /\ spare r /\ (rec = true -> spare_pair r) /\ (rec = false -> forall h, h ∈ homes -> pinned D r s0 h)) ->
  exists s', install_trans rec s0 = Done tt s' /\ klog s' = klog s0 /\ installing (length homes) s'.
Proof.
  intros (r & Hi & Hsp & Hsp2 & Hp). unfold install_trans.
  destruct (for_tail_spec (fun t s => installing (Z.to_nat t) s) (fun tail =>
    bind (gets klog) (fun l =>
    bind (bread (l_dev l) (l_start l + tail + 1)) (fun lbuf =>
    bind (lh_at l tail) (fun home =>
    bind (bread (l_dev l) home) (fun dbuf =>
    bind (bdata lbuf) (fun data =>
    bind (bstore dbuf 0 data) (fun _ =>
    bind (bwrite dbuf) (fun _ =>
    bind (when (negb rec) (bunpin dbuf)) (fun _ =>
    bind (brelse lbuf) (fun _ => brelse dbuf)))))))))) s0) as (s' & E & Hk & Hl).
  - rewrite (tx_n _ _ _ _ Htx). lia.
  - split; [|by rewrite dapp_nil|done]. exists r. split; [done|]. split; [done|]. split; [done|].
    intros Hrec u h _ Hh. apply (Hp Hrec). by eapply list_elem_of_lookup_2.
  - intros t s1 Ht Hk HI. rewrite (tx_n _ _ _ _ Htx) in Ht.
    destruct (lookup_lt_is_Some_2 homes (Z.to_nat t)) as [h Hh]; [lia|].
    destruct (install_body _ h s1 Hh Hk HI) as (s2 & E & Hk2 & HI2).
    rewrite Z2Nat.id in E by lia. exists s2. split_and!; [exact E|done|].
    by replace (Z.to_nat (t + 1)) with (Z.to_nat t + 1)%nat by lia.
  - exists s'. split_and!; [exact E|done|]. rewrite (tx_n _ _ _ _ Htx), Nat2Z.id in Hl. done.
Qed.
End install.
