(* ===== verification/LogCommit.v ===== *)
(** Commit is atomic: whatever the disk has performed of a commit's writes when
    the machine stops, recovery leaves either every old block or every new one,
    and recovery may itself be interrupted and started again; then, what commit()
    writes, in order. *)

From stdpp Require Import functions.
From S2P Require Import Prelude Mem Riscv Locks Kalloc Vm SpaceCheck Proc ProcFacts Kernel KernelFacts Sleeplock Bio BioRing BioFacts Bytes Log LogProps LogCrash LogInstall.

(** ** The log on the disk *)

(** The disk's log holds a transaction of the blocks [homes]. *)
Record on_disk (start : Z) (homes : list Z) (d : diskstate) : Prop := {
  od_head : heads (block d start) homes;
  od_small : Z.of_nat (length homes) <= LOGSIZE;
  od_range : Forall (fun h => 0 <= h < 2 ^ 31) homes;
  od_nodup : NoDup homes;
  od_out : forall h, h ∈ homes -> ~ (start <= h <= start + Z.of_nat (length homes));
}.

(** The writes that redo it, and what a block is after them. *)
Definition redo_writes (start : Z) (homes : list Z) (d : diskstate) : list (Z * list Z) :=
  imap (fun u h => (h, block d (start + Z.of_nat u + 1))) homes.

Definition redo (start : Z) (homes : list Z) (d : diskstate) (b : Z) : list Z :=
  last_write (redo_writes start homes d) b (block d b).

Lemma redo_homes start homes d : (redo_writes start homes d).*1 = homes.
Proof.
  unfold redo_writes. apply list_eq. intros u. rewrite list_lookup_fmap, list_lookup_imap.
  by destruct (homes !! u).
Qed.

Lemma last_write_in ws b v d : NoDup (ws.*1) -> (b, v) ∈ ws -> last_write ws b d = v.
Proof.
  revert d. induction ws as [|[b1 v1] ws IH]; intros d Hnd Hin; [by apply elem_of_nil in Hin|].
  simpl in *. apply NoDup_cons in Hnd as [Hb1 Hnd]. apply elem_of_cons in Hin as [[= -> ->]|Hin].
  - rewrite Z.eqb_refl. by apply last_write_other.
  - by apply IH.
Qed.

Lemma empty_on_disk start d : heads (block d start) [] -> on_disk start [] d.
Proof. intros Hh. split; [done|done|constructor|constructor|]. intros h Hh'. by apply elem_of_nil in Hh'. Qed.

(** Some of the redone writes, of any blocks that are logged, change nothing of
    what a redo gives. *)
Lemma redo_some start homes d j :
  on_disk start homes d -> let d' := dapp d (take j (redo_writes start homes d)) in
  on_disk start homes d' /\ forall b, redo start homes d' b = redo start homes d b.
Proof.
  intros Hd d'.
  assert (forall b, start <= b <= start + Z.of_nat (length homes) -> block d' b = block d b) as Hlog.
  { intros b Hb. unfold d'. rewrite block_dapp. apply last_write_other. rewrite fmap_take, redo_homes.
    intros (? & ?%list_elem_of_lookup_2 & _)%elem_of_take. by apply (od_out _ _ _ Hd b). }
  assert (redo_writes start homes d' = redo_writes start homes d) as Hw.
  { unfold redo_writes. apply imap_ext. intros u h Hu%lookup_lt_Some. rewrite Hlog by lia. done. }
  split.
  - destruct Hd as [Hh Hs Hr Hn Ho]. split; try done. by rewrite Hlog by lia.
  - intros b. unfold redo. rewrite Hw. destruct (decide (b ∈ homes)) as [Hb|Hb].
    + rewrite <- (redo_homes start homes d) in Hb. apply list_elem_of_fmap in Hb as ([b' v] & -> & Hv).
    rewrite !(last_write_in _ _ v); [done|rewrite redo_homes; apply Hd|done|rewrite redo_homes; apply Hd|done].
    + rewrite !last_write_other by by rewrite redo_homes. unfold d'. rewrite block_dapp.
      apply last_write_other. rewrite fmap_take, redo_homes.
      by intros (? & ?%list_elem_of_lookup_2 & _)%elem_of_take.
Qed.

(** A redo that is interrupted anywhere, its last write being the empty header,
    can be done again. *)
Lemma redo_prefix start homes d hdr k :
  on_disk start homes d -> heads hdr [] ->
  let d' := dapp d (take k (redo_writes start homes d ++ [(start, hdr)])) in
  exists homes', on_disk start homes' d' /\ (length homes' <= length homes)%nat /\
    forall b, b <> start -> redo start homes' d' b = redo start homes d b.
Proof.
  intros Hd Hh d'. assert (length (redo_writes start homes d) = length homes) as Hl.
  { by rewrite <- (length_fmap fst), redo_homes. }
  destruct (decide (k <= length homes)%nat) as [Hk|Hk].
  - exists homes. assert (d' = dapp d (take k (redo_writes start homes d))) as ->.
    { unfold d'. rewrite take_app_le by lia. done. }
    destruct (redo_some start homes d k Hd) as [? Hr]. split_and!; [done|lia|]. intros b _. apply Hr.
  - exists []. assert (d' = dapp d (redo_writes start homes d ++ [(start, hdr)])) as Hd'.
    { unfold d'. rewrite take_ge; [done|]. rewrite length_app, Hl. simpl. lia. }
    rewrite Hd'. split_and!; [|simpl; lia|].
    + apply empty_on_disk. rewrite block_dapp, last_write_app, last_write_one. by rewrite decide_True.
    + intros b Hb. change (redo start [] ?e b) with (block e b).
      rewrite block_dapp, last_write_app, last_write_one. by rewrite decide_False.
Qed.

(** ** Reading the header *)

Section recover.
Context (D me : Z).

#[local] Abbreviation bc := (bc D me).
#[local] Abbreviation content := (content D).
#[local] Abbreviation taken := (taken D me).

(** The cache does not depend on the log's state in memory. *)
Definition with_log (l : logstate) (s : kernel) : kernel := s {{ klog := l }}.

Lemma with_log_bc r h l s : bc r h s -> bc r h (with_log l s).
Proof. intros [[] H2 H3 H4 H5 H6 H7 H8 H9 H10 H11]. by split. Qed.

Lemma with_log_twice l l' s : with_log l' (with_log l s) = with_log l' s.
Proof. by destruct s. Qed.

Lemma setlog_eq f s : setlog f s = Done tt (with_log (f (klog s)) s).
Proof. by destruct s. Qed.

(** The log in memory of read_head, with the block numbers [bl]. *)
Definition read_log (n : Z) (bl : list Z) (l : logstate) : logstate := l {{ lh_n := n; lh_block := bl }}.

Lemma read_log_block n bl k x l :
  (read_log n bl l) {{ lh_block ::= seti k x }} = read_log n (seti k x bl) l.
Proof. by destruct l. Qed.

Lemma read_head_loop homes data l s :
  heads data homes -> Z.of_nat (length homes) <= LOGSIZE -> Forall (fun h => 0 <= h < 2 ^ 31) homes ->
  forall k t bl, (t + k)%nat = length homes -> Z.of_nat (length bl) = LOGSIZE ->
  (forall u h, (u < t)%nat -> homes !! u = Some h -> geti bl (Z.of_nat u) = Some h) ->
  let N := Z.of_nat (length homes) in
  exists bl', loop (Datatypes.S k) (fun k =>
      if k <? N then
        if k <? LOGSIZE then
          bind (setlog (fun l => l {{ lh_block ::= seti k (i32 (field (4 + 4 * k) 4 data)) }})) (fun _ =>
          continue (k + 1))
        else undef "log.lh.block[]"
      else break tt) (Z.of_nat t) (with_log (read_log N bl l) s) = Done tt (with_log (read_log N bl' l) s) /\
    forall u h, homes !! u = Some h -> geti bl' (Z.of_nat u) = Some h.
Proof.
  intros Hh Hsm Hr. induction k as [|k IH]; intros t bl Ht Hlen Hbl N.
  - exists bl. split.
    + apply loop_break. by rewrite (proj2 (Z.ltb_ge _ _)) by lia.
    + intros u h Hu. apply Hbl; [|done]. apply lookup_lt_Some in Hu. lia.
  - destruct (lookup_lt_is_Some_2 homes t) as [h Hth]; [lia|].
    assert (0 <= h < 2 ^ 31) as Hhr by (rewrite Forall_forall in Hr; by apply Hr, (list_elem_of_lookup_2 _ _ _ Hth)).
    destruct (IH (Datatypes.S t) (seti (Z.of_nat t) h bl)) as (bl' & E & Hbl'); [lia|by rewrite length_seti| |].
    + intros u g Hu Hg. destruct (decide (u = t)) as [->|Hne].
      * assert (g = h) as -> by congruence. apply geti_seti_eq. lia.
      * rewrite geti_seti_ne by lia. apply Hbl; [lia|done].
    + exists bl'. split; [|done]. erewrite loop_continue; [exact E|].
      rewrite (proj2 (Z.ltb_lt _ N)), (proj2 (Z.ltb_lt _ LOGSIZE)) by lia.
      rewrite (hd_block _ _ Hh t h Hth), i32_small by lia.
      rewrite (bind_done _ _ _ _ _ (setlog_eq _ _)). change (klog (with_log ?l _)) with l.
      rewrite with_log_twice, read_log_block. unfold continue. cbn [ret]. do 2 f_equal. lia.
Qed.

Context `{Fuel} `{DiskDriver} (n : nat) (Hfuel : fuel = Datatypes.S n).

Lemma read_head_spec r s start homes :
  bc r ∅ s -> spare r -> l_dev (klog s) = D -> l_start (klog s) = start ->
  Z.of_nat (length (lh_block (klog s))) = LOGSIZE ->
  heads (content s start) homes -> Z.of_nat (length homes) <= LOGSIZE ->
  Forall (fun h => 0 <= h < 2 ^ 31) homes ->
  exists s' bl, read_head s = Done tt s' /\ bc r ∅ s' /\ (forall b, content s' b = content s b) /\
    disk s' = disk s /\ klog s' = read_log (Z.of_nat (length homes)) bl (klog s) /\
    forall u h, homes !! u = Some h -> geti bl (Z.of_nat u) = Some h.
Proof.
  intros Hi Hsp Hdev Hst Hlen Hh Hsm Hr.
  destruct (bread_spec D me n Hfuel r ∅ s start Hi) as (i & y & E1 & T1); [set_solver|by apply spare_one|].
  pose proof (taken_here D me _ _ _ _ _ _ T1 (taken_is_Some D me _ _ _ _ _ _ Hi T1)) as Hy.
  set (s1 := with_buf i y s) in *. pose proof (tk_bc _ _ _ _ _ _ _ _ T1) as Hi1.
  destruct (tk_block _ _ _ _ _ _ _ _ T1) as [_ Hbn]. pose proof (tk_data _ _ _ _ _ _ _ _ T1) as Hyd.
  set (N := Z.of_nat (length homes)).
  destruct (read_head_loop homes (b_data y) (klog s) s1) with (k := length homes) (t := 0%nat)
    (bl := lh_block (klog s)) as (bl & E2 & Hbl); [by rewrite Hyd|done..|lia|].
  set (s2 := with_log (read_log N bl (klog s)) s1).
  assert (bc r ({[i]} ∪ ∅) s2) as Hi2 by by apply with_log_bc.
  destruct (brelse_spec D me n Hfuel r _ s2 i y Hi2) as (s3 & E3 & Hi3 & Hc3 & Hs3 & Hd3 & Hk3);
    [set_solver|done| |].
  { intros Hr0. rewrite Hyd, Hbn. by apply (tk_clean _ _ _ _ _ _ _ _ T1). }
  exists s3, bl. split_and!.
  - unfold read_head. unfold bind at 1. cbn [gets bindp]. rewrite Hdev, Hst.
    rewrite (bind_done _ _ _ _ _ E1). fold s1. rewrite (bind_done _ _ _ _ _ (bdata_eq i y s1 Hy)).
    rewrite Hyd, (hd_n _ _ Hh), i32_small by (unfold LOGSIZE, MAXOPBLOCKS in Hsm; lia). fold N.
    rewrite (bind_done _ _ _ _ _ (setlog_eq _ _)).
    replace (Z.to_nat N) with (length homes) by (unfold N; lia). rewrite Hyd in E2.
    assert (with_log ((klog s1) {{ lh_n := N }}) s1 = with_log (read_log N (lh_block (klog s)) (klog s)) s1) as ->.
    { change (klog s1) with (klog s). by destruct (klog s). }
    rewrite (bind_done _ _ _ _ _ E2). exact E3.
  - by replace (∅ : gset Z) with (({[i]} ∪ ∅) ∖ {[i]} : gset Z) by set_solver.
  - intros b. rewrite Hc3. apply (tk_content _ _ _ _ _ _ _ _ T1).
  - by rewrite Hd3.
  - by rewrite Hk3.
  - done.
Qed.

(** A cache with nothing pinned or held, as after boot, agrees with the disk. *)
Definition cold (_ : Z) : Z := 0.

Lemma cold_content s b : bc cold ∅ s -> content s b = block (disk s) b.
Proof.
  intros Hi. destruct (content_cases D me _ _ s b Hi) as [(i & x & Hx & [Hd Hb] & Hv & ->)|[_ ->]]; [|done].
  rewrite <- Hb. by apply (bc_clean _ _ _ _ _ Hi i x Hx).
Qed.

Lemma cold_spare : spare cold.
Proof using. exists 0. by split_and!. Qed.

(** Clear the transaction and write its header. *)
Lemma clear_spec r s start :
  bc r ∅ s -> spare r -> l_dev (klog s) = D -> l_start (klog s) = start ->
  exists s' hdr, bind (setlog (fun l => l {{ lh_n := 0 }})) (fun _ => write_head) s = Done tt s' /\
    heads hdr [] /\ length hdr = bsize /\ bc r ∅ s' /\ (forall b, content s' b = if decide (b = start) then hdr else content s b) /\
    disk s' = dapp (disk s) [(start, hdr)] /\ klog s' = (klog s) {{ lh_n := 0 }}.
Proof.
  intros Hi Hsp Hd Hs. set (l0 := (klog s) {{ lh_n := 0 }}).
  destruct (write_head_spec n Hfuel D me r (with_log l0 s) start []) as (s' & hdr & E & Hh & Hl & Hi' & Hc & _ & Hd' & Hk').
  - by apply with_log_bc.
  - done.
  - by unfold l0; destruct (klog s).
  - by unfold l0; destruct (klog s).
  - split; [done..|constructor].
  - by exists s', hdr.
Qed.

Lemma recover_spec s start homes :
  bc cold ∅ s -> l_dev (klog s) = D -> l_start (klog s) = start ->
  Z.of_nat (length (lh_block (klog s))) = LOGSIZE -> on_disk start homes (disk s) ->
  exists s' hdr, recover_from_log s = Done tt s' /\ heads hdr [] /\ length hdr = bsize /\ lh_n (klog s') = 0 /\
    disk s' = dapp (disk s) (redo_writes start homes (disk s) ++ [(start, hdr)]).
Proof.
  intros Hi Hdev Hst Hlen [Hh Hsm Hr Hnd Hout].
  destruct (read_head_spec cold s start homes Hi cold_spare Hdev Hst Hlen) as
    (s1 & bl & E1 & Hi1 & Hc1 & Hd1 & Hk1 & Hbl); [by rewrite cold_content|done..|].
  assert (txn D (klog s1) start homes) as Htx.
  { rewrite Hk1. destruct (klog s). by split. }
  destruct (install_spec D me true s1 start homes Htx n Hfuel) as (s2 & E2 & Hk2 & [(r & Hi2 & Hsp2 & _ & _) Hd2 _]).
  { exists cold. split; [done|]. split; [apply cold_spare|]. split; [|done]. intros _. exists 0, 1. by split_and!. }
  assert (home_writes D s1 start homes = redo_writes start homes (disk s)) as Hw.
  { unfold home_writes, redo_writes. apply imap_ext. intros u h _. by rewrite Hc1, cold_content. }
  destruct (clear_spec r s2 start Hi2 Hsp2) as (s3 & hdr & E3 & Hh3 & Hl3 & _ & _ & Hd3 & Hk3).
  { rewrite Hk2. apply Htx. }
  { rewrite Hk2. apply Htx. }
  exists s3, hdr. split_and!; [|done|done| |].
  - unfold recover_from_log. rewrite (bind_done _ _ _ _ _ E1), (bind_done _ _ _ _ _ E2). exact E3.
  - by rewrite Hk3.
  - rewrite Hd3, Hd2, dapp_app, Hd1, Hw, take_ge; [done|].
    rewrite <- (length_fmap fst), redo_homes. done.
Qed.
End recover.

Lemma last_write_map (f : Z -> list Z) homes b d :
  NoDup homes -> last_write ((fun h => (h, f h)) <$> homes) b d = if decide (b ∈ homes) then f b else d.
Proof.
  intros Hn. assert (((fun h => (h, f h)) <$> homes).*1 = homes) as Hf.
  { rewrite <- list_fmap_compose. apply list_fmap_id. }
  case_decide as Hb.
  - apply last_write_in; [by rewrite Hf|]. apply list_elem_of_fmap. by exists b.
  - apply last_write_other. by rewrite Hf.
Qed.

Section commit.
Context (D me : Z).

#[local] Abbreviation bc := (bc D me).
#[local] Abbreviation content := (content D).

(** A transaction ready to commit: each of its blocks is pinned in the cache,
    one buffer is left over, and the log on the disk is empty. *)
Record ready (r : Z -> Z) (start : Z) (homes : list Z) (s : kernel) : Prop := {
  rd_bc : bc r ∅ s;
  rd_spare : spare r;
  rd_txn : txn D (klog s) start homes;
  rd_holds : holds (klog s) homes;
  rd_pinned : forall h, h ∈ homes -> pinned D r s h;
  rd_empty : heads (block (disk s) start) [];
}.

(** The writes of a commit, with the headers [hdr] and [hdr0]. *)
Definition commit_log (s : kernel) (start : Z) (homes : list Z) (hdr : list Z) : list (Z * list Z) :=
  log_writes start (content s <$> homes) ++ [(start, hdr)].

Definition commit_writes (s : kernel) (start : Z) (homes : list Z) (hdr hdr0 : list Z) : list (Z * list Z) :=
  commit_log s start homes hdr ++ ((fun h => (h, content s h)) <$> homes) ++ [(start, hdr0)].

Context `{Fuel} `{DiskDriver} (n : nat) (Hfuel : fuel = Datatypes.S n).

Lemma commit_spec r s start homes :
  ready r start homes s -> homes <> [] ->
  exists s' hdr hdr0 r', commit s = Done tt s' /\ heads hdr homes /\ heads hdr0 [] /\ bc r' ∅ s' /\
    Forall (fun w => length (w.2) = bsize) (commit_writes s start homes hdr hdr0) /\
    disk s' = dapp (disk s) (commit_writes s start homes hdr hdr0) /\
    klog s' = (klog s) {{ lh_n := 0 }} /\
    (forall b, ~ (start <= b <= start + Z.of_nat (length homes)) -> content s' b = content s b).
Proof.
  intros [Hi Hsp Htx Hho Hp Hem] Hne.
  destruct (write_log_spec D me n Hfuel r s start homes Htx Hsp Hi Hp) as (s1 & E1 & Hk1 & [Hi1 Hp1 Hd1 Hl1 Ho1]).
  destruct (write_head_spec n Hfuel D me r s1 start homes Hi1 Hsp) as
    (s2 & hdr & E2 & Hh2 & Hl2 & Hi2 & Hc2 & Hp2 & Hd2 & Hk2); [by rewrite Hk1; apply Htx..|by rewrite Hk1|].
  assert (txn D (klog s2) start homes) as Htx2 by by rewrite Hk2, Hk1.
  destruct (install_spec D me false s2 start homes Htx2 n Hfuel) as (s3 & E3 & Hk3 & [(r' & Hi3 & Hsp3 & _ & _) Hd3 Hc3]).
  { exists r. split; [done|]. split; [done|]. split; [done|]. intros _ h Hh. apply Hp2; [|by apply Hp1].
    intros ->. apply (tx_out _ _ _ _ Htx start Hh). lia. }
  destruct (clear_spec D me n Hfuel r' s3 start Hi3 Hsp3) as (s4 & hdr0 & E4 & Hh4 & Hl4 & Hi4 & Hc4 & Hd4 & Hk4).
  { rewrite Hk3. apply Htx2. }
  { rewrite Hk3. apply Htx2. }
  assert (home_writes D s2 start homes = (fun h => (h, content s h)) <$> homes) as Hw.
  { unfold home_writes. apply list_eq. intros u. rewrite list_lookup_imap, list_lookup_fmap.
    destruct (homes !! u) as [h|] eqn:Hu; [|done]. simpl. do 2 f_equal.
    rewrite Hc2, decide_False by lia. apply Hl1; [by eapply lookup_lt_Some|done]. }
  exists s4, hdr, hdr0, r'. split_and!; try done.
  - unfold commit. unfold bind at 1. cbn [gets bindp]. rewrite (tx_n _ _ _ _ Htx), Z.gtb_ltb.
    rewrite (proj2 (Z.ltb_lt _ _)) by (destruct homes; [done|simpl; lia]). cbn [when].
    rewrite (bind_done _ _ _ _ _ E1), (bind_done _ _ _ _ _ E2), (bind_done _ _ _ _ _ E3). exact E4.
  - unfold commit_writes, commit_log, log_writes.
    rewrite !Forall_app, Forall_fmap, !Forall_singleton. split_and!; try done.
    + apply Forall_forall. intros w (u & d & -> & Hd)%elem_of_lookup_imap. simpl.
      rewrite list_lookup_fmap in Hd. destruct (homes !! u); [|done]. injection Hd as <-.
      by apply (content_len D me r ∅).
    + apply Forall_forall. intros h _. by apply (content_len D me r ∅).
  - rewrite Hd4, Hd3, Hd2, Hd1, !dapp_app, Hw. unfold commit_writes, commit_log, datas.
    rewrite !take_ge by by rewrite length_fmap. by rewrite <- !app_assoc.
  - by rewrite Hk4, Hk3, Hk2, Hk1.
  - intros b Hb. rewrite Hc4, decide_False by lia. rewrite Hc3, Hw, take_ge by by rewrite length_fmap.
    rewrite last_write_map by apply (tx_nodup _ _ _ _ Htx). case_decide; [done|].
    rewrite Hc2, decide_False by lia. apply Ho1. lia.
Qed.

(** ** Crashes *)

Lemma length_log_writes start ds : length (log_writes start ds) = length ds.
Proof. apply length_imap. Qed.

Lemma log_writes_blocks start ds : (log_writes start ds).*1 = imap (fun u _ => start + Z.of_nat u + 1) ds.
Proof.
  unfold log_writes. apply list_eq. intros u. rewrite list_lookup_fmap, !list_lookup_imap.
  by destruct (ds !! u).
Qed.

Lemma log_writes_in start ds b :
  b ∈ (log_writes start ds).*1 -> start < b <= start + Z.of_nat (length ds).
Proof.
  rewrite log_writes_blocks. intros (u & Hu)%list_elem_of_lookup_1. rewrite list_lookup_imap in Hu.
  destruct (ds !! u) eqn:Hd; [|done]. apply lookup_lt_Some in Hd. injection Hu. lia.
Qed.

Lemma log_writes_at start ds u d b0 :
  ds !! u = Some d -> last_write (log_writes start ds) (start + Z.of_nat u + 1) b0 = d.
Proof.
  intros Hu. apply last_write_in.
  - rewrite log_writes_blocks. apply NoDup_alt. intros i j b. rewrite !list_lookup_imap.
    intros (x & _ & ->)%fmap_Some (y & _ & ?)%fmap_Some. lia.
  - apply list_elem_of_lookup. exists u. unfold log_writes. by rewrite list_lookup_imap, Hu.
Qed.

(** The disk once the header is written. *)
Lemma committed_on_disk r s start homes hdr :
  ready r start homes s -> heads hdr homes ->
  let d := dapp (disk s) (commit_log s start homes hdr) in
  on_disk start homes d /\
  redo_writes start homes d = ((fun h => (h, content s h)) <$> homes) /\
  forall b, ~ (start <= b <= start + Z.of_nat (length homes)) -> block d b = block (disk s) b.
Proof.
  intros [Hi Hsp Htx Hho Hp Hem] Hh d.
  assert (forall b, block d b = if decide (b = start) then hdr
    else last_write (log_writes start (content s <$> homes)) b (block (disk s) b)) as Hb.
  { intros b. unfold d, commit_log. by rewrite block_dapp, last_write_app, last_write_one. }
  split_and!.
  - split; [by rewrite Hb, decide_True|apply Hho|apply Hho|apply Htx|apply (tx_out _ _ _ _ Htx)].
  - unfold redo_writes. apply list_eq. intros u. rewrite list_lookup_imap, list_lookup_fmap.
    destruct (homes !! u) as [h|] eqn:Hu; [|done]. simpl. do 2 f_equal. rewrite Hb, decide_False by lia.
    apply log_writes_at. by rewrite list_lookup_fmap, Hu.
  - intros b Hout. rewrite Hb, decide_False by lia. apply last_write_other.
    intros Hin%log_writes_in. rewrite length_fmap in Hin. lia.
Qed.

(** The disk at any moment of a commit holds the old blocks or the new ones. *)
Lemma commit_crash r s start homes hdr hdr0 k :
  ready r start homes s -> heads hdr homes -> heads hdr0 [] ->
  let d := dapp (disk s) (take k (commit_writes s start homes hdr hdr0)) in
  exists homes', on_disk start homes' d /\ (length homes' <= length homes)%nat /\
    forall b, ~ (start <= b <= start + Z.of_nat (length homes)) ->
      redo start homes' d b =
        if decide ((length homes < k)%nat /\ b ∈ homes) then content s b else block (disk s) b.
Proof.
  intros Hrd Hh Hh0 d.
  assert (length (commit_log s start homes hdr) = Datatypes.S (length homes)) as Hlen.
  { unfold commit_log. rewrite length_app, length_log_writes, length_fmap. simpl. lia. }
  destruct (decide (length homes < k)%nat) as [Hk|Hk].
  - destruct (committed_on_disk r s start homes hdr Hrd Hh) as (Hod & Hw & Hbl).
    set (d1 := dapp (disk s) (commit_log s start homes hdr)) in *.
    destruct (redo_prefix start homes d1 hdr0 (k - Datatypes.S (length homes)) Hod Hh0) as (homes' & Hod' & Hl & Hr).
    rewrite Hw in Hod', Hr. unfold d1 in Hod', Hr. rewrite dapp_app, <- Hlen in Hod', Hr.
    rewrite <- take_app_ge in Hod', Hr by lia. exists homes'. split_and!; [exact Hod'|done|].
    intros b Hb. unfold d, commit_writes. rewrite Hr by lia. fold d1. unfold redo. rewrite Hw.
    rewrite last_write_map by apply Hrd. rewrite Hbl by done.
    apply decide_ext. tauto.
  - exists []. assert (forall b, b ∉ (log_writes start (content s <$> homes)).*1 -> block d b = block (disk s) b) as Hb.
    { intros b Hb. unfold d, commit_writes, commit_log. rewrite <- app_assoc.
      rewrite take_app_le by (rewrite length_log_writes, length_fmap; lia). rewrite block_dapp.
      apply last_write_other. rewrite fmap_take. by intros (? & ?%list_elem_of_lookup_2 & _)%elem_of_take. }
    split_and!; [|simpl; lia|].
    + apply empty_on_disk. rewrite Hb; [apply Hrd|]. intros ?%log_writes_in. lia.
    + intros b Hout. rewrite decide_False by tauto. change (redo start [] ?e b) with (block e b).
      apply Hb. intros Hin%log_writes_in. rewrite length_fmap in Hin. lia.
Qed.

(** A machine that has started on the disk [d]: nothing is cached, and initlog
    has set the log's place. *)
Record booted (start : Z) (d : diskstate) (s : kernel) : Prop := {
  bt_bc : bc cold ∅ s;
  bt_dev : l_dev (klog s) = D;
  bt_start : l_start (klog s) = start;
  bt_block : Z.of_nat (length (lh_block (klog s))) = LOGSIZE;
  bt_disk : disk s = d;
}.

(** What recovery writes. *)
Lemma recover_booted start homes d s :
  booted start d s -> on_disk start homes d ->
  exists s' hdr, recover_from_log s = Done tt s' /\ heads hdr [] /\ length hdr = bsize /\ lh_n (klog s') = 0 /\
    disk s' = dapp d (redo_writes start homes d ++ [(start, hdr)]).
Proof.
  intros [Hi Hd Hs Hl <-] Ho. by apply (recover_spec D me n Hfuel).
Qed.

Lemma block_redone start homes d hdr b :
  b <> start -> block (dapp d (redo_writes start homes d ++ [(start, hdr)])) b = redo start homes d b.
Proof. intros Hb. by rewrite block_dapp, last_write_app, last_write_one, decide_False. Qed.

(** C3: commit is atomic.  From a transaction whose blocks are pinned in the
    cache, with a buffer to spare and an empty log on the disk, commit() ends,
    having performed some block writes [ws] and changed the content of no block
    outside the log.  If the machine stops after any number [k] of them and starts
    again on that disk, recover_from_log() ends and leaves every block outside the
    log either with its old contents, for all of them, or, once the header has
    been written (more writes than blocks), with the contents the transaction
    gave it, for all of them. *)
Theorem commit_atomic r s start homes :
  ready r start homes s -> homes <> [] ->
  exists s' ws, commit s = Done tt s' /\ disk s' = dapp (disk s) ws /\ Forall (fun w => length (w.2) = bsize) ws /\
    (forall b, ~ (start <= b <= start + Z.of_nat (length homes)) -> content s' b = content s b) /\
    forall k s1, booted start (dapp (disk s) (take k ws)) s1 ->
      exists s2, recover_from_log s1 = Done tt s2 /\ lh_n (klog s2) = 0 /\
        forall b, ~ (start <= b <= start + Z.of_nat (length homes)) ->
          block (disk s2) b =
            if decide ((length homes < k)%nat /\ b ∈ homes) then content s b else block (disk s) b.
Proof.
  intros Hrd Hne. destruct (commit_spec r s start homes Hrd Hne) as
    (s' & hdr & hdr0 & r' & E & Hh & Hh0 & _ & Hf & Hd & _ & Hc).
  exists s', (commit_writes s start homes hdr hdr0). split_and!; [done..|]. intros k s1 Hbt.
  destruct (commit_crash r s start homes hdr hdr0 k Hrd Hh Hh0) as (homes' & Hod & Hl & Hr).
  destruct (recover_booted start homes' _ s1 Hbt Hod) as (s2 & hdr2 & E2 & _ & _ & Hn & Hd2).
  exists s2. split_and!; [done..|]. intros b Hb. rewrite Hd2, block_redone by lia. by apply Hr.
Qed.

(** C38: recovery can be interrupted.  On a disk whose log holds a transaction,
    recover_from_log() ends; if the machine stops after any number [k] of its
    block writes and recovers again, every block but the header ends as if the
    first recovery had not been interrupted. *)
Theorem recovery_restarts start homes d s :
  booted start d s -> on_disk start homes d ->
  exists s' ws, recover_from_log s = Done tt s' /\ disk s' = dapp d ws /\ Forall (fun w => length (w.2) = bsize) ws /\
    forall k s1, booted start (dapp d (take k ws)) s1 ->
      exists s2, recover_from_log s1 = Done tt s2 /\
        forall b, b <> start -> block (disk s2) b = block (disk s') b.
Proof.
  intros Hbt Hod. destruct (recover_booted start homes d s Hbt Hod) as (s' & hdr & E & Hh & Hl & _ & Hd).
  exists s', (redo_writes start homes d ++ [(start, hdr)]). split_and!; [done..| |].
  { rewrite Forall_app, Forall_singleton. split; [|done]. apply Forall_forall.
    intros w (u & h & -> & _)%elem_of_lookup_imap. simpl. rewrite <- (bt_disk _ _ _ Hbt).
    apply (bc_disk _ _ _ _ _ (bt_bc _ _ _ Hbt)). }
  intros k s1 Hbt1.
  destruct (redo_prefix start homes d hdr k Hod Hh) as (homes' & Hod' & _ & Hr).
  destruct (recover_booted start homes' _ s1 Hbt1 Hod') as (s2 & hdr2 & E2 & _ & _ & _ & Hd2).
  exists s2. split; [done|]. intros b Hb. rewrite Hd2, Hd, !block_redone by done. by apply Hr.
Qed.
End commit.

(** ** A concrete transaction *)

Section Demo.
#[local] Existing Instance sync_disk.
#[local] Instance one_round : Fuel := 1%nat.

(** Buffers linked as binit() leaves them. *)
Definition linked (i : Z) (x : buf) : buf :=
  x {{ b_next := if i =? 30 then 29 else if i =? 0 then 30 else i - 1;
       b_prev := if i =? 30 then 0 else i + 1 }}.

Definition bufs_of (f : Z -> buf) : list buf := (fun i => linked i (f i)) <$> seqZ 0 31.

Lemma geti_bufs_of f i x : geti (bufs_of f) i = Some x -> 0 <= i < 31 /\ x = linked i (f i).
Proof.
  unfold geti. destruct (Z.leb_spec 0 i); [|done]. unfold bufs_of. rewrite list_lookup_fmap.
  intros (j & Hj & ->)%fmap_Some. apply lookup_seqZ in Hj as [-> Hj].
  replace (0 + Z.of_nat (Z.to_nat i)) with i by lia. split; [lia|done].
Qed.

Lemma bufs_of_at f i : 0 <= i < 31 -> geti (bufs_of f) i = Some (linked i (f i)).
Proof.
  intros Hi. unfold geti. rewrite (proj2 (Z.leb_le _ _)) by lia. unfold bufs_of.
  rewrite list_lookup_fmap, lookup_seqZ_lt by lia. simpl. by rewrite Z2Nat.id by lia.
Qed.

Lemma bufs_of_ring f : ring (bufs_of f) (reverse (seqZ 0 30)).
Proof.
  split.
  - done.
  - assert (forall i, 0 <= i < 31 -> nxt (bufs_of f) i = Some (b_next (linked i (f i))) /\
      prv (bufs_of f) i = Some (b_prev (linked i (f i)))) as Hl.
    { intros i Hi. unfold nxt, prv. by rewrite bufs_of_at. }
    change (HEAD :: reverse (seqZ 0 30) ++ [HEAD]) with
      [30;29;28;27;26;25;24;23;22;21;20;19;18;17;16;15;14;13;12;11;10;9;8;7;6;5;4;3;2;1;0;30].
    repeat (apply links_cons; split; [|split]; [by rewrite (proj1 (Hl _ ltac:(lia)))|by rewrite (proj2 (Hl _ ltac:(lia)))|]).
    done.
  - rewrite reverse_Permutation. apply NoDup_seqZ.
  - intros i. rewrite elem_of_reverse, elem_of_seqZ. change NBUF with 30. lia.
Qed.

(** The log of device 1 starts at block 2; block 50 is in buffer 5, with a
    reference for the log, and its new content is not on the disk. *)
Definition logged_buf (i : Z) : buf :=
  if i =? 5 then Buf 1 1 50 (SleepLock 0 0) 1 0 0 (replicate 1024 7) else blank_buf.
Definition one_pin (i : Z) : Z := if i =? 5 then 1 else 0.

Definition machine (f : Z -> buf) (l : logstate) (d : diskstate) : kernel :=
  demo_kernel {{ bufs := bufs_of f; klog := l; disk := d }}.

Definition old_disk : diskstate := Disk (fun _ => replicate 1024 0) [].
Definition transaction : kernel :=
  machine logged_buf (Log 2 31 0 1 1 1 (50 :: replicate 29 0)) old_disk.
Definition restarted (d : diskstate) : kernel :=
  machine (fun _ => blank_buf) (Log 2 31 0 0 1 0 (replicate 30 0)) d.

Lemma machine_proc f l d : proc_ok 1 (machine f l d).
Proof. split; [done|done|]. by exists demo_proc. Qed.

Lemma restarted_booted d : (forall b, length (block d b) = bsize) -> booted 1 1 2 d (restarted d).
Proof.
  intros Hd. split; [|done..]. split.
  - apply machine_proc.
  - exists (reverse (seqZ 0 30)). apply bufs_of_ring.
  - by intros x [_ ->]%geti_bufs_of.
  - by intros i j x y b [_ ->]%geti_bufs_of _ [? _].
  - by intros i x [_ ->]%geti_bufs_of.
  - by intros i x [_ ->]%geti_bufs_of.
  - by intros i x [_ ->]%geti_bufs_of.
  - by intros i x [_ ->]%geti_bufs_of.
  - done.
  - intros i Hi. by apply elem_of_empty in Hi.
  - intros i x [_ ->]%geti_bufs_of. by left.
Qed.

Lemma logged_buf_cases i : (i = 5 /\ one_pin i = 1 /\ logged_buf i = Buf 1 1 50 (SleepLock 0 0) 1 0 0 (replicate 1024 7)) \/
  (i <> 5 /\ one_pin i = 0 /\ logged_buf i = blank_buf).
Proof. unfold one_pin, logged_buf. destruct (Z.eqb_spec i 5); tauto. Qed.

Lemma transaction_bc : bc 1 1 one_pin ∅ transaction.
Proof.
  split.
  - apply machine_proc.
  - exists (reverse (seqZ 0 30)). apply bufs_of_ring.
  - by intros x [_ ->]%geti_bufs_of.
  - intros i j x y b [_ ->]%geti_bufs_of [_ ->]%geti_bufs_of.
    destruct (logged_buf_cases i) as [(-> & _ & ->)|(_ & _ & ->)]; [|by intros [? _]].
    destruct (logged_buf_cases j) as [(-> & _ & ->)|(_ & _ & ->)]; [done|by intros _ [? _]].
  - intros i x [_ ->]%geti_bufs_of. by destruct (logged_buf_cases i) as [(-> & -> & ->)|(_ & -> & ->)].
  - intros i x [_ ->]%geti_bufs_of. by destruct (logged_buf_cases i) as [(-> & _ & ->)|(_ & _ & ->)].
  - intros i x [_ ->]%geti_bufs_of. by destruct (logged_buf_cases i) as [(-> & -> & ->)|(_ & -> & ->)].
  - intros i x [_ ->]%geti_bufs_of. by destruct (logged_buf_cases i) as [(-> & _ & ->)|(_ & _ & ->)].
  - done.
  - intros i Hi. by apply elem_of_empty in Hi.
  - intros i x [_ ->]%geti_bufs_of.
    destruct (logged_buf_cases i) as [(-> & _ & ->)|(_ & _ & ->)]; [by right|by left].
Qed.

Lemma transaction_ready : ready 1 1 one_pin 2 [50] transaction.
Proof.
  split.
  - apply transaction_bc.
  - exists 0. by split_and!.
  - split; [done..| | |].
    + intros [|t] h; [by intros [= <-]|done].
    + apply NoDup_singleton.
    + intros h ->%list_elem_of_singleton. simpl. lia.
  - split; [done| |done|by repeat constructor].
    intros [|t] h; [by intros [= <-]|done].
  - intros h ->%list_elem_of_singleton. exists 5, (linked 5 (logged_buf 5)).
    split; [by apply bufs_of_at|]. by split_and!.
  - by split.
Qed.

Lemma block_lengths d ws :
  (forall b, length (block d b) = bsize) -> Forall (fun w => length (w.2) = bsize) ws ->
  forall b, length (block (dapp d ws) b) = bsize.
Proof.
  intros Hd Hw b. rewrite block_dapp. specialize (Hd b). revert Hd. generalize (block d b).
  induction Hw as [|[b1 v] ws Hv _ IH]; intros b0 Hb0; [done|]. simpl. apply IH. by case_match.
Qed.

Lemma transaction_5 : 0 <= 5 < 31.
Proof. lia. Qed.

(** Whenever the machine stops in this commit, block 50 holds all zeros or all
    sevens after recovery: the zeros until the header has been written. *)
Lemma commit_atomic_witness :
  ready 1 1 one_pin 2 [50] transaction /\
  exists ws, forall k, exists s2,
    recover_from_log (restarted (dapp old_disk (take k ws))) = Done tt s2 /\
    block (disk s2) 50 = replicate 1024 (if decide (1 < k)%nat then 7 else 0).
Proof.
  split; [apply transaction_ready|].
  destruct (commit_atomic 1 1 0 eq_refl one_pin transaction 2 [50]) as (s' & ws & _ & _ & Hw & _ & Hk);
    [apply transaction_ready|done|].
  exists ws. intros k.
  destruct (Hk k (restarted (dapp old_disk (take k ws)))) as (s2 & E & _ & Hb).
  - apply restarted_booted. apply block_lengths; [done|]. by apply Forall_take.
  - exists s2. split; [exact E|]. rewrite Hb by (simpl; lia).
    destruct (decide (1 < k)%nat); [rewrite decide_True by (split; [done|by left])|rewrite decide_False by tauto].
    + by apply (content_hit 1 1 one_pin ∅ transaction 5 (linked 5 (logged_buf 5)) 50 transaction_bc (bufs_of_at logged_buf 5 transaction_5)).
    + done.
Defined.

(** The disk of a machine that stopped after it wrote the header. *)
Definition crashed : diskstate :=
  dapp old_disk [(3, replicate 1024 7); (2, int_bytes 4 1 ++ int_bytes 4 50 ++ replicate 1016 0)].

Lemma crashed_on_disk : on_disk 2 [50] crashed.
Proof.
  split; [|done|by repeat constructor|apply NoDup_singleton|].
  - split; [vm_compute; done|]. intros [|t] h; [|done]. intros [= <-]. vm_compute. done.
  - intros h ->%list_elem_of_singleton. simpl. lia.
Qed.

Lemma crashed_lengths b : length (block crashed b) = bsize.
Proof. apply block_lengths; [done|]. by repeat constructor. Qed.

(** Recovery from it, stopped after any number of writes and started again. *)
Lemma recovery_restarts_witness :
  exists s' ws, recover_from_log (restarted crashed) = Done tt s' /\
    forall k, exists s2, recover_from_log (restarted (dapp crashed (take k ws))) = Done tt s2 /\
      forall b, b <> 2 -> block (disk s2) b = block (disk s') b.
Proof.
  destruct (recovery_restarts 1 1 0 eq_refl 2 [50] crashed (restarted crashed)) as (s' & ws & E & _ & Hw & Hk);
    [apply restarted_booted, crashed_lengths|apply crashed_on_disk|].
  exists s', ws. split; [exact E|]. intros k. apply (Hk k).
  apply restarted_booted, block_lengths; [apply crashed_lengths|]. by apply Forall_take.
Defined.
End Demo.
