(* ===== verification/BioProps.v ===== *)
(** The buffer cache refines a store of blocks: [content] is the abstract
    state, reading returns it and writing updates it, on the disk too. *)

From stdpp Require Import functions.
From S2P Require Import Prelude Mem Riscv Locks Kalloc Vm SpaceCheck Proc ProcFacts Kernel KernelFacts Sleeplock Bio BioRing BioFacts Bytes Log LogProps LogCrash LogInstall LogCommit.

Section cache.
Context (D me : Z) `{Fuel} `{DiskDriver} (n : nat) (Hfuel : fuel = Datatypes.S n).

#[local] Abbreviation bc := (bc D me).
#[local] Abbreviation content := (content D).

(** The kernel's way to read and to write a whole block. *)
Definition read_block (b : Z) : M kernel (list Z) :=
  bind (bread D b) (fun i => bind (bdata i) (fun d => bind (brelse i) (fun _ => ret d))).

Definition write_block (b : Z) (data : list Z) : M kernel unit :=
  bind (bread D b) (fun i => bind (bstore i 0 data) (fun _ => bind (bwrite i) (fun _ => brelse i))).

Definition cached (s : kernel) (b : Z) : Prop := exists j z, geti (bufs s) j = Some z /\ for_block D b z.

Lemma bread_either r s b :
  bc r ∅ s -> spare r \/ cached s b ->
  exists i y, bread D b s = Done i (with_buf i y s) /\ BioFacts.taken D me r ∅ s b i y.
Proof.
  intros Hi [Hsp|Hc].
  - apply (bread_spec D me n Hfuel); [done|set_solver|by apply spare_one].
  - apply (bread_cached D me n Hfuel); [done|set_solver|done].
Qed.

Lemma read_block_spec r s b :
  bc r ∅ s -> spare r \/ cached s b ->
  exists s', read_block b s = Done (content s b) s' /\ bc r ∅ s' /\ disk s' = disk s /\
    forall b', content s' b' = content s b'.
Proof.
  intros Hi Hav. destruct (bread_either r s b Hi Hav) as (i & y & E1 & T).
  pose proof (taken_here D me _ _ _ _ _ _ T (taken_is_Some D me _ _ _ _ _ _ Hi T)) as Hy.
  set (s1 := with_buf i y s) in *. pose proof (tk_bc _ _ _ _ _ _ _ _ T) as Hi1.
  destruct (tk_block _ _ _ _ _ _ _ _ T) as [_ Hb]. pose proof (tk_data _ _ _ _ _ _ _ _ T) as Hd.
  destruct (brelse_spec D me n Hfuel r _ s1 i y Hi1) as (s2 & E2 & Hi2 & Hc2 & _ & Hd2 & _); [set_solver|done| |].
  { intros Hr. rewrite Hd, Hb. by apply T. }
  exists s2. split_and!; [| |done|].
  - unfold read_block. rewrite (bind_done _ _ _ _ _ E1). fold s1.
    rewrite (bind_done _ _ _ _ _ (bdata_eq i y s1 Hy)), (bind_done _ _ _ _ _ E2). by rewrite Hd.
  - by replace (∅ : gset Z) with (({[i]} ∪ ∅) ∖ {[i]} : gset Z) by set_solver.
  - intros b'. rewrite Hc2. apply (tk_content _ _ _ _ _ _ _ _ T).
Qed.

Lemma write_block_spec r s b data :
  bc r ∅ s -> spare r \/ cached s b -> length data = bsize ->
  exists s', write_block b data s = Done tt s' /\ bc r ∅ s' /\ disk s' = dapp (disk s) [(b, data)] /\
    forall b', content s' b' = if decide (b' = b) then data else content s b'.
Proof.
  intros Hi Hav Hl. destruct (bread_either r s b Hi Hav) as (i & y & E1 & T).
  pose proof (taken_here D me _ _ _ _ _ _ T (taken_is_Some D me _ _ _ _ _ _ Hi T)) as Hy.
  set (s1 := with_buf i y s) in *. pose proof (tk_bc _ _ _ _ _ _ _ _ T) as Hi1.
  destruct (tk_block _ _ _ _ _ _ _ _ T) as [_ Hb].
  destruct (store_write_spec D me n Hfuel r _ s1 i y b data Hi1) as
    (s2 & s3 & x3 & E2 & E3 & Hi3 & Hc3 & _ & Hd3 & _ & Hx3 & Hxb3 & Hxd3); [set_solver|done..|].
  destruct (brelse_spec D me n Hfuel r _ s3 i x3 Hi3) as (s4 & E4 & Hi4 & Hc4 & _ & Hd4 & _); [set_solver|done| |].
  { intros _. by rewrite Hxd3, Hxb3, Hd3, block_write, decide_True. }
  exists s4. split_and!.
  - unfold write_block. rewrite (bind_done _ _ _ _ _ E1). fold s1.
    by rewrite (bind_done _ _ _ _ _ E2), (bind_done _ _ _ _ _ E3).
  - by replace (∅ : gset Z) with (({[i]} ∪ ∅) ∖ {[i]} : gset Z) by set_solver.
  - by rewrite Hd4, Hd3.
  - intros b'. rewrite Hc4, Hc3. case_decide; [done|]. apply (tk_content _ _ _ _ _ _ _ _ T).
Qed.

(** Without a free buffer a block that is not cached cannot be read. *)
Lemma bread_full r s b :
  bc r ∅ s -> (forall j, 0 <= j < NBUF -> 0 < r j) -> ~ cached s b ->
  bread D b s = Panic "bget: no buffers".
Proof.
  intros Hi Hfull Hno. destruct (bc_ring _ _ _ _ _ Hi) as [order Hr].
  assert (search (is_block D b) (bufs s) order = -1) as Hs.
  { destruct (decide (search (is_block D b) (bufs s) order = -1)) as [|Hne]; [done|].
    destruct (search_Some _ _ _ _ eq_refl Hne) as (x & _ & Hx & Hbx). destruct Hno.
    exists (search (is_block D b) (bufs s) order), x. split; [done|]. by apply is_block_spec. }
  assert (search unused (bufs s) (reverse order) = -1) as Hu.
  { destruct (decide (search unused (bufs s) (reverse order) = -1)) as [|Hne]; [done|].
    destruct (search_Some _ _ _ _ eq_refl Hne) as (x & Hin & Hx & Hux).
    apply elem_of_reverse, (ring_all _ _ Hr), Hfull in Hin. exfalso.
    destruct (bc_ref _ _ _ _ _ Hi _ x Hx) as [Hrc _]. rewrite decide_False in Hrc by set_solver.
    unfold unused in Hux. apply Z.eqb_eq in Hux. lia. }
  assert (bget D b s = Panic "bget: no buffers") as Hg.
  { unfold bget. pose proof (po_held _ _ (bc_proc _ _ _ _ _ Hi)) as Hh.
    rewrite (bind_done _ _ _ _ _ (acquire_eq bcache_lock s ltac:(rewrite Hh; set_solver))).
    erewrite bind_done by (by apply (find_cached_eq _ _ order (locked bcache_lock s))).
    change (bufs (locked bcache_lock s)) with (bufs s). rewrite Hs. change (negb (-1 =? -1)) with false. cbv iota.
    erewrite bind_done by (by apply (find_free_eq order (locked bcache_lock s))).
    change (bufs (locked bcache_lock s)) with (bufs s). by rewrite Hu. }
  unfold bread. unfold bind at 1. by rewrite Hg.
Qed.

(** C5: the buffer cache refines a store of blocks.  In any state where the
    cache is well formed, with no buffer held by the process, reading a block
    returns its content and changes no block; writing one changes its content,
    and no other block's, and performs exactly one disk write; both keep the
    cache well formed.  They need a free buffer or the block in the cache; the
    kernel panics when every buffer is referenced and the block is not cached. *)
Theorem cache_refines r s b data :
  bc r ∅ s -> length data = bsize ->
  (spare r \/ cached s b ->
     (exists s', read_block b s = Done (content s b) s' /\ bc r ∅ s' /\ disk s' = disk s /\
        forall b', content s' b' = content s b') /\
     (exists s', write_block b data s = Done tt s' /\ bc r ∅ s' /\ disk s' = dapp (disk s) [(b, data)] /\
        forall b', content s' b' = if decide (b' = b) then data else content s b')) /\
  ((forall j, 0 <= j < NBUF -> 0 < r j) -> ~ cached s b -> bread D b s = Panic "bget: no buffers").
Proof.
  intros Hi Hl. split; [|by apply bread_full]. intros Hav.
  split; [by apply read_block_spec|by apply write_block_spec].
Qed.
End cache.

Section Demo.
#[local] Existing Instance sync_disk.
#[local] Existing Instance one_round.

(** Block 50 is cached with new content; block 7 is read from the disk. *)
Lemma cache_refines_witness :
  (exists s', read_block 1 50 transaction = Done (replicate 1024 7) s') /\
  (exists s', write_block 1 7 (replicate 1024 3) transaction = Done tt s' /\
     content 1 s' 7 = replicate 1024 3 /\ content 1 s' 50 = replicate 1024 7).
Proof.
  assert (content 1 transaction 50 = replicate 1024 7) as Hc by
    by apply (content_hit 1 1 one_pin ∅ transaction 5 (linked 5 (logged_buf 5)) 50 transaction_bc (bufs_of_at logged_buf 5 transaction_5)).
  assert (spare one_pin) as Hsp by (exists 0; by split_and!).
  destruct (cache_refines 1 1 0 eq_refl one_pin transaction 50 (replicate 1024 3) transaction_bc eq_refl) as [H1 _].
  destruct (cache_refines 1 1 0 eq_refl one_pin transaction 7 (replicate 1024 3) transaction_bc eq_refl) as [H2 _].
  split.
  - destruct (proj1 (H1 (or_introl Hsp))) as (s' & E & _). exists s'. etransitivity; [exact E|]. by rewrite Hc.
  - destruct (proj2 (H2 (or_introl Hsp))) as (s' & E & _ & _ & Hc'). exists s'.
    split; [exact E|]. split; [by rewrite Hc'|by rewrite Hc', Hc].
Defined.
End Demo.
