(* ===== verification/Rely.v ===== *)
(** Rely-guarantee reasoning for processes that share a state.

    A program gives way at [Sleep]: at the channel [barrier] only the
    environment [D] (a device) steps before it goes on; at any other channel
    every other process may run.  [rg] is what a process must satisfy on its
    own, [pool_step] lets any number of processes run, and [pool_safe] says that
    processes that satisfy [rg] each on its own do what they promise together. *)

From stdpp Require Import relations.
From S2P Require Import Prelude.

Section Rely.
Context {S : Type} (D : S -> S -> Prop) (barrier : chan) (W I : S -> Prop) (late : Prop).

(** [s0] is the state in which the process went on last; [P] is what it relies
    on, [G] what it guarantees at every point where it gives way; [late] is what
    is claimed if a loop uses up its fuel.  [W] holds of the state at all times,
    [I] whenever other processes may run. *)
Fixpoint rg {A} (P G : S -> S -> Prop) (s0 : S) (p : prog S A) (Q : A -> S -> S -> Prop) : Prop :=
  match p with
  | Done a s => Q a s0 s
  | Panic _ | Undef _ => False
  | OutOfFuel => late
  | Sleep c s k =>
      G s0 s /\
      if decide (c = barrier) then W s /\ forall s', rtc D s s' -> rg P G s' (k s') Q
      else I s /\ forall s', I s' -> P s s' -> rg P G s' (k s') Q
  end.

Lemma rg_mono {A} P G s0 (p : prog S A) (Q Q' : A -> S -> S -> Prop) :
  rg P G s0 p Q -> (forall a s1 s, Q a s1 s -> Q' a s1 s) -> rg P G s0 p Q'.
Proof.
  intros Hp HQ. revert s0 Hp. induction p as [| | | |c s k IH]; simpl; eauto.
  intros s0 [HG Hk]. split; [done|]. case_decide; destruct Hk as [HI Hk]; eauto.
Qed.

Lemma rg_bindp {A B} P G s0 (p : prog S A) (f : A -> M S B) Q :
  rg P G s0 p (fun a s1 s => rg P G s1 (f a s) Q) -> rg P G s0 (bindp p f) Q.
Proof.
  revert s0. induction p as [| | | |c s k IH]; simpl; eauto.
  intros s0 [HG Hk]. split; [done|]. case_decide; destruct Hk as [HI Hk]; eauto.
Qed.

Lemma rg_bind {A B} P G s0 (m : M S A) (f : A -> M S B) s Q :
  rg P G s0 (m s) (fun a s1 s' => rg P G s1 (f a s') Q) -> rg P G s0 (bind m f s) Q.
Proof. apply rg_bindp. Qed.

(** A part that does not give way. *)
Lemma rg_run {A B} P G s0 (m : M S A) (f : A -> M S B) s R Q :
  runs m s R -> (forall a s', R a s' -> rg P G s0 (f a s') Q) -> rg P G s0 (bind m f s) Q.
Proof.
  intros (a & s' & E & HR)%wp_done_inv Hf. apply rg_bind. rewrite E. simpl. by apply Hf.
Qed.

Lemma rg_step {A B} P G s0 (m : M S A) (f : A -> M S B) s a s' Q :
  m s = Done a s' -> rg P G s0 (f a s') Q -> rg P G s0 (bind m f s) Q.
Proof. intros E Hf. apply rg_bind. by rewrite E. Qed.

(** The environment moves at a barrier. *)
Lemma rg_barrier {B} (P G : S -> S -> Prop) s0 (f : unit -> M S B) s Q :
  G s0 s -> W s -> (forall s', rtc D s s' -> rg P G s' (f tt s') Q) ->
  rg P G s0 (bind (Prelude.block barrier) f s) Q.
Proof. intros HG HW Hf. apply rg_bind. simpl. split; [done|]. rewrite decide_True by done. done. Qed.

(** A loop: with an invariant alone, or with a bound on its rounds. *)
Lemma rg_loop {X A} P G (body : X -> M S (X + A)) (J : X -> S -> S -> Prop) Q :
  late ->
  (forall x s1 s, J x s1 s ->
     rg P G s1 (body x s) (fun r s2 s' => match r with inl x' => J x' s2 s' | inr a => Q a s2 s' end)) ->
  forall n x s1 s, J x s1 s -> rg P G s1 (loop n body x s) Q.
Proof.
  intros Hl Hb n. induction n as [|n IH]; intros x s1 s HJ; [done|]. cbn [loop].
  apply rg_bind. eapply rg_mono; [by apply Hb|]. intros [x'|a] s2 s' Hr; [by apply IH|exact Hr].
Qed.

Lemma rg_loop_bound {X A} P G (body : X -> M S (X + A)) (J : nat -> X -> S -> S -> Prop) Q :
  (forall m x s1 s, J m x s1 s ->
     rg P G s1 (body x s) (fun r s2 s' =>
       match r with inl x' => exists m', (m' < m)%nat /\ J m' x' s2 s' | inr a => Q a s2 s' end)) ->
  forall n m x s1 s, J m x s1 s -> (m < n)%nat -> rg P G s1 (loop n body x s) Q.
Proof.
  intros Hb n. induction n as [|n IH]; intros m x s1 s HJ Hn; [lia|]. cbn [loop].
  apply rg_bind. eapply rg_mono; [by eapply Hb|]. intros [x'|a] s2 s' Hr; [|exact Hr].
  destruct Hr as (m' & Hm & HJ'). eapply IH; [done|lia].
Qed.

(** ** Processes together *)

Context {id : Type} (allowed : id -> Prop) (compat : id -> id -> Prop).
Context (start : id -> M S unit) (P : id -> S -> S -> Prop).
Context (Pre : id -> S -> Prop) (Post : id -> S -> S -> Prop).

Record thread := Thread { t_id : id; t_start : S; t_prog : prog S unit }.

(** The state in which a process gives way. *)
Definition at_yield (p : prog S unit) (s : S) : S :=
  match p with Done _ s' => s' | Sleep _ s' _ => s' | _ => s end.

Definition at_barrier (t : thread) : Prop :=
  match t_prog t with Sleep c _ _ => c = barrier | _ => False end.

Definition in_time (p : prog S unit) : Prop := match p with OutOfFuel => False | _ => True end.

(** Processes run together as a finite map of them.  No process but [n] holds on to the CPU at a barrier. *)
Definition quiet_but (n : nat) (ts : gmap nat thread) : Prop :=
  forall m u, m <> n -> ts !! m = Some u -> ~ at_barrier u.
Definition quiet (ts : gmap nat thread) : Prop := forall m u, ts !! m = Some u -> ~ at_barrier u.

Inductive pool_step : S * gmap nat thread -> S * gmap nat thread -> Prop :=
| PStart n i s ts :
    allowed i -> ts !! n = None -> (forall m u, ts !! m = Some u -> compat i (t_id u)) -> quiet ts ->
    in_time (start i s) ->
    pool_step (s, ts) (at_yield (start i s) s, <[n := Thread i s (start i s)]> ts)
| PResume n i s s0 c s1 k ts :
    ts !! n = Some (Thread i s0 (Sleep c s1 k)) ->
    c = barrier \/ quiet ts ->
    in_time (k s) ->
    pool_step (s, ts) (at_yield (k s) s, <[n := Thread i s0 (k s)]> ts)
| PDevice s s' ts : D s s' -> pool_step (s, ts) (s', ts)
| PLeave n i s s0 s1 ts :
    ts !! n = Some (Thread i s0 (Done tt s1)) -> pool_step (s, ts) (s, delete n ts).

(** A process is not in trouble, and one that is done kept its promise. *)
Definition thread_safe (t : thread) : Prop :=
  match t_prog t with
  | Panic _ | Undef _ => False
  | Done _ s => Post (t_id t) (t_start t) s
  | _ => True
  end.

Definition G (i : id) (s s' : S) : Prop := forall j, compat i j -> P j s s'.

Context `{forall i j, Decision (compat i j)}.
Hypothesis compat_sym : forall i j, compat i j -> compat j i.
Hypothesis P_refl : forall i s, P i s s.
Hypothesis P_trans : forall i s1 s2 s3, P i s1 s2 -> P i s2 s3 -> P i s1 s3.
Hypothesis I_W : forall s, I s -> W s.
Hypothesis D_W : forall s s', W s -> D s s' -> W s'.
Hypothesis D_P : forall i s s', W s -> D s s' -> P i s s'.
Hypothesis D_I : forall s s', I s -> D s s' -> I s'.
Hypothesis Pre_P : forall i s s', Pre i s -> P i s s' -> Pre i s'.
Hypothesis Pre_conflict : forall i j s, ~ compat i j -> Pre i s -> Pre j s.
Hypothesis start_rg : forall i s, allowed i -> I s -> Pre i s ->
  rg (P i) (G i) s (start i s) (fun _ s1 s' => G i s1 s' /\ I s' /\ Pre i s' /\ Post i s s').

#[local] Instance at_barrier_dec t : Decision (at_barrier t).
Proof. unfold at_barrier. destruct (t_prog t); apply _. Defined.

(** What the rest of process [t] does, seen from the shared state [s]. *)
Definition t_ok (s : S) (t : thread) : Prop :=
  match t_prog t with
  | Done _ s1 => Pre (t_id t) s /\ Post (t_id t) (t_start t) s1
  | Panic _ | Undef _ => False
  | OutOfFuel => True
  | Sleep c s1 k =>
      let Q := fun (_ : unit) s2 s' => G (t_id t) s2 s' /\ I s' /\ Pre (t_id t) s' /\ Post (t_id t) (t_start t) s' in
      if decide (c = barrier) then
        rtc D s1 s /\ forall s', rtc D s1 s' -> rg (P (t_id t)) (G (t_id t)) s' (k s') Q
      else P (t_id t) s1 s /\ forall s', I s' -> P (t_id t) s1 s' -> rg (P (t_id t)) (G (t_id t)) s' (k s') Q
  end.

Record pool_ok (s : S) (ts : gmap nat thread) : Prop := {
  pk_W : W s;
  pk_threads : forall n t, ts !! n = Some t -> t_ok s t;
  pk_compat : forall n m t u, n <> m -> ts !! n = Some t -> ts !! m = Some u -> compat (t_id t) (t_id u);
  pk_pre : forall i, (forall n t, ts !! n = Some t -> compat i (t_id t)) -> Pre i s;
  pk_state : (exists n t, ts !! n = Some t /\ at_barrier t /\ quiet_but n ts) \/ (I s /\ quiet ts);
}.

(** A process that does not run, while another goes from [s] to [s']. *)
Lemma t_ok_other s s' t :
  t_ok s t -> ~ at_barrier t -> P (t_id t) s s' -> t_ok s' t.
Proof.
  unfold t_ok, at_barrier. destruct (t_prog t) as [? s1| | | |c s1 k]; try done.
  - intros [Hp HQ] _ HP. split; [by eapply Pre_P|done].
  - intros Hk Hc HP. rewrite decide_False in * by done. destruct Hk as [H1 H2].
    split; [by eapply P_trans|done].
Qed.

Lemma t_ok_device s s' t : W s -> t_ok s t -> D s s' -> t_ok s' t.
Proof.
  intros HW Ht HD. destruct (decide (at_barrier t)) as [Hb|Hb].
  - unfold t_ok, at_barrier in *. destruct (t_prog t) as [| | | |c s1 k]; try done.
    rewrite decide_True in * by done. destruct Ht as [H1 H2]. split; [by eapply rtc_r|done].
  - eapply t_ok_other; [done|done|by apply D_P].
Qed.

(** What [rg] says of the process that has just run. *)
Lemma rg_t_ok i s0 s (p : prog S unit) :
  in_time p ->
  rg (P i) (G i) s p (fun _ s1 s' => G i s1 s' /\ I s' /\ Pre i s' /\ Post i s0 s') ->
  t_ok (at_yield p s) (Thread i s0 p) /\ G i s (at_yield p s) /\ W (at_yield p s) /\
  (at_barrier (Thread i s0 p) \/ ~ at_barrier (Thread i s0 p) /\ I (at_yield p s)).
Proof.
  intros Ht Hp. destruct p as [[] s'| | | |c s' k]; try done; simpl in *.
  - destruct Hp as (HG & HI & Hpre & HQ). unfold t_ok, at_barrier. simpl. split; [done|]. split; [done|].
    split; [by apply I_W|]. right. tauto.
  - destruct Hp as [HG Hk]. unfold t_ok, at_barrier. simpl. case_decide.
    + destruct Hk as [HW Hk]. split; [split; [apply rtc_refl|done]|]. split; [done|]. split; [done|]. by left.
    + destruct Hk as [HI Hk]. split; [split; [apply P_refl|done]|]. split; [done|]. split; [by apply I_W|]. by right.
Qed.

(** Process [n] ran from [s] to [s']. *)
Lemma pool_ok_ran s s' n i s0 p ts :
  (forall m u, m <> n -> ts !! m = Some u -> t_ok s u /\ ~ at_barrier u /\ compat i (t_id u)) ->
  (forall m1 m2 t u, m1 <> n -> m2 <> n -> m1 <> m2 -> ts !! m1 = Some t -> ts !! m2 = Some u -> compat (t_id t) (t_id u)) ->
  (forall j, compat j i -> (forall m u, m <> n -> ts !! m = Some u -> compat j (t_id u)) -> Pre j s) ->
  t_ok s' (Thread i s0 p) -> G i s s' -> W s' ->
  (at_barrier (Thread i s0 p) \/ ~ at_barrier (Thread i s0 p) /\ I s') ->
  pool_ok s' (<[n := Thread i s0 p]> ts).
Proof.
  intros Ho Hc Hpre Hp HG HW Hst.
  assert (Hq : quiet_but n (<[n := Thread i s0 p]> ts)).
  { intros m u Hm E. rewrite lookup_insert_ne in E by done. by eapply Ho. }
  split.
  - exact HW.
  - intros m u E. destruct (decide (m = n)) as [-> |Hm].
    + rewrite lookup_insert_eq in E. by injection E as <-.
    + rewrite lookup_insert_ne in E by done. destruct (Ho m u) as (H1 & H2 & H3); [done|done|].
      apply (t_ok_other s); auto.
  - intros m1 m2 t u Hm E1 E2.
    destruct (decide (m1 = n)) as [-> |H1], (decide (m2 = n)) as [-> |H2]; try done;
      rewrite ?lookup_insert_eq in *; rewrite ?lookup_insert_ne in * by done.
    + injection E1 as <-. by eapply Ho.
    + injection E2 as <-. apply compat_sym. by eapply Ho.
    + by apply (Hc m1 m2).
  - intros j Hj. eapply Pre_P; [apply Hpre|apply HG, compat_sym].
    + apply (Hj n (Thread i s0 p)). apply lookup_insert_eq.
    + intros m u Hm E. apply (Hj m u). by rewrite lookup_insert_ne.
    + apply (Hj n (Thread i s0 p)). apply lookup_insert_eq.
  - destruct Hst as [Hst|[Hst HI]].
    + left. exists n, (Thread i s0 p). by rewrite lookup_insert_eq.
    + right. split; [done|]. intros m u E. destruct (decide (m = n)) as [-> |Hm]; [|by apply (Hq m)].
      rewrite lookup_insert_eq in E. by injection E as <-.
Qed.

Lemma pool_ok_resume s ts n i s0 c s1 k :
  pool_ok s ts -> ts !! n = Some (Thread i s0 (Sleep c s1 k)) -> c = barrier \/ quiet ts -> in_time (k s) ->
  pool_ok (at_yield (k s) s) (<[n := Thread i s0 (k s)]> ts).
Proof.
  intros Hp En Hq Ht. pose proof (pk_threads _ _ Hp _ _ En) as Hk. unfold t_ok in Hk. simpl in Hk.
  assert (Hst : quiet_but n ts /\ (c = barrier \/ I s)).
  { destruct (pk_state _ _ Hp) as [(m & t & Em & Hb & Hl)|[HI Hl]].
    - destruct Hq as [-> |Hq]; [|by destruct (Hq _ _ Em)].
      assert (m = n) as ->; [|auto]. destruct (decide (m = n)) as [|Hm]; [done|]. by destruct (Hl n _ (not_eq_sym Hm) En).
    - split; [|by right]. intros m u _. apply Hl. }
  destruct Hst as [Hl Hst].
  destruct (rg_t_ok i s0 s (k s)) as (Hok & HG & HW & Hy); [done| |].
  { case_decide; destruct Hk as [H1 H2]; [by apply H2|]. destruct Hst as [?|HI]; [done|]. by apply H2. }
  apply (pool_ok_ran s).
  - intros m u Hm E. split; [by apply (pk_threads _ _ Hp m)|]. split; [by apply (Hl m)|].
    apply (pk_compat _ _ Hp n m _ _ (not_eq_sym Hm) En E).
  - intros m1 m2 t u _ _ Hm. by apply (pk_compat _ _ Hp).
  - intros j Hj Ho. apply (pk_pre _ _ Hp). intros m u E. destruct (decide (m = n)) as [-> |Hm].
    + rewrite En in E. by injection E as <-.
    + by apply (Ho m).
  - done.
  - done.
  - done.
  - done.
Qed.

Lemma pool_ok_leave s ts n i s0 s1 :
  pool_ok s ts -> ts !! n = Some (Thread i s0 (Done tt s1)) -> pool_ok s (delete n ts).
Proof.
  intros Hp En. split.
  - apply (pk_W _ _ Hp).
  - intros m u [_ E]%lookup_delete_Some. by apply (pk_threads _ _ Hp m).
  - intros m1 m2 t u Hm [_ E1]%lookup_delete_Some [_ E2]%lookup_delete_Some. by apply (pk_compat _ _ Hp m1 m2).
  - intros j Hj. destruct (decide (compat i j)) as [Hc|Hc].
    + apply (pk_pre _ _ Hp). intros m u E. destruct (decide (m = n)) as [-> |Hm].
      * rewrite En in E. injection E as <-. by apply compat_sym.
      * apply (Hj m). by apply lookup_delete_Some.
    + pose proof (pk_threads _ _ Hp _ _ En) as Hk. unfold t_ok in Hk. simpl in Hk. destruct Hk as [Hk _]. by eapply Pre_conflict.
  - destruct (pk_state _ _ Hp) as [(m & t & Em & Hb & Hl)|[HI Hl]].
    + left. exists m, t. split; [|split; [done|]].
      * apply lookup_delete_Some. split; [|done]. intros ->. rewrite En in Em. by injection Em as <-.
      * intros m' u Hm [_ E]%lookup_delete_Some. by apply (Hl m').
    + right. split; [done|]. intros m u [_ E]%lookup_delete_Some. by apply (Hl m).
Qed.

Lemma pool_ok_step s ts s' ts' : pool_ok s ts -> pool_step (s, ts) (s', ts') -> pool_ok s' ts'.
Proof.
  intros Hp Hs. inversion Hs as [n i s2 ts2 Ha En Hc Hq Ht|n i s2 s0 c s1 k ts2 En Hq Ht|s2 s3 ts2 HD|n i s2 s0 s1 ts2 En]; subst.
  - destruct (pk_state _ _ Hp) as [(m & t & Em & Hb & _)|[HI _]]; [by destruct (Hq _ _ Em)|].
    destruct (rg_t_ok i s s (start i s)) as (Hok & HG & HW & Hy); [done| |].
    { apply start_rg; [done|done|]. by apply (pk_pre _ _ Hp). }
    apply (pool_ok_ran s); [| | |done..].
    + intros m u _ E. split; [by apply (pk_threads _ _ Hp m)|]. split; [by apply (Hq m)|by apply (Hc m)].
    + intros m1 m2 t u _ _ Hm. by apply (pk_compat _ _ Hp).
    + intros j _ Ho. apply (pk_pre _ _ Hp). intros m u E. apply (Ho m); [|done]. intros E0. rewrite E0, En in E. done.
  - by eapply pool_ok_resume.
  - pose proof (pk_W _ _ Hp) as HW. split.
    + by eapply D_W.
    + intros n t E. eapply t_ok_device; [done|by apply (pk_threads _ _ Hp n)|done].
    + apply (pk_compat _ _ Hp).
    + intros i Hi. eapply Pre_P; [by apply (pk_pre _ _ Hp)|by apply D_P].
    + destruct (pk_state _ _ Hp) as [?|[HI Hl]]; [by left|right; eauto].
  - by eapply pool_ok_leave.
Qed.

(** In every state that the processes reach together, from one in which none
    runs, each is safe. *)
Lemma pool_safe s0 s ts :
  I s0 -> (forall i, Pre i s0) -> rtc pool_step (s0, ∅) (s, ts) ->
  (forall n t, ts !! n = Some t -> thread_safe t) /\ (quiet ts -> I s).
Proof.
  intros HI HP Hr. assert (Hp : pool_ok s ts).
  { assert (H0 : pool_ok s0 ∅).
    { split; [by apply I_W|intros ? ?; by rewrite lookup_empty|intros ? ? ? ? ?; by rewrite lookup_empty|intros i _; apply HP|].
      right. split; [done|]. intros m u. by rewrite lookup_empty. }
    remember (s0, ∅) as x eqn:Ex. remember (s, ts) as y eqn:Ey. revert s0 HI HP s ts Ex Ey H0.
    assert (Hg : forall x y, rtc pool_step x y -> pool_ok (fst x) (snd x) -> pool_ok (fst y) (snd y)).
    { intros x' y'. induction 1 as [|[] [] ? Hst _ IH]; [done|]. intros Hok. apply IH. by eapply pool_ok_step. }
    intros s0 HI HP s ts -> -> H0. by apply (Hg _ _ Hr). }
  split.
  - intros n t E. pose proof (pk_threads _ _ Hp _ _ E) as Ht. unfold t_ok, thread_safe in *.
    destruct (t_prog t); try done. by destruct Ht.
  - intros Hq. destruct (pk_state _ _ Hp) as [(n & t & E & Hb & _)|[HI' _]]; [|done]. by destruct (Hq _ _ E).
Qed.

End Rely.

(** A process that is in time keeps its promise in particular. *)
Lemma rg_weaken {S A} D barrier W I (late : Prop) P G (s0 : S) (p : prog S A) Q :
  rg D barrier W I False P G s0 p Q -> rg D barrier W I late P G s0 p Q.
Proof.
  revert s0. induction p as [| | | |c s k IH]; simpl; try done.
  intros s0 [HG Hk]. split; [done|]. case_decide; destruct Hk as [HI Hk]; eauto.
Qed.
