(* ===== verification/Virtio.v ===== *)
(** The disk driver (kernel/virtio_disk.c) and the device it talks to.

    The queue memory ([disk.desc], [disk.avail], [disk.used]) is shared with the
    device.  The addresses that descriptors hold are names of kernel objects
    ([vaddr]).  The buffers are bcache.buf[] and a pointer to one is its index,
    -1 for null.  [VIRTIO_MMIO] registers are a history of writes, and what the
    device answers is a function of that history.

    sleep() gives the lock back, waits, and takes the lock again; [wakes] records
    the calls of wakeup().  [__sync_synchronize] is a point where the device may
    have taken steps meanwhile: the lock stays held, other processes do not run. *)

From S2P Require Import Prelude Mem Riscv Locks Kalloc Vm Proc Kernel Bio.

Definition VIRTIO_MMIO_MAGIC_VALUE : Z := 0.
Definition VIRTIO_MMIO_VERSION : Z := 4.
Definition VIRTIO_MMIO_DEVICE_ID : Z := 8.
Definition VIRTIO_MMIO_VENDOR_ID : Z := 12.
Definition VIRTIO_MMIO_DEVICE_FEATURES : Z := 16.
Definition VIRTIO_MMIO_DRIVER_FEATURES : Z := 32.
Definition VIRTIO_MMIO_QUEUE_SEL : Z := 48.
Definition VIRTIO_MMIO_QUEUE_NUM_MAX : Z := 52.
Definition VIRTIO_MMIO_QUEUE_NUM : Z := 56.
Definition VIRTIO_MMIO_QUEUE_READY : Z := 68.
Definition VIRTIO_MMIO_QUEUE_NOTIFY : Z := 80.
Definition VIRTIO_MMIO_INTERRUPT_STATUS : Z := 96.
Definition VIRTIO_MMIO_INTERRUPT_ACK : Z := 100.
Definition VIRTIO_MMIO_STATUS : Z := 112.
Definition VIRTIO_MMIO_QUEUE_DESC_LOW : Z := 128.
Definition VIRTIO_MMIO_QUEUE_DESC_HIGH : Z := 132.
Definition VIRTIO_MMIO_DRIVER_DESC_LOW : Z := 144.
Definition VIRTIO_MMIO_DRIVER_DESC_HIGH : Z := 148.
Definition VIRTIO_MMIO_DEVICE_DESC_LOW : Z := 160.
Definition VIRTIO_MMIO_DEVICE_DESC_HIGH : Z := 164.

Definition VIRTIO_CONFIG_S_ACKNOWLEDGE : Z := 1.
Definition VIRTIO_CONFIG_S_DRIVER : Z := 2.
Definition VIRTIO_CONFIG_S_DRIVER_OK : Z := 4.
Definition VIRTIO_CONFIG_S_FEATURES_OK : Z := 8.

Definition VIRTIO_BLK_F_RO : Z := 5.
Definition VIRTIO_BLK_F_SCSI : Z := 7.
Definition VIRTIO_BLK_F_CONFIG_WCE : Z := 11.
Definition VIRTIO_BLK_F_MQ : Z := 12.
Definition VIRTIO_F_ANY_LAYOUT : Z := 27.
Definition VIRTIO_RING_F_INDIRECT_DESC : Z := 28.
Definition VIRTIO_RING_F_EVENT_IDX : Z := 29.

Definition NUM : Z := 8.
Definition VRING_DESC_F_NEXT : Z := 1.
Definition VRING_DESC_F_WRITE : Z := 2.
Definition VIRTIO_BLK_T_IN : Z := 0.
Definition VIRTIO_BLK_T_OUT : Z := 1.

(** ** The driver's state *)

(** Null, [&disk.ops[i]], [b->data], [&disk.info[i].status]. *)
Inductive vaddr := VNull | VOps (i : Z) | VData (b : Z) | VStatus (i : Z).

#[export] Instance vaddr_eq_dec : EqDecision vaddr.
Proof. solve_decision. Defined.

Record virtq_desc := Desc { addr : vaddr; len : Z; flags : Z; next : Z }.
Record virtio_blk_req := BlkReq { rq_type : Z; rq_reserved : Z; rq_sector : Z }.
Record diskinfo := Info { in_b : Z; in_status : Z }.

(** [struct disk] with the queue memory, the buffers with their [b->disk], the
    rest of the machine the driver touches, and the device: the blocks, how far
    it has read in the avail ring, and the requests it works on. *)
Record vstate := VState {
  desc : list virtq_desc;
  avail_idx : Z;
  avail_ring : list Z;
  dev_idx : Z;
  used_ring : list (Z * Z);
  vfree : list Z;
  used_idx : Z;
  info : list diskinfo;
  ops : list virtio_blk_req;
  qpages : list Z;
  vbufs : list buf;
  b_disk : list Z;
  blocks : diskstate;
  dev_seen : Z;
  dev_taken : list Z;
  vram : phys;
  mmio : list (Z * Z);
  wakes : list chan;
  vheld : gset lock;
}.

(** A field of an update is computed, a field of a variable is left alone. *)
#[global] Arguments desc !_ /.
#[global] Arguments avail_idx !_ /.
#[global] Arguments avail_ring !_ /.
#[global] Arguments dev_idx !_ /.
#[global] Arguments used_ring !_ /.
#[global] Arguments vfree !_ /.
#[global] Arguments used_idx !_ /.
#[global] Arguments info !_ /.
#[global] Arguments ops !_ /.
#[global] Arguments qpages !_ /.
#[global] Arguments vbufs !_ /.
#[global] Arguments b_disk !_ /.
#[global] Arguments blocks !_ /.
#[global] Arguments dev_seen !_ /.
#[global] Arguments dev_taken !_ /.
#[global] Arguments vram !_ /.
#[global] Arguments mmio !_ /.
#[global] Arguments wakes !_ /.
#[global] Arguments vheld !_ /.

#[export] Program Instance vstate_locks : HasLocks vstate := {|
  held := vheld;
  set_held h s := s {{ vheld := h }}
|}.
Next Obligation. done. Qed.
Next Obligation. done. Qed.
Next Obligation. intros []. done. Qed.

Program Definition vram_lens : lens vstate phys := {|
  lget := vram;
  lput m s := s {{ vram := m }}
|}.
Next Obligation. done. Qed.
Next Obligation. intros []. done. Qed.
Next Obligation. done. Qed.

Definition vdisk_lock : lock := ("virtio_disk", 0).
Definition free_chan : chan := ("&disk.free[0]", 0).
Definition buf_chan (b : Z) : chan := ("b", b).
Definition sync_chan : chan := ("__sync_synchronize", 0).

Definition vsleep (ch : chan) (lk : lock) : M vstate unit :=
  release lk;;; Prelude.block ch;;; acquire lk.
Definition vwakeup (ch : chan) : M vstate unit := modify (fun s => s {{ wakes ::= fun l => l ++ [ch] }}).
Definition __sync_synchronize : M vstate unit := Prelude.block sync_chan.

(** [a[i]] for an array of the driver. *)
Definition vget {A} (tab : vstate -> list A) (what : string) (i : Z) : M vstate A :=
  o <- gets (fun s => geti (tab s) i);;
  match o with Some x => ret x | None => undef what end.

Definition set_desc (i : Z) (f : virtq_desc -> virtq_desc) : M vstate unit :=
  d <- vget desc "desc" i;; modify (fun s => s {{ desc ::= seti i (f d) }}).
Definition set_info (i : Z) (f : diskinfo -> diskinfo) : M vstate unit :=
  d <- vget info "info" i;; modify (fun s => s {{ info ::= seti i (f d) }}).
Definition set_free (i v : Z) : M vstate unit :=
  _ <- vget vfree "free" i;; modify (fun s => s {{ vfree ::= seti i v }}).
Definition set_ops (i : Z) (r : virtio_blk_req) : M vstate unit :=
  _ <- vget ops "ops" i;; modify (fun s => s {{ ops ::= seti i r }}).
Definition set_bdisk (b v : Z) : M vstate unit :=
  _ <- vget b_disk "b->disk" b;; modify (fun s => s {{ b_disk ::= seti b v }}).
Definition set_avail (i v : Z) : M vstate unit :=
  _ <- vget avail_ring "avail" i;; modify (fun s => s {{ avail_ring ::= seti i v }}).

(** What the device answers when register [r] is read. *)
Class Registers := reg_read : list (Z * Z) -> Z -> Z.

Section Virtio.
Context `{Fuel} `{Registers}.

Definition mmio_read (r : Z) : M vstate Z := gets (fun s => reg_read (mmio s) r).
Definition mmio_write (r v : Z) : M vstate unit := modify (fun s => s {{ mmio ::= fun l => l ++ [(r, u32 v)] }}).

(** [features &= ~(1 << bit)]. *)
Definition clear_bit (features bit : Z) : Z := Z.land features (Z.lnot (Z.shiftl 1 bit)).

Definition negotiate (features : Z) : Z :=
  fold_left clear_bit
    [VIRTIO_BLK_F_RO; VIRTIO_BLK_F_SCSI; VIRTIO_BLK_F_CONFIG_WCE; VIRTIO_BLK_F_MQ;
     VIRTIO_F_ANY_LAYOUT; VIRTIO_RING_F_EVENT_IDX; VIRTIO_RING_F_INDIRECT_DESC] features.

Definition in_vram {A} (m : M phys A) : M vstate A := zoom vram_lens m.

Definition virtio_disk_init : M vstate unit :=
  magic <- mmio_read VIRTIO_MMIO_MAGIC_VALUE;;
  version <- mmio_read VIRTIO_MMIO_VERSION;;
  device <- mmio_read VIRTIO_MMIO_DEVICE_ID;;
  vendor <- mmio_read VIRTIO_MMIO_VENDOR_ID;;
  if negb (magic =? 0x74726976) || negb (version =? 2) || negb (device =? 2) || negb (vendor =? 0x554d4551)
  then panic "could not find virtio disk"
  else
    mmio_write VIRTIO_MMIO_STATUS 0;;;
    let status := Z.lor 0 VIRTIO_CONFIG_S_ACKNOWLEDGE in
    mmio_write VIRTIO_MMIO_STATUS status;;;
    let status := Z.lor status VIRTIO_CONFIG_S_DRIVER in
    mmio_write VIRTIO_MMIO_STATUS status;;;
    features <- mmio_read VIRTIO_MMIO_DEVICE_FEATURES;;
    mmio_write VIRTIO_MMIO_DRIVER_FEATURES (negotiate features);;;
    let status := Z.lor status VIRTIO_CONFIG_S_FEATURES_OK in
    mmio_write VIRTIO_MMIO_STATUS status;;;
    status <- mmio_read VIRTIO_MMIO_STATUS;;
    if Z.land status VIRTIO_CONFIG_S_FEATURES_OK =? 0 then panic "virtio disk FEATURES_OK unset"
    else
      mmio_write VIRTIO_MMIO_QUEUE_SEL 0;;;
      ready <- mmio_read VIRTIO_MMIO_QUEUE_READY;;
      if negb (ready =? 0) then panic "virtio disk should not be ready"
      else
        max <- mmio_read VIRTIO_MMIO_QUEUE_NUM_MAX;;
        if max =? 0 then panic "virtio disk has no queue 0"
        else if max <? NUM then panic "virtio disk max queue too short"
        else
          dp <- in_vram kalloc;;
          ap <- in_vram kalloc;;
          up <- in_vram kalloc;;
          modify (fun s => s {{ qpages := [dp; ap; up] }});;;
          if (dp =? 0) || (ap =? 0) || (up =? 0) then panic "virtio disk kalloc"
          else
            in_vram (fill dp 0);;;
            in_vram (fill ap 0);;;
            in_vram (fill up 0);;;
            modify (fun s => s {{ desc := replicate 8 (Desc VNull 0 0 0);
                                  avail_idx := 0; avail_ring := replicate 8 0;
                                  dev_idx := 0; used_ring := replicate 8 (0, 0) }});;;
            mmio_write VIRTIO_MMIO_QUEUE_NUM NUM;;;
            mmio_write VIRTIO_MMIO_QUEUE_DESC_LOW dp;;;
            mmio_write VIRTIO_MMIO_QUEUE_DESC_HIGH (Z.shiftr dp 32);;;
            mmio_write VIRTIO_MMIO_DRIVER_DESC_LOW ap;;;
            mmio_write VIRTIO_MMIO_DRIVER_DESC_HIGH (Z.shiftr ap 32);;;
            mmio_write VIRTIO_MMIO_DEVICE_DESC_LOW up;;;
            mmio_write VIRTIO_MMIO_DEVICE_DESC_HIGH (Z.shiftr up 32);;;
            mmio_write VIRTIO_MMIO_QUEUE_READY 1;;;
            for_to NUM (fun i => set_free i 1;;; ret None) (ret tt);;;
            mmio_write VIRTIO_MMIO_STATUS (Z.lor status VIRTIO_CONFIG_S_DRIVER_OK).

Definition alloc_desc : M vstate Z :=
  for_to NUM (fun i =>
    f <- vget vfree "free" i;;
    if negb (f =? 0) then set_free i 0;;; ret (Some i) else ret None) (ret (-1)).

Definition free_desc (i : Z) : M vstate unit :=
  if i >=? NUM then panic "free_desc 1"
  else
    f <- vget vfree "free" i;;
    if negb (f =? 0) then panic "free_desc 2"
    else
      set_desc i (fun _ => Desc VNull 0 0 0);;;
      set_free i 1;;;
      vwakeup free_chan.

(** Each round frees a descriptor that was not free: NUM rounds are enough. *)
Definition free_chain (i : Z) : M vstate unit :=
  loop (Datatypes.S (Z.to_nat NUM))
    (fun i =>
       d <- vget desc "desc" i;;
       free_desc i;;;
       if negb (Z.land (flags d) VRING_DESC_F_NEXT =? 0) then continue (next d)
       else break tt) i.

Definition free_at (idx : list Z) (j : Z) : M vstate (option unit) :=
  match geti idx j with
  | Some d => free_desc d;;; ret None
  | None => undef "idx"
  end.

Definition free_idx (idx : list Z) (n : Z) : M vstate unit := for_to n (free_at idx) (ret tt).

(** [None] for the result -1; else the three indices. *)
Definition alloc3_desc : M vstate (option (list Z)) :=
  loop 4 (fun '(i, idx) =>
    if i <? 3 then
      d <- alloc_desc;;
      if d <? 0 then free_idx idx i;;; break None
      else continue (i + 1, idx ++ [d])
    else break (Some idx)) (0, []).

(** From "format the three descriptors" to the entry in the avail ring. *)
Definition format_request (b : Z) (write : bool) (sector i0 i1 i2 : Z) : M vstate unit :=
  set_ops i0 (BlkReq (if write then VIRTIO_BLK_T_OUT else VIRTIO_BLK_T_IN) 0 sector);;;
  set_desc i0 (fun _ => Desc (VOps i0) 16 VRING_DESC_F_NEXT (u16 i1));;;
  set_desc i1 (fun _ =>
    Desc (VData b) BSIZE (Z.lor (if write then 0 else VRING_DESC_F_WRITE) VRING_DESC_F_NEXT) (u16 i2));;;
  set_info i0 (fun n => n {{ in_status := 0xff }});;;
  set_desc i2 (fun _ => Desc (VStatus i0) 1 VRING_DESC_F_WRITE 0);;;
  set_bdisk b 1;;;
  set_info i0 (fun n => n {{ in_b := b }});;;
  a <- gets avail_idx;;
  set_avail (a mod NUM) (u16 i0).

Definition virtio_disk_rw (b : Z) (write : bool) : M vstate unit :=
  bf <- vget vbufs "buf" b;;
  let sector := u32 (b_blockno bf * (BSIZE / 512)) in
  acquire vdisk_lock;;;
  idx <- loop fuel (fun _ : unit =>
    r <- alloc3_desc;;
    match r with
    | Some idx => break idx
    | None => vsleep free_chan vdisk_lock;;; continue tt
    end) tt;;
  match idx with
  | [i0; i1; i2] =>
      format_request b write sector i0 i1 i2;;;
      __sync_synchronize;;;
      modify (fun s => s {{ avail_idx ::= fun a => u16 (a + 1) }});;;
      __sync_synchronize;;;
      mmio_write VIRTIO_MMIO_QUEUE_NOTIFY 0;;;
      loop fuel (fun _ : unit =>
        d <- vget b_disk "b->disk" b;;
        if d =? 1 then vsleep (buf_chan b) vdisk_lock;;; continue tt else break tt) tt;;;
      set_info i0 (fun n => n {{ in_b := -1 }});;;
      free_chain i0;;;
      release vdisk_lock
  | _ => undef "idx"
  end.

(** One round of the loop of virtio_disk_intr(). *)
Definition intr_round : M vstate (unit + unit) :=
  s <- gets (fun s => s);;
  if negb (used_idx s =? dev_idx s) then
    __sync_synchronize;;;
    u <- gets used_idx;;
    e <- vget used_ring "used" (u mod NUM);;
    n <- vget info "info" (fst e);;
    if negb (in_status n =? 0) then panic "virtio_disk_intr status"
    else
      set_bdisk (in_b n) 0;;;
      vwakeup (buf_chan (in_b n));;;
      modify (fun s => s {{ used_idx ::= fun u => u16 (u + 1) }});;;
      continue tt
  else break tt.

Definition virtio_disk_intr : M vstate unit :=
  acquire vdisk_lock;;;
  st <- mmio_read VIRTIO_MMIO_INTERRUPT_STATUS;;
  mmio_write VIRTIO_MMIO_INTERRUPT_ACK (Z.land st 3);;;
  __sync_synchronize;;;
  loop fuel (fun _ : unit => intr_round) tt;;;
  release vdisk_lock.

End Virtio.

(** ** The device

    What virtio.h and the comments of the driver say of the device: it takes
    chain heads from the avail ring in order; for a head it took, in any order,
    it performs the request that the chain describes, writes 0 to the status
    byte, puts the head into the used ring and increments its index. *)

Definition dev_fetch (s : vstate) : option vstate :=
  if dev_seen s =? avail_idx s then None
  else
    h ← geti (avail_ring s) (dev_seen s mod NUM);
    Some (s {{ dev_seen ::= fun n => u16 (n + 1); dev_taken ::= fun l => l ++ [h] }}).

(** The transfer between buffer [b] and the disk. *)
Definition transfer (rq : virtio_blk_req) (d1 : virtq_desc) (b : Z) (s : vstate) : option vstate :=
  bf ← geti (vbufs s) b;
  let blk := rq_sector rq / (BSIZE / 512) in
  if (rq_type rq =? VIRTIO_BLK_T_OUT) && (Z.land (flags d1) VRING_DESC_F_WRITE =? 0) then
    Some (s {{ blocks := (blocks s) {{ d_writes ::= fun l => l ++ [(blk, b_data bf)] }} }})
  else if (rq_type rq =? VIRTIO_BLK_T_IN) && negb (Z.land (flags d1) VRING_DESC_F_WRITE =? 0) then
    Some (s {{ vbufs ::= seti b (bf {{ b_data := Bio.block (blocks s) blk }}) }})
  else None.

(** The three descriptors of the chain with head [h]. *)
Definition chain_of (s : vstate) (h : Z) : option (virtq_desc * virtq_desc * virtq_desc) :=
  d0 ← geti (desc s) h;
  d1 ← geti (desc s) (next d0);
  d2 ← geti (desc s) (next d1);
  Some (d0, d1, d2).

(** Serve the [k]-th request it took. *)
Definition dev_serve (k : nat) (s : vstate) : option vstate :=
  h ← dev_taken s !! k;
  '(d0, d1, d2) ← chain_of s h;
  match addr d0, addr d1, addr d2 with
  | VOps o, VData b, VStatus st =>
      rq ← geti (ops s) o;
      s' ← transfer rq d1 b s;
      n ← geti (info s') st;
      Some (s' {{ info ::= seti st (n {{ in_status := 0 }});
                  used_ring ::= seti (dev_idx s' mod NUM) (h, len d1);
                  dev_idx ::= fun n => u16 (n + 1);
                  dev_taken ::= fun l => delete k l }})
  | _, _, _ => None
  end.

Inductive dev_step (s s' : vstate) : Prop :=
| DevFetch : dev_fetch s = Some s' -> dev_step s s'
| DevServe k : dev_serve k s = Some s' -> dev_step s s'.
