(* ===== verification/VirtioFacts.v ===== *)
(** The invariant of the disk driver and its queue, and what one process sees of
    the others and of the device.

    A request in flight is a [chain] of three descriptors.  [vinv] says where each
    chain is: being built, in the avail ring, taken by the device, in the used
    ring, or done; that descriptors outside the chains are free; and that no
    descriptor and no buffer belongs to two requests.

    [view b] is what the owner of buffer [b] may rely on: its request stays as it
    is until the device finishes it, and then the transfer has happened; without
    a request the buffer is left alone.  Every step of the device respects the
    invariant and everybody's view. *)

From stdpp Require Import sorting.
From S2P Require Import Prelude Mem Riscv Locks Kalloc Vm Proc ProcFacts Kernel KernelFacts Bio Rely Virtio.

(** Compute the fields of an update of [s]. *)
Ltac vcbn s := cbn; fold (desc s) (avail_idx s) (avail_ring s) (dev_idx s) (used_ring s) (vfree s) (used_idx s) (info s) (ops s) (qpages s) (vbufs s) (b_disk s) (blocks s) (dev_seen s) (dev_taken s) (vram s) (mmio s) (wakes s) (vheld s).

Record chain := Chain {
  c_head : Z;
  c_mid : Z;
  c_tail : Z;
  c_buf : Z;
  c_write : bool;
  c_sector : Z;
}.

#[export] Instance chain_eq_dec : EqDecision chain.
Proof. solve_decision. Defined.

Definition c_ids (c : chain) : list Z := [c_head c; c_mid c; c_tail c].

(** The memory the device reads for request [c]. *)
Definition has_chain (s : vstate) (c : chain) : Prop :=
  geti (vfree s) (c_head c) = Some 0 /\
  geti (desc s) (c_head c) = Some (Desc (VOps (c_head c)) 16 VRING_DESC_F_NEXT (c_mid c)) /\
  geti (desc s) (c_mid c) = Some (Desc (VData (c_buf c)) BSIZE
    (Z.lor (if c_write c then 0 else VRING_DESC_F_WRITE) VRING_DESC_F_NEXT) (c_tail c)) /\
  geti (desc s) (c_tail c) = Some (Desc (VStatus (c_head c)) 1 VRING_DESC_F_WRITE 0) /\
  geti (ops s) (c_head c)
    = Some (BlkReq (if c_write c then VIRTIO_BLK_T_OUT else VIRTIO_BLK_T_IN) 0 (c_sector c)).

(** The entries of a ring from [from] on are [q]. *)
Definition ring (f : Z -> option Z) (from : Z) (q : list Z) : Prop :=
  forall k h, q !! k = Some h -> f ((from + Z.of_nat k) mod NUM) = Some h.

Definition used_at (s : vstate) (i : Z) : option Z := fst <$> geti (used_ring s) i.

Definition in_ids (R : list chain) (i : Z) : Prop := i ∈ R ≫= c_ids.
#[export] Instance in_ids_dec R i : Decision (in_ids R i).
Proof. unfold in_ids. apply _. Defined.

(** [B]: heads of chains that are built and not yet published; [Q]: in the avail
    ring; [dev_taken]; [C]: in the used ring and not yet seen; [Dn]: done. *)
Record vinv (B : list Z) (s : vstate) (R : list chain) (Q C Dn : list Z) : Prop := {
  vi_len : length (desc s) = 8%nat /\ length (vfree s) = 8%nat /\ length (info s) = 8%nat /\
    length (ops s) = 8%nat /\ length (avail_ring s) = 8%nat /\ length (used_ring s) = 8%nat /\
    length (b_disk s) = length (vbufs s);
  vi_u16 : 0 <= dev_seen s < 2 ^ 16 /\ 0 <= used_idx s < 2 ^ 16;
  vi_ids : NoDup (R ≫= c_ids);
  vi_bufs : NoDup (c_buf <$> R);
  vi_chain : forall c, c ∈ R -> has_chain s c;
  vi_buf : forall c, c ∈ R -> is_Some (geti (vbufs s) (c_buf c));
  vi_free : forall i, 0 <= i < NUM -> geti (vfree s) i = Some (if decide (in_ids R i) then 0 else 1);
  vi_info : forall c, c ∈ R ->
    geti (info s) (c_head c) = Some (Info (c_buf c) (if decide (c_head c ∈ C ++ Dn) then 0 else 255));
  vi_own : forall c, c ∈ R ->
    geti (b_disk s) (c_buf c) = Some (if decide (c_head c ∈ Dn) then 0 else 1);
  vi_heads : c_head <$> R ≡ₚ B ++ Q ++ dev_taken s ++ C ++ Dn;
  vi_avail : ring (geti (avail_ring s)) (dev_seen s) Q;
  vi_avail_idx : avail_idx s = u16 (dev_seen s + Z.of_nat (length Q));
  vi_used : ring (used_at s) (used_idx s) C;
  vi_used_idx : dev_idx s = u16 (used_idx s + Z.of_nat (length C));
}.

(** ** Rings *)

Lemma u16_range x : 0 <= u16 x < 2 ^ 16.
Proof. apply Z.mod_pos_bound. lia. Qed.

Lemma u16_mod_NUM x y : (u16 x + y) mod NUM = (x + y) mod NUM.
Proof.
  unfold u16, NUM. rewrite <- Zplus_mod_idemp_l, Z.mod_mod_divide, Zplus_mod_idemp_l; [done|]. by exists (2 ^ 13).
Qed.

Lemma ring_pop f from h q : ring f from (h :: q) -> f (from mod NUM) = Some h /\ ring f (u16 (from + 1)) q.
Proof.
  intros Hr. split.
  - pose proof (Hr 0%nat h eq_refl) as H. by rewrite Z.add_0_r in H.
  - intros k x E. pose proof (Hr (S k) x E) as H. rewrite u16_mod_NUM.
    replace (from + 1 + Z.of_nat k) with (from + Z.of_nat (S k)) by lia. done.
Qed.

(** A new entry behind the last one, when the ring is not full. *)
Lemma ring_push f f' from q h i :
  ring f from q -> (length q < 8)%nat -> i mod NUM = (from + Z.of_nat (length q)) mod NUM ->
  f' (i mod NUM) = Some h -> (forall j, j <> i mod NUM -> f' j = f j) ->
  ring f' from (q ++ [h]).
Proof.
  intros Hr Hl Hi Hf Hj k x E. destruct (decide (k < length q)%nat) as [Hk|Hk].
  - rewrite lookup_app_l in E by done. rewrite Hj; [by apply Hr|]. rewrite Hi. unfold NUM. zdiv.
  - rewrite lookup_app_r in E by lia. destruct (k - length q)%nat as [|m] eqn:Em; [|done].
    injection E as <-. replace k with (length q) by lia. by rewrite <- Hi.
Qed.

Lemma ring_ext f f' from q : (forall i, f' i = f i) -> ring f from q -> ring f' from q.
Proof. intros Hf Hr k h E. rewrite Hf. by apply Hr. Qed.

Lemma u16_succ_len x (q : list Z) h : u16 (u16 (x + Z.of_nat (length q)) + 1) = u16 (x + Z.of_nat (length (q ++ [h]))).
Proof.
  unfold u16. rewrite Zplus_mod_idemp_l, length_app. simpl. f_equal. lia.
Qed.

Lemma u16_drop_len x (q : list Z) h : u16 (x + Z.of_nat (length (h :: q))) = u16 (u16 (x + 1) + Z.of_nat (length q)).
Proof. unfold u16. rewrite Zplus_mod_idemp_l. f_equal. simpl. lia. Qed.

Lemma u16_len_0 x (q : list Z) : 0 <= x < 2 ^ 16 -> (length q < 9)%nat -> u16 (x + Z.of_nat (length q)) = x -> q = [].
Proof. intros Hx Hq E. destruct q as [|h q]; [done|]. exfalso. revert E. unfold u16. simpl in *. zdiv. Qed.

(** ** Chains *)

Lemma ids_elem R i : in_ids R i <-> exists c, c ∈ R /\ i ∈ c_ids c.
Proof. unfold in_ids. rewrite list_elem_of_bind. naive_solver. Qed.

Lemma c_head_ids c : c_head c ∈ c_ids c.
Proof. left. Qed.

Lemma in_ids_cons c R i : in_ids (c :: R) i <-> i ∈ c_ids c \/ in_ids R i.
Proof. unfold in_ids. change ((c :: R) ≫= c_ids) with (c_ids c ++ R ≫= c_ids). apply elem_of_app. Qed.

#[export] Instance vinv_perm_ids : Proper (Permutation ==> eq ==> iff) in_ids.
Proof. intros R R' HR i ? <-. unfold in_ids. by rewrite HR. Qed.

Lemma vinv_perm B s R R' Q C Dn : R ≡ₚ R' -> vinv B s R Q C Dn -> vinv B s R' Q C Dn.
Proof.
  intros HR [H1 H2 H3 H4 H5 H6 H7 H8 H9 H10 H11 H12 H13 H14].
  assert (He : forall c, c ∈ R' -> c ∈ R) by (intros c; by rewrite HR).
  split; try done; try (intros c Hc; by auto).
  - by rewrite <- HR.
  - by rewrite <- HR.
  - intros i Hi. rewrite (H7 i Hi). do 2 case_decide; try done; rewrite HR in *; tauto.
  - by rewrite <- HR.
Qed.

Section Inv.
Context {B : list Z} {s : vstate} {R : list chain} {Q C Dn : list Z}.
Hypothesis Hv : vinv B s R Q C Dn.

Lemma vinv_ids_range i : in_ids R i -> 0 <= i < NUM.
Proof.
  intros (c & Hc & Hi)%ids_elem. destruct (vi_chain _ _ _ _ _ _ Hv c Hc) as (_ & H1 & H2 & H3 & _).
  destruct (vi_len _ _ _ _ _ _ Hv) as [Hl _].
  unfold c_ids in Hi. rewrite !elem_of_cons, elem_of_nil in Hi.
  destruct Hi as [-> |[-> |[-> |[]]]]; [apply geti_Some_lt in H1|apply geti_Some_lt in H2|apply geti_Some_lt in H3];
    rewrite Hl in *; unfold NUM; lia.
Qed.

Lemma vinv_heads_nodup : NoDup (c_head <$> R).
Proof.
  pose proof (vi_ids _ _ _ _ _ _ Hv) as Hn. clear Hv. induction R as [|c r IH]; [constructor|].
  change ((c :: r) ≫= c_ids) with (c_ids c ++ r ≫= c_ids) in Hn.
  apply NoDup_app in Hn as (_ & Hd & Hn). simpl. constructor; [|by apply IH].
  intros (c' & E & Hc')%list_elem_of_fmap. apply (Hd (c_head c)); [apply c_head_ids|].
  apply list_elem_of_bind. exists c'. split; [rewrite E; apply c_head_ids|done].
Qed.

(** At most two requests are in flight. *)
Lemma vinv_few : (length R <= 2)%nat.
Proof.
  assert (H : (length (R ≫= c_ids) <= 8)%nat).
  { change 8%nat with (length (seqZ 0 8)). apply submseteq_length, NoDup_submseteq.
    - apply (vi_ids _ _ _ _ _ _ Hv).
    - intros i Hi. apply elem_of_seqZ. pose proof (vinv_ids_range i Hi). unfold NUM in *. lia. }
  assert (Hl : length (R ≫= c_ids) = (3 * length R)%nat).
  { clear. induction R as [|c r IH]; [done|].
    change ((c :: r) ≫= c_ids) with (c_ids c ++ r ≫= c_ids). rewrite length_app, IH. simpl. lia. }
  lia.
Qed.

Lemma vinv_lengths : (length B + length Q + length (dev_taken s) + length C + length Dn <= 2)%nat.
Proof.
  pose proof (Permutation_length (vi_heads _ _ _ _ _ _ Hv)) as H. rewrite length_fmap, !length_app in H.
  pose proof vinv_few. lia.
Qed.

Lemma vinv_lists_nodup : NoDup (B ++ Q ++ dev_taken s ++ C ++ Dn).
Proof. rewrite <- (vi_heads _ _ _ _ _ _ Hv). apply vinv_heads_nodup. Qed.

Lemma vinv_head_in h : h ∈ B ++ Q ++ dev_taken s ++ C ++ Dn -> exists c, c ∈ R /\ c_head c = h.
Proof. rewrite <- (vi_heads _ _ _ _ _ _ Hv). intros (c & -> & Hc)%list_elem_of_fmap. eauto. Qed.

(** What the memory says is what the list says. *)
Lemma has_chain_in c : has_chain s c -> c ∈ R.
Proof.
  intros (Hf & H1 & H2 & H3 & H4).
  assert (Hh : 0 <= c_head c < NUM).
  { apply geti_Some_lt in Hf. destruct (vi_len _ _ _ _ _ _ Hv) as (_ & Hl & _). rewrite Hl in Hf. unfold NUM. lia. }
  pose proof (vi_free _ _ _ _ _ _ Hv _ Hh) as Hfr. rewrite Hf in Hfr. case_decide as Hin; [|done].
  apply ids_elem in Hin as (c' & Hc' & Hi). destruct (vi_chain _ _ _ _ _ _ Hv c' Hc') as (_ & E1 & E2 & E3 & E4).
  unfold c_ids in Hi. rewrite !elem_of_cons, elem_of_nil in Hi. destruct Hi as [Hi|[Hi|[Hi|[]]]].
  - destruct c as [h m t b w sec], c' as [h' m' t' b' w' sec']. simpl in *. subst h'.
    rewrite H1 in E1. injection E1 as <-. rewrite H2 in E2. injection E2 as <- Hw <-.
    rewrite H4 in E4. injection E4 as Hw' <-.
    assert (w = w') as <- by (destruct w, w'; done). done.
  - rewrite Hi in H1. rewrite H1 in E2. done.
  - rewrite Hi in H1. rewrite H1 in E3. done.
Qed.

Lemma head_inj c c' : c ∈ R -> c' ∈ R -> c_head c = c_head c' -> c = c'.
Proof.
  intros Hc Hc' E. destruct (vi_chain _ _ _ _ _ _ Hv c Hc) as (Hf & H1 & H2 & H3 & H4).
  destruct (vi_chain _ _ _ _ _ _ Hv c' Hc') as (_ & E1 & E2 & E3 & E4).
  destruct c as [h m t b w sec], c' as [h' m' t' b' w' sec']. simpl in *. subst h'.
  rewrite H1 in E1. injection E1 as <-. rewrite H2 in E2. injection E2 as <- Hw <-.
  rewrite H4 in E4. injection E4 as Hw' <-. assert (w = w') as <- by (destruct w, w'; done). done.
Qed.

Lemma buf_inj c c' : c ∈ R -> c' ∈ R -> c_buf c = c_buf c' -> c = c'.
Proof.
  intros [i Hi]%list_elem_of_lookup [j Hj]%list_elem_of_lookup E.
  assert (i = j) as <-; [|congruence].
  apply (NoDup_lookup (c_buf <$> R) i j (c_buf c)); [apply (vi_bufs _ _ _ _ _ _ Hv)| |].
  - by rewrite list_lookup_fmap, Hi.
  - by rewrite list_lookup_fmap, Hj, E.
Qed.

End Inv.

Definition finished (s : vstate) (c : chain) : Prop :=
  geti (info s) (c_head c) = Some (Info (c_buf c) 0).

Definition idle (s : vstate) (b : Z) : Prop := forall c, c_buf c = b -> ~ has_chain s c.

Definition same_buf (b : Z) (s s' : vstate) : Prop := geti (vbufs s') b = geti (vbufs s) b.

(** Between [s] and [s'] the disk performed writes, and at one point of them the
    transfer: buffer [b] to or from block [blk]. *)
Definition transferred (b blk : Z) (write : bool) (s s' : vstate) : Prop :=
  exists ws1 ws2 bf,
    geti (vbufs s) b = Some bf /\
    d_init (blocks s') = d_init (blocks s) /\
    d_writes (blocks s') = d_writes (blocks s) ++ ws1 ++ ws2 /\
    if write then geti (vbufs s') b = Some bf /\ last ws1 = Some (blk, b_data bf)
    else geti (vbufs s') b
         = Some (bf {{ b_data := last_write (d_writes (blocks s) ++ ws1) blk (d_init (blocks s) blk) }}).

Definition grows (s s' : vstate) : Prop :=
  d_init (blocks s') = d_init (blocks s) /\ d_writes (blocks s) `prefix_of` d_writes (blocks s').

Record view (b : Z) (s s' : vstate) : Prop := {
  vw_len : length (vbufs s') = length (vbufs s);
  vw_grows : grows s s';
  vw_busy : forall c, c_buf c = b -> has_chain s c ->
    has_chain s' c /\
    (finished s c -> finished s' c /\ same_buf b s s') /\
    (~ finished s c -> ~ finished s' c /\ same_buf b s s' \/
       finished s' c /\ transferred b (c_sector c / (BSIZE / 512)) (c_write c) s s');
  vw_idle : idle s b -> idle s' b /\ same_buf b s s';
}.

#[export] Instance finished_dec s c : Decision (finished s c).
Proof.
  unfold finished. destruct (geti (info s) (c_head c)) as [[b st]|]; [|right; done].
  destruct (decide (b = c_buf c)) as [-> |Hb]; [|right; congruence].
  destruct (decide (st = 0)) as [-> |Hs]; [by left|right; congruence].
Defined.

Lemma grows_refl s : grows s s.
Proof. done. Qed.

Lemma grows_trans s1 s2 s3 : grows s1 s2 -> grows s2 s3 -> grows s1 s3.
Proof. intros [H1 H2] [H3 H4]. split; [congruence|by etrans]. Qed.

Lemma transferred_before b blk w s0 s s' :
  grows s0 s -> same_buf b s0 s -> transferred b blk w s s' -> transferred b blk w s0 s'.
Proof.
  intros [Hi [ws0 Hg]] Hb (ws1 & ws2 & bf & E & Hi' & Hw & Ht).
  exists (ws0 ++ ws1), ws2, bf. split; [by rewrite <- Hb|]. split; [congruence|].
  split; [rewrite Hw, Hg; by rewrite <- !app_assoc|]. destruct w.
  - destruct Ht as [H1 H2]. split; [done|]. by rewrite last_app, H2.
  - by rewrite Ht, Hg, Hi, <- app_assoc.
Qed.

Lemma transferred_after b blk w s s' s2 :
  grows s' s2 -> same_buf b s' s2 -> transferred b blk w s s' -> transferred b blk w s s2.
Proof.
  intros [Hi [ws0 Hg]] Hb (ws1 & ws2 & bf & E & Hi' & Hw & Ht).
  exists ws1, (ws2 ++ ws0), bf. split; [done|]. split; [congruence|].
  split; [rewrite Hg, Hw; by rewrite <- !app_assoc|]. unfold same_buf in Hb. destruct w.
  - destruct Ht as [H1 H2]. split; congruence.
  - congruence.
Qed.

Lemma view_refl b s : view b s s.
Proof.
  split; [done|done| |done]. intros c _ Hc. split; [done|]. split; [done|]. intros Hn. by left.
Qed.

Lemma same_buf_trans b s1 s2 s3 : same_buf b s1 s2 -> same_buf b s2 s3 -> same_buf b s1 s3.
Proof. unfold same_buf. congruence. Qed.

Lemma view_trans b s1 s2 s3 : view b s1 s2 -> view b s2 s3 -> view b s1 s3.
Proof.
  intros [L1 G1 B1 I1] [L2 G2 B2 I2]. split; [congruence|by eapply grows_trans| |].
  - intros c Hb Hc. destruct (B1 c Hb Hc) as (Hc' & Hf & Hu). destruct (B2 c Hb Hc') as (Hc2 & Hf2 & Hu2).
    split; [done|]. split.
    + intros Hd. destruct (Hf Hd) as [H1 H2]. destruct (Hf2 H1) as [H3 H4]. split; [done|by eapply same_buf_trans].
    + intros Hn. destruct (Hu Hn) as [[H1 H2]|[H1 H2]].
      * destruct (Hu2 H1) as [[H3 H4]|[H3 H4]]; [left; split; [done|by eapply same_buf_trans]|].
        right. split; [done|by eapply transferred_before].
      * destruct (Hf2 H1) as [H3 H4]. right. split; [done|by eapply transferred_after].
  - intros Hi. destruct (I1 Hi) as [H1 H2]. destruct (I2 H1) as [H3 H4]. split; [done|by eapply same_buf_trans].
Qed.

(** A step that moves no data keeps the view of [b] if the chains of [b] are the
    same and their status bytes too. *)
Lemma view_frame B B' b s s' R R' Q Q' C C' Dn Dn' :
  vinv B s R Q C Dn -> vinv B' s' R' Q' C' Dn' ->
  grows s s' -> length (vbufs s') = length (vbufs s) -> same_buf b s s' ->
  (forall c, c_buf c = b -> c ∈ R <-> c ∈ R') ->
  (forall c, c_buf c = b -> c ∈ R -> geti (info s') (c_head c) = geti (info s) (c_head c)) ->
  view b s s'.
Proof.
  intros Hv Hv' Hbl Hlen Hb HR Hinfo. split; [done|done| |].
  - intros c Hc Hch. assert (Hin : c ∈ R) by by eapply has_chain_in.
    assert (Hf : finished s' c <-> finished s c) by (unfold finished; by rewrite Hinfo).
    split; [apply (vi_chain _ _ _ _ _ _ Hv'); by apply HR|]. rewrite Hf. split; [done|]. intros Hn. by left.
  - intros Hi. split; [|done]. intros c Hc Hch. apply (Hi c Hc).
    apply (vi_chain _ _ _ _ _ _ Hv). apply HR; [done|]. by eapply has_chain_in.
Qed.

(** The transitions that only concern the rings. *)
Lemma vinv_fetch B s s' R Q C Dn :
  vinv B s R Q C Dn -> dev_fetch s = Some s' ->
  exists Q', vinv B s' R Q' C Dn /\ forall b, view b s s'.
Proof.
  intros Hv E. unfold dev_fetch in E. destruct (Z.eqb_spec (dev_seen s) (avail_idx s)) as [|Hne]; [done|].
  destruct Q as [|h Q'].
  { rewrite (vi_avail_idx _ _ _ _ _ _ Hv) in Hne. destruct Hne. simpl. rewrite Z.add_0_r.
    symmetry. apply u16_small. apply (vi_u16 _ _ _ _ _ _ Hv). }
  destruct (ring_pop _ _ _ _ (vi_avail _ _ _ _ _ _ Hv)) as [Hh Hq]. rewrite Hh in E. simpl in E. injection E as <-.
  assert (Hv' : vinv B (s {{ dev_seen ::= fun n => u16 (n + 1); dev_taken ::= fun l => l ++ [h] }}) R Q' C Dn).
  { pose proof (vi_u16 _ _ _ _ _ _ Hv) as Hu. pose proof (vi_heads _ _ _ _ _ _ Hv) as Hp.
    pose proof (vi_avail_idx _ _ _ _ _ _ Hv) as Hx. destruct Hv. split; try done.
    - split; [apply u16_range|apply Hu].
    - rewrite Hp. simpl. apply Permutation_app_head. rewrite <- !app_assoc. simpl.
      rewrite !app_assoc. rewrite <- Permutation_middle. rewrite <- app_assoc. done.
    - cbn [avail_idx dev_seen]. change (avail_idx s = u16 (u16 (dev_seen s + 1) + Z.of_nat (length Q'))).
      by rewrite Hx, u16_drop_len. }
  exists Q'. split; [done|]. intros b. by eapply view_frame.
Qed.

(** The state after the [k]-th taken request, with head [h], has been served;
    [s1] is the state after its transfer. *)
Definition served (k : nat) (h n : Z) (inf : diskinfo) (s1 : vstate) : vstate :=
  s1 {{ info ::= seti h (inf {{ in_status := 0 }});
        used_ring ::= seti (dev_idx s1 mod NUM) (h, n);
        dev_idx ::= fun i => u16 (i + 1);
        dev_taken ::= fun l => delete k l }}.

Definition moved (c : chain) (bf : buf) (s : vstate) : vstate :=
  let blk := c_sector c / (BSIZE / 512) in
  if c_write c then s {{ blocks := (blocks s) {{ d_writes ::= fun l => l ++ [(blk, b_data bf)] }} }}
  else s {{ vbufs ::= seti (c_buf c) (bf {{ b_data := Bio.block (blocks s) blk }}) }}.

(** Serving a request is always possible, and this is what it does. *)
Lemma dev_serve_eq B s R Q C Dn k h :
  vinv B s R Q C Dn -> dev_taken s !! k = Some h ->
  exists c bf, c ∈ R /\ c_head c = h /\ geti (vbufs s) (c_buf c) = Some bf /\
    dev_serve k s = Some (served k h BSIZE (Info (c_buf c) 255) (moved c bf s)).
Proof.
  intros Hv Ek. assert (Hh : h ∈ dev_taken s) by by eapply list_elem_of_lookup_2.
  destruct (vinv_head_in Hv h) as (c & Hc & Eh); [rewrite !elem_of_app; tauto|].
  destruct (vi_buf _ _ _ _ _ _ Hv c Hc) as [bf Ebf].
  destruct (vi_chain _ _ _ _ _ _ Hv c Hc) as (_ & H1 & H2 & H3 & H4).
  pose proof (vi_info _ _ _ _ _ _ Hv c Hc) as Hi.
  rewrite decide_False in Hi.
  2:{ pose proof (vinv_lists_nodup Hv) as Hn. rewrite !NoDup_app in Hn. rewrite Eh.
      destruct Hn as (_ & _ & _ & _ & _ & Hn & _). by apply Hn. }
  exists c, bf. split; [done|]. split; [done|]. split; [done|].
  unfold dev_serve. rewrite Ek. cbn [mbind option_bind]. unfold chain_of. rewrite <- Eh, H1. cbn [mbind option_bind next].
  rewrite H2. cbn [mbind option_bind next]. rewrite H3. cbn [mbind option_bind addr]. rewrite H4. cbn [mbind option_bind].
  unfold transfer. rewrite Ebf. cbn [mbind option_bind rq_type rq_sector flags].
  unfold served, moved. destruct (c_write c).
  - replace (_ && _) with true by reflexivity. cbn [mbind option_bind].
    change (info (_ : vstate)) with (info s). rewrite Hi. reflexivity.
  - replace (_ && _) with false by reflexivity. replace (_ && negb _) with true by reflexivity. cbn [mbind option_bind].
    change (info (_ : vstate)) with (info s). rewrite Hi. reflexivity.
Qed.

Lemma delete_bufs s c bf b : c_buf c <> b -> geti (vbufs (moved c bf s)) b = geti (vbufs s) b.
Proof. intros Hb. unfold moved. destruct (c_write c); [done|]. by apply geti_seti_ne. Qed.

Lemma vinv_served B s R Q C Dn k h c bf :
  vinv B s R Q C Dn -> dev_taken s !! k = Some h -> c ∈ R -> c_head c = h -> geti (vbufs s) (c_buf c) = Some bf ->
  vinv B (served k h BSIZE (Info (c_buf c) 255) (moved c bf s)) R Q (C ++ [h]) Dn.
Proof.
  intros Hv Ek Hc Eh Ebf. pose proof (vinv_lengths Hv) as Hlen.
  set (s1 := moved c bf s).
  assert (Hd : dev_idx s1 = dev_idx s /\ used_ring s1 = used_ring s /\ info s1 = info s /\ dev_taken s1 = dev_taken s /\
    desc s1 = desc s /\ vfree s1 = vfree s /\ ops s1 = ops s /\ used_idx s1 = used_idx s /\ b_disk s1 = b_disk s /\
    length (vbufs s1) = length (vbufs s)).
  { unfold s1, moved. destruct (c_write c); simpl; rewrite ?length_seti; done. }
  destruct Hd as (D1 & D2 & D3 & D4 & D5 & D6 & D7 & D8 & D9 & D10).
  assert (D11 : avail_ring s1 = avail_ring s /\ avail_idx s1 = avail_idx s /\ dev_seen s1 = dev_seen s)
    by (unfold s1, moved; by destruct (c_write c)).
  destruct D11 as (D11 & D12 & D13). clearbody s1.
  destruct s1 as [ds ai ar di ur vf ui inf os qp vb bd bl sn tk vr mm wk vh].
  cbn in D1, D2, D3, D4, D5, D6, D7, D8, D9, D10, D11, D12, D13. subst ds ai ar di ur vf ui inf os bd sn tk.
  pose proof (vi_len _ _ _ _ _ _ Hv) as (L1 & L2 & L3 & L4 & L5 & L6 & L7).
  assert (Hin : forall x, x ∈ (C ++ [h]) ++ Dn <-> x = h \/ x ∈ C ++ Dn) by set_solver.
  split; unfold served.
  - cbn. rewrite !length_seti, D10. done.
  - cbn. apply (vi_u16 _ _ _ _ _ _ Hv).
  - apply Hv.
  - apply Hv.
  - intros c' Hc'. pose proof (vi_chain _ _ _ _ _ _ Hv c' Hc') as Hx. unfold has_chain in *. done.
  - intros c' Hc'. cbn. apply geti_is_Some. rewrite D10. pose proof (vi_buf _ _ _ _ _ _ Hv c' Hc') as [x Hx].
    by eapply geti_Some_lt.
  - cbn. apply Hv.
  - intros c' Hc'. cbn. pose proof (vi_info _ _ _ _ _ _ Hv c' Hc') as Hi.
    destruct (decide (c_head c' = h)) as [E|E].
    + assert (c' = c) as -> by (apply (head_inj Hv); congruence). rewrite E, geti_seti_eq.
      * rewrite decide_True by (apply Hin; by left). done.
      * rewrite E in Hi. by eapply geti_Some_lt.
    + rewrite geti_seti_ne by done. rewrite Hi. f_equal. f_equal. apply decide_ext. rewrite Hin. tauto.
  - cbn. apply Hv.
  - cbn. rewrite (vi_heads _ _ _ _ _ _ Hv). apply Permutation_app_head, Permutation_app_head.
    etrans; [apply Permutation_app_tail, (delete_Permutation _ k h Ek)|]. simpl.
    rewrite <- (app_assoc C). simpl. rewrite <- (Permutation_middle C Dn h). apply Permutation_middle.
  - cbn. apply Hv.
  - cbn. apply Hv.
  - pose proof (vi_used _ _ _ _ _ _ Hv) as Hr. cbn.
    apply (ring_push (used_at s) _ _ _ _ (dev_idx s)).
    + done.
    + lia.
    + rewrite (vi_used_idx _ _ _ _ _ _ Hv). rewrite <- (Z.add_0_r (u16 _)), u16_mod_NUM. f_equal. lia.
    + unfold used_at. cbn. rewrite geti_seti_eq; [done|]. rewrite L6. unfold NUM. zdiv.
    + intros j Hj. unfold used_at. cbn. by rewrite geti_seti_ne.
  - cbn. rewrite (vi_used_idx _ _ _ _ _ _ Hv). apply u16_succ_len.
Qed.

Lemma vinv_serve B s s' k R Q C Dn :
  vinv B s R Q C Dn -> dev_serve k s = Some s' ->
  exists C', vinv B s' R Q C' Dn /\ C `prefix_of` C' /\ forall b, view b s s'.
Proof.
  intros Hv E. destruct (dev_taken s !! k) as [h|] eqn:Ek; [|unfold dev_serve in E; by rewrite Ek in E].
  destruct (dev_serve_eq _ _ _ _ _ _ _ _ Hv Ek) as (c & bf & Hc & Eh & Ebf & Es).
  assert (Es' : s' = served k h BSIZE (Info (c_buf c) 255) (moved c bf s)) by congruence. clear E Es.
  pose proof (vinv_served _ _ _ _ _ _ _ _ _ _ Hv Ek Hc Eh Ebf) as Hv'. rewrite <- Es' in Hv'.
  exists (C ++ [h]). split; [done|]. split; [by eexists|]. intros b.
  assert (Hg : grows s s').
  { subst s'. unfold served, moved, grows. destruct (c_write c); cbn; [|done]. split; [done|by eexists]. }
  assert (Hl : length (vbufs s') = length (vbufs s)).
  { subst s'. unfold served, moved. destruct (c_write c); cbn; by rewrite ?length_seti. }
  destruct (decide (c_buf c = b)) as [Hb|Hb].
  - assert (Hnf : ~ finished s c).
    { unfold finished. rewrite (vi_info _ _ _ _ _ _ Hv c Hc), decide_False; [congruence|].
      pose proof (vinv_lists_nodup Hv) as Hn. rewrite !NoDup_app in Hn. rewrite Eh.
      destruct Hn as (_ & _ & _ & _ & _ & Hn & _). apply Hn. by eapply list_elem_of_lookup_2. }
    split; [done|done| |].
    + intros c' Hb' Hch. assert (c' = c) as ->.
      { apply (buf_inj Hv); [exact (has_chain_in Hv _ Hch)|done|congruence]. }
      split; [by apply (vi_chain _ _ _ _ _ _ Hv')|]. split; [by intros Hx; destruct Hnf|]. intros _. right. split.
      * unfold finished. rewrite (vi_info _ _ _ _ _ _ Hv' c Hc), decide_True; [done|]. rewrite Eh, !elem_of_app. set_solver.
      * subst s' b. unfold transferred, served, moved. destruct (c_write c).
        -- exists [(c_sector c / (BSIZE / 512), b_data bf)], [], bf. cbn. done.
        -- exists [], [], bf. cbn. rewrite app_nil_r. split; [done|]. split; [done|]. split; [done|].
           apply geti_seti_eq. by eapply geti_Some_lt.
    + intros Hi. destruct (Hi c Hb). by apply (vi_chain _ _ _ _ _ _ Hv).
  - eapply view_frame; try done.
    + subst s'. unfold same_buf, served. cbn. by apply delete_bufs.
    + intros c' Hc' Hin. subst s'. assert (Hne : h <> c_head c').
      { intros E'. destruct Hb. rewrite <- Hc'. f_equal. apply (head_inj Hv); congruence. }
      unfold served, moved. destruct (c_write c); exact (geti_seti_ne (info s) h (c_head c') _ Hne).
Qed.

(** Every step of the device. *)
Lemma dev_step_vinv B s s' R Q C Dn :
  vinv B s R Q C Dn -> dev_step s s' -> exists Q' C', vinv B s' R Q' C' Dn /\ C `prefix_of` C' /\ forall b, view b s s'.
Proof.
  intros Hv [E|k E].
  - destruct (vinv_fetch _ _ _ _ _ _ _ Hv E) as (Q' & H1 & H2). by exists Q', C.
  - destruct (vinv_serve _ _ _ _ _ _ _ _ Hv E) as (C' & H1 & H2). by exists Q, C'.
Qed.

Lemma dev_step_lock s s' : dev_step s s' -> vheld s' = vheld s.
Proof.
  intros [E|k E].
  - unfold dev_fetch in E. destruct (_ =? _); [done|]. destruct (geti _ _); [|done]. by injection E as <-.
  - unfold dev_serve, chain_of, transfer in E.
    repeat match goal with
    | E : (match ?x with _ => _ end) = Some _ |- _ => destruct x eqn:?; try done
    | E : (?m ≫= _) = Some _ |- _ => apply bind_Some in E as (? & ? & E)
    end; simplify_eq; done.
Qed.
