(* ===== verification/VirtioInv.v ===== *)
(** The driver's operations on the descriptors and rings: what each does to the
    state; and its transitions, which keep the invariant of the queue: a request is
    built, published, finished by the interrupt handler, and released. *)

From stdpp Require Import relations.
From S2P Require Import Prelude Mem Riscv Locks Kalloc Vm Proc ProcFacts Kernel KernelFacts Bio Rely Virtio VirtioFacts.

Lemma vget_ok {A} (tab : vstate -> list A) what i x s : geti (tab s) i = Some x -> vget tab what i s = Done x s.
Proof. intros E. unfold vget, bind, gets. cbn [bindp]. by rewrite E. Qed.

(** One step of a run of the driver. *)
Ltac vstep := erewrite bind_done by (first [apply vget_ok; eassumption | reflexivity]).

Lemma set_free_ok i v s : is_Some (geti (vfree s) i) -> set_free i v s = Done tt (s {{ vfree ::= seti i v }}).
Proof. intros [x E]. unfold set_free. by vstep. Qed.

Lemma set_desc_ok i f d s : geti (desc s) i = Some d -> set_desc i f s = Done tt (s {{ desc ::= seti i (f d) }}).
Proof. intros E. unfold set_desc. by vstep. Qed.

Lemma set_info_ok i f d s : geti (info s) i = Some d -> set_info i f s = Done tt (s {{ info ::= seti i (f d) }}).
Proof. intros E. unfold set_info. by vstep. Qed.

Lemma set_ops_ok i r s : is_Some (geti (ops s) i) -> set_ops i r s = Done tt (s {{ ops ::= seti i r }}).
Proof. intros [x E]. unfold set_ops. by vstep. Qed.

Lemma set_bdisk_ok b v s : is_Some (geti (b_disk s) b) -> set_bdisk b v s = Done tt (s {{ b_disk ::= seti b v }}).
Proof. intros [x E]. unfold set_bdisk. by vstep. Qed.

Lemma set_avail_ok i v s : is_Some (geti (avail_ring s) i) -> set_avail i v s = Done tt (s {{ avail_ring ::= seti i v }}).
Proof. intros [x E]. unfold set_avail. by vstep. Qed.

Definition blank_desc : virtq_desc := Desc VNull 0 0 0.

Definition freed (i : Z) (s : vstate) : vstate :=
  s {{ desc ::= seti i blank_desc; vfree ::= seti i 1; wakes ::= fun l => l ++ [free_chan] }}.

Lemma geti_8 {A} (l : list A) i : length l = 8%nat -> 0 <= i < NUM -> is_Some (geti l i).
Proof. intros Hl Hi. apply geti_is_Some. rewrite Hl. unfold NUM in Hi. lia. Qed.

Lemma free_desc_eq i s :
  geti (vfree s) i = Some 0 -> length (vfree s) = 8%nat -> length (desc s) = 8%nat ->
  free_desc i s = Done tt (freed i s).
Proof.
  intros E Hf Hd. assert (Hi : 0 <= i < NUM) by (apply geti_Some_lt in E; rewrite Hf in E; unfold NUM; lia).
  destruct (geti_8 (desc s) i Hd Hi) as [d Ed].
  unfold free_desc. replace (i >=? NUM) with false by (symmetry; rewrite Z.geb_leb; apply Z.leb_gt; lia).
  vstep. cbn [negb Z.eqb]. erewrite bind_done by by apply (set_desc_ok i _ d).
  erewrite bind_done by (apply set_free_ok; by eexists). done.
Qed.

Definition bits (l : list Z) : Prop := length l = 8%nat /\ forall i, 0 <= i < NUM -> geti l i = Some 0 \/ geti l i = Some 1.

Lemma bits_seti l i v : bits l -> v = 0 \/ v = 1 -> bits (seti i v l).
Proof.
  intros [Hl Hb] Hv. split; [by rewrite length_seti|]. intros j Hj. destruct (decide (i = j)) as [-> |Hne].
  - rewrite geti_seti_eq; [naive_solver|]. rewrite Hl. unfold NUM in Hj. lia.
  - rewrite geti_seti_ne by done. by apply Hb.
Qed.

Lemma seti_comm {A} i j (x y : A) l : i <> j -> seti i x (seti j y l) = seti j y (seti i x l).
Proof.
  intros Hne. unfold seti. destruct (Z.leb_spec 0 i), (Z.leb_spec 0 j); try done.
  apply list_insert_insert_ne. lia.
Qed.

(** A free descriptor, or -1. *)
Lemma alloc_desc_runs s :
  bits (vfree s) ->
  runs alloc_desc s (fun i s' => (i = -1 /\ s' = s /\ forall j, 0 <= j < NUM -> geti (vfree s) j = Some 0) \/
    (0 <= i < NUM /\ geti (vfree s) i = Some 1 /\ s' = s {{ vfree ::= seti i 0 }})).
Proof.
  intros [Hl Hb]. unfold alloc_desc. apply (wp_for_to _ _ _ _ (fun i s' => s' = s /\ forall j, 0 <= j < i -> geti (vfree s) j = Some 0));
    [done|split; [done|lia]| |].
  - intros i ? Hi [-> Hz]. destruct (Hb i Hi) as [E|E]; unfold bind at 1; rewrite (vget_ok _ _ _ _ _ E); cbn [bindp].
    + split; [done|]. intros j Hj. destruct (decide (j = i)) as [-> |]; [done|]. apply Hz. lia.
    + change (negb (1 =? 0)) with true. cbv iota. erewrite bind_done by (apply set_free_ok; by eexists).
      right. done.
  - intros ? [-> Hz]. left. done.
Qed.

(** Descriptors were taken and given back. *)
Definition shuffled (s s' : vstate) : Prop :=
  exists l ds w, s' = s {{ vfree := l; desc := ds; wakes := w }} /\
    length l = 8%nat /\ length ds = 8%nat /\
    (forall i, 0 <= i < NUM -> geti l i = geti (vfree s) i) /\
    (forall i, geti (vfree s) i = Some 0 -> geti ds i = geti (desc s) i).

Lemma shuffled_refl s : bits (vfree s) -> length (desc s) = 8%nat -> shuffled s s.
Proof.
  intros [Hl _] Hd. exists (vfree s), (desc s), (wakes s). split; [by destruct s|]. done.
Qed.

(** Giving one back. *)
Lemma shuffled_freed s s' i :
  shuffled (s {{ vfree ::= seti i 0 }}) s' -> geti (vfree s) i = Some 1 -> length (vfree s) = 8%nat ->
  shuffled s (freed i s').
Proof.
  intros (l & ds & w & -> & Hl & Hd & Hf & Hds) E H8.
  exists (seti i 1 l), (seti i blank_desc ds), (w ++ [free_chan]). split; [done|].
  rewrite !length_seti. split; [done|]. split; [done|].
  pose proof (geti_Some_lt _ _ _ E) as Hi. rewrite H8 in Hi. split.
  - intros j Hj. destruct (decide (i = j)) as [-> |Hne].
    + rewrite geti_seti_eq by lia. done.
    + rewrite geti_seti_ne by done. rewrite Hf by done. apply geti_seti_ne. done.
  - intros j Ej. destruct (decide (i = j)) as [-> |Hne]; [congruence|].
    rewrite geti_seti_ne by done. apply Hds. cbn. by rewrite geti_seti_ne.
Qed.

(** One iteration of [for (i = 0; i < n; i++)]. *)
Lemma for_to_next {A} n (body : Z -> M vstate (option A)) (fin : M vstate A) i s s' m :
  i < n -> body i s = Done None s' ->
  loop (S m) (fun i => if i <? n then r <- body i;; match r with Some a => break a | None => continue (i + 1) end
                       else a <- fin;; break a) i s
  = loop m (fun i => if i <? n then r <- body i;; match r with Some a => break a | None => continue (i + 1) end
                     else a <- fin;; break a) (i + 1) s'.
Proof.
  intros Hj E. apply loop_continue. rewrite (proj2 (Z.ltb_lt i n)) by done. unfold bind. by rewrite E.
Qed.

Lemma free_at_ok idx j d s s' : geti idx j = Some d -> free_desc d s = Done tt s' -> free_at idx j s = Done None s'.
Proof. intros E1 E2. unfold free_at. rewrite E1. unfold bind. by rewrite E2. Qed.

Lemma free_idx_1 i s s1 : free_desc i s = Done tt s1 -> free_idx [i] 1 s = Done tt s1.
Proof.
  intros E. unfold free_idx, for_to. change (Z.to_nat 1) with 1%nat. rewrite (for_to_next 1 (free_at [i]) (ret tt) 0 s s1); [done|done|by eapply free_at_ok].
Qed.

Lemma free_idx_2 i j s s1 s2 :
  free_desc i s = Done tt s1 -> free_desc j s1 = Done tt s2 -> free_idx [i; j] 2 s = Done tt s2.
Proof.
  intros E1 E2. unfold free_idx, for_to. change (Z.to_nat 2) with 2%nat.
  rewrite (for_to_next 2 (free_at [i; j]) (ret tt) 0 s s1); [|done|by eapply free_at_ok].
  rewrite (for_to_next 2 (free_at [i; j]) (ret tt) (0 + 1) s1 s2); [done|done|by eapply free_at_ok].
Qed.

Lemma shuffled_bits s s' : shuffled s s' -> bits (vfree s) -> bits (vfree s') /\ length (desc s') = 8%nat.
Proof.
  intros (l & ds & w & -> & Hl & Hd & Hf & _) [_ Hb]. split; [|done]. split; [done|].
  intros i Hi. cbn. rewrite Hf by done. by apply Hb.
Qed.

(** Three free descriptors, or none and nothing lost. *)
Lemma alloc3_desc_runs s :
  bits (vfree s) -> length (desc s) = 8%nat ->
  runs alloc3_desc s (fun r s' =>
    match r with
    | None => shuffled s s' /\
        exists x y, forall i, 0 <= i < NUM -> geti (vfree s) i = Some 1 -> i = x \/ i = y
    | Some idx => exists i j k, idx = [i; j; k] /\ i <> j /\ i <> k /\ j <> k /\
        geti (vfree s) i = Some 1 /\ geti (vfree s) j = Some 1 /\ geti (vfree s) k = Some 1 /\
        s' = s {{ vfree ::= fun l => seti k 0 (seti j 0 (seti i 0 l)) }}
    end).
Proof.
  intros Hb Hd. assert (Hl : length (vfree s) = 8%nat) by apply Hb.
  assert (Hr : forall x, 0 <= x < NUM -> 0 <= x < Z.of_nat (length (vfree s))) by (intros; rewrite Hl; unfold NUM in *; lia).
  unfold alloc3_desc. cbn [loop]. apply wp_bind. change (0 <? 3) with true. cbv iota.
  apply (wp_bind_mono _ _ _ _ _ _ (alloc_desc_runs s Hb)).
  intros i s1 [(-> & -> & Hz)|(Hi & Ei & ->)].
  { change (-1 <? 0) with true. cbv iota. unfold free_idx, for_to. cbn. split; [by apply shuffled_refl|].
    exists 0, 0. intros j Hj E. by rewrite Hz in E. }
  replace (i <? 0) with false by (symmetry; apply Z.ltb_ge; lia). cbn [wp continue ret].
  set (s1 := s {{ vfree ::= seti i 0 }}).
  assert (Hb1 : bits (vfree s1)) by (apply bits_seti; auto).
  apply wp_bind. change (0 + 1 <? 3) with true. cbv iota.
  apply (wp_bind_mono _ _ _ _ _ _ (alloc_desc_runs s1 Hb1)).
  intros j s2 [(-> & -> & Hz)|(Hj & Ej & ->)].
  { change (-1 <? 0) with true. cbv iota. unfold bind. change (0 + 1) with 1. cbn [app].
    erewrite free_idx_1; [|apply free_desc_eq; [|by apply Hb1|done]].
    - cbn [wp bindp break ret]. split; [apply shuffled_freed; [|done|done]; by apply shuffled_refl|].
      exists i, i. intros j Hj E. left. destruct (decide (j = i)) as [|Hne]; [done|].
      specialize (Hz j Hj). unfold s1 in Hz. cbn in Hz.
      rewrite geti_seti_ne in Hz by done. change (geti (vfree s) j = Some 0) in Hz. congruence.
    - cbn. by apply geti_seti_eq, Hr. }
  replace (j <? 0) with false by (symmetry; apply Z.ltb_ge; lia). cbn [wp continue ret].
  set (s2 := s1 {{ vfree ::= seti j 0 }}).
  assert (Hij : i <> j).
  { intros <-. cbn in Ej. rewrite geti_seti_eq in Ej; [done|by apply Hr]. }
  assert (Ej' : geti (vfree s) j = Some 1) by (cbn in Ej; by rewrite geti_seti_ne in Ej).
  assert (Hb2 : bits (vfree s2)) by (apply bits_seti; auto).
  apply wp_bind. change (0 + 1 + 1 <? 3) with true. cbv iota.
  apply (wp_bind_mono _ _ _ _ _ _ (alloc_desc_runs s2 Hb2)).
  intros k s3 [(-> & -> & Hz)|(Hk & Ek & ->)].
  { change (-1 <? 0) with true. cbv iota. unfold bind. change (0 + 1 + 1) with 2. cbn [app].
    assert (Hi0 : geti (vfree s2) i = Some 0).
    { cbn. rewrite geti_seti_ne by done. by apply geti_seti_eq, Hr. }
    assert (Hj0 : geti (vfree (freed i s2)) j = Some 0).
    { cbn. rewrite geti_seti_ne by done. apply geti_seti_eq. rewrite length_seti. by apply Hr. }
    erewrite free_idx_2; [|apply free_desc_eq; [exact Hi0|apply Hb2|done]|apply free_desc_eq; [exact Hj0| |]].
    - cbn [wp bindp break ret]. split.
      2:{ exists i, j. intros x Hx E. destruct (decide (x = i)) as [|N1]; [by left|].
          destruct (decide (x = j)) as [|N2]; [by right|]. specialize (Hz x Hx). unfold s2, s1 in Hz. cbn in Hz.
          rewrite !geti_seti_ne in Hz by done. change (geti (vfree s) x = Some 0) in Hz. congruence. }
      apply shuffled_freed; [|done|done]. apply shuffled_freed.
      + exists (vfree s2), (desc s), (wakes s). split; [done|]. split; [apply Hb2|]. split; [done|]. split; [|done].
        intros x Hx. cbn. by rewrite (seti_comm i j).
      + cbn. by rewrite geti_seti_ne.
      + cbn. by rewrite length_seti.
    - cbn. rewrite length_seti. apply Hb2.
    - cbn. by rewrite length_seti. }
  replace (k <? 0) with false by (symmetry; apply Z.ltb_ge; lia). cbn [wp continue ret].
  assert (Hik : i <> k).
  { intros <-. cbn in Ek. rewrite geti_seti_ne, geti_seti_eq in Ek; [done|by apply Hr|done]. }
  assert (Hjk : j <> k).
  { intros <-. cbn in Ek. rewrite geti_seti_eq in Ek; [done|]. rewrite length_seti. by apply Hr. }
  assert (Ek' : geti (vfree s) k = Some 1) by (cbn in Ek; by rewrite !geti_seti_ne in Ek).
  apply wp_bind. change (0 + 1 + 1 + 1 <? 3) with false. cbn. exists i, j, k. done.
Qed.

(** ** A request is built *)

Definition built (c : chain) (s : vstate) : vstate :=
  s {{ vfree ::= fun l => seti (c_tail c) 0 (seti (c_mid c) 0 (seti (c_head c) 0 l));
       ops ::= seti (c_head c) (BlkReq (if c_write c then VIRTIO_BLK_T_OUT else VIRTIO_BLK_T_IN) 0 (c_sector c));
       desc ::= fun d =>
         seti (c_tail c) (Desc (VStatus (c_head c)) 1 VRING_DESC_F_WRITE 0)
           (seti (c_mid c) (Desc (VData (c_buf c)) BSIZE
                             (Z.lor (if c_write c then 0 else VRING_DESC_F_WRITE) VRING_DESC_F_NEXT) (c_tail c))
             (seti (c_head c) (Desc (VOps (c_head c)) 16 VRING_DESC_F_NEXT (c_mid c)) d));
       info ::= seti (c_head c) (Info (c_buf c) 255);
       b_disk ::= seti (c_buf c) 1;
       avail_ring ::= seti (avail_idx s mod NUM) (c_head c) }}.

Lemma seti_seti {A} i (x y : A) l : seti i x (seti i y l) = seti i x l.
Proof. unfold seti. destruct (0 <=? i); [apply list_insert_insert_eq|done]. Qed.

Lemma mod_NUM_range x : 0 <= x mod NUM < NUM.
Proof. apply Z.mod_pos_bound. done. Qed.

Lemma u16_NUM i : 0 <= i < NUM -> u16 i = i.
Proof. intros Hi. apply u16_small. unfold NUM in Hi. lia. Qed.

Definition fresh (c : chain) (s : vstate) : Prop :=
  NoDup (c_ids c) /\ (forall i, i ∈ c_ids c -> 0 <= i < NUM /\ geti (vfree s) i = Some 1).

Lemma fresh_ranges c s : fresh c s -> 0 <= c_head c < NUM /\ 0 <= c_mid c < NUM /\ 0 <= c_tail c < NUM /\
  c_head c <> c_mid c /\ c_head c <> c_tail c /\ c_mid c <> c_tail c.
Proof.
  intros [Hn Hf]. unfold c_ids in *. rewrite !NoDup_cons, !elem_of_cons, elem_of_nil in Hn.
  split; [apply Hf; set_solver|]. split; [apply Hf; set_solver|]. split; [apply Hf; set_solver|]. tauto.
Qed.

Lemma format_request_eq B s R Q C Dn c :
  vinv B s R Q C Dn -> fresh c s -> is_Some (geti (vbufs s) (c_buf c)) ->
  format_request (c_buf c) (c_write c) (c_sector c) (c_head c) (c_mid c) (c_tail c)
    (s {{ vfree ::= fun l => seti (c_tail c) 0 (seti (c_mid c) 0 (seti (c_head c) 0 l)) }})
  = Done tt (built c s).
Proof.
  intros Hv Hf [bf Eb]. destruct (fresh_ranges c s Hf) as (Rh & Rm & Rt & _ & _ & _).
  destruct (vi_len _ _ _ _ _ _ Hv) as (L1 & L2 & L3 & L4 & L5 & L6 & L7).
  assert (Eo : is_Some (geti (b_disk s) (c_buf c))) by (apply geti_is_Some; rewrite L7; by eapply geti_Some_lt).
  assert (Hh : 0 <= c_head c < Z.of_nat (length (info s))) by (rewrite L3; unfold NUM in Rh; lia).
  unfold format_request. rewrite !u16_NUM by done.
  destruct (geti_8 (info s) (c_head c) L3 Rh) as [n En].
  erewrite bind_done by (apply set_ops_ok; by apply geti_8).
  destruct (geti_8 (desc s) (c_head c) L1 Rh) as [d0 E0].
  erewrite bind_done by (eapply set_desc_ok; exact E0).
  destruct (geti_8 (seti (c_head c) (Desc (VOps (c_head c)) 16 VRING_DESC_F_NEXT (c_mid c)) (desc s)) (c_mid c))
    as [d1 E1]; [by rewrite length_seti|done|].
  erewrite bind_done by (eapply set_desc_ok; exact E1).
  erewrite bind_done by (eapply set_info_ok; exact En).
  match goal with |- bind (set_desc _ _) _ ?s2 = _ => destruct (geti_8 (desc s2) (c_tail c)) as [d2 E2] end;
    [cbn; by rewrite !length_seti|done|].
  erewrite bind_done by (eapply set_desc_ok; exact E2).
  erewrite bind_done by (apply set_bdisk_ok; exact Eo).
  erewrite bind_done.
  2:{ eapply set_info_ok. by apply geti_seti_eq. }
  erewrite bind_done by done.
  erewrite set_avail_ok by (cbn; apply geti_8; [done|apply mod_NUM_range]).
  unfold built. f_equal. cbn. by rewrite seti_seti.
Qed.

Lemma fresh_out B s R Q C Dn c i :
  vinv B s R Q C Dn -> fresh c s -> i ∈ c_ids c -> ~ in_ids R i.
Proof.
  intros Hv [_ Hf] Hi Hin. destruct (Hf i Hi) as [Hr E]. pose proof (vi_free _ _ _ _ _ _ Hv i Hr) as E'.
  rewrite decide_True in E' by done. congruence.
Qed.

(** The members of a chain in flight are other than those of a fresh chain. *)
Lemma fresh_apart B s R Q C Dn c c' i j :
  vinv B s R Q C Dn -> fresh c s -> c' ∈ R -> i ∈ c_ids c -> j ∈ c_ids c' -> i <> j.
Proof.
  intros Hv Hf Hc' Hi Hj ->. apply (fresh_out _ _ _ _ _ _ _ _ Hv Hf Hi). apply ids_elem. eauto.
Qed.

Ltac in_c := unfold c_ids; rewrite ?elem_of_cons, ?elem_of_nil; tauto.

(** An entry beyond the end of the ring's contents. *)
Lemma ring_keep f f' from q i :
  ring f from q -> (length q < 8)%nat -> i mod NUM = (from + Z.of_nat (length q)) mod NUM ->
  (forall j, j <> i mod NUM -> f' j = f j) -> ring f' from q.
Proof.
  intros Hr Hl Hi Hj k h E. rewrite Hj; [by apply Hr|]. rewrite Hi. apply lookup_lt_Some in E. unfold NUM. zdiv.
Qed.

Section Built.
Context {s : vstate} {R : list chain} {Q C Dn : list Z} (c : chain).
Hypothesis Hv : vinv [] s R Q C Dn.
Hypothesis Hf : fresh c s.
Hypothesis Hb : is_Some (geti (vbufs s) (c_buf c)).
Hypothesis Hidle : c_buf c ∉ c_buf <$> R.

Let Hr := fresh_ranges c s Hf.

Lemma built_chain c' : c' ∈ c :: R -> has_chain (built c s) c'.
Proof using All.
  destruct Hr as (Rh & Rm & Rt & N1 & N2 & N3).
  destruct (vi_len _ _ _ _ _ _ Hv) as (L1 & L2 & L3 & L4 & L5 & L6 & L7).
  assert (Hl : forall x, 0 <= x < NUM -> 0 <= x < 8) by (unfold NUM; lia).
  intros [-> |Hc']%elem_of_cons.
  - unfold has_chain, built. vcbn s. repeat split.
    + rewrite !geti_seti_ne, geti_seti_eq by done || (rewrite L2; by apply Hl). done.
    + rewrite !geti_seti_ne, geti_seti_eq by done || (rewrite L1; by apply Hl). done.
    + rewrite geti_seti_ne, geti_seti_eq by done || (rewrite length_seti, L1; by apply Hl). done.
    + rewrite geti_seti_eq by (rewrite !length_seti, L1; by apply Hl). done.
    + rewrite geti_seti_eq by (rewrite L4; by apply Hl). done.
  - destruct (vi_chain _ _ _ _ _ _ Hv c' Hc') as (H1 & H2 & H3 & H4 & H5).
    assert (Ha : forall i j, i ∈ c_ids c -> j ∈ c_ids c' -> i <> j).
    { intros i j Hi Hj. by apply (fresh_apart _ _ _ _ _ _ _ _ _ _ Hv Hf Hc'). }
    unfold has_chain, built. vcbn s. rewrite !geti_seti_ne by (apply Ha; in_c). done.
Qed.

Lemma built_vinv : vinv [c_head c] (built c s) (c :: R) Q C Dn.
Proof using All.
  destruct Hr as (Rh & Rm & Rt & N1 & N2 & N3).
  destruct (vi_len _ _ _ _ _ _ Hv) as (L1 & L2 & L3 & L4 & L5 & L6 & L7).
  assert (Hl : forall x, 0 <= x < NUM -> 0 <= x < 8) by (unfold NUM; lia).
  assert (Hout : c_head c ∉ C ++ Dn).
  { intros Hin. destruct (vinv_head_in Hv (c_head c)) as (c' & Hc' & E).
    - rewrite !elem_of_app in *. tauto.
    - apply (fresh_apart _ _ _ _ _ _ _ _ (c_head c) (c_head c') Hv Hf Hc'); [in_c|in_c|done]. }
  assert (Hob : 0 <= c_buf c < Z.of_nat (length (b_disk s))) by (rewrite L7; destruct Hb; by eapply geti_Some_lt).
  pose proof (vinv_lengths Hv) as Hlen.
  split.
  - unfold built. vcbn s. rewrite !length_seti. done.
  - apply (vi_u16 _ _ _ _ _ _ Hv).
  - change ((c :: R) ≫= c_ids) with (c_ids c ++ R ≫= c_ids). apply NoDup_app. split; [apply Hf|].
    split; [|apply (vi_ids _ _ _ _ _ _ Hv)]. intros i Hi. by apply (fresh_out _ _ _ _ _ _ _ _ Hv Hf Hi).
  - vcbn s. constructor; [done|apply (vi_bufs _ _ _ _ _ _ Hv)].
  - apply built_chain.
  - intros c' [-> |Hc']%elem_of_cons; [done|by apply (vi_buf _ _ _ _ _ _ Hv)].
  - intros i Hi. unfold built. vcbn s. pose proof (vi_free _ _ _ _ _ _ Hv i Hi) as E.
    destruct (decide (i ∈ c_ids c)) as [Hin|Hni].
    + rewrite decide_True by (apply in_ids_cons; by left).
      unfold c_ids in Hin. rewrite !elem_of_cons, elem_of_nil in Hin. destruct Hin as [-> |[-> |[-> |[]]]].
      * rewrite !geti_seti_ne, geti_seti_eq by done || (rewrite L2; by apply Hl). done.
      * rewrite !geti_seti_ne, geti_seti_eq by done || (rewrite ?length_seti, L2; by apply Hl). done.
      * rewrite geti_seti_eq by (rewrite !length_seti, L2; by apply Hl). done.
    + unfold c_ids in Hni. rewrite !not_elem_of_cons in Hni. destruct Hni as (M1 & M2 & M3 & _).
      rewrite !geti_seti_ne by done. rewrite E. f_equal. apply decide_ext. rewrite in_ids_cons. unfold c_ids.
      rewrite !elem_of_cons, elem_of_nil. tauto.
  - intros c' [-> |Hc']%elem_of_cons; unfold built; vcbn s.
    + rewrite geti_seti_eq by (rewrite L3; by apply Hl). by rewrite decide_False.
    + rewrite geti_seti_ne; [by apply (vi_info _ _ _ _ _ _ Hv)|].
      apply (fresh_apart _ _ _ _ _ _ _ _ _ _ Hv Hf Hc'); in_c.
  - intros c' [-> |Hc']%elem_of_cons; unfold built; vcbn s.
    + rewrite geti_seti_eq by done. rewrite decide_False; [done|]. rewrite elem_of_app in Hout. tauto.
    + rewrite geti_seti_ne; [by apply (vi_own _ _ _ _ _ _ Hv)|].
      intros E. apply Hidle. rewrite E. apply list_elem_of_fmap. eauto.
  - vcbn s. by rewrite (vi_heads _ _ _ _ _ _ Hv).
  - unfold built. vcbn s. apply (ring_keep (geti (avail_ring s)) _ _ _ (avail_idx s)).
    + apply (vi_avail _ _ _ _ _ _ Hv).
    + simpl in Hlen. lia.
    + rewrite (vi_avail_idx _ _ _ _ _ _ Hv), <- (Z.add_0_r (u16 _)), u16_mod_NUM. f_equal. lia.
    + intros j Hj. by rewrite geti_seti_ne.
  - apply (vi_avail_idx _ _ _ _ _ _ Hv).
  - apply (vi_used _ _ _ _ _ _ Hv).
  - apply (vi_used_idx _ _ _ _ _ _ Hv).
Qed.

Lemma built_avail : geti (avail_ring (built c s)) (avail_idx (built c s) mod NUM) = Some (c_head c).
Proof using Hv.
  destruct (vi_len _ _ _ _ _ _ Hv) as (L1 & L2 & L3 & L4 & L5 & L6 & L7).
  unfold built. vcbn s. apply geti_seti_eq. pose proof (mod_NUM_range (avail_idx s)) as H.
  change (0 <= avail_idx s mod NUM < Z.of_nat (length (avail_ring s))). rewrite L5. unfold NUM in *. lia.
Qed.

Lemma built_view b : b <> c_buf c -> view b s (built c s).
Proof using All.
  intros Hne. eapply (view_frame _ _ _ _ _ _ _ _ _ _ _ _ _ Hv built_vinv); try done.
  - intros c' E. rewrite elem_of_cons. split; [tauto|]. intros [-> |]; congruence.
  - intros c' _ Hc'. unfold built. vcbn s. apply geti_seti_ne.
    apply (fresh_apart _ _ _ _ _ _ _ _ _ _ Hv Hf Hc'); in_c.
Qed.

Lemma built_unfinished : ~ finished (built c s) c.
Proof using All.
  unfold finished, built. vcbn s. rewrite geti_seti_eq; [congruence|].
  destruct (vi_len _ _ _ _ _ _ Hv) as (_ & _ & L3 & _). rewrite L3. destruct Hr as (Rh & _). unfold NUM in Rh. lia.
Qed.

End Built.

(** The index is incremented. *)
Definition published (s : vstate) : vstate := s {{ avail_idx ::= fun a => u16 (a + 1) }}.

Lemma published_vinv s R Q C Dn h :
  vinv [h] s R Q C Dn -> geti (avail_ring s) (avail_idx s mod NUM) = Some h ->
  vinv [] (published s) R (Q ++ [h]) C Dn.
Proof.
  intros Hv E. pose proof (vinv_lengths Hv) as Hlen. simpl in Hlen. destruct Hv. split; try done.
  - rewrite vi_heads. simpl. rewrite <- app_assoc. apply Permutation_middle.
  - apply (ring_push (geti (avail_ring s)) _ _ _ _ (avail_idx s)); [done|lia| |done|done].
    rewrite vi_avail_idx, <- (Z.add_0_r (u16 _)), u16_mod_NUM. f_equal. change (dev_seen (published s)) with (dev_seen s). lia.
  - change (u16 (avail_idx s + 1) = u16 (dev_seen s + Z.of_nat (length (Q ++ [h])))).
    rewrite vi_avail_idx. apply u16_succ_len.
Qed.

Lemma published_view s R Q C Dn h b :
  vinv [h] s R Q C Dn -> geti (avail_ring s) (avail_idx s mod NUM) = Some h -> view b s (published s).
Proof.
  intros Hv E. by eapply (view_frame _ _ _ _ _ _ _ _ _ _ _ _ _ Hv (published_vinv _ _ _ _ _ _ Hv E)).
Qed.

(** The device does not write the avail ring. *)
Lemma dev_step_avail s s' : dev_step s s' -> avail_ring s' = avail_ring s /\ avail_idx s' = avail_idx s.
Proof.
  intros [E|k E].
  - unfold dev_fetch in E. destruct (_ =? _); [done|]. destruct (geti _ _); [|done]. by injection E as <-.
  - unfold dev_serve, chain_of, transfer in E.
    repeat match goal with
    | E : (match ?x with _ => _ end) = Some _ |- _ => destruct x eqn:?; try done
    | E : (?m ≫= _) = Some _ |- _ => apply bind_Some in E as (? & ? & E)
    end; simplify_eq; done.
Qed.

(** Any number of steps of the device. *)
Lemma dev_steps_vinv B s s' R Q C Dn :
  rtc dev_step s s' -> vinv B s R Q C Dn ->
  exists Q' C', vinv B s' R Q' C' Dn /\ C `prefix_of` C' /\ (forall b, view b s s') /\
    vheld s' = vheld s /\ avail_ring s' = avail_ring s /\ avail_idx s' = avail_idx s.
Proof.
  intros Hr. revert Q C. induction Hr as [s|s s1 s' H1 Hr IH]; intros Q C Hv.
  { exists Q, C. split; [done|]. split; [done|]. split; [|done]. intros b. apply view_refl. }
  destruct (dev_step_vinv _ _ _ _ _ _ _ Hv H1) as (Q1 & C1 & Hv1 & Hp1 & Hw1).
  destruct (IH _ _ Hv1) as (Q2 & C2 & Hv2 & Hp2 & Hw2 & E1 & E2 & E3).
  pose proof (dev_step_lock _ _ H1) as F1. destruct (dev_step_avail _ _ H1) as [F2 F3].
  exists Q2, C2. split; [done|]. split; [by etrans|]. split; [|split; [congruence|split; congruence]].
  intros b. by eapply view_trans.
Qed.

(** ** A request is released *)

Definition released (c : chain) (s : vstate) : vstate :=
  freed (c_tail c) (freed (c_mid c) (freed (c_head c) (s {{ info ::= seti (c_head c) (Info (-1) 0) }}))).

Section Released.
Context {s : vstate} {R R' : list chain} {Q C Dn Dn' : list Z} (c : chain).
Hypothesis Hv : vinv [] s R Q C Dn.
Hypothesis HR : R ≡ₚ c :: R'.
Hypothesis HD : Dn ≡ₚ c_head c :: Dn'.

Lemma released_in : c ∈ R.
Proof using HR. rewrite HR. left. Qed.

Lemma chain_ids_nodup : NoDup (c_ids c ++ R' ≫= c_ids).
Proof using All.
  change (NoDup ((c :: R') ≫= c_ids)). rewrite <- HR. apply (vi_ids _ _ _ _ _ _ Hv).
Qed.

Lemma chain_apart : c_head c <> c_mid c /\ c_head c <> c_tail c /\ c_mid c <> c_tail c.
Proof using All.
  pose proof chain_ids_nodup as Hn. apply NoDup_app in Hn as (Hn & _ & _).
  unfold c_ids in Hn. rewrite !NoDup_cons, !elem_of_cons, elem_of_nil in Hn. tauto.
Qed.

Lemma rest_apart c' i j : c' ∈ R' -> i ∈ c_ids c -> j ∈ c_ids c' -> i <> j.
Proof using All.
  intros Hc' Hi Hj ->. pose proof chain_ids_nodup as Hn. apply NoDup_app in Hn as (_ & Hn & _).
  apply (Hn j Hi). apply list_elem_of_bind. eauto.
Qed.

Lemma rest_in c' : c' ∈ R' -> c' ∈ R.
Proof using HR. intros Hc'. rewrite HR. by right. Qed.

Lemma id_range i : i ∈ c_ids c -> 0 <= i < NUM /\ geti (vfree s) i = Some 0.
Proof using Hv HR.
  intros Hi. assert (Hin : in_ids R i) by (apply ids_elem; exists c; split; [apply released_in|done]).
  assert (Hr : 0 <= i < NUM) by by apply (vinv_ids_range Hv).
  split; [done|]. rewrite (vi_free _ _ _ _ _ _ Hv i Hr). by rewrite decide_True.
Qed.

Lemma free_chain_eq :
  free_chain (c_head c) (s {{ info ::= seti (c_head c) (Info (-1) 0) }}) = Done tt (released c s).
Proof using All.
  destruct chain_apart as (N1 & N2 & N3).
  destruct (vi_chain _ _ _ _ _ _ Hv c released_in) as (_ & H2 & H3 & H4 & _).
  destruct (vi_len _ _ _ _ _ _ Hv) as (L1 & L2 & _).
  destruct (id_range (c_head c)) as [_ F1]; [in_c|]. destruct (id_range (c_mid c)) as [_ F2]; [in_c|].
  destruct (id_range (c_tail c)) as [_ F3]; [in_c|].
  unfold free_chain, released. change (Z.to_nat NUM) with 8%nat.
  set (s0 := s {{ info ::= seti (c_head c) (Info (-1) 0) }}).
  set (s1 := freed (c_head c) s0). set (s2 := freed (c_mid c) s1).
  assert (E1 : free_desc (c_head c) s0 = Done tt s1) by by apply free_desc_eq.
  assert (E2 : free_desc (c_mid c) s1 = Done tt s2).
  { apply free_desc_eq; unfold s1, s0, freed; vcbn s; rewrite ?length_seti; try done. by rewrite geti_seti_ne. }
  assert (E3 : free_desc (c_tail c) s2 = Done tt (freed (c_tail c) s2)).
  { apply free_desc_eq; unfold s2, s1, s0, freed; vcbn s; rewrite ?length_seti; try done. by rewrite !geti_seti_ne. }
  rewrite (loop_continue _ _ _ _ (c_mid c) s1), (loop_continue _ _ _ _ (c_tail c) s2), (loop_break _ _ _ _ tt (freed (c_tail c) s2)); [done| | |].
  - erewrite bind_done by (apply vget_ok; unfold s2, s1, s0, freed; vcbn s; rewrite !geti_seti_ne by done; exact H4).
    by rewrite (bind_done _ _ _ _ _ E3).
  - erewrite bind_done by (apply vget_ok; unfold s1, s0, freed; vcbn s; rewrite !geti_seti_ne by done; exact H3).
    rewrite (bind_done _ _ _ _ _ E2). by destruct (c_write c).
  - erewrite bind_done by (apply vget_ok; exact H2). by rewrite (bind_done _ _ _ _ _ E1).
Qed.

Lemma released_vinv : vinv [] (released c s) R' Q C Dn'.
Proof using All.
  destruct chain_apart as (N1 & N2 & N3). pose proof released_in as Hin.
  destruct (vi_len _ _ _ _ _ _ Hv) as (L1 & L2 & L3 & L4 & L5 & L6 & L7).
  assert (Hl : forall x, x ∈ c_ids c -> 0 <= x < 8) by (intros x Hx; destruct (id_range x Hx); unfold NUM in *; lia).
  split.
  - unfold released, freed. vcbn s. rewrite !length_seti. done.
  - apply (vi_u16 _ _ _ _ _ _ Hv).
  - pose proof chain_ids_nodup as Hn. by apply NoDup_app in Hn as (_ & _ & Hn).
  - pose proof (vi_bufs _ _ _ _ _ _ Hv) as Hn. rewrite HR in Hn. by apply NoDup_cons in Hn as [_ Hn].
  - intros c' Hc'. destruct (vi_chain _ _ _ _ _ _ Hv c' (rest_in c' Hc')) as (H1 & H2 & H3 & H4 & H5).
    pose proof (fun i j => rest_apart c' i j Hc') as Ha. unfold has_chain, released, freed. vcbn s.
    rewrite !geti_seti_ne by (apply Ha; in_c). done.
  - intros c' Hc'. apply (vi_buf _ _ _ _ _ _ Hv c' (rest_in c' Hc')).
  - intros i Hi. unfold released, freed. vcbn s. pose proof (vi_free _ _ _ _ _ _ Hv i Hi) as E.
    destruct (decide (i ∈ c_ids c)) as [Hic|Hic].
    + rewrite decide_False.
      2:{ intros (c' & Hc' & Hi')%ids_elem. by apply (rest_apart c' i i Hc'). }
      pose proof (Hl i Hic) as Hlen. unfold c_ids in Hic. rewrite !elem_of_cons, elem_of_nil in Hic.
      destruct Hic as [-> |[-> |[-> |[]]]].
      * rewrite !geti_seti_ne, geti_seti_eq by done || (by rewrite L2). done.
      * rewrite !geti_seti_ne, geti_seti_eq by done || (by rewrite length_seti, L2). done.
      * rewrite geti_seti_eq by (by rewrite !length_seti, L2). done.
    + unfold c_ids in Hic. rewrite !not_elem_of_cons in Hic. destruct Hic as (M1 & M2 & M3 & _).
      rewrite !geti_seti_ne by done. rewrite E. f_equal. apply decide_ext. rewrite HR, in_ids_cons. unfold c_ids.
      rewrite !elem_of_cons, elem_of_nil. tauto.
  - intros c' Hc'. pose proof (vi_info _ _ _ _ _ _ Hv c' (rest_in c' Hc')) as E.
    assert (Hne : c_head c <> c_head c') by (apply (rest_apart c'); [done|in_c|in_c]).
    unfold released, freed. vcbn s. rewrite geti_seti_ne by done. rewrite E. do 2 f_equal. apply decide_ext.
    rewrite !elem_of_app, HD, elem_of_cons. naive_solver.
  - intros c' Hc'. pose proof (vi_own _ _ _ _ _ _ Hv c' (rest_in c' Hc')) as E.
    assert (Hne : c_head c <> c_head c') by (apply (rest_apart c'); [done|in_c|in_c]).
    unfold released, freed. vcbn s. rewrite E. f_equal. apply decide_ext. rewrite HD, elem_of_cons. naive_solver.
  - apply (Permutation_cons_inv (a := c_head c)). change (c_head <$> (c :: R') ≡ₚ c_head c :: [] ++ Q ++ dev_taken s ++ C ++ Dn').
    rewrite <- HR, (vi_heads _ _ _ _ _ _ Hv), HD. simpl.
    rewrite !app_assoc. symmetry. apply Permutation_middle.
  - apply (vi_avail _ _ _ _ _ _ Hv).
  - apply (vi_avail_idx _ _ _ _ _ _ Hv).
  - apply (vi_used _ _ _ _ _ _ Hv).
  - apply (vi_used_idx _ _ _ _ _ _ Hv).
Qed.

Lemma released_view b : b <> c_buf c -> view b s (released c s).
Proof using All.
  intros Hne. eapply (view_frame _ _ _ _ _ _ _ _ _ _ _ _ _ Hv released_vinv); try done.
  - intros c' E. rewrite HR, elem_of_cons. split; [|tauto]. intros [-> |]; [congruence|done].
  - intros c' E Hc'. unfold released, freed. vcbn s. apply geti_seti_ne.
    rewrite HR, elem_of_cons in Hc'. destruct Hc' as [-> |Hc']; [congruence|].
    apply (rest_apart c'); [done|in_c|in_c].
Qed.

Lemma released_idle : idle (released c s) (c_buf c).
Proof using All.
  intros c' E Hch. pose proof (has_chain_in released_vinv c' Hch) as Hc'.
  pose proof (vi_bufs _ _ _ _ _ _ Hv) as Hn. rewrite HR in Hn. apply NoDup_cons in Hn as [Hn _].
  apply Hn. rewrite <- E. by apply list_elem_of_fmap_2.
Qed.

End Released.

(** ** The interrupt handler looks at one used entry *)

Definition handled (b : Z) (s : vstate) : vstate :=
  s {{ b_disk ::= seti b 0; wakes ::= fun l => l ++ [buf_chan b]; used_idx ::= fun u => u16 (u + 1) }}.

Section Handled.
Context {s : vstate} {R : list chain} {Q C Dn : list Z} (h : Z).
Hypothesis Hv : vinv [] s R Q (h :: C) Dn.

Lemma handled_chain : exists c, c ∈ R /\ c_head c = h /\
  (exists n, geti (used_ring s) (used_idx s mod NUM) = Some (h, n)) /\
  geti (info s) h = Some (Info (c_buf c) 0) /\ is_Some (geti (b_disk s) (c_buf c)).
Proof using Hv.
  destruct (vinv_head_in Hv h) as (c & Hc & <-); [set_solver|].
  exists c. split; [done|]. split; [done|]. split; [|split].
  - destruct (ring_pop _ _ _ _ (vi_used _ _ _ _ _ _ Hv)) as [Hu _]. unfold used_at in Hu.
    destruct (geti (used_ring s) (used_idx s mod NUM)) as [[x n]|] eqn:E; [|done].
    injection Hu as ->. eauto.
  - rewrite (vi_info _ _ _ _ _ _ Hv c Hc), decide_True; [done|left].
  - rewrite (vi_own _ _ _ _ _ _ Hv c Hc). by eexists.
Qed.

Lemma handled_vinv c : c ∈ R -> c_head c = h -> vinv [] (handled (c_buf c) s) R Q C (h :: Dn).
Proof using Hv.
  intros Hc Eh. destruct (vi_len _ _ _ _ _ _ Hv) as (L1 & L2 & L3 & L4 & L5 & L6 & L7).
  assert (Hb : 0 <= c_buf c < Z.of_nat (length (b_disk s))).
  { pose proof (vi_own _ _ _ _ _ _ Hv c Hc) as E. by eapply geti_Some_lt. }
  destruct (ring_pop _ _ _ _ (vi_used _ _ _ _ _ _ Hv)) as [_ Hu].
  split.
  - unfold handled. vcbn s. rewrite !length_seti. done.
  - split; [apply (vi_u16 _ _ _ _ _ _ Hv)|apply u16_range].
  - apply (vi_ids _ _ _ _ _ _ Hv).
  - apply (vi_bufs _ _ _ _ _ _ Hv).
  - apply (vi_chain _ _ _ _ _ _ Hv).
  - apply (vi_buf _ _ _ _ _ _ Hv).
  - apply (vi_free _ _ _ _ _ _ Hv).
  - intros c' Hc'. pose proof (vi_info _ _ _ _ _ _ Hv c' Hc') as E. vcbn s. rewrite E. do 2 f_equal. apply decide_ext.
    rewrite !elem_of_app, !elem_of_cons. tauto.
  - intros c' Hc'. unfold handled. vcbn s. pose proof (vi_own _ _ _ _ _ _ Hv c' Hc') as E.
    destruct (decide (c' = c)) as [-> |Hne].
    + rewrite geti_seti_eq by done. rewrite decide_True; [done|]. rewrite Eh. left.
    + rewrite geti_seti_ne by (intros Eb; apply Hne; by apply (buf_inj Hv)). rewrite E. f_equal. apply decide_ext.
      rewrite elem_of_cons. split; [tauto|]. intros [Ex|]; [|done]. destruct Hne. apply (head_inj Hv); congruence.
  - change (c_head <$> R ≡ₚ [] ++ Q ++ dev_taken s ++ C ++ h :: Dn). rewrite (vi_heads _ _ _ _ _ _ Hv). simpl.
    do 2 apply Permutation_app_head. apply Permutation_middle.
  - apply (vi_avail _ _ _ _ _ _ Hv).
  - apply (vi_avail_idx _ _ _ _ _ _ Hv).
  - apply Hu.
  - change (dev_idx s = u16 (u16 (used_idx s + 1) + Z.of_nat (length C))).
    by rewrite (vi_used_idx _ _ _ _ _ _ Hv), u16_drop_len.
Qed.

Lemma handled_view c b : c ∈ R -> c_head c = h -> view b s (handled (c_buf c) s).
Proof using Hv.
  intros Hc Eh. by eapply (view_frame _ _ _ _ _ _ _ _ _ _ _ _ _ Hv (handled_vinv c Hc Eh)).
Qed.

End Handled.
