(* ===== verification/VirtioProps.v ===== *)
(** The disk driver is right: any number of processes, the device and the
    interrupt handler together neither panic nor confuse two requests, the
    handler comes to an end, and a single request is what bio.c relies on. *)

From stdpp Require Import relations.
From S2P Require Import Prelude Mem Riscv Locks Kalloc Vm Proc ProcFacts Kernel KernelFacts Bio Virtio Rely VirtioFacts VirtioInv.

(** States that differ in the lock, the registers and the calls of wakeup(). *)
Definition same_queue (s s' : vstate) : Prop :=
  desc s' = desc s /\ avail_idx s' = avail_idx s /\ avail_ring s' = avail_ring s /\ dev_idx s' = dev_idx s /\
  used_ring s' = used_ring s /\ vfree s' = vfree s /\ used_idx s' = used_idx s /\ info s' = info s /\
  ops s' = ops s /\ vbufs s' = vbufs s /\ b_disk s' = b_disk s /\ blocks s' = blocks s /\
  dev_seen s' = dev_seen s /\ dev_taken s' = dev_taken s.

Lemma same_queue_vinv B s s' R Q C Dn : same_queue s s' -> vinv B s R Q C Dn -> vinv B s' R Q C Dn.
Proof.
  destruct s, s'. unfold same_queue. cbn. intros (-> & -> & -> & -> & -> & -> & -> & -> & -> & -> & -> & -> & -> & ->).
  intros []. by split.
Qed.

Lemma same_queue_view b s s' : same_queue s s' -> view b s s'.
Proof.
  destruct s, s'. unfold same_queue. cbn. intros (-> & -> & -> & -> & -> & -> & -> & -> & -> & -> & -> & -> & -> & ->).
  split; [done|done| |done]. intros c _ Hc. split; [done|]. split; [done|]. intros Hn. by left.
Qed.

Lemma same_queue_locked l s : same_queue s (locked l s).
Proof. repeat split. Qed.

Definition unlocked (s : vstate) : vstate := set_held (held s ∖ {[vdisk_lock]}) s.

Lemma same_queue_unlocked s : same_queue s (unlocked s).
Proof. repeat split. Qed.

Lemma shuffled_vinv s s' R Q C Dn : shuffled s s' -> vinv [] s R Q C Dn -> vinv [] s' R Q C Dn /\ forall b, view b s s'.
Proof.
  intros (l & ds & w & -> & Hl & Hd & Hf & Hds) Hv.
  assert (Hch : forall c, c ∈ R -> has_chain (s {{ vfree := l; desc := ds; wakes := w }}) c).
  { intros c Hc. destruct (vi_chain _ _ _ _ _ _ Hv c Hc) as (H1 & H2 & H3 & H4 & H5).
    assert (Hz : forall i, i ∈ c_ids c -> 0 <= i < NUM /\ geti (vfree s) i = Some 0).
    { intros i Hi. assert (Hin : in_ids R i) by (apply ids_elem; eauto).
      assert (Hr : 0 <= i < NUM) by by apply (vinv_ids_range Hv). split; [done|].
      by rewrite (vi_free _ _ _ _ _ _ Hv i Hr), decide_True. }
    unfold has_chain. vcbn s.
    destruct (Hz (c_head c)) as [R1 Z1]; [in_c|]. destruct (Hz (c_mid c)) as [R2 Z2]; [in_c|].
    destruct (Hz (c_tail c)) as [R3 Z3]; [in_c|].
    rewrite (Hf _ R1), !Hds by done. done. }
  assert (Hv' : vinv [] (s {{ vfree := l; desc := ds; wakes := w }}) R Q C Dn).
  { pose proof (vi_len _ _ _ _ _ _ Hv) as (L1 & L2 & L3). split; try apply Hv; try done.
    intros i Hi. vcbn s. rewrite Hf by done. by apply (vi_free _ _ _ _ _ _ Hv). }
  split; [done|]. intros b. by eapply (view_frame _ _ _ _ _ _ _ _ _ _ _ _ _ Hv Hv').
Qed.

Lemma vinv_bits B s R Q C Dn : vinv B s R Q C Dn -> bits (vfree s).
Proof.
  intros Hv. split; [apply (vi_len _ _ _ _ _ _ Hv)|]. intros i Hi.
  rewrite (vi_free _ _ _ _ _ _ Hv i Hi). case_decide; auto.
Qed.

(** ** The system

    A process is a call of virtio_disk_rw(b, write) or of the interrupt handler. *)

Definition request : Type := option (Z * bool).

Section System.
Context `{Fuel} `{Registers}.

Definition vstart (i : request) : M vstate unit :=
  match i with Some (b, w) => virtio_disk_rw b w | None => virtio_disk_intr end.

(** bio.c hands out a buffer to one process at a time (its sleep lock). *)
Definition vcompat (i j : request) : Prop :=
  match i, j with Some (b, _), Some (b', _) => b <> b' | _, _ => True end.

Definition vallowed (i : request) : Prop :=
  match i with Some (b, _) => 0 <= b < NBUF | None => True end.

Definition vrely (i : request) : vstate -> vstate -> Prop :=
  match i with Some (b, _) => view b | None => fun _ _ => True end.

Definition vpre (i : request) (s : vstate) : Prop :=
  match i with Some (b, _) => idle s b | None => True end.

(** The transfer that the call was for, between its first and its last state. *)
Definition vpost (i : request) (s s' : vstate) : Prop :=
  match i with
  | Some (b, w) => forall bf, geti (vbufs s) b = Some bf -> 0 <= b_blockno bf < 2 ^ 31 ->
      transferred b (b_blockno bf) w s s' /\ geti (b_disk s') b = Some 0
  | None => True
  end.

(** Nobody holds the lock and the queue is in order. *)
Definition vgood (s : vstate) : Prop :=
  (vdisk_lock ∉ vheld s) /\ NBUF <= Z.of_nat (length (vbufs s)) /\ exists R Q C Dn, vinv [] s R Q C Dn.

(** The queue is in order, possibly with a request that is not yet published. *)
Definition ordered (s : vstate) : Prop := exists B R Q C Dn, vinv B s R Q C Dn.

Lemma vgood_ordered s : vgood s -> ordered s.
Proof. intros (_ & _ & R & Q & C & Dn & Hv). by exists [], R, Q, C, Dn. Qed.

#[export] Instance vcompat_dec i j : Decision (vcompat i j).
Proof. destruct i as [[]|], j as [[]|]; apply _. Defined.

Definition others (b : Z) (s s' : vstate) : Prop := forall b', b' <> b -> view b' s s'.

Lemma others_refl b s : others b s s.
Proof. intros b' _. apply view_refl. Qed.

Lemma others_trans b s1 s2 s3 : others b s1 s2 -> others b s2 s3 -> others b s1 s3.
Proof. intros H1 H2 b' Hb. eapply view_trans; [by apply H1|by apply H2]. Qed.

Lemma others_G b w s s' : others b s s' -> G vcompat vrely (Some (b, w)) s s'.
Proof. intros Ho [[b' w']|] Hc; [|done]. apply Ho. by apply not_eq_sym. Qed.

Lemma all_G s s' : (forall b, view b s s') -> G vcompat vrely None s s'.
Proof. intros Ho [[b' w']|] _; [|done]. apply Ho. Qed.

Context (dev : vstate -> vstate -> Prop).
Hypothesis dev_spec : forall s s', dev s s' -> dev_step s s'.

Lemma dev_steps s s' : rtc dev s s' -> rtc dev_step s s'.
Proof. induction 1; [apply rtc_refl|]. eapply rtc_l; [by apply dev_spec|done]. Qed.

Lemma vgood_dev s s' : vgood s -> dev s s' -> vgood s'.
Proof.
  intros (Hl & Hn & R & Q & C & Dn & Hv) Hd%dev_spec.
  destruct (dev_step_vinv _ _ _ _ _ _ _ Hv Hd) as (Q' & C' & Hv' & _ & Hw).
  split; [by rewrite (dev_step_lock _ _ Hd)|]. split; [by rewrite (vw_len _ _ _ (Hw 0))|eauto].
Qed.

Lemma ordered_dev s s' : ordered s -> dev s s' -> ordered s' /\ forall b, view b s s'.
Proof.
  intros (B & R & Q & C & Dn & Hv) Hd%dev_spec.
  destruct (dev_step_vinv _ _ _ _ _ _ _ Hv Hd) as (Q' & C' & Hv' & _ & Hw).
  split; [by exists B, R, Q', C', Dn|done].
Qed.

Lemma vrely_dev i s s' : ordered s -> dev s s' -> vrely i s s'.
Proof. intros Ho Hd. destruct i as [[b w]|]; [|done]. by apply ordered_dev. Qed.

(** sleep(ch, &disk.vdisk_lock): others run in between. *)
Lemma rg_vsleep {B} late P G s1 ch (f : unit -> M vstate B) s Q :
  ch <> sync_chan -> vdisk_lock ∈ vheld s -> G s1 (unlocked s) -> vgood (unlocked s) ->
  (forall s', vgood s' -> P (unlocked s) s' ->
     rg dev sync_chan ordered vgood late P G s' (f tt (locked vdisk_lock s')) Q) ->
  rg dev sync_chan ordered vgood late P G s1 (bind (vsleep ch vdisk_lock) f s) Q.
Proof.
  intros Hch Hl HG Hgood Hf. apply rg_bind. unfold vsleep.
  eapply rg_step; [by apply release_held|]. apply rg_bind. simpl. split; [done|].
  rewrite decide_False by done. split; [done|]. intros s' Hg' HP.
  rewrite acquire_eq by apply Hg'. simpl. by apply Hf.
Qed.

Lemma unlocked_good s R Q C Dn :
  NBUF <= Z.of_nat (length (vbufs s)) -> vinv [] s R Q C Dn -> vgood (unlocked s).
Proof.
  intros Hn Hv. split; [set_solver|]. split; [done|]. exists R, Q, C, Dn.
  eapply same_queue_vinv; [apply same_queue_unlocked|done].
Qed.

(** The three descriptors are found, perhaps after sleeping. *)
Definition asking (b : Z) (s0 s1 s : vstate) : Prop :=
  vdisk_lock ∈ vheld s /\ NBUF <= Z.of_nat (length (vbufs s)) /\ idle s b /\ grows s0 s /\ same_buf b s0 s /\
  others b s1 s /\ exists R Q C Dn, vinv [] s R Q C Dn.

Lemma asking_start b s0 s1 s :
  vgood s -> idle s b -> grows s0 s -> same_buf b s0 s -> s1 = s -> asking b s0 s1 (locked vdisk_lock s).
Proof.
  intros (Hl & Hn & R & Q & C & Dn & Hv) Hi Hg Hb ->.
  assert (Hvw : forall b', view b' s (locked vdisk_lock s)) by (intros; apply same_queue_view, same_queue_locked).
  split; [set_solver|]. split; [done|]. destruct (vw_idle _ _ _ (Hvw b) Hi) as [Hi' Hb'].
  split; [done|]. split; [done|]. split; [done|]. split; [by intros b' _|].
  exists R, Q, C, Dn. eapply same_queue_vinv; [apply same_queue_locked|done].
Qed.

Lemma asking_loop b w s0 s1 s n :
  asking b s0 s1 s ->
  rg dev sync_chan ordered vgood True (view b) (G vcompat vrely (Some (b, w))) s1
    (loop n (fun _ : unit =>
      r <- alloc3_desc;;
      match r with
      | Some idx => break idx
      | None => vsleep free_chan vdisk_lock;;; continue tt
      end) tt s)
    (fun idx s1' s' => exists i j k s2, idx = [i; j; k] /\ asking b s0 s1' s2 /\
      NoDup [i; j; k] /\ (forall x, x ∈ [i; j; k] -> 0 <= x < NUM /\ geti (vfree s2) x = Some 1) /\
      s' = s2 {{ vfree ::= fun l => seti k 0 (seti j 0 (seti i 0 l)) }}).
Proof using dev_spec.
  intros Ha. apply (rg_loop _ _ _ _ _ _ _ _ (fun _ s1 s => asking b s0 s1 s)); [done| |done].
  clear s1 s Ha. intros _ s1 s (Hl & Hn & Hi & Hg & Hb & Ho & R & Q & C & Dn & Hv).
  eapply rg_run; [apply alloc3_desc_runs; [by eapply vinv_bits|apply (vi_len _ _ _ _ _ _ Hv)]|].
  intros [idx|] s2 Hr; simpl in Hr.
  - destruct Hr as (i & j & k & -> & N1 & N2 & N3 & F1 & F2 & F3 & ->). simpl.
    exists i, j, k, s. split; [done|]. split; [by repeat (split; [done|]); eauto|]. split.
    + rewrite !NoDup_cons, !elem_of_cons, !elem_of_nil. split; [tauto|]. split; [tauto|]. split; [tauto|constructor].
    + split; [|done]. assert (Hf : forall x, geti (vfree s) x = Some 1 -> 0 <= x < NUM /\ geti (vfree s) x = Some 1).
      { intros x Ex. split; [|done]. pose proof (geti_Some_lt _ _ _ Ex) as Hx.
        destruct (vi_len _ _ _ _ _ _ Hv) as (_ & L2 & _). rewrite L2 in Hx. unfold NUM. lia. }
      intros x. rewrite !elem_of_cons, elem_of_nil. intros [-> |[-> |[-> |[]]]]; by apply Hf.
  - destruct Hr as [Hr _]. destruct (shuffled_vinv _ _ _ _ _ _ Hr Hv) as [Hv2 Hw].
    assert (Hl2 : vdisk_lock ∈ vheld s2) by (destruct Hr as (? & ? & ? & -> & _); done).
    assert (Hn2 : NBUF <= Z.of_nat (length (vbufs s2))) by by rewrite (vw_len _ _ _ (Hw 0)).
    destruct (vw_idle _ _ _ (Hw b) Hi) as [Hi2 Hb2].
    destruct (vw_idle _ _ _ (same_queue_view b _ _ (same_queue_unlocked s2)) Hi2) as [Hi3 _].
    apply rg_vsleep; [done|done| |by eapply unlocked_good|].
    + apply others_G. eapply others_trans; [done|]. eapply others_trans; [intros b' _; apply Hw|].
      intros b' _. apply same_queue_view, same_queue_unlocked.
    + intros s' Hg' HP. simpl. destruct (vw_idle _ _ _ HP Hi3) as [Hi' Hb'].
      apply asking_start; [done|done| | |done].
      * eapply grows_trans; [done|]. eapply grows_trans; [apply (Hw b)|]. apply (vw_grows _ _ _ HP).
      * eapply same_buf_trans; [done|]. by eapply same_buf_trans.
Qed.

(** A request is in flight; the transfer is counted from the call's first state. *)
Definition progress (c : chain) (s0 s : vstate) : Prop :=
  ~ finished s c /\ grows s0 s /\ same_buf (c_buf c) s0 s \/
  finished s c /\ transferred (c_buf c) (c_sector c / (BSIZE / 512)) (c_write c) s0 s.

Lemma progress_view c s0 s s' :
  has_chain s c -> progress c s0 s -> view (c_buf c) s s' -> has_chain s' c /\ progress c s0 s'.
Proof.
  intros Hc Hp Hw. destruct (vw_busy _ _ _ Hw c eq_refl Hc) as (Hc' & Hf & Hu). split; [done|].
  destruct Hp as [(Hn & Hg & Hb)|[Hd Ht]].
  - destruct (Hu Hn) as [[Hn' Hb']|[Hd' Ht']].
    + left. split; [done|]. split; [eapply grows_trans; [done|apply (vw_grows _ _ _ Hw)]|by eapply same_buf_trans].
    + right. split; [done|]. by eapply transferred_before.
  - destruct (Hf Hd) as [Hd' Hb']. right. split; [done|].
    eapply transferred_after; [apply (vw_grows _ _ _ Hw)|done|done].
Qed.

Definition waiting (c : chain) (s0 s1 s : vstate) : Prop :=
  vdisk_lock ∈ vheld s /\ NBUF <= Z.of_nat (length (vbufs s)) /\ others (c_buf c) s1 s /\ progress c s0 s /\
  exists R Q C Dn, vinv [] s R Q C Dn /\ c ∈ R.

Lemma waiting_loop c w s0 s1 s n :
  waiting c s0 s1 s ->
  rg dev sync_chan ordered vgood True (view (c_buf c)) (G vcompat vrely (Some (c_buf c, w))) s1
    (loop n (fun _ : unit =>
      d <- vget b_disk "b->disk" (c_buf c);;
      if d =? 1 then vsleep (buf_chan (c_buf c)) vdisk_lock;;; continue tt else break tt) tt s)
    (fun _ s1' s' => waiting c s0 s1' s' /\ geti (b_disk s') (c_buf c) = Some 0).
Proof using dev_spec.
  intros Hw. apply (rg_loop _ _ _ _ _ _ _ _ (fun _ s1 s => waiting c s0 s1 s)); [done| |done].
  clear s1 s Hw. intros _ s1 s Hwt. pose proof Hwt as (Hl & Hn & Ho & Hp & R & Q & C & Dn & Hv & Hc).
  pose proof (vi_own _ _ _ _ _ _ Hv c Hc) as E. eapply rg_step; [by apply vget_ok|]. case_decide as Hd.
  - simpl. done.
  - change (1 =? 1) with true. cbv iota.
    assert (Hch : has_chain s c) by by apply (vi_chain _ _ _ _ _ _ Hv).
    destruct (progress_view c s0 s (unlocked s) Hch Hp) as [Hch1 Hp1]; [apply same_queue_view, same_queue_unlocked|].
    apply rg_vsleep; [done|done| |by eapply unlocked_good|].
    + apply others_G. eapply others_trans; [done|]. intros b' _. apply same_queue_view, same_queue_unlocked.
    + intros s' Hg' HP. simpl. destruct (progress_view c s0 _ s' Hch1 Hp1 HP) as [Hch2 Hp2].
      pose proof Hg' as (Hl' & Hn' & R' & Q' & C' & Dn' & Hv').
      pose proof (same_queue_locked vdisk_lock s') as Hs.
      split; [set_solver|]. split; [done|].
      split; [intros b' _; by apply same_queue_view|].
      split; [eapply progress_view; [done|done|by apply same_queue_view]|].
      exists R', Q', C', Dn'. split; [by eapply same_queue_vinv|by eapply has_chain_in].
Qed.

(** The request is put together and published: the device may start at each
    barrier. *)
Lemma submit_rg {B} c w s0 s1 s (f : unit -> M vstate B) P Q :
  asking (c_buf c) s0 s1 s -> fresh c s -> is_Some (geti (vbufs s) (c_buf c)) ->
  (forall s2 s', waiting c s0 s2 s' ->
     rg dev sync_chan ordered vgood True P (G vcompat vrely (Some (c_buf c, w))) s2 (f tt s') Q) ->
  rg dev sync_chan ordered vgood True P (G vcompat vrely (Some (c_buf c, w))) s1
    (bind (format_request (c_buf c) (c_write c) (c_sector c) (c_head c) (c_mid c) (c_tail c)) (fun _ =>
      __sync_synchronize;;;
      modify (fun s => s {{ avail_idx ::= fun a => u16 (a + 1) }});;;
      __sync_synchronize;;; (fun s => f tt s))
     (s {{ vfree ::= fun l => seti (c_tail c) 0 (seti (c_mid c) 0 (seti (c_head c) 0 l)) }})) Q.
Proof using dev_spec.
  intros (Hl & Hn & Hi & Hg & Hb & Ho & R & Q0 & C & Dn & Hv) Hf Hbuf Hk.
  assert (Hid : c_buf c ∉ c_buf <$> R).
  { intros (c' & E & Hc')%list_elem_of_fmap. by apply (Hi c'); [|apply (vi_chain _ _ _ _ _ _ Hv)]. }
  pose proof (built_vinv c Hv Hf Hbuf Hid) as Hv1.
  eapply rg_step; [by eapply format_request_eq|].
  apply rg_barrier.
  { apply others_G. eapply others_trans; [done|]. intros b' Hb'. by apply (built_view c Hv Hf Hbuf Hid). }
  { by exists [c_head c], (c :: R), Q0, C, Dn. }
  intros s2 Hr%dev_steps.
  destruct (dev_steps_vinv _ _ _ _ _ _ _ Hr Hv1) as (Q1 & C1 & Hv2 & _ & Hw2 & Hl2 & Ea & Ei).
  assert (Hav : geti (avail_ring s2) (avail_idx s2 mod NUM) = Some (c_head c)).
  { rewrite Ea, Ei. apply (built_avail c Hv). }
  eapply rg_step; [done|]. change (s2 {{ avail_idx ::= fun a => u16 (a + 1) }}) with (published s2).
  pose proof (published_vinv _ _ _ _ _ _ Hv2 Hav) as Hv3.
  apply rg_barrier.
  { apply others_G. intros b' _. by eapply published_view. }
  { by exists [], (c :: R), (Q1 ++ [c_head c]), C1, Dn. }
  intros s4 Hr4%dev_steps.
  destruct (dev_steps_vinv _ _ _ _ _ _ _ Hr4 Hv3) as (Q2 & C2 & Hv4 & _ & Hw4 & Hl4 & _).
  apply Hk. assert (Hch1 : has_chain (built c s) c) by (apply (vi_chain _ _ _ _ _ _ Hv1); left).
  assert (Hp1 : progress c s0 (built c s)).
  { left. split; [by eapply built_unfinished|]. done. }
  destruct (progress_view c s0 _ s2 Hch1 Hp1 (Hw2 _)) as [Hch2 Hp2].
  destruct (progress_view c s0 _ (published s2) Hch2 Hp2) as [Hch3 Hp3]; [by eapply published_view|].
  destruct (progress_view c s0 _ s4 Hch3 Hp3 (Hw4 _)) as [Hch4 Hp4].
  split; [rewrite Hl4; change (vheld (published s2)) with (vheld s2); rewrite Hl2; done|].
  split; [rewrite (vw_len _ _ _ (Hw4 0)); change (vbufs (published s2)) with (vbufs s2); rewrite (vw_len _ _ _ (Hw2 0)); done|].
  split; [intros b' _; apply (view_refl b' s4)|]. split; [done|].
  exists (c :: R), Q2, C2, Dn. split; [done|left].
Qed.

(** The call after its request is done. *)
Lemma release_run c s0 s1 s :
  waiting c s0 s1 s -> geti (b_disk s) (c_buf c) = Some 0 ->
  exists s', (set_info (c_head c) (fun n => n {{ in_b := -1 }});;; free_chain (c_head c);;; release vdisk_lock) s = Done tt s' /\
    others (c_buf c) s1 s' /\ vgood s' /\ idle s' (c_buf c) /\
    transferred (c_buf c) (c_sector c / (BSIZE / 512)) (c_write c) s0 s' /\ geti (b_disk s') (c_buf c) = Some 0.
Proof.
  intros (Hl & Hn & Ho & Hp & R & Q & C & Dn & Hv & Hc) Hb.
  pose proof (vi_own _ _ _ _ _ _ Hv c Hc) as E. rewrite Hb in E. case_decide as Hd; [|done].
  pose proof (vi_info _ _ _ _ _ _ Hv c Hc) as Ei. rewrite decide_True in Ei by set_solver.
  destruct Hp as [(Hnf & _)|[_ Ht]]; [by destruct Hnf|].
  apply list_elem_of_split in Hc as (R1 & R2 & HR).
  assert (HR' : R ≡ₚ c :: (R1 ++ R2)) by (rewrite HR; symmetry; apply Permutation_middle).
  apply list_elem_of_split in Hd as (D1 & D2 & HD).
  assert (HD' : Dn ≡ₚ c_head c :: (D1 ++ D2)) by (rewrite HD; symmetry; apply Permutation_middle).
  pose proof (released_vinv c Hv HR' HD') as Hv'.
  exists (unlocked (released c s)). split.
  { erewrite bind_done by (by eapply set_info_ok).
    rewrite (bind_done _ _ _ _ _ (free_chain_eq c Hv HR' HD')). by apply release_held. }
  pose proof (fun b => same_queue_view b _ _ (same_queue_unlocked (released c s))) as Hu.
  split; [|split; [|split; [|split]]].
  - eapply others_trans; [done|]. intros b' Hb'. eapply view_trans; [by apply (released_view c Hv HR' HD')|apply Hu].
  - eapply unlocked_good; [|done]. done.
  - apply (vw_idle _ _ _ (Hu (c_buf c))). by apply (released_idle c Hv HR' HD').
  - eapply transferred_after; [|done|exact Ht]. done.
  - done.
Qed.

Lemma virtio_disk_rw_rg b w s0 :
  0 <= b < NBUF -> vgood s0 -> idle s0 b ->
  rg dev sync_chan ordered vgood True (view b) (G vcompat vrely (Some (b, w))) s0 (virtio_disk_rw b w s0)
    (fun _ s1 s' => G vcompat vrely (Some (b, w)) s1 s' /\ vgood s' /\ idle s' b /\ vpost (Some (b, w)) s0 s').
Proof using dev_spec.
  intros Hbr Hgood Hi. pose proof Hgood as (Hl & Hn & _).
  destruct (geti_is_Some (vbufs s0) b) as [bf Ebf]; [lia|].
  unfold virtio_disk_rw. eapply rg_step; [by apply vget_ok|].
  eapply rg_step; [by apply acquire_eq|]. apply rg_bind.
  eapply rg_mono; [by apply (asking_loop b w s0), asking_start|].
  intros idx s1 s' (i & j & k & s2 & -> & Ha & Hnd & Hfree & ->).
  set (c := Chain i j k b w (u32 (b_blockno bf * (BSIZE / 512)))).
  assert (Hbuf : is_Some (geti (vbufs s2) b)) by (destruct Ha as (_ & Hn2 & _); apply geti_is_Some; lia).
  apply (submit_rg c w s0 s1 s2 (fun _ =>
    mmio_write VIRTIO_MMIO_QUEUE_NOTIFY 0;;;
    loop fuel (fun _ : unit =>
      d <- vget b_disk "b->disk" b;;
      if d =? 1 then vsleep (buf_chan b) vdisk_lock;;; continue tt else break tt) tt;;;
    set_info i (fun n => n {{ in_b := -1 }});;;
    free_chain i;;;
    release vdisk_lock) (view b)); [done|by split|done|].
  clear s1 s2 Ha Hfree Hbuf. intros s1 s Hw. eapply rg_step; [done|].
  set (s2 := s {{ mmio ::= _ }}).
  assert (Hq : same_queue s s2) by (repeat split).
  assert (Hw2 : waiting c s0 s1 s2).
  { destruct Hw as (W1 & W2 & W3 & W4 & R & Q & C & Dn & W5 & W6).
    split; [done|]. split; [done|].
    split; [eapply others_trans; [done|]; intros b' _; by apply same_queue_view|].
    split; [eapply progress_view; [by apply (vi_chain _ _ _ _ _ _ W5)|done|by apply same_queue_view]|].
    exists R, Q, C, Dn. split; [by eapply same_queue_vinv|done]. }
  apply rg_bind. eapply rg_mono; [apply (waiting_loop c w s0 s1 s2 fuel Hw2)|].
  intros _ s3 s4 [Hw4 Hb4]. destruct (release_run c s0 s3 s4 Hw4 Hb4) as (s5 & E & Ho & Hg & Hid & Ht & Hb5).
  change (set_info (c_head c)) with (set_info i) in E. change (free_chain (c_head c)) with (free_chain i) in E.
  rewrite E. simpl. split; [by apply others_G|]. split; [done|]. split; [done|].
  intros bf' Ebf' Hrange. rewrite Ebf in Ebf'. injection Ebf' as <-. split; [|done].
  replace (b_blockno bf) with (c_sector c / (BSIZE / 512)); [done|].
  unfold c, BSIZE. simpl. change (1024 / 512) with 2. rewrite u32_small by lia. zdiv.
Qed.

(** ** The interrupt handler *)

Definition handling (s1 s : vstate) (m : nat) : Prop :=
  vdisk_lock ∈ vheld s /\ NBUF <= Z.of_nat (length (vbufs s)) /\ (forall b, view b s1 s) /\
  exists R Q C Dn, vinv [] s R Q C Dn /\ (length Q + length (dev_taken s) + length C <= m)%nat.

Lemma view_all_trans s1 s2 s3 : (forall b, view b s1 s2) -> (forall b, view b s2 s3) -> forall b, view b s1 s3.
Proof. intros H1 H2 b. eapply view_trans; [apply H1|apply H2]. Qed.

Lemma intr_round_rg s1 s m :
  handling s1 s m ->
  rg dev sync_chan ordered vgood False (fun _ _ => True) (G vcompat vrely None) s1 (intr_round s) (fun r s1' s' =>
    match r with
    | inl _ => exists m', (m' < m)%nat /\ handling s1' s' m'
    | inr _ => vdisk_lock ∈ vheld s' /\ NBUF <= Z.of_nat (length (vbufs s')) /\ (forall b, view b s1' s') /\
               used_idx s' = dev_idx s' /\ exists R Q C Dn, vinv [] s' R Q C Dn
    end).
Proof using dev_spec.
  intros (Hl & Hn & Hvw & R & Q & C & Dn & Hv & Hm). unfold intr_round. eapply rg_step; [done|].
  destruct (Z.eqb_spec (used_idx s) (dev_idx s)) as [E|E]; cbn [negb].
  { simpl. eauto 10. }
  destruct C as [|h C].
  { destruct E. rewrite (vi_used_idx _ _ _ _ _ _ Hv). simpl. rewrite Z.add_0_r. symmetry. apply u16_small.
    apply (vi_u16 _ _ _ _ _ _ Hv). }
  apply rg_barrier; [by apply all_G|by exists [], R, Q, (h :: C), Dn|]. intros s2 Hr%dev_steps.
  destruct (dev_steps_vinv _ _ _ _ _ _ _ Hr Hv) as (Q2 & C2 & Hv2 & [C3 ->] & Hw2 & Hl2 & _).
  simpl in Hv2. destruct (handled_chain h Hv2) as (c & Hc & Eh & [n Eu] & Ei & Eb).
  eapply rg_step; [done|]. eapply rg_step; [apply vget_ok; exact Eu|]. cbn [fst].
  eapply rg_step; [apply vget_ok; exact Ei|]. cbn [in_status in_b]. change (negb (0 =? 0)) with false. cbv iota.
  eapply rg_step; [by apply set_bdisk_ok|]. eapply rg_step; [done|]. eapply rg_step; [done|]. simpl.
  pose proof (handled_vinv h Hv2 c Hc Eh) as Hv3.
  pose proof (fun b => handled_view h Hv2 c b Hc Eh) as Hw3.
  exists (length Q2 + length (dev_taken s2) + length (C ++ C3))%nat. split.
  - pose proof (Permutation_length (vi_heads _ _ _ _ _ _ Hv)) as P1.
    pose proof (Permutation_length (vi_heads _ _ _ _ _ _ Hv2)) as P2.
    rewrite P1 in P2. rewrite !length_app in *. simpl in *. rewrite ?length_app in *. lia.
  - split; [change (vdisk_lock ∈ vheld s2); by rewrite Hl2|].
    split; [change (NBUF <= Z.of_nat (length (vbufs s2))); by rewrite (vw_len _ _ _ (Hw2 0))|].
    split; [done|]. exists R, Q2, (C ++ C3), (h :: Dn). split; [done|]. done.
Qed.

(** Three rounds are enough: at most two requests are in flight. *)
Lemma virtio_disk_intr_rg s :
  (3 <= fuel)%nat -> vgood s ->
  rg dev sync_chan ordered vgood False (fun _ _ => True) (G vcompat vrely None) s (virtio_disk_intr s)
    (fun _ s1 s' => G vcompat vrely None s1 s' /\ vgood s').
Proof using dev_spec.
  intros Hfuel (Hl & Hn & R & Q & C & Dn & Hv). unfold virtio_disk_intr.
  eapply rg_step; [by apply acquire_eq|]. eapply rg_step; [done|]. eapply rg_step; [done|].
  match goal with |- rg _ _ _ _ _ _ _ _ (bind _ _ ?x) _ => set (s1 := x) end.
  assert (Hq : same_queue s s1) by (repeat split).
  pose proof (same_queue_vinv _ _ _ _ _ _ _ Hq Hv) as Hv1.
  apply rg_barrier; [apply all_G; intros b; by apply same_queue_view|by exists [], R, Q, C, Dn|]. intros s2 Hr%dev_steps.
  destruct (dev_steps_vinv _ _ _ _ _ _ _ Hr Hv1) as (Q2 & C2 & Hv2 & _ & Hw2 & Hl2 & _).
  pose proof (vinv_lengths Hv2) as Hlen.
  apply rg_bind. eapply rg_mono.
  - apply (fun Q' Hb => rg_loop_bound _ _ _ _ _ _ _ _ (fun m (_ : unit) s1 s => handling s1 s m)
      Q' Hb fuel 2%nat) with (Q' := fun _ s1' s' => vdisk_lock ∈ vheld s' /\ NBUF <= Z.of_nat (length (vbufs s')) /\
               (forall b, view b s1' s') /\ used_idx s' = dev_idx s' /\ exists R Q C Dn, vinv [] s' R Q C Dn).
    + intros m _ s3 s4 Hh. eapply rg_mono; [by apply intr_round_rg|]. intros [[]|[]] s5 s6 Hr6; exact Hr6.
    + split; [rewrite Hl2; unfold s1; cbn; set_solver|].
      split; [rewrite (vw_len _ _ _ (Hw2 0)); done|]. split; [intros b; apply view_refl|].
      exists R, Q2, C2, Dn. split; [done|lia].
    + lia.
  - intros _ s3 s4 (Hl4 & Hn4 & Hvw & _ & R4 & Q4 & C4 & D4 & Hv4).
    rewrite release_held by done. simpl. split.
    + apply all_G. eapply view_all_trans; [done|]. intros b. apply same_queue_view, same_queue_unlocked.
    + by eapply unlocked_good.
Qed.

Lemma vstart_rg i s :
  (3 <= fuel)%nat -> vallowed i -> vgood s -> vpre i s ->
  rg dev sync_chan ordered vgood True (vrely i) (G vcompat vrely i) s (vstart i s)
    (fun _ s1 s' => G vcompat vrely i s1 s' /\ vgood s' /\ vpre i s' /\ vpost i s s').
Proof using dev_spec.
  intros Hf Ha Hg Hp. destruct i as [[b w]|]; [by apply virtio_disk_rw_rg|].
  eapply rg_mono; [apply rg_weaken; by apply virtio_disk_intr_rg|]. intros _ s1 s' [H1 H2]. done.
Qed.

Lemma vrely_refl i s : vrely i s s.
Proof. destruct i as [[]|]; [apply view_refl|done]. Qed.

Lemma vrely_trans i s1 s2 s3 : vrely i s1 s2 -> vrely i s2 s3 -> vrely i s1 s3.
Proof. destruct i as [[]|]; [apply view_trans|done]. Qed.

Lemma vpre_rely i s s' : vpre i s -> vrely i s s' -> vpre i s'.
Proof. destruct i as [[]|]; [|done]. intros Hi Hw. by apply (vw_idle _ _ _ Hw). Qed.

Lemma vpre_conflict i j s : ~ vcompat i j -> vpre i s -> vpre j s.
Proof.
  destruct i as [[b w]|], j as [[b' w']|]; try done. simpl. intros Hc Hi.
  destruct (decide (b = b')) as [<-|]; [done|]. by destruct Hc.
Qed.

End System.
