(* ===== verification/VirtioSafe.v ===== *)
(** The driver as bio.c sees it, the theorems about it, and a small machine that
    they apply to.

    [alone] runs a call of virtio_disk_rw() by a process that is alone with the
    device: when it sleeps, the device serves what is in the queue and its
    interrupt is handled; the process goes on if the handler called wakeup() on
    what it sleeps on. *)

From stdpp Require Import relations.
From S2P Require Import Prelude Mem Riscv Locks Kalloc Vm Space SpaceCheck Proc ProcFacts Kernel KernelFacts Bio Rely Virtio VirtioFacts VirtioInv VirtioProps.

(** Run through the barriers; the device takes its time. *)
Fixpoint straight {A} (p : prog vstate A) : prog vstate A :=
  match p with
  | Sleep c s k => if decide (c = sync_chan) then straight (k s) else Sleep c s k
  | q => q
  end.

Lemma straight_done {A B} (p : prog vstate A) (f : A -> M vstate B) a s :
  straight p = Done a s -> straight (bindp p f) = straight (f a s).
Proof.
  induction p as [| | | |c s1 k IH]; simpl; try done; [by intros [= -> ->]|].
  case_decide; [apply IH|done].
Qed.

Lemma straight_bind {A B} (m : M vstate A) (f : A -> M vstate B) s a s' :
  straight (m s) = Done a s' -> straight (bind m f s) = straight (f a s').
Proof. apply straight_done. Qed.

Lemma straight_sync {B} (f : unit -> M vstate B) s : straight (bind __sync_synchronize f s) = straight (f tt s).
Proof. reflexivity. Qed.

Lemma vacquire s : (vdisk_lock ∉ vheld s) -> acquire vdisk_lock s = Done tt (locked vdisk_lock s).
Proof. intros Hl. by apply acquire_eq. Qed.

Lemma vrelease s : vdisk_lock ∈ vheld s -> release vdisk_lock s = Done tt (unlocked s).
Proof. intros Hl. by apply release_held. Qed.

(** The device serves the queue, first come first served. *)
Fixpoint dev_run (n : nat) (s : vstate) : vstate :=
  match n with
  | O => s
  | S m =>
      match dev_fetch s with
      | Some s' => dev_run m s'
      | None => match dev_serve 0 s with Some s' => dev_run m s' | None => s end
      end
  end.

Section Run.
Context `{Fuel} `{Registers}.

Fixpoint alone (n : nat) (p : prog vstate unit) : prog vstate unit :=
  match straight p with
  | Sleep c s k =>
      match n with
      | O => OutOfFuel
      | S m =>
          match straight (virtio_disk_intr (dev_run 8 s)) with
          | Done _ s' =>
              if decide (c ∈ drop (length (wakes s)) (wakes s')) then alone m (k s') else Sleep c s k
          | _ => Undef "interrupt"
          end
      end
  | q => q
  end.

(** What is left of the call when it has slept. *)
Definition rest (c : chain) (n : nat) : M vstate unit :=
  loop n (fun _ : unit =>
    d <- vget b_disk "b->disk" (c_buf c);;
    if d =? 1 then vsleep (buf_chan (c_buf c)) vdisk_lock;;; continue tt else break tt) tt;;;
  set_info (c_head c) (fun n => n {{ in_b := -1 }});;;
  free_chain (c_head c);;;
  release vdisk_lock.

Definition quiescent (s : vstate) : Prop := vgood s /\ forall b, idle s b.

Lemma quiescent_empty s : quiescent s -> vinv [] s [] [] [] [].
Proof.
  intros [(_ & _ & R & Q & C & Dn & Hv) Hi]. assert (R = []) as ->.
  { destruct R as [|c R]; [done|]. destruct (Hi (c_buf c) c eq_refl). apply (vi_chain _ _ _ _ _ _ Hv). left. }
  pose proof (vi_heads _ _ _ _ _ _ Hv) as Hp. simpl in Hp. apply Permutation_nil_l in Hp.
  destruct Q, (dev_taken s), C, Dn; done.
Qed.

(** One look at [b->disk] while the request is in flight. *)
Lemma wait_sleeps b s :
  geti (b_disk s) b = Some 1 -> vdisk_lock ∈ vheld s ->
  exists k, (d <- vget b_disk "b->disk" b;;
    if d =? 1 then vsleep (buf_chan b) vdisk_lock;;; @continue vstate unit unit tt else break tt) s
    = Sleep (buf_chan b) (unlocked s) k /\
    forall s', vdisk_lock ∉ vheld s' -> k s' = Done (inl tt) (locked vdisk_lock s').
Proof.
  intros Eo Hl. rewrite (bind_done _ _ _ _ _ (vget_ok _ _ _ _ _ Eo)). change (1 =? 1) with true. cbv iota.
  unfold bind at 1, vsleep. rewrite (bind_done _ _ _ _ _ (vrelease s Hl)). simpl.
  eexists. split; [done|]. intros s' Hl'. simpl. unfold bind. by rewrite vacquire.
Qed.

Lemma rw_sleeps n b w s bf :
  fuel = S n -> quiescent s -> geti (vbufs s) b = Some bf ->
  exists c s1 k, straight (virtio_disk_rw b w s) = Sleep (buf_chan b) s1 k /\
    c_buf c = b /\ c_write c = w /\ c_sector c = u32 (b_blockno bf * (BSIZE / 512)) /\
    vinv [] s1 [c] [c_head c] [] [] /\ vbufs s1 = vbufs s /\ blocks s1 = blocks s /\
    (vdisk_lock ∉ vheld s1) /\
    forall s', vdisk_lock ∉ vheld s' -> k s' = rest c n (locked vdisk_lock s').
Proof.
  intros Hfuel Hq Eb. pose proof (quiescent_empty s Hq) as Hv. destruct Hq as [(Hl & Hn & _) Hi].
  pose proof (same_queue_vinv _ _ _ _ _ _ _ (same_queue_locked vdisk_lock s) Hv) as Hv1.
  set (s1 := locked vdisk_lock s) in *.
  assert (Hfree : forall i, 0 <= i < NUM -> geti (vfree s1) i = Some 1).
  { intros i Hr. rewrite (vi_free _ _ _ _ _ _ Hv1 i Hr). rewrite decide_False; [done|]. intros (c & Hc & _)%ids_elem. set_solver. }
  destruct (wp_done_inv _ _ (alloc3_desc_runs s1 (vinv_bits _ _ _ _ _ _ Hv1) (proj1 (vi_len _ _ _ _ _ _ Hv1))))
    as ([idx|] & s2 & Ea & Hr).
  2:{ destruct Hr as [_ (x & y & Hxy)].
      pose proof (Hxy 0 ltac:(done) (Hfree 0 ltac:(done))). pose proof (Hxy 1 ltac:(done) (Hfree 1 ltac:(done))).
      pose proof (Hxy 2 ltac:(done) (Hfree 2 ltac:(done))). lia. }
  destruct Hr as (i & j & k & -> & N1 & N2 & N3 & F1 & F2 & F3 & ->).
  set (c := Chain i j k b w (u32 (b_blockno bf * (BSIZE / 512)))).
  assert (Hf : fresh c s1).
  { split; [unfold c_ids; simpl; rewrite !NoDup_cons, !elem_of_cons, !elem_of_nil; split; [tauto|]; split; [tauto|]; split; [tauto|constructor]|].
    intros x Hx. assert (Ex : geti (vfree s1) x = Some 1).
    { unfold c_ids in Hx. simpl in Hx. rewrite !elem_of_cons, elem_of_nil in Hx. destruct Hx as [-> |[-> |[-> |[]]]]; done. }
    split; [|done]. apply geti_Some_lt in Ex. destruct (vi_len _ _ _ _ _ _ Hv1) as (_ & L2 & _). rewrite L2 in Ex.
    unfold NUM. lia. }
  assert (Hbuf : is_Some (geti (vbufs s1) (c_buf c))) by (by exists bf).
  pose proof (built_vinv c Hv1 Hf Hbuf (not_elem_of_nil _)) as Hv2.
  pose proof (published_vinv _ _ _ _ _ _ Hv2 (built_avail c Hv1)) as Hv3.
  exists c.
  unfold virtio_disk_rw. rewrite (bind_done _ _ _ _ _ (vget_ok _ _ _ _ _ Eb)).
  rewrite (bind_done _ _ _ _ _ (vacquire s Hl)). fold s1. rewrite Hfuel.
  assert (El : loop (S n) (fun _ : unit =>
      r <- alloc3_desc;;
      match r with Some idx => break idx | None => vsleep free_chan vdisk_lock;;; continue tt end) tt s1
    = Done [i; j; k] (s1 {{ vfree ::= fun l => seti k 0 (seti j 0 (seti i 0 l)) }})).
  { apply loop_break. by rewrite (bind_done _ _ _ _ _ Ea). }
  rewrite (bind_done _ _ _ _ _ El).
  rewrite (bind_done _ _ _ _ _ (format_request_eq _ _ _ _ _ _ c Hv1 Hf Hbuf)).
  rewrite straight_sync. erewrite bind_done by done.
  change (built c s1 {{ avail_idx ::= fun a => u16 (a + 1) }}) with (published (built c s1)).
  rewrite straight_sync. erewrite bind_done by done.
  match goal with |- context [straight (bind _ _ ?x)] => set (s3 := x) end.
  assert (Hq3 : same_queue (published (built c s1)) s3) by repeat split.
  pose proof (same_queue_vinv _ _ _ _ _ _ _ Hq3 Hv3) as Hv4.
  pose proof (vi_own _ _ _ _ _ _ Hv4 c ltac:(left)) as Eo. simpl in Eo.
  assert (Hl3 : vdisk_lock ∈ vheld s3) by (unfold s3, s1; cbn; set_solver).
  assert (Eloop : forall f : unit -> M vstate unit, exists k, straight (bind (loop (S n) (fun _ : unit =>
      d <- vget b_disk "b->disk" b;;
      if d =? 1 then vsleep (buf_chan b) vdisk_lock;;; continue tt else break tt) tt) f s3)
    = Sleep (buf_chan b) (unlocked s3) k /\
    forall s', vdisk_lock ∉ vheld s' -> k s' = bind (loop n (fun _ : unit =>
      d <- vget b_disk "b->disk" b;;
      if d =? 1 then vsleep (buf_chan b) vdisk_lock;;; continue tt else break tt) tt) f (locked vdisk_lock s')).
  { intros f. destruct (wait_sleeps b s3 Eo Hl3) as (k0 & E0 & Hk0).
    cbn [loop]. unfold bind at 1. unfold bind at 1. rewrite E0. cbn [bindp straight]. rewrite decide_False by done.
    eexists. split; [done|]. intros s' Hl'. cbv beta. rewrite Hk0 by done. done. }
  destruct (Eloop (fun _ => set_info i (fun n => n {{ in_b := -1 }});;; free_chain i;;; release vdisk_lock)) as (K & EK & HK).
  exists (unlocked s3), K. split; [exact EK|]. do 3 (split; [done|]).
  split; [eapply same_queue_vinv; [apply same_queue_unlocked|exact Hv4]|].
  split; [done|]. split; [done|]. split; [unfold unlocked; cbn; set_solver|]. exact HK.
Qed.

(** The device serves the one request. *)
Lemma dev_run_one c s bf :
  vinv [] s [c] [c_head c] [] [] -> geti (vbufs s) (c_buf c) = Some bf ->
  exists s', dev_run 8 s = s' /\ vinv [] s' [c] [] [c_head c] [] /\ vheld s' = vheld s /\ wakes s' = wakes s /\
    vbufs s' = vbufs (moved c bf s) /\ blocks s' = blocks (moved c bf s).
Proof.
  intros Hv Eb. destruct (ring_pop _ _ _ _ (vi_avail _ _ _ _ _ _ Hv)) as [Eh _].
  pose proof (vi_avail_idx _ _ _ _ _ _ Hv) as Ea. pose proof (vi_u16 _ _ _ _ _ _ Hv) as [Hu _].
  set (s1 := s {{ dev_seen ::= fun n => u16 (n + 1); dev_taken ::= fun l => l ++ [c_head c] }}).
  assert (E1 : dev_fetch s = Some s1).
  { unfold dev_fetch. destruct (Z.eqb_spec (dev_seen s) (avail_idx s)) as [E|_].
    - rewrite Ea in E. simpl in E. exfalso. revert E. unfold u16. zdiv.
    - by rewrite Eh. }
  destruct (vinv_fetch _ _ _ _ _ _ _ Hv E1) as (Q' & Hv1 & _).
  pose proof (vi_heads _ _ _ _ _ _ Hv) as Hp. simpl in Hp.
  assert (Et : dev_taken s = []).
  { apply Permutation_length in Hp. simpl in Hp. destruct (dev_taken s); [done|]. simpl in Hp. rewrite length_app in Hp. lia. }
  assert (Et1 : dev_taken s1 = [c_head c]) by (unfold s1; cbn; fold (dev_taken s); by rewrite Et).
  pose proof (vi_heads _ _ _ _ _ _ Hv1) as Hp1. rewrite Et1 in Hp1. apply Permutation_length in Hp1.
  simpl in Hp1. rewrite length_app in Hp1. simpl in Hp1. assert (Q' = []) as -> by (destruct Q'; [done|simpl in Hp1; lia]).
  assert (Ek : dev_taken s1 !! 0%nat = Some (c_head c)) by by rewrite Et1.
  destruct (dev_serve_eq _ _ _ _ _ _ _ _ Hv1 Ek) as (c' & bf' & Hc' & _ & Eb' & E2).
  apply list_elem_of_singleton in Hc' as ->. change (vbufs s1) with (vbufs s) in Eb'. rewrite Eb in Eb'. injection Eb' as <-.
  pose proof (vinv_served _ _ _ _ _ _ _ _ _ _ Hv1 Ek ltac:(left) eq_refl Eb) as Hv2.
  set (s2 := served 0 (c_head c) BSIZE (Info (c_buf c) 255) (moved c bf s1)) in *.
  assert (Es1 : dev_fetch s1 = None).
  { unfold dev_fetch. rewrite (proj2 (Z.eqb_eq _ _)); [done|]. rewrite (vi_avail_idx _ _ _ _ _ _ Hv1). simpl.
    rewrite Z.add_0_r. symmetry. apply u16_small, (vi_u16 _ _ _ _ _ _ Hv1). }
  assert (Et2 : dev_taken s2 = []) by (unfold s2, served, moved; destruct (c_write c); cbn; fold (dev_taken s); by rewrite Et).
  assert (E3 : dev_fetch s2 = None).
  { unfold dev_fetch. rewrite (proj2 (Z.eqb_eq _ _)); [done|]. rewrite (vi_avail_idx _ _ _ _ _ _ Hv2). simpl.
    rewrite Z.add_0_r. symmetry. apply u16_small, (vi_u16 _ _ _ _ _ _ Hv2). }
  assert (E4 : dev_serve 0 s2 = None) by (unfold dev_serve; by rewrite Et2).
  exists s2. split; [cbn [dev_run]; by rewrite E1, Es1, E2, E3, E4|]. split; [exact Hv2|].
  unfold s2, served, moved, s1. by destruct (c_write c).
Qed.

(** The handler finds it. *)
Lemma intr_one c n s :
  fuel = S (S n) -> vinv [] s [c] [] [c_head c] [] -> vdisk_lock ∉ vheld s ->
  exists s', straight (virtio_disk_intr s) = Done tt s' /\ vinv [] s' [c] [] [] [c_head c] /\
    (vdisk_lock ∉ vheld s') /\ wakes s' = wakes s ++ [buf_chan (c_buf c)] /\ vbufs s' = vbufs s /\ blocks s' = blocks s.
Proof.
  intros Hfuel Hv Hl. unfold virtio_disk_intr. rewrite (bind_done _ _ _ _ _ (vacquire s Hl)).
  erewrite bind_done by done. erewrite bind_done by done. rewrite straight_sync.
  match goal with |- context [straight (bind _ _ ?x)] => set (s1 := x) end.
  assert (Hq : same_queue s s1) by repeat split.
  pose proof (same_queue_vinv _ _ _ _ _ _ _ Hq Hv) as Hv1.
  destruct (handled_chain (c_head c) Hv1) as (c' & Hc' & _ & [m Eu] & Ei & Eo). apply list_elem_of_singleton in Hc' as ->.
  pose proof (handled_vinv (c_head c) Hv1 c ltac:(left) eq_refl) as Hv2.
  set (s2 := handled (c_buf c) s1) in *.
  assert (R1 : straight (intr_round s1) = Done (inl tt) s2).
  { unfold intr_round. erewrite bind_done by done. rewrite (proj2 (Z.eqb_neq (used_idx s1) (dev_idx s1))).
    - cbn [negb]. rewrite straight_sync. erewrite bind_done by done.
      rewrite (bind_done _ _ _ _ _ (vget_ok _ _ _ _ _ Eu)). cbn [fst].
      rewrite (bind_done _ _ _ _ _ (vget_ok _ _ _ _ _ Ei)). cbn [in_status in_b]. change (negb (0 =? 0)) with false.
      cbv iota. rewrite (bind_done _ _ _ _ _ (set_bdisk_ok _ _ _ Eo)). done.
    - rewrite (vi_used_idx _ _ _ _ _ _ Hv1). simpl. pose proof (vi_u16 _ _ _ _ _ _ Hv1) as [_ Hu].
      intros E. revert E. unfold u16. zdiv. }
  assert (R2 : straight (intr_round s2) = Done (inr tt) s2).
  { unfold intr_round. erewrite bind_done by done. rewrite (proj2 (Z.eqb_eq (used_idx s2) (dev_idx s2))); [done|].
    rewrite (vi_used_idx _ _ _ _ _ _ Hv2). simpl. rewrite Z.add_0_r. symmetry. apply u16_small, (vi_u16 _ _ _ _ _ _ Hv2). }
  assert (Hl2 : vdisk_lock ∈ vheld s2) by (unfold s2, s1; cbn; set_solver).
  exists (unlocked s2). split.
  - erewrite straight_bind; [by rewrite (vrelease s2 Hl2)|].
    rewrite Hfuel. cbn [loop]. erewrite straight_bind by exact R1. cbv iota.
    erewrite straight_bind by exact R2. done.
  - split; [eapply same_queue_vinv; [apply same_queue_unlocked|exact Hv2]|].
    split; [unfold unlocked; cbn; set_solver|]. done.
Qed.

(** The call goes on and is done. *)
Lemma rest_one c n s :
  vinv [] s [c] [] [] [c_head c] -> vdisk_lock ∈ vheld s -> NBUF <= Z.of_nat (length (vbufs s)) ->
  exists s', rest c (S n) s = Done tt s' /\ quiescent s' /\ vbufs s' = vbufs s /\ blocks s' = blocks s.
Proof.
  intros Hv Hl Hn. pose proof (vi_own _ _ _ _ _ _ Hv c ltac:(left)) as Eo. rewrite decide_True in Eo by left.
  pose proof (vi_info _ _ _ _ _ _ Hv c ltac:(left)) as Ei. rewrite decide_True in Ei by left.
  pose proof (released_vinv (R' := []) (Dn' := []) c Hv ltac:(done) ltac:(done)) as Hv'.
  exists (unlocked (released c s)). split; [|split; [|done]].
  - unfold rest. erewrite bind_done.
    2:{ apply loop_break. by rewrite (bind_done _ _ _ _ _ (vget_ok _ _ _ _ _ Eo)). }
    erewrite bind_done by (by eapply set_info_ok).
    rewrite (bind_done _ _ _ _ _ (free_chain_eq (R' := []) (Dn' := []) c Hv ltac:(done) ltac:(done))).
    by apply vrelease.
  - split; [by eapply unlocked_good|]. intros b c' _ Hch.
    pose proof (same_queue_vinv _ _ _ _ _ _ _ (same_queue_unlocked _) Hv') as Hv2.
    by apply (has_chain_in Hv2), not_elem_of_nil in Hch.
Qed.

(** A call of virtio_disk_rw() runs to its end. *)
Lemma alone_rw n m b w s bf :
  fuel = S (S n) -> quiescent s -> geti (vbufs s) b = Some bf -> 0 <= b_blockno bf < 2 ^ 31 ->
  exists s', alone (S m) (virtio_disk_rw b w s) = Done tt s' /\ quiescent s' /\
    vbufs s' = (if w then vbufs s else seti b (bf {{ b_data := Bio.block (blocks s) (b_blockno bf) }}) (vbufs s)) /\
    blocks s' = (if w then (blocks s) {{ d_writes ::= fun l => l ++ [(b_blockno bf, b_data bf)] }} else blocks s).
Proof.
  intros Hfuel Hq Eb Hr.
  destruct (rw_sleeps (S n) b w s bf Hfuel Hq Eb) as (c & s1 & k & E1 & Ec & Ew & Es & Hv1 & V1 & B1 & Hl1 & Hk).
  assert (Hs : c_sector c / (BSIZE / 512) = b_blockno bf).
  { rewrite Es. unfold BSIZE. change (1024 / 512) with 2. rewrite u32_small by lia. zdiv. }
  assert (Eb1 : geti (vbufs s1) (c_buf c) = Some bf) by (by rewrite V1, Ec).
  destruct (dev_run_one c s1 bf Hv1 Eb1) as (s2 & E2 & Hv2 & L2 & W2 & V2 & B2).
  assert (Hl2 : vdisk_lock ∉ vheld s2) by (by rewrite L2).
  destruct (intr_one c n s2 Hfuel Hv2 Hl2) as (s3 & E3 & Hv3 & Hl3 & W3 & V3 & B3).
  assert (Hlen : NBUF <= Z.of_nat (length (vbufs s3))).
  { rewrite V3, V2. destruct Hq as [(_ & Hn & _) _]. unfold moved. destruct (c_write c); cbn; rewrite ?length_seti;
      fold (vbufs s1); by rewrite V1. }
  pose proof (same_queue_vinv _ _ _ _ _ _ _ (same_queue_locked vdisk_lock s3) Hv3) as Hv4.
  destruct (rest_one c n (locked vdisk_lock s3) Hv4) as (s4 & E4 & Hq4 & V4 & B4); [set_solver|done|].
  exists s4. split; [|split; [done|]].
  - cbn [alone]. rewrite E1, E2, E3. rewrite decide_True.
    + rewrite Hk by done. destruct m; cbn [alone]; by rewrite E4.
    + rewrite W3, W2, drop_app_length. rewrite Ec. left.
  - rewrite V4, B4. change (vbufs (locked vdisk_lock s3)) with (vbufs s3). change (blocks (locked vdisk_lock s3)) with (blocks s3).
    rewrite V3, V2, B3, B2. unfold moved. rewrite Ew, Hs, Ec. rewrite <- V1, <- B1. by destruct w.
Qed.

End Run.

(** ** Initialisation *)

Lemma bind_inv {S A B} (m : M S A) (f : A -> M S B) s b s' :
  bind m f s = Done b s' -> exists a s1, m s = Done a s1 /\ f a s1 = Done b s'.
Proof. unfold bind. destruct (m s); try done. eauto. Qed.

(** The static contents of [disk] before virtio_disk_init(), and a device that
    has not looked at the queue. *)
Record at_boot (s : vstate) : Prop := {
  ab_tables : length (vfree s) = 8%nat /\ length (info s) = 8%nat /\ length (ops s) = 8%nat;
  ab_bufs : length (b_disk s) = length (vbufs s) /\ NBUF <= Z.of_nat (length (vbufs s));
  ab_used : used_idx s = 0;
  ab_dev : dev_seen s = 0 /\ dev_taken s = [];
  ab_lock : vdisk_lock ∉ vheld s;
}.

Lemma in_vram_inv {A} (m : M phys A) s a s' : in_vram m s = Done a s' -> exists c, s' = s {{ vram := c }}.
Proof. unfold in_vram, zoom. destruct (m (lget vram_lens s)) as [x c| | | |]; simpl; try done. intros [= _ <-]. by exists c. Qed.

(** Take the first operation off a run that is done. *)
Ltac first_op E :=
  let E1 := fresh "E1" in
  apply bind_inv in E as (? & ? & E1 & E);
  first [ injection E1 as <- <-
        | apply in_vram_inv in E1 as [? ->]
        | idtac ].

(** The loop that frees every descriptor. *)
Lemma free_all_runs s :
  length (vfree s) = 8%nat ->
  runs (for_to NUM (fun i => set_free i 1;;; ret None) (ret tt)) s
    (fun _ s' => exists l, s' = s {{ vfree := l }} /\ length l = 8%nat /\ forall i, 0 <= i < NUM -> geti l i = Some 1).
Proof.
  intros Hl. apply (wp_for_to _ _ _ _ (fun n s' => exists l, s' = s {{ vfree := l }} /\ length l = 8%nat /\
    forall i, 0 <= i < n -> geti l i = Some 1)).
  - done.
  - exists (vfree s). split; [by destruct s|]. split; [done|lia].
  - intros i ? Hi (l & -> & Hl8 & Hz). destruct (geti_8 l i Hl8 Hi) as [x Ex].
    unfold bind. rewrite set_free_ok by (by exists x). simpl.
    exists (seti i 1 l). split; [done|]. split; [by rewrite length_seti|].
    intros j Hj. destruct (decide (i = j)) as [-> |Hne].
    + apply geti_seti_eq. rewrite Hl8. unfold NUM in Hi. lia.
    + rewrite geti_seti_ne by done. apply Hz. lia.
  - intros ? Hs. exact Hs.
Qed.

Section Theorems.
Context `{Fuel} `{Registers}.

(** What initialisation leaves: an empty queue and eight free descriptors. *)
Lemma init_queue s s' :
  virtio_disk_init s = Done tt s' -> length (vfree s) = 8%nat ->
  exists l qp vr mm,
    s' = s {{ vram := vr; qpages := qp; mmio := mm; vfree := l;
              desc := replicate 8 (Desc VNull 0 0 0); avail_idx := 0; avail_ring := replicate 8 0;
              dev_idx := 0; used_ring := replicate 8 (0, 0) }} /\
    length l = 8%nat /\ forall i, 0 <= i < NUM -> geti l i = Some 1.
Proof.
  intros E Hl. unfold virtio_disk_init in E. do 4 first_op E.
  destruct (_ || _); [done|]. do 6 first_op E. cbv zeta in E. first_op E.
  destruct (_ =? 0); [done|]. do 2 first_op E. destruct (negb _); [done|]. first_op E.
  destruct (_ =? 0); [done|]. destruct (_ <? NUM); [done|]. do 4 first_op E.
  destruct (_ || _); [done|]. do 12 first_op E.
  match type of E with bind _ _ ?x = _ => assert (Hlx : length (vfree x) = 8%nat) by exact Hl;
    destruct (wp_done_inv _ _ (free_all_runs x Hlx)) as ([] & s1 & E2 & l & -> & Hl8 & Hz) end.
  rewrite (bind_done _ _ _ _ _ E2) in E. injection E as <-.
  exists l. do 3 eexists. split; [|done]. reflexivity.
Qed.

Lemma empty_vinv s l :
  at_boot s -> length l = 8%nat -> (forall i, 0 <= i < NUM -> geti l i = Some 1) ->
  desc s = replicate 8 (Desc VNull 0 0 0) -> avail_idx s = 0 -> avail_ring s = replicate 8 0 ->
  dev_idx s = 0 -> used_ring s = replicate 8 (0, 0) -> vfree s = l -> vinv [] s [] [] [] [].
Proof.
  intros [(T1 & T2 & T3) [B1 B2] U [D1 D2] L] Hl Hz E1 E2 E3 E4 E5 E6.
  split; try (intros c Hc; by apply not_elem_of_nil in Hc).
  - rewrite E1, E3, E5, E6. done.
  - rewrite D1, U. done.
  - constructor.
  - constructor.
  - intros i Hi. rewrite E6, decide_False; [by apply Hz|]. intros (c & Hc & _)%ids_elem. by apply not_elem_of_nil in Hc.
  - by rewrite D2.
  - done.
  - by rewrite E2, D1.
  - done.
  - by rewrite E4, U.
Qed.

(** virtio_disk_init() panics when one of the four identification registers
    is not that of a virtio block device, and whenever it returns the queue is
    empty, its eight descriptors are free, no request is in flight and nobody
    holds the lock. *)
Theorem virtio_disk_init_empty s :
  at_boot s ->
  (reg_read (mmio s) VIRTIO_MMIO_MAGIC_VALUE <> 0x74726976 \/ reg_read (mmio s) VIRTIO_MMIO_VERSION <> 2 \/
   reg_read (mmio s) VIRTIO_MMIO_DEVICE_ID <> 2 \/ reg_read (mmio s) VIRTIO_MMIO_VENDOR_ID <> 0x554d4551 ->
   virtio_disk_init s = Panic "could not find virtio disk") /\
  forall s', virtio_disk_init s = Done tt s' ->
    quiescent s' /\ desc s' = replicate 8 (Desc VNull 0 0 0) /\ (forall i, 0 <= i < NUM -> geti (vfree s') i = Some 1).
Proof.
  intros Hb. split.
  - intros Hm. unfold virtio_disk_init. do 4 erewrite bind_done by done.
    rewrite <- !Z.eqb_neq in Hm. destruct Hm as [-> |[-> |[-> | ->]]]; cbn [negb orb]; rewrite ?orb_true_r; done.
  - intros s' E. destruct (init_queue s s' E) as (l & qp & vr & mm & -> & Hl & Hz); [apply Hb|].
    split; [|done].
    match goal with |- quiescent ?x => set (s1 := x) end.
    assert (Hb1 : at_boot s1) by (destruct Hb as [(T1 & T2 & T3) ? ? ? ?]; by split).
    assert (Hv : vinv [] s1 [] [] [] []) by by apply (empty_vinv s1 l).
    split.
    + split; [apply Hb|]. split; [apply Hb|]. by exists [], [], [], [].
    + intros b c _ Hc. by apply (has_chain_in Hv), not_elem_of_nil in Hc.
Qed.

Context (dev : vstate -> vstate -> Prop).
Hypothesis dev_spec : forall s s', dev s s' -> dev_step s s'.

(** C8: any number of processes call virtio_disk_rw() on different buffers, the
    device works and its interrupts are handled, in any interleaving that the
    lock allows, with the device also running at every barrier: in every state
    they reach, no process has panicked ("free_desc", "virtio_disk_intr status")
    or followed a bad index, a call that is done has transferred its buffer to or
    from its block at one point between its start and its end, and whenever the
    lock is free the queue is in order (each descriptor is free or belongs to one
    request, each request is at one place). *)
Theorem virtio_safe s0 s ts :
  (3 <= fuel)%nat -> quiescent s0 ->
  rtc (pool_step dev sync_chan vallowed vcompat vstart) (s0, ∅) (s, ts) ->
  (forall n t, ts !! n = Some t -> thread_safe vpost t) /\ (quiet sync_chan ts -> vgood s).
Proof using dev_spec.
  intros Hf [Hg Hi] Hr.
  apply (pool_safe dev sync_chan ordered vgood True vallowed vcompat vstart vrely vpre vpost) with (s0 := s0).
  - intros [[b w]|] [[b' w']|]; simpl; auto.
  - apply vrely_refl.
  - apply vrely_trans.
  - apply vgood_ordered.
  - intros x y Hx Hd. by eapply ordered_dev.
  - intros i x y Hx Hd. by eapply vrely_dev.
  - intros x y. by apply vgood_dev.
  - apply vpre_rely.
  - apply vpre_conflict.
  - intros i x. by apply vstart_rg.
  - done.
  - intros [[b w]|]; [apply Hi|done].
  - done.
Qed.

(** C40: the interrupt handler comes to an end whatever the device does in the
    meantime: three rounds are enough, because at most two requests fit in the
    eight descriptors.  It does not panic, gives the lock back, and leaves every
    request as it is. *)
Theorem virtio_intr_terminates s :
  (3 <= fuel)%nat -> vgood s ->
  rg dev sync_chan ordered vgood False (fun _ _ => True) (G vcompat vrely None) s (virtio_disk_intr s)
    (fun _ s1 s' => G vcompat vrely None s1 s' /\ vgood s').
Proof using dev_spec. intros Hf Hg. by apply virtio_disk_intr_rg. Qed.

(** C17: what bio.c relies on ([DiskDriver]): a call of virtio_disk_rw() by a process
    that is alone with the device is done after one sleep, from which the handler
    wakes it up, and its effect on the buffers and the blocks is that of the
    synchronous driver of Bio.v. *)
Theorem virtio_implements_disk n m b w s bf k :
  fuel = S (S n) -> quiescent s -> geti (vbufs s) b = Some bf -> 0 <= b_blockno bf < 2 ^ 31 ->
  bufs k = vbufs s -> disk k = blocks s ->
  exists s', alone (S m) (virtio_disk_rw b w s) = Done tt s' /\ quiescent s' /\
    sync_rw b w k = Done tt (k {{ bufs := vbufs s'; disk := blocks s' }}).
Proof.
  intros Hf Hq Eb Hr Hb Hd. destruct (alone_rw n m b w s bf Hf Hq Eb Hr) as (s' & E & Hq' & V & B).
  exists s'. split; [done|]. split; [done|]. rewrite V, B, <- Hb, <- Hd. rewrite <- Hb in Eb.
  unfold sync_rw. erewrite bind_done by (by apply elem_ok). destruct w; unfold modify; by destruct k.
Qed.

End Theorems.

(** ** A small machine *)

Definition disk_boot : vstate := {|
  desc := []; avail_idx := 0; avail_ring := []; dev_idx := 0; used_ring := [];
  vfree := replicate 8 0; used_idx := 0; info := replicate 8 (Info 0 0); ops := replicate 8 (BlkReq 0 0 0);
  qpages := []; vbufs := replicate 31 blank_buf; b_disk := replicate 31 0;
  blocks := Disk (fun _ => replicate 1024 0) []; dev_seen := 0; dev_taken := [];
  vram := before_fork; mmio := []; wakes := []; vheld := ∅ |}.

(** Registers of a virtio block device; the status register reads back. *)
Definition blk_registers : Registers := fun ws r =>
  if r =? VIRTIO_MMIO_MAGIC_VALUE then 0x74726976
  else if r =? VIRTIO_MMIO_VERSION then 2
  else if r =? VIRTIO_MMIO_DEVICE_ID then 2
  else if r =? VIRTIO_MMIO_VENDOR_ID then 0x554d4551
  else if r =? VIRTIO_MMIO_QUEUE_NUM_MAX then 1024
  else if r =? VIRTIO_MMIO_STATUS then default 0 (snd <$> last (filter (fun p => fst p = r) ws))
  else 0.

Definition is_done {S A} (p : prog S A) : bool := match p with Done _ _ => true | _ => false end.

Lemma is_done_done {S A} (p : prog S A) : is_done p = true -> exists a s, p = Done a s.
Proof. destruct p; try done. eauto. Qed.

Lemma disk_boot_at_boot : at_boot disk_boot.
Proof. by split. Qed.

Lemma virtio_disk_init_empty_witness : exists s', virtio_disk_init (H0 := blk_registers) disk_boot = Done tt s' /\ quiescent s'.
Proof.
  destruct (is_done_done (virtio_disk_init (H0 := blk_registers) disk_boot)) as ([] & s' & E); [vm_compute; reflexivity|].
  destruct (virtio_disk_init_empty (H0 := blk_registers) disk_boot disk_boot_at_boot) as [_ Hd].
  exists s'. split; [exact E|]. by destruct (Hd s' E).
Defined.

(** The machine after initialisation, and a request in it. *)
Definition disk_idle : vstate := disk_boot {{
  vfree := replicate 8 1; desc := replicate 8 (Desc VNull 0 0 0);
  avail_ring := replicate 8 0; used_ring := replicate 8 (0, 0) }}.

Lemma disk_idle_quiescent : quiescent disk_idle.
Proof.
  assert (Hb : at_boot disk_idle) by by split.
  assert (Hv : vinv [] disk_idle [] [] [] []).
  { apply (empty_vinv disk_idle (replicate 8 1)); try done. intros i Hi. unfold geti.
    rewrite (proj2 (Z.leb_le 0 i)) by lia. apply lookup_replicate_2. unfold NUM in Hi. lia. }
  split.
  - split; [apply not_elem_of_empty|]. split; [done|]. by exists [], [], [], [].
  - intros b c _ Hc. by apply (has_chain_in Hv), not_elem_of_nil in Hc.
Qed.

#[local] Instance four : Fuel := 4%nat.

Lemma four_ok : (3 <= fuel)%nat.
Proof. unfold fuel, four. lia. Qed.

Lemma virtio_safe_witness :
  exists s ts t, rtc (pool_step dev_step sync_chan vallowed vcompat (vstart (H0 := blk_registers))) (disk_idle, ∅) (s, ts) /\
    ts !! 0%nat = Some t /\ at_barrier sync_chan t /\ thread_safe vpost t.
Proof.
  pose (t := Thread (Some (0, true)) disk_idle (vstart (H0 := blk_registers) (Some (0, true)) disk_idle)).
  assert (Hr : rtc (pool_step dev_step sync_chan vallowed vcompat (vstart (H0 := blk_registers))) (disk_idle, ∅)
    (at_yield (t_prog t) disk_idle, <[0%nat := t]> ∅)).
  { apply rtc_once. apply (PStart dev_step sync_chan vallowed vcompat (vstart (H0 := blk_registers)) 0%nat (Some (0, true)) disk_idle ∅).
    - done.
    - apply lookup_empty.
    - intros m u. by rewrite lookup_empty.
    - intros m u. by rewrite lookup_empty.
    - vm_compute. exact I. }
  destruct (virtio_safe (H0 := blk_registers) dev_step ltac:(done) disk_idle (at_yield (t_prog t) disk_idle) (<[0%nat := t]> ∅)
    four_ok disk_idle_quiescent Hr) as [Hs _].
  eexists _, _, t. split; [exact Hr|]. split; [apply lookup_insert_eq|]. split; [vm_compute; reflexivity|].
  apply (Hs 0%nat). apply lookup_insert_eq.
Defined.

Lemma virtio_intr_terminates_witness :
  rg dev_step sync_chan ordered vgood False (fun _ _ => True) (G vcompat vrely None) disk_idle
    (virtio_disk_intr (H0 := blk_registers) disk_idle)
    (fun _ s1 s' => G vcompat vrely None s1 s' /\ vgood s').
Proof.
  apply (virtio_intr_terminates (H0 := blk_registers) dev_step); [done|apply four_ok|apply disk_idle_quiescent].
Defined.

Lemma virtio_implements_disk_witness :
  exists s', alone (H0 := blk_registers) 1 (virtio_disk_rw 7 true disk_idle) = Done tt s' /\ quiescent s'.
Proof.
  destruct (virtio_implements_disk (H0 := blk_registers) 2 0 7 true disk_idle blank_buf demo_kernel)
    as (s' & E & Hq & _); try done.
  - apply disk_idle_quiescent.
  - exists s'. split; [exact E|exact Hq].
Defined.
