(* ===== verification/LogTxn.v ===== *)
(** A transaction while file-system calls build it: log_write() pins a block,
    and what the calls change is seen through the cache only. *)

From stdpp Require Import functions.
From S2P Require Import Prelude Mem Riscv Locks Kalloc Vm Proc ProcFacts Kernel KernelFacts Sleeplock Bio BioRing BioFacts Bytes Log LogProps LogCrash LogInstall LogCommit.

(** Blocks that can be logged: none of the [size] blocks of the log itself, on a
    disk of less than 2^31 blocks. *)
Definition loggable (start size b : Z) : Prop := 0 <= b < 2 ^ 31 /\ ~ (start <= b < start + size).

Section txn.
Context (D me : Z).

#[local] Abbreviation bc := (bc D me).
#[local] Abbreviation content := (content D).
#[local] Abbreviation taken := (taken D me).

(** The running transaction has the blocks [homes]; nothing of it is on the disk. *)
Record in_txn (r : Z -> Z) (h : gset Z) (start : Z) (homes : list Z) (s : kernel) : Prop := {
  it_bc : bc r h s;
  it_ok : log_ok (klog s);
  it_dev : l_dev (klog s) = D;
  it_start : l_start (klog s) = start;
  it_homes : logged (klog s) = homes;
  it_range : Forall (loggable start (l_size (klog s))) homes;
  it_fits : lh_n (klog s) < l_size (klog s);
  it_pinned : forall b, b ∈ homes -> pinned D r s b;
  it_empty : heads (block (disk s) start) [];
  it_out : 1 <= outstanding (klog s);
}.

(** It can be committed when the calls have ended. *)
Lemma in_txn_ready r start homes s : in_txn r ∅ start homes s -> spare r -> ready D me r start homes s.
Proof.
  intros [Hi (Hlen & Hn & Hnd) Hd Hs Hh Hr Hf Hp He _] Hsp.
  assert (Z.of_nat (length homes) = lh_n (klog s)) as Hln.
  { rewrite <- Hh. unfold logged. rewrite length_take. lia. }
  assert (forall t h, homes !! t = Some h -> geti (lh_block (klog s)) (Z.of_nat t) = Some h) as Hat.
  { intros t h Ht. pose proof (lookup_lt_Some _ _ _ Ht). rewrite <- Hh in Ht. unfold logged in Ht.
    apply geti_of_nat. by rewrite lookup_take_lt in Ht by lia. }
  rewrite Forall_forall in Hr. split; try done.
  - split; [done|done|lia|done|by rewrite <- Hh|]. intros h Hin. destruct (Hr h Hin) as [_ Ho]. lia.
  - split; [lia|done|lia|]. apply Forall_forall. intros h Hin. by destruct (Hr h Hin).
Qed.

(** Pinning a held buffer. *)
Definition repinned (x : buf) : buf := x {{ b_refcnt := u32 (b_refcnt x + 1) }}.

Lemma pin_bc r h s i x :
  bc r h s -> i ∈ h -> geti (bufs s) i = Some x -> r i + 1 < 2 ^ 31 ->
  let r' := <[i := r i + 1]> r in let s' := with_buf i (repinned x) s in
  bc r' h s' /\ (forall b, content s' b = content s b) /\ (forall P, stable P s s').
Proof.
  intros Hi Hih Hx H31 r' s'. destruct (bc_ref _ _ _ _ _ Hi i x Hx) as [Hrc Hri].
  rewrite decide_True in Hrc by done. assert (r' i = r i + 1) as Hr'i by apply fn_lookup_insert.
  assert (forall j, j <> i -> r' j = r j /\ (j ∈ h <-> j ∈ h)) as Hoth.
  { intros j Hj. split; [by apply fn_lookup_insert_ne|done]. }
  assert (b_refcnt (repinned x) = r' i + (if decide (i ∈ h) then 1 else 0)) as Href.
  { rewrite decide_True, Hr'i by done. change (u32 (b_refcnt x + 1) = r i + 1 + 1).
    rewrite Hrc, u32_small; lia. }
  assert (if decide (i ∈ h) then b_lock (repinned x) = b_lock x else sl_locked (b_lock (repinned x)) = 0) as Hlk
    by (by rewrite decide_True).
  split_and!.
  - apply (drop_bc D me r r' h h s i x (repinned x)); auto; [done|lia|done].
  - apply (drop_content D me r r' h h s i x (repinned x)); auto; [done|lia|done].
  - intros P. by apply (drop_stable s i x).
Qed.

(** The blocks after log_write of block [b]. *)
Definition add_home (b : Z) (homes : list Z) : list Z :=
  if decide (b ∈ homes) then homes else homes ++ [b].

Lemma absorbed b l :
  log_ok l -> (absorb (lh_block l) (Z.to_nat (lh_n l)) b =? lh_n l) = negb (bool_decide (b ∈ logged l)).
Proof.
  intros (Hlen & Hn & _). destruct (absorb_spec (lh_block l) (Z.to_nat (lh_n l)) b) as (Hr & Hin & _).
  fold (logged l) in Hin.
  assert (Z.of_nat (Nat.min (Z.to_nat (lh_n l)) (length (lh_block l))) = lh_n l) as Hm by lia.
  rewrite Hm in *. destruct (bool_decide_reflect (b ∈ logged l)) as [Hb|Hb]; cbn [negb].
  - apply Z.eqb_neq. apply Hin in Hb. lia.
  - apply Z.eqb_eq. destruct (decide (absorb (lh_block l) (Z.to_nat (lh_n l)) b < lh_n l)); [tauto|lia].
Qed.

Lemma stable_refl P s : stable P s s.
Proof. intros j x Hx Hv _. by exists x. Qed.

Context `{Fuel} `{DiskDriver} (n : nat) (Hfuel : fuel = Datatypes.S n).

(** The log has room for one more block. *)
Definition log_room (l : logstate) : Prop := lh_n l < LOGSIZE /\ lh_n l < l_size l - 1.

Lemma log_write_spec r h start homes s i x b :
  in_txn r h start homes s -> i ∈ h -> geti (bufs s) i = Some x -> b_blockno x = b ->
  loggable start (l_size (klog s)) b -> log_room (klog s) -> r i + 1 < 2 ^ 31 ->
  exists r' s', log_write i s = Done tt s' /\ in_txn r' h start (add_home b homes) s' /\
    (forall b', content s' b' = content s b') /\ (forall P, stable P s s') /\
    disk s' = disk s /\ (forall j, j <> i -> r' j = r j) /\ 0 < r' i <= r i + 1.
Proof.
  intros Hit Hih Hx Hb Hbl [Hn1 Hn2] H31. pose proof Hbl as [Hbr Hbo]. pose proof Hit as [Hi Hok Hd Hs Hh Hr Hf Hp He Ho].
  pose proof (po_held _ _ (bc_proc _ _ _ _ _ Hi)) as Hheld.
  pose proof (bc_lock _ _ _ _ _ Hi i x Hx) as Hlk. rewrite decide_True in Hlk by done.
  destruct (bc_ref _ _ _ _ _ Hi i x Hx) as [_ Hri].
  pose proof (log_write_eq i x s Hx ltac:(rewrite Hheld; set_solver) ltac:(rewrite Hheld; set_solver)
    Hn1 Hn2 Ho) as E. cbv zeta in E. rewrite Hb, i32_small in E by lia.
  rewrite (absorbed b _ Hok), Hh in E. unfold pin_new in E. rewrite Hx in E.
  destruct (add_block_spec b (klog s) Hok Hn1) as (Hok' & Hlog' & Hn' & Ho' & _ & Hsz'). rewrite Hh in Hlog'.
  assert (l_dev (add_block b (klog s)) = D /\ l_start (add_block b (klog s)) = start /\
    1 <= outstanding (add_block b (klog s))) as (Hd' & Hs' & Hout').
  { rewrite Ho'. rewrite <- Hd, <- Hs. unfold add_block. by destruct (klog s), (_ =? _). }
  assert (lh_n (add_block b (klog s)) < l_size (add_block b (klog s))) as Hf'.
  { rewrite Hn', Hsz'. case_decide; lia. }
  rewrite <- Hsz' in Hr, Hbl.
  unfold add_home. destruct (bool_decide_reflect (b ∈ homes)) as [Hin|Hin]; cbn [negb] in E.
  - rewrite decide_True in * by done. exists r, (with_log (add_block b (klog s)) s). split; [rewrite E; by destruct s|].
    split_and!; [|done|intros P; by apply (stable_refl P s)|done|done| |lia].
    + split; [|done..].
      by apply with_log_bc.
    + apply (pinned_held D me r h s i x b Hi); [by apply Hp|done|split; [apply Hlk|done]].
  - rewrite decide_False in * by done. destruct (pin_bc r h s i x Hi Hih Hx H31) as (Hi1 & Hc1 & Hs1).
    set (s1 := with_buf i (repinned x) s) in *. set (r' := <[i := r i + 1]> r) in *.
    assert (r' i = r i + 1) as Hr'i by apply fn_lookup_insert.
    assert (forall j, j <> i -> r' j = r j) as Hr'j by (intros j Hj; by apply fn_lookup_insert_ne).
    exists r', (with_log (add_block b (klog s)) s1). split.
    + rewrite E. destruct s; done.
    + split_and!; try done; [|lia..].
      split; [by apply with_log_bc|done..| |done| |done|done].
      * apply Forall_app. split; [done|]. by constructor.
      * intros g [Hg| ->%list_elem_of_singleton]%elem_of_app.
        { apply (pinned_step D (fun _ => True) r' s); [apply Hs1|done|].
          destruct (Hp g Hg) as (j & z & Hz & Hb' & Hv & Hrj). exists j, z. split_and!; try done.
          destruct (decide (j = i)) as [->|Hj]; [lia|]. by rewrite Hr'j. }
        { exists i, (repinned x). split_and!; [by eapply with_buf_here|split; [apply Hlk|done]|..|lia].
          change (b_valid x <> 0). lia. }
Qed.

Lemma in_txn_step r h h' start homes s s' :
  in_txn r h start homes s -> bc r h' s' -> klog s' = klog s -> disk s' = disk s ->
  (forall g, pinned D r s g -> pinned D r s' g) -> in_txn r h' start homes s'.
Proof using.
  intros [Hi Hok Hd Hs Hh Hr Hf Hp He Ho] Hi' Hk Hdk Hpp.
  split; rewrite ?Hk, ?Hdk; auto.
Qed.

Lemma store_pinned r s i x data g :
  geti (bufs s) i = Some x -> pinned D r s g -> pinned D r (with_buf i (stored data x) s) g.
Proof using.
  intros Hx (j & z & Hz & Hb & Hv & Hr). destruct (decide (j = i)) as [->|Hne].
  - assert (z = x) as -> by congruence. exists i, (stored data x). by split; [eapply with_buf_here|].
  - exists j, z. split; [|done]. unfold with_buf. simpl. by rewrite geti_seti_ne.
Qed.

(** A buffer for block [b] can be had. *)
Definition available (r : Z -> Z) (s : kernel) (b : Z) : Prop :=
  spare r \/ exists j z, geti (bufs s) j = Some z /\ for_block D b z.

Lemma bread_available r s b :
  bc r ∅ s -> available r s b ->
  exists i y, bread D b s = Done i (with_buf i y s) /\ taken r ∅ s b i y.
Proof.
  intros Hi [Hsp|Hc].
  - apply (bread_spec D me n Hfuel); [done|set_solver|by apply spare_one].
  - apply (bread_cached D me n Hfuel); [done|set_solver|done].
Qed.

(** What file-system code does to a block: read it, change some bytes, log it. *)
Definition logged_store (b off : Z) (bytes : list Z) : M kernel unit :=
  bind (bread D b) (fun bp =>
  bind (bstore bp off bytes) (fun _ =>
  bind (log_write bp) (fun _ => brelse bp))).

Lemma logged_store_spec r start homes s b off bytes :
  in_txn r ∅ start homes s -> available r s b -> loggable start (l_size (klog s)) b -> log_room (klog s) ->
  (forall i, r i + 1 < 2 ^ 31) -> 0 <= off -> (Z.to_nat off + length bytes <= bsize)%nat ->
  exists r' s', logged_store b off bytes s = Done tt s' /\ in_txn r' ∅ start (add_home b homes) s' /\
    (forall b', content s' b' = if decide (b' = b) then splice off bytes (content s b) else content s b') /\
    disk s' = disk s.
Proof.
  intros Hit Hav Hlb Hroom H31 Hoff Hlen. pose proof (it_bc _ _ _ _ _ Hit) as Hi.
  destruct (bread_available r s b Hi Hav) as (i & y & E1 & T1).
  pose proof (taken_here D me _ _ _ _ _ _ T1 (taken_is_Some D me _ _ _ _ _ _ Hi T1)) as Hy.
  set (s1 := with_buf i y s) in *. pose proof (tk_bc _ _ _ _ _ _ _ _ T1) as Hi1.
  destruct (tk_block _ _ _ _ _ _ _ _ T1) as [_ Hbn]. pose proof (tk_data _ _ _ _ _ _ _ _ T1) as Hyd.
  assert (i ∈ ({[i]} ∪ ∅ : gset Z)) as Hin by set_solver.
  set (data := splice off bytes (b_data y)).
  assert (length data = bsize) as Hl.
  { pose proof (bc_len _ _ _ _ _ Hi1 i y Hy) as Hly. unfold data. rewrite splice_length; [done|done|by rewrite Hly]. }
  pose proof (store_bc D me r _ s1 i y data Hi1 Hin Hy Hl) as Hi2.
  pose proof (store_content D me r _ s1 b i y data Hi1 Hin Hy Hbn Hl) as Hc2.
  pose proof (fun g => store_pinned r s1 i y data g Hy) as Hp2.
  set (s2 := with_buf i (stored data y) s1) in *.
  assert (in_txn r ({[i]} ∪ ∅) start homes s2) as Hit2.
  { apply (in_txn_step r ∅ _ start homes s); try done. intros g Hg. apply Hp2.
    apply (pinned_step D (kept r ∅) r s); [apply T1|by left|done]. }
  assert (geti (bufs s2) i = Some (stored data y)) as Hy2 by by eapply with_buf_here.
  destruct (log_write_spec r _ start homes s2 i (stored data y) b Hit2 Hin Hy2 Hbn Hlb Hroom (H31 i)) as
    (r' & s3 & E3 & Hit3 & Hc3 & Hs3 & Hd3 & Hr3 & Hri3).
  pose proof (it_bc _ _ _ _ _ Hit3) as Hi3.
  destruct (Hs3 (fun _ => True) i (stored data y) Hy2) as (z & Hz & _); [|done|].
  { change (b_valid y <> 0). rewrite (tk_valid _ _ _ _ _ _ _ _ T1). lia. }
  destruct (brelse_spec D me n Hfuel r' _ s3 i z Hi3 Hin Hz) as (s4 & E4 & Hi4 & Hc4 & Hs4 & Hd4 & Hk4); [lia|].
  exists r', s4. split_and!.
  - unfold logged_store. rewrite (bind_done _ _ _ _ _ E1). fold s1.
    rewrite (bind_done _ _ _ _ _ (bstore_eq off bytes i y s1 Hy)). fold data s2.
    by rewrite (bind_done _ _ _ _ _ E3).
  - apply (in_txn_step r' ({[i]} ∪ ∅) ∅ start _ s3); [done| |done|done|].
    + by replace (∅ : gset Z) with (({[i]} ∪ ∅) ∖ {[i]} : gset Z) by set_solver.
    + intros g. apply (pinned_step D (fun _ => True)); [by apply Hs4|done].
  - intros b'. rewrite Hc4, Hc3, Hc2. unfold data. rewrite Hyd. case_decide; [done|].
    apply (tk_content _ _ _ _ _ _ _ _ T1).
  - by rewrite Hd4, Hd3.
Qed.
End txn.
