(* ===== verification/Fs.v ===== *)
(** The file system (kernel/fs.c): blocks, inodes, directories and path names.

    On-disk structures are read from and written to the bytes of a buffer at the
    offsets of their C layout.  A buffer that a caller keeps in a local variable
    (a directory entry, an ELF header) is not in RAM: readi() returns the bytes
    it delivered and writei() takes the bytes to write ([Local]). *)

From S2P Require Import Prelude Mem Riscv Locks Kalloc Vm Proc Kernel Uart Printf Sleeplock Bio Log.

Definition ROOTINO : Z := 1.
Definition FSMAGIC : Z := 0x10203040.
Definition NDIRECT : Z := 12.
Definition NINDIRECT : Z := BSIZE / 4.
Definition MAXFILE : Z := NDIRECT + NINDIRECT.
Definition DINODE_SIZE : Z := 64.
Definition IPB : Z := BSIZE / DINODE_SIZE.
Definition IBLOCK (i : Z) (s : superblock) : Z := i / IPB + sb_inodestart s.
Definition BPB : Z := BSIZE * 8.
Definition BBLOCK (b : Z) (s : superblock) : Z := b / BPB + sb_bmapstart s.
Definition DIRSIZ : Z := 14.
Definition DIRENT_SIZE : Z := 16.
Definition T_DIR : Z := 1.
Definition T_FILE : Z := 2.
Definition T_DEVICE : Z := 3.
Definition itable_lock : lock := ("itable", 0).

(** ** Structures in bytes *)

Definition superblock_of (d : list Z) : superblock :=
  SuperBlock (field 0 4 d) (field 4 4 d) (field 8 4 d) (field 12 4 d)
    (field 16 4 d) (field 20 4 d) (field 24 4 d) (field 28 4 d).

(** [struct dinode] number [k] of a block. *)
Definition dinode_type (d : list Z) (k : Z) : Z := i16 (field (DINODE_SIZE * k) 2 d).
Definition read_dinode (d : list Z) (k : Z) (ip : inode) : inode :=
  let o := DINODE_SIZE * k in
  ip {{ i_type := i16 (field o 2 d); i_major := i16 (field (o + 2) 2 d);
        i_minor := i16 (field (o + 4) 2 d); i_nlink := i16 (field (o + 6) 2 d);
        i_size := field (o + 8) 4 d;
        i_addrs := (fun j => field (o + 12 + 4 * Z.of_nat j) 4 d) <$> seq 0 13 }}.
Definition dinode_bytes (ip : inode) : list Z :=
  int_bytes 2 (u16 (i_type ip)) ++ int_bytes 2 (u16 (i_major ip)) ++
  int_bytes 2 (u16 (i_minor ip)) ++ int_bytes 2 (u16 (i_nlink ip)) ++
  int_bytes 4 (i_size ip) ++ concat (int_bytes 4 <$> i_addrs ip).

(** [struct dirent]. *)
Record dirent := Dirent { d_inum : Z; d_name : list Z }.
Definition dirent_of (bs : list Z) : dirent := Dirent (field 0 2 bs) (take 14 (drop 2 bs)).
Definition dirent_bytes (de : dirent) : list Z := int_bytes 2 (u16 (d_inum de)) ++ d_name de.

(** strncpy(de.name, name, DIRSIZ) of a NUL-terminated name: the string cut at
    [n] and padded with NULs. *)
Definition pad_name (n : nat) (s : list Z) : list Z :=
  take n (cstr s) ++ replicate (n - length (take n (cstr s))) 0.

(** [strncmp(s, t, DIRSIZ)] on strings in local arrays. *)
Fixpoint strncmp_bytes (n : nat) (p q : list Z) : Z :=
  match n with
  | O => 0
  | Datatypes.S k =>
      let a := default 0 (head p) in
      let b := default 0 (head q) in
      if negb (a =? 0) && (a =? b) then strncmp_bytes k (tail p) (tail q)
      else u8 a - u8 b
  end.
Definition namecmp (s t : list Z) : Z := strncmp_bytes (Z.to_nat DIRSIZ) s t.

(** ** Paths *)

Definition slash : Z := chr "/".

Fixpoint skip_slashes (path : list Z) : list Z :=
  match path with
  | c :: r => if c =? slash then skip_slashes r else path
  | [] => []
  end.

(** The element up to the next slash or the end, and what follows. *)
Fixpoint take_elem (path : list Z) : list Z * list Z :=
  match path with
  | c :: r =>
      if c =? slash then ([], path)
      else let '(e, rest) := take_elem r in (c :: e, rest)
  | [] => ([], [])
  end.

(** The element (at most DIRSIZ bytes) and the rest of the path without leading
    slashes, or [None] when there is no element.  A path is the bytes of the
    string before its NUL. *)
Definition skipelem (path : list Z) : option (list Z * list Z) :=
  let path := skip_slashes path in
  match path with
  | [] => None
  | _ =>
      let '(e, rest) := take_elem path in
      let name := if Z.of_nat (length e) >=? DIRSIZ then take (Z.to_nat DIRSIZ) e else e in
      Some (name, skip_slashes rest)
  end.

(** Where bytes go and where they come from. *)
Inductive place := UserMem (va : Z) | KernMem (pa : Z) | Local.
Inductive source := FromUser (va : Z) | FromKern (pa : Z) | FromLocal (bs : list Z).

Section Fs.
Context `{Layout} `{Fuel} `{DiskDriver}.

Definition readsb (dev : Z) : M kernel unit :=
  i <- bread dev 1;;
  d <- bdata i;;
  modify (fun s => s {{ sb := superblock_of d }});;;
  brelse i.

Definition fsinit (dev : Z) : M kernel unit :=
  readsb dev;;;
  s <- gets sb;;
  when (negb (sb_magic s =? FSMAGIC)) (panic "invalid file system");;;
  initlog dev s.

Definition bzero (dev bno : Z) : M kernel unit :=
  i <- bread dev bno;;
  bstore i 0 (replicate (Z.to_nat BSIZE) 0);;;
  log_write i;;;
  brelse i.

(** The inner loop of balloc over the bits of a bitmap block: the first free bit
    [bi] with [b + bi < sb.size]. *)
Definition find_bit (d : list Z) (b size : Z) : M kernel (option Z) :=
  loop (Datatypes.S (Z.to_nat BPB))
    (fun bi =>
       if (bi <? BPB) && (b + bi <? size) then
         let m := Z.shiftl 1 (bi mod 8) in
         let byte := default 0 (geti d (bi / 8)) in
         if Z.land byte m =? 0 then break (Some bi) else continue (bi + 1)
       else break None) 0.

Definition balloc (dev : Z) : M kernel Z :=
  s <- gets sb;;
  loop (Datatypes.S (Z.to_nat (sb_size s / BPB + 1)))
    (fun b =>
       if b <? sb_size s then
         i <- bread dev (BBLOCK b s);;
         d <- bdata i;;
         o <- find_bit d b (sb_size s);;
         match o with
         | Some bi =>
             let byte := default 0 (geti d (bi / 8)) in
             bstore i (bi / 8) [Z.lor byte (Z.shiftl 1 (bi mod 8))];;;
             log_write i;;;
             brelse i;;;
             bzero dev (b + bi);;;
             break (b + bi)
         | None => brelse i;;; continue (b + BPB)
         end
       else
         printf (str "balloc: out of blocks" ++ [10]) [];;;
         break 0) 0.

Definition bfree (dev b : Z) : M kernel unit :=
  s <- gets sb;;
  i <- bread dev (BBLOCK b s);;
  d <- bdata i;;
  let bi := b mod BPB in
  let m := Z.shiftl 1 (bi mod 8) in
  let byte := default 0 (geti d (bi / 8)) in
  when (Z.land byte m =? 0) (panic "freeing free block");;;
  bstore i (bi / 8) [Z.land byte (Z.lnot m)];;;
  log_write i;;;
  brelse i.

(** ** Inodes *)

Definition iinit : M kernel unit :=
  loop (Datatypes.S (Z.to_nat NINODE))
    (fun i => if i <? NINODE then initsleeplock (InodeLock i);;; continue (i + 1) else break tt) 0.

(** The scan of iget: the entry of the inode, or the first free one. *)
Definition iget_scan (dev inum : Z) : M kernel (Z + Z) :=
  loop (Datatypes.S (Z.to_nat NINODE))
    (fun '(i, empty) =>
       if i <? NINODE then
         ip <- getinode i;;
         if (i_ref ip >? 0) && (i_dev ip =? dev) && (i_inum ip =? inum) then break (inl i)
         else continue (i + 1, if (empty =? -1) && (i_ref ip =? 0) then i else empty)
       else break (inr empty)) (0, -1).

Definition iget (dev inum : Z) : M kernel Z :=
  acquire itable_lock;;;
  r <- iget_scan dev inum;;
  match r with
  | inl i =>
      setinode i (fun ip => ip {{ i_ref ::= fun n => n + 1 }});;;
      release itable_lock;;;
      ret i
  | inr empty =>
      when (empty =? -1) (panic "iget: no inodes");;;
      setinode empty (fun ip => ip {{ i_dev := dev; i_inum := inum; i_ref := 1; i_valid := 0 }});;;
      release itable_lock;;;
      ret empty
  end.

Definition idup (i : Z) : M kernel Z :=
  acquire itable_lock;;;
  setinode i (fun ip => ip {{ i_ref ::= fun n => n + 1 }});;;
  release itable_lock;;;
  ret i.

Definition ialloc (dev type : Z) : M kernel Z :=
  s <- gets sb;;
  loop (Datatypes.S (Z.to_nat (sb_ninodes s)))
    (fun inum =>
       if inum <? sb_ninodes s then
         i <- bread dev (IBLOCK inum s);;
         d <- bdata i;;
         if dinode_type d (inum mod IPB) =? 0 then
           bstore i (DINODE_SIZE * (inum mod IPB)) (replicate (Z.to_nat DINODE_SIZE) 0);;;
           bstore i (DINODE_SIZE * (inum mod IPB)) (int_bytes 2 (u16 type));;;
           log_write i;;;
           brelse i;;;
           ip <- iget dev inum;;
           break ip
         else brelse i;;; continue (inum + 1)
       else
         printf (str "ialloc: no inodes" ++ [10]) [];;;
         break (-1)) 1.

Definition iupdate (i : Z) : M kernel unit :=
  s <- gets sb;;
  ip <- getinode i;;
  bp <- bread (i_dev ip) (IBLOCK (i_inum ip) s);;
  bstore bp (DINODE_SIZE * (i_inum ip mod IPB)) (dinode_bytes ip);;;
  log_write bp;;;
  brelse bp.

Definition ilock (i : Z) : M kernel unit :=
  if i =? -1 then panic "ilock"
  else
    ip <- getinode i;;
    when (i_ref ip <? 1) (panic "ilock");;;
    acquiresleep (InodeLock i);;;
    ip <- getinode i;;
    when (i_valid ip =? 0) (
      s <- gets sb;;
      bp <- bread (i_dev ip) (IBLOCK (i_inum ip) s);;
      d <- bdata bp;;
      setinode i (read_dinode d (i_inum ip mod IPB));;;
      brelse bp;;;
      setinode i (fun ip => ip {{ i_valid := 1 }});;;
      ip <- getinode i;;
      when (i_type ip =? 0) (panic "ilock: no type")).

Definition iunlock (i : Z) : M kernel unit :=
  if i =? -1 then panic "iunlock"
  else
    h <- holdingsleep (InodeLock i);;
    ip <- getinode i;;
    if negb h || (i_ref ip <? 1) then panic "iunlock"
    else releasesleep (InodeLock i).

(** [bmap(ip, bn)]: 0 when the disk is full. *)
Definition bmap (i bn : Z) : M kernel Z :=
  ip <- getinode i;;
  if bn <? NDIRECT then
    let addr := default 0 (geti (i_addrs ip) bn) in
    if addr =? 0 then
      addr <- balloc (i_dev ip);;
      if addr =? 0 then ret 0
      else setinode i (fun ip => ip {{ i_addrs ::= seti bn addr }});;; ret addr
    else ret addr
  else
    let bn := bn - NDIRECT in
    if bn <? NINDIRECT then
      let addr := default 0 (geti (i_addrs ip) NDIRECT) in
      addr <- (if addr =? 0 then
                 addr <- balloc (i_dev ip);;
                 when (negb (addr =? 0)) (setinode i (fun ip => ip {{ i_addrs ::= seti NDIRECT addr }}));;;
                 ret addr
               else ret addr);;
      if addr =? 0 then ret 0
      else
        bp <- bread (i_dev ip) addr;;
        d <- bdata bp;;
        let addr := field (4 * bn) 4 d in
        addr <- (if addr =? 0 then
                   addr <- balloc (i_dev ip);;
                   when (negb (addr =? 0)) (bstore bp (4 * bn) (int_bytes 4 addr);;; log_write bp);;;
                   ret addr
                 else ret addr);;
        brelse bp;;;
        ret addr
    else panic "bmap: out of range".

Definition itrunc (i : Z) : M kernel unit :=
  loop (Datatypes.S (Z.to_nat NDIRECT))
    (fun k =>
       if k <? NDIRECT then
         ip <- getinode i;;
         let addr := default 0 (geti (i_addrs ip) k) in
         when (negb (addr =? 0)) (
           bfree (i_dev ip) addr;;;
           setinode i (fun ip => ip {{ i_addrs ::= seti k 0 }}));;;
         continue (k + 1)
       else break tt) 0;;;
  ip <- getinode i;;
  let ind := default 0 (geti (i_addrs ip) NDIRECT) in
  when (negb (ind =? 0)) (
    bp <- bread (i_dev ip) ind;;
    loop (Datatypes.S (Z.to_nat NINDIRECT))
      (fun j =>
         if j <? NINDIRECT then
           d <- bdata bp;;
           let a := field (4 * j) 4 d in
           when (negb (a =? 0)) (bfree (i_dev ip) a);;;
           continue (j + 1)
         else break tt) 0;;;
    brelse bp;;;
    bfree (i_dev ip) ind;;;
    setinode i (fun ip => ip {{ i_addrs ::= seti NDIRECT 0 }}));;;
  setinode i (fun ip => ip {{ i_size := 0 }});;;
  iupdate i.

Definition iput (i : Z) : M kernel unit :=
  acquire itable_lock;;;
  ip <- getinode i;;
  when ((i_ref ip =? 1) && negb (i_valid ip =? 0) && (i_nlink ip =? 0)) (
    acquiresleep (InodeLock i);;;
    release itable_lock;;;
    itrunc i;;;
    setinode i (fun ip => ip {{ i_type := 0 }});;;
    iupdate i;;;
    setinode i (fun ip => ip {{ i_valid := 0 }});;;
    releasesleep (InodeLock i);;;
    acquire itable_lock);;;
  setinode i (fun ip => ip {{ i_ref ::= fun n => n - 1 }});;;
  release itable_lock.

Definition iunlockput (i : Z) : M kernel unit := iunlock i;;; iput i.

(** struct stat in memory: dev, ino, type, nlink, and size at offset 16. *)
Definition stati (i : Z) : M kernel (list Z) :=
  ip <- getinode i;;
  ret (int_bytes 4 (u32 (i_dev ip)) ++ int_bytes 4 (i_inum ip) ++
       int_bytes 2 (u16 (i_type ip)) ++ int_bytes 2 (u16 (i_nlink ip)) ++
       int_bytes 4 0 ++ int_bytes 8 (i_size ip)).

(** either_copyout and either_copyin, or a copy to or from a local buffer, at
    byte [tot] of the transfer. *)
Definition copy_to (d : place) (tot : Z) (bs : list Z) : M kernel Z :=
  match d with
  | UserMem va => in_proc (either_copyout true (u64 (va + tot)) bs)
  | KernMem pa => in_proc (either_copyout false (u64 (pa + tot)) bs)
  | Local => ret 0
  end.
Definition copy_from (d : source) (tot m : Z) : M kernel (option (list Z)) :=
  match d with
  | FromUser va => in_proc (either_copyin true (u64 (va + tot)) m)
  | FromKern pa => in_proc (either_copyin false (u64 (pa + tot)) m)
  | FromLocal bs => ret (Some (take (Z.to_nat m) (drop (Z.to_nat tot) bs)))
  end.

(** The count (-1 for a failed copy) and the bytes delivered. *)
Definition readi (i : Z) (dst : place) (off n : Z) : M kernel (Z * list Z) :=
  ip <- getinode i;;
  if (off >? i_size ip) || (u32 (off + n) <? off) then ret (0, [])
  else
    let n := if u32 (off + n) >? i_size ip then u32 (i_size ip - off) else n in
    loop (Datatypes.S (Z.to_nat n))
      (fun '(tot, off, got) =>
         if tot <? n then
           addr <- bmap i (off / BSIZE);;
           if addr =? 0 then break (tot, got)
           else
             bp <- bread (i_dev ip) addr;;
             d <- bdata bp;;
             let m := Z.min (n - tot) (BSIZE - off mod BSIZE) in
             let bs := take (Z.to_nat m) (drop (Z.to_nat (off mod BSIZE)) d) in
             r <- copy_to dst tot bs;;
             if r =? -1 then brelse bp;;; break (-1, got)
             else brelse bp;;; continue (tot + m, off + m, got ++ bs)
         else break (tot, got)) (0, off, []).

Definition writei (i : Z) (src : source) (off n : Z) : M kernel Z :=
  ip <- getinode i;;
  if (off >? i_size ip) || (u32 (off + n) <? off) then ret (-1)
  else if u32 (off + n) >? MAXFILE * BSIZE then ret (-1)
  else
    r <- loop (Datatypes.S (Z.to_nat n))
      (fun '(tot, off) =>
         if tot <? n then
           addr <- bmap i (off / BSIZE);;
           if addr =? 0 then break (tot, off)
           else
             bp <- bread (i_dev ip) addr;;
             let m := Z.min (n - tot) (BSIZE - off mod BSIZE) in
             c <- copy_from src tot m;;
             match c with
             | None => brelse bp;;; break (tot, off)
             | Some bs =>
                 bstore bp (off mod BSIZE) bs;;;
                 log_write bp;;;
                 brelse bp;;;
                 continue (tot + m, off + m)
             end
         else break (tot, off)) (0, off);;
    let '(tot, off') := r in
    ip <- getinode i;;
    when (off' >? i_size ip) (setinode i (fun ip => ip {{ i_size := off' }}));;;
    iupdate i;;;
    ret (i32 tot).

(** ** Directories *)

(** The inode (-1 when the name is absent) and the offset of the entry. *)
Definition dirlookup (dp : Z) (name : list Z) : M kernel (Z * Z) :=
  ip <- getinode dp;;
  when (negb (i_type ip =? T_DIR)) (panic "dirlookup not DIR");;;
  loop (Datatypes.S (Z.to_nat (i_size ip)))
    (fun off =>
       if off <? i_size ip then
         r <- readi dp Local off DIRENT_SIZE;;
         when (negb (r.1 =? DIRENT_SIZE)) (panic "dirlookup read");;;
         let de := dirent_of r.2 in
         if d_inum de =? 0 then continue (off + DIRENT_SIZE)
         else if namecmp name (d_name de) =? 0 then
           x <- iget (i_dev ip) (d_inum de);;
           break (x, off)
         else continue (off + DIRENT_SIZE)
       else break (-1, 0)) 0.

(** The offset of the first unused entry, or the size. *)
Definition free_dirent (dp : Z) : M kernel Z :=
  ip <- getinode dp;;
  loop (Datatypes.S (Z.to_nat (i_size ip)))
    (fun off =>
       if off <? i_size ip then
         r <- readi dp Local off DIRENT_SIZE;;
         when (negb (r.1 =? DIRENT_SIZE)) (panic "dirlink read");;;
         if d_inum (dirent_of r.2) =? 0 then break off
         else continue (off + DIRENT_SIZE)
       else break off) 0.

Definition dirlink (dp : Z) (name : list Z) (inum : Z) : M kernel Z :=
  r <- dirlookup dp name;;
  if negb (r.1 =? -1) then iput r.1;;; ret (-1)
  else
    off <- free_dirent dp;;
    let de := Dirent inum (pad_name (Z.to_nat DIRSIZ) name) in
    n <- writei dp (FromLocal (dirent_bytes de)) off DIRENT_SIZE;;
    if negb (n =? DIRENT_SIZE) then ret (-1) else ret 0.

(** The inode (-1 for none) and the last element copied to [name]. *)
Definition namex (path : list Z) (nameiparent : bool) : M kernel (Z * list Z) :=
  start <- (if decide (head path = Some slash) then iget ROOTDEV ROOTINO
            else
              me <- kmyproc;;
              p <- kgetp me;;
              idup (cwd p));;
  loop (Datatypes.S (length path))
    (fun '(ip, path, name) =>
       match skipelem path with
       | Some (name, path) =>
           ilock ip;;;
           x <- getinode ip;;
           if negb (i_type x =? T_DIR) then iunlockput ip;;; break (-1, name)
           else if nameiparent && bool_decide (path = []) then
             iunlock ip;;; break (ip, name)
           else
             r <- dirlookup ip name;;
             if r.1 =? -1 then iunlockput ip;;; break (-1, name)
             else iunlockput ip;;; continue (r.1, path, name)
       | None =>
           if nameiparent then iput ip;;; break (-1, name)
           else break (ip, name)
       end) (start, path, []).

Definition namei (path : list Z) : M kernel Z :=
  r <- namex path false;; ret r.1.
Definition nameiparent (path : list Z) : M kernel (Z * list Z) := namex path true.

End Fs.
