(* ===== verification/Inode.v ===== *)
(** Inodes on the disk: what iupdate() writes is what ilock() would read back,
    and the other inodes of the block stay as they are. *)

From S2P Require Import Prelude Mem Riscv Locks Kalloc Vm SpaceCheck Proc ProcFacts Kernel KernelFacts Sleeplock Bio BioRing BioFacts Bytes Log LogProps LogCrash LogInstall LogCommit LogTxn Fs.

(** The members of an inode in the range of their types. *)
Record inode_ok (ip : inode) : Prop := {
  io_type : - 2 ^ 15 <= i_type ip < 2 ^ 15;
  io_major : - 2 ^ 15 <= i_major ip < 2 ^ 15;
  io_minor : - 2 ^ 15 <= i_minor ip < 2 ^ 15;
  io_nlink : - 2 ^ 15 <= i_nlink ip < 2 ^ 15;
  io_size : 0 <= i_size ip < 2 ^ 32;
  io_addrs : length (i_addrs ip) = 13%nat /\ Forall (fun a => 0 <= a < 2 ^ 32) (i_addrs ip);
}.

(** [ip0] with what the disk says of [ip]. *)
Definition same_dinode (ip ip0 : inode) : inode :=
  ip0 {{ i_type := i_type ip; i_major := i_major ip; i_minor := i_minor ip; i_nlink := i_nlink ip;
         i_size := i_size ip; i_addrs := i_addrs ip }}.

Lemma i16_u16 x : - 2 ^ 15 <= x < 2 ^ 15 -> i16 (u16 x mod 256 ^ Z.of_nat 2) = x.
Proof. intros Hx. unfold i16, u16. rewrite Z.mod_mod by lia. rewrite Zplus_mod_idemp_l, Z.mod_small; lia. Qed.

Lemma length_dinode_bytes ip : length (i_addrs ip) = 13%nat -> length (dinode_bytes ip) = 64%nat.
Proof.
  intros Hl. unfold dinode_bytes. rewrite !length_app, !length_int_bytes, length_int_array, Hl. done.
Qed.

(** Reading a dinode depends on its 64 bytes only. *)
Lemma read_dinode_ext d d' k k' ip :
  (forall o m, 0 <= o -> o + Z.of_nat m <= 64 ->
     field (DINODE_SIZE * k + o) m d = field (DINODE_SIZE * k' + o) m d') ->
  read_dinode d k ip = read_dinode d' k' ip.
Proof.
  intros Hf. unfold read_dinode. rewrite (Hf 2 2%nat), (Hf 4 2%nat), (Hf 6 2%nat), (Hf 8 4%nat) by lia.
  pose proof (Hf 0 2%nat) as H0. rewrite !Z.add_0_r in H0. rewrite H0 by lia.
  assert (((fun j => field (DINODE_SIZE * k + 12 + 4 * Z.of_nat j) 4 d) <$> seq 0 13) =
    ((fun j => field (DINODE_SIZE * k' + 12 + 4 * Z.of_nat j) 4 d') <$> seq 0 13)) as ->; [|done].
  apply list_fmap_ext. intros u j [-> Hj]%lookup_seq. rewrite <- !Z.add_assoc. apply Hf; lia.
Qed.

(** The dinode bytes hold the inode. *)
Lemma read_dinode_bytes ip ip0 : inode_ok ip -> read_dinode (dinode_bytes ip) 0 ip0 = same_dinode ip ip0.
Proof.
  intros [Ht Hma Hmi Hn Hs [Hl Ha]]. unfold read_dinode, same_dinode. rewrite Z.mul_0_r, !Z.add_0_l.
  set (d := dinode_bytes ip).
  assert (field 0 2 d = u16 (i_type ip) mod 256 ^ Z.of_nat 2) as -> by apply field_int_head.
  assert (field 2 2 d = u16 (i_major ip) mod 256 ^ Z.of_nat 2) as ->.
  { unfold d, dinode_bytes. do 1 rewrite field_int_tail by lia. apply field_int_head. }
  assert (field 4 2 d = u16 (i_minor ip) mod 256 ^ Z.of_nat 2) as ->.
  { unfold d, dinode_bytes. do 2 rewrite field_int_tail by lia. apply field_int_head. }
  assert (field 6 2 d = u16 (i_nlink ip) mod 256 ^ Z.of_nat 2) as ->.
  { unfold d, dinode_bytes. do 3 rewrite field_int_tail by lia. apply field_int_head. }
  assert (field 8 4 d = i_size ip) as ->.
  { unfold d, dinode_bytes. do 4 rewrite field_int_tail by lia. rewrite field_int_head. by apply Z.mod_small. }
  rewrite !i16_u16 by done.
  assert (((fun j => field (12 + 4 * Z.of_nat j) 4 d) <$> seq 0 13) = i_addrs ip) as ->; [|done].
  apply list_eq. intros j. rewrite list_lookup_fmap. destruct (decide (j < 13)%nat) as [Hj|Hj].
  - rewrite lookup_seq_lt by done. simpl.
    destruct (lookup_lt_is_Some_2 (i_addrs ip) j) as [a Hja]; [lia|]. rewrite Hja. f_equal.
    unfold d, dinode_bytes. do 5 rewrite field_int_tail by lia.
    replace (12 + 4 * Z.of_nat j - _ - _ - _ - _ - _) with (Z.of_nat (4 * j)) by lia.
    rewrite (field_array 4 _ j a Hja). apply Z.mod_small.
    rewrite Forall_forall in Ha. apply Ha. by eapply list_elem_of_lookup_2.
  - rewrite lookup_seq_ge by lia. by rewrite lookup_ge_None_2 by lia.
Qed.

(** A dinode stored in slot [k] of a block. *)
Lemma read_stored_dinode ip ip0 k data :
  inode_ok ip -> 0 <= k < IPB -> length data = bsize ->
  read_dinode (splice (DINODE_SIZE * k) (dinode_bytes ip) data) k ip0 = same_dinode ip ip0.
Proof.
  intros Hok Hk Hl. rewrite <- (read_dinode_bytes ip ip0 Hok). apply read_dinode_ext. intros o m Ho Hm.
  pose proof (length_dinode_bytes ip (proj1 (io_addrs _ Hok))) as Hd.
  assert (bsize = 1024%nat) as Hb by done. change IPB with 16 in Hk. unfold DINODE_SIZE.
  rewrite field_splice_in by lia. f_equal. lia.
Qed.

(** The other slots. *)
Lemma read_other_dinode ip ip0 k k' data :
  length (i_addrs ip) = 13%nat -> 0 <= k < IPB -> 0 <= k' < IPB -> k <> k' -> length data = bsize ->
  read_dinode (splice (DINODE_SIZE * k) (dinode_bytes ip) data) k' ip0 = read_dinode data k' ip0.
Proof.
  intros Hla Hk Hk' Hne Hl. apply read_dinode_ext. intros o m Ho Hm.
  pose proof (length_dinode_bytes ip Hla) as Hd. assert (bsize = 1024%nat) as Hb by done.
  change IPB with 16 in *. unfold DINODE_SIZE. apply field_splice_ne; lia.
Qed.

Section iupdate.
Context (D me : Z) `{Fuel} `{DiskDriver} (n : nat) (Hfuel : fuel = Datatypes.S n).

Lemma iupdate_eq i ip s :
  geti (itable s) i = Some ip -> i_dev ip = D ->
  iupdate i s = logged_store D (IBLOCK (i_inum ip) (sb s)) (DINODE_SIZE * (i_inum ip mod IPB)) (dinode_bytes ip) s.
Proof.
  intros Hi Hd. unfold iupdate. unfold bind at 1. cbn [gets bindp].
  unfold getinode. rewrite (bind_done _ _ _ _ _ (elem_ok itable "inode" i ip s Hi)). by rewrite Hd.
Qed.

Lemma same_slot i j s : IBLOCK i s = IBLOCK j s -> i mod IPB = j mod IPB -> i = j.
Proof. unfold IBLOCK. change IPB with 16. intros Hb Hm. pose proof (Z.div_mod i 16). pose proof (Z.div_mod j 16). lia. Qed.

(** C6: iupdate() of inode [i] in a running transaction puts the inode in the
    transaction: the dinode that ilock() would read back has the type, device
    numbers, link count, size and block addresses of the inode in memory, every
    other inode of the disk reads back as before, no other block changes, and
    nothing has been written to the disk yet. *)
Theorem inode_roundtrip r start homes s i ip :
  in_txn D me r ∅ start homes s -> geti (itable s) i = Some ip -> i_dev ip = D -> inode_ok ip ->
  let b := IBLOCK (i_inum ip) (sb s) in
  available D r s b -> loggable start (l_size (klog s)) b -> log_room (klog s) -> (forall j, r j + 1 < 2 ^ 31) ->
  exists r' s', iupdate i s = Done tt s' /\ in_txn D me r' ∅ start (add_home b homes) s' /\
    disk s' = disk s /\ (forall b', b' <> b -> content D s' b' = content D s b') /\
    (forall ip0, read_dinode (content D s' b) (i_inum ip mod IPB) ip0 = same_dinode ip ip0) /\
    (forall inum ip0, inum <> i_inum ip ->
       read_dinode (content D s' (IBLOCK inum (sb s))) (inum mod IPB) ip0 =
       read_dinode (content D s (IBLOCK inum (sb s))) (inum mod IPB) ip0).
Proof.
  intros Hit Hi Hd Hok b Hav Hlb Hroom H31. rewrite (iupdate_eq i ip s Hi Hd). fold b.
  pose proof (length_dinode_bytes ip (proj1 (io_addrs _ Hok))) as Hlen.
  pose proof (Z.mod_pos_bound (i_inum ip) IPB ltac:(done)) as Hk. set (k := i_inum ip mod IPB) in *.
  assert (bsize = 1024%nat) as Hbs by done. change (0 <= k < 16) in Hk.
  destruct (logged_store_spec D me n Hfuel r start homes s b (DINODE_SIZE * k) (dinode_bytes ip)) as
    (r' & s' & E & Hit' & Hc & Hdk); try done; [unfold DINODE_SIZE; lia..|].
  pose proof (content_len D me r ∅ s b (it_bc _ _ _ _ _ _ _ Hit)) as Hcl.
  exists r', s'. split_and!; try done.
  - intros b' Hb'. by rewrite Hc, decide_False.
  - intros ip0. rewrite Hc, decide_True by done. by apply read_stored_dinode.
  - intros inum ip0 Hne. rewrite Hc. case_decide as Hb; [|done]. rewrite Hb.
    apply read_other_dinode; try done; [apply io_addrs, Hok|by apply Z.mod_pos_bound|].
    intros Hm. apply Hne, (same_slot _ _ (sb s)); [by rewrite Hb|done].
Qed.
End iupdate.

(** ** A concrete update *)

Section Demo.
#[local] Existing Instance sync_disk.
#[local] Existing Instance one_round.

Definition demo_inode : inode := Inode 1 1 1 (SleepLock 1 1) 1 T_FILE 0 0 1 1024 (60 :: replicate 12 0).

(** Inode 1 is in block 32; the log is empty and a call is running. *)
Definition updating : kernel :=
  (machine (fun _ => blank_buf) (Log 2 30 1 0 1 0 (replicate 30 0)) old_disk)
    {{ sb := SuperBlock FSMAGIC 1000 900 200 30 2 32 45; itable := demo_inode :: replicate 49 blank_inode }}.

Lemma updating_txn : in_txn 1 1 cold ∅ 2 [] updating.
Proof.
  destruct (restarted_booted old_disk ltac:(done)) as [[H1 H2 H3 H4 H5 H6 H7 H8 H9 H10 H11] _ _ _ _].
  split; try done.
  - split; try done. destruct H1. by split.
  - split; [done|]. split; [done|constructor].
  - intros b Hb. by apply elem_of_nil in Hb.
Qed.

Lemma demo_inode_ok : inode_ok demo_inode.
Proof. split; try done. split; [done|]. by repeat constructor. Qed.

Lemma inode_roundtrip_witness :
  in_txn 1 1 cold ∅ 2 [] updating /\
  exists s', iupdate 0 updating = Done tt s' /\
    read_dinode (content 1 s' 32) 1 blank_inode = blank_inode {{ i_type := T_FILE; i_nlink := 1;
      i_size := 1024; i_addrs := 60 :: replicate 12 0 }}.
Proof.
  split; [apply updating_txn|].
  destruct (inode_roundtrip 1 1 0 eq_refl cold 2 [] updating 0 demo_inode) as (r' & s' & E & _ & _ & _ & Hr & _).
  - apply updating_txn.
  - done.
  - done.
  - apply demo_inode_ok.
  - left. apply cold_spare.
  - split; [done|]. by vm_compute; intros [_ Hlt].
  - done.
  - intros j. by unfold cold.
  - exists s'. split; [exact E|]. exact (Hr blank_inode).
Defined.
End Demo.
