(* ===== verification/FsRead.v ===== *)
(** Reading files: readi() delivers the bytes of the file, and dirlookup() finds the
    first entry with the name.  Both see the disk through the cache ([content]) and
    change nothing else. *)

From S2P Require Import Prelude Mem Riscv Locks Kalloc Vm Proc ProcFacts Kernel KernelFacts Sleeplock Bio BioRing BioFacts Bytes Log LogProps LogCrash LogInstall LogCommit BioProps LogTxn Fs Inode.

(** ** The bytes of a file *)

(** The address of block [k] of a file on a disk whose blocks are [rd]. *)
Definition blk_addr (rd : Z -> list Z) (ip : inode) (k : Z) : Z :=
  if k <? NDIRECT then default 0 (geti (i_addrs ip) k)
  else field (4 * (k - NDIRECT)) 4 (rd (default 0 (geti (i_addrs ip) NDIRECT))).

(** The blocks of [n] bytes. *)
Definition nblk (n : nat) : nat := ((n + 1023) / 1024)%nat.

(** As many bytes as the inode's size says. *)
Definition file_bytes (rd : Z -> list Z) (ip : inode) : list Z :=
  let n := Z.to_nat (i_size ip) in
  take n (concat ((fun k => rd (blk_addr rd ip (Z.of_nat k))) <$> seq 0 (nblk n))).

(** A file without holes whose size fits. *)
Record file_ok (rd : Z -> list Z) (ip : inode) : Prop := {
  fo_size : 0 <= i_size ip <= MAXFILE * BSIZE;
  fo_blocks : forall k, 0 <= k -> k * BSIZE < i_size ip -> blk_addr rd ip k <> 0;
  fo_indirect : NDIRECT * BSIZE < i_size ip -> default 0 (geti (i_addrs ip) NDIRECT) <> 0;
}.

Lemma nblk_covers n : (n <= 1024 * nblk n)%nat.
Proof.
  unfold nblk. pose proof (Nat.div_mod (n + 1023) 1024 ltac:(lia)). pose proof (Nat.mod_upper_bound (n + 1023) 1024 ltac:(lia)). lia.
Qed.

Lemma nblk_lt n k : (1024 * k < n)%nat -> (k < nblk n)%nat.
Proof. pose proof (nblk_covers n). lia. Qed.

Lemma length_blocks w (cs : list (list Z)) :
  Forall (fun c => length c = w) cs -> length (concat cs) = (w * length cs)%nat.
Proof. induction 1 as [|c cs Hc _ IH]; [simpl; lia|]. cbn [concat length]. rewrite length_app. lia. Qed.

(** A part of one block among blocks of [w] bytes. *)
Lemma concat_part w (cs : list (list Z)) k c j m :
  Forall (fun c => length c = w) cs -> cs !! k = Some c -> (j + m <= w)%nat ->
  take m (drop (w * k + j) (concat cs)) = take m (drop j c).
Proof.
  intros Hc Hk Hm. rewrite <- (take_drop_middle cs k c Hk), concat_app. cbn [concat].
  assert (Hlt : length (concat (take k cs)) = (w * k)%nat).
  { rewrite (length_blocks w) by (by apply Forall_take). rewrite length_take. apply lookup_lt_Some in Hk. lia. }
  rewrite <- Hlt, drop_app_add. rewrite Forall_lookup in Hc. specialize (Hc k c Hk).
  rewrite drop_app_le by lia. rewrite take_app_le; [done|]. rewrite length_drop. lia.
Qed.

Lemma file_part rd ip off m :
  (forall b, length (rd b) = 1024%nat) -> 0 <= off -> 0 <= m -> off mod BSIZE + m <= BSIZE -> off + m <= i_size ip ->
  take (Z.to_nat m) (drop (Z.to_nat (off mod BSIZE)) (rd (blk_addr rd ip (off / BSIZE))))
  = take (Z.to_nat m) (drop (Z.to_nat off) (file_bytes rd ip)).
Proof.
  change BSIZE with 1024. intros Hl Ho Hm Hb Hs. destruct (decide (m = 0)) as [-> |Hm0]; [done|].
  pose proof (Z.div_mod off 1024 ltac:(lia)) as Hdm. pose proof (Z.mod_pos_bound off 1024 ltac:(lia)) as Hmb.
  unfold file_bytes. set (n := Z.to_nat (i_size ip)). set (k := Z.to_nat (off / 1024)).
  assert (Hk : Z.of_nat k = off / 1024) by (unfold k; rewrite Z2Nat.id; [done|apply Z.div_pos; lia]).
  set (cs := (fun k => rd (blk_addr rd ip (Z.of_nat k))) <$> seq 0 (nblk n)).
  assert (Hcs : Forall (fun c => length c = 1024%nat) cs).
  { unfold cs. apply Forall_fmap, Forall_forall. intros i _. apply Hl. }
  assert (Hck : cs !! k = Some (rd (blk_addr rd ip (off / 1024)))).
  { unfold cs. rewrite list_lookup_fmap, lookup_seq_lt by (apply nblk_lt; lia). simpl. by rewrite Hk. }
  rewrite <- (concat_part 1024 cs k _ (Z.to_nat (off mod 1024)) (Z.to_nat m) Hcs Hck) by lia.
  replace (1024 * k + Z.to_nat (off mod 1024))%nat with (Z.to_nat off) by lia.
  rewrite skipn_firstn_comm, take_take. f_equal. lia.
Qed.

Lemma length_file_bytes rd ip : (forall b, length (rd b) = 1024%nat) -> length (file_bytes rd ip) = Z.to_nat (i_size ip).
Proof.
  intros Hl. unfold file_bytes. rewrite length_take, (length_blocks 1024).
  - rewrite length_fmap, length_seq. pose proof (nblk_covers (Z.to_nat (i_size ip))). lia.
  - apply Forall_fmap, Forall_forall. intros i _. apply Hl.
Qed.

(** Equal blocks, equal files. *)
Lemma blk_addr_ext rd rd' ip k : (forall b, rd' b = rd b) -> blk_addr rd' ip k = blk_addr rd ip k.
Proof. intros E. unfold blk_addr. by rewrite E. Qed.

Lemma file_bytes_ext rd rd' ip : (forall b, rd' b = rd b) -> file_bytes rd' ip = file_bytes rd ip.
Proof.
  intros E. unfold file_bytes. do 2 f_equal. apply list_fmap_ext. intros ? k _. by rewrite (blk_addr_ext rd), E.
Qed.

Lemma file_ok_ext rd rd' ip : (forall b, rd' b = rd b) -> file_ok rd ip -> file_ok rd' ip.
Proof. intros E [O1 O2 O3]. split; [done| |done]. intros k H1 H2. rewrite (blk_addr_ext rd) by done. by apply O2. Qed.

(** ** What reading changes *)

(** Only buffers, and the processes that wait for them. *)
Definition quiet (s s' : kernel) : Prop := s' = s {{ kp := kp s' }} {{ bufs := bufs s' }}.

#[export] Instance quiet_preorder : PreOrder quiet.
Proof.
  split.
  - intros s. by destruct s.
  - unfold quiet. intros s1 s2 s3 H1 H2. rewrite H2, H1. done.
Qed.

Lemma done_state {S A} (a a' : A) (s s' : S) : Done a s = Done a' s' -> s = s'.
Proof. by intros [= _ ->]. Qed.

Section reading.
Context (D me : Z) `{Layout} `{Fuel} `{DiskDriver} (n : nat) (Hfuel : fuel = Datatypes.S n).

#[local] Abbreviation content := (content D).

(** The cache works, [r] are the pinned buffers, and no buffer is held: any block can be read. *)
Record readable (r : Z -> Z) (s : kernel) : Prop := { rd_bc : bc D me r ∅ s; rd_spare : spare r }.

Record has_read (r : Z -> Z) (s s' : kernel) : Prop := {
  hr_readable : readable r s';
  hr_quiet : quiet s s';
  hr_content : forall b, content s' b = content s b;
}.

Lemma has_read_refl r s : readable r s -> has_read r s s.
Proof. by split. Qed.

Lemma has_read_trans r s1 s2 s3 : has_read r s1 s2 -> has_read r s2 s3 -> has_read r s1 s3.
Proof. intros [R1 Q1 C1] [R2 Q2 C2]. split; [done|by etrans|]. intros b. by rewrite C2, C1. Qed.

Lemma read_len r s b : readable r s -> length (content s b) = 1024%nat.
Proof. intros [Hb _]. by apply (content_len D me r ∅ s b). Qed.

Lemma kp_same s : s {{ kp := kp s }} = s.
Proof. by destruct s. Qed.

(** The cache is the same, and the process runs. *)
Record same_cache (s s' : kernel) : Prop := {
  sc_bufs : bufs s' = bufs s;
  sc_disk : disk s' = disk s;
  sc_proc : proc_ok me s';
}.

Lemma bc_same r h s s' : same_cache s s' -> bc D me r h s -> bc D me r h s'.
Proof. intros [E1 E2 Hp] []. by split; rewrite ?E1, ?E2. Qed.

Lemma content_same s s' b : same_cache s s' -> content s' b = content s b.
Proof. intros [E1 E2 _]. unfold content. by rewrite E1, E2. Qed.

Lemma readable_same r s s' : same_cache s s' -> readable r s -> readable r s'.
Proof. intros Hs [Hb Hsp]. split; [by eapply bc_same|done]. Qed.

(** bread() and what may follow it: the buffer's data and, when the process has done
    something else meanwhile, the release. *)
Record got_block (r : Z -> Z) (s : kernel) (b i : Z) (s1 : kernel) : Prop := {
  gb_bread : bread D b s = Done i s1;
  gb_data : bdata i s1 = Done (content s b) s1;
  gb_brelse : forall s1', same_cache s1 s1' ->
    exists s2, brelse i s1' = Done tt s2 /\ readable r s2 /\ quiet s1' s2 /\ forall b, content s2 b = content s b;
  gb_proc : proc_ok me s1;
  gb_quiet : quiet s s1;
}.

Lemma get_block r s b : readable r s -> exists i s1, got_block r s b i s1.
Proof.
  intros [Hb Hsp]. destruct (bread_either D me n Hfuel r s b Hb (or_introl Hsp)) as (i & y & E1 & T).
  pose proof (taken_here D me _ _ _ _ _ _ T (taken_is_Some D me _ _ _ _ _ _ Hb T)) as Hy.
  set (s1 := with_buf i y s) in *. pose proof (tk_bc _ _ _ _ _ _ _ _ T) as Hi1.
  destruct (tk_block _ _ _ _ _ _ _ _ T) as [_ Hbn]. pose proof (tk_data _ _ _ _ _ _ _ _ T) as Hd.
  exists i, s1. split; [done| | |apply Hi1|done].
  - rewrite <- Hd. by apply (bdata_eq i y).
  - intros s1' Hs. pose proof (bc_same _ _ _ _ Hs Hi1) as Hi1'.
    assert (Hy' : geti (bufs s1') i = Some y) by by rewrite (sc_bufs _ _ Hs).
    destruct (brelse_spec D me n Hfuel r _ s1' i y Hi1') as (s2 & E2 & Hi2 & Hc2 & _ & _ & _); [set_solver|done| |].
    { intros Hr. rewrite Hd, Hbn, (sc_disk _ _ Hs). by apply T. }
    destruct (brelse_eq D me n Hfuel r _ s1' i y Hi1') as (bs & E2' & _); [set_solver|done|].
    pose proof (done_state _ _ _ _ (eq_trans (eq_sym E2') E2)) as E.
    exists s2. split; [done|]. split; [split; [|done]|split].
    + by replace (∅ : gset Z) with (({[i]} ∪ ∅) ∖ {[i]} : gset Z) by set_solver.
    + by rewrite <- E.
    + intros b'. rewrite Hc2, (content_same s1) by done. apply (tk_content _ _ _ _ _ _ _ _ T).
Qed.

(** Read, let the process copy, and release. *)
Lemma get_release r s b i s1 p : got_block r s b i s1 -> proc_ok me (s1 {{ kp := p }}) ->
  exists s2, brelse i (s1 {{ kp := p }}) = Done tt s2 /\ has_read r s s2.
Proof.
  intros [_ _ Hr _ Hq] Hp. destruct (Hr (s1 {{ kp := p }})) as (s2 & E & H2 & Hq2 & Hc); [by split|].
  exists s2. split; [done|]. split; [done| |done]. etrans; [exact Hq|]. by rewrite Hq2.
Qed.

Lemma quiet_inode s s' i : quiet s s' -> geti (itable s') i = geti (itable s) i.
Proof. by intros ->. Qed.

(** ** bmap() of a block that is there *)

Lemma bmap_present r s i ip k :
  readable r s -> geti (itable s) i = Some ip -> i_dev ip = D -> 0 <= k < MAXFILE ->
  blk_addr (content s) ip k <> 0 -> (NDIRECT <= k -> default 0 (geti (i_addrs ip) NDIRECT) <> 0) ->
  exists s', bmap i k s = Done (blk_addr (content s) ip k) s' /\ has_read r s s'.
Proof.
  intros Hr Hi Hd Hk Hb Hin. unfold bmap, getinode. rewrite (bind_done _ _ _ _ _ (elem_ok itable "inode" i ip s Hi)).
  unfold blk_addr in *. destruct (Z.ltb_spec k NDIRECT) as [Hlt|Hge].
  - rewrite (proj2 (Z.eqb_neq _ _)) by done. exists s. split; [done|by apply has_read_refl].
  - specialize (Hin Hge). unfold MAXFILE in Hk. rewrite (proj2 (Z.ltb_lt (k - NDIRECT) NINDIRECT)) by lia.
    rewrite (proj2 (Z.eqb_neq _ _)) by done. erewrite bind_done by done.
    rewrite (proj2 (Z.eqb_neq _ _)) by done. rewrite Hd.
    destruct (get_block r s (default 0 (geti (i_addrs ip) NDIRECT)) Hr) as (j & s1 & G).
    pose proof (gb_bread _ _ _ _ _ G) as E1. pose proof (gb_data _ _ _ _ _ G) as E2.
    destruct (get_release _ _ _ _ _ (kp s1) G) as (s2 & E3 & R); [rewrite kp_same; apply G|]. rewrite kp_same in E3.
    rewrite (bind_done _ _ _ _ _ E1), (bind_done _ _ _ _ _ E2). cbv zeta.
    rewrite (proj2 (Z.eqb_neq _ _)) by done. erewrite bind_done by done. rewrite (bind_done _ _ _ _ _ E3).
    by exists s2.
Qed.

(** ** readi() *)

(** Where the bytes go: copying needs a running process only, and delivers or fails. *)
Definition copies (dst : place) (fails : Prop) : Prop :=
  forall tot bs s, proc_ok me s -> exists c p, copy_to dst tot bs s = Done c (s {{ kp := p }}) /\
    proc_ok me (s {{ kp := p }}) /\ (c <> -1 \/ c = -1 /\ fails).

Lemma copies_local : copies Local False.
Proof using. clear Hfuel. intros tot bs s Hp. exists 0, (kp s). rewrite kp_same. split; [done|]. split; [done|]. left. lia. Qed.

(** How many bytes readi() delivers. *)
Definition read_count (size off n : Z) : Z :=
  if (size <? off) || (2 ^ 32 <=? off + n) then 0 else Z.min n (size - off).

Section Readi.
Context (r : Z -> Z) (i : Z) (ip : inode) (dst : place) (fails : Prop).
Hypothesis Hdev : i_dev ip = D.
Hypothesis Hdst : copies dst fails.

Lemma readi_loop F off0 cnt : 0 <= off0 -> off0 + cnt <= i_size ip -> forall fuel s tot,
  readable r s -> geti (itable s) i = Some ip -> file_ok (content s) ip -> F = file_bytes (content s) ip ->
  0 <= tot <= cnt -> (Z.to_nat (cnt - tot) < fuel)%nat ->
  exists res got s', loop fuel
      (fun '(tot, off, got) =>
         if tot <? cnt then
           addr <- bmap i (off / BSIZE);;
           if addr =? 0 then break (tot, got)
           else
             bp <- bread (i_dev ip) addr;;
             d <- bdata bp;;
             let m := Z.min (cnt - tot) (BSIZE - off mod BSIZE) in
             let bs := take (Z.to_nat m) (drop (Z.to_nat (off mod BSIZE)) d) in
             r <- copy_to dst tot bs;;
             if r =? -1 then brelse bp;;; break (-1, got)
             else brelse bp;;; continue (tot + m, off + m, got ++ bs)
         else break (tot, got)) (tot, off0 + tot, take (Z.to_nat tot) (drop (Z.to_nat off0) F)) s = Done (res, got) s' /\
    has_read r s s' /\
    (res = cnt /\ got = take (Z.to_nat cnt) (drop (Z.to_nat off0) F) \/ res = -1 /\ fails).
Proof.
  intros Ho Hsz. induction fuel as [|fuel IH]; intros s tot Hr Hi Hok HF Ht Hf; [lia|].
  destruct (Z.ltb_spec tot cnt) as [Hlt|Hge].
  2: { exists cnt. do 2 eexists. split; [|split; [by apply has_read_refl|by left]].
       assert (tot = cnt) as -> by lia. apply loop_break. by rewrite (proj2 (Z.ltb_ge cnt cnt)) by lia. }
  set (off := off0 + tot). pose proof (fo_size _ _ Hok) as Hmax. change BSIZE with 1024 in *.
  pose proof (Z.div_mod off 1024 ltac:(lia)) as Hdm. pose proof (Z.mod_pos_bound off 1024 ltac:(lia)) as Hmb.
  assert (Hk : 0 <= off / 1024 < MAXFILE) by (split; [apply Z.div_pos; lia|apply Z.div_lt_upper_bound; lia]).
  pose proof (fo_blocks _ _ Hok (off / 1024) ltac:(lia) ltac:(change BSIZE with 1024; lia)) as Hb.
  destruct (bmap_present r s i ip (off / 1024) Hr Hi Hdev Hk Hb) as (s1 & E1 & R1).
  { intros Hind. apply Hok. change BSIZE with 1024. lia. }
  set (addr := blk_addr (content s) ip (off / 1024)) in *.
  destruct (get_block r s1 addr (hr_readable _ _ _ R1)) as (j & s2 & G).
  pose proof (gb_data _ _ _ _ _ G) as E3. rewrite (hr_content _ _ _ R1) in E3.
  set (m := Z.min (cnt - tot) (1024 - off mod 1024)).
  set (bs := take (Z.to_nat m) (drop (Z.to_nat (off mod 1024)) (content s addr))).
  destruct (Hdst tot bs s2 (gb_proc _ _ _ _ _ G)) as (c & p & E4 & Hp & Hc).
  destruct (get_release _ _ _ _ _ p G Hp) as (s4 & E5 & R5).
  pose proof (has_read_trans _ _ _ _ R1 R5) as R.
  assert (Hbs : bs = take (Z.to_nat m) (drop (Z.to_nat off) F)).
  { rewrite HF. unfold bs, addr. apply (file_part (content s) ip off m); [|lia|lia|change BSIZE with 1024; lia|lia].
    intros b. by apply (read_len r). }
  assert (Happ : take (Z.to_nat tot) (drop (Z.to_nat off0) F) ++ bs = take (Z.to_nat (tot + m)) (drop (Z.to_nat off0) F)).
  { rewrite Hbs. replace (Z.to_nat off) with (Z.to_nat off0 + Z.to_nat tot)%nat by lia. rewrite <- drop_drop.
    replace (Z.to_nat (tot + m)) with (Z.to_nat tot + Z.to_nat m)%nat by lia. by rewrite take_take_drop. }
  destruct (decide (c = -1)) as [-> |Hne].
  - destruct Hc as [|[_ Hfl]]; [done|]. exists (-1). do 2 eexists. split; [|split; [exact R|by right]].
    apply loop_break. rewrite (proj2 (Z.ltb_lt _ _)) by done. rewrite (bind_done _ _ _ _ _ E1), (proj2 (Z.eqb_neq _ _) Hb).
    rewrite Hdev, (bind_done _ _ _ _ _ (gb_bread _ _ _ _ _ G)), (bind_done _ _ _ _ _ E3). cbv zeta. fold m bs.
    rewrite (bind_done _ _ _ _ _ E4). change (-1 =? -1) with true. cbv iota. by rewrite (bind_done _ _ _ _ _ E5).
  - destruct (IH s4 (tot + m)) as (res & got & s5 & E6 & R6 & Hres).
    + apply R.
    + by rewrite (quiet_inode _ _ i (hr_quiet _ _ _ R)).
    + by apply (file_ok_ext (content s)), Hok; apply R.
    + rewrite HF. symmetry. by apply file_bytes_ext, R.
    + lia.
    + lia.
    + exists res, got, s5. split; [|split; [by eapply has_read_trans|done]].
      rewrite <- E6. apply loop_continue. rewrite (proj2 (Z.ltb_lt _ _)) by done.
      rewrite (bind_done _ _ _ _ _ E1), (proj2 (Z.eqb_neq _ _) Hb).
      rewrite Hdev, (bind_done _ _ _ _ _ (gb_bread _ _ _ _ _ G)), (bind_done _ _ _ _ _ E3). cbv zeta. fold m bs.
      rewrite (bind_done _ _ _ _ _ E4), (proj2 (Z.eqb_neq _ _) Hne), (bind_done _ _ _ _ _ E5).
      unfold continue, ret. rewrite Happ. do 4 f_equal. unfold off. lia.
Qed.

Lemma readi_spec s off cnt :
  readable r s -> geti (itable s) i = Some ip -> file_ok (content s) ip -> 0 <= off < 2 ^ 32 -> 0 <= cnt < 2 ^ 32 ->
  let m := read_count (i_size ip) off cnt in
  exists res got s', readi i dst off cnt s = Done (res, got) s' /\ has_read r s s' /\
    (res = m /\ got = take (Z.to_nat m) (drop (Z.to_nat off) (file_bytes (content s) ip)) \/ res = -1 /\ fails).
Proof.
  intros Hr Hi Hok Ho Hc m. pose proof (fo_size _ _ Hok) as Hsz. change (MAXFILE * BSIZE) with 274432 in Hsz.
  unfold readi, getinode. rewrite (bind_done _ _ _ _ _ (elem_ok itable "inode" i ip s Hi)). unfold m, read_count.
  rewrite Z.gtb_ltb. destruct (Z.ltb_spec (i_size ip) off) as [Ha|Ha]; cbn [orb].
  { exists 0, [], s. split; [done|]. split; [by apply has_read_refl|by left]. }
  destruct (Z.leb_spec (2 ^ 32) (off + cnt)) as [Hb|Hb].
  { assert (E : u32 (off + cnt) = off + cnt - 2 ^ 32) by (unfold u32; symmetry; apply (Z.mod_unique_pos _ _ 1); lia).
    rewrite E, (proj2 (Z.ltb_lt _ _)) by lia. exists 0, [], s. split; [done|]. split; [by apply has_read_refl|by left]. }
  rewrite (u32_small (off + cnt)) by lia. rewrite (proj2 (Z.ltb_ge (off + cnt) off)) by lia.
  rewrite Z.gtb_ltb, (u32_small (i_size ip - off)) by lia.
  assert (Em : (if i_size ip <? off + cnt then i_size ip - off else cnt) = Z.min cnt (i_size ip - off))
    by (destruct (Z.ltb_spec (i_size ip) (off + cnt)); lia).
  rewrite Em. set (k := Z.min cnt (i_size ip - off)).
  destruct (readi_loop (file_bytes (content s) ip) off k ltac:(lia) ltac:(lia) (Datatypes.S (Z.to_nat k)) s 0 Hr Hi Hok eq_refl
    ltac:(lia) ltac:(lia)) as (res & got & s' & E & R & Hres).
  rewrite Z.add_0_r in E. exists res, got, s'. done.
Qed.
End Readi.

(** ** dirlookup() *)

(** *** iget() *)

(** The scan of the table: the entry of the inode, or the first free one (-1: none). *)
Fixpoint slot_scan (dev inum : Z) (tab : list inode) (i empty : Z) : Z + Z :=
  match tab with
  | [] => inr empty
  | ip :: tab =>
      if (i_ref ip >? 0) && (i_dev ip =? dev) && (i_inum ip =? inum) then inl i
      else slot_scan dev inum tab (i + 1) (if (empty =? -1) && (i_ref ip =? 0) then i else empty)
  end.

Definition with_inode (i : Z) (f : inode -> inode) (s : kernel) : kernel :=
  match geti (itable s) i with Some ip => s {{ itable ::= seti i (f ip) }} | None => s end.

(** What iget() does: one more reference, or a new entry. *)
Definition igot (dev inum : Z) (s : kernel) : prog kernel Z :=
  match slot_scan dev inum (itable s) 0 (-1) with
  | inl i => Done i (with_inode i (fun ip => ip {{ i_ref ::= fun n => n + 1 }}) s)
  | inr e => if e =? -1 then Panic "iget: no inodes"
             else Done e (with_inode e (fun ip => ip {{ i_dev := dev; i_inum := inum; i_ref := 1; i_valid := 0 }}) s)
  end.

Lemma iget_scan_eq dev inum s : length (itable s) = 50%nat -> iget_scan dev inum s = Done (slot_scan dev inum (itable s) 0 (-1)) s.
Proof using. clear Hfuel.
  intros Hl. unfold iget_scan.
  cut (forall tab pre empty fuel, itable s = pre ++ tab -> (length tab < fuel)%nat ->
    loop fuel (fun '(i, empty) =>
       if i <? NINODE then
         ip <- getinode i;;
         if (i_ref ip >? 0) && (i_dev ip =? dev) && (i_inum ip =? inum) then break (inl i)
         else continue (i + 1, if (empty =? -1) && (i_ref ip =? 0) then i else empty)
       else break (inr empty)) (Z.of_nat (length pre), empty) s = Done (slot_scan dev inum tab (Z.of_nat (length pre)) empty) s).
  { intros Hc. apply (Hc (itable s) []); [done|]. rewrite Hl. change (Z.to_nat NINODE) with 50%nat. lia. }
  induction tab as [|ip tab IH]; intros pre empty fuel E Hf; (destruct fuel as [|fuel]; [simpl in Hf; lia|]).
  - rewrite app_nil_r in E. subst pre. apply loop_break. rewrite (proj2 (Z.ltb_ge _ _)); [done|]. rewrite Hl. done.
  - assert (Hlt : Z.of_nat (length pre) < 50).
    { rewrite E, length_app in Hl. simpl in Hl. lia. }
    assert (Hip : geti (itable s) (Z.of_nat (length pre)) = Some ip).
    { apply geti_of_nat. rewrite E. by apply list_lookup_middle. }
    cbn [slot_scan]. destruct ((i_ref ip >? 0) && (i_dev ip =? dev) && (i_inum ip =? inum)) eqn:Em.
    + apply loop_break. rewrite (proj2 (Z.ltb_lt _ _)) by done. unfold getinode.
      rewrite (bind_done _ _ _ _ _ (elem_ok itable "inode" _ ip s Hip)). by rewrite Em.
    + specialize (IH (pre ++ [ip]) (if (empty =? -1) && (i_ref ip =? 0) then Z.of_nat (length pre) else empty) fuel).
      rewrite length_app in IH. replace (Z.of_nat (length pre + length [ip])) with (Z.of_nat (length pre) + 1) in IH by (simpl; lia).
      rewrite <- IH; [|by rewrite <- app_assoc|simpl in Hf; lia]. apply loop_continue.
      rewrite (proj2 (Z.ltb_lt _ _)) by done. unfold getinode.
      rewrite (bind_done _ _ _ _ _ (elem_ok itable "inode" _ ip s Hip)). by rewrite Em.
Qed.

Lemma slot_scan_range dev inum : forall tab i empty,
  match slot_scan dev inum tab i empty with
  | inl j => i <= j < i + Z.of_nat (length tab)
  | inr e => e = empty \/ i <= e < i + Z.of_nat (length tab)
  end.
Proof using. clear Hfuel.
  induction tab as [|ip tab IH]; intros i empty; cbn [slot_scan length]; [by left|].
  destruct ((i_ref ip >? 0) && (i_dev ip =? dev) && (i_inum ip =? inum)); [lia|].
  specialize (IH (i + 1) (if (empty =? -1) && (i_ref ip =? 0) then i else empty)).
  destruct (slot_scan _ _ _ _ _); [lia|]. destruct IH as [-> |]; [|lia].
  destruct ((empty =? -1) && (i_ref ip =? 0)); [lia|by left].
Qed.

(** A new entry is a free one. *)
Lemma slot_scan_free dev inum : forall tab i empty,
  (forall ip, ip ∈ tab -> 0 < i_ref ip -> i_dev ip = dev -> i_inum ip <> inum) ->
  empty <> -1 \/ (exists ip, ip ∈ tab /\ i_ref ip = 0) -> 0 <= i ->
  exists e, slot_scan dev inum tab i empty = inr e /\
    (e = empty /\ e <> -1 \/ exists k ip, e = i + Z.of_nat k /\ tab !! k = Some ip /\ i_ref ip = 0).
Proof using. clear Hfuel.
  induction tab as [|ip tab IH]; intros i empty Hno Hex Hi; cbn [slot_scan].
  - exists empty. split; [done|]. left. split; [done|]. destruct Hex as [|(? & ?%elem_of_nil & _)]; done.
  - assert (Hm : (i_ref ip >? 0) && (i_dev ip =? dev) && (i_inum ip =? inum) = false).
    { destruct (i_ref ip >? 0) eqn:E1, (Z.eqb_spec (i_dev ip) dev) as [E2|], (Z.eqb_spec (i_inum ip) inum) as [E3|]; try done.
      exfalso. apply (Hno ip); [by left|lia|done|done]. }
    rewrite Hm. destruct ((empty =? -1) && (i_ref ip =? 0)) eqn:E.
    + apply andb_prop in E as [_ E0]. destruct (IH (i + 1) i) as (e & -> & He); [intros y Hy; apply Hno; by right|left; lia|lia|].
      exists e. split; [done|right]. destruct He as [[-> _]|(k & y & -> & Hk & Hr)].
      * exists 0%nat, ip. split; [lia|]. split; [done|lia].
      * exists (Datatypes.S k), y. split; [lia|done].
    + destruct (IH (i + 1) empty) as (e & -> & He); [intros y Hy; apply Hno; by right| |lia|].
      * destruct Hex as [|(y & Hy & Hr)]; [by left|]. apply elem_of_cons in Hy as [->|Hy]; [|right; by exists y].
        left. intros ->. by rewrite Hr in E.
      * exists e. split; [done|]. destruct He as [|(k & y & -> & Hk & Hr)]; [by left|right].
        exists (Datatypes.S k), y. split; [lia|done].
Qed.

Lemma setinode_eq i f ip s : geti (itable s) i = Some ip -> setinode i f s = Done tt (with_inode i f s).
Proof.
  intros Hi. unfold setinode, getinode, with_inode. rewrite Hi. by rewrite (bind_done _ _ _ _ _ (elem_ok itable "inode" i ip s Hi)).
Qed.

Lemma iget_eq dev inum s : held s = ∅ -> length (itable s) = 50%nat -> iget dev inum s = igot dev inum s.
Proof using. clear Hfuel.
  intros Hh Hl. unfold iget, igot.
  rewrite (bind_done _ _ _ _ _ (acquire_eq itable_lock s ltac:(rewrite Hh; set_solver))).
  assert (Hl' : length (itable (locked itable_lock s)) = 50%nat) by exact Hl.
  rewrite (bind_done _ _ _ _ _ (iget_scan_eq dev inum (locked itable_lock s) Hl')).
  change (itable (locked itable_lock s)) with (itable s).
  pose proof (slot_scan_range dev inum (itable s) 0 (-1)) as Hrg. rewrite Hl in Hrg.
  assert (Hel : forall i, 0 <= i < 0 + Z.of_nat 50 -> exists ip, geti (itable (locked itable_lock s)) i = Some ip).
  { intros i Hi. change (itable (locked itable_lock s)) with (itable s). destruct (geti (itable s) i) as [ip|] eqn:E; [by exists ip|].
    exfalso. unfold geti in E. rewrite (proj2 (Z.leb_le 0 i)) in E by lia. apply lookup_ge_None in E. lia. }
  assert (Hrel : forall i f, release itable_lock (with_inode i f (locked itable_lock s)) = Done tt (with_inode i f s)).
  { intros i f. unfold with_inode. change (itable (locked itable_lock s)) with (itable s). destruct (geti (itable s) i) as [ip|].
    - rewrite <- (release_eq itable_lock (s {{ itable ::= seti i (f ip) }})); [reflexivity|]. change (held (s {{ itable ::= seti i (f ip) }})) with (held s).
      rewrite Hh. set_solver.
    - apply release_eq. rewrite Hh. set_solver. }
  destruct (slot_scan dev inum (itable s) 0 (-1)) as [i|e].
  - destruct (Hel i Hrg) as [ip Hip]. rewrite (bind_done _ _ _ _ _ (setinode_eq i _ ip _ Hip)). by rewrite (bind_done _ _ _ _ _ (Hrel i _)).
  - destruct (Z.eqb_spec e (-1)) as [->|Hne]; [done|]. destruct Hrg as [|Hrg]; [done|].
    destruct (Hel e Hrg) as [ip Hip]. erewrite bind_done by done. rewrite (bind_done _ _ _ _ _ (setinode_eq e _ ip _ Hip)).
    by rewrite (bind_done _ _ _ _ _ (Hrel e _)).
Qed.

(** *** ilock() *)

Lemma with_inode_here i f ip s : geti (itable s) i = Some ip -> geti (itable (with_inode i f s)) i = Some (f ip).
Proof.
  intros Hi. unfold with_inode. rewrite Hi. change (geti (seti i (f ip) (itable s)) i = Some (f ip)).
  apply geti_seti_eq. by eapply geti_Some_lt.
Qed.

Lemma with_inode_cache i f s : proc_ok me s -> same_cache s (with_inode i f s).
Proof. intros Hp. unfold with_inode. destruct (geti (itable s) i); by split; destruct Hp. Qed.

Lemma with_inode_twice i f g s : with_inode i g (with_inode i f s) = with_inode i (fun ip => g (f ip)) s.
Proof.
  unfold with_inode at 2 3. destruct (geti (itable s) i) as [ip|] eqn:E; [|unfold with_inode; by rewrite E].
  assert (Hi : geti (itable (s {{ itable ::= seti i (f ip) }})) i = Some (f ip)).
  { change (geti (seti i (f ip) (itable s)) i = Some (f ip)). apply geti_seti_eq. by eapply geti_Some_lt. }
  unfold with_inode. rewrite Hi. destruct s. unfold apply_update. cbn. f_equal. apply seti_same.
Qed.

Lemma with_inode_ext i f g ip s : geti (itable s) i = Some ip -> f ip = g ip -> with_inode i f s = with_inode i g s.
Proof. intros Hi E. unfold with_inode. by rewrite Hi, E. Qed.

Lemma quiet_with_inode i f s s' : quiet s s' -> quiet (with_inode i f s) (with_inode i f s').
Proof.
  intros Q. pose proof (quiet_inode _ _ i Q) as E. unfold with_inode. rewrite E. destruct (geti (itable s) i) as [ip|]; [|done].
  unfold quiet in *. rewrite Q. done.
Qed.

Lemma acquiresleep_inode i ip s :
  proc_ok me s -> geti (itable s) i = Some ip -> sl_locked (i_lock ip) = 0 ->
  acquiresleep (InodeLock i) s = Done tt (with_inode i (fun ip => ip {{ i_lock := SleepLock 1 me }}) s).
Proof.
  intros [_ Hh (p & Hp & Hme)] Hi Hl. unfold acquiresleep. set (l := sl_spin (InodeLock i)).
  rewrite (bind_done _ _ _ _ _ (acquire_eq l s ltac:(rewrite Hh; set_solver))).
  assert (Hi' : geti (itable (locked l s)) i = Some ip) by exact Hi.
  rewrite Hfuel. unfold while. erewrite bind_done.
  2: { apply loop_break. unfold getsl, getinode. unfold bind. rewrite (elem_ok itable "inode" i ip (locked l s)) by done.
       cbn [bindp ret]. rewrite Hl. done. }
  rewrite (bind_done _ _ _ _ _ (kmyproc_eq (locked l s))). erewrite bind_done by (apply (kgetp_ok _ p); exact Hp).
  unfold setsl. rewrite Hme. rewrite (bind_done _ _ _ _ _ (setinode_eq i _ ip _ Hi')).
  unfold with_inode. rewrite Hi, Hi'. rewrite <- (release_eq l (s {{ itable ::= seti i (ip {{ i_lock := SleepLock 1 me }}) }})); [reflexivity|].
  change (held (s {{ itable ::= seti i (ip {{ i_lock := SleepLock 1 me }}) }})) with (held s). rewrite Hh. set_solver.
Qed.

(** What ilock() makes of an entry that iget() has just set up. *)
Definition load (d : list Z) (ip : inode) : inode :=
  (read_dinode d (i_inum ip mod IPB) (ip {{ i_lock := SleepLock 1 me }})) {{ i_valid := 1 }}.

Lemma ilock_fresh r s i ip :
  readable r s -> geti (itable s) i = Some ip -> i_dev ip = D -> i_valid ip = 0 -> 1 <= i_ref ip -> sl_locked (i_lock ip) = 0 ->
  let d := content s (IBLOCK (i_inum ip) (sb s)) in
  dinode_type d (i_inum ip mod IPB) <> 0 ->
  exists s', ilock i s = Done tt s' /\ readable r s' /\ (forall b, content s' b = content s b) /\
    quiet (with_inode i (load d) s) s'.
Proof.
  intros Hr Hi Hd Hv Href Hl d Hty. pose proof (geti_Some_lt _ _ _ Hi) as Hrange.
  pose proof (bc_proc _ _ _ _ _ (rd_bc _ _ Hr)) as Hp. unfold ilock, getinode. rewrite (proj2 (Z.eqb_neq i (-1))) by lia.
  rewrite (bind_done _ _ _ _ _ (elem_ok itable "inode" i ip s Hi)). rewrite (proj2 (Z.ltb_ge _ _)) by done.
  erewrite bind_done by done. rewrite (bind_done _ _ _ _ _ (acquiresleep_inode i ip s Hp Hi Hl)).
  set (f1 := fun ip => ip {{ i_lock := SleepLock 1 me }}). set (s1 := with_inode i f1 s).
  pose proof (with_inode_here i f1 ip s Hi) as Hi1. pose proof (with_inode_cache i f1 s Hp) as Sc1.
  rewrite (bind_done _ _ _ _ _ (elem_ok itable "inode" i _ s1 Hi1)). cbn [f1]. change (i_valid (f1 ip)) with (i_valid ip). rewrite Hv.
  change (0 =? 0) with true. cbn [when]. 
  assert (Hsb : sb s1 = sb s) by (unfold s1, with_inode; by rewrite Hi). erewrite bind_done by done. rewrite Hsb.
  change (i_dev (f1 ip)) with (i_dev ip). change (i_inum (f1 ip)) with (i_inum ip). rewrite Hd.
  destruct (get_block r s1 (IBLOCK (i_inum ip) (sb s)) (readable_same _ _ _ Sc1 Hr)) as (j & s2 & G).
  rewrite (bind_done _ _ _ _ _ (gb_bread _ _ _ _ _ G)), (bind_done _ _ _ _ _ (gb_data _ _ _ _ _ G)).
  rewrite (content_same s s1) by done. fold d.
  assert (Hi2 : geti (itable s2) i = Some (f1 ip)) by by rewrite (quiet_inode _ _ i (gb_quiet _ _ _ _ _ G)).
  set (f2 := read_dinode d (i_inum ip mod IPB)).
  rewrite (bind_done _ _ _ _ _ (setinode_eq i f2 _ s2 Hi2)).
  destruct (gb_brelse _ _ _ _ _ G (with_inode i f2 s2)) as (s3 & E3 & R3 & Q3 & C3); [apply with_inode_cache, G|].
  rewrite (bind_done _ _ _ _ _ E3).
  assert (Hi3 : geti (itable s3) i = Some (f2 (f1 ip))) by (rewrite (quiet_inode _ _ i Q3); by apply with_inode_here).
  rewrite (bind_done _ _ _ _ _ (setinode_eq i _ _ s3 Hi3)). set (f3 := fun ip => ip {{ i_valid := 1 }}).
  pose proof (with_inode_here i f3 _ s3 Hi3) as Hi4. set (s4 := with_inode i f3 s3) in *.
  rewrite (bind_done _ _ _ _ _ (elem_ok itable "inode" i _ s4 Hi4)).
  change (i_type (f3 (f2 (f1 ip)))) with (dinode_type d (i_inum ip mod IPB)). rewrite (proj2 (Z.eqb_neq _ _) Hty). cbn [when].
  pose proof (bc_proc _ _ _ _ _ (rd_bc _ _ R3)) as Hp3. pose proof (with_inode_cache i f3 s3 Hp3) as Sc4.
  exists s4. split; [done|]. split; [by eapply readable_same|]. split.
  - intros b. rewrite (content_same s3 s4) by done. rewrite C3. by apply content_same.
  - rewrite (with_inode_ext i _ (fun ip => f3 (f2 (f1 ip))) ip s Hi) by done.
    rewrite <- (with_inode_twice i (fun ip => f2 (f1 ip)) f3), <- (with_inode_twice i f1 f2).
    apply quiet_with_inode. etrans; [|exact Q3]. apply quiet_with_inode, G.
Qed.

(** *** The search *)

(** The first of [k] entries from [off] on with the name: its inode and its offset. *)
Fixpoint scan_entries (k : nat) (off : Z) (name bytes : list Z) : option (Z * Z) :=
  match k with
  | O => None
  | Datatypes.S k =>
      let de := dirent_of (take 16 (drop (Z.to_nat off) bytes)) in
      if negb (d_inum de =? 0) && (namecmp name (d_name de) =? 0) then Some (d_inum de, off)
      else scan_entries k (off + 16) name bytes
  end.

(** What follows the search: the inode that the entry names. *)
Definition found (o : option (Z * Z)) (s : kernel) : prog kernel (Z * Z) :=
  match o with
  | Some (inum, off) => match igot D inum s with Done x s' => Done (x, off) s' | _ => Panic "iget: no inodes" end
  | None => Done (-1, 0) s
  end.

Section Dirlookup.
Context (r : Z -> Z) (dp : Z) (ip : inode) (name F : list Z).
Hypothesis Hdev : i_dev ip = D.

(** The state in the loop: the directory's bytes are [F]. *)
Record in_dir (s : kernel) : Prop := {
  id_readable : readable r s;
  id_inode : geti (itable s) dp = Some ip;
  id_ok : file_ok (content s) ip;
  id_bytes : file_bytes (content s) ip = F;
  id_table : length (itable s) = 50%nat;
}.

Lemma in_dir_read s s' : in_dir s -> has_read r s s' -> in_dir s'.
Proof.
  intros [I1 I2 I3 I4 I5] [R1 R2 R3]. split; [done| | | |].
  - by rewrite (quiet_inode _ _ dp R2).
  - by apply (file_ok_ext (content s)).
  - rewrite <- I4. by apply file_bytes_ext.
  - by rewrite R2.
Qed.

Definition dir_round (off : Z) : M kernel (Z + Z * Z) :=
  if off <? i_size ip then
    r <- readi dp Local off DIRENT_SIZE;;
    when (negb (r.1 =? DIRENT_SIZE)) (panic "dirlookup read");;;
    let de := dirent_of r.2 in
    if d_inum de =? 0 then continue (off + DIRENT_SIZE)
    else if namecmp name (d_name de) =? 0 then
      x <- iget (i_dev ip) (d_inum de);;
      break (x, off)
    else continue (off + DIRENT_SIZE)
  else break (-1, 0).

Lemma dir_round_ok s off :
  in_dir s -> 0 <= off -> off + 16 <= i_size ip ->
  let de := dirent_of (take 16 (drop (Z.to_nat off) F)) in
  exists s1, has_read r s s1 /\ dir_round off s =
    if negb (d_inum de =? 0) && (namecmp name (d_name de) =? 0)
    then bind (iget D (d_inum de)) (fun x => break (x, off)) s1 else Done (inl (off + 16)) s1.
Proof.
  intros [Hr Hi Hok HF _] Ho Hsz de. pose proof (fo_size _ _ Hok) as Hmax. change (MAXFILE * BSIZE) with 274432 in Hmax.
  destruct (readi_spec r dp ip Local False Hdev copies_local s off DIRENT_SIZE Hr Hi Hok ltac:(lia) ltac:(unfold DIRENT_SIZE; lia))
    as (res & got & s1 & E & R & [[-> ->]|[_ []]]).
  assert (Em : read_count (i_size ip) off DIRENT_SIZE = 16).
  { unfold read_count, DIRENT_SIZE. rewrite (proj2 (Z.ltb_ge _ _)), (proj2 (Z.leb_gt _ _)) by lia. cbn [orb]. lia. }
  rewrite Em, HF in E. change (Z.to_nat 16) with 16%nat in E. exists s1. split; [done|].
  unfold dir_round. rewrite (proj2 (Z.ltb_lt _ _)) by lia. rewrite (bind_done _ _ _ _ _ E). cbn [fst snd].
  erewrite bind_done by done. cbv zeta. fold de. rewrite Hdev.
  destruct (d_inum de =? 0); [done|]. cbn [negb andb]. by destruct (namecmp name (d_name de) =? 0).
Qed.

Lemma dirlookup_loop : forall k fuel s off,
  in_dir s -> 0 <= off -> off + 16 * Z.of_nat k = i_size ip -> (k < fuel)%nat ->
  exists s', has_read r s s' /\ loop fuel dir_round off s = found (scan_entries k off name F) s'.
Proof.
  induction k as [|k IH]; intros fuel s off Hd Ho Hsz Hf; (destruct fuel as [|fuel]; [lia|]).
  - exists s. split; [by apply has_read_refl, Hd|]. apply loop_break. unfold dir_round. by rewrite (proj2 (Z.ltb_ge _ _)) by lia.
  - destruct (dir_round_ok s off Hd Ho ltac:(lia)) as (s1 & R & E). cbn [scan_entries].
    set (de := dirent_of (take 16 (drop (Z.to_nat off) F))) in *.
    pose proof (in_dir_read _ _ Hd R) as Hd1. destruct (negb (d_inum de =? 0) && (namecmp name (d_name de) =? 0)).
    + exists s1. split; [done|]. cbn [loop]. unfold bind at 1. rewrite E. cbn [found].
      pose proof (po_held _ _ (bc_proc _ _ _ _ _ (rd_bc _ _ (hr_readable _ _ _ R)))) as Hh.
      unfold bind. rewrite (iget_eq D (d_inum de) s1 Hh (id_table _ Hd1)). unfold igot.
      destruct (slot_scan D (d_inum de) (itable s1) 0 (-1)) as [j|e]; [done|]. by destruct (e =? -1).
    + destruct (IH fuel s1 (off + 16) Hd1 ltac:(lia) ltac:(lia) ltac:(lia)) as (s' & R' & E').
      exists s'. split; [by eapply has_read_trans|]. rewrite <- E'. by apply loop_continue.
Qed.

Lemma dirlookup_spec s k :
  in_dir s -> i_type ip = T_DIR -> i_size ip = 16 * Z.of_nat k ->
  exists s', has_read r s s' /\ dirlookup dp name s = found (scan_entries k 0 name F) s'.
Proof.
  intros Hd Ht Hsz. destruct (dirlookup_loop k (Datatypes.S (Z.to_nat (i_size ip))) s 0 Hd ltac:(lia) ltac:(lia) ltac:(lia)) as (s' & R & E).
  exists s'. split; [done|]. rewrite <- E. unfold dirlookup, getinode.
  rewrite (bind_done _ _ _ _ _ (elem_ok itable "inode" dp ip s (id_inode _ Hd))), Ht. change (negb (T_DIR =? T_DIR)) with false.
  by erewrite bind_done by done.
Qed.
End Dirlookup.
End reading.
