(* ===== verification/Mkfs.v ===== *)
(** The program that builds the disk (mkfs/mkfs.c), which runs on the host.

    The image is a file of whole sectors.  The host is little-endian.  A file that
    goes onto the disk is its path and what open() and the calls of read() give:
    [None] if it cannot be opened, else the pieces of at most [BSIZE] bytes that the
    reads deliver.  An assertion that fails and die() end the program ([panic]).
    What is printed is left out.  The members of a [struct dinode] are those of
    the kernel's inodes ([inode]). *)

From S2P Require Import Prelude Mem Riscv Locks Kalloc Vm Proc Kernel Uart Printf Sleeplock Bio Log Fs.

Definition FSSIZE : Z := 2000.
Definition NINODES : Z := 200.

(** [y] has the bytes of [x] in RISC-V order; the host reads them back. *)
Definition xshort (x : Z) : Z := le_value (int_bytes 2 x).
Definition xint (x : Z) : Z := le_value (int_bytes 4 x).

Definition nbitmap : Z := FSSIZE / (BSIZE * 8) + 1.
Definition ninodeblocks : Z := NINODES / IPB + 1.
Definition nlog : Z := LOGSIZE.
Definition nmeta : Z := 2 + nlog + ninodeblocks + nbitmap.
Definition nblocks : Z := FSSIZE - nmeta.

Definition new_sb : superblock :=
  SuperBlock FSMAGIC (xint FSSIZE) (xint nblocks) (xint NINODES) (xint nlog) (xint 2)
    (xint (2 + nlog)) (xint (2 + nlog + ninodeblocks)).

Definition sb_bytes (s : superblock) : list Z :=
  concat (int_bytes 4 <$> [sb_magic s; sb_size s; sb_nblocks s; sb_ninodes s; sb_nlog s; sb_logstart s;
                            sb_inodestart s; sb_bmapstart s]).

Record mkfs := MkfsState { img : gmap Z (list Z); freeinode : Z; freeblock : Z }.

#[global] Arguments img !_ /.
#[global] Arguments freeinode !_ /.
#[global] Arguments freeblock !_ /.

Definition zeroes : list Z := replicate (Z.to_nat BSIZE) 0.

(** ** Sectors and inodes *)

(** Where [lseek(fsfd, sec * BSIZE, 0)] goes. *)
Definition seek (sec : Z) : Z := u32 (sec * BSIZE) / BSIZE.

Definition wsect (sec : Z) (buf : list Z) : M mkfs unit :=
  modify (fun s => s {{ img ::= <[seek sec := buf]> }}).

Definition rsect (sec : Z) : M mkfs (list Z) :=
  o <- gets (fun s => img s !! seek sec);;
  match o with Some b => ret b | None => panic "read" end.

(** The members that bzero() leaves, and those that [struct dinode] does not have. *)
Definition din0 : inode := Inode 0 0 0 (SleepLock 0 0) 0 0 0 0 0 0 (replicate 13 0).

Definition winode (inum : Z) (ip : inode) : M mkfs unit :=
  let bn := IBLOCK inum new_sb in
  buf <- rsect bn;;
  wsect bn (splice (DINODE_SIZE * (inum mod IPB)) (dinode_bytes ip) buf).

Definition rinode (inum : Z) : M mkfs inode :=
  let bn := IBLOCK inum new_sb in
  buf <- rsect bn;;
  ret (read_dinode buf (inum mod IPB) din0).

Definition ialloc (type : Z) : M mkfs Z :=
  inum <- gets freeinode;;
  modify (fun s => s {{ freeinode ::= fun n => u32 (n + 1) }});;;
  winode inum (din0 {{ i_type := i16 (xshort type); i_nlink := i16 (xshort 1); i_size := xint 0 }});;;
  ret inum.

Definition set_bit (buf : list Z) (i : Z) : list Z :=
  seti (i / 8) (u8 (Z.lor (default 0 (geti buf (i / 8))) (Z.shiftl 1 (i mod 8)))) buf.

Definition balloc (used : Z) : M mkfs unit :=
  if negb (used <? BSIZE * 8) then panic "assert"
  else wsect (sb_bmapstart new_sb) (fold_left set_bit (seqZ 0 used) zeroes).

(** [freeblock++] *)
Definition new_block : M mkfs Z :=
  b <- gets freeblock;;
  modify (fun s => s {{ freeblock ::= fun b => u32 (b + 1) }});;;
  ret b.

(** ** Files *)

Definition get_addr (din : inode) (k : Z) : Z := default 0 (geti (i_addrs din) k).

(** [if(xint(din.addrs[k]) == 0) din.addrs[k] = xint(freeblock++)] *)
Definition ensure_addr (k : Z) (din : inode) : M mkfs inode :=
  if xint (get_addr din k) =? 0 then b <- new_block;; ret (din {{ i_addrs ::= seti k (xint b) }}) else ret din.

(** The block of the file, given one if it has none. *)
Definition place_block (fbn : Z) (din : inode) : M mkfs (inode * Z) :=
  if fbn <? NDIRECT then
    din <- ensure_addr fbn din;;
    ret (din, xint (get_addr din fbn))
  else
    din <- ensure_addr NDIRECT din;;
    indirect <- rsect (xint (get_addr din NDIRECT));;
    let o := 4 * (fbn - NDIRECT) in
    indirect <- (if field o 4 indirect =? 0 then
                   b <- new_block;;
                   let indirect := put_field o 4 (xint b) indirect in
                   wsect (xint (get_addr din NDIRECT)) indirect;;;
                   ret indirect
                 else ret indirect);;
    ret (din, xint (field o 4 indirect)).

(** A round of the loop of iappend(); [p] is what is still to be written. *)
Definition append_round (x : inode * Z * list Z) : M mkfs (inode * Z * list Z + inode * Z) :=
  let '(din, off, p) := x in
  let n := Z.of_nat (length p) in
  if 0 <? n then
    let fbn := off / BSIZE in
    if negb (fbn <? MAXFILE) then panic "assert"
    else
      r <- place_block fbn din;;
      let '(din, x) := r in
      let n1 := Z.min n ((fbn + 1) * BSIZE - off) in
      buf <- rsect x;;
      wsect x (splice (off - fbn * BSIZE) (take (Z.to_nat n1) p) buf);;;
      continue (din, u32 (off + n1), drop (Z.to_nat n1) p)
  else break (din, off).

Definition iappend (inum : Z) (p : list Z) : M mkfs unit :=
  din <- rinode inum;;
  let off := xint (i_size din) in
  r <- loop (Datatypes.S (length p)) append_round (din, off, p);;
  let '(din, off) := r in
  winode inum (din {{ i_size := xint off }}).

(** ** main() *)

Fixpoint each {A} (f : A -> M mkfs unit) (l : list A) : M mkfs unit :=
  match l with
  | [] => ret tt
  | x :: l => f x;;; each f l
  end.

(** [bzero(&de, sizeof(de)); de.inum = ...; strncpy(de.name, name, DIRSIZ);
    iappend(rootino, &de, sizeof(de))] *)
Definition add_entry (rootino inum : Z) (name : list Z) : M mkfs unit :=
  iappend rootino (dirent_bytes (Dirent (xshort inum) (pad_name (Z.to_nat DIRSIZ) name))).

Definition host_file : Type := list Z * option (list (list Z)).

(** The name without "user/" and, later, without a leading underscore. *)
Definition shortname (path : list Z) : list Z :=
  if strncmp_bytes 5 path (str "user/") =? 0 then drop 5 path else path.
Definition without_underscore (name : list Z) : list Z :=
  match name with c :: r => if c =? chr "_" then r else name | [] => [] end.

Definition add_file (rootino : Z) (f : host_file) : M mkfs unit :=
  let '(path, opened) := f in
  let name := shortname path in
  if bool_decide (slash ∈ name) then panic "assert"
  else
    match opened with
    | None => panic "open"
    | Some pieces =>
        let name := without_underscore name in
        inum <- ialloc T_FILE;;
        add_entry rootino inum name;;;
        each (fun buf => iappend inum buf) pieces
    end.

(** "fix size of root inode dir" *)
Definition round_root (rootino : Z) : M mkfs unit :=
  din <- rinode rootino;;
  let off := xint (i_size din) in
  let off := u32 ((off / BSIZE + 1) * BSIZE) in
  winode rootino (din {{ i_size := xint off }}).

(** Everything behind the opening of the image, whose files are [files]. *)
Definition build (files : list host_file) : M mkfs unit :=
  modify (fun s => s {{ freeblock := nmeta }});;;
  for_to FSSIZE (fun i => wsect i zeroes;;; ret None) (ret tt);;;
  wsect 1 (splice 0 (sb_bytes new_sb) zeroes);;;
  rootino <- ialloc T_DIR;;
  if negb (rootino =? ROOTINO) then panic "assert"
  else
    add_entry rootino rootino (str ".");;;
    add_entry rootino rootino (str "..");;;
    each (add_file rootino) files;;;
    round_root rootino;;;
    used <- gets freeblock;;
    balloc used.

(** [image] says whether an image is named and can be opened. *)
Definition main (image : option bool) (files : list host_file) : M mkfs unit :=
  match image with
  | None => panic "Usage: mkfs fs.img files..."
  | Some false => panic "open"
  | Some true => build files
  end.

(** The program's variables when it starts. *)
Definition start : mkfs := MkfsState ∅ 1 0.
