(* ===== verification/MkfsProps.v ===== *)
(** The image that mkfs builds: how the blocks of a file hold its bytes, that
    iappend() appends to one file and leaves the others alone, and that ialloc()
    adds an empty one. *)

From S2P Require Import Prelude Mem Riscv Locks Kalloc Vm Proc ProcFacts Kernel KernelFacts Sleeplock Uart Printf Bio Bytes Log Fs Inode FsRead Mkfs.

(** ** Sectors *)

(** A sector that the bitmap has room for. *)
Definition sector (x : Z) : Prop := 0 <= x < FSSIZE.

Lemma seek_small x : sector x -> seek x = x.
Proof.
  unfold sector, seek, FSSIZE, BSIZE. intros Hx. rewrite u32_small by lia. by rewrite Z.div_mul.
Qed.

Lemma rsect_ok x b s : sector x -> img s !! x = Some b -> rsect x s = Done b s.
Proof. intros Hx Hb. unfold rsect, bind, gets. simpl. by rewrite seek_small, Hb. Qed.

Lemma wsect_ok x b s : sector x -> wsect x b s = Done tt (s {{ img ::= <[x := b]> }}).
Proof. intros Hx. unfold wsect. by rewrite seek_small. Qed.

Lemma xint_small x : 0 <= x < 2 ^ 32 -> xint x = x.
Proof. intros Hx. unfold xint. rewrite le_value_int_bytes. apply Z.mod_small. lia. Qed.

Lemma length_zeroes : length zeroes = 1024%nat.
Proof. done. Qed.

(** ** Files *)

(** A block of addresses. *)
Definition table (bs : list Z) : list Z := concat (int_bytes 4 <$> (bs ++ replicate (256 - length bs) 0)).

(** The inode [ip] has the blocks [bs], with the indirect block [ind]. *)
Record arep (im : gmap Z (list Z)) (ip : inode) (bs : list Z) (ind : option Z) : Prop := {
  ar_addrs : i_addrs ip = take 12 bs ++ replicate (12 - length bs) 0 ++ [default 0 ind];
  ar_ind : is_Some ind <-> (12 < length bs)%nat;
  ar_table : forall x, ind = Some x -> im !! x = Some (table (drop 12 bs));
  ar_max : (length bs <= 268)%nat;
}.

(** The blocks [bs] hold the bytes [data], and zeroes behind them. *)
Definition crep (im : gmap Z (list Z)) (bs data : list Z) : Prop :=
  exists cs, Forall2 (fun b c => im !! b = Some c /\ length c = 1024%nat) bs cs /\
    (length data <= 1024 * length bs)%nat /\
    concat cs = data ++ replicate (1024 * length bs - length data) 0.

Definition used (bs : list Z) (ind : option Z) : list Z := bs ++ option_list ind.

(** How many blocks [n] bytes need, with the indirect one. *)
Definition cost (n : nat) : nat := (nblk n + (if 12 <? nblk n then 1 else 0))%nat.

Lemma length_table bs : (length bs <= 256)%nat -> length (table bs) = 1024%nat.
Proof. intros Hb. unfold table. rewrite length_int_array, length_app, length_replicate. lia. Qed.

Lemma table_nil : table [] = zeroes.
Proof. reflexivity. Qed.

Lemma table_lookup bs k x : bs !! k = Some x -> 0 <= x < 2 ^ 32 -> field (4 * Z.of_nat k) 4 (table bs) = x.
Proof.
  intros Hk Hx. unfold table. replace (4 * Z.of_nat k) with (Z.of_nat (4 * k)) by lia.
  rewrite (field_array 4 _ k x); [apply Z.mod_small; lia|]. by apply lookup_app_l_Some.
Qed.

Lemma table_free bs k : (length bs <= k < 256)%nat -> field (4 * Z.of_nat k) 4 (table bs) = 0.
Proof.
  intros Hk. unfold table. replace (4 * Z.of_nat k) with (Z.of_nat (4 * k)) by lia.
  rewrite (field_array 4 _ k 0); [done|]. rewrite lookup_app_r by lia. apply lookup_replicate_2. lia.
Qed.

(** A number stored into an array of numbers. *)
Lemma put_array vs k v w :
  vs !! k = Some w -> put_field (Z.of_nat (4 * k)) 4 v (concat (int_bytes 4 <$> vs)) = concat (int_bytes 4 <$> <[k := v]> vs).
Proof.
  revert k. induction vs as [|u vs IH]; intros [|k] Hk; try done; simpl in Hk.
  specialize (IH k Hk). change (<[Datatypes.S k := v]> (u :: vs)) with (u :: <[k := v]> vs).
  rewrite !fmap_cons. cbn [concat]. rewrite <- IH.
  unfold put_field, splice. rewrite length_int_bytes.
  rewrite !Nat2Z.id, take_app_ge, drop_app_ge by (rewrite length_int_bytes; lia). rewrite length_int_bytes.
  rewrite <- app_assoc. do 2 f_equal; [f_equal; lia|]. f_equal. f_equal. lia.
Qed.

Lemma table_snoc bs x : (length bs < 256)%nat -> put_field (4 * Z.of_nat (length bs)) 4 x (table bs) = table (bs ++ [x]).
Proof.
  intros Hb. unfold table. replace (4 * Z.of_nat (length bs)) with (Z.of_nat (4 * length bs)) by lia.
  replace (256 - length bs)%nat with (Datatypes.S (256 - length (bs ++ [x]))) by (rewrite length_app; simpl; lia).
  cbn [replicate]. erewrite put_array by (by apply list_lookup_middle).
  rewrite <- (Nat.add_0_r (length bs)) at 1. rewrite insert_app_r. simpl. by rewrite <- app_assoc.
Qed.

(** ** Contents *)

Lemma splice_middle (a c b ch : list Z) o :
  0 <= o -> (Z.to_nat o + length ch <= length c)%nat ->
  splice (Z.of_nat (length a) + o) ch (a ++ c ++ b) = a ++ splice o ch c ++ b.
Proof.
  intros Ho Hl. unfold splice. replace (Z.to_nat (Z.of_nat (length a) + o)) with (length a + Z.to_nat o)%nat by lia.
  rewrite take_app_add. rewrite <- (Nat.add_assoc (length a)). rewrite drop_app_add.
  rewrite take_app_le, drop_app_le by lia. by rewrite <- !app_assoc.
Qed.

Lemma concat_splice cs k c o ch :
  Forall (fun c => length c = 1024%nat) cs -> cs !! k = Some c -> 0 <= o -> (Z.to_nat o + length ch <= 1024)%nat ->
  concat (<[k := splice o ch c]> cs) = splice (1024 * Z.of_nat k + o) ch (concat cs).
Proof.
  intros Hc Hk Ho Hl. rewrite <- (take_drop_middle cs k c Hk) at 2. rewrite concat_app. cbn [concat].
  rewrite Forall_forall in Hc. pose proof (lookup_lt_Some _ _ _ Hk) as Hlt.
  assert (Ht : length (concat (take k cs)) = (1024 * k)%nat).
  { rewrite (length_blocks 1024); [rewrite length_take; lia|]. apply Forall_forall. intros x Hx. apply Hc.
    by apply elem_of_take in Hx as (i & Hi & _); eapply list_elem_of_lookup_2. }
  replace (1024 * Z.of_nat k) with (Z.of_nat (length (concat (take k cs)))) by lia.
  rewrite splice_middle; [|done|rewrite (Hc c); [lia|by eapply list_elem_of_lookup_2]].
  rewrite insert_take_drop by done. rewrite concat_app. done.
Qed.

Lemma splice_end (d z ch : list Z) :
  (length ch <= length z)%nat -> splice (Z.of_nat (length d)) ch (d ++ z) = d ++ ch ++ drop (length ch) z.
Proof.
  intros Hl. unfold splice. rewrite Nat2Z.id, take_app_length, drop_app_add. done.
Qed.

Lemma crep_lookup im bs data k x :
  crep im bs data -> bs !! k = Some x -> exists c, im !! x = Some c /\ length c = 1024%nat.
Proof.
  intros (cs & Hf & _) Hk. destruct (Forall2_lookup_l _ _ _ _ _ Hf Hk) as (c & _ & H). by exists c.
Qed.

(** A write behind the data. *)
Lemma crep_write im bs data x c ch :
  let off := Z.of_nat (length data) in
  crep im bs data -> NoDup bs -> bs !! Z.to_nat (off / 1024) = Some x -> im !! x = Some c ->
  (length ch <= 1024 - length data mod 1024)%nat ->
  crep (<[x := splice (off - off / 1024 * 1024) ch c]> im) bs (data ++ ch).
Proof.
  intros off (cs & Hf & Hd & Hc) Hn Hk Hx Hl. set (k := Z.to_nat (off / 1024)) in *.
  destruct (Forall2_lookup_l _ _ _ _ _ Hf Hk) as (c' & Hck & Ec & Hlc). rewrite Hx in Ec. injection Ec as <-.
  pose proof (Z.mod_pos_bound off 1024 ltac:(lia)) as Hm. pose proof (Z.div_mod off 1024 ltac:(lia)) as Hdm.
  assert (Eo : off - off / 1024 * 1024 = off mod 1024) by lia. rewrite Eo.
  assert (Hmn : Z.of_nat (length data mod 1024) = off mod 1024) by (rewrite Nat2Z.inj_mod; done).
  assert (Hoc : (Z.to_nat (off mod 1024) + length ch <= 1024)%nat) by lia.
  assert (Hall : Forall (fun c => length c = 1024%nat) cs).
  { apply Forall_forall. intros y Hy. apply list_elem_of_lookup in Hy as [i Hi].
    by destruct (Forall2_lookup_r _ _ _ _ _ Hf Hi) as (? & _ & _ & ?). }
  pose proof (lookup_lt_Some _ _ _ Hk) as Hkl.
  exists (<[k := splice (off mod 1024) ch c]> cs). split; [|split].
  - apply Forall2_same_length_lookup. split; [by rewrite length_insert, (Forall2_length _ _ _ Hf)|].
    intros i b ci Hb Hi. destruct (decide (i = k)) as [-> |Hne].
    + rewrite Hk in Hb. injection Hb as <-. rewrite list_lookup_insert_eq in Hi by by eapply lookup_lt_Some.
      injection Hi as <-. rewrite lookup_insert_eq. split; [done|]. rewrite splice_length by lia. done.
    + rewrite list_lookup_insert_ne in Hi by done. rewrite lookup_insert_ne.
      * exact (Forall2_lookup_lr _ _ _ _ _ _ Hf Hb Hi).
      * intros ->. apply Hne. by eapply NoDup_lookup.
  - rewrite length_app. unfold k in Hkl. lia.
  - rewrite concat_splice by (done || lia). rewrite Hc. replace (1024 * Z.of_nat k + off mod 1024) with off by lia.
    unfold off. rewrite splice_end by (rewrite length_replicate; unfold k in Hkl; lia).
    rewrite drop_replicate, <- app_assoc, length_app. do 3 f_equal. lia.
Qed.

(** Other sectors do not matter. *)
Lemma crep_frame im im' bs data : (forall b, b ∈ bs -> im' !! b = im !! b) -> crep im bs data -> crep im' bs data.
Proof.
  intros He (cs & Hf & H). exists cs. split; [|done]. apply Forall2_same_length_lookup. split; [by eapply Forall2_length|].
  intros i b c Hb Hi. rewrite He by by eapply list_elem_of_lookup_2. exact (Forall2_lookup_lr _ _ _ _ _ _ Hf Hb Hi).
Qed.

Lemma crep_zero im bs data x :
  crep im bs data -> im !! x = Some zeroes -> crep im (bs ++ [x]) data.
Proof.
  intros (cs & Hf & Hl & Hc) Hx. exists (cs ++ [zeroes]). split; [|split].
  - apply Forall2_app; [done|]. constructor; [done|constructor].
  - rewrite length_app. lia.
  - rewrite concat_app, Hc. cbn [concat]. rewrite app_nil_r, <- app_assoc. f_equal.
    unfold zeroes. rewrite length_app. simpl length. rewrite <- replicate_add. f_equal. unfold BSIZE. lia.
Qed.

(** ** The blocks of a file *)

(** The disk under construction: blocks from [freeblock] on are untouched. *)
Record room (s : mkfs) : Prop := {
  rm_size : forall x, sector x -> exists c, img s !! x = Some c /\ length c = 1024%nat;
  rm_fresh : forall x, sector x -> freeblock s <= x -> img s !! x = Some zeroes;
  rm_free : nmeta <= freeblock s <= FSSIZE;
}.

(** The blocks are below the free ones, each of them once. *)
Record placed (s : mkfs) (bs : list Z) (ind : option Z) : Prop := {
  pl_range : forall b, b ∈ used bs ind -> nmeta <= b < freeblock s;
  pl_nodup : NoDup (used bs ind);
}.

Lemma new_block_ok s :
  nmeta <= freeblock s < FSSIZE -> new_block s = Done (freeblock s) (s {{ freeblock ::= fun b => b + 1 }}).
Proof.
  destruct s as [im fi fb]. change nmeta with 46. unfold FSSIZE. cbn [freeblock]. intros Hf.
  unfold new_block, bind, gets, modify, ret. simpl. by rewrite u32_small by lia.
Qed.

Lemma sector_of s bs ind b : room s -> placed s bs ind -> b ∈ used bs ind -> sector b.
Proof.
  intros Hr Hp Hb. pose proof (pl_range _ _ _ Hp b Hb). pose proof (rm_free _ Hr). change nmeta with 46 in *. unfold sector. lia.
Qed.

Lemma room_write s x c : room s -> sector x -> x < freeblock s -> length c = 1024%nat -> room (s {{ img ::= <[x := c]> }}).
Proof.
  intros [H1 H2 H3] Hx Hlt Hc. split; [| |done].
  - intros y Hy. change (exists c0, <[x := c]> (img s) !! y = Some c0 /\ length c0 = 1024%nat).
    destruct (decide (y = x)) as [-> |Hne].
    + exists c. by rewrite lookup_insert_eq.
    + rewrite lookup_insert_ne by done. by apply H1.
  - intros y Hy Hf. change (freeblock s <= y) in Hf. change (<[x := c]> (img s) !! y = Some zeroes).
    rewrite lookup_insert_ne by lia. by apply H2.
Qed.

Lemma room_next s : room s -> freeblock s < FSSIZE -> room (s {{ freeblock ::= fun b => b + 1 }}).
Proof.
  intros [H1 H2 H3] Hlt. split; [done| |].
  - intros x Hx Hf. change (freeblock s + 1 <= x) in Hf. apply H2; [done|lia].
  - change (nmeta <= freeblock s + 1 <= FSSIZE). lia.
Qed.

Lemma used_blk bs ind k x : bs !! k = Some x -> x ∈ used bs ind.
Proof. intros Hk. apply elem_of_app. left. by eapply list_elem_of_lookup_2. Qed.

Lemma get_addr_direct im ip bs ind k : arep im ip bs ind -> (k < 12)%nat -> get_addr ip (Z.of_nat k) = default 0 (bs !! k).
Proof.
  intros Ha Hk. unfold get_addr, geti. rewrite (proj2 (Z.leb_le 0 _)) by lia. rewrite Nat2Z.id, (ar_addrs _ _ _ _ Ha).
  destruct (decide (k < length bs)%nat) as [Hlt|Hge].
  - rewrite lookup_app_l by (rewrite length_take; lia). by rewrite lookup_take_lt.
  - rewrite lookup_app_r by (rewrite length_take; lia). rewrite length_take.
    rewrite lookup_app_l by (rewrite length_replicate; lia). rewrite (lookup_ge_None_2 bs k) by lia.
    by rewrite lookup_replicate_2 by lia.
Qed.

Lemma addrs_12 bs ind : length (take 12 bs ++ replicate (12 - length bs) 0 ++ [default 0 ind]) = 13%nat.
Proof. rewrite !length_app, length_take, length_replicate. change (length [default 0 ind]) with 1%nat. lia. Qed.

Lemma get_addr_ind im ip bs ind : arep im ip bs ind -> get_addr ip NDIRECT = default 0 ind.
Proof.
  intros Ha. unfold get_addr, geti. rewrite (ar_addrs _ _ _ _ Ha). change (Z.to_nat NDIRECT) with 12%nat. cbn [Z.leb].
  change (0 <=? NDIRECT) with true. cbv iota. rewrite app_assoc.
  rewrite lookup_app_r by (rewrite length_app, length_take, length_replicate; lia).
  rewrite length_app, length_take, length_replicate. by replace (12 - _)%nat with 0%nat by lia.
Qed.

(** An address that is there is left alone. *)
Lemma ensure_addr_there k ip s : 0 < get_addr ip k < 2 ^ 32 -> ensure_addr k ip s = Done ip s.
Proof. intros Hk. unfold ensure_addr. rewrite xint_small by lia. by rewrite (proj2 (Z.eqb_neq _ _)) by lia. Qed.

Lemma ensure_addr_new k ip s :
  get_addr ip k = 0 -> nmeta <= freeblock s < FSSIZE ->
  ensure_addr k ip s = Done (ip {{ i_addrs ::= seti k (freeblock s) }}) (s {{ freeblock ::= fun b => b + 1 }}).
Proof.
  intros Hk Hf. unfold ensure_addr. rewrite Hk. change (xint 0 =? 0) with true. cbv iota.
  rewrite (bind_done _ _ _ _ _ (new_block_ok s Hf)). unfold FSSIZE in Hf. change nmeta with 46 in Hf.
  rewrite xint_small by lia. done.
Qed.

(** The result of place_block(): the file's block [k] is [x], and it had to take [new] blocks. *)
Record placing (s : mkfs) (ip : inode) (bs : list Z) (ind : option Z) (data : list Z) (k : nat) (new : nat)
    (s' : mkfs) (ip' : inode) (bs' : list Z) (ind' : option Z) (x : Z) : Prop := {
  pg_free : freeblock s' = freeblock s + Z.of_nat new;
  pg_inode : freeinode s' = freeinode s;
  pg_room : room s';
  pg_placed : placed s' bs' ind';
  pg_arep : arep (img s') ip' bs' ind';
  pg_crep : crep (img s') bs' data;
  pg_at : bs' !! k = Some x;
  pg_used : used bs' ind' ≡ₚ used bs ind ++ seqZ (freeblock s) (Z.of_nat new);
  pg_length : length bs' = Nat.max (length bs) (k + 1);
  pg_ip : ip' = ip {{ i_addrs := i_addrs ip' }};
  pg_frame : forall b, b ∉ used bs' ind' -> img s' !! b = img s !! b;
}.

Lemma ip_addrs ip : ip = ip {{ i_addrs := i_addrs ip }}.
Proof. by destruct ip. Qed.

Section Place.
Context (s : mkfs) (ip : inode) (bs : list Z) (ind : option Z) (data : list Z).
Hypothesis Hroom : room s.
Hypothesis Hplaced : placed s bs ind.
Hypothesis Ha : arep (img s) ip bs ind.
Hypothesis Hc : crep (img s) bs data.

Lemma blk_range b : b ∈ used bs ind -> 46 <= b < 2000.
Proof.
  intros Hb. pose proof (pl_range _ _ _ Hplaced b Hb). pose proof (rm_free _ Hroom). unfold FSSIZE in *.
  change nmeta with 46 in *. lia.
Qed.

Lemma placing_same k x : bs !! k = Some x -> placing s ip bs ind data k 0 s ip bs ind x.
Proof.
  intros Hk. pose proof (lookup_lt_Some _ _ _ Hk). split; try done; try lia.
  - by rewrite app_nil_r.
  - apply ip_addrs.
Qed.

Lemma place_old k x :
  bs !! k = Some x -> place_block (Z.of_nat k) ip s = Done (ip, x) s.
Proof.
  intros Hk. pose proof (blk_range x (used_blk _ _ _ _ Hk)) as Hx. pose proof (lookup_lt_Some _ _ _ Hk) as Hlt.
  unfold place_block. destruct (Z.ltb_spec (Z.of_nat k) NDIRECT) as [Hd|Hd]; change NDIRECT with 12 in Hd.
  - assert (E : get_addr ip (Z.of_nat k) = x) by (rewrite (get_addr_direct _ _ _ _ k Ha) by lia; by rewrite Hk).
    rewrite (bind_done _ _ _ _ _ (ensure_addr_there _ ip s ltac:(rewrite E; lia))). rewrite E, xint_small by lia. done.
  - destruct (proj2 (ar_ind _ _ _ _ Ha) ltac:(lia)) as [i Hi].
    assert (Hiu : i ∈ used bs ind) by (rewrite Hi; apply elem_of_app; right; by apply list_elem_of_singleton).
    pose proof (blk_range i Hiu) as Hir.
    assert (E : get_addr ip NDIRECT = i) by by rewrite (get_addr_ind _ _ _ _ Ha), Hi.
    rewrite (bind_done _ _ _ _ _ (ensure_addr_there _ ip s ltac:(rewrite E; lia))). rewrite E, xint_small by lia.
    rewrite (bind_done _ _ _ _ _ (rsect_ok i _ s ltac:(unfold sector, FSSIZE; lia) (ar_table _ _ _ _ Ha i Hi))).
    replace (4 * (Z.of_nat k - NDIRECT)) with (4 * Z.of_nat (k - 12)) by (change NDIRECT with 12; lia).
    rewrite (table_lookup _ (k - 12) x); [|rewrite lookup_drop; by replace (12 + (k - 12))%nat with k by lia|lia].
    rewrite (proj2 (Z.eqb_neq x 0)) by lia. cbv zeta.
    erewrite bind_done by done. rewrite (table_lookup _ (k - 12) x);
      [|rewrite lookup_drop; by replace (12 + (k - 12))%nat with k by lia|lia].
    by rewrite xint_small by lia.
Qed.

Lemma placed_new s' bs' ind' n :
  freeblock s' = freeblock s + Z.of_nat n -> used bs' ind' ≡ₚ used bs ind ++ seqZ (freeblock s) (Z.of_nat n) ->
  placed s' bs' ind'.
Proof.
  intros Hf Hu. pose proof (rm_free _ Hroom) as [H0 _]. split.
  - intros b Hb. rewrite Hu in Hb. apply elem_of_app in Hb as [Hb|Hb].
    + pose proof (pl_range _ _ _ Hplaced b Hb). lia.
    + apply elem_of_seqZ in Hb. lia.
  - rewrite Hu. apply NoDup_app. split; [apply Hplaced|]. split; [|apply NoDup_seqZ].
    intros b Hb Hs. apply elem_of_seqZ in Hs. pose proof (pl_range _ _ _ Hplaced b Hb). lia.
Qed.

Lemma addrs_snoc x :
  (length bs < 12)%nat ->
  seti (Z.of_nat (length bs)) x (take 12 bs ++ replicate (12 - length bs) 0 ++ [default 0 ind])
  = take 12 (bs ++ [x]) ++ replicate (12 - length (bs ++ [x])) 0 ++ [default 0 ind].
Proof.
  intros Hl. rewrite !take_ge by (rewrite ?length_app; simpl; lia). rewrite length_app.
  replace (12 - length bs)%nat with (Datatypes.S (12 - (length bs + length [x]))) by (simpl length; lia).
  cbn [replicate]. unfold seti. rewrite (proj2 (Z.leb_le 0 _)) by lia. rewrite Nat2Z.id.
  rewrite <- (Nat.add_0_r (length bs)) at 1. rewrite insert_app_r. by rewrite <- app_assoc.
Qed.

Lemma addrs_ind x :
  (12 <= length bs)%nat -> ind = None ->
  seti NDIRECT x (take 12 bs ++ replicate (12 - length bs) 0 ++ [default 0 ind])
  = take 12 bs ++ replicate (12 - length bs) 0 ++ [x].
Proof.
  intros Hl ->. replace (12 - length bs)%nat with 0%nat by lia. cbn [replicate app default].
  assert (Ht : length (take 12 bs) = 12%nat) by (rewrite length_take; lia).
  unfold seti. change (0 <=? NDIRECT) with true. change (Z.to_nat NDIRECT) with (12 + 0)%nat. rewrite <- Ht at 1.
  by rewrite insert_app_r.
Qed.

Lemma no_ind : (length bs <= 12)%nat -> ind = None.
Proof. intros Hl. destruct ind as [i|] eqn:E; [|done]. destruct (ar_ind _ _ _ _ Ha) as [H _]. specialize (H ltac:(done)). lia. Qed.

Lemma place_direct :
  (length bs < 12)%nat -> freeblock s < FSSIZE ->
  exists s' ip', place_block (Z.of_nat (length bs)) ip s = Done (ip', freeblock s) s' /\
    placing s ip bs ind data (length bs) 1 s' ip' (bs ++ [freeblock s]) ind (freeblock s).
Proof.
  intros Hl Hf. pose proof (rm_free _ Hroom) as [H0 _]. pose proof (no_ind ltac:(lia)) as Hind.
  assert (Hz : get_addr ip (Z.of_nat (length bs)) = 0).
  { rewrite (get_addr_direct _ _ _ _ _ Ha) by lia. by rewrite lookup_ge_None_2. }
  set (fb := freeblock s) in *. set (ip' := ip {{ i_addrs ::= seti (Z.of_nat (length bs)) fb }}).
  set (s' := s {{ freeblock ::= fun b => b + 1 }}).
  assert (Haddrs : i_addrs ip' = take 12 (bs ++ [fb]) ++ replicate (12 - length (bs ++ [fb])) 0 ++ [default 0 ind]).
  { change (i_addrs ip') with (seti (Z.of_nat (length bs)) fb (i_addrs ip)). rewrite (ar_addrs _ _ _ _ Ha). by apply addrs_snoc. }
  assert (Hu : used (bs ++ [fb]) ind ≡ₚ used bs ind ++ seqZ fb (Z.of_nat 1)).
  { unfold used. rewrite Hind. simpl. by rewrite !app_nil_r. }
  assert (Ha' : arep (img s') ip' (bs ++ [fb]) ind).
  { split; [done| | |].
    - rewrite Hind, length_app. simpl length. split; [by intros [? ?]|lia].
    - intros x. by rewrite Hind.
    - rewrite length_app. simpl. lia. }
  exists s', ip'. split.
  - unfold place_block. rewrite (proj2 (Z.ltb_lt _ _)) by (change NDIRECT with 12; lia).
    rewrite (bind_done _ _ _ _ _ (ensure_addr_new _ ip s Hz ltac:(fold fb; lia))). fold fb ip' s'.
    rewrite (get_addr_direct _ _ _ _ (length bs) Ha') by lia. rewrite list_lookup_middle by done. simpl.
    rewrite xint_small; [done|]. unfold FSSIZE in Hf. change nmeta with 46 in H0. lia.
  - split; try done.
    + by apply room_next.
    + by apply (placed_new _ _ _ 1).
    + apply crep_zero; [done|]. apply Hroom; [|done]. unfold sector. change nmeta with 46 in H0. lia.
    + by rewrite list_lookup_middle.
    + rewrite length_app. simpl. lia.
Qed.

(** With an indirect block, to which the address is added. *)
Lemma place_indirect i :
  ind = Some i -> (length bs < 268)%nat -> freeblock s < FSSIZE ->
  exists s', place_block (Z.of_nat (length bs)) ip s = Done (ip, freeblock s) s' /\
    placing s ip bs ind data (length bs) 1 s' ip (bs ++ [freeblock s]) ind (freeblock s).
Proof.
  intros Hi Hl Hf. pose proof (rm_free _ Hroom) as [H0 _].
  assert (Hiu : i ∈ used bs ind) by (rewrite Hi; apply elem_of_app; right; by apply list_elem_of_singleton).
  pose proof (blk_range i Hiu) as Hir. pose proof (pl_range _ _ _ Hplaced i Hiu) as Hif.
  assert (Hlen : (12 < length bs)%nat) by (apply (ar_ind _ _ _ _ Ha); by rewrite Hi).
  set (fb := freeblock s) in *.
  assert (Hdl : length (drop 12 bs) = (length bs - 12)%nat) by by rewrite length_drop.
  set (T := table (drop 12 (bs ++ [fb]))).
  assert (HT : put_field (4 * (Z.of_nat (length bs) - NDIRECT)) 4 (xint fb) (table (drop 12 bs)) = T).
  { unfold T. rewrite drop_app_le by lia. rewrite <- table_snoc by lia. rewrite Hdl.
    rewrite xint_small by (unfold FSSIZE in Hf; change nmeta with 46 in H0; lia).
    f_equal. change NDIRECT with 12. lia. }
  set (s' := s {{ freeblock ::= fun b => b + 1 }} {{ img ::= <[i := T]> }}).
  assert (HTl : length T = 1024%nat) by (apply length_table; rewrite length_drop, length_app; simpl; lia).
  assert (Hu : used (bs ++ [fb]) ind ≡ₚ used bs ind ++ seqZ fb (Z.of_nat 1)).
  { unfold used. rewrite Hi. simpl. rewrite <- !app_assoc. apply Permutation_app_head. apply perm_swap. }
  assert (Hibs : i ∉ bs).
  { intros Hin. pose proof (pl_nodup _ _ _ Hplaced) as Hn. unfold used in Hn. rewrite Hi in Hn.
    apply NoDup_app in Hn as (_ & Hn & _). apply (Hn i Hin). by apply list_elem_of_singleton. }
  assert (Him : forall b, b <> i -> img s' !! b = img s !! b).
  { intros b Hb. change (<[i := T]> (img s) !! b = img s !! b). by rewrite lookup_insert_ne. }
  exists s'. split.
  - unfold place_block. rewrite (proj2 (Z.ltb_ge _ _)) by (change NDIRECT with 12; lia).
    assert (E : get_addr ip NDIRECT = i) by by rewrite (get_addr_ind _ _ _ _ Ha), Hi.
    rewrite (bind_done _ _ _ _ _ (ensure_addr_there _ ip s ltac:(rewrite E; lia))). rewrite E, xint_small by lia.
    rewrite (bind_done _ _ _ _ _ (rsect_ok i _ s ltac:(unfold sector, FSSIZE; lia) (ar_table _ _ _ _ Ha i Hi))).
    cbv zeta. replace (4 * (Z.of_nat (length bs) - NDIRECT)) with (4 * Z.of_nat (length (drop 12 bs))) in *
      by (rewrite Hdl; change NDIRECT with 12; lia).
    rewrite table_free by lia. change (0 =? 0) with true. cbv iota.
    erewrite bind_done; [|erewrite bind_done by (apply new_block_ok; fold fb; lia);
      erewrite bind_done by (apply wsect_ok; unfold sector, FSSIZE; lia); reflexivity].
    fold fb. rewrite HT. unfold T. rewrite drop_app_le by lia.
    rewrite (table_lookup _ (length (drop 12 bs)) fb); [|by apply list_lookup_middle|unfold FSSIZE in Hf; change nmeta with 46 in H0; lia].
    rewrite xint_small by (unfold FSSIZE in Hf; change nmeta with 46 in H0; lia).
    unfold s', T. by rewrite drop_app_le by lia.
  - split; try done.
    + apply room_write; [by apply room_next|unfold sector, FSSIZE; lia| |done].
      change (i < freeblock s + 1). lia.
    + by apply (placed_new _ _ _ 1).
    + split; [|rewrite Hi, length_app; split; [simpl; lia|by eexists]| |rewrite length_app; simpl; lia].
      * rewrite (ar_addrs _ _ _ _ Ha). rewrite take_app_le by lia. do 2 f_equal. rewrite length_app. f_equal. lia.
      * intros x Hx. rewrite Hi in Hx. injection Hx as <-. change (<[i := T]> (img s) !! i = Some T). apply lookup_insert_eq.
    + apply crep_zero.
      * eapply crep_frame; [|exact Hc]. intros b Hb. apply Him. by intros ->.
      * rewrite Him by lia. apply Hroom; [|done]. unfold sector. change nmeta with 46 in H0. lia.
    + by rewrite list_lookup_middle.
    + rewrite length_app. simpl. lia.
    + apply ip_addrs.
    + intros b Hb. apply Him. intros ->. apply Hb. rewrite Hu. apply elem_of_app. by left.
Qed.

(** The thirteenth block comes with the indirect block. *)
Lemma place_first :
  length bs = 12%nat -> freeblock s + 1 < FSSIZE ->
  exists s' ip', place_block (Z.of_nat (length bs)) ip s = Done (ip', freeblock s + 1) s' /\
    placing s ip bs ind data (length bs) 2 s' ip' (bs ++ [freeblock s + 1]) (Some (freeblock s)) (freeblock s + 1).
Proof.
  intros Hl Hf. pose proof (rm_free _ Hroom) as [H0 _]. pose proof (no_ind ltac:(lia)) as Hind.
  set (fb := freeblock s) in *. change nmeta with 46 in H0. unfold FSSIZE in Hf.
  assert (Hz : get_addr ip NDIRECT = 0) by by rewrite (get_addr_ind _ _ _ _ Ha), Hind.
  set (ip' := ip {{ i_addrs ::= seti NDIRECT fb }}).
  set (s1 := s {{ freeblock ::= fun b => b + 1 }}). set (s2 := s1 {{ freeblock ::= fun b => b + 1 }}).
  set (s' := s2 {{ img ::= <[fb := table [fb + 1]]> }}).
  assert (Hfb : sector fb) by (unfold sector, FSSIZE; lia).
  assert (Hr1 : room s1) by (apply room_next; [done|unfold FSSIZE; fold fb; lia]).
  assert (Hr2 : room s2) by (apply room_next; [done|unfold FSSIZE; change (freeblock s1) with (fb + 1); lia]).
  assert (Hu : used (bs ++ [fb + 1]) (Some fb) ≡ₚ used bs ind ++ seqZ fb (Z.of_nat 2)).
  { unfold used. rewrite Hind. simpl. rewrite app_nil_r, <- app_assoc. apply Permutation_app_head.
    replace (seqZ fb (Z.of_nat 2)) with [fb; fb + 1] by (unfold seqZ; simpl; do 2 (f_equal; try lia)).
    apply perm_swap. }
  assert (Him : forall b, b <> fb -> img s' !! b = img s !! b).
  { intros b Hb. change (<[fb := table [fb + 1]]> (img s) !! b = img s !! b). by rewrite lookup_insert_ne. }
  assert (Hnew : fb ∉ bs).
  { intros Hin. pose proof (pl_range _ _ _ Hplaced fb ltac:(apply elem_of_app; by left)). unfold fb in *. lia. }
  assert (Ez : get_addr ip' NDIRECT = fb).
  { unfold get_addr. change (i_addrs ip') with (seti NDIRECT fb (i_addrs ip)). rewrite geti_seti_eq; [done|].
    rewrite (ar_addrs _ _ _ _ Ha), addrs_12. done. }
  exists s', ip'. split.
  - unfold place_block. rewrite (proj2 (Z.ltb_ge _ _)) by (change NDIRECT with 12; lia).
    rewrite (bind_done _ _ _ _ _ (ensure_addr_new _ ip s Hz ltac:(unfold FSSIZE; fold fb; change nmeta with 46; lia))).
    fold fb ip' s1. rewrite Ez, xint_small by lia.
    erewrite bind_done by (apply rsect_ok; [done|apply (rm_fresh _ Hroom fb Hfb); unfold fb; lia]).
    replace (4 * (Z.of_nat (length bs) - NDIRECT)) with 0 by (rewrite Hl; done). cbv zeta.
    change (field 0 4 zeroes =? 0) with true. cbv iota.
    erewrite bind_done; [|erewrite bind_done by (apply new_block_ok; unfold FSSIZE; change (freeblock s1) with (fb + 1); change nmeta with 46; lia);
      erewrite bind_done by (by apply wsect_ok); reflexivity].
    change (freeblock s1) with (fb + 1). rewrite (xint_small (fb + 1)) by lia.
    replace (put_field 0 4 (fb + 1) zeroes) with (table [fb + 1]) by (rewrite <- table_nil; symmetry; apply (table_snoc []); simpl; lia).
    replace (field 0 4 (table [fb + 1])) with (fb + 1) by (symmetry; apply (table_lookup [fb + 1] 0); [done|lia]).
    by rewrite (xint_small (fb + 1)) by lia.
  - split; try done.
    + change (fb + 1 + 1 = fb + 2). lia.
    + apply room_write; [done|done|change (fb < fb + 1 + 1); lia|by apply length_table; simpl; lia].
    + apply (placed_new _ _ _ 2); [|done]. change (fb + 1 + 1 = fb + 2). lia.
    + split; [| |intros x [= <-]; rewrite drop_app_ge, Hl by lia; apply lookup_insert_eq|rewrite length_app; simpl; lia].
      * change (i_addrs ip') with (seti NDIRECT fb (i_addrs ip)). rewrite (ar_addrs _ _ _ _ Ha).
        rewrite addrs_ind by (done || lia). rewrite take_app_le by lia. do 2 f_equal. rewrite length_app. f_equal. lia.
      * rewrite length_app. simpl. split; [lia|by eexists].
    + apply crep_zero.
      * eapply crep_frame; [|exact Hc]. intros b Hb. apply Him. by intros ->.
      * rewrite Him by lia. apply Hroom; [unfold sector, FSSIZE; lia|unfold fb; lia].
    + by rewrite list_lookup_middle.
    + rewrite length_app. simpl. lia.
    + intros b Hb. apply Him. intros ->. apply Hb. rewrite Hu. apply elem_of_app. right. apply elem_of_seqZ. lia.
Qed.

(** How many blocks a write in block [k] takes. *)
Definition taken (k : nat) : nat := if decide (k < length bs)%nat then 0 else if decide (k = 12%nat) then 2 else 1.

Lemma place_ok k :
  (k <= length bs)%nat -> (k < 268)%nat -> freeblock s + Z.of_nat (taken k) <= FSSIZE ->
  exists s' ip' bs' ind' x, place_block (Z.of_nat k) ip s = Done (ip', x) s' /\
    placing s ip bs ind data k (taken k) s' ip' bs' ind' x.
Proof.
  intros Hk Hm. unfold taken. destruct (decide (k < length bs)%nat) as [Hlt|Hge]; intros Hf.
  - destruct (lookup_lt_is_Some_2 bs k Hlt) as [x Hx]. exists s, ip, bs, ind, x.
    split; [by apply place_old|by apply placing_same].
  - assert (Ek : k = length bs) by lia. subst k. destruct (decide (length bs = 12%nat)) as [E|E].
    + destruct (place_first E ltac:(lia)) as (s' & ip' & H). by do 5 eexists.
    + destruct (decide (length bs < 12)%nat) as [Hl|Hl].
      * destruct (place_direct Hl ltac:(lia)) as (s' & ip' & H). by do 5 eexists.
      * destruct (proj2 (ar_ind _ _ _ _ Ha) ltac:(lia)) as [i Hi].
        destruct (place_indirect i Hi Hm ltac:(lia)) as (s' & H). by do 5 eexists.
Qed.
End Place.

(** ** One file *)

(** The inode [ip], in memory, has the bytes [data]. *)
Record frep (s : mkfs) (ip : inode) (data bs : list Z) (ind : option Z) : Prop := {
  fr_arep : arep (img s) ip bs ind;
  fr_crep : crep (img s) bs data;
  fr_placed : placed s bs ind;
  fr_length : length bs = nblk (length data);
}.

(** The state [s'] has grown from [s]: the file has [bs'] and [ind'] now, the rest of
    the disk is as it was. *)
Record grown (s : mkfs) (ip : inode) (bs : list Z) (ind : option Z) (n : nat) (s' : mkfs) (ip' : inode) (bs' : list Z) (ind' : option Z) : Prop := {
  gr_free : freeblock s' = freeblock s + Z.of_nat n;
  gr_inode : freeinode s' = freeinode s;
  gr_room : room s';
  gr_used : used bs' ind' ≡ₚ used bs ind ++ seqZ (freeblock s) (Z.of_nat n);
  gr_ip : ip' = ip {{ i_addrs := i_addrs ip' }};
  gr_frame : forall b, b ∉ used bs' ind' -> img s' !! b = img s !! b;
}.

Lemma seqZ_app_nat m (a b : nat) : seqZ m (Z.of_nat (a + b)) = seqZ m (Z.of_nat a) ++ seqZ (m + Z.of_nat a) (Z.of_nat b).
Proof. rewrite Nat2Z.inj_add. apply seqZ_app; lia. Qed.

Lemma grown_trans s ip bs ind n s1 ip1 bs1 ind1 n1 s2 ip2 bs2 ind2 :
  grown s ip bs ind n s1 ip1 bs1 ind1 -> grown s1 ip1 bs1 ind1 n1 s2 ip2 bs2 ind2 ->
  grown s ip bs ind (n + n1) s2 ip2 bs2 ind2.
Proof.
  intros [F1 I1 R1 U1 P1 M1] [F2 I2 R2 U2 P2 M2]. split; [lia|congruence|done| | |].
  - rewrite U2, U1, F1, seqZ_app_nat. by rewrite <- app_assoc.
  - rewrite P2, P1. done.
  - intros b Hb. rewrite M2 by done. apply M1. intros Hin. apply Hb. rewrite U2. apply elem_of_app. by left.
Qed.

Lemma nblk_step n m : (0 < m)%nat -> (m <= 1024 - n mod 1024)%nat -> nblk (n + m) = Datatypes.S (n / 1024).
Proof.
  unfold nblk. intros H1 H2. pose proof (Nat.div_mod n 1024 ltac:(lia)). pose proof (Nat.mod_upper_bound n 1024 ltac:(lia)).
  symmetry. apply (Nat.div_unique _ _ _ (n mod 1024 + m - 1)); lia.
Qed.

Lemma nblk_old n : nblk n = if decide (n mod 1024 = 0)%nat then (n / 1024)%nat else Datatypes.S (n / 1024).
Proof.
  unfold nblk. pose proof (Nat.div_mod n 1024 ltac:(lia)). pose proof (Nat.mod_upper_bound n 1024 ltac:(lia)).
  case_decide; symmetry; [apply (Nat.div_unique _ _ _ 1023)|apply (Nat.div_unique _ _ _ (n mod 1024 - 1))]; lia.
Qed.

(** What the write in the block [k] of a file takes is what the bytes cost. *)
Lemma taken_cost (bs : list Z) n m :
  length bs = nblk n -> (0 < m)%nat -> (m <= 1024 - n mod 1024)%nat ->
  (n / 1024 <= length bs)%nat /\ cost (n + m) = (cost n + taken bs (n / 1024))%nat.
Proof.
  intros Hl H0 Hm. unfold cost, taken. rewrite Hl, (nblk_step n m H0 Hm), nblk_old. case_decide.
  - split; [lia|]. rewrite decide_False by lia.
    destruct (Nat.ltb_spec 12 (Datatypes.S (n / 1024))), (Nat.ltb_spec 12 (n / 1024)); case_decide; lia.
  - split; [lia|]. rewrite decide_True by lia. lia.
Qed.

Lemma append_round_ok s ip data bs ind p :
  room s -> frep s ip data bs ind -> p <> [] ->
  let m := Nat.min (length p) (1024 - length data mod 1024) in
  (length data + m <= 268 * 1024)%nat ->
  freeblock s + Z.of_nat (cost (length data + m)) - Z.of_nat (cost (length data)) <= FSSIZE ->
  exists s' ip' bs' ind',
    append_round (ip, Z.of_nat (length data), p) s = Done (inl (ip', Z.of_nat (length (data ++ take m p)), drop m p)) s' /\
    frep s' ip' (data ++ take m p) bs' ind' /\
    grown s ip bs ind (cost (length data + m) - cost (length data)) s' ip' bs' ind'.
Proof.
  intros Hr [Ha Hc Hp Hl] Hne m Hmax Hroom.
  assert (Hm0 : (0 < length p)%nat) by (destruct p; [done|simpl; lia]).
  pose proof (Nat.mod_upper_bound (length data) 1024 ltac:(lia)) as Hmod.
  pose proof (Nat.div_mod (length data) 1024 ltac:(lia)) as Hdm.
  set (k := (length data / 1024)%nat) in *.
  destruct (taken_cost bs (length data) m Hl ltac:(unfold m; lia) ltac:(unfold m; lia)) as [Hk Hcost]. fold k in Hk, Hcost.
  destruct (place_ok s ip bs ind data Hr Hp Ha Hc k Hk ltac:(unfold m in *; lia) ltac:(lia))
    as (s1 & ip1 & bs1 & ind1 & x & E & [F I R P A C X U Ln Ip Fr]).
  destruct (crep_lookup _ _ _ _ _ C X) as (c & Ec & Hlc).
  assert (Hxu : x ∈ used bs1 ind1) by by eapply used_blk.
  pose proof (sector_of _ _ _ _ R P Hxu) as Hxs.
  pose proof (pl_range _ _ _ P x Hxu) as Hxf.
  set (off := Z.of_nat (length data)).
  assert (Eoff : off / 1024 = Z.of_nat k) by (unfold off, k; by rewrite Nat2Z.inj_div).
  assert (Hoff : off - off / 1024 * 1024 = Z.of_nat (length data mod 1024)).
  { rewrite Eoff. unfold off. lia. }
  set (buf := splice (off - off / 1024 * 1024) (take m p) c).
  set (s' := s1 {{ img ::= <[x := buf]> }}).
  assert (Hbuf : length buf = 1024%nat).
  { unfold buf. rewrite splice_length; [done|lia|]. rewrite length_take. unfold m. lia. }
  assert (Hnd : NoDup bs1) by (pose proof (pl_nodup _ _ _ P) as H; unfold used in H; by apply NoDup_app in H as [? _]).
  exists s', ip1, bs1, ind1. split; [|split].
  - unfold append_round. rewrite (proj2 (Z.ltb_lt _ _)) by lia. fold off. change BSIZE with 1024. rewrite Eoff.
    rewrite (proj2 (Z.ltb_lt _ _)) by (change MAXFILE with 268; unfold m in *; lia). cbn [negb].
    rewrite (bind_done _ _ _ _ _ E), (bind_done _ _ _ _ _ (rsect_ok x c s1 Hxs Ec)).
    replace (Z.to_nat (Z.min (Z.of_nat (length p)) ((Z.of_nat k + 1) * 1024 - off))) with m by (unfold m, off; lia).
    replace (splice (off - Z.of_nat k * 1024) (take m p) c) with buf by (unfold buf; by rewrite Eoff).
    rewrite (bind_done _ _ _ _ _ (wsect_ok x buf s1 Hxs)). unfold continue, ret. do 4 f_equal.
    rewrite length_app, length_take. rewrite u32_small by (unfold off, m in *; lia). unfold off, m. lia.
  - split.
    + split; try apply A. intros y Hy. change (<[x := buf]> (img s1) !! y = Some (table (drop 12 bs1))).
      rewrite lookup_insert_ne; [by apply A|]. intros ->. pose proof (pl_nodup _ _ _ P) as Hn. unfold used in Hn.
      apply NoDup_app in Hn as (_ & Hn & _). apply (Hn y); [by eapply list_elem_of_lookup_2|].
      rewrite Hy. by apply list_elem_of_singleton.
    + apply (crep_write (img s1) bs1 data x c (take m p) C Hnd); [|done|rewrite length_take; unfold m; lia].
      fold off. rewrite Eoff. by rewrite Nat2Z.id.
    + destruct P as [P1 P2]. by split.
    + rewrite Ln, length_app, length_take. replace (Nat.min m (length p)) with m by (unfold m; lia).
      rewrite (nblk_step (length data) m) by (unfold m; lia). rewrite Hl, nblk_old. fold k. case_decide; lia.
  - split; try done.
    + change (freeblock s') with (freeblock s1). rewrite F. lia.
    + apply room_write; [done|done|lia|done].
    + rewrite U. do 2 f_equiv. lia.
    + intros b Hb. change (<[x := buf]> (img s1) !! b = img s !! b). rewrite lookup_insert_ne; [by apply Fr|].
      intros ->. done.
Qed.

Lemma nblk_mono n m : (n <= m)%nat -> (nblk n <= nblk m)%nat.
Proof. intros H. unfold nblk. apply Nat.Div0.div_le_mono. lia. Qed.

Lemma cost_mono n m : (n <= m)%nat -> (cost n <= cost m)%nat.
Proof.
  intros H. unfold cost. pose proof (nblk_mono n m H).
  destruct (Nat.ltb_spec 12 (nblk n)), (Nat.ltb_spec 12 (nblk m)); lia.
Qed.

Lemma append_loop : forall fuel p s ip data bs ind,
  room s -> frep s ip data bs ind -> (length p < fuel)%nat ->
  (length data + length p <= 268 * 1024)%nat ->
  freeblock s + Z.of_nat (cost (length data + length p)) - Z.of_nat (cost (length data)) <= FSSIZE ->
  exists s' ip' bs' ind',
    loop fuel append_round (ip, Z.of_nat (length data), p) s = Done (ip', Z.of_nat (length (data ++ p))) s' /\
    frep s' ip' (data ++ p) bs' ind' /\
    grown s ip bs ind (cost (length data + length p) - cost (length data)) s' ip' bs' ind'.
Proof.
  induction fuel as [|fuel IH]; intros p s ip data bs ind Hr Hf Hn Hmax Hroom; [lia|].
  destruct p as [|c p]; [|set (q := c :: p) in *].
  - exists s, ip, bs, ind. rewrite app_nil_r. split; [by erewrite loop_break by done|]. split; [done|].
    rewrite Nat.add_0_r, Nat.sub_diag. split; try done; [lia|by rewrite app_nil_r|apply ip_addrs].
  - set (m := Nat.min (length q) (1024 - length data mod 1024)).
    pose proof (Nat.mod_upper_bound (length data) 1024 ltac:(lia)) as Hmod.
    assert (Hq : (0 < length q)%nat) by (simpl; lia).
    pose proof (cost_mono (length data + m) (length data + length q) ltac:(unfold m; lia)) as Hc1.
    pose proof (cost_mono (length data) (length data + m) ltac:(lia)) as Hc0.
    destruct (append_round_ok s ip data bs ind q Hr Hf ltac:(done) ltac:(fold m; unfold m; lia) ltac:(fold m; lia))
      as (s1 & ip1 & bs1 & ind1 & E & Hf1 & G1). fold m in E, Hf1, G1.
    rewrite (loop_continue _ _ _ _ _ _ E).
    assert (Hlq : length (take m q) = m) by (rewrite length_take; unfold m; lia).
    pose proof (gr_free _ _ _ _ _ _ _ _ _ G1) as F1.
    assert (Hlen : (length (data ++ take m q) + length (drop m q) = length data + length q)%nat)
      by (rewrite length_app, Hlq, length_drop; unfold m; lia).
    destruct (IH (drop m q) s1 ip1 (data ++ take m q) bs1 ind1) as (s2 & ip2 & bs2 & ind2 & E2 & Hf2 & G2).
    + apply G1.
    + done.
    + rewrite length_drop. unfold m. lia.
    + lia.
    + rewrite Hlen, F1, length_app, Hlq. lia.
    + rewrite <- app_assoc, take_drop in E2, Hf2. exists s2, ip2, bs2, ind2. split; [done|]. split; [done|].
      rewrite Hlen, length_app, Hlq in G2. pose proof (grown_trans _ _ _ _ _ _ _ _ _ _ _ _ _ _ G1 G2) as G.
      by replace (cost (length data + length q) - cost (length data))%nat
        with (cost (length data + m) - cost (length data) + (cost (length data + length q) - cost (length data + m)))%nat by lia.
Qed.

(** ** All inodes *)

(** The inode [inum] as the disk has it. *)
Definition dinode_at (im : gmap Z (list Z)) (inum : Z) : inode :=
  read_dinode (default [] (im !! IBLOCK inum new_sb)) (inum mod IPB) din0.

Record ino := Ino { g_type : Z; g_size : Z; g_data : list Z; g_bs : list Z; g_ind : option Z }.

Definition g_used (g : ino) : list Z := used (g_bs g) (g_ind g).

(** An inode of the disk is as [g] says. *)
Record ino_at (s : mkfs) (inum : Z) (g : ino) : Prop := {
  ia_type : i_type (dinode_at (img s) inum) = g_type g;
  ia_nlink : i_nlink (dinode_at (img s) inum) = 1;
  ia_dev : i_major (dinode_at (img s) inum) = 0 /\ i_minor (dinode_at (img s) inum) = 0;
  ia_size : i_size (dinode_at (img s) inum) = g_size g;
  ia_rep : frep s (dinode_at (img s) inum) (g_data g) (g_bs g) (g_ind g);
}.

(** The image so far has the inodes [gs], from number 1. *)
Record built (s : mkfs) (gs : list ino) : Prop := {
  bt_room : room s;
  bt_inode : freeinode s = 1 + Z.of_nat (length gs);
  bt_few : (length gs < 200)%nat;
  bt_used : (gs ≫= g_used) ≡ₚ seqZ nmeta (freeblock s - nmeta);
  bt_ino : forall k g, gs !! k = Some g -> ino_at s (1 + Z.of_nat k) g;
  bt_rest : forall inum, freeinode s <= inum < 208 -> dinode_at (img s) inum = din0;
}.

Lemma iblock_range inum : 0 <= inum < 208 -> 32 <= IBLOCK inum new_sb <= 44.
Proof. intros H. change (IBLOCK inum new_sb) with (inum / 16 + 32). Z.div_mod_to_equations. lia. Qed.

Lemma iblock_sector inum : 0 <= inum < 208 -> sector (IBLOCK inum new_sb).
Proof. intros H. pose proof (iblock_range inum H). unfold sector, FSSIZE. lia. Qed.

Lemma rinode_ok inum s : room s -> 0 <= inum < 208 -> rinode inum s = Done (dinode_at (img s) inum) s.
Proof.
  intros Hr Hi. destruct (rm_size _ Hr _ (iblock_sector inum Hi)) as (c & Ec & _).
  unfold rinode. rewrite (bind_done _ _ _ _ _ (rsect_ok _ _ _ (iblock_sector inum Hi) Ec)).
  unfold dinode_at. by rewrite Ec.
Qed.

(** The members that an inode of the disk does not have are those of [din0]. *)
Definition local_dinode (ip : inode) : Prop := same_dinode ip din0 = ip.

Lemma dinode_local im inum : local_dinode (dinode_at im inum).
Proof. done. Qed.

Record winode_spec (inum : Z) (ip : inode) (s s' : mkfs) : Prop := {
  wi_free : freeblock s' = freeblock s;
  wi_inode : freeinode s' = freeinode s;
  wi_room : room s';
  wi_here : dinode_at (img s') inum = ip;
  wi_other : forall inum', 0 <= inum' < 208 -> inum' <> inum -> dinode_at (img s') inum' = dinode_at (img s) inum';
  wi_frame : forall b, b < 32 \/ 44 < b -> img s' !! b = img s !! b;
}.

Lemma winode_ok inum ip s :
  room s -> 0 <= inum < 208 -> inode_ok ip -> local_dinode ip ->
  exists s', winode inum ip s = Done tt s' /\ winode_spec inum ip s s'.
Proof.
  intros Hr Hi Hok Hloc. pose proof (iblock_sector inum Hi) as Hs. pose proof (iblock_range inum Hi) as Hb.
  destruct (rm_size _ Hr _ Hs) as (c & Ec & Hc). unfold winode. rewrite (bind_done _ _ _ _ _ (rsect_ok _ _ _ Hs Ec)).
  rewrite wsect_ok by done. set (k := inum mod IPB).
  assert (Hk : 0 <= k < 16) by (apply Z.mod_pos_bound; done).
  pose proof (length_dinode_bytes ip (proj1 (io_addrs _ Hok))) as Hl.
  set (blk := splice (DINODE_SIZE * k) (dinode_bytes ip) c).
  set (s' := s {{ img ::= <[IBLOCK inum new_sb := blk]> }}).
  assert (Him : forall b, img s' !! b = if decide (b = IBLOCK inum new_sb) then Some blk else img s !! b).
  { intros b. change (<[IBLOCK inum new_sb := blk]> (img s) !! b = if decide (b = IBLOCK inum new_sb) then Some blk else img s !! b).
    case_decide as H; [by rewrite H, lookup_insert_eq|by rewrite lookup_insert_ne]. }
  exists s'. split; [done|]. split; try done.
  - apply room_write; [done|done| |].
    + pose proof (rm_free _ Hr) as [H _]. change nmeta with 46 in H. lia.
    + unfold blk. rewrite splice_length; [done|unfold DINODE_SIZE; lia|]. rewrite Hl, Hc. unfold DINODE_SIZE. lia.
  - unfold dinode_at. rewrite Him, decide_True by done. simpl. etrans; [by apply read_stored_dinode|exact Hloc].
  - intros inum' Hi' Hne. unfold dinode_at. rewrite Him. case_decide as Eb; [|done]. simpl. rewrite Eb, Ec. simpl.
    apply read_other_dinode; try done; [apply Hok|by apply Z.mod_pos_bound|].
    intros Em. apply Hne. change (inum' / 16 + 32 = inum / 16 + 32) in Eb. unfold k in Em. change IPB with 16 in Em.
    pose proof (Z.div_mod inum 16). pose proof (Z.div_mod inum' 16). lia.
  - intros b Hout. rewrite Him. by rewrite decide_False by lia.
Qed.

(** ** iappend() and ialloc() on the whole disk *)

Lemma bind_insert {A B} (f : A -> list B) (l : list A) k x y z :
  l !! k = Some x -> f y ≡ₚ f x ++ z -> (<[k := y]> l ≫= f) ≡ₚ (l ≫= f) ++ z.
Proof.
  intros Hk Hf. rewrite <- (take_drop_middle l k x Hk) at 2. rewrite insert_take_drop by by eapply lookup_lt_Some.
  rewrite !bind_app, !bind_cons, Hf, <- !app_assoc. do 2 apply Permutation_app_head. apply Permutation_app_comm.
Qed.

Lemma bind_disjoint {A B} (f : A -> list B) (l : list A) i j x y b :
  NoDup (l ≫= f) -> l !! i = Some x -> l !! j = Some y -> i <> j -> b ∈ f x -> b ∉ f y.
Proof.
  revert i j. induction l as [|a l IH]; intros i j Hn Hi Hj Hne Hx Hy; [done|].
  rewrite bind_cons in Hn. apply NoDup_app in Hn as (_ & Hd & Hn).
  assert (Hin : forall k z, l !! k = Some z -> b ∈ f z -> b ∈ l ≫= f).
  { intros k z Hk Hz. apply list_elem_of_bind. exists z. split; [done|by eapply list_elem_of_lookup_2]. }
  destruct i as [|i], j as [|j]; simpl in *.
  - done.
  - injection Hi as ->. apply (Hd b Hx). by eapply Hin.
  - injection Hj as ->. apply (Hd b Hy). by eapply Hin.
  - apply (IH i j); try done. congruence.
Qed.

Lemma arep_frame im im' ip bs ind : (forall b, ind = Some b -> im' !! b = im !! b) -> arep im ip bs ind -> arep im' ip bs ind.
Proof. intros He [H1 H2 H3 H4]. split; [done|done| |done]. intros x Hx. by rewrite He, H3. Qed.

Lemma frep_frame s s' ip data bs ind :
  (forall b, b ∈ used bs ind -> img s' !! b = img s !! b) -> freeblock s <= freeblock s' ->
  frep s ip data bs ind -> frep s' ip data bs ind.
Proof.
  intros He Hf [Ha Hc [P1 P2] Hl]. split; [| |split; [|done]|done].
  - eapply arep_frame; [|exact Ha]. intros b ->. apply He, elem_of_app. right. by apply list_elem_of_singleton.
  - eapply crep_frame; [|exact Hc]. intros b Hb. apply He, elem_of_app. by left.
  - intros b Hb. specialize (P1 b Hb). lia.
Qed.

(** The boot block, the superblock, the log and the bitmap are as they were. *)
Definition meta (s s' : mkfs) : Prop := forall x, x < 32 \/ x = 45 -> img s' !! x = img s !! x.

#[export] Instance meta_preorder : PreOrder meta.
Proof. split; [by intros s x|]. intros s1 s2 s3 H1 H2 x Hx. by rewrite H2, H1. Qed.

Lemma i16_range x : - 2 ^ 15 <= i16 x < 2 ^ 15.
Proof. unfold i16. pose proof (Z.mod_pos_bound (x + 2 ^ 15) (2 ^ 16) ltac:(lia)). lia. Qed.

(** An inode of the disk with other addresses and another size can be stored. *)
Lemma stored_ok s im inum ip bs ind size :
  ip = (dinode_at im inum) {{ i_addrs := i_addrs ip }} -> arep (img s) ip bs ind -> placed s bs ind -> room s ->
  0 <= size < 2 ^ 32 ->
  inode_ok (ip {{ i_size := size }}) /\ local_dinode (ip {{ i_size := size }}).
Proof.
  intros -> Ha Hp Hr Hs. split; [|done]. split; try apply i16_range; [done|].
  change (length (i_addrs ip) = 13%nat /\ Forall (fun a => 0 <= a < 2 ^ 32) (i_addrs ip)).
  pose proof (ar_addrs _ _ _ _ Ha) as E. change (i_addrs ip = take 12 bs ++ replicate (12 - length bs) 0 ++ [default 0 ind]) in E.
  rewrite E. split; [apply addrs_12|].
  assert (Hb : forall b, b ∈ used bs ind -> 0 <= b < 2 ^ 32).
  { intros b Hb. pose proof (sector_of _ _ _ _ Hr Hp Hb) as H. unfold sector, FSSIZE in H. lia. }
  rewrite !Forall_app. split; [|split].
  - apply Forall_forall. intros b Hin. apply Hb, elem_of_app. left. by apply elem_of_take in Hin as (i & Hi & _); eapply list_elem_of_lookup_2.
  - apply Forall_replicate. lia.
  - constructor; [|constructor]. destruct ind as [i|]; simpl; [|lia]. apply Hb, elem_of_app. right. by apply list_elem_of_singleton.
Qed.

(** The blocks of another inode. *)
Lemma built_apart s gs i j g h b :
  built s gs -> gs !! i = Some g -> gs !! j = Some h -> i <> j -> b ∈ g_used g -> b ∉ g_used h.
Proof.
  intros Hb Hi Hj Hne. eapply bind_disjoint; [|done..]. rewrite (bt_used _ _ Hb). apply NoDup_seqZ.
Qed.

Lemma built_inum s gs k g : built s gs -> gs !! k = Some g -> 0 <= 1 + Z.of_nat k < 208.
Proof. intros Hb Hk. apply lookup_lt_Some in Hk. pose proof (bt_few _ _ Hb). lia. Qed.

(** A change of one file: the blocks [bs'] instead of [bs], and its inode. *)
Lemma built_update s gs k g s1 ip1 s2 n size data bs' ind' :
  built s gs -> gs !! k = Some g ->
  grown s (dinode_at (img s) (1 + Z.of_nat k)) (g_bs g) (g_ind g) n s1 ip1 bs' ind' ->
  frep s1 ip1 data bs' ind' -> winode_spec (1 + Z.of_nat k) (ip1 {{ i_size := size }}) s1 s2 ->
  built s2 (<[k := Ino (g_type g) size data bs' ind']> gs) /\ freeblock s2 = freeblock s + Z.of_nat n /\ meta s s2.
Proof.
  intros Hb Hk [F I R U P M] Hf [WF WI WR WH WO WM]. set (g' := Ino (g_type g) size data bs' ind').
  pose proof (bt_room _ _ Hb) as Hr. pose proof (rm_free _ Hr) as [H46 _]. change nmeta with 46 in H46.
  pose proof (built_inum _ _ _ _ Hb Hk) as Hin.
  assert (Hnew : forall b, b ∈ used bs' ind' -> b ∈ g_used g \/ freeblock s <= b).
  { intros b Hx. rewrite U in Hx. apply elem_of_app in Hx as [Hx|Hx]; [by left|right]. apply elem_of_seqZ in Hx. lia. }
  assert (Hold : forall j h b, gs !! j = Some h -> b ∈ g_used h -> 46 <= b < freeblock s).
  { intros j h b Hj Hx. apply (pl_range _ _ _ (fr_placed _ _ _ _ _ (ia_rep _ _ _ (bt_ino _ _ Hb j h Hj)))). done. }
  assert (Him : forall b, b < 46 -> img s1 !! b = img s !! b).
  { intros b Hlt. apply M. intros Hx. destruct (Hnew b Hx) as [Hx'|]; [|lia]. pose proof (Hold k g b Hk Hx'). lia. }
  assert (Hdi : forall inum, 0 <= inum < 208 -> dinode_at (img s1) inum = dinode_at (img s) inum).
  { intros inum Hi. unfold dinode_at. rewrite Him; [done|]. pose proof (iblock_range inum Hi). lia. }
  split; [|split; [lia|intros x Hx; rewrite WM by lia; destruct Hx as [Hx | ->]; apply Him; lia]].
  split; [done| |by rewrite length_insert; apply Hb| | |].
  - rewrite WI, I, length_insert. apply Hb.
  - rewrite (bind_insert g_used gs k g g' (seqZ (freeblock s) (Z.of_nat n)) Hk U), (bt_used _ _ Hb), WF, F.
    change nmeta with 46. replace (freeblock s + Z.of_nat n - 46) with ((freeblock s - 46) + Z.of_nat n) by lia.
    rewrite seqZ_app by lia. by replace (46 + (freeblock s - 46)) with (freeblock s) by lia.
  - intros j h Hj. destruct (decide (j = k)) as [-> |Hne].
    + rewrite list_lookup_insert_eq in Hj by by eapply lookup_lt_Some. injection Hj as <-.
      destruct (bt_ino _ _ Hb k g Hk) as [I1 I2 I3 I4 _]. rewrite P in WH.
      assert (Hf2 : frep s2 ip1 data bs' ind').
      { apply (frep_frame s1); [|rewrite WF; lia|exact Hf]. intros b Hx. apply WM. right.
        destruct (Hnew b Hx) as [Hx'|]; [|lia]. pose proof (Hold k g b Hk Hx'). lia. }
      split; rewrite ?WH; try done. destruct Hf2 as [[A1 A2 A3 A4] F2 F3 F4]. by split; [split|..].
    + rewrite list_lookup_insert_ne in Hj by done. pose proof (built_inum _ _ _ _ Hb Hj) as Hjn.
      destruct (bt_ino _ _ Hb j h Hj) as [I1 I2 I3 I4 I5].
      assert (Hsame : dinode_at (img s2) (1 + Z.of_nat j) = dinode_at (img s) (1 + Z.of_nat j)).
      { rewrite WO by lia. by apply Hdi. }
      split; rewrite ?Hsame; try done. apply (frep_frame s); [|rewrite WF, F; lia|exact I5].
      intros b Hx. pose proof (Hold j h b Hj Hx). rewrite WM by lia. apply M. intros Hx'.
      destruct (Hnew b Hx') as [Hx''|]; [|lia]. by eapply (built_apart s gs j k).
  - intros inum Hi. rewrite WI, I, (bt_inode _ _ Hb) in Hi. rewrite WO, Hdi by (apply lookup_lt_Some in Hk; lia).
    apply Hb. rewrite (bt_inode _ _ Hb). lia.
Qed.

Lemma iappend_ok s gs k g p :
  built s gs -> gs !! k = Some g -> g_size g = Z.of_nat (length (g_data g)) ->
  (length (g_data g) + length p <= 268 * 1024)%nat ->
  freeblock s + Z.of_nat (cost (length (g_data g) + length p)) - Z.of_nat (cost (length (g_data g))) <= FSSIZE ->
  exists s' bs' ind', iappend (1 + Z.of_nat k) p s = Done tt s' /\
    built s' (<[k := Ino (g_type g) (Z.of_nat (length (g_data g ++ p))) (g_data g ++ p) bs' ind']> gs) /\
    freeblock s' = freeblock s + Z.of_nat (cost (length (g_data g) + length p) - cost (length (g_data g))) /\ meta s s'.
Proof.
  intros Hb Hk Hsize Hmax Hroom. pose proof (bt_room _ _ Hb) as Hr. pose proof (built_inum _ _ _ _ Hb Hk) as Hin.
  destruct (bt_ino _ _ Hb k g Hk) as [I1 I2 I3 I4 I5].
  destruct (append_loop (Datatypes.S (length p)) p s _ (g_data g) (g_bs g) (g_ind g) Hr I5 ltac:(lia) Hmax Hroom)
    as (s1 & ip1 & bs1 & ind1 & E & Hf & G).
  assert (Hlen : 0 <= Z.of_nat (length (g_data g ++ p)) < 2 ^ 32) by (rewrite length_app; lia).
  destruct (stored_ok s1 _ _ ip1 bs1 ind1 _ (gr_ip _ _ _ _ _ _ _ _ _ G) (fr_arep _ _ _ _ _ Hf) (fr_placed _ _ _ _ _ Hf) (gr_room _ _ _ _ _ _ _ _ _ G) Hlen) as [Hok Hloc].
  destruct (winode_ok (1 + Z.of_nat k) _ s1 (gr_room _ _ _ _ _ _ _ _ _ G) Hin Hok Hloc) as (s2 & E2 & W).
  exists s2, bs1, ind1. split.
  - unfold iappend. rewrite (bind_done _ _ _ _ _ (rinode_ok _ s Hr Hin)). rewrite I4, Hsize, xint_small by lia.
    rewrite (bind_done _ _ _ _ _ E). by rewrite xint_small.
  - by eapply built_update.
Qed.

Lemma xshort_small x : 0 <= x < 2 ^ 16 -> xshort x = x.
Proof. intros Hx. unfold xshort. rewrite le_value_int_bytes. apply Z.mod_small. lia. Qed.

Definition new_ino (type : Z) : ino := Ino type 0 [] [] None.

Lemma ialloc_ok s gs type :
  built s gs -> (length gs < 199)%nat -> 0 <= type < 2 ^ 15 ->
  exists s', ialloc type s = Done (1 + Z.of_nat (length gs)) s' /\ built s' (gs ++ [new_ino type]) /\
    freeblock s' = freeblock s /\ meta s s'.
Proof.
  intros Hb Hl Ht. pose proof (bt_room _ _ Hb) as Hr. pose proof (bt_inode _ _ Hb) as Hi.
  set (inum := 1 + Z.of_nat (length gs)) in *. assert (Hin : 0 <= inum < 208) by lia.
  set (s0 := s {{ freeinode ::= fun n => u32 (n + 1) }}).
  assert (Hr0 : room s0) by (destruct Hr; by split).
  set (ip := din0 {{ i_type := i16 (xshort type); i_nlink := i16 (xshort 1); i_size := xint 0 }}).
  assert (Et : i_type ip = type) by (change (i16 (xshort type) = type); rewrite xshort_small by lia; apply i16_small; lia).
  assert (Hok : inode_ok ip).
  { split; try (change (- 2 ^ 15 <= 0 < 2 ^ 15); lia).
    - rewrite Et. lia.
    - done.
    - split; [done|]. apply Forall_replicate. lia. }
  destruct (winode_ok inum ip s0 Hr0 Hin Hok eq_refl) as (s' & E & [WF WI WR WH WO WM]).
  assert (Hf : freeblock s' = freeblock s) by exact WF.
  assert (Hn : freeinode s' = 1 + Z.of_nat (length gs + 1)).
  { rewrite WI. change (u32 (freeinode s + 1) = 1 + Z.of_nat (length gs + 1)). rewrite Hi, u32_small by lia. lia. }
  exists s'. split; [|split; [|split; [done|intros x Hx; rewrite WM by lia; done]]].
  - unfold ialloc. erewrite bind_done by done. rewrite Hi. erewrite bind_done by done.
    fold s0 ip. by rewrite (bind_done _ _ _ _ _ E).
  - split; [done|by rewrite Hn, length_app|rewrite length_app; simpl; lia| | |].
    + rewrite bind_app, Hf. change ([new_ino type] ≫= g_used) with (@nil Z). rewrite app_nil_r. apply Hb.
    + intros k g Hk. apply lookup_snoc_Some in Hk as [[Hlt Hk]|[-> <-]].
      * pose proof (built_inum _ _ _ _ Hb Hk) as Hjn. destruct (bt_ino _ _ Hb k g Hk) as [I1 I2 I3 I4 I5].
        assert (Hsame : dinode_at (img s') (1 + Z.of_nat k) = dinode_at (img s) (1 + Z.of_nat k)) by (rewrite WO by lia; done).
        split; rewrite ?Hsame; try done. apply (frep_frame s); [|lia|exact I5].
        intros b Hx. pose proof (pl_range _ _ _ (fr_placed _ _ _ _ _ I5) b Hx) as Hrg. change nmeta with 46 in Hrg.
        rewrite WM by lia. done.
      * fold inum. split; rewrite ?WH; try done.
        split; [| |split; [by intros b ?%elem_of_nil|constructor]|done].
        -- split; [done| |done|simpl; lia]. split; [by intros [? ?]|simpl; lia].
        -- exists []. split; [constructor|]. split; [simpl; lia|done].
    + intros j Hj. rewrite Hn in Hj. rewrite WO by lia. change (img s0) with (img s). apply Hb. lia.
Qed.

(** ** The disk as a list of files *)

Definition file_cost (d : Z * list Z) : nat := cost (length (snd d)).
Definition total (ds : list (Z * list Z)) : nat := sum_list_with file_cost ds.

(** The files on the disk, from inode number 1, are [ds] (types and bytes). *)
Definition made (s : mkfs) (ds : list (Z * list Z)) : Prop :=
  freeblock s = nmeta + Z.of_nat (total ds) /\
  exists gs, built s gs /\
    Forall2 (fun g d => g_type g = fst d /\ g_data g = snd d /\ g_size g = Z.of_nat (length (snd d))) gs ds.

Lemma blocks_insert ds k x y :
  ds !! k = Some x -> (total (<[k := y]> ds) + file_cost x = total ds + file_cost y)%nat.
Proof.
  intros Hk. unfold total. rewrite <- (take_drop_middle ds k x Hk) at 2. rewrite insert_take_drop by by eapply lookup_lt_Some.
  rewrite !sum_list_with_app. cbn [sum_list_with]. lia.
Qed.

Lemma blocks_snoc ds d : total (ds ++ [d]) = (total ds + file_cost d)%nat.
Proof. unfold total. rewrite sum_list_with_app. cbn [sum_list_with]. lia. Qed.

Lemma iappend_made s ds k t d p :
  made s ds -> ds !! k = Some (t, d) -> (length d + length p <= 268 * 1024)%nat ->
  nmeta + Z.of_nat (total (<[k := (t, d ++ p)]> ds)) <= FSSIZE ->
  exists s', iappend (1 + Z.of_nat k) p s = Done tt s' /\ made s' (<[k := (t, d ++ p)]> ds) /\ meta s s'.
Proof.
  intros (Hf & gs & Hb & Hs) Hk Hm Hroom. destruct (Forall2_lookup_r _ _ _ _ _ Hs Hk) as (g & Hg & Et & Ed & Ez). cbn [fst snd] in *.
  pose proof (blocks_insert ds k (t, d) (t, d ++ p) Hk) as Htot.
  unfold file_cost in Htot. cbn [snd] in Htot. rewrite (length_app d p) in Htot.
  pose proof (cost_mono (length d) (length d + length p) ltac:(lia)) as Hc.
  destruct (iappend_ok s gs k g p Hb Hg) as (s' & bs' & ind' & E & Hb' & Hf' & Hm'); rewrite ?Ed in *; try done; [lia|].
  exists s'. split; [done|]. split; [|done]. split; [lia|]. eexists. split; [exact Hb'|].
  apply Forall2_insert; [done|]. by rewrite Et.
Qed.

Lemma ialloc_made s ds type :
  made s ds -> (length ds < 199)%nat -> 0 <= type < 2 ^ 15 ->
  exists s', ialloc type s = Done (1 + Z.of_nat (length ds)) s' /\ made s' (ds ++ [(type, [])]) /\ meta s s'.
Proof.
  intros (Hf & gs & Hb & Hs) Hl Ht. pose proof (Forall2_length _ _ _ Hs) as Hlen.
  destruct (ialloc_ok s gs type Hb ltac:(lia) Ht) as (s' & E & Hb' & Hf' & Hm').
  exists s'. rewrite <- Hlen. split; [done|]. split; [|done]. split; [rewrite blocks_snoc, Hf'; change (file_cost (type, [])) with 0%nat; lia|].
  eexists. split; [exact Hb'|]. apply Forall2_app; [done|]. by constructor.
Qed.
