(* ===== verification/MkfsMain.v ===== *)
(** The image as a reader sees it, and main(): the disk that mkfs makes of a list of
    host files has the superblock that the kernel reads, an empty log, the files with
    their bytes, a root directory that names them, and the bitmap of the blocks they
    take. *)

From S2P Require Import Prelude Mem Riscv Locks Kalloc Vm Proc ProcFacts Kernel KernelFacts Bytes Uart Printf Sleeplock Bio Log Fs Inode FsRead Mkfs MkfsProps.

(** ** Reading an image *)

(** The sector [x]. *)
Definition sec (im : gmap Z (list Z)) (x : Z) : list Z := default [] (im !! x).

(** All addresses of a file. *)
Definition file_blocks (im : gmap Z (list Z)) (ip : inode) : list Z :=
  let addrs := i_addrs ip ++
    (if get_addr ip NDIRECT =? 0 then [] else (fun k => field (4 * Z.of_nat k) 4 (sec im (get_addr ip NDIRECT))) <$> seq 0 256) in
  filter (fun a => a <> 0) addrs.

(** Bit [b] of the bitmap block. *)
Definition bit_of (bm : list Z) (b : Z) : bool := Z.testbit (default 0 (geti bm (b / 8))) (b mod 8).

Lemma block_addr im ip bs ind k :
  arep im ip bs ind -> (k < 268)%nat -> (forall b, b ∈ bs -> 0 <= b < 2 ^ 32) -> (k < 12 \/ k < length bs)%nat ->
  blk_addr (sec im) ip (Z.of_nat k) = default 0 (bs !! k).
Proof.
  intros Ha Hk Hr Hlt. unfold blk_addr. destruct (Z.ltb_spec (Z.of_nat k) NDIRECT) as [H12|H12]; change NDIRECT with 12 in H12.
  { apply (get_addr_direct _ _ _ _ k Ha). lia. }
  change (default 0 (geti (i_addrs ip) NDIRECT)) with (get_addr ip NDIRECT).
  assert (Hl : (k < length bs)%nat) by lia. destruct (proj2 (ar_ind _ _ _ _ Ha) ltac:(lia)) as [i Hi].
  rewrite (get_addr_ind _ _ _ _ Ha), Hi. simpl. unfold sec. rewrite (ar_table _ _ _ _ Ha i Hi). simpl.
  destruct (lookup_lt_is_Some_2 bs k Hl) as [x Hx]. rewrite Hx. simpl.
  replace (4 * (Z.of_nat k - NDIRECT)) with (4 * Z.of_nat (k - 12)) by (change NDIRECT with 12; lia).
  apply table_lookup; [|apply Hr; by eapply list_elem_of_lookup_2].
  rewrite lookup_drop. by replace (12 + (k - 12))%nat with k by lia.
Qed.

(** Every block that the size covers is there. *)
Record present (im : gmap Z (list Z)) (ip : inode) : Prop := {
  pr_size : 0 <= i_size ip <= MAXFILE * BSIZE;
  pr_blocks : forall k, 0 <= k -> k * BSIZE < i_size ip -> nmeta <= blk_addr (sec im) ip k < FSSIZE;
  pr_indirect : NDIRECT * BSIZE < i_size ip -> nmeta <= get_addr ip NDIRECT < FSSIZE;
}.

Lemma used_range s bs ind b : room s -> placed s bs ind -> b ∈ used bs ind -> nmeta <= b < FSSIZE.
Proof. intros Hr Hp Hb. pose proof (pl_range _ _ _ Hp b Hb). pose proof (rm_free _ Hr). lia. Qed.

Lemma present_file s ip data bs ind :
  room s -> frep s ip data bs ind -> 0 <= i_size ip <= BSIZE * Z.of_nat (length bs) -> present (img s) ip.
Proof.
  intros Hr [Ha Hc Hp _] Hs. pose proof (ar_max _ _ _ _ Ha) as Hmax. change BSIZE with 1024 in *.
  assert (Hu : forall k, (k < length bs)%nat -> nmeta <= default 0 (bs !! k) < FSSIZE).
  { intros k Hk. destruct (lookup_lt_is_Some_2 bs k Hk) as [x Hx]. rewrite Hx.
    apply (used_range s bs ind); [done|done|by eapply used_blk]. }
  split.
  - change (MAXFILE * BSIZE) with 274432. lia.
  - intros k Hk Hlt. change BSIZE with 1024 in Hlt. replace k with (Z.of_nat (Z.to_nat k)) by lia.
    rewrite (block_addr _ _ bs ind); [apply Hu; lia|done|lia| |lia].
    intros b Hb. pose proof (used_range s bs ind b Hr Hp ltac:(apply elem_of_app; by left)) as H.
    change nmeta with 46 in H. unfold FSSIZE in H. lia.
  - intros Hlt. change (NDIRECT * BSIZE) with 12288 in Hlt. rewrite (get_addr_ind _ _ _ _ Ha).
    destruct (proj2 (ar_ind _ _ _ _ Ha) ltac:(lia)) as [i ->]. apply (used_range s bs (Some i)); [done|done|].
    apply elem_of_app. right. by apply list_elem_of_singleton.
Qed.

(** The data, and the zeroes that a size beyond it shows; block 0 stands for a block that is not there. *)
Lemma file_bytes_data s ip data bs ind :
  room s -> frep s ip data bs ind -> img s !! 0 = Some zeroes ->
  0 <= i_size ip -> (length data <= Z.to_nat (i_size ip))%nat ->
  (nblk (Z.to_nat (i_size ip)) <= 12 \/ nblk (Z.to_nat (i_size ip)) = length bs)%nat ->
  file_bytes (sec (img s)) ip = data ++ replicate (Z.to_nat (i_size ip) - length data) 0.
Proof.
  intros Hr [Ha Hc Hp Hl] H0 Hs Hd Hn. set (n := Z.to_nat (i_size ip)) in *. unfold file_bytes. fold n.
  pose proof Hc as (cs & Hf & Hlen & Econ).
  assert (Hle : (length bs <= nblk n)%nat) by (rewrite Hl; by apply nblk_mono).
  assert (Hmul : (n <= 1024 * nblk n)%nat).
  { unfold nblk. pose proof (Nat.div_mod (n + 1023) 1024 ltac:(lia)). pose proof (Nat.mod_upper_bound (n + 1023) 1024 ltac:(lia)). lia. }
  assert (E : (fun k => sec (img s) (blk_addr (sec (img s)) ip (Z.of_nat k))) <$> seq 0 (nblk n) = cs ++ replicate (nblk n - length bs) zeroes).
  { apply list_eq. intros k. pose proof (Forall2_length _ _ _ Hf) as Hcl.
    destruct (decide (k < nblk n)%nat) as [Hk|Hk].
    - rewrite list_lookup_fmap, lookup_seq_lt by done. simpl.
      pose proof (ar_max _ _ _ _ Ha).
      assert (Hb : blk_addr (sec (img s)) ip (Z.of_nat k) = default 0 (bs !! k)).
      { apply (block_addr _ _ bs ind); [done|lia| |lia]. intros b Hb.
        pose proof (sector_of s bs ind b Hr Hp ltac:(apply elem_of_app; by left)) as Hsec. unfold sector, FSSIZE in Hsec. lia. }
      rewrite Hb. destruct (decide (k < length bs)%nat) as [Hkb|Hkb].
      + destruct (lookup_lt_is_Some_2 bs k Hkb) as [x Hx]. rewrite Hx. simpl.
        destruct (Forall2_lookup_l _ _ _ _ _ Hf Hx) as (c & Hck & Ec & _). unfold sec. rewrite Ec.
        simpl. symmetry. by apply lookup_app_l_Some.
      + rewrite (lookup_ge_None_2 bs) by lia. simpl. unfold sec. rewrite H0. simpl.
        rewrite lookup_app_r by lia. rewrite lookup_replicate_2 by lia. done.
    - rewrite lookup_ge_None_2 by (rewrite length_fmap, length_seq; lia). symmetry. apply lookup_ge_None_2.
      rewrite length_app, length_replicate. lia. }
  rewrite E, concat_app, Econ. 
  assert (Ez : concat (replicate (nblk n - length bs) zeroes) = replicate (1024 * (nblk n - length bs)) 0).
  { generalize (nblk n - length bs)%nat as m. intros m. induction m as [|m IH]; [done|]. cbn [replicate concat]. rewrite IH.
    unfold zeroes. rewrite <- replicate_add. f_equal. unfold BSIZE. lia. }
  rewrite Ez, <- app_assoc, <- replicate_add, take_app_ge by lia. rewrite take_replicate. do 2 f_equal. lia.
Qed.

Lemma filter_zeroes n : filter (fun a : Z => a <> 0) (replicate n 0) = [].
Proof. induction n as [|n IH]; [done|]. simpl. rewrite filter_cons_False; [done|]. by intros []. Qed.

Lemma filter_all (l : list Z) : (forall b, b ∈ l -> b <> 0) -> filter (fun a : Z => a <> 0) l = l.
Proof.
  induction l as [|b l IH]; intros H; [done|]. rewrite filter_cons_True by (apply H; by left).
  f_equal. apply IH. intros c Hc. apply H. by right.
Qed.

(** The table of addresses, read number by number. *)
Lemma table_fields bs :
  (length bs <= 256)%nat -> (forall b, b ∈ bs -> 0 <= b < 2 ^ 32) ->
  (fun k => field (4 * Z.of_nat k) 4 (table bs)) <$> seq 0 256 = bs ++ replicate (256 - length bs) 0.
Proof.
  intros Hl Hr. apply list_eq. intros k. destruct (decide (k < 256)%nat) as [Hk|Hk].
  - rewrite list_lookup_fmap, lookup_seq_lt by done. cbn [fmap option_fmap option_map]. rewrite Nat.add_0_l.
    destruct (decide (k < length bs)%nat) as [Hb|Hb].
    + destruct (lookup_lt_is_Some_2 bs k Hb) as [x Hx]. rewrite (table_lookup bs k x Hx).
      * symmetry. by apply lookup_app_l_Some.
      * apply Hr. by eapply list_elem_of_lookup_2.
    + rewrite table_free by lia. rewrite lookup_app_r by lia. by rewrite lookup_replicate_2 by lia.
  - rewrite lookup_ge_None_2 by (rewrite length_fmap, length_seq; lia). symmetry. apply lookup_ge_None_2.
    rewrite length_app, length_replicate. lia.
Qed.

Lemma file_blocks_used s ip data bs ind :
  room s -> frep s ip data bs ind -> file_blocks (img s) ip ≡ₚ used bs ind.
Proof.
  intros Hr [Ha _ Hp _].
  assert (Hpos : forall b, b ∈ used bs ind -> 46 <= b < 2000).
  { intros b Hb. pose proof (pl_range _ _ _ Hp b Hb). pose proof (sector_of _ _ _ _ Hr Hp Hb) as Hs. unfold sector, FSSIZE in Hs.
    change nmeta with 46 in *. lia. }
  unfold file_blocks. rewrite (get_addr_ind _ _ _ _ Ha), (ar_addrs _ _ _ _ Ha).
  assert (Hbs : forall b l, l = take 12 bs \/ l = drop 12 bs -> b ∈ l -> b ∈ used bs ind).
  { intros b l Hl Hb. apply elem_of_app. left. rewrite <- (take_drop 12 bs). apply elem_of_app. destruct Hl as [-> | ->]; auto. }
  rewrite !filter_app, filter_zeroes. rewrite (filter_all (take 12 bs)) by (intros b Hb; specialize (Hpos b (Hbs b _ (or_introl eq_refl) Hb)); lia).
  destruct ind as [i|] eqn:Hi.
  - assert (Hin : i ∈ used bs (Some i)) by (apply elem_of_app; right; by apply list_elem_of_singleton).
    specialize (Hpos i Hin) as Hi'. change (default 0 (Some i)) with i. rewrite (proj2 (Z.eqb_neq i 0)) by lia.
    unfold sec. rewrite (ar_table _ _ _ _ Ha i eq_refl). change (default [] (Some (table (drop 12 bs)))) with (table (drop 12 bs)).
    rewrite table_fields.
    + rewrite filter_app, filter_zeroes, app_nil_r, app_nil_l.
      rewrite (filter_all (drop 12 bs)) by (intros b Hb; specialize (Hpos b (Hbs b _ (or_intror eq_refl) Hb)); lia).
      rewrite (filter_all [i]) by (intros b Hb; apply list_elem_of_singleton in Hb as ->; lia).
      unfold used. cbn [option_list]. rewrite <- app_assoc, (Permutation_app_comm [i]), app_assoc.
      by rewrite (take_drop 12 bs).
    + rewrite length_drop. pose proof (ar_max _ _ _ _ Ha). lia.
    + intros b Hb. specialize (Hpos b (Hbs b _ (or_intror eq_refl) Hb)). lia.
  - change (default 0 None =? 0) with true. cbv iota. unfold used. cbn [option_list]. rewrite filter_nil.
    rewrite !app_nil_r. change (filter (fun a : Z => a <> 0) [default 0 None]) with (@nil Z).
    rewrite take_ge; [done|]. destruct (decide (length bs <= 12)%nat); [done|].
    destruct (proj2 (ar_ind _ _ _ _ Ha) ltac:(lia)) as [? [=]].
Qed.

(** ** The bitmap *)

Lemma length_set_bit buf i : length (set_bit buf i) = length buf.
Proof. unfold set_bit, seti. case_match; [by rewrite length_insert|done]. Qed.

Lemma set_bit_of buf i b :
  0 <= i < 8 * Z.of_nat (length buf) -> 0 <= b -> bit_of (set_bit buf i) b = (b =? i) || bit_of buf b.
Proof.
  intros Hi Hb. unfold bit_of, set_bit. pose proof (Z.mod_pos_bound b 8 ltac:(lia)) as Hm.
  pose proof (Z.mod_pos_bound i 8 ltac:(lia)) as Hmi.
  pose proof (Z.div_mod b 8 ltac:(lia)) as Db. pose proof (Z.div_mod i 8 ltac:(lia)) as Di.
  assert (Hid : 0 <= i / 8 < Z.of_nat (length buf)) by (split; [apply Z.div_pos; lia|apply Z.div_lt_upper_bound; lia]).
  destruct (decide (b / 8 = i / 8)) as [E|E].
  - rewrite E, geti_seti_eq by lia. cbn [from_option id]. unfold u8. rewrite Z.mod_pow2_bits_low by lia.
    rewrite Z.lor_spec, Z.shiftl_1_l, Z.pow2_bits_eqb by lia. rewrite orb_comm. f_equal.
    destruct (Z.eqb_spec b i), (Z.eqb_spec (i mod 8) (b mod 8)); lia || (subst; congruence).
  - rewrite geti_seti_ne by (lia || done). by rewrite (proj2 (Z.eqb_neq b i)) by (intros ->; done).
Qed.

(** The loop of balloc(). *)
Lemma bitmap_bits n b :
  Z.of_nat n <= 8192 -> 0 <= b ->
  length (fold_left set_bit (seqZ 0 (Z.of_nat n)) zeroes) = 1024%nat /\
  bit_of (fold_left set_bit (seqZ 0 (Z.of_nat n)) zeroes) b = (b <? Z.of_nat n).
Proof.
  intros Hn Hb. induction n as [|n IH].
  - change (fold_left set_bit (seqZ 0 (Z.of_nat 0)) zeroes) with zeroes. split; [done|]. rewrite (proj2 (Z.ltb_ge b _)) by lia. unfold bit_of.
    replace (default 0 (geti zeroes (b / 8))) with 0; [apply Z.bits_0|]. unfold geti. case_match; [|done].
    unfold zeroes. destruct (replicate (Z.to_nat BSIZE) 0 !! Z.to_nat (b / 8)) eqn:E; [|done].
    by apply lookup_replicate in E as [-> _].
  - destruct (IH ltac:(lia)) as [Hl Hbit]. replace (Datatypes.S n) with (n + 1)%nat by lia. rewrite seqZ_app_nat.
    change (seqZ (0 + Z.of_nat n) (Z.of_nat 1)) with [0 + Z.of_nat n]. rewrite fold_left_app. cbn [fold_left]. rewrite Z.add_0_l.
    rewrite length_set_bit. split; [done|]. rewrite set_bit_of by lia. rewrite Hbit.
    destruct (Z.eqb_spec b (Z.of_nat n)), (Z.ltb_spec b (Z.of_nat n)), (Z.ltb_spec b (Z.of_nat (n + 1))); done || lia.
Qed.

(** ** What the image is made of *)

Definition host_name (f : host_file) : list Z := without_underscore (shortname (fst f)).
Definition host_data (f : host_file) : list Z := concat (default [] (snd f)).

(** A file that can be opened, is named without a slash, and is not too large. *)
Definition host_ok (f : host_file) : Prop :=
  (slash ∉ shortname (fst f)) /\ is_Some (snd f) /\ (length (host_data f) <= 268 * 1024)%nat.

(** A directory's entry, and the entries of the files from the inode [n] on. *)
Definition entry (inum : Z) (name : list Z) : list Z := dirent_bytes (Dirent inum (pad_name (Z.to_nat DIRSIZ) name)).
Fixpoint entries (n : Z) (files : list host_file) : list Z :=
  match files with
  | [] => []
  | f :: files => entry n (host_name f) ++ entries (n + 1) files
  end.

Definition root_data (files : list host_file) : list Z :=
  entry ROOTINO (str ".") ++ entry ROOTINO (str "..") ++ entries 2 files.

(** The inodes from number 1 on: the root directory and the files. *)
Definition of_host (f : host_file) : Z * list Z := (T_FILE, host_data f).
Definition disk_files (files : list host_file) : list (Z * list Z) := (T_DIR, root_data files) :: (of_host <$> files).

Lemma length_pad_name n s : length (pad_name n s) = n.
Proof. unfold pad_name. rewrite length_app, length_replicate. pose proof (firstn_le_length n (cstr s)). lia. Qed.

Lemma length_entry inum name : length (entry inum name) = 16%nat.
Proof. unfold entry, dirent_bytes. cbn [d_inum d_name]. by rewrite length_app, length_int_bytes, length_pad_name. Qed.

Lemma length_entries n files : length (entries n files) = (16 * length files)%nat.
Proof. revert n. induction files as [|f files IH]; intros n; [done|]. cbn [entries]. rewrite length_app, length_entry, IH. simpl. lia. Qed.

Lemma file_cost_mono t d d' : (length d <= length d')%nat -> (file_cost (t, d) <= file_cost (t, d'))%nat.
Proof. apply cost_mono. Qed.

(** ** The loops of main() *)

Lemma each_append : forall pieces s ds k t d,
  made s ds -> ds !! k = Some (t, d) -> (length d + length (concat pieces) <= 268 * 1024)%nat ->
  nmeta + Z.of_nat (total (<[k := (t, d ++ concat pieces)]> ds)) <= FSSIZE ->
  exists s', each (fun buf => iappend (1 + Z.of_nat k) buf) pieces s = Done tt s' /\
    made s' (<[k := (t, d ++ concat pieces)]> ds) /\ meta s s'.
Proof.
  induction pieces as [|p pieces IH]; intros s ds k t d Hm Hk Hl Hroom.
  - exists s. cbn [concat]. rewrite app_nil_r, list_insert_id by done. done.
  - cbn [concat] in *. rewrite length_app in Hl.
    pose proof (blocks_insert ds k _ (t, d ++ p) Hk) as H1. pose proof (blocks_insert ds k _ (t, d ++ p ++ concat pieces) Hk) as H2.
    pose proof (file_cost_mono t (d ++ p) (d ++ p ++ concat pieces) ltac:(rewrite !length_app; lia)) as H3.
    destruct (iappend_made s ds k t d p Hm Hk ltac:(lia) ltac:(lia)) as (s1 & E1 & Hm1 & M1).
    pose proof (lookup_lt_Some _ _ _ Hk) as Hlt.
    destruct (IH s1 (<[k := (t, d ++ p)]> ds) k t (d ++ p) Hm1) as (s2 & E2 & Hm2 & M2).
    + by apply list_lookup_insert_eq.
    + rewrite length_app. lia.
    + rewrite list_insert_insert_eq, <- app_assoc. lia.
    + rewrite list_insert_insert_eq, <- app_assoc in Hm2. exists s2. split; [|split; [done|by etrans]].
      cbn [each]. by rewrite (bind_done _ _ _ _ _ E1).
Qed.

Lemma add_entry_made s rd ds inum name :
  made s ((T_DIR, rd) :: ds) -> 0 <= inum < 2 ^ 16 -> (length rd + 16 <= 268 * 1024)%nat ->
  nmeta + Z.of_nat (total ((T_DIR, rd ++ entry inum name) :: ds)) <= FSSIZE ->
  exists s', add_entry ROOTINO inum name s = Done tt s' /\ made s' ((T_DIR, rd ++ entry inum name) :: ds) /\ meta s s'.
Proof.
  intros Hm Hi Hl Hroom. unfold add_entry. rewrite xshort_small by done.
  apply (iappend_made s ((T_DIR, rd) :: ds) 0 T_DIR rd (entry inum name) Hm eq_refl); [by rewrite length_entry|done].
Qed.

Lemma blocks_cons d ds : total (d :: ds) = (file_cost d + total ds)%nat.
Proof. done. Qed.

Lemma blocks_join ds ds' : total (ds ++ ds') = (total ds + total ds')%nat.
Proof. apply sum_list_with_app. Qed.

Lemma insert_snoc {A} (l : list A) x y : <[length l := y]> (l ++ [x]) = l ++ [y].
Proof. rewrite <- (Nat.add_0_r (length l)) at 1. by rewrite insert_app_r. Qed.

Lemma add_file_made s rd ds f :
  made s ((T_DIR, rd) :: ds) -> host_ok f -> (length ds < 198)%nat -> (length rd + 16 <= 268 * 1024)%nat ->
  let e := entry (2 + Z.of_nat (length ds)) (host_name f) in
  nmeta + Z.of_nat (total ((T_DIR, rd ++ e) :: ds ++ [of_host f])) <= FSSIZE ->
  exists s', add_file ROOTINO f s = Done tt s' /\ made s' ((T_DIR, rd ++ e) :: ds ++ [of_host f]) /\ meta s s'.
Proof.
  destruct f as [path opened]. intros Hm (Hs & [pieces Hp] & Hd) Hl Hrd e Hroom. cbn [fst snd] in *. subst opened.
  change (host_data (path, Some pieces)) with (concat pieces) in Hd. change (of_host (path, Some pieces)) with (T_FILE, concat pieces) in *.
  rewrite blocks_cons, blocks_join in Hroom.
  destruct (ialloc_made s _ T_FILE Hm ltac:(cbn [length]; lia) ltac:(unfold T_FILE; lia)) as (s1 & E1 & Hm1 & M1).
  cbn [length] in E1. replace (1 + Z.of_nat (Datatypes.S (length ds))) with (2 + Z.of_nat (length ds)) in E1 by lia.
  destruct (add_entry_made s1 rd (ds ++ [(T_FILE, [])]) (2 + Z.of_nat (length ds)) (host_name (path, Some pieces)) Hm1 ltac:(lia) Hrd)
    as (s2 & E2 & Hm2 & M2).
  { fold e. rewrite blocks_cons, blocks_join. change (total [(T_FILE, [])]) with 0%nat. lia. }
  fold e in Hm2.
  destruct (each_append pieces s2 _ (Datatypes.S (length ds)) T_FILE [] Hm2) as (s3 & E3 & Hm3 & M3).
  - cbn. by apply list_lookup_middle.
  - done.
  - change (<[Datatypes.S (length ds) := (T_FILE, [] ++ concat pieces)]> ((T_DIR, rd ++ e) :: ds ++ [(T_FILE, [])]))
      with ((T_DIR, rd ++ e) :: <[length ds := (T_FILE, concat pieces)]> (ds ++ [(T_FILE, [])])).
    rewrite insert_snoc, blocks_cons, blocks_join. lia.
  - exists s3. split; [|split; [|by etrans; [|etrans]]].
    + unfold add_file. rewrite bool_decide_false by done. rewrite (bind_done _ _ _ _ _ E1).
      rewrite (bind_done _ _ _ _ _ E2). rewrite <- E3. do 2 f_equal. lia.
    + change (<[Datatypes.S (length ds) := (T_FILE, [] ++ concat pieces)]> ((T_DIR, rd ++ e) :: ds ++ [(T_FILE, [])]))
        with ((T_DIR, rd ++ e) :: <[length ds := (T_FILE, concat pieces)]> (ds ++ [(T_FILE, [])])) in Hm3.
      by rewrite insert_snoc in Hm3.
Qed.

Lemma each_add : forall files s rd ds,
  made s ((T_DIR, rd) :: ds) -> Forall host_ok files -> (length ds + length files <= 198)%nat ->
  (length rd + 16 * length files <= 268 * 1024)%nat ->
  let rd' := rd ++ entries (2 + Z.of_nat (length ds)) files in
  nmeta + Z.of_nat (total ((T_DIR, rd') :: ds ++ (of_host <$> files))) <= FSSIZE ->
  exists s', each (add_file ROOTINO) files s = Done tt s' /\ made s' ((T_DIR, rd') :: ds ++ (of_host <$> files)) /\ meta s s'.
Proof.
  induction files as [|f files IH]; intros s rd ds Hm Hok Hl Hrd rd' Hroom.
  - exists s. unfold rd'. cbn [entries fmap list_fmap]. by rewrite !app_nil_r.
  - inversion Hok as [|? ? Hf Hfs]; subst. cbn [entries length] in *. set (e := entry (2 + Z.of_nat (length ds)) (host_name f)) in *.
    rewrite fmap_cons in Hroom. rewrite blocks_cons, blocks_join, blocks_cons in Hroom.
    destruct (add_file_made s rd ds f Hm Hf ltac:(lia) ltac:(lia)) as (s1 & E1 & Hm1 & M1).
    { fold e. rewrite blocks_cons, blocks_join, blocks_cons. change (total []) with 0%nat.
      pose proof (file_cost_mono T_DIR (rd ++ e) rd' ltac:(unfold rd'; rewrite !length_app; lia)). lia. }
    fold e in Hm1. destruct (IH s1 (rd ++ e) (ds ++ [of_host f]) Hm1 Hfs) as (s2 & E2 & Hm2 & M2).
    + rewrite length_app. simpl. lia.
    + rewrite length_app. unfold e. rewrite length_entry. lia.
    + rewrite length_app, <- !app_assoc. replace (2 + Z.of_nat (length ds + length [of_host f])) with (2 + Z.of_nat (length ds) + 1) by (simpl; lia).
      rewrite blocks_cons, blocks_join. change ([of_host f] ++ (of_host <$> files)) with (of_host f :: (of_host <$> files)).
      rewrite blocks_cons. fold e. unfold rd' in Hroom. lia.
    + rewrite length_app, <- !app_assoc in Hm2.
      replace (2 + Z.of_nat (length ds + length [of_host f])) with (2 + Z.of_nat (length ds) + 1) in Hm2 by (simpl; lia).
      exists s2. split; [|split; [exact Hm2|by etrans]]. cbn [each]. by rewrite (bind_done _ _ _ _ _ E1).
Qed.

(** ** main() *)

(** The first loop clears the image. *)
Lemma cleared s :
  exists im, for_to FSSIZE (fun i => wsect i zeroes;;; ret None) (ret tt) s = Done tt (s {{ img := im }}) /\
    forall x, sector x -> im !! x = Some zeroes.
Proof.
  destruct (wp_done_inv (for_to FSSIZE (fun i => wsect i zeroes;;; ret None) (ret tt) s)
    (fun _ s' => exists im, s' = s {{ img := im }} /\ forall x, 0 <= x < FSSIZE -> im !! x = Some zeroes)) as (u & s' & E & im & -> & H).
  - apply (wp_for_to _ _ _ _ (fun i s' => exists im, s' = s {{ img := im }} /\ forall x, 0 <= x < i -> im !! x = Some zeroes)); [done| | |].
    + exists (img s). split; [by destruct s|lia].
    + intros i s' Hi (im & -> & H). rewrite (bind_done _ _ _ _ _ (wsect_ok i zeroes _ Hi)).
      exists (<[i := zeroes]> im). split; [done|]. intros x Hx. destruct (decide (x = i)) as [-> |]; [by rewrite lookup_insert_eq|].
      rewrite lookup_insert_ne by done. apply H. lia.
    + intros s' (im & -> & H). by exists im.
  - destruct u. exists im. split; [exact E|exact H].
Qed.

Definition super_block : list Z := splice 0 (sb_bytes new_sb) zeroes.

Lemma dinode_zeroes im inum :
  (forall x, 32 <= x <= 44 -> im !! x = Some zeroes) -> 0 <= inum < 208 -> dinode_at im inum = din0.
Proof.
  intros H Hi. unfold dinode_at. rewrite (H _ (iblock_range inum Hi)). cbn [from_option id]. clear H.
  assert (Hk : 0 <= inum mod IPB < 16) by (change IPB with 16; apply Z.mod_pos_bound; lia).
  assert (E : (fun k => read_dinode zeroes k din0) <$> seqZ 0 16 = replicate 16 din0) by (vm_compute; reflexivity).
  apply (elem_of_replicate 16 din0). rewrite <- E. apply list_elem_of_fmap. exists (inum mod IPB).
  split; [reflexivity|]. apply elem_of_seqZ. lia.
Qed.

(** The image with the superblock, before the first file. *)
Lemma made_empty im :
  (forall x, sector x -> im !! x = Some zeroes) -> made (MkfsState (<[1 := super_block]> im) 1 nmeta) [].
Proof.
  intros H. set (s := MkfsState _ _ _).
  assert (Him : forall x, sector x -> x <> 1 -> img s !! x = Some zeroes).
  { intros x Hx Hne. cbn [img s]. rewrite lookup_insert_ne by done. by apply H. }
  split; [done|]. exists []. split; [|constructor]. split; [|done|cbn [length]; lia|done|by intros k g|].
  - split; [| |change (46 <= 46 <= 2000); lia].
    + intros x Hx. destruct (decide (x = 1)) as [-> |Hne]; [|exists zeroes; by rewrite Him].
      exists super_block. cbn [img s]. by rewrite lookup_insert_eq.
    + intros x Hx Hf. apply Him; [done|]. change (46 <= x) in Hf. lia.
  - intros inum Hi. cbn [freeinode s] in Hi. apply dinode_zeroes; [|lia]. intros x Hx. apply Him; [unfold sector, FSSIZE; lia|lia].
Qed.

(** What a reader finds in the image. *)
Record image_of (im : gmap Z (list Z)) (files : list host_file) : Prop := {
  mi_size : forall x, sector x -> exists c, im !! x = Some c /\ length c = 1024%nat;
  mi_super : superblock_of (sec im 1) = new_sb;
  mi_log : field 0 4 (sec im (sb_logstart new_sb)) = 0;
  mi_root : let ip := dinode_at im ROOTINO in let n := length (root_data files) in
    i_type ip = T_DIR /\ i_nlink ip = 1 /\ i_size ip = (Z.of_nat n / BSIZE + 1) * BSIZE /\
    file_bytes (sec im) ip = root_data files ++ replicate (Z.to_nat (i_size ip) - n) 0;
  mi_file : forall k f, files !! k = Some f -> let ip := dinode_at im (2 + Z.of_nat k) in
    i_type ip = T_FILE /\ i_nlink ip = 1 /\ i_size ip = Z.of_nat (length (host_data f)) /\ file_bytes (sec im) ip = host_data f;
  mi_present : forall inum, 1 <= inum < 2 + Z.of_nat (length files) ->
    (inum = ROOTINO -> (length (root_data files) mod 1024 <> 0)%nat) -> present im (dinode_at im inum);
  mi_free : forall inum, 2 + Z.of_nat (length files) <= inum < NINODES -> i_type (dinode_at im inum) = 0;
  mi_blocks : (seqZ 1 (1 + Z.of_nat (length files)) ≫= fun inum => file_blocks im (dinode_at im inum))
    ≡ₚ seqZ nmeta (Z.of_nat (total (disk_files files)));
  mi_bitmap : forall b, 0 <= b < FSSIZE ->
    bit_of (sec im (sb_bmapstart new_sb)) b = (b <? nmeta + Z.of_nat (total (disk_files files)));
}.

(** "fix size of root inode dir" *)
Lemma round_root_ok s gs g :
  built s gs -> gs !! 0%nat = Some g -> g_size g = Z.of_nat (length (g_data g)) -> (length (g_data g) <= 11 * 1024)%nat ->
  let size := (g_size g / BSIZE + 1) * BSIZE in
  exists s', round_root ROOTINO s = Done tt s' /\ freeblock s' = freeblock s /\ meta s s' /\
    built s' (<[0%nat := Ino (g_type g) size (g_data g) (g_bs g) (g_ind g)]> gs).
Proof.
  intros Hb Hg Hs Hl size. pose proof (bt_room _ _ Hb) as Hr. destruct (bt_ino _ _ Hb 0 g Hg) as [I1 I2 I3 I4 I5].
  change (1 + Z.of_nat 0) with ROOTINO in *. assert (Hsz : 0 <= size < 2 ^ 32).
  { unfold size. rewrite Hs. change BSIZE with 1024. Z.div_mod_to_equations. lia. }
  destruct (stored_ok s (img s) ROOTINO _ _ _ size (ip_addrs _) (fr_arep _ _ _ _ _ I5) (fr_placed _ _ _ _ _ I5) Hr Hsz) as [Hok Hloc].
  destruct (winode_ok ROOTINO _ s Hr ltac:(done) Hok Hloc) as (s' & E & W). exists s'. split.
  - unfold round_root. rewrite (bind_done _ _ _ _ _ (rinode_ok ROOTINO s Hr ltac:(done))). rewrite I4.
    rewrite (xint_small (g_size g)) by (rewrite Hs; lia). cbv zeta. fold size. rewrite (u32_small size), (xint_small size) by exact Hsz. exact E.
  - destruct (built_update s gs 0 g s (dinode_at (img s) ROOTINO) s' 0 size (g_data g) (g_bs g) (g_ind g) Hb Hg) as (Hb' & Hf & Hm).
    + split; [lia|done|done|by rewrite app_nil_r|apply ip_addrs|done].
    + exact I5.
    + exact W.
    + split; [lia|]. by split.
Qed.

(** A sector that is neither an inode block nor a file's. *)
Lemma built_write s gs x c :
  built s gs -> 0 <= x < 32 \/ x = 45 -> length c = 1024%nat -> built (s {{ img ::= <[x := c]> }}) gs.
Proof.
  intros [R I F U A Z] Hx Hc. pose proof (rm_free _ R) as [H46 _]. change nmeta with 46 in H46.
  set (s' := s {{ img ::= <[x := c]> }}).
  assert (Him : forall b, b <> x -> img s' !! b = img s !! b).
  { intros b Hb. change (<[x := c]> (img s) !! b = img s !! b). by rewrite lookup_insert_ne. }
  assert (Hd : forall inum, 0 <= inum < 208 -> dinode_at (img s') inum = dinode_at (img s) inum).
  { intros inum Hi. unfold dinode_at. pose proof (iblock_range inum Hi). rewrite Him by lia. done. }
  split; [apply room_write; [done|unfold sector, FSSIZE; lia|lia|done]|done|done|done| |].
  - intros k g Hk. destruct (A k g Hk) as [I1 I2 I3 I4 I5].
    assert (Hin : 0 <= 1 + Z.of_nat k < 208) by (apply lookup_lt_Some in Hk; lia).
    split; rewrite ?(Hd _ Hin); try done. apply (frep_frame s); [|done|exact I5].
    intros b Hb. pose proof (pl_range _ _ _ (fr_placed _ _ _ _ _ I5) b Hb) as Hr. change nmeta with 46 in Hr. apply Him. lia.
  - intros inum Hi. change (freeinode s <= inum < 208) in Hi. rewrite Hd; [by apply Z|]. lia.
Qed.

Lemma bind_numbers {A B} (F : Z -> list B) (f : A -> list B) : forall l m,
  (forall i x, l !! i = Some x -> F (m + Z.of_nat i) ≡ₚ f x) -> (seqZ m (Z.of_nat (length l)) ≫= F) ≡ₚ (l ≫= f).
Proof.
  induction l as [|x l IH]; intros m H; [done|]. cbn [length]. rewrite seqZ_cons by lia. rewrite !bind_cons.
  replace (Z.pred (Z.of_nat (Datatypes.S (length l)))) with (Z.of_nat (length l)) by lia. apply Permutation_app.
  - rewrite <- (H 0%nat x eq_refl). by rewrite Z.add_0_r.
  - apply IH. intros i y Hi. rewrite <- (H (Datatypes.S i) y Hi). f_equiv. lia.
Qed.

Definition same_file (g : ino) (d : Z * list Z) : Prop :=
  g_type g = fst d /\ g_data g = snd d /\ g_size g = Z.of_nat (length (snd d)).

(** The image, from the inodes that were built. *)
Lemma image_built s root fs files :
  let n := length (root_data files) in
  built s (root :: fs) -> g_type root = T_DIR -> g_data root = root_data files ->
  g_size root = (Z.of_nat n / BSIZE + 1) * BSIZE -> (n <= 11 * 1024)%nat ->
  Forall2 same_file fs (of_host <$> files) ->
  freeblock s = nmeta + Z.of_nat (total (disk_files files)) ->
  img s !! 0 = Some zeroes -> img s !! 1 = Some super_block -> img s !! 2 = Some zeroes ->
  img s !! 45 = Some (fold_left set_bit (seqZ 0 (freeblock s)) zeroes) ->
  image_of (img s) files.
Proof.
  intros n Hb Ht Hd Hs Hn Hf Hfree H0 H1 H2 H45.
  pose proof (bt_room _ _ Hb) as Hr. pose proof (rm_free _ Hr) as Hfr. change nmeta with 46 in *. unfold FSSIZE in Hfr.
  assert (Hlen : length fs = length files) by by rewrite (Forall2_length _ _ _ Hf), length_fmap.
  split.
  - apply Hr.
  - unfold sec. rewrite H1. reflexivity.
  - unfold sec. change (sb_logstart new_sb) with 2. rewrite H2. reflexivity.
  - intros ip n'. destruct (bt_ino _ _ Hb 0 root eq_refl) as [I1 I2 I3 I4 I5].
    change (1 + Z.of_nat 0) with ROOTINO in *. fold ip in I1, I2, I3, I4, I5.
    split; [by rewrite I1|]. split; [done|]. split; [by rewrite I4|]. rewrite Hd in I5.
    assert (Hsz : i_size ip = (Z.of_nat n / 1024 + 1) * 1024) by by rewrite I4.
    pose proof (Z.div_mod (Z.of_nat n) 1024 ltac:(lia)). pose proof (Z.mod_pos_bound (Z.of_nat n) 1024 ltac:(lia)).
    apply (file_bytes_data s ip _ (g_bs root) (g_ind root)); [done|done|done|lia|fold n; lia|left].
    unfold nblk. apply Nat.lt_succ_r, Nat.Div0.div_lt_upper_bound. lia.
  - intros k f Hk ip.
    destruct (Forall2_lookup_r _ _ _ k (of_host f) Hf ltac:(by rewrite list_lookup_fmap, Hk)) as (g & Hg & Eg & Ed & Es).
    destruct (bt_ino _ _ Hb (Datatypes.S k) g Hg) as [I1 I2 I3 I4 I5].
    replace (1 + Z.of_nat (Datatypes.S k)) with (2 + Z.of_nat k) in * by lia. fold ip in I1, I2, I3, I4, I5.
    cbn [of_host fst snd] in *. split; [by rewrite I1|]. split; [done|]. split; [by rewrite I4|]. rewrite Ed in I5.
    assert (Hsz : Z.to_nat (i_size ip) = length (host_data f)) by (rewrite I4, Es; lia).
    rewrite (file_bytes_data s ip _ _ _ Hr I5 H0); rewrite ?Hsz; try lia.
    + by rewrite Nat.sub_diag, app_nil_r.
    + right. symmetry. apply (fr_length _ _ _ _ _ I5).
  - intros inum Hi Hroot. destruct (decide (inum = ROOTINO)) as [->|Hne].
    + specialize (Hroot eq_refl). fold n in Hroot. destruct (bt_ino _ _ Hb 0 root eq_refl) as [I1 I2 I3 I4 I5].
      change (1 + Z.of_nat 0) with ROOTINO in *. apply (present_file s _ _ (g_bs root) (g_ind root) Hr I5).
      rewrite I4, Hs, (fr_length _ _ _ _ _ I5), Hd, (nblk_old (length (root_data files))). fold n.
      rewrite decide_False by done. rewrite Nat2Z.inj_succ, Nat2Z.inj_div. change BSIZE with 1024. change (Z.of_nat 1024) with 1024.
      pose proof (Z.div_pos (Z.of_nat n) 1024 ltac:(lia) ltac:(lia)). lia.
    + change ROOTINO with 1 in Hne. set (k := Z.to_nat (inum - 1)). destruct (lookup_lt_is_Some_2 (root :: fs) k) as [g Hg].
      { cbn [length]. unfold k. lia. }
      destruct (bt_ino _ _ Hb k g Hg) as [I1 I2 I3 I4 I5]. replace (1 + Z.of_nat k) with inum in * by (unfold k; lia).
      apply (present_file s _ _ (g_bs g) (g_ind g) Hr I5). rewrite I4, (fr_length _ _ _ _ _ I5).
      replace k with (Datatypes.S (k - 1)) in Hg by (unfold k; lia).
      destruct (Forall2_lookup_l _ _ _ (k - 1)%nat g Hf Hg) as (d & _ & _ & -> & ->). pose proof (nblk_covers (length d.2)).
      change BSIZE with 1024. lia.
  - intros inum Hi. rewrite (bt_rest _ _ Hb); [done|]. rewrite (bt_inode _ _ Hb). cbn [length]. unfold NINODES in Hi. lia.
  - replace (1 + Z.of_nat (length files)) with (Z.of_nat (length (root :: fs))) by (cbn [length]; lia).
    rewrite (bind_numbers _ g_used).
    + rewrite (bt_used _ _ Hb), Hfree. change nmeta with 46. f_equiv. lia.
    + intros k g Hk. eapply file_blocks_used; [exact Hr|apply (bt_ino _ _ Hb k g Hk)].
  - intros b Hx. unfold sec. change (sb_bmapstart new_sb) with 45. rewrite H45. cbn [from_option id].
    replace (freeblock s) with (Z.of_nat (Z.to_nat (freeblock s))) by lia.
    rewrite (proj2 (bitmap_bits (Z.to_nat (freeblock s)) b ltac:(lia) ltac:(lia))). change nmeta with 46. f_equal. lia.
Qed.

(** Up to the files: the empty image, the root directory and its first two entries. *)
Lemma build_start :
  exists im s, let s0 := MkfsState (<[1 := super_block]> im) 1 nmeta in
    (forall x, sector x -> im !! x = Some zeroes) /\ meta s0 s /\
    made s [(T_DIR, entry ROOTINO (str ".") ++ entry ROOTINO (str ".."))] /\
    forall files, build files start = bind (each (add_file ROOTINO) files) (fun _ =>
      round_root ROOTINO;;; used <- gets freeblock;; balloc used) s.
Proof.
  destruct (cleared (start {{ freeblock := nmeta }})) as (im & E0 & Him).
  pose proof (made_empty im Him) as M0. set (s0 := MkfsState (<[1 := super_block]> im) 1 nmeta) in *.
  destruct (ialloc_made s0 [] T_DIR M0 ltac:(cbn [length]; lia) ltac:(unfold T_DIR; lia)) as (s1 & E1 & M1 & F1).
  destruct (add_entry_made s1 [] [] ROOTINO (str ".") M1 ltac:(unfold ROOTINO; lia) ltac:(cbn [length]; lia) ltac:(vm_compute; discriminate))
    as (s2 & E2 & M2 & F2). rewrite app_nil_l in M2.
  destruct (add_entry_made s2 _ [] ROOTINO (str "..") M2 ltac:(unfold ROOTINO; lia) ltac:(rewrite length_entry; lia) ltac:(vm_compute; discriminate))
    as (s3 & E3 & M3 & F3).
  exists im, s3. split; [done|]. split; [by etrans; [|etrans]|]. split; [done|]. intros files. unfold build.
  erewrite bind_done by done. rewrite (bind_done _ _ _ _ _ E0).
  rewrite (bind_done _ _ _ _ _ (wsect_ok 1 (splice 0 (sb_bytes new_sb) zeroes) _ ltac:(unfold sector, FSSIZE; lia))).
  fold super_block. change (_ {{ img ::= _ }}) with s0. rewrite (bind_done _ _ _ _ _ E1).
  change (1 + Z.of_nat (length [])) with ROOTINO. change (negb (ROOTINO =? ROOTINO)) with false. cbv iota.
  by rewrite (bind_done _ _ _ _ _ E2), (bind_done _ _ _ _ _ E3).
Qed.

(** C10: mkfs makes the image of its arguments.  When every file can be opened, is named
    without a slash and has at most 268 blocks, when there are at most 198 of them and
    their blocks fit on the disk, main() ends, and whoever reads the image as the kernel does finds: the
    superblock of the constants, an empty log, a root directory with the entries "." and
    ".." and one of each file, by its name without "user/" and the underscore, cut at 14 bytes, the files in the inodes from 2 on
    with one link and their bytes, free inodes behind them, no block in two
    places, and the bitmap that has exactly the blocks up to the last one taken. *)
Theorem mkfs_image files :
  Forall host_ok files -> (length files <= 198)%nat ->
  nmeta + Z.of_nat (total (disk_files files)) <= FSSIZE ->
  exists s, main (Some true) files start = Done tt s /\ image_of (img s) files.
Proof.
  intros Hok Hl Hroom. destruct build_start as (im & s & Him & F0 & M0 & E0). cbv zeta in *.
  set (rd := entry ROOTINO (str ".") ++ entry ROOTINO (str "..")) in *.
  assert (Erd : rd ++ entries (2 + Z.of_nat (length (@nil (Z * list Z)))) files = root_data files).
  { unfold rd, root_data. by rewrite <- app_assoc. }
  assert (Hrd : length (root_data files) = (32 + 16 * length files)%nat).
  { rewrite <- Erd, length_app, length_entries. unfold rd. rewrite length_app, !length_entry. lia. }
  assert (Hrl : length rd = 32%nat) by (unfold rd; by rewrite length_app, !length_entry).
  destruct (each_add files s rd [] M0 Hok ltac:(simpl; lia) ltac:(rewrite Hrl; lia) ltac:(by rewrite Erd)) as (s1 & E1 & M1 & F1).
  rewrite Erd in M1. destruct M1 as (Hfree & gs & Hb & Hs). destruct gs as [|root fs]; [by inversion Hs|].
  inversion Hs as [|? ? ? ? (Ht & Hd & Hz) Hfs]; subst. cbn [fst snd] in Ht, Hd, Hz.
  destruct (round_root_ok s1 _ root Hb eq_refl) as (s2 & E2 & Hf2 & F2 & Hb2); [by rewrite Hz, Hd|rewrite Hd; lia|].
  assert (Hu : freeblock s2 = nmeta + Z.of_nat (total (disk_files files))) by (rewrite Hf2; exact Hfree).
  set (top := freeblock s2) in *.
  assert (Hu' : 46 <= top <= 2000) by (unfold FSSIZE in Hroom; change nmeta with 46 in *; lia).
  set (bm := fold_left set_bit (seqZ 0 top) zeroes).
  assert (Hbm : length bm = 1024%nat).
  { unfold bm. replace top with (Z.of_nat (Z.to_nat top)) by lia. apply (bitmap_bits (Z.to_nat top) 0); lia. }
  set (s3 := s2 {{ img ::= <[45 := bm]> }}).
  assert (Hm : forall x, x <> 45 -> 0 <= x < 32 -> img s3 !! x = (<[1 := super_block]> im) !! x).
  { intros x Hx Hr. change (<[45 := bm]> (img s2) !! x = <[1 := super_block]> im !! x). rewrite lookup_insert_ne by done.
    rewrite F2, F1, F0 by lia. done. }
  exists s3. split.
  - change (main (Some true) files start) with (build files start). rewrite E0, (bind_done _ _ _ _ _ E1), (bind_done _ _ _ _ _ E2).
    erewrite bind_done by done. unfold balloc. fold top. rewrite (proj2 (Z.ltb_lt _ _)) by (change (BSIZE * 8) with 8192; lia).
    cbn [negb]. change (sb_bmapstart new_sb) with 45. rewrite wsect_ok by (unfold sector, FSSIZE; lia). done.
  - apply (image_built s3 (Ino (g_type root) ((g_size root / BSIZE + 1) * BSIZE) (g_data root) (g_bs root) (g_ind root)) fs).
    + apply built_write; [exact Hb2|lia|done].
    + done.
    + done.
    + cbn [g_size]. by rewrite Hz.
    + lia.
    + exact Hfs.
    + exact Hu.
    + rewrite Hm by lia. rewrite lookup_insert_ne by lia. apply Him. unfold sector, FSSIZE. lia.
    + rewrite Hm by lia. apply lookup_insert_eq.
    + rewrite Hm by lia. rewrite lookup_insert_ne by lia. apply Him. unfold sector, FSSIZE. lia.
    + change (<[45 := bm]> (img s2) !! 45 = Some bm). apply lookup_insert_eq.
Qed.

Lemma mkfs_image_witness :
  exists s, main (Some true) [(str "user/_cat", Some [[1; 2; 3]]); (str "README", Some [[4]; [5]])] start = Done tt s /\
    image_of (img s) [(str "user/_cat", Some [[1; 2; 3]]); (str "README", Some [[4]; [5]])].
Proof.
  apply mkfs_image.
  - apply Forall_cons. split; [|apply Forall_cons; split; [|by apply Forall_nil]].
    + split; [by apply (bool_decide_unpack _)|]. split; [by eexists|]. change (3 <= 268 * 1024)%nat. lia.
    + split; [by apply (bool_decide_unpack _)|]. split; [by eexists|]. change (2 <= 268 * 1024)%nat. lia.
  - cbn [length]. lia.
  - vm_compute. discriminate.
Defined.
