(* ===== verification/MkfsRead.v ===== *)
(** The kernel reads what mkfs wrote: on a disk that holds an image of mkfs,
    dirlookup() finds every file in the root directory and readi() delivers its bytes. *)

From S2P Require Import Prelude Mem Riscv Locks Kalloc Vm SpaceCheck Proc ProcFacts Kernel KernelFacts Sleeplock Bio BioRing BioFacts Bytes Log LogProps LogCrash LogInstall LogCommit BioProps Fs Inode FsRead Mkfs MkfsProps MkfsMain.

(** ** The kernel's view of names *)

(** What namecmp() compares. *)
Definition short (name : list Z) : list Z := take 14 (cstr name).

Definition byte (b : Z) : Prop := 0 <= b < 256.

Lemma strncmp_eq n : forall p q, Forall byte p -> Forall byte q ->
  strncmp_bytes n p q = 0 <-> take n (cstr p) = take n (cstr q).
Proof.
  assert (Hd : forall p, Forall byte p -> byte (default 0 (head p))) by (intros [|b p] H; [done|by inversion H]).
  induction n as [|n IH]; intros p q Hp Hq; [done|]. cbn [strncmp_bytes].
  pose proof (Hd p Hp) as Bp. pose proof (Hd q Hq) as Bq. unfold byte in Bp, Bq.
  destruct (Z.eqb_spec (default 0 (head p)) 0) as [E0|E0]; cbn [negb andb].
  - rewrite !u8_small by lia. rewrite E0. assert (Ep : cstr p = []).
    { destruct p as [|a p]; [done|]. simpl in E0. subst a. done. }
    rewrite Ep. destruct q as [|c q]; [done|]. cbn [cstr head from_option id] in *.
    destruct (Z.eqb_spec c 0) as [->|Hc]; [done|]. split; [lia|done].
  - destruct p as [|a p]; [done|]. cbn [head from_option id tail] in *. apply Forall_cons in Hp as [_ Hp].
    cbn [cstr]. rewrite (proj2 (Z.eqb_neq a 0)) by done. cbn [take].
    destruct (Z.eqb_spec a (default 0 (head q))) as [E|E].
    + destruct q as [|c q]; [by subst a|]. cbn [head from_option id tail] in *. subst c. apply Forall_cons in Hq as [_ Hq].
      cbn [cstr]. rewrite (proj2 (Z.eqb_neq a 0)) by done. cbn [take]. rewrite (IH p q Hp Hq). split; [by intros ->|by intros [= ->]].
    + rewrite !u8_small by lia. destruct q as [|c q]; cbn [head from_option id tail cstr take] in *; [split; [lia|done]|].
      destruct (Z.eqb_spec c 0); [split; [lia|done]|]. split; [lia|by intros [= ? ?]].
Qed.

Lemma cstr_free l : 0 ∉ cstr l.
Proof.
  induction l as [|b l IH]; cbn [cstr]; [apply not_elem_of_nil|]. destruct (Z.eqb_spec b 0); [apply not_elem_of_nil|].
  apply not_elem_of_cons. split; [congruence|done].
Qed.

Lemma cstr_zeroes a n : 0 ∉ a -> cstr (a ++ replicate n 0) = a.
Proof.
  induction a as [|b a IH]; intros Ha.
  - by destruct n.
  - apply not_elem_of_cons in Ha as [Hb Ha]. cbn [app cstr]. rewrite (proj2 (Z.eqb_neq b 0)) by congruence. by rewrite IH.
Qed.

Lemma short_pad name : short (pad_name 14 name) = short name.
Proof.
  unfold short, pad_name. rewrite cstr_zeroes; [apply take_take|].
  intros H. apply elem_of_take in H as (i & Hi & _). apply (cstr_free name). by eapply list_elem_of_lookup_2.
Qed.

Lemma byte_cstr l : Forall byte l -> Forall byte (cstr l).
Proof. induction 1 as [|b l Hb _ IH]; [constructor|]. cbn [cstr]. case_match; by constructor. Qed.

Lemma byte_pad n name : Forall byte name -> Forall byte (pad_name n name).
Proof.
  intros H. unfold pad_name. apply Forall_app. split; [by apply Forall_take, byte_cstr|]. apply Forall_replicate. unfold byte. lia.
Qed.

(** ** The root directory, entry by entry *)

Fixpoint file_slots (n : Z) (files : list host_file) : list (Z * list Z) :=
  match files with [] => [] | f :: files => (n, host_name f) :: file_slots (n + 1) files end.
Definition slots (files : list host_file) : list (Z * list Z) :=
  (ROOTINO, str ".") :: (ROOTINO, str "..") :: file_slots 2 files.

Lemma entries_slots n files : entries n files = concat ((fun d => entry (fst d) (snd d)) <$> file_slots n files).
Proof. revert n. induction files as [|f files IH]; intros n; [done|]. cbn. by rewrite IH. Qed.

Lemma root_slots files : root_data files = concat ((fun d => entry (fst d) (snd d)) <$> slots files).
Proof. unfold root_data, slots. rewrite entries_slots. done. Qed.

Lemma file_slots_lookup n files k : file_slots n files !! k = (fun f => (n + Z.of_nat k, host_name f)) <$> files !! k.
Proof.
  revert n k. induction files as [|f files IH]; intros n [|k]; cbn; try done.
  - by rewrite Z.add_0_r.
  - rewrite IH. destruct (files !! k); [|done]. simpl. do 2 f_equal. lia.
Qed.

Lemma dirent_entry inum name : 0 <= inum < 2 ^ 16 -> dirent_of (entry inum name) = Dirent inum (pad_name 14 name).
Proof.
  intros Hi. unfold dirent_of, entry, dirent_bytes. cbn [d_inum d_name].
  rewrite (field_int_head 2). rewrite u16_small by lia. f_equal; [apply Z.mod_small; lia|].
  rewrite drop_app_ge by (rewrite length_int_bytes; lia). rewrite length_int_bytes.
  change (take 14 (pad_name 14 name) = pad_name 14 name). apply take_ge. by rewrite length_pad_name.
Qed.

(** The search finds the first entry with the name. *)
Lemma scan_slots sl z name : Forall byte name ->
  (forall i inum nm, sl !! i = Some (inum, nm) -> 0 < inum < 2 ^ 16 /\ Forall byte nm) ->
  forall d j k i inum nm, sl !! i = Some (inum, nm) -> i = (j + d)%nat -> (d < k)%nat -> short nm = short name ->
  (forall i' inum' nm', (j <= i' < i)%nat -> sl !! i' = Some (inum', nm') -> short nm' <> short name) ->
  scan_entries k (16 * Z.of_nat j) name (concat ((fun d => entry (fst d) (snd d)) <$> sl) ++ z) = Some (inum, 16 * Z.of_nat i).
Proof.
  intros Hn Hsl. set (cs := (fun d => entry (fst d) (snd d)) <$> sl).
  assert (Hcs : Forall (fun c => length c = 16%nat) cs).
  { apply Forall_fmap, Forall_forall. intros [a b] _. apply length_entry. }
  assert (Hat : forall j inum nm, sl !! j = Some (inum, nm) ->
    dirent_of (take 16 (drop (Z.to_nat (16 * Z.of_nat j)) (concat cs ++ z))) = Dirent inum (pad_name 14 nm)).
  { intros j inum nm Hj. assert (Hc : cs !! j = Some (entry inum nm)) by (unfold cs; by rewrite list_lookup_fmap, Hj).
    pose proof (length_blocks 16 cs Hcs) as Hlen. pose proof (lookup_lt_Some _ _ _ Hc) as Hlt.
    rewrite drop_app_le by lia. rewrite take_app_le by (rewrite length_drop; lia).
    replace (Z.to_nat (16 * Z.of_nat j)) with (16 * j + 0)%nat by lia.
    rewrite (concat_part 16 cs j (entry inum nm) 0 16 Hcs Hc) by lia. rewrite drop_0, take_ge by (by rewrite length_entry).
    apply dirent_entry. apply (Hsl j inum nm) in Hj as [? _]. lia. }
  induction d as [|d IH]; intros j k i inum nm Hi -> Hk Hs Hno; (destruct k as [|k]; [lia|]); cbn [scan_entries]; cbv zeta.
  - rewrite Nat.add_0_r in *. rewrite (Hat j inum nm Hi). cbn [d_inum d_name]. destruct (Hsl j inum nm Hi) as [Hr Hb].
    rewrite (proj2 (Z.eqb_neq inum 0)) by lia. rewrite (proj2 (Z.eqb_eq _ _)); [done|].
    unfold namecmp. change (Z.to_nat DIRSIZ) with 14%nat. apply strncmp_eq; [done|by apply byte_pad|].
    symmetry. etrans; [apply short_pad|exact Hs].
  - destruct (lookup_lt_is_Some_2 sl j) as [[inum' nm'] Hj]; [apply lookup_lt_Some in Hi; lia|].
    rewrite (Hat j inum' nm' Hj). cbn [d_inum d_name]. destruct (Hsl j inum' nm' Hj) as [Hr Hb].
    rewrite (proj2 (Z.eqb_neq (namecmp _ _) 0)).
    + rewrite andb_false_r. replace (16 * Z.of_nat j + 16) with (16 * Z.of_nat (Datatypes.S j)) by lia.
      apply (IH (Datatypes.S j) k (j + Datatypes.S d)%nat inum nm Hi ltac:(lia) ltac:(lia) Hs).
      intros i' inum1 nm1 Hi'. apply Hno. lia.
    + unfold namecmp. change (Z.to_nat DIRSIZ) with 14%nat. intros E. apply strncmp_eq in E; [|done|by apply byte_pad].
      apply (Hno j inum' nm' ltac:(lia) Hj). etrans; [symmetry; apply short_pad|]. symmetry. exact E.
Qed.

(** No two names are the same to the kernel. *)
Definition distinct_names (files : list host_file) : Prop := NoDup ((fun d => short (snd d)) <$> slots files).

(** The names are bytes. *)
Definition named (f : host_file) : Prop := Forall byte (fst f).

Lemma named_host f : named f -> Forall byte (host_name f).
Proof.
  intros H. unfold host_name, shortname, without_underscore.
  assert (Hs : Forall byte (if strncmp_bytes 5 (fst f) (str "user/") =? 0 then drop 5 (fst f) else fst f))
    by (case_match; [by apply Forall_drop|done]).
  destruct (if _ =? 0 then _ else _) as [|c l]; [done|]. case_match; [by inversion Hs|done].
Qed.

Lemma slots_ok files i inum nm :
  Forall named files -> (length files <= 198)%nat -> slots files !! i = Some (inum, nm) -> 0 < inum < 2 ^ 16 /\ Forall byte nm.
Proof.
  intros Hn Hl Hi. assert (Hd : forall s, str s = str "." \/ str s = str ".." -> Forall byte (str s)).
  { intros s [-> | ->]; by repeat constructor. }
  destruct i as [|[|i]]; cbn in Hi.
  - injection Hi as <- <-. split; [unfold ROOTINO; lia|]. apply (Hd "."%string). by left.
  - injection Hi as <- <-. split; [unfold ROOTINO; lia|]. apply (Hd ".."%string). by right.
  - rewrite file_slots_lookup in Hi. destruct (files !! i) as [f|] eqn:Ef; [|done]. injection Hi as <- <-.
    pose proof (lookup_lt_Some _ _ _ Ef). split; [lia|]. apply named_host. rewrite Forall_lookup in Hn. by apply (Hn i).
Qed.

Lemma length_slots files : length (slots files) = (2 + length files)%nat.
Proof.
  unfold slots. cbn [length]. do 2 f_equal. generalize 2 as m. induction files as [|f files IH]; intros m; [done|]. cbn. by rewrite IH.
Qed.

(** The entry of file [k] is found. *)
Lemma root_scan files z k f name n :
  Forall named files -> (length files <= 198)%nat -> distinct_names files -> Forall byte name ->
  files !! k = Some f -> short (host_name f) = short name -> (2 + length files <= n)%nat ->
  scan_entries n 0 name (root_data files ++ z) = Some (2 + Z.of_nat k, 32 + 16 * Z.of_nat k).
Proof.
  intros Hn Hl Hd Hb Hk Hs Hlen. pose proof (lookup_lt_Some _ _ _ Hk) as Hlt.
  assert (Hi : slots files !! (2 + k)%nat = Some (2 + Z.of_nat k, host_name f)) by (cbn; by rewrite file_slots_lookup, Hk).
  rewrite root_slots. replace (32 + 16 * Z.of_nat k) with (16 * Z.of_nat (2 + k)) by lia. change 0 with (16 * Z.of_nat 0).
  apply (scan_slots (slots files) z name Hb) with (d := (2 + k)%nat) (nm := host_name f); [|done|done|lia|done|].
  - intros i inum nm. by apply slots_ok.
  - intros i inum nm [_ Hlti] Hsl E. assert (i = (2 + k)%nat); [|lia].
    eapply NoDup_lookup; [exact Hd|rewrite list_lookup_fmap, Hsl; reflexivity|rewrite list_lookup_fmap, Hi]. simpl. congruence.
Qed.

(** ** A kernel with the image on its disk *)

Section kernel_reads.
Context (D me : Z) `{Layout} `{Fuel} `{DiskDriver} (n : nat) (Hfuel : fuel = Datatypes.S n).
Context (im : gmap Z (list Z)) (files : list host_file).
Hypothesis Himage : image_of im files.

#[local] Abbreviation content := (content D).

(** The disk, as the cache shows it. *)
Definition has_image (s : kernel) : Prop := forall b, sector b -> content s b = sec im b.

(** The inode [ip] in memory is inode [inum], as ilock() loads it. *)
Definition loaded (inum : Z) (ip : inode) : Prop := same_dinode (dinode_at im inum) ip = ip.

Lemma loaded_fields inum ip :
  loaded inum ip -> i_type ip = i_type (dinode_at im inum) /\ i_size ip = i_size (dinode_at im inum) /\
    i_addrs ip = i_addrs (dinode_at im inum).
Proof. intros E. unfold loaded in E. by rewrite <- E. Qed.

Lemma addr_same s inum ip k :
  has_image s -> loaded inum ip -> present im (dinode_at im inum) -> 0 <= k -> k * BSIZE < i_size ip ->
  blk_addr (content s) ip k = blk_addr (sec im) (dinode_at im inum) k.
Proof.
  intros Hs Hip [_ _ Hind] Hk Hlt. destruct (loaded_fields _ _ Hip) as (_ & Es & Ea). rewrite Es in Hlt.
  unfold blk_addr. rewrite Ea. destruct (Z.ltb_spec k NDIRECT) as [|Hge]; [done|]. rewrite Hs; [done|].
  change BSIZE with 1024 in *. change NDIRECT with 12 in *. specialize (Hind ltac:(lia)).
  change nmeta with 46 in Hind. unfold sector. unfold get_addr in Hind. change NDIRECT with 12 in Hind. lia.
Qed.

Lemma image_file_ok s inum ip :
  has_image s -> loaded inum ip -> present im (dinode_at im inum) ->
  file_ok (content s) ip /\ file_bytes (content s) ip = file_bytes (sec im) (dinode_at im inum).
Proof.
  intros Hs Hip Hp. destruct (loaded_fields _ _ Hip) as (_ & Es & Ea). pose proof (pr_blocks _ _ Hp) as Hb. split.
  - split.
    + rewrite Es. apply Hp.
    + intros k Hk Hlt. rewrite (addr_same s inum) by done. rewrite Es in Hlt. specialize (Hb k Hk Hlt).
      change nmeta with 46 in Hb. lia.
    + intros Hlt. rewrite Es in Hlt. pose proof (pr_indirect _ _ Hp Hlt) as Hi. change nmeta with 46 in Hi.
      rewrite Ea. unfold get_addr in Hi. lia.
  - unfold file_bytes. rewrite Es. do 2 f_equal. apply list_fmap_ext. intros i k Hik.
    apply lookup_seq in Hik as [-> Hlt]. set (m := Z.to_nat (i_size (dinode_at im inum))) in *.
    assert (Hk : Z.of_nat (0 + i) * BSIZE < i_size (dinode_at im inum)).
    { change BSIZE with 1024. unfold nblk in Hlt. pose proof (Nat.Div0.mul_div_le (m + 1023) 1024). lia. }
    rewrite (addr_same s inum) by (done || lia || (rewrite Es; done)). apply Hs.
    specialize (Hb _ (Nat2Z.is_nonneg _) Hk). change nmeta with 46 in Hb. unfold sector. lia.
Qed.

(** The directory's search. *)
Lemma kernel_finds r s dp ip k f name :
  readable D me r s -> has_image s -> length (itable s) = 50%nat ->
  geti (itable s) dp = Some ip -> i_dev ip = D -> loaded ROOTINO ip ->
  Forall named files -> (length files <= 198)%nat -> distinct_names files -> (length (root_data files) mod 1024 <> 0)%nat ->
  files !! k = Some f -> Forall byte name -> short (host_name f) = short name ->
  exists s', has_read D me r s s' /\ dirlookup dp name s = found D (Some (2 + Z.of_nat k, 32 + 16 * Z.of_nat k)) s'.
Proof.
  intros Hr Hs Ht Hi Hd Hip Hn Hl Hdn Hm Hk Hb Hsh. pose proof (mi_present _ _ Himage ROOTINO ltac:(unfold ROOTINO; lia) (fun _ => Hm)) as Hp.
  destruct (image_file_ok s ROOTINO ip Hs Hip Hp) as [Hok Hby]. destruct (loaded_fields _ _ Hip) as (Et & Es & _).
  destruct (mi_root _ _ Himage) as (Rt & _ & Rs & Rb). rewrite Rb in Hby. rewrite Rs in Es.
  set (len := length (root_data files)) in *. change BSIZE with 1024 in Es.
  assert (Hlen : len = (16 * (2 + length files))%nat).
  { unfold len. rewrite root_slots, (length_blocks 16).
    - by rewrite length_fmap, length_slots.
    - apply Forall_fmap, Forall_forall. intros [a b] _. apply length_entry. }
  pose proof (Z.div_mod (Z.of_nat len) 1024 ltac:(lia)) as Hdm. pose proof (Z.mod_pos_bound (Z.of_nat len) 1024 ltac:(lia)) as Hmb.
  set (q := (64 * (Z.to_nat (Z.of_nat len / 1024) + 1))%nat).
  assert (Hq : i_size ip = 16 * Z.of_nat q).
  { rewrite Es. unfold q. pose proof (Z.div_pos (Z.of_nat len) 1024 ltac:(lia) ltac:(lia)). lia. }
  destruct (dirlookup_spec D me n Hfuel r dp ip name (file_bytes (content s) ip) Hd s q) as (s' & R & E).
  - by split.
  - by rewrite Et.
  - done.
  - exists s'. split; [done|]. rewrite E, Hby. f_equal. apply (root_scan files _ k f name q); try done. lia.
Qed.

(** The bytes of a file. *)
Lemma kernel_delivers r s i ip k f dst fails off cnt :
  readable D me r s -> has_image s -> geti (itable s) i = Some ip -> i_dev ip = D -> loaded (2 + Z.of_nat k) ip ->
  files !! k = Some f -> copies me dst fails -> 0 <= off < 2 ^ 32 -> 0 <= cnt < 2 ^ 32 ->
  let m := read_count (Z.of_nat (length (host_data f))) off cnt in
  exists res got s', readi i dst off cnt s = Done (res, got) s' /\ has_read D me r s s' /\
    (res = m /\ got = take (Z.to_nat m) (drop (Z.to_nat off) (host_data f)) \/ res = -1 /\ fails).
Proof.
  intros Hr Hs Hi Hd Hip Hk Hc Ho Hn m. pose proof (lookup_lt_Some _ _ _ Hk) as Hlt.
  pose proof (mi_present _ _ Himage (2 + Z.of_nat k) ltac:(lia) ltac:(unfold ROOTINO; lia)) as Hp.
  destruct (image_file_ok s _ ip Hs Hip Hp) as [Hok Hby]. destruct (loaded_fields _ _ Hip) as (_ & Es & _).
  destruct (mi_file _ _ Himage k f Hk) as (_ & _ & Fs & Fb). rewrite Fb in Hby. rewrite Fs in Es.
  destruct (readi_spec D me n Hfuel r i ip dst fails Hd Hc s off cnt Hr Hi Hok Ho Hn) as (res & got & s' & E & R & Hres).
  rewrite Hby, Es in Hres. by exists res, got, s'.
Qed.

(** Free entries of the inode table, one of which exists, are unlocked. *)
Record free_slots (tab : list inode) : Prop := {
  fs_length : length tab = 50%nat;
  fs_some : exists ip, ip ∈ tab /\ i_ref ip = 0;
  fs_locks : forall ip, ip ∈ tab -> i_ref ip = 0 -> sl_locked (i_lock ip) = 0;
}.

(** iget() of an inode that is not in memory, then ilock(). *)
Lemma kernel_loads r s k f :
  readable D me r s -> has_image s -> sb s = new_sb -> free_slots (itable s) -> (length files <= 198)%nat ->
  (forall ip, ip ∈ itable s -> 0 < i_ref ip -> i_dev ip = D -> i_inum ip <> 2 + Z.of_nat k) -> files !! k = Some f ->
  exists e s1 s2 ip, igot D (2 + Z.of_nat k) s = Done e s1 /\ ilock e s1 = Done tt s2 /\
    readable D me r s2 /\ has_image s2 /\ geti (itable s2) e = Some ip /\ i_dev ip = D /\ loaded (2 + Z.of_nat k) ip.
Proof.
  intros Hr Hs Hsb [Tl Ts Tk] Hl Hno Hk. pose proof (lookup_lt_Some _ _ _ Hk) as Hlt. set (inum := 2 + Z.of_nat k) in *.
  destruct (slot_scan_free D inum (itable s) 0 (-1) Hno (or_intror Ts) ltac:(lia)) as (e & E & [[-> Hne]|(j & ip0 & -> & Hj & Hrf)]); [done|].
  unfold igot. rewrite E. rewrite (proj2 (Z.eqb_neq _ _)) by lia. cbn [Z.add]. set (e := Z.of_nat j).
  set (g := fun ip => ip {{ i_dev := D; i_inum := inum; i_ref := 1; i_valid := 0 }}). set (s1 := with_inode e g s).
  assert (He : geti (itable s) e = Some ip0) by by apply geti_of_nat.
  pose proof (with_inode_here e g ip0 s He) as He1. pose proof (bc_proc _ _ _ _ _ (rd_bc _ _ _ _ Hr)) as Hp.
  pose proof (with_inode_cache me e g s Hp) as Sc.
  assert (Hsb1 : sb s1 = new_sb) by (unfold s1, with_inode; by rewrite He).
  assert (Hin : 0 <= inum < 208) by lia.
  assert (Hd : content s1 (IBLOCK inum (sb s1)) = sec im (IBLOCK inum new_sb)).
  { rewrite Hsb1, (content_same D me s s1) by done. apply Hs. by apply iblock_sector. }
  destruct (ilock_fresh D me n Hfuel r s1 e (g ip0)) as (s2 & E2 & R2 & C2 & Q2).
  - by eapply readable_same.
  - done.
  - done.
  - done.
  - change (i_ref (g ip0)) with 1. lia.
  - change (i_lock (g ip0)) with (i_lock ip0). apply Tk; [|done]. by eapply list_elem_of_lookup_2.
  - change (i_inum (g ip0)) with inum. rewrite Hd. destruct (mi_file _ _ Himage k f Hk) as (Ht & _).
    change (dinode_type (sec im (IBLOCK inum new_sb)) (inum mod IPB)) with (i_type (dinode_at im inum)). fold inum in Ht. by rewrite Ht.
  - change (i_inum (g ip0)) with inum in *. rewrite Hd in Q2.
    exists e, s1, s2, (load me (sec im (IBLOCK inum new_sb)) (g ip0)). split; [done|]. split; [done|]. split; [done|]. split; [|split].
    + intros b Hb. rewrite C2, (content_same D me s s1) by done. by apply Hs.
    + rewrite (quiet_inode _ _ e Q2). by apply with_inode_here.
    + split; [done|]. reflexivity.
Qed.

(** What open() and read() do to a file of the root directory, without descriptors. *)
Definition open_read (dp : Z) (name : list Z) (dst : place) (off cnt : Z) : M kernel (Z * list Z) :=
  r <- dirlookup dp name;;
  ilock r.1;;;
  readi r.1 dst off cnt.

(** C9: what mkfs wrote is what the kernel reads.  On a disk that holds mkfs's image of at
    most 198 files with different names, whose directory entries do not fill the root
    directory's blocks exactly (62, 126 and 190 files do: then mkfs makes the directory a block
    longer than what it wrote), with the root directory's inode in memory and
    file [k]'s not: looking its name up in the root directory, locking the inode that
    is found and reading from it delivers exactly the host file's bytes in the range
    asked for, cut at its end; or -1 when the destination cannot be written.  Nothing on the disk changes. *)
Theorem kernel_reads_image r s dp ip k f name dst fails off cnt :
  readable D me r s -> has_image s -> sb s = new_sb -> free_slots (itable s) ->
  geti (itable s) dp = Some ip -> i_dev ip = D -> loaded ROOTINO ip ->
  Forall named files -> (length files <= 198)%nat -> distinct_names files -> (length (root_data files) mod 1024 <> 0)%nat ->
  files !! k = Some f -> Forall byte name -> short (host_name f) = short name ->
  (forall ip, ip ∈ itable s -> 0 < i_ref ip -> i_dev ip = D -> i_inum ip <> 2 + Z.of_nat k) ->
  copies me dst fails -> 0 <= off < 2 ^ 32 -> 0 <= cnt < 2 ^ 32 ->
  let m := read_count (Z.of_nat (length (host_data f))) off cnt in
  exists res got s', open_read dp name dst off cnt s = Done (res, got) s' /\ has_image s' /\
    (res = m /\ got = take (Z.to_nat m) (drop (Z.to_nat off) (host_data f)) \/ res = -1 /\ fails).
Proof.
  intros Hr Hs Hsb Ht Hi Hd Hip Hn Hl Hdn Hm Hk Hb Hsh Hno Hc Ho Hcnt m.
  destruct (kernel_finds r s dp ip k f name) as (s1 & R1 & E1); try done; [apply Ht|].
  assert (Hit : itable s1 = itable s) by by rewrite (hr_quiet _ _ _ _ _ R1).
  assert (Hs1 : has_image s1) by (intros b Hx; rewrite (hr_content _ _ _ _ _ R1); by apply Hs).
  destruct (kernel_loads r s1 k f) as (e & s2 & s3 & fp & E2 & E3 & R3 & I3 & Hfp & Hfd & Hfl); rewrite ?Hit; try done.
  - apply R1.
  - by rewrite (hr_quiet _ _ _ _ _ R1).
  - destruct (kernel_delivers r s3 e fp k f dst fails off cnt R3 I3 Hfp Hfd Hfl Hk Hc Ho Hcnt) as (res & got & s4 & E4 & R4 & Hres).
    exists res, got, s4. split; [|split; [|done]].
    + unfold open_read, found in *. rewrite E2 in E1. rewrite (bind_done _ _ _ _ _ E1). cbn [fst snd].
      by rewrite (bind_done _ _ _ _ _ E3).
    + intros b Hx. rewrite (hr_content _ _ _ _ _ R4). by apply I3.
Qed.
End kernel_reads.

(** ** A concrete kernel *)

Section Demo.
#[local] Existing Instance sync_disk.
#[local] Existing Instance one_round.
#[local] Existing Instance tiny.

Definition two_files : list host_file := [(str "user/_cat", Some [[1; 2; 3]]); (str "README", Some [[4]; [5]])].

(** It has just started; only the root directory is in the inode table. *)
Definition image_disk (im : gmap Z (list Z)) : diskstate :=
  Disk (fun b => if decide (sector b) then sec im b else zeroes) [].
Definition started (im : gmap Z (list Z)) : kernel :=
  (restarted (image_disk im)) {{ sb := new_sb;
    itable := (dinode_at im ROOTINO) {{ i_dev := 1; i_inum := 1; i_ref := 1; i_valid := 1 }} :: replicate 49 blank_inode }}.

Lemma started_readable im :
  (forall x, sector x -> exists c, im !! x = Some c /\ length c = 1024%nat) ->
  readable 1 1 cold (started im) /\ has_image 1 im (started im).
Proof.
  intros Him. assert (Hb : forall b, block (image_disk im) b = if decide (sector b) then sec im b else zeroes) by done.
  assert (Hlen : forall b, length (block (image_disk im) b) = bsize).
  { intros b. rewrite Hb. case_decide as Hs; [|done]. destruct (Him b Hs) as (c & Ec & Hc). unfold sec. by rewrite Ec. }
  destruct (restarted_booted (image_disk im) Hlen) as [Hbc _ _ _ _].
  assert (Hs : same_cache 1 (restarted (image_disk im)) (started im)) by (split; [done|done|destruct (bc_proc _ _ _ _ _ Hbc); by split]).
  split; [split; [by eapply bc_same|apply cold_spare]|].
  intros b Hx. rewrite (cold_content 1 1 (started im) b) by (by eapply bc_same).
  change (disk (started im)) with (image_disk im). rewrite Hb. by rewrite decide_True.
Qed.

Lemma kernel_reads_image_witness :
  exists im s', image_of im two_files /\ open_read 0 (str "cat") Local 1 10 (started im) = Done (2, [2; 3]) s'.
Proof.
  destruct (mkfs_image two_files) as (s & _ & Himage).
  - apply Forall_cons. split; [|apply Forall_cons; split; [|by apply Forall_nil]].
    + split; [by apply (bool_decide_unpack _)|]. split; [by eexists|]. change (3 <= 268 * 1024)%nat. lia.
    + split; [by apply (bool_decide_unpack _)|]. split; [by eexists|]. change (2 <= 268 * 1024)%nat. lia.
  - cbn [length two_files]. lia.
  - vm_compute. discriminate.
  - destruct (started_readable (img s) (mi_size _ _ Himage)) as [Hr Hi].
    destruct (kernel_reads_image 1 1 0 eq_refl (img s) two_files Himage cold (started (img s)) 0
      ((dinode_at (img s) ROOTINO) {{ i_dev := 1; i_inum := 1; i_ref := 1; i_valid := 1 }}) 0 (str "user/_cat", Some [[1; 2; 3]])
      (str "cat") Local False 1 10) as (res & got & s' & E & _ & [[-> ->]|[_ []]]); try done.
    + split; [done|exists blank_inode; split; [right; left|done]|].
      intros ip [-> |Hin]%elem_of_cons; [done|]. apply elem_of_replicate in Hin as [-> _]. done.
    + by repeat constructor.
    + cbn [length two_files]. lia.
    + by apply (bool_decide_unpack _).
    + by repeat constructor.
    + intros ip [-> |Hin]%elem_of_cons; [done|]. by apply elem_of_replicate in Hin as [-> _].
    + apply copies_local.
    + exists (img s), s'. split; [exact Himage|]. exact E.
Defined.
End Demo.
