(* ===== verification/PipeProps.v ===== *)
(** Pipes (kernel/pipe.c): a ring of 512 bytes between the counters nread and
    nwrite, which only grow (modulo 2^32).  They are first-in first-out byte queues:
    the ring as a list, and what pipewrite and piperead do to it. *)

From S2P Require Import Prelude Mem Riscv Locks Kalloc Vm Space SpaceCheck Proc ProcFacts Kernel KernelFacts.

Definition PIPESIZE : Z := 512.
Definition pi_lock (pi : Z) : lock := ("pipe", pi).
Definition nread_chan (pi : Z) : chan := ("&pi.nread", pi).
Definition nwrite_chan (pi : Z) : chan := ("&pi.nwrite", pi).

Section Pipe.
Context `{Layout} `{Fuel}.

Definition pipeclose (pi : Z) (writable : bool) : M kernel unit :=
  acquire (pi_lock pi);;;
  (if writable then
     setpipe pi (fun p => p {{ writeopen := 0 }});;;
     kwakeup (nread_chan pi)
   else
     setpipe pi (fun p => p {{ readopen := 0 }});;;
     kwakeup (nwrite_chan pi));;;
  p <- getpipe pi;;
  if (readopen p =? 0) && (writeopen p =? 0) then
    release (pi_lock pi);;;
    modify (fun s => s {{ pipes ::= delete pi }});;;
    in_mem (kfree pi)
  else release (pi_lock pi).

(** An iteration of the loop copies a byte, sleeps, or leaves. *)
Definition pipewrite (pi addr n : Z) : M kernel Z :=
  pr <- kmyproc;;
  acquire (pi_lock pi);;;
  r <- loop (Datatypes.S (Z.to_nat n) + fuel)
    (fun i =>
       if i <? n then
         p <- getpipe pi;;
         dead <- (if readopen p =? 0 then ret true
                  else k <- in_proc (killed pr);; ret (negb (k =? 0)));;
         if dead then break None
         else
           p <- getpipe pi;;
           if nwrite p =? u32 (nread p + PIPESIZE) then
             kwakeup (nread_chan pi);;;
             ksleep (nwrite_chan pi) (pi_lock pi);;;
             continue i
           else
             q <- kgetp pr;;
             c <- in_mem (copyin (pagetable q) (u64 (addr + i)) 1);;
             match c with
             | None => break (Some i)
             | Some bs =>
                 setpipe pi (fun p => p {{ p_data ::= seti (nwrite p mod PIPESIZE) (default 0 (head bs));
                                           nwrite ::= fun w => u32 (w + 1) }});;;
                 continue (i + 1)
             end
       else break (Some i)) 0;;
  match r with
  | None => release (pi_lock pi);;; ret (-1)
  | Some i =>
      kwakeup (nread_chan pi);;;
      release (pi_lock pi);;;
      ret i
  end.

(** The loop that waits for data: true when the process was killed. *)
Definition await_data (pr pi : Z) : M kernel bool :=
  loop (Datatypes.S fuel) (fun _ : unit =>
    p <- getpipe pi;;
    if (nread p =? nwrite p) && negb (writeopen p =? 0) then
      k <- in_proc (killed pr);;
      if negb (k =? 0) then break true
      else ksleep (nread_chan pi) (pi_lock pi);;; continue tt
    else break false) tt.

Definition piperead (pi addr n : Z) : M kernel Z :=
  pr <- kmyproc;;
  acquire (pi_lock pi);;;
  dead <- await_data pr pi;;
  if dead then release (pi_lock pi);;; ret (-1)
  else
    i <- loop (Datatypes.S (Z.to_nat n))
      (fun i =>
         if i <? n then
           p <- getpipe pi;;
           if nread p =? nwrite p then break i
           else
             let ch := default 0 (geti (p_data p) (nread p mod PIPESIZE)) in
             setpipe pi (fun p => p {{ nread ::= fun r => u32 (r + 1) }});;;
             q <- kgetp pr;;
             r <- in_mem (copyout (pagetable q) (u64 (addr + i)) [ch]);;
             if r =? -1 then break i else continue (i + 1)
         else break i) 0;;
    kwakeup (nwrite_chan pi);;;
    release (pi_lock pi);;;
    ret i.

End Pipe.

(** ** The ring as a queue *)

Definition pipe_len (p : pipe) : Z := u32 (nwrite p - nread p).

(** The bytes written and not yet read, oldest first. *)
Definition queue (p : pipe) : list Z :=
  (fun k => default 0 (geti (p_data p) ((nread p + Z.of_nat k) mod PIPESIZE))) <$> seq 0 (Z.to_nat (pipe_len p)).

Definition pipe_ok (p : pipe) : Prop :=
  length (p_data p) = 512%nat /\ 0 <= nread p < 2 ^ 32 /\ 0 <= nwrite p < 2 ^ 32 /\ pipe_len p <= PIPESIZE.

Definition push (b : Z) (p : pipe) : pipe :=
  p {{ p_data ::= seti (nwrite p mod PIPESIZE) b; nwrite ::= fun w => u32 (w + 1) }}.
Definition pop (p : pipe) : pipe := p {{ nread ::= fun r => u32 (r + 1) }}.

Lemma queue_length p : pipe_ok p -> Z.of_nat (length (queue p)) = pipe_len p.
Proof.
  intros _. unfold queue. rewrite length_fmap, length_seq, Z2Nat.id; [done|]. apply u32_range.
Qed.

Lemma u32_sub_l x y : u32 (u32 x - y) = u32 (x - y).
Proof. unfold u32. apply Zminus_mod_idemp_l. Qed.

Lemma u32_sub_r x y : u32 (x - u32 y) = u32 (x - y).
Proof. unfold u32. apply Zminus_mod_idemp_r. Qed.

Lemma u32_shift x d : 0 <= u32 x + d < 2 ^ 32 -> u32 (x + d) = u32 x + d.
Proof. intros Hx. unfold u32 in *. rewrite <- Zplus_mod_idemp_l. by apply Z.mod_small. Qed.

Lemma wrap_512 x : u32 x mod PIPESIZE = x mod PIPESIZE.
Proof. unfold u32, PIPESIZE. apply Z.mod_mod_divide. by exists (2 ^ 23). Qed.

Lemma push_len b p : pipe_ok p -> pipe_len p < PIPESIZE -> pipe_len (push b p) = pipe_len p + 1.
Proof.
  intros _ Hl. unfold pipe_len in *.
  change (nwrite (push b p)) with (u32 (nwrite p + 1)). change (nread (push b p)) with (nread p).
  rewrite u32_sub_l.
  pose proof (u32_range (nwrite p - nread p)). unfold PIPESIZE in *.
  replace (nwrite p + 1 - nread p) with (nwrite p - nread p + 1) by lia. rewrite u32_shift by lia. lia.
Qed.

Lemma push_ok b p : pipe_ok p -> pipe_len p < PIPESIZE -> pipe_ok (push b p).
Proof.
  intros Hp Hl. pose proof (push_len b p Hp Hl) as Hn. destruct Hp as (Hd & Hr & Hw & _).
  split; [by simpl; rewrite length_seti|]. split; [done|]. split; [apply u32_range|lia].
Qed.

Lemma queue_nth p k :
  (k < Z.to_nat (pipe_len p))%nat ->
  queue p !! k = Some (default 0 (geti (p_data p) ((nread p + Z.of_nat k) mod PIPESIZE))).
Proof.
  intros Hk. unfold queue. rewrite list_lookup_fmap, lookup_seq_lt by done. done.
Qed.

Lemma queue_push b p :
  pipe_ok p -> pipe_len p < PIPESIZE -> queue (push b p) = queue p ++ [b].
Proof.
  intros Hp Hl. pose proof (push_len b p Hp Hl) as Hn. pose proof (queue_length p Hp) as Hq.
  destruct Hp as (Hd & Hr & Hw & Hle). pose proof (u32_range (nwrite p - nread p)) as Hu.
  fold (pipe_len p) in Hu. unfold PIPESIZE in *.
  assert (Hwp : nwrite p mod 512 = (nread p + pipe_len p) mod 512).
  { pose proof (wrap_512 (nwrite p - nread p)) as Hx. unfold PIPESIZE in Hx. fold (pipe_len p) in Hx.
    rewrite <- Zplus_mod_idemp_r, Hx, Zplus_mod_idemp_r. f_equal. lia. }
  assert (Hin : 0 <= nwrite p mod 512 < Z.of_nat (length (p_data p))) by (rewrite Hd; zdiv).
  apply list_eq. intros k. destruct (decide (k < Z.to_nat (pipe_len p))%nat) as [Hk|Hk].
  - rewrite lookup_app_l by lia. rewrite !queue_nth by lia. change (p_data (push b p)) with (seti (nwrite p mod 512) b (p_data p)).
    change (nread (push b p)) with (nread p). unfold PIPESIZE.
    rewrite geti_seti_ne; [done|]. rewrite Hwp. intros E. clear -E Hk Hl. zdiv.
  - destruct (decide (k = Z.to_nat (pipe_len p))) as [-> |Hne].
    + rewrite queue_nth by lia. rewrite lookup_app_r by lia.
      replace (Z.to_nat (pipe_len p) - length (queue p))%nat with 0%nat by lia.
      change (p_data (push b p)) with (seti (nwrite p mod 512) b (p_data p)).
      change (nread (push b p)) with (nread p). unfold PIPESIZE.
      rewrite Z2Nat.id, <- Hwp by lia. by rewrite geti_seti_eq.
    + rewrite !lookup_ge_None_2; [done|rewrite length_app; simpl; lia|].
      unfold queue. rewrite length_fmap, length_seq. lia.
Qed.

Lemma pop_len p : pipe_ok p -> 0 < pipe_len p -> pipe_len (pop p) = pipe_len p - 1.
Proof.
  intros _ Hl. unfold pipe_len in *.
  change (nwrite (pop p)) with (nwrite p). change (nread (pop p)) with (u32 (nread p + 1)).
  rewrite u32_sub_r.
  pose proof (u32_range (nwrite p - nread p)).
  replace (nwrite p - (nread p + 1)) with (nwrite p - nread p + -1) by lia. rewrite u32_shift by lia. lia.
Qed.

Lemma pop_ok p : pipe_ok p -> 0 < pipe_len p -> pipe_ok (pop p).
Proof.
  intros Hp Hl. pose proof (pop_len p Hp Hl) as Hn. destruct Hp as (Hd & Hr & Hw & Hle).
  split; [done|]. split; [apply u32_range|]. split; [done|lia].
Qed.

Lemma queue_pop p :
  pipe_ok p -> 0 < pipe_len p ->
  queue p = default 0 (geti (p_data p) (nread p mod PIPESIZE)) :: queue (pop p).
Proof.
  intros Hp Hl. pose proof (pop_len p Hp Hl) as Hn. apply list_eq. intros [|k]; simpl.
  - rewrite queue_nth by lia. by rewrite Z.add_0_r.
  - destruct (decide (k < Z.to_nat (pipe_len (pop p)))%nat) as [Hk|Hk].
    + rewrite !queue_nth by lia. simpl. do 3 f_equal.
      pose proof (wrap_512 (nread p + 1)) as Hx. unfold PIPESIZE in *.
      rewrite <- (Zplus_mod_idemp_l (u32 (nread p + 1))), Hx, Zplus_mod_idemp_l. f_equal. lia.
    + rewrite !lookup_ge_None_2; [done|unfold queue; rewrite length_fmap, length_seq; lia..].
Qed.

Lemma not_full p : pipe_ok p -> pipe_len p < PIPESIZE -> (nwrite p =? u32 (nread p + PIPESIZE)) = false.
Proof.
  intros (_ & Hr & Hw & _) Hl. apply Z.eqb_neq. intros E.
  unfold pipe_len in Hl. rewrite E, u32_sub_l in Hl.
  replace (nread p + PIPESIZE - nread p) with PIPESIZE in Hl by lia. done.
Qed.

Lemma not_empty p : pipe_ok p -> (nread p =? nwrite p) = (pipe_len p =? 0).
Proof.
  intros (_ & Hr & Hw & _). unfold pipe_len. apply eq_true_iff_eq. rewrite !Z.eqb_eq. split.
  - intros ->. by rewrite Z.sub_diag.
  - intros E. unfold u32 in E. apply Z.mod_divide in E as [k Hk]; [|lia]. nia.
Qed.

(** ** Writing and reading *)

Section Ops.
Context `{Layout} `{Fuel}.

(** The bytes [bs] are copied to the user addresses from [addr] on, one by one. *)
Fixpoint delivered (pt addr : Z) (bs : list Z) (m m' : phys) : Prop :=
  match bs with
  | [] => m' = m
  | b :: r => exists m1, copyout pt (u64 addr) [b] m = Done 0 m1 /\ delivered pt (addr + 1) r m1 m'
  end.
Variables (s : kernel) (pi : Z) (me : proc).
Hypothesis Hfull : full_table (kp s).
Hypothesis Hun : procs_unlocked (kp s).
Hypothesis Hlk : pi_lock pi ∉ plocks (kp s).
Hypothesis Hme : geti (procs (kp s)) (cur (kp s)) = Some me.
Hypothesis Hlive : p_killed me = 0.

(** The state in the critical section: memory and the pipe may have changed. *)
Definition inside (p : pipe) (m : phys) : kernel :=
  locked (pi_lock pi) (s {{ kp := (kp s) {{ ram := m }}; pipes ::= insert pi p }}).

Lemma inside_unlocked p m : procs_unlocked (kp (inside p m)).
Proof.
  intros i. change (proc_lock i ∉ {[pi_lock pi]} ∪ plocks (kp s)).
  rewrite elem_of_union, elem_of_singleton. intros [[=]|Hx]. by apply (Hun i).
Qed.

Lemma inside_pipe p m : pipes (inside p m) !! pi = Some p.
Proof. apply lookup_insert_eq. Qed.

Lemma inside_me p m : geti (procs (kp (inside p m))) (cur (kp s)) = Some me.
Proof. done. Qed.

Lemma inside_set f p m : setpipe pi f (inside p m) = Done tt (inside (f p) m).
Proof.
  rewrite (setpipe_ok pi f p) by apply inside_pipe. do 2 f_equal. unfold inside, locked.
  simpl. by rewrite insert_insert_eq.
Qed.

Lemma inside_mem {A} (op : M phys A) a p m m' :
  op m = Done a m' -> in_mem op (inside p m) = Done a (inside p m').
Proof. intros E. by rewrite (in_mem_done op a m'). Qed.

Lemma enter p :
  pipes s !! pi = Some p -> acquire (pi_lock pi) s = Done tt (inside p (ram (kp s))).
Proof.
  intros Hp. rewrite acquire_eq by done. do 2 f_equal. unfold inside, locked.
  destruct s as [[]]; simpl in *. by rewrite insert_id.
Qed.

Lemma leave_waking ch p m :
  bind (kwakeup ch) (fun _ => release (pi_lock pi)) (inside p m)
  = Done tt (woke ch (s {{ kp := (kp s) {{ ram := m }}; pipes ::= insert pi p }})).
Proof.
  erewrite bind_done by (apply kwakeup_eq; [done|intros i _; apply inside_unlocked]).
  exact (release_eq (pi_lock pi) (woke ch (s {{ kp := (kp s) {{ ram := m }}; pipes ::= insert pi p }})) Hlk).
Qed.

Lemma write_loop r bs : forall i p n,
  n = i + Z.of_nat (length bs) -> 0 <= i -> (length bs < r)%nat ->
  pipe_ok p -> readopen p <> 0 -> pipe_len p + Z.of_nat (length bs) <= PIPESIZE ->
  forall addr,
  (forall k b, bs !! k = Some b ->
    copyin (pagetable me) (u64 (addr + (i + Z.of_nat k))) 1 (ram (kp s)) = Done (Some [b]) (ram (kp s))) ->
  exists p',
    loop r (fun i =>
       if i <? n then
         p <- getpipe pi;;
         dead <- (if readopen p =? 0 then ret true
                  else k <- in_proc (killed (cur (kp s)));; ret (negb (k =? 0)));;
         if dead then break None
         else
           p <- getpipe pi;;
           if nwrite p =? u32 (nread p + PIPESIZE) then
             kwakeup (nread_chan pi);;;
             ksleep (nwrite_chan pi) (pi_lock pi);;;
             continue i
           else
             q <- kgetp (cur (kp s));;
             c <- in_mem (copyin (pagetable q) (u64 (addr + i)) 1);;
             match c with
             | None => break (Some i)
             | Some bs =>
                 setpipe pi (fun p => p {{ p_data ::= seti (nwrite p mod PIPESIZE) (default 0 (head bs));
                                           nwrite ::= fun w => u32 (w + 1) }});;;
                 continue (i + 1)
             end
       else break (Some i)) i (inside p (ram (kp s)))
    = Done (Some n) (inside p' (ram (kp s))) /\
    pipe_ok p' /\ queue p' = queue p ++ bs /\ readopen p' = readopen p /\ writeopen p' = writeopen p.
Proof.
  revert r. induction bs as [|b bs IH]; intros r i p n -> Hi Hr Hp Hopen Hroom addr Hin; simpl length in *.
  - destruct r as [|r]; [lia|]. exists p. split; [|by rewrite app_nil_r].
    apply loop_break. rewrite Z.add_0_r, Z.ltb_irrefl. done.
  - destruct r as [|r]; [lia|]. assert (Hl : pipe_len p < PIPESIZE) by lia.
    destruct (IH r (i + 1) (push b p) (i + Z.of_nat (Datatypes.S (length bs)))) with (addr := addr)
      as (p' & E & Hp' & Hq & Ho & Hw); [lia|lia|lia|by apply push_ok|done|rewrite push_len by done; lia| |].
    { intros k b' Hk. replace (i + 1 + Z.of_nat k) with (i + Z.of_nat (Datatypes.S k)) by lia. by apply Hin. }
    exists p'. split; [|split; [done|split; [|done]]].
    2: { rewrite Hq, queue_push by done. by rewrite <- app_assoc. }
    rewrite <- E. apply loop_continue. rewrite (proj2 (Z.ltb_lt _ _)) by lia.
    erewrite bind_done by (apply getpipe_ok, inside_pipe).
    rewrite (proj2 (Z.eqb_neq _ _) Hopen). unfold bind at 1 2.
    rewrite (in_proc_same _ (p_killed me)) by (apply killed_eq; [done|apply inside_unlocked]).
    cbn [bindp]. rewrite Hlive. cbn [Z.eqb negb ret bindp].
    erewrite bind_done by (apply getpipe_ok, inside_pipe).
    rewrite not_full by done.
    erewrite bind_done by (apply kgetp_ok, inside_me).
    specialize (Hin 0%nat b eq_refl). rewrite Z.add_0_r in Hin.
    erewrite bind_done by (apply inside_mem, Hin). cbn [head default].
    erewrite bind_done by apply inside_set. done.
Qed.

Lemma read_loop r : forall i p m n addr m',
  0 <= i <= n -> (Z.to_nat (n - i) < r)%nat -> pipe_ok p ->
  let bs := take (Z.to_nat (n - i)) (queue p) in
  delivered (pagetable me) (addr + i) bs m m' ->
  exists p',
    loop r (fun i =>
       if i <? n then
         p <- getpipe pi;;
         if nread p =? nwrite p then break i
         else
           let ch := default 0 (geti (p_data p) (nread p mod PIPESIZE)) in
           setpipe pi (fun p => p {{ nread ::= fun r => u32 (r + 1) }});;;
           q <- kgetp (cur (kp s));;
           r <- in_mem (copyout (pagetable q) (u64 (addr + i)) [ch]);;
           if r =? -1 then break i else continue (i + 1)
       else break i) i (inside p m)
    = Done (i + Z.of_nat (length bs)) (inside p' m') /\
    pipe_ok p' /\ queue p = bs ++ queue p' /\ readopen p' = readopen p /\ writeopen p' = writeopen p.
Proof.
  induction r as [|r IH]; intros i p m n addr m' Hi Hr Hp bs Hd; [lia|].
  destruct (Z.ltb_spec i n) as [Hlt|Hge].
  2: { assert (bs = []) as E by (unfold bs; by replace (Z.to_nat (n - i)) with 0%nat by lia).
       rewrite E in *. simpl in Hd. subst m'. exists p. split; [|done].
       apply loop_break. rewrite (proj2 (Z.ltb_ge _ _)) by lia. by rewrite Z.add_0_r. }
  pose proof (queue_length p Hp) as Hlen. pose proof (u32_range (nwrite p - nread p)) as Hu.
  fold (pipe_len p) in Hu. destruct (Z.eqb_spec (pipe_len p) 0) as [Hz|Hnz].
  - assert (queue p = []) as Hq by (destruct (queue p); [done|simpl in Hlen; lia]).
    assert (bs = []) as E by (unfold bs; by rewrite Hq, take_nil).
    rewrite E in *. simpl in Hd. subst m'. exists p. split; [|by rewrite Hq].
    apply loop_break. rewrite (proj2 (Z.ltb_lt _ _)) by lia.
    erewrite bind_done by (apply getpipe_ok, inside_pipe). rewrite not_empty by done.
    rewrite (proj2 (Z.eqb_eq _ _) Hz). simpl. by rewrite Z.add_0_r.
  - pose proof (queue_pop p Hp ltac:(lia)) as Hq.
    set (b := default 0 (geti (p_data p) (nread p mod PIPESIZE))) in *.
    assert (Hbs : bs = b :: take (Z.to_nat (n - (i + 1))) (queue (pop p))).
    { unfold bs. rewrite Hq. by replace (Z.to_nat (n - i)) with (Datatypes.S (Z.to_nat (n - (i + 1)))) by lia. }
    rewrite Hbs in Hd. destruct Hd as (m1 & Hout & Hd).
    replace (addr + i + 1) with (addr + (i + 1)) in Hd by lia.
    destruct (IH (i + 1) (pop p) m1 n addr m') as (p' & E & Hp' & Hq' & Ho & Hw);
      [lia|lia|by apply pop_ok; [|lia]|done|].
    exists p'. split; [|split; [done|split; [|done]]].
    2: { rewrite Hbs, Hq. cbn [app]. by f_equal. }
    rewrite Hbs. simpl length. rewrite Nat2Z.inj_succ, <- Z.add_1_l, Z.add_assoc, <- E.
    apply loop_continue. rewrite (proj2 (Z.ltb_lt _ _)) by lia.
    erewrite bind_done by (apply getpipe_ok, inside_pipe). rewrite not_empty by done.
    rewrite (proj2 (Z.eqb_neq _ _) Hnz). fold b.
    erewrite bind_done by apply inside_set.
    erewrite bind_done by (apply kgetp_ok, inside_me).
    erewrite bind_done by (apply inside_mem, Hout). done.
Qed.

(** C31: a write of bytes that fit in the ring, by a live process while the read
    end is open, appends exactly these bytes to the pipe's queue, wakes the
    readers, and returns their number with the lock free; it does not sleep. *)
Theorem pipewrite_appends p addr bs :
  pipes s !! pi = Some p -> pipe_ok p -> readopen p <> 0 ->
  Z.of_nat (length (queue p)) + Z.of_nat (length bs) <= PIPESIZE ->
  (forall k b, bs !! k = Some b ->
    copyin (pagetable me) (u64 (addr + Z.of_nat k)) 1 (ram (kp s)) = Done (Some [b]) (ram (kp s))) ->
  exists p', pipewrite pi addr (Z.of_nat (length bs)) s
    = Done (Z.of_nat (length bs)) (woke (nread_chan pi) (s {{ pipes ::= insert pi p' }})) /\
    pipe_ok p' /\ queue p' = queue p ++ bs /\ readopen p' = readopen p /\ writeopen p' = writeopen p.
Proof.
  intros Hpi Hp Hopen Hroom Hin. rewrite queue_length in Hroom by done.
  destruct (write_loop (Datatypes.S (length bs) + fuel) bs 0 p (Z.of_nat (length bs))) with (addr := addr)
    as (p' & E & Hp' & Hq & Ho & Hw); [lia|lia|lia|done|done|lia|done|].
  exists p'. split; [|done]. unfold pipewrite.
  erewrite bind_done by apply kmyproc_eq. erewrite bind_done by (by apply enter).
  rewrite Nat2Z.id. erewrite bind_done by exact E.
  pose proof (leave_waking (nread_chan pi) p' (ram (kp s))) as Hleave.
  unfold bind in *. destruct (kwakeup _ _) as [[] s1| | | |]; try done. cbn [bindp] in *.
  rewrite Hleave. cbn [bindp ret]. by destruct s as [[]].
Qed.

(** C32: a read from a pipe that holds data, or whose write end is closed, by a
    live process: the oldest bytes of the queue, at most n, are copied in order
    to the user's addresses, which can be written, and leave the queue, the writers are woken, and
    their number is returned with the lock free (0 for an empty closed pipe). *)
Theorem piperead_takes p addr n m' :
  pipes s !! pi = Some p -> pipe_ok p -> 0 <= n ->
  (queue p <> [] \/ writeopen p = 0) ->
  let bs := take (Z.to_nat n) (queue p) in
  delivered (pagetable me) addr bs (ram (kp s)) m' ->
  exists p', piperead pi addr n s
    = Done (Z.of_nat (length bs))
        (woke (nwrite_chan pi) (s {{ kp := (kp s) {{ ram := m' }}; pipes ::= insert pi p' }})) /\
    pipe_ok p' /\ queue p = bs ++ queue p' /\ readopen p' = readopen p /\ writeopen p' = writeopen p.
Proof.
  intros Hpi Hp Hn Hready bs Hd.
  destruct (read_loop (Datatypes.S (Z.to_nat n)) 0 p (ram (kp s)) n addr m')
    as (p' & E & Hp' & Hq & Ho & Hw); [lia|lia|done|by rewrite Z.add_0_r, Z.sub_0_r|].
  rewrite Z.sub_0_r in *. exists p'. split; [|done]. unfold piperead.
  erewrite bind_done by apply kmyproc_eq. erewrite bind_done by (by apply enter).
  assert (Hgo : await_data (cur (kp s)) pi (inside p (ram (kp s))) = Done false (inside p (ram (kp s)))).
  { apply loop_break. erewrite bind_done by (apply getpipe_ok, inside_pipe).
    rewrite not_empty by done. destruct Hready as [Hne| ->]; [|by rewrite andb_false_r].
    rewrite (proj2 (Z.eqb_neq _ 0)); [done|]. intros Hz.
    pose proof (queue_length p Hp). destruct (queue p); [done|simpl in *; lia]. }
  erewrite bind_done by exact Hgo. cbv iota. erewrite bind_done by exact E.
  pose proof (leave_waking (nwrite_chan pi) p' m') as Hleave.
  unfold bind in *. destruct (kwakeup _ _) as [[] s1| | | |]; try done. cbn [bindp] in *.
  by rewrite Hleave.
Qed.

End Ops.

(** ** The theorems on a small machine *)

Section Witness.
#[local] Existing Instance tiny.
#[local] Instance demo_fuel : Fuel := 0%nat.

Lemma demo_pipe_ok : pipe_ok demo_pipe.
Proof. split; [done|]. vm_compute. intuition congruence. Qed.

Definition write_ram (a b : Z) (m : phys) : phys := result (copyout (pg 15) a [b] m) m.

Lemma demo_delivered :
  delivered (pagetable demo_proc) 100 [7; 8] user_ram (write_ram 101 8 (write_ram 100 7 user_ram)).
Proof.
  exists (write_ram 100 7 user_ram). split.
  { apply (value_done _ 5 0); [vm_compute; reflexivity|done]. }
  exists (write_ram 101 8 (write_ram 100 7 user_ram)). split; [|done].
  apply (value_done _ 5 0); [vm_compute; reflexivity|done].
Qed.

Lemma demo_copyin k b :
  [104; 105; 33] !! k = Some b ->
  copyin (pg 15) (u64 (0 + Z.of_nat k)) 1 user_ram = Done (Some [b]) user_ram.
Proof.
  intros Hk. destruct k as [|[|[|k]]]; [injection Hk as <-..|done]; reflexivity.
Qed.

Lemma pipewrite_appends_witness :
  exists p', pipewrite pipe_page 0 3 demo_kernel
    = Done 3 (woke (nread_chan pipe_page) (demo_kernel {{ pipes ::= insert pipe_page p' }})) /\
    queue p' = [7; 8; 9; 104; 105; 33].
Proof.
  destruct (pipewrite_appends demo_kernel pipe_page demo_proc demo_kernel_full demo_kernel_unlocked
    (not_elem_of_empty _) eq_refl eq_refl demo_pipe 0 [104; 105; 33]) as (p' & E & _ & Hq & _).
  - reflexivity.
  - exact demo_pipe_ok.
  - discriminate.
  - vm_compute; congruence.
  - exact demo_copyin.
  - exists p'. split; [exact E|exact Hq].
Defined.

Lemma piperead_takes_witness :
  exists p', piperead pipe_page 100 2 demo_kernel
    = Done 2 (woke (nwrite_chan pipe_page) (demo_kernel {{
        kp := demo_pstate {{ ram := write_ram 101 8 (write_ram 100 7 user_ram) }};
        pipes ::= insert pipe_page p' }})) /\ [7; 8; 9] = [7; 8] ++ queue p'.
Proof.
  destruct (piperead_takes demo_kernel pipe_page demo_proc demo_kernel_full demo_kernel_unlocked
    (not_elem_of_empty _) eq_refl demo_pipe 100 2 (write_ram 101 8 (write_ram 100 7 user_ram)))
    as (p' & E & _ & Hq & _).
  - reflexivity.
  - exact demo_pipe_ok.
  - lia.
  - left. discriminate.
  - exact demo_delivered.
  - exists p'. split; [exact E|exact Hq].
Defined.

End Witness.
