(* ===== verification/FileTab.v ===== *)
(** Open files (kernel/file.c) and the creation of a pipe (kernel/pipe.c). *)

From S2P Require Import Prelude Mem Riscv Locks Kalloc Vm Proc Kernel Uart Printf Console Sleeplock Bio Log Fs PipeProps.

Definition ftable_lock : lock := ("ftable", 0).

Section FileTab.
Context `{Layout} `{Fuel} `{DiskDriver}.

(** The index of a free entry, now referenced once, or -1. *)
Definition filealloc : M kernel Z :=
  acquire ftable_lock;;;
  for_to NFILE (fun i =>
    f <- getfile i;;
    if f_ref f =? 0 then
      setfile i (fun f => f {{ f_ref := 1 }});;;
      release ftable_lock;;;
      leave i
    else next)
    (release ftable_lock;;; ret (-1)).

Definition filedup (f : Z) : M kernel Z :=
  acquire ftable_lock;;;
  x <- getfile f;;
  when (f_ref x <? 1) (panic "filedup");;;
  setfile f (fun x => x {{ f_ref ::= fun n => n + 1 }});;;
  release ftable_lock;;;
  ret f.

Definition fileclose (f : Z) : M kernel unit :=
  acquire ftable_lock;;;
  x <- getfile f;;
  when (f_ref x <? 1) (panic "fileclose");;;
  setfile f (fun x => x {{ f_ref ::= fun n => n - 1 }});;;
  x <- getfile f;;
  if f_ref x >? 0 then release ftable_lock
  else
    let ff := x in
    setfile f (fun x => x {{ f_ref := 0; f_type := FD_NONE }});;;
    release ftable_lock;;;
    match f_type ff with
    | FD_PIPE => pipeclose (f_pipe ff) (negb (f_writable ff =? 0))
    | FD_INODE | FD_DEVICE => begin_op;;; iput (f_ip ff);;; end_op
    | FD_NONE => ret tt
    end.

Definition filestat (f addr : Z) : M kernel Z :=
  me <- kmyproc;;
  p <- kgetp me;;
  x <- getfile f;;
  match f_type x with
  | FD_INODE | FD_DEVICE =>
      ilock (f_ip x);;;
      st <- stati (f_ip x);;
      iunlock (f_ip x);;;
      r <- in_mem (copyout (pagetable p) addr st);;
      if r <? 0 then ret (-1) else ret 0
  | _ => ret (-1)
  end.

(** [devsw[major].read] and [.write] when the entry has them. *)
Definition device (major : Z) : M kernel bool :=
  d <- gets devsw;;
  ret (match geti d major with Some ConsoleDevice => true | _ => false end).

Definition fileread (f addr n : Z) : M kernel Z :=
  x <- getfile f;;
  if f_readable x =? 0 then ret (-1)
  else
    match f_type x with
    | FD_PIPE => piperead (f_pipe x) addr n
    | FD_DEVICE =>
        ok <- device (f_major x);;
        if (f_major x <? 0) || (f_major x >=? NDEV) || negb ok then ret (-1)
        else consoleread true addr n
    | FD_INODE =>
        ilock (f_ip x);;;
        x <- getfile f;;
        r <- readi (f_ip x) (UserMem addr) (f_off x) (u32 n);;
        when (r.1 >? 0) (setfile f (fun x => x {{ f_off ::= fun o => u32 (o + r.1) }}));;;
        iunlock (f_ip x);;;
        ret r.1
    | FD_NONE => panic "fileread"
    end.

Definition write_max : Z := (MAXOPBLOCKS - 1 - 1 - 2) / 2 * BSIZE.

Definition filewrite (f addr n : Z) : M kernel Z :=
  x <- getfile f;;
  if f_writable x =? 0 then ret (-1)
  else
    match f_type x with
    | FD_PIPE => pipewrite (f_pipe x) addr n
    | FD_DEVICE =>
        ok <- device (f_major x);;
        if (f_major x <? 0) || (f_major x >=? NDEV) || negb ok then ret (-1)
        else consolewrite true addr n
    | FD_INODE =>
        i <- loop (Datatypes.S (Z.to_nat n))
          (fun i =>
             if i <? n then
               let n1 := if n - i >? write_max then write_max else n - i in
               begin_op;;;
               ilock (f_ip x);;;
               x <- getfile f;;
               r <- writei (f_ip x) (FromUser (u64 (addr + i))) (f_off x) n1;;
               when (r >? 0) (setfile f (fun x => x {{ f_off ::= fun o => u32 (o + r) }}));;;
               iunlock (f_ip x);;;
               end_op;;;
               if negb (r =? n1) then break i else continue (i + r)
             else break i) 0;;
        ret (if i =? n then n else -1)
    | FD_NONE => panic "filewrite"
    end.

(** pipealloc: the read end and the write end, or [None]. *)
Definition pipealloc : M kernel (option (Z * Z)) :=
  f0 <- filealloc;;
  if f0 =? -1 then ret None
  else
    f1 <- filealloc;;
    if f1 =? -1 then fileclose f0;;; ret None
    else
      pi <- in_mem kalloc;;
      if pi =? 0 then fileclose f0;;; fileclose f1;;; ret None
      else
        data <- gets (fun s => bytes_at (pmem (ram (kp s))) (pi + 24) 512);;
        modify (fun s => s {{ pipes ::= insert pi (Pipe data 0 0 1 1) }});;;
        setfile f0 (fun f => f {{ f_type := FD_PIPE; f_readable := 1; f_writable := 0; f_pipe := pi }});;;
        setfile f1 (fun f => f {{ f_type := FD_PIPE; f_readable := 0; f_writable := 1; f_pipe := pi }});;;
        ret (Some (f0, f1)).

End FileTab.
