(* ===== verification/Life.v ===== *)
(** The life of a process (kernel/proc.c): fork, exit, the first process, and
    the first return to user space, which use files, inodes and the log.

    [Symbols] are addresses of code the linker fixes. *)

From S2P Require Import Prelude Mem Riscv Locks Kalloc Vm Proc Kernel Sleeplock Bio Log Fs FileTab.

Class Symbols := {
  forkret_addr : Z;
  usertrap_addr : Z;
  uservec_off : Z;
  userret_off : Z;
}.

(** safestrcpy between byte arrays: at most [n - 1] bytes and a NUL. *)
Definition safestrcpy_bytes (n : nat) (s t : list Z) : list Z :=
  splice 0 (take (n - 1) (cstr t) ++ [0]) s.

(** The bytes of initcode[]: a program that calls exec("/init"). *)
Definition initcode : list Z :=
  [ 0x17; 0x05; 0x00; 0x00; 0x13; 0x05; 0x45; 0x02;
    0x97; 0x05; 0x00; 0x00; 0x93; 0x85; 0x35; 0x02;
    0x93; 0x08; 0x70; 0x00; 0x73; 0x00; 0x00; 0x00;
    0x93; 0x08; 0x20; 0x00; 0x73; 0x00; 0x00; 0x00;
    0xef; 0xf0; 0x9f; 0xff; 0x2f; 0x69; 0x6e; 0x69;
    0x74; 0x00; 0x00; 0x24; 0x00; 0x00; 0x00; 0x00;
    0x00; 0x00; 0x00; 0x00 ].

Section Life.
Context `{Layout} `{Symbols} `{Fuel} `{DiskDriver}.

Definition userinit : M kernel unit :=
  i <- in_proc (allocproc forkret_addr);;
  modify (fun s => s {{ kp := (kp s) {{ initproc := i }} }});;;
  p <- kgetp i;;
  in_mem (uvmfirst (pagetable p) initcode);;;
  ksetp i (fun p => p {{ sz := PGSIZE }});;;
  in_proc (wr_tf (trapframe p) TF_EPC 0);;;
  in_proc (wr_tf (trapframe p) TF_SP PGSIZE);;;
  ksetp i (fun p => p {{ name ::= fun n => safestrcpy_bytes 16 n (str "initcode") }});;;
  d <- namei (str "/");;
  ksetp i (fun p => p {{ cwd := d; state := RUNNABLE }});;;
  release (proc_lock i).

(** [for (i = 0; i < NOFILE; i++) if (p->ofile[i]) np->ofile[i] = filedup(...)]. *)
Definition dup_files (me np : Z) : M kernel unit :=
  for_to NOFILE (fun i =>
    p <- kgetp me;;
    let f := default (-1) (geti (ofile p) i) in
    when (negb (f =? -1)) (
      g <- filedup f;;
      ksetp np (fun q => q {{ ofile ::= seti i g }}));;;
    next) (ret tt).

Definition fork : M kernel Z :=
  me <- kmyproc;;
  np <- in_proc (allocproc forkret_addr);;
  if np =? -1 then ret (-1)
  else
    p <- kgetp me;;
    q <- kgetp np;;
    r <- in_mem (uvmcopy (pagetable p) (pagetable q) (sz p));;
    if r <? 0 then
      in_proc (freeproc np);;;
      release (proc_lock np);;;
      ret (-1)
    else
      ksetp np (fun q => q {{ sz := sz p; parent := me }});;;
      in_mem (modify (set_pmem (fun m => mmove m (trapframe q) (trapframe p) TF_SIZE)));;;
      in_proc (wr_tf (trapframe q) (TF_A 0) 0);;;
      dup_files me np;;;
      d <- idup (cwd p);;
      ksetp np (fun q => q {{ cwd := d; name ::= fun n => safestrcpy_bytes 16 n (name p) }});;;
      q <- kgetp np;;
      ksetp np (fun q => q {{ state := RUNNABLE }});;;
      release (proc_lock np);;;
      ret (pid q).

Definition reparent (me : Z) : M kernel unit :=
  for_procs (fun i =>
    p <- kgetp i;;
    when (parent p =? me) (
      init <- gets (fun s => initproc (kp s));;
      ksetp i (fun p => p {{ parent := init }});;;
      kwakeup (proc_chan init));;;
    next) (ret tt).

Definition close_files (me : Z) : M kernel unit :=
  for_to NOFILE (fun fd =>
    p <- kgetp me;;
    let f := default (-1) (geti (ofile p) fd) in
    when (negb (f =? -1)) (
      fileclose f;;;
      ksetp me (fun p => p {{ ofile ::= seti fd (-1) }}));;;
    next) (ret tt).

(** exit does not return: a process that is switched to again after sched()
    panics. *)
Definition exit {A} (status : Z) : M kernel A :=
  me <- kmyproc;;
  init <- gets (fun s => initproc (kp s));;
  if me =? init then panic "init exiting"
  else
    close_files me;;;
    begin_op;;;
    p <- kgetp me;;
    iput (cwd p);;;
    end_op;;;
    ksetp me (fun p => p {{ cwd := -1 }});;;
    acquire wait_lock;;;
    reparent me;;;
    p <- kgetp me;;
    kwakeup (proc_chan (parent p));;;
    acquire (proc_lock me);;;
    t <- gets (fun s => ticks (kp s));;
    ksetp me (fun p => p {{ xstate := status; state := ZOMBIE; etime := t }});;;
    release wait_lock;;;
    in_proc sched;;;
    panic "zombie exit".

(** forkret up to its call of usertrapret(). *)
Definition forkret : M kernel unit :=
  me <- kmyproc;;
  release (proc_lock me);;;
  f <- gets first;;
  when (negb (f =? 0)) (
    modify (fun s => s {{ first := 0 }});;;
    fsinit ROOTDEV).

End Life.
