(* ===== verification/Exec.v ===== *)
(** Program loading (kernel/exec.c).

    The argument strings are lists of bytes without their NUL.  An error is the
    [goto bad] of the code: the new page table is freed with the size it has
    reached, and the inode is released if it is still locked. *)

From S2P Require Import Prelude Mem Riscv Locks Kalloc Vm Proc Kernel Sleeplock Bio Log Fs FileTab Life.

Definition ELF_MAGIC : Z := 0x464C457F.
Definition ELF_PROG_LOAD : Z := 1.

Record elfhdr := Elf { e_magic : Z; e_entry : Z; e_phoff : Z; e_phnum : Z }.
Definition ELF_SIZE : Z := 64.
Definition elf_of (d : list Z) : elfhdr :=
  Elf (field 0 4 d) (field 24 8 d) (field 32 8 d) (field 56 2 d).

Record proghdr := Prog {
  ph_type : Z; ph_flags : Z; ph_off : Z; ph_vaddr : Z; ph_filesz : Z; ph_memsz : Z }.
Definition PH_SIZE : Z := 56.
Definition prog_of (d : list Z) : proghdr :=
  Prog (field 0 4 d) (field 4 4 d) (field 8 8 d) (field 16 8 d) (field 32 8 d) (field 40 8 d).

Definition flags2perm (flags : Z) : Z :=
  let perm := if has flags 0x1 then PTE_X else 0 in
  if has flags 0x2 then Z.lor perm PTE_W else perm.

(** The path after its last slash. *)
Fixpoint last_elem (last s : list Z) : list Z :=
  match s with
  | [] => last
  | c :: r => last_elem (if c =? slash then r else last) r
  end.

Section Exec.
Context `{Layout} `{Fuel} `{DiskDriver}.

Definition loadseg (pt va ip offset size : Z) : M kernel Z :=
  loop (Datatypes.S (Z.to_nat (size / PGSIZE + 1)))
    (fun i =>
       if i <? size then
         pa <- in_mem (walkaddr pt (u64 (va + i)));;
         if pa =? 0 then panic "loadseg: address should exist"
         else
           let n := if size - i <? PGSIZE then size - i else PGSIZE in
           r <- readi ip (KernMem pa) (u32 (offset + i)) n;;
           if negb (r.1 =? n) then break (-1) else continue (u32 (i + PGSIZE))
       else break 0) 0.

(** The program headers: the size reached, and whether all went well. *)
Definition load_segments (pt ip : Z) (elf : elfhdr) : M kernel (Z * bool) :=
  loop (Datatypes.S (Z.to_nat (e_phnum elf)))
    (fun '(i, off, size) =>
       if i <? e_phnum elf then
         r <- readi ip Local (u32 off) PH_SIZE;;
         if negb (r.1 =? PH_SIZE) then break (size, false)
         else
           let ph := prog_of r.2 in
           if negb (ph_type ph =? ELF_PROG_LOAD) then continue (i + 1, i32 (off + PH_SIZE), size)
           else if ph_memsz ph <? ph_filesz ph then break (size, false)
           else if u64 (ph_vaddr ph + ph_memsz ph) <? ph_vaddr ph then break (size, false)
           else
             sz1 <- in_mem (uvmalloc pt size (u64 (ph_vaddr ph + ph_memsz ph)) (flags2perm (ph_flags ph)));;
             if sz1 =? 0 then break (size, false)
             else if negb (ph_vaddr ph mod PGSIZE =? 0) then break (sz1, false)
             else
               r <- loadseg pt (ph_vaddr ph) ip (u32 (ph_off ph)) (u32 (ph_filesz ph));;
               if r <? 0 then break (sz1, false)
               else continue (i + 1, i32 (off + PH_SIZE), sz1)
       else break (size, true)) (0, i32 (e_phoff elf), 0).

(** The strings on the stack: the stack pointer and their addresses. *)
Definition push_args (pt stackbase sp : Z) (argv : list (list Z)) : M kernel (option (Z * list Z)) :=
  loop (Datatypes.S (length argv))
    (fun '(argv, sp, ustack) =>
       match argv with
       | [] => break (Some (sp, ustack))
       | a :: rest =>
           if Z.of_nat (length ustack) >=? MAXARG then break None
           else
             let sp := u64 (sp - (Z.of_nat (length a) + 1)) in
             let sp := sp - sp mod 16 in
             if sp <? stackbase then break None
             else
               r <- in_mem (copyout pt sp (a ++ [0]));;
               if r <? 0 then break None else continue (rest, sp, ustack ++ [sp])
       end) (argv, sp, []).

(** The stack pages and the arguments: stack pointer and size, or the size for
    the error path. *)
Definition build_stack (pt size : Z) (argv : list (list Z)) : M kernel (Z + Z * Z) :=
  let size := PGROUNDUP size in
  sz1 <- in_mem (uvmalloc pt size (u64 (size + 2 * PGSIZE)) PTE_W);;
  if sz1 =? 0 then ret (inl size)
  else
    in_mem (uvmclear pt (u64 (sz1 - 2 * PGSIZE)));;;
    let stackbase := u64 (sz1 - PGSIZE) in
    o <- push_args pt stackbase sz1 argv;;
    match o with
    | None => ret (inl sz1)
    | Some (sp, ustack) =>
        let sp := u64 (sp - (Z.of_nat (length ustack) + 1) * 8) in
        let sp := sp - sp mod 16 in
        if sp <? stackbase then ret (inl sz1)
        else
          r <- in_mem (copyout pt sp (concat (int_bytes 8 <$> (ustack ++ [0]))));;
          if r <? 0 then ret (inl sz1) else ret (inr (sp, sz1))
    end.

Definition exec (path : list Z) (argv : list (list Z)) : M kernel Z :=
  me <- kmyproc;;
  begin_op;;;
  ip <- namei path;;
  if ip =? -1 then end_op;;; ret (-1)
  else
    ilock ip;;;
    r <- readi ip Local 0 ELF_SIZE;;
    let elf := elf_of r.2 in
    let bad := iunlockput ip;;; end_op;;; ret (-1) in
    if negb (r.1 =? ELF_SIZE) then bad
    else if negb (e_magic elf =? ELF_MAGIC) then bad
    else
      pt <- in_proc (proc_pagetable me);;
      if pt =? 0 then bad
      else
        l <- load_segments pt ip elf;;
        if negb l.2 then in_mem (proc_freepagetable pt l.1);;; bad
        else
          iunlockput ip;;;
          end_op;;;
          p <- kgetp me;;
          st <- build_stack pt l.1 argv;;
          match st with
          | inl size => in_mem (proc_freepagetable pt size);;; ret (-1)
          | inr (sp, size) =>
              in_proc (wr_tf (trapframe p) (TF_A 1) sp);;;
              ksetp me (fun p => p {{ name ::= fun n => safestrcpy_bytes 16 n (last_elem path path) }});;;
              ksetp me (fun p => p {{ pagetable := pt; sz := size }});;;
              in_proc (wr_tf (trapframe p) TF_EPC (e_entry elf));;;
              in_proc (wr_tf (trapframe p) TF_SP sp);;;
              in_mem (proc_freepagetable (pagetable p) (sz p));;;
              ret (Z.of_nat (length argv))
          end.

End Exec.
