(* ===== verification/Syscall.v ===== *)
(** System-call arguments (kernel/syscall.c) and the system calls on processes
    (kernel/sysproc.c).

    A call returns the value that syscall() stores in a0; -1 is stored as
    2^64 - 1. *)

From S2P Require Import Prelude Mem Riscv Locks Kalloc Vm Proc Sched Kernel Sleeplock Bio Log Fs FileTab Life.

Section Syscall.
Context `{Layout} `{Symbols} `{Fuel} `{DiskDriver}.

(** The word at a user address, or [None] for -1. *)
Definition fetchaddr (addr : Z) : M kernel (option Z) :=
  me <- kmyproc;;
  p <- kgetp me;;
  if (addr >=? sz p) || (u64 (addr + 8) >? sz p) then ret None
  else
    r <- in_mem (copyin (pagetable p) addr 8);;
    ret (le_value <$> r).

(** The string at a user address; strlen of it is the value returned. *)
Definition fetchstr (addr max : Z) : M kernel (option (list Z)) :=
  me <- kmyproc;;
  p <- kgetp me;;
  in_mem (copyinstr (pagetable p) addr max).

Definition argraw (n : Z) : M kernel Z :=
  me <- kmyproc;;
  p <- kgetp me;;
  if (0 <=? n) && (n <=? 5) then in_proc (rd_tf (trapframe p) (TF_A n))
  else panic "argraw".

Definition argint (n : Z) : M kernel Z := v <- argraw n;; ret (i32 v).
Definition argaddr (n : Z) : M kernel Z := argraw n.
Definition argstr (n max : Z) : M kernel (option (list Z)) :=
  addr <- argaddr n;; fetchstr addr max.

Definition sys_exit : M kernel Z := n <- argint 0;; exit n.

Definition sys_set_priority : M kernel Z :=
  pid <- argint 0;;
  new_priority <- argint 1;;
  in_proc (set_priority pid new_priority).

Definition sys_getpid : M kernel Z := me <- kmyproc;; p <- kgetp me;; ret (pid p).
Definition sys_fork : M kernel Z := fork.
Definition sys_wait : M kernel Z := p <- argaddr 0;; in_proc (wait fuel p).

Definition sys_sbrk : M kernel Z :=
  n <- argint 0;;
  me <- kmyproc;;
  p <- kgetp me;;
  r <- in_proc (growproc n);;
  if r <? 0 then ret (-1) else ret (sz p).

(** [ticks - ticks0 < n] compares unsigned numbers: a negative [n] waits for
    almost 2^32 ticks. *)
Definition sys_sleep : M kernel Z :=
  n <- argint 0;;
  acquire tickslock;;;
  ticks0 <- gets (fun s => ticks (kp s));;
  me <- kmyproc;;
  dead <- loop (Datatypes.S fuel) (fun _ : unit =>
    t <- gets (fun s => ticks (kp s));;
    if u32 (t - ticks0) <? u32 n then
      k <- in_proc (killed me);;
      if negb (k =? 0) then break true
      else ksleep ticks_chan tickslock;;; continue tt
    else break false) tt;;
  release tickslock;;;
  ret (if dead : bool then -1 else 0).

Definition sys_kill : M kernel Z := pid <- argint 0;; in_proc (kill pid).

Definition sys_uptime : M kernel Z :=
  acquire tickslock;;;
  xticks <- gets (fun s => ticks (kp s));;
  release tickslock;;;
  ret xticks.

(** When waitx fails without finding a child, wtime and rtime were never
    written: the code copies indeterminate values to the user. *)
Definition sys_waitx : M kernel Z :=
  addr <- argaddr 0;;
  addr1 <- argaddr 1;;
  addr2 <- argaddr 2;;
  r <- in_proc (waitx fuel addr);;
  match r.2 with
  | None => undef "uninitialised wtime"
  | Some (wtime, rtime) =>
      me <- kmyproc;;
      p <- kgetp me;;
      c <- in_mem (copyout (pagetable p) addr1 (int_bytes 4 wtime));;
      if c <? 0 then ret (-1)
      else
        c <- in_mem (copyout (pagetable p) addr2 (int_bytes 4 rtime));;
        if c <? 0 then ret (-1) else ret r.1
  end.

End Syscall.
