(* ===== verification/Sysfile.v ===== *)
(** The system calls on files and directories (kernel/sysfile.c). *)

From S2P Require Import Prelude Mem Riscv Locks Kalloc Vm Proc Kernel Sleeplock Bio Log Fs FileTab Life Exec Syscall.

Definition O_RDONLY : Z := 0x000.
Definition O_WRONLY : Z := 0x001.
Definition O_RDWR : Z := 0x002.
Definition O_CREATE : Z := 0x200.
Definition O_TRUNC : Z := 0x400.

Section Sysfile.
Context `{Layout} `{Symbols} `{Fuel} `{DiskDriver}.

(** The descriptor and the file of argument [n]. *)
Definition argfd (n : Z) : M kernel (option (Z * Z)) :=
  fd <- argint n;;
  if (fd <? 0) || (fd >=? NOFILE) then ret None
  else
    me <- kmyproc;;
    p <- kgetp me;;
    let f := default (-1) (geti (ofile p) fd) in
    if f =? -1 then ret None else ret (Some (fd, f)).

Definition fdalloc (f : Z) : M kernel Z :=
  me <- kmyproc;;
  for_to NOFILE (fun fd =>
    p <- kgetp me;;
    if default (-1) (geti (ofile p) fd) =? -1 then
      ksetp me (fun p => p {{ ofile ::= seti fd f }});;;
      leave fd
    else next) (ret (-1)).

Definition sys_dup : M kernel Z :=
  a <- argfd 0;;
  match a with
  | None => ret (-1)
  | Some (_, f) =>
      fd <- fdalloc f;;
      if fd <? 0 then ret (-1) else filedup f;;; ret fd
  end.

Definition sys_getreadcount : M kernel Z := gets readCount.

Definition sys_read : M kernel Z :=
  modify (fun s => s {{ readCount ::= fun n => i32 (n + 1) }});;;
  p <- argaddr 1;;
  n <- argint 2;;
  a <- argfd 0;;
  match a with
  | None => ret (-1)
  | Some (_, f) => fileread f p n
  end.

Definition sys_write : M kernel Z :=
  p <- argaddr 1;;
  n <- argint 2;;
  a <- argfd 0;;
  match a with
  | None => ret (-1)
  | Some (_, f) => filewrite f p n
  end.

Definition sys_close : M kernel Z :=
  a <- argfd 0;;
  match a with
  | None => ret (-1)
  | Some (fd, f) =>
      me <- kmyproc;;
      ksetp me (fun p => p {{ ofile ::= seti fd (-1) }});;;
      fileclose f;;;
      ret 0
  end.

Definition sys_fstat : M kernel Z :=
  st <- argaddr 1;;
  a <- argfd 0;;
  match a with
  | None => ret (-1)
  | Some (_, f) => filestat f st
  end.

(** The link count of an inode, as a 16-bit [short]. *)
Definition add_nlink (ip d : Z) : M kernel unit :=
  setinode ip (fun x => x {{ i_nlink ::= fun n => i16 (n + d) }});;;
  iupdate ip.

Definition sys_link : M kernel Z :=
  old <- argstr 0 MAXPATH;;
  match old with
  | None => ret (-1)
  | Some old =>
      new <- argstr 1 MAXPATH;;
      match new with
      | None => ret (-1)
      | Some new =>
          begin_op;;;
          ip <- namei old;;
          if ip =? -1 then end_op;;; ret (-1)
          else
            ilock ip;;;
            x <- getinode ip;;
            if i_type x =? T_DIR then iunlockput ip;;; end_op;;; ret (-1)
            else
              add_nlink ip 1;;;
              iunlock ip;;;
              let bad :=
                ilock ip;;;
                add_nlink ip (-1);;;
                iunlockput ip;;;
                end_op;;;
                ret (-1) in
              r <- nameiparent new;;
              let '(dp, name) := r in
              if dp =? -1 then bad
              else
                ilock dp;;;
                d <- getinode dp;;
                x <- getinode ip;;
                l <- (if negb (i_dev d =? i_dev x) then ret (-1) else dirlink dp name (i_inum x));;
                if l <? 0 then iunlockput dp;;; bad
                else
                  iunlockput dp;;;
                  iput ip;;;
                  end_op;;;
                  ret 0
      end
  end.

Definition isdirempty (dp : Z) : M kernel bool :=
  x <- getinode dp;;
  loop (Datatypes.S (Z.to_nat (i_size x)))
    (fun off =>
       if off <? i_size x then
         r <- readi dp Local off DIRENT_SIZE;;
         when (negb (r.1 =? DIRENT_SIZE)) (panic "isdirempty: readi");;;
         if negb (d_inum (dirent_of r.2) =? 0) then break false
         else continue (off + DIRENT_SIZE)
       else break true) (2 * DIRENT_SIZE).

Definition sys_unlink : M kernel Z :=
  path <- argstr 0 MAXPATH;;
  match path with
  | None => ret (-1)
  | Some path =>
      begin_op;;;
      r <- nameiparent path;;
      let '(dp, name) := r in
      if dp =? -1 then end_op;;; ret (-1)
      else
        ilock dp;;;
        let bad := iunlockput dp;;; end_op;;; ret (-1) in
        if (namecmp name (str ".") =? 0) || (namecmp name (str "..") =? 0) then bad
        else
          r <- dirlookup dp name;;
          let '(ip, off) := r in
          if ip =? -1 then bad
          else
            ilock ip;;;
            x <- getinode ip;;
            when (i_nlink x <? 1) (panic "unlink: nlink < 1");;;
            full <- (if i_type x =? T_DIR then e <- isdirempty ip;; ret (negb e) else ret false);;
            if full : bool then iunlockput ip;;; bad
            else
              n <- writei dp (FromLocal (replicate (Z.to_nat DIRENT_SIZE) 0)) off DIRENT_SIZE;;
              when (negb (n =? DIRENT_SIZE)) (panic "unlink: writei");;;
              when (i_type x =? T_DIR) (add_nlink dp (-1));;;
              iunlockput dp;;;
              add_nlink ip (-1);;;
              iunlockput ip;;;
              end_op;;;
              ret 0
  end.

(** The new inode, locked, or -1. *)
Definition create (path : list Z) (type major minor : Z) : M kernel Z :=
  r <- nameiparent path;;
  let '(dp, name) := r in
  if dp =? -1 then ret (-1)
  else
    ilock dp;;;
    r <- dirlookup dp name;;
    if negb (r.1 =? -1) then
      let ip := r.1 in
      iunlockput dp;;;
      ilock ip;;;
      x <- getinode ip;;
      if (type =? T_FILE) && ((i_type x =? T_FILE) || (i_type x =? T_DEVICE)) then ret ip
      else iunlockput ip;;; ret (-1)
    else
      d <- getinode dp;;
      ip <- ialloc (i_dev d) type;;
      if ip =? -1 then iunlockput dp;;; ret (-1)
      else
        ilock ip;;;
        setinode ip (fun x => x {{ i_major := major; i_minor := minor; i_nlink := 1 }});;;
        iupdate ip;;;
        x <- getinode ip;;
        dots <- (if type =? T_DIR then
                   l <- dirlink ip (str ".") (i_inum x);;
                   if l <? 0 then ret false
                   else l <- dirlink ip (str "..") (i_inum d);; ret (negb (l <? 0))
                 else ret true);;
        ok <- (if dots : bool then l <- dirlink dp name (i_inum x);; ret (negb (l <? 0)) else ret false);;
        if ok : bool then
          when (type =? T_DIR) (add_nlink dp 1);;;
          iunlockput dp;;;
          ret ip
        else
          setinode ip (fun x => x {{ i_nlink := 0 }});;;
          iupdate ip;;;
          iunlockput ip;;;
          iunlockput dp;;;
          ret (-1).

(** The part of open after the inode is found and locked. *)
Definition open_inode (ip omode : Z) : M kernel Z :=
  x <- getinode ip;;
  let bad := iunlockput ip;;; end_op;;; ret (-1) in
  if (i_type x =? T_DEVICE) && ((i_major x <? 0) || (i_major x >=? NDEV)) then bad
  else
    f <- filealloc;;
    if f =? -1 then bad
    else
      fd <- fdalloc f;;
      if fd <? 0 then fileclose f;;; bad
      else
        setfile f (fun g => if i_type x =? T_DEVICE
                            then g {{ f_type := FD_DEVICE; f_major := i_major x }}
                            else g {{ f_type := FD_INODE; f_off := 0 }});;;
        setfile f (fun g => g {{ f_ip := ip;
          f_readable := if has omode O_WRONLY then 0 else 1;
          f_writable := if has omode O_WRONLY || has omode O_RDWR then 1 else 0 }});;;
        when (has omode O_TRUNC && (i_type x =? T_FILE)) (itrunc ip);;;
        iunlock ip;;;
        end_op;;;
        ret fd.

Definition sys_open : M kernel Z :=
  omode <- argint 1;;
  path <- argstr 0 MAXPATH;;
  match path with
  | None => ret (-1)
  | Some path =>
      begin_op;;;
      if has omode O_CREATE then
        ip <- create path T_FILE 0 0;;
        if ip =? -1 then end_op;;; ret (-1) else open_inode ip omode
      else
        ip <- namei path;;
        if ip =? -1 then end_op;;; ret (-1)
        else
          ilock ip;;;
          x <- getinode ip;;
          if (i_type x =? T_DIR) && negb (omode =? O_RDONLY) then
            iunlockput ip;;; end_op;;; ret (-1)
          else open_inode ip omode
  end.

(** The end of mkdir and mknod. *)
Definition finish_create (ip : Z) : M kernel Z :=
  if ip =? -1 then end_op;;; ret (-1)
  else iunlockput ip;;; end_op;;; ret 0.

Definition sys_mkdir : M kernel Z :=
  begin_op;;;
  path <- argstr 0 MAXPATH;;
  ip <- (match path with None => ret (-1) | Some path => create path T_DIR 0 0 end);;
  finish_create ip.

Definition sys_mknod : M kernel Z :=
  begin_op;;;
  major <- argint 1;;
  minor <- argint 2;;
  path <- argstr 0 MAXPATH;;
  ip <- (match path with
         | None => ret (-1)
         | Some path => create path T_DEVICE (i16 major) (i16 minor)
         end);;
  finish_create ip.

Definition sys_chdir : M kernel Z :=
  me <- kmyproc;;
  begin_op;;;
  path <- argstr 0 MAXPATH;;
  ip <- (match path with None => ret (-1) | Some path => namei path end);;
  if ip =? -1 then end_op;;; ret (-1)
  else
    ilock ip;;;
    x <- getinode ip;;
    if negb (i_type x =? T_DIR) then iunlockput ip;;; end_op;;; ret (-1)
    else
      iunlock ip;;;
      p <- kgetp me;;
      iput (cwd p);;;
      end_op;;;
      ksetp me (fun p => p {{ cwd := ip }});;;
      ret 0.

(** The argument strings of exec, each in a page of its own: the pages and
    strings fetched, and whether all went well. *)
Definition fetch_args (uargv : Z) : M kernel (list Z * list (list Z) * bool) :=
  loop (Datatypes.S (Z.to_nat MAXARG))
    (fun '(i, pages, argv) =>
       if i >=? MAXARG then break (pages, argv, false)
       else
         u <- fetchaddr (u64 (uargv + 8 * i));;
         match u with
         | None => break (pages, argv, false)
         | Some uarg =>
             if uarg =? 0 then break (pages, argv, true)
             else
               pa <- in_mem kalloc;;
               if pa =? 0 then break (pages, argv, false)
               else
                 s <- fetchstr uarg PGSIZE;;
                 match s with
                 | None => break (pages ++ [pa], argv, false)
                 | Some a =>
                     in_mem (modify (set_pmem (fun m => store_bytes m pa (a ++ [0]))));;;
                     continue (i + 1, pages ++ [pa], argv ++ [a])
                 end
         end) (0, [], []).

Fixpoint free_pages (pages : list Z) : M kernel unit :=
  match pages with
  | [] => ret tt
  | p :: r => in_mem (kfree p);;; free_pages r
  end.

Definition sys_exec : M kernel Z :=
  uargv <- argaddr 1;;
  path <- argstr 0 MAXPATH;;
  match path with
  | None => ret (-1)
  | Some path =>
      r <- fetch_args uargv;;
      let '(pages, argv, ok) := r in
      v <- (if ok : bool then exec path argv else ret (-1));;
      free_pages pages;;;
      ret v
  end.

Definition sys_pipe : M kernel Z :=
  me <- kmyproc;;
  fdarray <- argaddr 0;;
  o <- pipealloc;;
  match o with
  | None => ret (-1)
  | Some (rf, wf) =>
      let drop fd := ksetp me (fun p => p {{ ofile ::= seti fd (-1) }}) in
      let bad := fileclose rf;;; fileclose wf;;; ret (-1) in
      fd0 <- fdalloc rf;;
      if fd0 <? 0 then bad
      else
        fd1 <- fdalloc wf;;
        if fd1 <? 0 then drop fd0;;; bad
        else
          p <- kgetp me;;
          c <- in_mem (copyout (pagetable p) fdarray (int_bytes 4 fd0));;
          c <- (if c <? 0 then ret c
                else in_mem (copyout (pagetable p) (u64 (fdarray + 4)) (int_bytes 4 fd1)));;
          if c <? 0 then drop fd0;;; drop fd1;;; bad
          else ret 0
  end.

End Sysfile.
