(* ===== verification/Trap.v ===== *)
(** Traps (kernel/trap.c) and the system-call table (kernel/syscall.c).

    [trapinfo] is what a handler reads from the control registers and from the
    interrupt controller; [user_return] is what usertrapret() writes to the
    registers before it jumps to userret in trampoline.S.  The writes by which
    devintr() acknowledges an interrupt are the list [acks] that the handlers return. *)

From S2P Require Import Prelude Mem Riscv Locks Kalloc Vm Proc Sched Kernel Uart Printf Console Sleeplock Bio Log Fs FileTab Life Exec Syscall Sysfile.

Record trapinfo := Trap {
  sstatus : Z;
  scause : Z;
  sepc : Z;
  stval : Z;
  satp : Z;
  hart : Z;
  irq : Z;
  intr_enabled : bool;
  sip : Z;
}.

(** plic_complete(irq), and w_sip(v). *)
Inductive ack := PlicComplete (irq : Z) | WriteSip (v : Z).

Record user_return := UserReturn { ret_sstatus : Z; ret_sepc : Z; ret_satp : Z; ret_stvec : Z }.

Definition SSTATUS_SPP : Z := Z.shiftl 1 8.
Definition SSTATUS_SPIE : Z := Z.shiftl 1 5.

Section Trap.
Context `{Layout} `{Symbols} `{Fuel} `{DiskDriver}.

(** The table syscalls[]. *)
Definition syscalls (num : Z) : option (M kernel Z) :=
  match num with
  | 1 => Some sys_fork | 2 => Some sys_exit | 3 => Some sys_wait | 4 => Some sys_pipe
  | 5 => Some sys_read | 6 => Some sys_kill | 7 => Some sys_exec | 8 => Some sys_fstat
  | 9 => Some sys_chdir | 10 => Some sys_dup | 11 => Some sys_getpid | 12 => Some sys_sbrk
  | 13 => Some sys_sleep | 14 => Some sys_uptime | 15 => Some sys_open | 16 => Some sys_write
  | 17 => Some sys_mknod | 18 => Some sys_unlink | 19 => Some sys_link | 20 => Some sys_mkdir
  | 21 => Some sys_close | 22 => Some sys_waitx | 23 => Some sys_getreadcount
  | 24 => Some sys_set_priority
  | _ => None
  end.

Definition syscall : M kernel unit :=
  me <- kmyproc;;
  p <- kgetp me;;
  a7 <- in_proc (rd_tf (trapframe p) (TF_A 7));;
  let num := i32 a7 in
  match syscalls num with
  | Some f =>
      v <- f;;
      p <- kgetp me;;
      in_proc (wr_tf (trapframe p) (TF_A 0) (u64 v))
  | None =>
      printf (str "%d %s: unknown sys call %d" ++ [10]) [Num (pid p); Text (Some (cstr (name p))); Num num];;;
      in_proc (wr_tf (trapframe p) (TF_A 0) (u64 (-1)))
  end.

(** 2 for a timer interrupt, 1 for another device, 0 for neither; and the acknowledgements. *)
Definition devintr (t : trapinfo) : M kernel (Z * list ack) :=
  if has (scause t) (2 ^ 63) && (Z.land (scause t) 0xff =? 9) then
    (if irq t =? UART0_IRQ then uartintr
     else if irq t =? VIRTIO0_IRQ then virtio_disk_intr
     else when (negb (irq t =? 0))
            (printf (str "unexpected interrupt irq=%d" ++ [10]) [Num (irq t)]));;;
    ret (1, if irq t =? 0 then [] else [PlicComplete (irq t)])
  else if scause t =? 2 ^ 63 + 1 then
    when (hart t =? 0) (in_proc clockintr);;;
    ret (2, [WriteSip (Z.land (sip t) (Z.lnot 2))])
  else ret (0, []).

Definition usertrapret (t : trapinfo) : M kernel user_return :=
  me <- kmyproc;;
  p <- kgetp me;;
  in_proc (
    wr_tf (trapframe p) TF_KERNEL_SATP (satp t);;;
    wr_tf (trapframe p) TF_KERNEL_SP (u64 (kstack p + PGSIZE));;;
    wr_tf (trapframe p) TF_KERNEL_TRAP usertrap_addr;;;
    wr_tf (trapframe p) TF_KERNEL_HARTID (hart t));;;
  epc <- in_proc (rd_tf (trapframe p) TF_EPC);;
  ret (UserReturn
    (Z.lor (Z.land (sstatus t) (Z.lnot SSTATUS_SPP)) SSTATUS_SPIE)
    epc (MAKE_SATP (pagetable p)) (TRAMPOLINE + uservec_off)).

(** A store page fault (scause 15): copy on write. *)
Definition store_fault (me : Z) (addr : Z) : M kernel unit :=
  p <- kgetp me;;
  sp <- in_proc (rd_tf (trapframe p) TF_SP);;
  when ((addr >=? MAXVA) || ((addr <? sp) && (addr >=? u64 (sp - PGSIZE))))
    (ksetp me (fun p => p {{ p_killed := 1 }}));;;
  c <- in_mem (cowalloc (pagetable p) (PGROUNDDOWN addr));;
  when (c <? 0) (ksetp me (fun p => p {{ p_killed := 1 }})).

Definition usertrap (t : trapinfo) : M kernel (user_return * list ack) :=
  if has (sstatus t) SSTATUS_SPP then panic "usertrap: not from user mode"
  else
    me <- kmyproc;;
    p <- kgetp me;;
    in_proc (wr_tf (trapframe p) TF_EPC (sepc t));;;
    w <-
      (if scause t =? 8 then
         k <- in_proc (killed me);;
         when (negb (k =? 0)) (exit (-1));;;
         epc <- in_proc (rd_tf (trapframe p) TF_EPC);;
         in_proc (wr_tf (trapframe p) TF_EPC (u64 (epc + 4)));;;
         syscall;;;
         ret (0, [])
       else if scause t =? 15 then store_fault me (stval t);;; ret (0, [])
       else
         x <- devintr t;;
         let '(d, acks) := x in
         when (d =? 0) (
           printf (str "usertrap(): unexpected scause %p pid=%d" ++ [10]) [Num (scause t); Num (pid p)];;;
           printf (str "            sepc=%p stval=%p" ++ [10]) [Num (sepc t); Num (stval t)];;;
           in_proc (setkilled me));;;
         ret (d, acks));;
    let '(which_dev, acks) := w in
    k <- in_proc (killed me);;
    when (negb (k =? 0)) (exit (-1));;;
    when (which_dev =? 2) (in_proc yield);;;
    r <- usertrapret t;;
    ret (r, acks).

(** The registers sepc and sstatus are written back. *)
Definition kerneltrap (t : trapinfo) : M kernel (Z * Z * list ack) :=
  if negb (has (sstatus t) SSTATUS_SPP) then panic "kerneltrap: not from supervisor mode"
  else if intr_enabled t then panic "kerneltrap: interrupts enabled"
  else
    x <- devintr t;;
    let '(d, acks) := x in
    if d =? 0 then
      printf (str "scause %p" ++ [10]) [Num (scause t)];;;
      printf (str "sepc=%p stval=%p" ++ [10]) [Num (sepc t); Num (stval t)];;;
      panic "kerneltrap"
    else
      me <- kmyproc;;
      (if (d =? 2) && negb (me =? -1) then
         p <- kgetp me;;
         when (bool_decide (state p = RUNNING)) (in_proc yield)
       else ret tt);;;
      ret (sepc t, sstatus t, acks).

End Trap.
