(* ===== verification/Pthread.v ===== *)
(** POSIX threads as the two simulations of src/concurrency use them.

    A program is a set of threads that interleave at every access to shared
    memory.  Mutexes are free or held by one thread, semaphores are counters,
    and a condition variable is the set of the threads blocked on it: a wait
    releases the mutex and blocks, a broadcast unblocks every waiter, and a
    thread may also wake without one (POSIX allows it); a woken thread takes
    the mutex again before it goes on.  Functions return [None] when the
    thread cannot take its step.  Counting lemmas on lists of threads, which
    the semaphore arguments use, close the file. *)

From stdpp Require Import functions.
From S2P Require Import Prelude.

Section threads.
Context {T X C : Type} `{EqDecision T, EqDecision X, EqDecision C}.

(** Who holds each mutex. *)
Definition mutexes : Type := X -> option T.

Definition mutex_lock (t : T) (m : X) (held : mutexes) : option mutexes :=
  match held m with
  | None => Some (<[m := Some t]> held)
  | Some _ => None
  end.

Definition mutex_unlock (m : X) (held : mutexes) : mutexes := <[m := None]> held.

(** The threads blocked on condition variables. *)
Definition waiters : Type := list (T * C).

Definition blocked (t : T) (w : waiters) : bool := existsb (fun e => bool_decide (e.1 = t)) w.

Definition cond_enter (t : T) (c : C) (w : waiters) : waiters := (t, c) :: w.

Definition cond_broadcast (c : C) (w : waiters) : waiters := filter (fun e => e.2 <> c) w.

Definition cond_wake (t : T) (w : waiters) : waiters := filter (fun e => e.1 <> t) w.

(** What a step of [t] does to the mutexes, with the one it holds before and
    after (no place of the programs holds two). *)
Inductive lock_move (t : T) (h h' : mutexes) : option X -> option X -> Prop :=
| LockSame m : h' = h -> lock_move t h h' m m
| LockTake m : h m = None -> h' = <[m := Some t]> h -> lock_move t h h' None (Some m)
| LockDrop m : h' = <[m := None]> h -> lock_move t h h' (Some m) None.

(** [hold u] is the mutex that the code at [u]'s place relies on. *)
Definition mutex_sound (hold : T -> option X) (h : mutexes) : Prop :=
  forall u m, hold u = Some m -> h m = Some u.

Lemma mutex_sound_step hold hold' t h h' :
  mutex_sound hold h -> lock_move t h h' (hold t) (hold' t) ->
  (forall u, u <> t -> hold' u = hold u) -> mutex_sound hold' h'.
Proof.
  intros Hi Hm Ho u m Hu.
  destruct (decide (u = t)) as [->|Hne].
  - rewrite Hu in Hm. inversion Hm as [m' He Hh|m' Hn He Hh|]; subst.
    + by apply Hi.
    + apply fn_lookup_insert.
  - rewrite Ho in Hu by done. pose proof (Hi _ _ Hu) as Hk.
    inversion Hm as [m1 He|m1 Hn He|m1 He Hh]; subst; [done| |].
    + assert (m1 <> m) by congruence. by etransitivity; [apply fn_lookup_insert_ne|].
    + assert (m1 <> m) by (intros ->; rewrite (Hi t m) in Hk by done; congruence).
      by etransitivity; [apply fn_lookup_insert_ne|].
Qed.

(** Two threads in a critical section of one mutex are one thread. *)
Lemma mutex_sound_excl hold h u u' m :
  mutex_sound hold h -> hold u = Some m -> hold u' = Some m -> u = u'.
Proof. intros Hi Hu Hu'. apply Hi in Hu. apply Hi in Hu'. congruence. Qed.

End threads.
Arguments mutexes : clear implicits.
Arguments waiters : clear implicits.

(** A thread's place is untouched by another thread's step. *)
Lemma list_place {A B} (f : A -> option B) (l : list A) i y j :
  j <> i -> (c ← <[i := y]> l !! j; f c) = (c ← l !! j; f c).
Proof. intros Hne. by rewrite list_lookup_insert_ne. Qed.

(** A semaphore's sem_wait; sem_post adds one. *)
Definition sem_wait (v : Z) : option Z := if 0 <? v then Some (v - 1) else None.
Definition sem_post (v : Z) : Z := v + 1.

(** ** Sums over lists of threads *)

Section totals.
Context {A : Type}.
Implicit Types (f g : A -> Z) (l : list A).

Fixpoint total f l : Z :=
  match l with
  | [] => 0
  | x :: l => f x + total f l
  end.

Lemma total_app f l1 l2 : total f (l1 ++ l2) = total f l1 + total f l2.
Proof. induction l1 as [|x l1 IH]; simpl; lia. Qed.

Lemma total_insert f l i x y :
  l !! i = Some x -> total f (<[i := y]> l) = total f l - f x + f y.
Proof.
  revert i. induction l as [|z l IH]; intros [|i] Hi; simplify_eq/=; [lia|].
  rewrite (IH _ Hi). lia.
Qed.

Lemma total_nonneg f l : (forall x, 0 <= f x) -> 0 <= total f l.
Proof. intros Hf. induction l as [|x l IH]; simpl; [lia|]. specialize (Hf x). lia. Qed.

Lemma total_lookup_le f l i x :
  (forall x, 0 <= f x) -> l !! i = Some x -> f x <= total f l.
Proof.
  intros Hf. revert i. induction l as [|z l IH]; intros [|i] Hi; simplify_eq/=.
  - pose proof (total_nonneg f l Hf). lia.
  - specialize (IH _ Hi). pose proof (Hf z). lia.
Qed.

(** Two different places that each count one make the total at least two. *)
Lemma total_lookup2_le f l i j x y :
  (forall x, 0 <= f x) -> i <> j -> l !! i = Some x -> l !! j = Some y -> f x + f y <= total f l.
Proof.
  intros Hf. revert i j. induction l as [|z l IH]; intros [|i] [|j] Hij Hi Hj; simplify_eq/=.
  - pose proof (total_lookup_le f l j y Hf Hj). lia.
  - pose proof (total_lookup_le f l i x Hf Hi). lia.
  - pose proof (Hf z). assert (i <> j) as Hne by congruence. specialize (IH i j Hne Hi Hj). lia.
Qed.

Lemma total_plus f g l : total (fun x => f x + g x) l = total f l + total g l.
Proof. induction l as [|x l IH]; simpl; lia. Qed.

Lemma total_ext f g l : (forall x, x ∈ l -> f x = g x) -> total f l = total g l.
Proof.
  induction l as [|x l IH]; intros He; simpl; [done|].
  rewrite He, IH; [done| |]; set_solver.
Qed.

Lemma total_const0 l : total (fun _ => 0) l = 0.
Proof. induction l; simpl; lia. Qed.

Lemma total_zero f l : (forall i x, l !! i = Some x -> f x = 0) -> total f l = 0.
Proof.
  intros Hf. rewrite (total_ext _ (fun _ => 0)); [apply total_const0|].
  intros x [i Hi]%list_elem_of_lookup. by apply (Hf i).
Qed.

Lemma total_replicate f n x : total f (replicate n x) = Z.of_nat n * f x.
Proof. induction n as [|n IH]; simpl; [lia|]. rewrite IH. lia. Qed.

(** The total of a list of ones and zeros that is short of the length leaves a zero. *)
Lemma total_below f l :
  (forall x, x ∈ l -> f x = 0 \/ f x = 1) -> total f l < Z.of_nat (length l) ->
  exists i x, l !! i = Some x /\ f x = 0.
Proof.
  induction l as [|z l IH]; intros H01 Hlt; simpl in *; [lia|].
  destruct (H01 z ltac:(set_solver)) as [Hz|Hz].
  - by exists 0%nat, z.
  - destruct IH as (i & x & Hi & Hx); [set_solver|lia|]. by exists (S i), x.
Qed.

End totals.

(** Counting in either order. *)
Lemma total_swap {A B} (h : A -> B -> Z) (l : list A) (k : list B) :
  total (fun a => total (h a) k) l = total (fun b => total (fun a => h a b) l) k.
Proof.
  induction l as [|x l IH]; simpl; [by rewrite total_const0|]. by rewrite IH, <- total_plus.
Qed.

(** The total of a list whose [i]th element is [f i]. *)
Lemma total_lookup (l : list Z) (f : nat -> Z) n :
  (forall i v, l !! i = Some v -> v = f (n + i)%nat) -> total id l = total f (seq n (length l)).
Proof.
  revert n. induction l as [|x l IH]; intros n Hf; simpl; [done|].
  rewrite (IH (S n)); [|intros i v Hi; rewrite (Hf (S i) v Hi); f_equal; lia].
  unfold id. rewrite (Hf 0%nat x eq_refl). by rewrite Nat.add_0_r.
Qed.

Definition b2z (b : bool) : Z := if b then 1 else 0.

Lemma b2z_nonneg b : 0 <= b2z b.
Proof. destruct b; simpl; lia. Qed.

(** Among the indices below [n], one equals [i]. *)
Lemma total_indicator (n : nat) i :
  0 <= i < Z.of_nat n ->
  total (fun j : nat => b2z (Z.of_nat j =? i)) (seq 0 n) = 1.
Proof.
  intros Hi. set (k := Z.to_nat i). replace n with (k + S (n - k - 1))%nat by lia.
  rewrite seq_app, total_app. change (0 + k)%nat with k. rewrite <- cons_seq. cbn [total].
  assert (forall a b, (b <= k \/ k < a)%nat ->
    total (fun j : nat => b2z (Z.of_nat j =? i)) (seq a (b - a)) = 0) as H0.
  { intros a b Hab. rewrite (total_ext _ (fun _ => 0)); [apply total_const0|].
    intros j Hj. apply elem_of_seq in Hj. destruct (Z.eqb_spec (Z.of_nat j) i); simpl; lia. }
  pose proof (H0 0%nat k ltac:(lia)) as H1. pose proof (H0 (S k) n ltac:(lia)) as H2.
  replace (k - 0)%nat with k in H1 by lia. replace (n - S k)%nat with (n - k - 1)%nat in H2 by lia.
  rewrite H1, H2. destruct (Z.eqb_spec (Z.of_nat k) i); simpl; lia.
Qed.

(** ** Slots

    An array of zeros and ones whose slots threads take and free: the slot
    that is taken gains its new owner, the one that is freed loses it. *)

Lemma slot_take (l : list Z) sc i v :
  l !! sc = Some 0 -> l !! i = Some v -> v = 0 \/ v = 1 ->
  exists v', <[sc := 1]> l !! i = Some v' /\ (v' = 0 \/ v' = 1) /\
    v' = v - 0 + b2z (negb (Z.of_nat sc =? -1) && (Z.of_nat i =? Z.of_nat sc)).
Proof.
  intros Ht Hv H01. destruct (decide (i = sc)) as [->|Hne].
  - assert (v = 0) as -> by congruence. exists 1.
    rewrite list_lookup_insert_eq by (by eapply lookup_lt_Some).
    rewrite (proj2 (Z.eqb_neq _ _)), Z.eqb_refl by lia. by split_and!; [|right|].
  - exists v. rewrite list_lookup_insert_ne by congruence.
    rewrite (proj2 (Z.eqb_neq (Z.of_nat i) _)) by lia. rewrite andb_false_r. simpl.
    split_and!; [done|done|lia].
Qed.

Lemma slot_free (l : list Z) g i v :
  0 <= g -> l !! i = Some v -> v = 0 \/ v = 1 -> b2z (Z.of_nat i =? g) <= v ->
  exists v', <[Z.to_nat g := 0]> l !! i = Some v' /\ (v' = 0 \/ v' = 1) /\
    v' = v - b2z (Z.of_nat i =? g) + 0.
Proof.
  intros Hg Hv H01 Hle. destruct (Z.eqb_spec (Z.of_nat i) g) as [<-|Hne]; simpl in *.
  - exists 0. rewrite Nat2Z.id, list_lookup_insert_eq by (by eapply lookup_lt_Some).
    split_and!; [done|by left|lia].
  - exists v. rewrite list_lookup_insert_ne by lia. split_and!; [done|done|lia].
Qed.

(** Freeing a slot leaves the free ones free. *)
Lemma slot_stays_free (l : list Z) g i : l !! i = Some 0 -> <[g := 0]> l !! i = Some 0.
Proof.
  intros Hi. rewrite list_lookup_insert_Some. destruct (decide (g = i)) as [<-|]; [left|by right].
  split_and!; [done|done|by eapply lookup_lt_Some].
Qed.
