(* ===== verification/Cafe.v ===== *)
(** The cafe simulation (src/concurrency/1.c).

    One thread counts seconds; each customer has three threads, which print the
    arrival (arrival_printing), go through the order (customer_handler) and
    print that the customer's patience ran out (exited_printing); main joins
    the first two kinds and prints the summary.  A thread is at a place of its
    function, and a step runs the code from there to the next access to shared
    memory.  An increment is one step: its variable is written under one lock
    only.  [int] arithmetic is exact: the seconds, times and tolerances stay
    far from 2^31 (C leaves an overflow undefined). *)

From stdpp Require Import functions.
From S2P Require Import Prelude Pthread.

(** ** Data *)

Definition MAX_SIZE : nat := 100.

(** Map: the pairs of [data] below [size]. *)
Definition Map : Type := list (string * Z).

Definition initializeMap : Map := [].

Definition insert (key : string) (value : Z) (map : Map) : Map * bool :=
  if decide (length map < MAX_SIZE)%nat then (map ++ [(key, value)], true) else (map, false).

Fixpoint find (map : Map) (key : string) : Z :=
  match map with
  | [] => -1
  | (k, v) :: map => if decide (k = key) then v else find map key
  end.

Definition min (a b : Z) : Z := if a <? b then a else b.

Record customer := Customer { i_of : Z; cof : string; t_arr_i : Z; tol_i : Z }.

Inductive tid := Counter | Arrival (j : nat) | Th (j : nat) | Exited (j : nat) | Main.
#[export] Instance tid_eq : EqDecision tid.
Proof. solve_decision. Defined.

Inductive mtx := mutex | mutex2 | mutex_s | arrival_mutex.
#[export] Instance mtx_eq : EqDecision mtx.
Proof. solve_decision. Defined.

Inductive cnd := cond_sec | cond_swapn | cond_arrival.
#[export] Instance cnd_eq : EqDecision cnd.
Proof. solve_decision. Defined.

(** A printed line: its format and arguments. *)
Inductive msg :=
| Arrives (i t : Z)
| Orders (i : Z) (cof : string)
| Begins (barista i t : Z)
| Completes (barista i t : Z)
| LeavesWith (i t : Z)
| LeavesWithout (i t : Z)
| Wasted (n : Z)
| Average (total n : Z).

(** The global variables, and what was printed by whom. *)
Record shop := Shop {
  sec : Z;
  map : Map;
  spawned : Z;
  ind : Z;
  semaphore : Z;
  binary_sem : Z;
  barber : list Z;
  wasted_cofee : Z;
  waiting_time : Z;
  ex : list Z;
  arrival_spwaned : Z;
  held : mutexes tid mtx;
  waits : waiters tid cnd;
  out : list (tid * msg);
}.

(** ** Threads calls *)

Definition lock (t : tid) (m : mtx) (s : shop) : option shop :=
  h ← mutex_lock t m (held s); Some (s {{ held := h }}).

Definition unlock (m : mtx) (s : shop) : shop := s {{ held := mutex_unlock m (held s) }}.

(** pthread_cond_wait: release and block, then (once awake) take the mutex again. *)
Definition wait (t : tid) (c : cnd) (m : mtx) (s : shop) : shop :=
  (unlock m s) {{ waits := cond_enter t c (waits s) }}.

Definition rewake (t : tid) (m : mtx) (s : shop) : option shop :=
  if blocked t (waits s) then None else lock t m s.

Definition broadcast (c : cnd) (s : shop) : shop := s {{ waits := cond_broadcast c (waits s) }}.

Definition print (t : tid) (m : msg) (s : shop) : shop := s {{ out := out s ++ [(t, m)] }}.

(** The body of the loops that wait for a second: lock, wait for cond_sec, unlock. *)
Inductive nap := NapLock | NapWait | NapWoken | NapUnlock.

(** [None] as the next place is the end of the body. *)
Definition nap_step (t : tid) (p : nap) (s : shop) : option (shop * option nap) :=
  match p with
  | NapLock => s ← lock t mutex_s s; Some (s, Some NapWait)
  | NapWait => Some (wait t cond_sec mutex_s s, Some NapWoken)
  | NapWoken => s ← rewake t mutex_s s; Some (s, Some NapUnlock)
  | NapUnlock => Some (unlock mutex_s s, None)
  end.

(** ** customer_handler *)

Inductive cpc :=
| SpawnLock | SpawnTest | SpawnWoken | SpawnUnlock
| SemWait
| ArriveTest | ArriveNap (p : nap) | ArriveSet
| ScanLock | ScanRead | ScanTake | ScanUnlock
| StartTest | StartNap (p : nap)
| TimeLock | TimeAdd | TimeUnlock
| LeaveEx | LeaveSec
| Begin | Decide
| TakeLock | TakeSet | TakeUnlock
| MakeTest | MakeNap (p : nap) | MakeDone | MakeLeave
| OutLock | OutEx | OutSet | OutTest | OutWoken | OutPrint | OutUnlock
| StillTest | StillNap (p : nap) | WasteLock | WasteAdd | WasteUnlock | WasteDone
| BinWait | IncSpawned | IncInd | FreeBarber | BinPost | SemPost | Cast
| Returned | ReturnedEarly.

(** The place of a customer_handler and its local variables. *)
Record cust := Cust { cpc_of : cpc; arrival : Z; scan : nat; got : Z }.

Definition goto (p : cpc) (c : cust) : cust := c {{ cpc_of := p }}.

Section handlers.
Context (b : nat) (arr : list customer).

(** The end of the tolerance, [t_arr_i + tol_i]. *)
Definition patience (a : customer) : Z := t_arr_i a + tol_i a.

Definition customer_handler (j : nat) (s : shop) (c : cust) : option (shop * cust) :=
  let t := Th j in
  a ← arr !! j;
  let go p s := Some (s, goto p c) in
  match cpc_of c with
  | SpawnLock => s ← lock t mutex s; go SpawnTest s
  | SpawnTest =>
      if spawned s <=? Z.of_nat j then go SpawnWoken (wait t cond_swapn mutex s)
      else go SpawnUnlock s
  | SpawnWoken => s ← rewake t mutex s; go SpawnTest s
  | SpawnUnlock => go SemWait (unlock mutex s)
  | SemWait => v ← sem_wait (semaphore s); go ArriveTest (s {{ semaphore := v }})
  | ArriveTest => if sec s <? t_arr_i a then go (ArriveNap NapLock) s else go ArriveSet s
  | ArriveNap p =>
      r ← nap_step t p s; go (match r.2 with Some p => ArriveNap p | None => ArriveTest end) r.1
  | ArriveSet => Some (s, Cust ScanLock (sec s) 0 (-1))
  | ScanLock => s ← lock t mutex2 s; go ScanRead s
  | ScanRead => v ← barber s !! scan c; go (if v =? 0 then ScanTake else ScanUnlock) s
  | ScanTake =>
      Some (s {{ barber := <[scan c := 1]> (barber s) }},
            goto ScanUnlock c {{ got := Z.of_nat (scan c) }})
  | ScanUnlock =>
      Some (unlock mutex2 s,
            if got c =? -1 then goto ScanLock c {{ scan := ((scan c + 1) mod b)%nat }}
            else goto StartTest c)
  | StartTest => if sec s <? arrival c + 1 then go (StartNap NapLock) s else go TimeLock s
  | StartNap p =>
      r ← nap_step t p s; go (match r.2 with Some p => StartNap p | None => StartTest end) r.1
  | TimeLock => s ← lock t mutex2 s; go TimeAdd s
  | TimeAdd =>
      go TimeUnlock
        (s {{ waiting_time := waiting_time s + (min (sec s) (patience a) - t_arr_i a) }})
  | TimeUnlock => go LeaveEx (unlock mutex2 s)
  | LeaveEx => e ← ex s !! j; go (if e =? 1 then ReturnedEarly else LeaveSec) s
  | LeaveSec => if patience a + 1 =? sec s then go ReturnedEarly s else go Begin s
  | Begin => go Decide (print t (Begins (got c + 1) (i_of a) (sec s)) s)
  | Decide =>
      if arrival c + 1 + find (map s) (cof a) <=? patience a then go TakeLock s else go OutLock s
  | TakeLock => s ← lock t mutex_s s; go TakeSet s
  | TakeSet => go TakeUnlock (s {{ ex := <[j := 1]> (ex s) }})
  | TakeUnlock => go MakeTest (unlock mutex_s s)
  | MakeTest =>
      if sec s <? arrival c + 1 + find (map s) (cof a) then go (MakeNap NapLock) s
      else go MakeDone s
  | MakeNap p =>
      r ← nap_step t p s; go (match r.2 with Some p => MakeNap p | None => MakeTest end) r.1
  | MakeDone => go MakeLeave (print t (Completes (got c + 1) (i_of a) (sec s)) s)
  | MakeLeave => go BinWait (print t (LeavesWith (i_of a) (sec s)) s)
  | OutLock => s ← lock t mutex_s s; go OutEx s
  | OutEx => e ← ex s !! j; go (if e =? 0 then OutSet else OutUnlock) s
  | OutSet => go OutTest (s {{ ex := <[j := 1]> (ex s) }})
  | OutTest =>
      if sec s <? patience a + 1 then go OutWoken (wait t cond_sec mutex_s s) else go OutPrint s
  | OutWoken => s ← rewake t mutex_s s; go OutTest s
  | OutPrint => go OutUnlock (print t (LeavesWithout (i_of a) (sec s)) s)
  | OutUnlock => go StillTest (unlock mutex_s s)
  | StillTest =>
      if sec s <? arrival c + 1 + find (map s) (cof a) then go (StillNap NapLock) s
      else go WasteLock s
  | StillNap p =>
      r ← nap_step t p s; go (match r.2 with Some p => StillNap p | None => StillTest end) r.1
  | WasteLock => s ← lock t mutex s; go WasteAdd s
  | WasteAdd => go WasteUnlock (s {{ wasted_cofee := wasted_cofee s + 1 }})
  | WasteUnlock => go WasteDone (unlock mutex s)
  | WasteDone => go BinWait (print t (Completes (got c + 1) (i_of a) (sec s)) s)
  | BinWait => v ← sem_wait (binary_sem s); go IncSpawned (s {{ binary_sem := v }})
  | IncSpawned => go IncInd (s {{ spawned := spawned s + 1 }})
  | IncInd => go FreeBarber (s {{ ind := ind s + 1 }})
  | FreeBarber => go BinPost (s {{ barber := <[Z.to_nat (got c) := 0]> (barber s) }})
  | BinPost => go SemPost (s {{ binary_sem := sem_post (binary_sem s) }})
  | SemPost => go Cast (s {{ semaphore := sem_post (semaphore s) }})
  | Cast => go Returned (broadcast cond_swapn s)
  | Returned | ReturnedEarly => None
  end.

(** ** exited_printing *)

Inductive xpc :=
| XTest | XNap (p : nap) | XLock | XEx | XPrint | XSet | XUnlock | XReturned.

Definition exited_printing (j : nat) (s : shop) (p : xpc) : option (shop * xpc) :=
  let t := Exited j in
  a ← arr !! j;
  match p with
  | XTest => Some (s, if sec s <? patience a + 1 then XNap NapLock else XLock)
  | XNap p =>
      r ← nap_step t p s; Some (r.1, match r.2 with Some p => XNap p | None => XTest end)
  | XLock => s ← lock t mutex_s s; Some (s, XEx)
  | XEx => e ← ex s !! j; Some (s, if e =? 0 then XPrint else XUnlock)
  | XPrint => Some (print t (LeavesWithout (i_of a) (sec s)) s, XSet)
  | XSet => Some (s {{ ex := <[j := 1]> (ex s) }}, XUnlock)
  | XUnlock => Some (unlock mutex_s s, XReturned)
  | XReturned => None
  end.

(** ** arrival_printing *)

Inductive apc :=
| ALock | ATest | AWoken | AUnlock
| ASecTest | ASecNap (p : nap) | APrintArrives | APrintOrders
| AIncLock | AInc | AIncUnlock | ACast | AReturned.

Definition arrival_printing (j : nat) (s : shop) (p : apc) : option (shop * apc) :=
  let t := Arrival j in
  a ← arr !! j;
  match p with
  | ALock => s ← lock t arrival_mutex s; Some (s, ATest)
  | ATest =>
      if arrival_spwaned s <=? Z.of_nat j
      then Some (wait t cond_arrival arrival_mutex s, AWoken) else Some (s, AUnlock)
  | AWoken => s ← rewake t arrival_mutex s; Some (s, ATest)
  | AUnlock => Some (unlock arrival_mutex s, ASecTest)
  | ASecTest => Some (s, if sec s <? t_arr_i a then ASecNap NapLock else APrintArrives)
  | ASecNap p =>
      r ← nap_step t p s; Some (r.1, match r.2 with Some p => ASecNap p | None => ASecTest end)
  | APrintArrives => Some (print t (Arrives (i_of a) (t_arr_i a)) s, APrintOrders)
  | APrintOrders => Some (print t (Orders (i_of a) (cof a)) s, AIncLock)
  | AIncLock => s ← lock t arrival_mutex s; Some (s, AInc)
  | AInc => Some (s {{ arrival_spwaned := arrival_spwaned s + 1 }}, AIncUnlock)
  | AIncUnlock => Some (unlock arrival_mutex s, ACast)
  | ACast => Some (broadcast cond_arrival s, AReturned)
  | AReturned => None
  end.

End handlers.

(** ** counter and main *)

Inductive kpc := KTick | KSleep | KCast.

Definition counter (s : shop) (p : kpc) : shop * kpc :=
  match p with
  | KTick => (s {{ sec := sec s + 1 }}, KSleep)
  | KSleep => (s, KCast)
  | KCast => (broadcast cond_sec s, KTick)
  end.

Inductive mpc := MJoinTh (i : nat) | MJoinArrival (i : nat) | MWasted | MAverage | MExit.

(** The process: the globals and every thread. *)
Record cafe := Cafe {
  the_shop : shop;
  custs : list cust;
  exits : list xpc;
  arrs : list apc;
  counter_at : kpc;
  main_at : mpc;
}.

Definition th_done (c : cust) : bool :=
  match cpc_of c with Returned | ReturnedEarly => true | _ => false end.

(** main after it created the threads: the joins and the summary. *)
Definition main_joins (k : cafe) : option cafe :=
  let s := the_shop k in
  let n := length (custs k) in
  let go p := Some (k {{ main_at := p }}) in
  match main_at k with
  | MJoinTh i =>
      match custs k !! i with
      | None => go (MJoinArrival 0)
      | Some c => if th_done c then go (MJoinTh (S i)) else None
      end
  | MJoinArrival i =>
      match arrs k !! i with
      | None => go MWasted
      | Some AReturned => go (MJoinArrival (S i))
      | Some _ => None
      end
  | MWasted =>
      Some (k {{ main_at := MAverage }} {{ the_shop := print Main (Wasted (wasted_cofee s)) s }})
  | MAverage =>
      Some (k {{ main_at := MExit }}
              {{ the_shop := print Main (Average (waiting_time s) (Z.of_nat n)) s }})
  | MExit => None
  end.

(** One step of a thread; none after main returned. *)
Definition exec (b : nat) (arr : list customer) (t : tid) (k : cafe) : option cafe :=
  match main_at k with
  | MExit => None
  | _ =>
      match t with
      | Counter =>
          let '(s, p) := counter (the_shop k) (counter_at k) in
          Some (k {{ the_shop := s }} {{ counter_at := p }})
      | Th j =>
          c ← custs k !! j; r ← customer_handler b arr j (the_shop k) c;
          Some (k {{ the_shop := r.1 }} {{ custs := <[j := r.2]> (custs k) }})
      | Exited j =>
          p ← exits k !! j; r ← exited_printing arr j (the_shop k) p;
          Some (k {{ the_shop := r.1 }} {{ exits := <[j := r.2]> (exits k) }})
      | Arrival j =>
          p ← arrs k !! j; r ← arrival_printing arr j (the_shop k) p;
          Some (k {{ the_shop := r.1 }} {{ arrs := <[j := r.2]> (arrs k) }})
      | Main => main_joins k
      end
  end.

(** What main sets up: the menu inserted, [b] baristas, one thread of each kind
    per customer (a thread that is not created yet has not taken a step). *)
Definition initial (b : nat) (menu : list (string * Z)) (arr : list customer) : cafe :=
  let n := length arr in
  Cafe
    (Shop (-1) (fold_left (fun m e => (insert e.1 e.2 m).1) menu initializeMap)
       (Z.of_nat b) 0 (Z.of_nat b) 1 (replicate b 0) 0 0 (replicate n 0) 1
       (fun _ => None) [] [])
    (replicate n (Cust SpawnLock 0 0 (-1))) (replicate n XTest) (replicate n ALock)
    KTick (MJoinTh 0).

Inductive step (b : nat) (arr : list customer) (k : cafe) : cafe -> Prop :=
| StepThread t k' : exec b arr t k = Some k' -> step b arr k k'
| StepSpurious t :
    step b arr k (k {{ the_shop ::= fun s => s {{ waits := cond_wake t (waits s) }} }}).

Definition steps (b : nat) (arr : list customer) : cafe -> cafe -> Prop := rtc (step b arr).

(** A run of the threads in the order given. *)
Fixpoint run (b : nat) (arr : list customer) (ts : list tid) (k : cafe) : option cafe :=
  match ts with
  | [] => Some k
  | t :: ts => k ← exec b arr t k; run b arr ts k
  end.

Lemma run_steps b arr ts k k' : run b arr ts k = Some k' -> steps b arr k k'.
Proof.
  revert k. induction ts as [|t ts IH]; intros k Hr; simplify_eq/=; [constructor|].
  apply bind_Some in Hr as (k1 & He & Hr). apply (rtc_l _ _ k1); [by apply (StepThread _ _ _ t)|by apply IH].
Qed.
