(* ===== verification/CafeFacts.v ===== *)
(** Invariants of the cafe simulation: every place of a thread that needs a
    mutex has it; the semaphore counts the customers inside, and the array
    [barber] counts, barista by barista, the customers that took it. *)

From stdpp Require Import functions.
From S2P Require Import Prelude Pthread Cafe.

Arguments sem_wait : simpl never.

(** [step_cases] splits a handler's step into the places it can start from and
    the outcomes of its tests. *)
Ltac step_cases :=
  repeat (match goal with
    | H : mbind _ _ = Some _ |- _ => apply bind_Some in H as (? & ? & ?)
    | H : (if ?d then _ else _) = Some _ |- _ => destruct d eqn:?
    | H : match ?d with _ => _ end = Some _ |- _ => destruct d eqn:?
    | H : Some _ = Some _ |- _ => injection H; clear H; intros; subst
    | H : None = Some _ |- _ => discriminate H
    | H : context [let _ := _ in _] |- _ => progress cbv zeta in H
    end; simpl in *).

(** ** Symbolic execution of a handler's step *)

Lemma lock_eq t m s s' :
  lock t m s = Some s' -> held s m = None /\ s' = s {{ held := <[m := Some t]> (held s) }}.
Proof.
  unfold lock, mutex_lock. destruct (held s m) eqn:Hh; simpl; intros He; simplify_eq/=. done.
Qed.

Lemma rewake_eq t m s s' :
  rewake t m s = Some s' -> held s m = None /\ s' = s {{ held := <[m := Some t]> (held s) }}.
Proof. unfold rewake. destruct (blocked _ _); [done|apply lock_eq]. Qed.

Ltac locks :=
  repeat match goal with
  | H : lock _ _ _ = Some _ |- _ => apply lock_eq in H as [? ->]
  | H : rewake _ _ _ = Some _ |- _ => apply rewake_eq in H as [? ->]
  end.

Ltac naps :=
  repeat match goal with
  | H : nap_step _ _ _ = Some ?r |- _ => is_var r; destruct r as [? [?|]]; simpl in *
  end.

(** Waiting for a second changes the mutexes and the waiters only. *)
Lemma nap_frame t p s s' r :
  nap_step t p s = Some (s', r) -> exists h w, s' = s {{ held := h }} {{ waits := w }}.
Proof.
  intros He. destruct p; simpl in He; step_cases; locks;
    (destruct s; unfold wait, unlock; simpl; by do 2 eexists).
Qed.

Ltac frames :=
  repeat match goal with
  | H : nap_step _ _ _ = _ |- _ => apply nap_frame in H as (? & ? & ?); simpl in *; subst
  end.

Section cafe.
Context (b : nat) (arr : list customer).

(** ** The steps of the process *)

(** A step is one handler's step, or a spurious wakeup. *)
Inductive move (k : cafe) : cafe -> Prop :=
| MoveTh j c s c' :
    custs k !! j = Some c -> customer_handler b arr j (the_shop k) c = Some (s, c') ->
    move k (k {{ the_shop := s }} {{ custs := <[j := c']> (custs k) }})
| MoveExited j p s p' :
    exits k !! j = Some p -> exited_printing arr j (the_shop k) p = Some (s, p') ->
    move k (k {{ the_shop := s }} {{ exits := <[j := p']> (exits k) }})
| MoveArrival j p s p' :
    arrs k !! j = Some p -> arrival_printing arr j (the_shop k) p = Some (s, p') ->
    move k (k {{ the_shop := s }} {{ arrs := <[j := p']> (arrs k) }})
| MoveCounter s p :
    counter (the_shop k) (counter_at k) = (s, p) ->
    move k (k {{ the_shop := s }} {{ counter_at := p }})
| MoveMain k' : main_joins k = Some k' -> move k k'
| MoveWake t :
    move k (k {{ the_shop ::= fun s => s {{ waits := cond_wake t (waits s) }} }}).

Lemma step_move k k' : step b arr k k' -> move k k'.
Proof.
  intros [t k1 He|t]; [|apply MoveWake]. unfold exec in He.
  destruct (main_at k) eqn:Hm; [| | | |done]; destruct t; step_cases;
    try (by eapply MoveMain);
    try match goal with H : _ = Some ?r |- _ => is_var r; destruct r end;
    first [by eapply MoveTh|by eapply MoveExited|by eapply MoveArrival|by eapply MoveCounter].
Qed.

(** What holds initially and is kept by every move holds in every reachable state. *)
Lemma steps_ind (P : cafe -> Prop) k k' :
  P k -> (forall k1 k2, P k1 -> move k1 k2 -> P k2) -> steps b arr k k' -> P k'.
Proof. intros H0 Hs Hr. induction Hr as [|k k1 k2 H1 _ IH]; [done|]. eauto using step_move. Qed.

(** ** Mutexes *)

(** The mutex a thread holds at a place; no place holds two. *)
Definition nap_holds (p : nap) : option mtx :=
  match p with NapWait | NapUnlock => Some mutex_s | _ => None end.

Definition cpc_holds (p : cpc) : option mtx :=
  match p with
  | SpawnTest | SpawnUnlock | WasteAdd | WasteUnlock => Some mutex
  | ScanRead | ScanTake | ScanUnlock | TimeAdd | TimeUnlock => Some mutex2
  | TakeSet | TakeUnlock | OutEx | OutSet | OutTest | OutPrint | OutUnlock => Some mutex_s
  | ArriveNap p | StartNap p | MakeNap p | StillNap p => nap_holds p
  | _ => None
  end.

Definition xpc_holds (p : xpc) : option mtx :=
  match p with
  | XEx | XPrint | XSet | XUnlock => Some mutex_s
  | XNap p => nap_holds p
  | _ => None
  end.

Definition apc_holds (p : apc) : option mtx :=
  match p with
  | ATest | AUnlock | AInc | AIncUnlock => Some arrival_mutex
  | ASecNap p => nap_holds p
  | _ => None
  end.

Definition holds (k : cafe) (t : tid) : option mtx :=
  match t with
  | Th j => c ← custs k !! j; cpc_holds (cpc_of c)
  | Exited j => p ← exits k !! j; xpc_holds p
  | Arrival j => p ← arrs k !! j; apc_holds p
  | Counter | Main => None
  end.

#[local] Hint Constructors lock_move : core.

Lemma nap_locks t p s s' r :
  nap_step t p s = Some (s', r) ->
  lock_move t (held s) (held s') (nap_holds p) (match r with Some p => nap_holds p | None => None end).
Proof. intros He. destruct p; simpl in He; step_cases; locks; simpl; eauto. Qed.

Lemma customer_locks j s c s' c' :
  customer_handler b arr j s c = Some (s', c') ->
  lock_move (Th j) (held s) (held s') (cpc_holds (cpc_of c)) (cpc_holds (cpc_of c')).
Proof.
  intros He. destruct c as [p ar sc gt]. unfold customer_handler in He. simpl in He.
  step_cases; locks; naps; simpl; eauto;
    try (match goal with H : nap_step _ _ _ = _ |- _ => apply nap_locks in H; done end);
    repeat case_match; eauto.
Qed.

Lemma exited_locks j s p s' p' :
  exited_printing arr j s p = Some (s', p') ->
  lock_move (Exited j) (held s) (held s') (xpc_holds p) (xpc_holds p').
Proof.
  intros He. unfold exited_printing, arrival_printing in He.
  destruct p; step_cases; locks; naps; simpl; repeat case_match; eauto;
    try match goal with H : nap_step _ _ _ = _ |- _ => apply nap_locks in H; done end.
Qed.

Lemma arrival_locks j s p s' p' :
  arrival_printing arr j s p = Some (s', p') ->
  lock_move (Arrival j) (held s) (held s') (apc_holds p) (apc_holds p').
Proof.
  intros He. unfold exited_printing, arrival_printing in He.
  destruct p; step_cases; locks; naps; simpl; repeat case_match; eauto;
    try match goal with H : nap_step _ _ _ = _ |- _ => apply nap_locks in H; done end.
Qed.

Definition mutex_inv (k : cafe) : Prop := mutex_sound (holds k) (held (the_shop k)).

Lemma move_mutex_inv k k' : mutex_inv k -> move k k' -> mutex_inv k'.
Proof.
  intros Hi Hm. destruct Hm as [j c s c' Hc He|j p s p' Hp He|j p s p' Hp He|s p He|k' He|t].
  - apply (mutex_sound_step (holds k) _ (Th j) (held (the_shop k))); [done| |].
    + simpl. rewrite Hc, list_lookup_insert_eq by (by eapply lookup_lt_Some).
      by apply customer_locks in He.
    + intros [] Hne; simpl; try done. apply list_place. congruence.
  - apply (mutex_sound_step (holds k) _ (Exited j) (held (the_shop k))); [done| |].
    + simpl. rewrite Hp, list_lookup_insert_eq by (by eapply lookup_lt_Some).
      by apply exited_locks in He.
    + intros [] Hne; simpl; try done. apply list_place. congruence.
  - apply (mutex_sound_step (holds k) _ (Arrival j) (held (the_shop k))); [done| |].
    + simpl. rewrite Hp, list_lookup_insert_eq by (by eapply lookup_lt_Some).
      by apply arrival_locks in He.
    + intros [] Hne; simpl; try done. apply list_place. congruence.
  - apply (mutex_sound_step (holds k) _ Counter (held (the_shop k))); [done| |by intros []].
    constructor. unfold counter in He. destruct (counter_at k); by simplify_eq/=.
  - apply (mutex_sound_step (holds k) _ Main (held (the_shop k))); [done| |];
      unfold main_joins in He; step_cases; try (by intros []); by constructor.
  - apply (mutex_sound_step (holds k) _ Main (held (the_shop k))); [done|by constructor|by intros []].
Qed.

(** ** Baristas *)

(** Past sem_wait(&semaphore), and not past its sem_post. *)
Definition in_cafe (c : cust) : bool :=
  match cpc_of c with
  | SpawnLock | SpawnTest | SpawnWoken | SpawnUnlock | SemWait | Cast | Returned => false
  | _ => true
  end.

(** The customer has taken the barista [got] and not freed it. *)
Definition served (c : cust) : bool :=
  match cpc_of c with
  | SpawnLock | SpawnTest | SpawnWoken | SpawnUnlock | SemWait
  | ArriveTest | ArriveNap _ | ArriveSet | ScanLock | ScanRead | ScanTake
  | BinPost | SemPost | Cast | Returned => false
  | ScanUnlock => negb (got c =? -1)
  | _ => true
  end.

Definition scanning (c : cust) : bool :=
  match cpc_of c with
  | ScanLock | ScanRead | ScanTake => true
  | ScanUnlock => got c =? -1
  | _ => false
  end.

Definition serves (i : nat) (c : cust) : bool := served c && (Z.of_nat i =? got c).

(** The local part of the invariant. *)
Record cust_ok (bs : list Z) (c : cust) : Prop := {
  ok_got : served c = true -> 0 <= got c < Z.of_nat b;
  ok_scan : scanning c = true -> got c = -1 /\ (scan c < b)%nat;
  ok_take : cpc_of c = ScanTake -> bs !! scan c = Some 0;
}.

Record barista_inv (k : cafe) : Prop := {
  inv_mutex : mutex_inv k;
  inv_sem : semaphore (the_shop k) + total (fun c => b2z (in_cafe c)) (custs k) = Z.of_nat b;
  inv_sem0 : 0 <= semaphore (the_shop k);
  inv_len : length (barber (the_shop k)) = b;
  inv_barber : forall i v, barber (the_shop k) !! i = Some v ->
    (v = 0 \/ v = 1) /\ v = total (fun c => b2z (serves i c)) (custs k);
  inv_cust : forall j c, custs k !! j = Some c -> cust_ok (barber (the_shop k)) c;
}.

Lemma customer_sem j s c s' c' :
  customer_handler b arr j s c = Some (s', c') -> 0 <= semaphore s ->
  semaphore s' + b2z (in_cafe c') = semaphore s + b2z (in_cafe c) /\ 0 <= semaphore s'.
Proof.
  intros He H0. destruct s, c. unfold customer_handler in He. simpl in He.
  unfold sem_wait, sem_post in *.
  step_cases; locks; naps; frames; unfold in_cafe; simpl; repeat case_match; simplify_eq/=; lia.
Qed.

Lemma customer_len j s c s' c' :
  customer_handler b arr j s c = Some (s', c') -> length (barber s') = length (barber s).
Proof.
  intros He. destruct s, c. unfold customer_handler in He. simpl in He.
  step_cases; locks; naps; frames; simpl; rewrite ?length_insert; done.
Qed.

(** What a customer's step does to one barista. *)
Lemma customer_barber j s c s' c' i v :
  customer_handler b arr j s c = Some (s', c') -> cust_ok (barber s) c ->
  barber s !! i = Some v -> (v = 0 \/ v = 1) -> b2z (serves i c) <= v ->
  exists v', barber s' !! i = Some v' /\ (v' = 0 \/ v' = 1) /\
    v' = v - b2z (serves i c) + b2z (serves i c').
Proof.
  intros He [Hg Hs Ht] Hv H01 Hle. destruct s, c. unfold customer_handler in He. simpl in He.
  unfold serves, served, scanning in *. simpl in *.
  step_cases; locks; naps; frames; simpl in *; repeat case_match; simplify_eq/=.
  all: try (exists v; split_and!; [done|done|lia]).
  - destruct (Hs eq_refl) as [-> _]. exists v. split_and!; [done|done|simpl; lia].
  - by apply slot_take; [apply Ht|..].
  - apply slot_free; try done. by apply Hg.
Qed.

(** ... to its own local state, ... *)
Lemma customer_ok j s c s' c' :
  customer_handler b arr j s c = Some (s', c') -> cust_ok (barber s) c ->
  length (barber s) = b -> (scanning c' = true -> (0 < b)%nat) -> cust_ok (barber s') c'.
Proof.
  intros He [Hg Hs Ht] Hl Hb. destruct s, c. unfold customer_handler in He. simpl in He.
  unfold served, scanning in *. simpl in *.
  step_cases; locks; naps; frames; simpl in *;
    repeat match goal with
    | H : context [if ?d then _ else _] |- _ => destruct d eqn:?
    | |- context [if ?d then _ else _] => destruct d eqn:?
    end; simplify_eq/=.
  all: split; unfold served, scanning; simpl; try done; try (intros _; by apply Hs); try (intros _; by apply Hg).
  - intros _. auto.
  - intros _. match goal with E : (_ =? 0) = true |- _ => apply Z.eqb_eq in E end. by subst.
  - destruct (Hs eq_refl) as [-> _]. done.
  - intros _. specialize (Ht eq_refl). apply lookup_lt_Some in Ht. lia.
  - intros He. apply Z.eqb_eq in He. lia.
  - intros _. split; [by apply Hs|]. apply Nat.mod_upper_bound. lia.
Qed.

(** ... and to the slots another customer is about to take. *)
Lemma customer_keeps_free j s c s' c' i :
  customer_handler b arr j s c = Some (s', c') -> cpc_of c <> ScanTake ->
  barber s !! i = Some 0 -> barber s' !! i = Some 0.
Proof.
  intros He Hn Hi. destruct s, c. unfold customer_handler in He. simpl in *.
  step_cases; locks; naps; frames; simpl in *; try done.
  by apply slot_stays_free.
Qed.

Lemma exited_frame j s p s' p' :
  exited_printing arr j s p = Some (s', p') ->
  semaphore s' = semaphore s /\ barber s' = barber s /\ map s' = map s /\
  arrival_spwaned s' = arrival_spwaned s.
Proof.
  intros He. destruct s. unfold exited_printing in He.
  destruct p; step_cases; locks; naps; frames; done.
Qed.

Lemma arrival_frame j s p s' p' :
  arrival_printing arr j s p = Some (s', p') ->
  semaphore s' = semaphore s /\ barber s' = barber s /\ map s' = map s /\ ex s' = ex s.
Proof.
  intros He. destruct s. unfold arrival_printing in He.
  destruct p; step_cases; locks; naps; frames; done.
Qed.

Lemma counter_frame s p s' p' :
  counter s p = (s', p') ->
  semaphore s' = semaphore s /\ barber s' = barber s /\ map s' = map s /\
  ex s' = ex s /\ arrival_spwaned s' = arrival_spwaned s /\ out s' = out s.
Proof. intros He. unfold counter in He. destruct p; by simplify_eq/=. Qed.

Lemma main_frame k k' :
  main_joins k = Some k' ->
  exists lines, the_shop k' = (the_shop k) {{ out := out (the_shop k) ++ lines }} /\
    custs k' = custs k /\ exits k' = exits k /\ arrs k' = arrs k /\
    forall l, l ∈ lines -> l.1 = Main.
Proof.
  intros He. destruct k as [[] cs xs ars ka ma]. unfold main_joins in He. simpl in *.
  step_cases;
    first [exists []; rewrite app_nil_r; split_and!; [done..|]; by intros ? ?%elem_of_nil
          |eexists [_]; split_and!; [reflexivity..|];
           intros l Hl; apply list_elem_of_singleton in Hl; by subst].
Qed.

Lemma barista_inv_frame k k' :
  barista_inv k -> mutex_inv k' -> semaphore (the_shop k') = semaphore (the_shop k) ->
  barber (the_shop k') = barber (the_shop k) -> custs k' = custs k -> barista_inv k'.
Proof.
  intros [_ H1 H2 H3 H4 H5] Hm Hs Hb Hc. split; rewrite ?Hs, ?Hb, ?Hc; done.
Qed.

(** A customer before the end of its step has the semaphore's permission. *)
Lemma in_cafe_pos v cs j c :
  v + total (fun c => b2z (in_cafe c)) cs = Z.of_nat b -> 0 <= v ->
  cs !! j = Some c -> in_cafe c = true -> (0 < b)%nat.
Proof.
  intros Hv H0 Hc Hin.
  pose proof (total_lookup_le (fun c => b2z (in_cafe c)) cs j c
    (fun c => b2z_nonneg _) Hc) as Ht. simpl in Ht. rewrite Hin in Ht. simpl in Ht. lia.
Qed.

Lemma scanning_in_cafe c : scanning c = true -> in_cafe c = true.
Proof. unfold scanning, in_cafe. by destruct (cpc_of c). Qed.

Lemma move_barista_inv k k' : barista_inv k -> move k k' -> barista_inv k'.
Proof.
  intros Hi Hm. pose proof (move_mutex_inv k k' (inv_mutex k Hi) Hm) as Hmx.
  destruct Hm as [j c s c' Hc He|j p s p' Hp He|j p s p' Hp He|s p He|k' He|t].
  - pose proof (inv_cust k Hi j c Hc) as Hok.
    pose proof (customer_sem _ _ _ _ _ He (inv_sem0 k Hi)) as [Hs Hs0].
    assert (semaphore s + total (fun c => b2z (in_cafe c)) (<[j := c']> (custs k)) = Z.of_nat b)
      as Hsem by (rewrite (total_insert _ _ _ c c' Hc); pose proof (inv_sem k Hi); lia).
    split; [done| | | | |]; simpl.
    + done.
    + done.
    + by rewrite (customer_len _ _ _ _ _ He), (inv_len k Hi).
    + intros i v' Hv'.
      assert (is_Some (barber (the_shop k) !! i)) as [v Hv].
      { apply lookup_lt_is_Some. rewrite <- (customer_len _ _ _ _ _ He). by eapply lookup_lt_Some. }
      destruct (inv_barber k Hi i v Hv) as [H01 Ht].
      destruct (customer_barber _ _ _ _ _ _ _ He Hok Hv H01) as (v1 & Hv1 & H1 & Ht1).
      { rewrite Ht. by apply (total_lookup_le (fun c => b2z (serves i c)) _ j);
          [intros; apply b2z_nonneg|]. }
      simplify_eq. split; [done|]. rewrite (total_insert _ _ _ c c' Hc). lia.
    + intros j2 c2 Hc2. destruct (decide (j2 = j)) as [->|Hne].
      * rewrite list_lookup_insert_eq in Hc2 by (by eapply lookup_lt_Some). simplify_eq.
        eapply customer_ok; [done|done|by apply inv_len|].
        intros Hsc. eapply in_cafe_pos; [done|done| |by apply scanning_in_cafe].
        apply list_lookup_insert_eq. by eapply lookup_lt_Some.
      * rewrite list_lookup_insert_ne in Hc2 by done.
        destruct (inv_cust k Hi j2 c2 Hc2) as [Hg2 Hs2 Ht2]. split; [done|done|].
        intros Hp2. eapply customer_keeps_free; [done| |by apply Ht2].
        intros Hp. pose proof (inv_mutex k Hi (Th j) mutex2) as M1.
        pose proof (inv_mutex k Hi (Th j2) mutex2) as M2. simpl in M1, M2.
        rewrite Hc in M1. rewrite Hc2 in M2. simpl in M1, M2. rewrite Hp in M1. rewrite Hp2 in M2.
        specialize (M1 eq_refl). specialize (M2 eq_refl). congruence.
  - apply exited_frame in He as (Hs & Hb & _). by apply (barista_inv_frame k).
  - apply arrival_frame in He as (Hs & Hb & _). by apply (barista_inv_frame k).
  - apply counter_frame in He as (Hs & Hb & _). by apply (barista_inv_frame k).
  - apply main_frame in He as (l & Hs & Hcs & _).
    apply (barista_inv_frame k); [done..| | |done]; by rewrite Hs.
  - by apply (barista_inv_frame k).
Qed.

Lemma initial_mutex_inv menu : mutex_inv (initial b menu arr).
Proof.
  intros t m Ht. exfalso. destruct t as [|j|j|j|]; simpl in Ht; try done.
  all: by apply bind_Some in Ht as (x & [-> _]%lookup_replicate_1 & Ht).
Qed.

Lemma initial_barista_inv menu : barista_inv (initial b menu arr).
Proof.
  split; simpl.
  - apply initial_mutex_inv.
  - rewrite total_replicate. simpl. lia.
  - lia.
  - apply length_replicate.
  - intros i v [-> _]%lookup_replicate_1. split; [by left|].
    rewrite total_replicate. simpl. lia.
  - intros j c [-> _]%lookup_replicate_1. by split.
Qed.

Lemma steps_barista_inv menu k : steps b arr (initial b menu arr) k -> barista_inv k.
Proof. apply steps_ind; [apply initial_barista_inv|apply move_barista_inv]. Qed.

(** Two customers that each have a barista have different ones. *)
Lemma barista_of_one k j j' c c' :
  barista_inv k -> custs k !! j = Some c -> custs k !! j' = Some c' -> j <> j' ->
  served c = true -> served c' = true -> got c <> got c'.
Proof.
  intros Hi Hc Hc' Hne Hs Hs' Hg.
  pose proof (ok_got _ _ (inv_cust k Hi j c Hc) Hs) as Hr.
  destruct (lookup_lt_is_Some_2 (barber (the_shop k)) (Z.to_nat (got c))) as [v Hv].
  { rewrite (inv_len k Hi). lia. }
  destruct (inv_barber k Hi _ _ Hv) as [H01 Ht].
  pose proof (total_lookup2_le (fun d => b2z (serves (Z.to_nat (got c)) d)) (custs k) j j' c c'
    (fun d => b2z_nonneg _) Hne Hc Hc') as H2. simpl in H2.
  unfold serves in H2 at 1 2. rewrite Hs, Hs', <- Hg, Z2Nat.id, Z.eqb_refl in H2 by lia.
  simpl in H2. lia.
Qed.

(** The baristas in use are those of the customers that hold one. *)
Lemma baristas_used k :
  barista_inv k -> total id (barber (the_shop k)) = total (fun c => b2z (served c)) (custs k).
Proof.
  intros Hi.
  rewrite (total_lookup _ (fun i => total (fun c => b2z (serves i c)) (custs k)) 0);
    [|intros i v Hv; by apply inv_barber].
  rewrite (inv_len k Hi), total_swap. apply total_ext. intros c [j Hc]%list_elem_of_lookup.
  unfold serves. destruct (served c) eqn:Hs; simpl; [|apply total_const0].
  apply total_indicator. by apply (ok_got _ _ (inv_cust k Hi j c Hc)).
Qed.

(** While a customer looks for a barista, one is free. *)
Lemma barista_free k j c :
  barista_inv k -> custs k !! j = Some c -> scanning c = true ->
  exists i, barber (the_shop k) !! i = Some 0.
Proof.
  intros Hi Hc Hsc.
  assert (total (fun c => b2z (served c)) (custs k) + 1 <=
    total (fun c => b2z (in_cafe c)) (custs k)) as Hlt.
  { assert (forall l, total (fun c => b2z (in_cafe c)) l = total (fun c => b2z (served c)) l +
      total (fun c => b2z (in_cafe c) - b2z (served c)) l) as Hsum.
    { intros l. rewrite <- total_plus. apply total_ext. intros; lia. }
    rewrite Hsum. apply Zplus_le_compat_l.
    assert (1 = b2z (in_cafe c) - b2z (served c)) as ->.
    { unfold scanning, in_cafe, served in *. destruct (cpc_of c); try done. by rewrite Hsc. }
    apply (total_lookup_le (fun c => b2z (in_cafe c) - b2z (served c)) _ j); [|done].
    intros d. unfold in_cafe, served. destruct (cpc_of d); simpl; try lia. by destruct (_ =? _). }
  rewrite <- baristas_used in Hlt by done.
  destruct (total_below id (barber (the_shop k))) as (i & x & Hx & Hz).
  - intros x [i Hx]%list_elem_of_lookup. by apply (inv_barber k Hi i).
  - rewrite (inv_len k Hi). pose proof (inv_sem k Hi). pose proof (inv_sem0 k Hi). lia.
  - exists i. by rewrite <- Hz.
Qed.

(** ** Threads and joins *)

Definition lengths (k : cafe) : Prop :=
  length (custs k) = length arr /\ length (exits k) = length arr /\ length (arrs k) = length arr.

Lemma steps_lengths menu k : steps b arr (initial b menu arr) k -> lengths k.
Proof.
  apply (steps_ind lengths).
  - unfold lengths. simpl. by rewrite !length_replicate.
  - intros k1 k2 Hl Hm. unfold lengths in *.
    destruct Hm as [| | | |k2 He|]; simpl; rewrite ?length_insert; try done.
    by apply main_frame in He as (? & _ & -> & -> & -> & _).
Qed.

(** A thread that returned takes no step. *)
Lemma done_no_step j s c : th_done c = true -> customer_handler b arr j s c = None.
Proof.
  unfold th_done, customer_handler. intros Hd. destruct (arr !! j); simpl; [|done].
  by destruct (cpc_of c).
Qed.

(** main is past the joins of threads that returned. *)
Definition main_inv (k : cafe) : Prop :=
  forall j c, custs k !! j = Some c ->
    match main_at k with MJoinTh i => (j < i)%nat | _ => True end -> th_done c = true.

Lemma move_main_inv k k' : main_inv k -> move k k' -> main_inv k'.
Proof.
  intros Hi Hm. destruct Hm as [j c s c' Hc He| | | |k' He|]; try done.
  - intros j2 c2 Hc2 Hlt. simpl in *. destruct (decide (j2 = j)) as [->|Hne].
    + rewrite (done_no_step _ _ c) in He by (by eapply Hi). done.
    + rewrite list_lookup_insert_ne in Hc2 by done. by apply (Hi j2).
  - destruct k as [sh cs xs ars ka ma]. unfold main_joins in He. unfold main_inv in *. simpl in *.
    destruct ma as [i|i| | |].
    + destruct (cs !! i) as [ci|] eqn:Hi'; [destruct (th_done ci) eqn:Hd|]; simplify_eq/=;
        intros j2 c2 Hc2 Hlt.
      * destruct (decide (j2 = i)) as [->|Hne]; [by simplify_eq|]. apply (Hi j2 c2 Hc2). lia.
      * apply (Hi j2 c2 Hc2). apply lookup_lt_Some in Hc2. apply lookup_ge_None in Hi'. lia.
    + destruct (ars !! i) as [[]|]; simplify_eq/=; eauto.
    + simplify_eq/=. eauto.
    + simplify_eq/=. eauto.
    + done.
Qed.

Lemma steps_main_inv menu k : steps b arr (initial b menu arr) k -> main_inv k.
Proof. apply steps_ind; [|apply move_main_inv]. intros j c Hc Hlt. simpl in Hlt. lia. Qed.

End cafe.
