(* ===== verification/CafeProps.v ===== *)
(** Properties of the cafe simulation: which barista serves whom, the search for a
    barista, what the early return costs, and what is printed: a customer is
    reported to leave without the order at most once, although two threads may
    report it, and the arrivals come in the order of the input. *)

From stdpp Require Import functions.
From S2P Require Import Prelude Pthread Cafe CafeFacts.

(** ** The search for a barista *)

Definition run_th (b : nat) (arr : list customer) (j n : nat) : cafe -> option cafe :=
  run b arr (replicate n (Th j)).

Definition put_th (j : nat) (s : shop) (c : cust) (k : cafe) : cafe :=
  k {{ the_shop := s }} {{ custs := <[j := c]> (custs k) }}.

Lemma run_th_step b arr j n k c s c' :
  main_at k <> MExit -> custs k !! j = Some c ->
  customer_handler b arr j (the_shop k) c = Some (s, c') ->
  run_th b arr j (S n) k = run_th b arr j n (put_th j s c' k).
Proof.
  intros Hm Hc He. unfold run_th. simpl. unfold exec. rewrite Hc. simpl. rewrite He.
  by destruct (main_at k).
Qed.

Lemma put_th_lookup j s c c' k : custs k !! j = Some c -> custs (put_th j s c' k) !! j = Some c'.
Proof. intros Hc. apply list_lookup_insert_eq. by eapply lookup_lt_Some. Qed.

Section scan.
Context (b : nat) (arr : list customer) (j : nat) (a : customer) (Ha : arr !! j = Some a).

(** The next step of the thread's run: the handler's equation is computed from
    the facts about the state. *)
Ltac at_th := first [eassumption|eapply put_th_lookup; at_th].
Tactic Notation "th_step" tactic(tac) :=
  erewrite run_th_step;
    [|done|at_th
     |unfold customer_handler, lock, mutex_lock; simpl; rewrite Ha; simpl; tac; reflexivity].

(** A slot in use: three steps to the next one. *)
Lemma scan_miss k ar sc v :
  main_at k <> MExit -> custs k !! j = Some (Cust ScanLock ar sc (-1)) ->
  held (the_shop k) mutex2 = None -> barber (the_shop k) !! sc = Some v -> v <> 0 ->
  exists k', (forall n, run_th b arr j (3 + n) k = run_th b arr j n k') /\
    main_at k' = main_at k /\ barber (the_shop k') = barber (the_shop k) /\
    held (the_shop k') mutex2 = None /\
    custs k' !! j = Some (Cust ScanLock ar ((sc + 1) mod b)%nat (-1)).
Proof.
  intros Hm Hc Hh Hv Hn. destruct k as [[] cs xs ars ka ma]. simpl in *.
  eexists. split.
  - intros n. cbn [Nat.add]. th_step (rewrite Hh; simpl).
    th_step (rewrite Hv; simpl; rewrite (proj2 (Z.eqb_neq _ _) Hn)). th_step idtac. done.
  - split_and!; [done|done|apply fn_lookup_insert|at_th].
Qed.

(** A free slot: four steps to leave with it. *)
Lemma scan_hit k ar sc :
  main_at k <> MExit -> custs k !! j = Some (Cust ScanLock ar sc (-1)) ->
  held (the_shop k) mutex2 = None -> barber (the_shop k) !! sc = Some 0 ->
  exists k', run_th b arr j 4 k = Some k' /\
    custs k' !! j = Some (Cust StartTest ar sc (Z.of_nat sc)).
Proof.
  intros Hm Hc Hh Hv. destruct k as [[] cs xs ars ka ma]. simpl in *. eexists. split.
  - th_step (rewrite Hh; simpl). th_step (rewrite Hv; simpl). th_step idtac.
    th_step (rewrite (proj2 (Z.eqb_neq _ _)) by lia). done.
  - at_th.
Qed.

(** From slot [sc], with a free slot [d] places further on. *)
Lemma scan_run d k ar sc :
  main_at k <> MExit -> custs k !! j = Some (Cust ScanLock ar sc (-1)) -> (sc < b)%nat ->
  length (barber (the_shop k)) = b -> held (the_shop k) mutex2 = None ->
  barber (the_shop k) !! ((sc + d) mod b)%nat = Some 0 ->
  exists n k' i, (n <= 3 * d + 4)%nat /\ run_th b arr j n k = Some k' /\
    custs k' !! j = Some (Cust StartTest ar i (Z.of_nat i)) /\ (i < b)%nat.
Proof.
  revert k sc. induction d as [|d IH]; intros k sc Hm Hc Hs Hl Hh Hf.
  all: destruct (lookup_lt_is_Some_2 (barber (the_shop k)) sc) as [v Hv]; [lia|].
  all: destruct (decide (v = 0)) as [->|Hn];
    [destruct (scan_hit k ar sc) as (k' & Hr & Hc'); [done..|]; exists 4%nat, k', sc;
     split_and!; [lia|done|done|done]|].
  - rewrite Nat.add_0_r, Nat.mod_small in Hf by done. congruence.
  - destruct (scan_miss k ar sc v) as (k1 & Hr & Hm1 & Hb1 & Hh1 & Hc1); [done..|].
    destruct (IH k1 ((sc + 1) mod b)%nat) as (n & k' & i & Hle & Hr' & Hc' & Hi).
    + by rewrite Hm1.
    + done.
    + apply Nat.mod_upper_bound. lia.
    + by rewrite Hb1.
    + done.
    + rewrite Hb1, Nat.Div0.add_mod_idemp_l. by replace (sc + 1 + d)%nat with (sc + S d)%nat by lia.
    + exists (3 + n)%nat, k', i. rewrite Hr. split_and!; [lia|done|done|done].
Qed.
End scan.

(** ** Theorems about the baristas *)

(** C34: No barista serves two customers: whenever two different customers each
    hold a barista (they are between taking a slot of [barber] and freeing it,
    or left early), the baristas are different and are among the [b]. *)
Theorem baristas_exclusive b menu arr k j j' c c' :
  steps b arr (initial b menu arr) k ->
  custs k !! j = Some c -> custs k !! j' = Some c' -> j <> j' ->
  served c = true -> served c' = true ->
  got c <> got c' /\ 0 <= got c < Z.of_nat b.
Proof.
  intros Hr Hc Hc' Hne Hs Hs'. pose proof (steps_barista_inv b arr menu k Hr) as Hi. split.
  - by apply (barista_of_one b k j j').
  - by apply (ok_got _ _ _ (inv_cust b k Hi j c Hc)).
Qed.

(** C35: A customer that looks for a barista finds one: in any reachable state
    with mutex2 free, the loop over [barber] that customer [j] is about to
    start ends within 3b + 1 steps of its thread, with a barista taken. *)
Theorem scan_takes_barista b menu arr k j c :
  steps b arr (initial b menu arr) k ->
  custs k !! j = Some c -> cpc_of c = ScanLock -> held (the_shop k) mutex2 = None ->
  exists n k' c', (n <= 3 * b + 1)%nat /\ run b arr (replicate n (Th j)) k = Some k' /\
    custs k' !! j = Some c' /\ cpc_of c' = StartTest /\ 0 <= got c' < Z.of_nat b.
Proof.
  intros Hr Hc Hp Hh. pose proof (steps_barista_inv b arr menu k Hr) as Hi.
  assert (scanning c = true) as Hsc by (unfold scanning; by rewrite Hp).
  destruct (ok_scan _ _ _ (inv_cust b k Hi j c Hc) Hsc) as [Hg Hlt].
  destruct (barista_free b k j c Hi Hc Hsc) as [i Hf].
  pose proof (lookup_lt_Some _ _ _ Hf) as Hib. rewrite (inv_len b k Hi) in Hib.
  destruct (lookup_lt_is_Some_2 arr j) as [a Ha].
  { destruct (steps_lengths b arr menu k Hr) as [<- _]. by eapply lookup_lt_Some. }
  set (d := ((i + (b - scan c)) mod b)%nat).
  assert (d < b)%nat as Hd by (apply Nat.mod_upper_bound; lia).
  destruct c as [p ar sc gt]. simpl in *. subst.
  destruct (scan_run b arr j a Ha d k ar sc) as (n & k' & m & Hn & Hrun & Hc' & Hm); try done.
  - intros Hm. pose proof (steps_main_inv b arr menu k Hr j _ Hc) as Hd'. rewrite Hm in Hd'.
    by specialize (Hd' I).
  - apply (inv_len b k Hi).
  - unfold d. rewrite Nat.Div0.add_mod_idemp_r.
    replace (sc + (i + (b - sc)))%nat with (i + 1 * b)%nat by lia.
    by rewrite Nat.Div0.mod_add, Nat.mod_small.
  - exists n, k', (Cust StartTest ar m (Z.of_nat m)). split_and!; [lia|done..|simpl; lia|simpl; lia].
Qed.

(** ** Lost baristas *)

Definition early (c : cust) : bool :=
  match cpc_of c with ReturnedEarly => true | _ => false end.

(** Not yet past sem_wait(&semaphore). *)
Definition waiting (c : cust) : bool :=
  match cpc_of c with
  | SpawnLock | SpawnTest | SpawnWoken | SpawnUnlock | SemWait => true
  | _ => false
  end.

Definition lost (k : cafe) : Z := total (fun c => b2z (early c)) (custs k).

Lemma lost_le_in_cafe cs : total (fun c => b2z (early c)) cs <= total (fun c => b2z (in_cafe c)) cs.
Proof.
  induction cs as [|c cs IH]; simpl; [lia|]. unfold early, in_cafe in *.
  destruct (cpc_of c); simpl; lia.
Qed.

(** With no permission left, a waiting customer's step leaves it waiting. *)
Lemma waiting_step b arr j s c s' c' :
  customer_handler b arr j s c = Some (s', c') -> semaphore s = 0 ->
  waiting c = true -> waiting c' = true.
Proof.
  intros He H0 Hw. unfold customer_handler in He. destruct (arr !! j); simpl in He; [|done].
  unfold waiting in *. destruct (cpc_of c) eqn:Hp; try done; step_cases; try done.
  unfold sem_wait in *. rewrite H0 in *. done.
Qed.

Lemma early_step b arr j s c s' c' :
  customer_handler b arr j s c = Some (s', c') -> early c = false.
Proof.
  intros He. destruct (early c) eqn:Hc; [|done]. rewrite done_no_step in He; [done|].
  unfold early, th_done in *. by destruct (cpc_of c).
Qed.

Record blocked_inv (b j : nat) (k : cafe) : Prop := {
  bl_inv : barista_inv b k;
  bl_lost : Z.of_nat b <= lost k;
  bl_wait : exists c, custs k !! j = Some c /\ waiting c = true;
}.

Lemma blocked_sem b j k : blocked_inv b j k -> semaphore (the_shop k) = 0.
Proof.
  intros [Hi Hl _]. pose proof (inv_sem b k Hi). pose proof (inv_sem0 b k Hi).
  pose proof (lost_le_in_cafe (custs k)). unfold lost in Hl. lia.
Qed.

Lemma move_blocked b arr j k k' : blocked_inv b j k -> move b arr k k' -> blocked_inv b j k'.
Proof.
  intros Hb Hm. pose proof (blocked_sem b j k Hb) as H0. destruct Hb as [Hi Hl (c & Hc & Hw)].
  split; [by eapply move_barista_inv| |].
  - unfold lost in *. destruct Hm as [i d s d' Hd He| | | |k' He|]; try done; simpl.
    + rewrite (total_insert _ _ _ d d' Hd), (early_step _ _ _ _ _ _ _ He). simpl.
      pose proof (b2z_nonneg (early d')). lia.
    + apply main_frame in He as (? & _ & -> & _). done.
  - destruct Hm as [i d s d' Hd He| | | |k' He|]; simpl; try by exists c.
    + destruct (decide (i = j)) as [->|Hne].
      * exists d'. simplify_eq. rewrite list_lookup_insert_eq by (by eapply lookup_lt_Some).
        split; [done|]. by eapply waiting_step.
      * exists c. by rewrite list_lookup_insert_ne.
    + exists c. apply main_frame in He as (? & _ & -> & _). done.
Qed.

(** C36: Once every barista's customer returned early (a customer whose
    patience ended before its order began returns without freeing its barista
    and without sem_post), the cafe is stuck: no customer that waits for the
    semaphore ever gets past it, and main stays in the joins of the customers,
    so that the summary is never printed. *)
Theorem lost_baristas_block b menu arr k k' j c :
  steps b arr (initial b menu arr) k -> lost k = Z.of_nat b ->
  custs k !! j = Some c -> waiting c = true -> steps b arr k k' ->
  (exists c', custs k' !! j = Some c' /\ waiting c' = true) /\
  (exists i, main_at k' = MJoinTh i /\ (i <= j)%nat).
Proof.
  intros Hr Hl Hc Hw Hr'.
  assert (blocked_inv b j k') as Hb.
  { apply (steps_ind b arr (blocked_inv b j) k); [|by intros; eapply move_blocked|done].
    split; [by eapply steps_barista_inv|lia|by exists c]. }
  split; [apply Hb|]. destruct (bl_wait b j k' Hb) as (c' & Hc' & Hw').
  assert (th_done c' = false) as Hd by (unfold waiting, th_done in *; by destruct (cpc_of c')).
  pose proof (steps_main_inv b arr menu k' ltac:(by etransitivity) j c' Hc') as Hm.
  destruct (main_at k') as [i|i| | |]; [|by specialize (Hm I); congruence..].
  exists i. split; [done|]. destruct (decide (j < i)%nat) as [Hlt|]; [|lia].
  specialize (Hm Hlt). congruence.
Qed.

(** ** Runs of a small cafe *)

Definition menu : list (string * Z) := [("Espresso", 3); ("Cappuccino", 10)].

(** The state after a run (the start when the run is not one). *)
Definition after (b : nat) (arr : list customer) (ts : list tid) : cafe :=
  default (initial b menu arr) (run b arr ts (initial b menu arr)).

Lemma after_steps b arr ts : steps b arr (initial b menu arr) (after b arr ts).
Proof.
  unfold after. destruct (run _ _ _ _) eqn:Hr; simpl; [by eapply run_steps|constructor].
Qed.

(** Two baristas and two customers, who each have one at second 0. *)
Definition two : list customer := [Customer 1 "Cappuccino" 0 15; Customer 2 "Espresso" 0 6].
Definition busy : cafe :=
  after 2 two (Counter :: replicate 10 (Th 0) ++ replicate 13 (Th 1)).
Definition looking : cafe := after 2 two (Counter :: replicate 10 (Th 0) ++ replicate 6 (Th 1)).

Definition cust_at (k : cafe) (j : nat) : cust := default (Cust Returned 0 0 0) (custs k !! j).

Lemma baristas_exclusive_witness : got (cust_at busy 0) <> got (cust_at busy 1) /\ 0 <= got (cust_at busy 0) < 2.
Proof.
  apply (baristas_exclusive 2 menu two busy 0 1); [apply after_steps|vm_compute; reflexivity..|lia| |];
    vm_compute; reflexivity.
Defined.

Lemma scan_takes_barista_witness :
  exists n k' c', (n <= 3 * 2 + 1)%nat /\ run 2 two (replicate n (Th 1)) looking = Some k' /\
    custs k' !! 1%nat = Some c' /\ cpc_of c' = StartTest /\ 0 <= got c' < Z.of_nat 2.
Proof.
  apply (scan_takes_barista 2 menu two looking 1 (cust_at looking 1));
    [apply after_steps|vm_compute; reflexivity..].
Defined.

(** One barista; the first customer's patience ends at second 1. *)
Definition hasty : list customer := [Customer 1 "Espresso" 0 0; Customer 2 "Espresso" 0 9].
Definition stuck : cafe :=
  after 1 hasty (Counter :: replicate 10 (Th 0) ++ [Counter; Counter; Counter] ++ replicate 6 (Th 0)).

Lemma lost_baristas_block_witness :
  (exists c', custs stuck !! 1%nat = Some c' /\ waiting c' = true) /\
  (exists i, main_at stuck = MJoinTh i /\ (i <= 1)%nat).
Proof.
  apply (lost_baristas_block 1 menu hasty stuck stuck 1 (cust_at stuck 1));
    [apply after_steps|vm_compute; reflexivity..|constructor].
Defined.

(** ** Leaving without the order *)

(** The lines that say customer [j] leaves without the order. *)
Definition leaves_line (j : nat) (l : tid * msg) : bool :=
  match l with
  | (Th i, LeavesWithout _ _) | (Exited i, LeavesWithout _ _) => bool_decide (i = j)
  | _ => false
  end.

Definition leaves (j : nat) (o : list (tid * msg)) : Z := total (fun l => b2z (leaves_line j l)) o.

(** customer_handler has decided to print the line and has not yet. *)
Definition pending (p : cpc) : bool :=
  match p with OutTest | OutWoken | OutPrint => true | _ => false end.

(** The protocol on [ex[j]]: [e] is its value, [n] the lines printed. *)
Record leave_inv (e n : Z) (p : cpc) (x : xpc) : Prop := {
  lv_e : e = 0 \/ e = 1;
  lv_once : 0 <= n /\ n + b2z (pending p) <= 1;
  lv_set : p = OutSet -> e = 0;
  lv_pending : pending p = true -> e = 1;
  lv_print : x = XPrint \/ x = XSet -> e = 0;
  lv_none : e = 0 -> x <> XSet -> n = 0;
}.

Section lines.
Context (b : nat) (arr : list customer).

Lemma leaves_app j o o' : leaves j (o ++ o') = leaves j o + leaves j o'.
Proof. apply total_app. Qed.

Lemma leaves_one j t m :
  t = Th j \/ t = Exited j ->
  leaves j [(t, m)] = match m with LeavesWithout _ _ => 1 | _ => 0 end.
Proof.
  unfold leaves. intros [-> | ->]; destruct m; simpl; rewrite ?bool_decide_true by done; done.
Qed.

Ltac leave_case e :=
  exists e; split;
    [first [done|apply list_lookup_insert_eq; by eapply lookup_lt_Some]
    |split; simpl in *; naive_solver lia].

(** A step of customer [j]'s own handler. *)
Lemma customer_leave j s c s' c' x e :
  customer_handler b arr j s c = Some (s', c') -> ex s !! j = Some e ->
  (cpc_holds (cpc_of c) = Some mutex_s -> xpc_holds x <> Some mutex_s) ->
  leave_inv e (leaves j (out s)) (cpc_of c) x ->
  exists e', ex s' !! j = Some e' /\ leave_inv e' (leaves j (out s')) (cpc_of c') x.
Proof.
  intros He Hj Hx [H1 H2 H3 H4 H5 H6]. destruct s, c. unfold customer_handler in He. simpl in *.
  step_cases; locks; naps; frames; simpl in *;
    rewrite ?leaves_app, ?(leaves_one j (Th j)) by (by left); simpl;
    repeat match goal with |- context [if ?d then _ else _] => destruct d eqn:? end;
    try leave_case e.
  all: assert (x <> XPrint /\ x <> XSet) as [Hx1 Hx2] by (specialize (Hx eq_refl); by destruct x).
  all: try leave_case 1.
Qed.

(** A step of customer [j]'s exited_printing. *)
Lemma exited_leave j s x s' x' p e :
  exited_printing arr j s x = Some (s', x') -> ex s !! j = Some e ->
  (xpc_holds x = Some mutex_s -> cpc_holds p <> Some mutex_s) ->
  leave_inv e (leaves j (out s)) p x ->
  exists e', ex s' !! j = Some e' /\ leave_inv e' (leaves j (out s')) p x'.
Proof.
  intros He Hj Hx [H1 H2 H3 H4 H5 H6]. destruct s. unfold exited_printing in He. simpl in *.
  destruct x; step_cases; locks; naps; frames; simpl in *;
    rewrite ?leaves_app, ?(leaves_one j (Exited j)) by (by right); simpl;
    repeat match goal with |- context [if ?d then _ else _] => destruct d eqn:? end;
    try leave_case e.
  all: assert (p <> OutSet) as Hx1 by (intros ->; by specialize (Hx eq_refl)).
  all: try leave_case 1.
  (* the line is printed with the flag still down *)
  rewrite (H5 (or_introl eq_refl)) in *. rewrite (H6 eq_refl) by done.
  assert (pending p = false) as Hp by (destruct (pending p); [by specialize (H4 eq_refl)|done]).
  exists 0. split; [done|]. split; rewrite ?Hp; simpl; naive_solver lia.
Qed.

(** The other threads' steps. *)
Lemma customer_other j i s c s' c' :
  customer_handler b arr i s c = Some (s', c') -> i <> j ->
  ex s' !! j = ex s !! j /\ leaves j (out s') = leaves j (out s).
Proof.
  intros He Hne. destruct s, c. unfold customer_handler in He. simpl in *.
  step_cases; locks; naps; frames; simpl in *;
    rewrite ?list_lookup_insert_ne by done; rewrite ?leaves_app; split; try done;
    unfold leaves; simpl; rewrite ?bool_decide_false by congruence; simpl; lia.
Qed.

Lemma exited_other j i s x s' x' :
  exited_printing arr i s x = Some (s', x') -> i <> j ->
  ex s' !! j = ex s !! j /\ leaves j (out s') = leaves j (out s).
Proof.
  intros He Hne. destruct s. unfold exited_printing in He. simpl in *.
  destruct x; step_cases; locks; naps; frames; simpl in *;
    rewrite ?list_lookup_insert_ne by done; rewrite ?leaves_app; split; try done;
    unfold leaves; simpl; rewrite ?bool_decide_false by congruence; simpl; lia.
Qed.

Lemma arrival_other j i s p s' p' :
  arrival_printing arr i s p = Some (s', p') ->
  ex s' !! j = ex s !! j /\ leaves j (out s') = leaves j (out s).
Proof.
  intros He. destruct s. unfold arrival_printing in He. simpl in *.
  destruct p; step_cases; locks; naps; frames; simpl in *; rewrite ?leaves_app; split; try done;
    unfold leaves; simpl; lia.
Qed.

Record line_inv (j : nat) (k : cafe) : Prop := {
  ln_mutex : mutex_inv k;
  ln_leave : exists e c x, ex (the_shop k) !! j = Some e /\ custs k !! j = Some c /\
    exits k !! j = Some x /\ leave_inv e (leaves j (out (the_shop k))) (cpc_of c) x;
}.

Lemma line_inv_frame j k k' :
  line_inv j k -> mutex_inv k' -> custs k' !! j = custs k !! j -> exits k' !! j = exits k !! j ->
  ex (the_shop k') !! j = ex (the_shop k) !! j ->
  leaves j (out (the_shop k')) = leaves j (out (the_shop k)) -> line_inv j k'.
Proof. intros [_ Hl] Hm Hc Hx He Ho. split; [done|]. by rewrite Hc, Hx, He, Ho. Qed.

(** customer_handler and exited_printing of one customer are not both in a
    critical section of mutex_s. *)
Lemma mutex_s_excl k j c x :
  mutex_inv k -> custs k !! j = Some c -> exits k !! j = Some x ->
  cpc_holds (cpc_of c) = Some mutex_s -> xpc_holds x <> Some mutex_s.
Proof.
  intros Hm Hc Hx Hpc Hpx. pose proof (Hm (Th j) mutex_s) as M1.
  pose proof (Hm (Exited j) mutex_s) as M2. simpl in *. rewrite Hc in M1. rewrite Hx in M2.
  specialize (M1 Hpc). specialize (M2 Hpx). congruence.
Qed.

Lemma move_line_inv j k k' : line_inv j k -> move b arr k k' -> line_inv j k'.
Proof.
  intros Hi Hm. pose proof (move_mutex_inv b arr k k' (ln_mutex j k Hi) Hm) as Hmx.
  destruct Hm as [i d s d' Hd He|i p s p' Hp He|i p s p' Hp He|s p He|k' He|t].
  - destruct (decide (i = j)) as [->|Hne].
    + destruct (ln_leave j k Hi) as (e & c & x & H1 & H2 & H3 & H4). simplify_eq. split; [done|].
      destruct (customer_leave j _ _ _ _ x e He H1) as (e' & He' & Hl); [|done|].
      { apply (mutex_s_excl k j d x); [apply (ln_mutex j k Hi)|done|done]. }
      exists e', d', x. split_and!; [done| |done|done].
      apply list_lookup_insert_eq. by eapply lookup_lt_Some.
    + destruct (customer_other j _ _ _ _ _ He Hne). apply (line_inv_frame j k); try done.
      by apply list_lookup_insert_ne.
  - destruct (decide (i = j)) as [->|Hne].
    + destruct (ln_leave j k Hi) as (e & c & x & H1 & H2 & H3 & H4). simplify_eq. split; [done|].
      destruct (exited_leave j _ _ _ _ (cpc_of c) e He H1) as (e' & He' & Hl); [|done|].
      { intros Hx Hc. by apply (mutex_s_excl k j c p (ln_mutex j k Hi)). }
      exists e', c, p'. split_and!; [done|done| |done].
      apply list_lookup_insert_eq. by eapply lookup_lt_Some.
    + destruct (exited_other j _ _ _ _ _ He Hne). apply (line_inv_frame j k); try done.
      by apply list_lookup_insert_ne.
  - destruct (arrival_other j _ _ _ _ _ He). by apply (line_inv_frame j k).
  - apply counter_frame in He as (_ & _ & _ & He & _ & Ho).
    apply (line_inv_frame j k); simpl; rewrite ?He, ?Ho; done.
  - apply main_frame in He as (l & Hs & Hc & Hx & _ & Hl).
    apply (line_inv_frame j k); rewrite ?Hc, ?Hx; try done; rewrite Hs; [done|].
    simpl. rewrite leaves_app. assert (leaves j l = 0) as ->; [|lia].
    unfold leaves. rewrite (total_ext _ (fun _ => 0)); [apply total_const0|].
    intros [t m] Ht. apply Hl in Ht. simpl in Ht. by subst.
  - by apply (line_inv_frame j k).
Qed.

Lemma initial_line_inv menu j : (j < length arr)%nat -> line_inv j (initial b menu arr).
Proof.
  intros Hj. split; [apply initial_mutex_inv|].
  exists 0, (Cust SpawnLock 0 0 (-1)), XTest. simpl. rewrite !lookup_replicate_2 by done.
  split_and!; try done. split; unfold leaves; simpl; try done; lia.
Qed.

End lines.

(** A customer is reported to leave without the order at most once, though
    both customer_handler and exited_printing may report it: the flag [ex]
    lets one of the two through. *)
Theorem leaves_without_once b menu arr k j :
  steps b arr (initial b menu arr) k -> (j < length arr)%nat -> leaves j (out (the_shop k)) <= 1.
Proof.
  intros Hr Hj. assert (line_inv j k) as [_ (e & c & x & _ & _ & _ & Hl)].
  { eapply (steps_ind b arr (line_inv j)); [by apply initial_line_inv| |done].
    intros. by eapply move_line_inv. }
  pose proof (lv_once _ _ _ _ Hl). pose proof (b2z_nonneg (pending (cpc_of c))). lia.
Qed.

(** Customer 1 runs out of patience at second 1, and its printing thread says so. *)
Definition told : cafe := after 1 hasty ([Counter; Counter; Counter; Counter] ++ replicate 6 (Exited 0)).

Lemma leaves_without_once_witness :
  leaves 0 (out (the_shop told)) = 1 /\ leaves 0 (out (the_shop told)) <= 1.
Proof.
  split; [vm_compute; reflexivity|].
  apply (leaves_without_once 1 menu hasty told 0); [apply after_steps|simpl; lia].
Defined.

(** ** Arrivals *)

(** The arrival lines, and those of the first customers. *)
Definition arrival_line (l : tid * msg) : option (Z * Z) :=
  match l.2 with Arrives i t => Some (i, t) | _ => None end.

Definition arrivals (o : list (tid * msg)) : list (Z * Z) := omap arrival_line o.

Definition announced (a : customer) : Z * Z := (i_of a, t_arr_i a).

(** Past the test of arrival_spwaned, and past its increment. *)
Definition gated (p : apc) : bool :=
  match p with
  | AUnlock | ASecTest | ASecNap _ | APrintArrives | APrintOrders | AIncLock | AInc => true
  | _ => false
  end.

Definition counted (p : apc) : bool :=
  match p with AIncUnlock | ACast | AReturned => true | _ => false end.

Definition printed (p : apc) : bool :=
  match p with APrintOrders | AIncLock | AInc => true | _ => false end.

Record turn_inv (arr : list customer) (k : cafe) : Prop := {
  tn_len : length (arrs k) = length arr;
  tn_turn : forall j p, arrs k !! j = Some p ->
    (gated p = true -> Z.of_nat j < arrival_spwaned (the_shop k)) /\
    (counted p = true <-> Z.of_nat j < arrival_spwaned (the_shop k) - 1);
  tn_lines : exists m, arrivals (out (the_shop k)) = take m (announced <$> arr) /\
    Z.of_nat m = arrival_spwaned (the_shop k) - 1 + total (fun p => b2z (printed p)) (arrs k);
}.

Section arrivals.
Context (b : nat) (arr : list customer).

Lemma arrivals_app o o' : arrivals (o ++ o') = arrivals o ++ arrivals o'.
Proof. apply omap_app. Qed.

Lemma customer_arrivals j s c s' c' :
  customer_handler b arr j s c = Some (s', c') ->
  arrival_spwaned s' = arrival_spwaned s /\ arrivals (out s') = arrivals (out s).
Proof.
  intros He. destruct s, c. unfold customer_handler in He. simpl in *.
  step_cases; locks; naps; frames; simpl in *;
    rewrite ?arrivals_app; simpl; rewrite ?app_nil_r; done.
Qed.

Lemma exited_arrivals j s p s' p' :
  exited_printing arr j s p = Some (s', p') ->
  arrival_spwaned s' = arrival_spwaned s /\ arrivals (out s') = arrivals (out s).
Proof.
  intros He. destruct s. unfold exited_printing in He. simpl in *.
  destruct p; step_cases; locks; naps; frames; simpl in *;
    rewrite ?arrivals_app; simpl; rewrite ?app_nil_r; done.
Qed.

(** A step of an arrival thread either leaves count, lines and its standing
    alone, or it passes the gate, prints, or counts itself. *)
Inductive turn (j : nat) (s s' : shop) (p p' : apc) : Prop :=
| TurnStay : arrival_spwaned s' = arrival_spwaned s -> arrivals (out s') = arrivals (out s) ->
    gated p' = gated p -> counted p' = counted p -> printed p' = printed p -> turn j s s' p p'
| TurnPass : arrival_spwaned s' = arrival_spwaned s -> arrivals (out s') = arrivals (out s) ->
    Z.of_nat j < arrival_spwaned s -> counted p = false -> counted p' = false ->
    printed p = false -> printed p' = false -> turn j s s' p p'
| TurnPrint a : arr !! j = Some a -> arrival_spwaned s' = arrival_spwaned s ->
    arrivals (out s') = arrivals (out s) ++ [announced a] ->
    gated p = true -> gated p' = true -> counted p = false -> counted p' = false ->
    printed p = false -> printed p' = true -> turn j s s' p p'
| TurnCount : arrival_spwaned s' = arrival_spwaned s + 1 -> arrivals (out s') = arrivals (out s) ->
    gated p = true -> gated p' = false -> counted p = false -> counted p' = true ->
    printed p = true -> printed p' = false -> turn j s s' p p'.

Lemma arrival_turn j s p s' p' :
  arrival_printing arr j s p = Some (s', p') -> turn j s s' p p'.
Proof.
  intros He. destruct s. unfold arrival_printing in He. simpl in *.
  destruct p; step_cases; locks; naps; frames; simpl in *;
    repeat match goal with |- context [if ?d then _ else _] => destruct d eqn:? end;
    first [by apply TurnStay; simpl; rewrite ?arrivals_app; simpl; rewrite ?app_nil_r
          |by apply TurnPass; simpl; try done; lia
          |by eapply TurnPrint; simpl; rewrite ?arrivals_app
          |by apply TurnCount].
Qed.

Lemma turn_inv_frame k k' :
  turn_inv arr k -> arrs k' = arrs k -> arrival_spwaned (the_shop k') = arrival_spwaned (the_shop k) ->
  arrivals (out (the_shop k')) = arrivals (out (the_shop k)) -> turn_inv arr k'.
Proof. intros [H1 H2 H3] Ha Hs Ho. split; by rewrite ?Ha, ?Hs, ?Ho. Qed.

(** The thread whose turn it is is the one past the gate. *)
Lemma gated_turn k j p :
  turn_inv arr k -> arrs k !! j = Some p -> gated p = true -> counted p = false ->
  arrival_spwaned (the_shop k) - 1 = Z.of_nat j.
Proof.
  intros Hi Hp Hg Hc. destruct (tn_turn arr k Hi j p Hp) as [H1 H2]. specialize (H1 Hg).
  destruct (decide (Z.of_nat j < arrival_spwaned (the_shop k) - 1)) as [Hlt|]; [|lia].
  apply H2 in Hlt. congruence.
Qed.

Lemma printed_gated p : printed p = true -> gated p = true /\ counted p = false.
Proof. by destruct p. Qed.

(** No other thread has printed in this turn. *)
Lemma none_printed k j p :
  turn_inv arr k -> arrs k !! j = Some p -> gated p = true -> counted p = false ->
  printed p = false -> total (fun p => b2z (printed p)) (arrs k) = 0.
Proof.
  intros Hi Hp Hg Hc Hpr. apply total_zero. intros i q Hq. destruct (printed q) eqn:Hpq; [|done].
  destruct (printed_gated q Hpq) as [Hgq Hcq].
  pose proof (gated_turn k j p Hi Hp Hg Hc). pose proof (gated_turn k i q Hi Hq Hgq Hcq).
  assert (i = j) as -> by lia. congruence.
Qed.

Lemma turn_turn_inv k j p s p' :
  turn_inv arr k -> arrs k !! j = Some p -> turn j (the_shop k) s p p' ->
  turn_inv arr (k {{ the_shop := s }} {{ arrs := <[j := p']> (arrs k) }}).
Proof.
  intros Hi Hp Ht. destruct (tn_lines arr k Hi) as (m & Hm & Hcnt).
  pose proof (total_insert (fun p => b2z (printed p)) (arrs k) j p p' Hp) as Htot.
  destruct (tn_turn arr k Hi j p Hp) as [G1 G2].
  pose proof (gated_turn k j p Hi Hp) as Hj.
  split; simpl; [by rewrite length_insert, (tn_len arr k Hi)| |].
  - intros i q Hq. destruct (decide (i = j)) as [->|Hne].
    + rewrite list_lookup_insert_eq in Hq by (by eapply lookup_lt_Some). simplify_eq.
      destruct Ht as [Hs _ Hg Hc _|Hs _ Hlt Hc Hc' _ _|a _ Hs _ Hg Hg' Hc Hc' _ _|Hs _ Hg Hg' Hc Hc' _ _];
        rewrite Hs.
      * by rewrite Hg, Hc.
      * rewrite Hc'. rewrite Hc in G2. done.
      * rewrite Hc'. rewrite Hc in G2. auto.
      * specialize (Hj Hg Hc). rewrite Hg', Hc'. split; [done|]. split; [lia|done].
    + rewrite list_lookup_insert_ne in Hq by done. destruct (tn_turn arr k Hi i q Hq) as [Q1 Q2].
      destruct Ht as [Hs _ _ _ _|Hs _ _ _ _ _ _|a _ Hs _ _ _ _ _ _ _|Hs _ Hg _ Hc _ _ _];
        rewrite Hs; [done..|].
      specialize (Hj Hg Hc). split; [intros; specialize (Q1 ltac:(done)); lia|]. rewrite Q2. lia.
  - destruct Ht as [Hs Ho _ _ Hpr|Hs Ho _ _ _ H1 H2|a Ha Hs Ho Hg _ Hc _ H1 H2|Hs Ho _ _ _ _ H1 H2];
      rewrite Hs, Ho, Htot, ?Hpr, ?H1, ?H2; simpl; try (exists m; split; [done|lia]).
    pose proof (none_printed k j p Hi Hp Hg Hc H1). specialize (Hj Hg Hc).
    exists (S j). assert (m = j) as -> by lia. split; [|lia]. rewrite Hm.
    symmetry. apply take_S_r. by rewrite list_lookup_fmap, Ha.
Qed.

Lemma move_turn_inv k k' : turn_inv arr k -> move b arr k k' -> turn_inv arr k'.
Proof.
  intros Hi Hm. destruct Hm as [i d s d' Hd He|i p s p' Hp He|i p s p' Hp He|s p He|k' He|t].
  - apply customer_arrivals in He as [Hs Ho]. by apply (turn_inv_frame k).
  - apply exited_arrivals in He as [Hs Ho]. by apply (turn_inv_frame k).
  - eapply turn_turn_inv; [done|done|]. by apply arrival_turn.
  - apply counter_frame in He as (_ & _ & _ & _ & Hs & Ho).
    apply (turn_inv_frame k); simpl; rewrite ?Hs, ?Ho; done.
  - unfold main_joins in He. destruct k as [[] cs xs ars ka ma].
    step_cases; eapply turn_inv_frame; try exact Hi; simpl; rewrite ?arrivals_app; simpl;
      rewrite ?app_nil_r; done.
  - by apply (turn_inv_frame k).
Qed.

Lemma initial_turn_inv menu : turn_inv arr (initial b menu arr).
Proof.
  split; simpl.
  - apply length_replicate.
  - intros j p [-> _]%lookup_replicate_1. simpl. split; [done|]. split; [done|lia].
  - exists 0%nat. rewrite total_replicate. simpl. split; [done|lia].
Qed.
End arrivals.

(** The arrivals are printed in the order of the input: the arrival lines
    are at any time those of the first customers, one line each, and all of
    them once every arrival thread returned. *)
Theorem arrivals_in_order b menu arr k :
  steps b arr (initial b menu arr) k ->
  (exists m, arrivals (out (the_shop k)) = take m (announced <$> arr)) /\
  (Forall (eq AReturned) (arrs k) -> arrivals (out (the_shop k)) = announced <$> arr).
Proof.
  intros Hr. assert (turn_inv arr k) as Hi.
  { eapply (steps_ind b arr (turn_inv arr)); [apply initial_turn_inv| |done].
    intros. by eapply move_turn_inv. }
  destruct (tn_lines arr k Hi) as (m & Hm & Hcnt). split; [by exists m|]. intros Hall.
  rewrite Hm. apply take_ge. rewrite length_fmap, <- (tn_len arr k Hi).
  pose proof (total_nonneg (fun p => b2z (printed p)) (arrs k) (fun p => b2z_nonneg _)).
  destruct (decide (length (arrs k) = 0)%nat) as [->|Hn]; [lia|].
  destruct (lookup_lt_is_Some_2 (arrs k) (length (arrs k) - 1)) as [p Hp]; [lia|].
  rewrite Forall_lookup in Hall. specialize (Hall _ _ Hp). subst p.
  destruct (tn_turn arr k Hi _ _ Hp) as [_ Hc]. specialize (proj1 Hc eq_refl). lia.
Qed.

(** Both arrival threads start; the second runs first and waits its turn. *)
Definition greeted : cafe :=
  after 2 two (Counter :: replicate 2 (Arrival 1) ++ replicate 10 (Arrival 0) ++
                 replicate 10 (Arrival 1)).

Lemma arrivals_in_order_witness :
  Forall (eq AReturned) (arrs greeted) /\ arrivals (out (the_shop greeted)) = [(1, 0); (2, 0)].
Proof.
  assert (Forall (eq AReturned) (arrs greeted)) as Hf by (vm_compute; repeat constructor).
  split; [exact Hf|]. apply (arrivals_in_order 2 menu two greeted); [apply after_steps|exact Hf].
Defined.
