(* ===== verification/Parlor.v ===== *)
(** The ice cream parlour simulation (src/concurrency/2.c).

    One thread counts seconds, and there is a thread per machine
    (machine_handler), per customer (arrival_handler) and per ice cream
    (queue_hand), and one that closes the parlour and ends the process
    (exit_handler).  main only waits for the last one, which never returns.
    A thread is at a place of its function, and a step runs the code from there
    to the next access to shared memory.  [cind] and [spawned] are incremented
    under two different mutexes, so their increments are a read and a write;
    the stock of ingredients is read and written in one critical section of
    [mutex], whose loops over it are one step each. *)

From stdpp Require Import functions.
From S2P Require Import Prelude Pthread.

(** ** The stock: flavours with their times, toppings with their amounts *)

Definition MAX_SIZE : nat := 200.

(** The pairs of [data] below [size]. *)
Definition Map : Type := list (string * Z).

Definition initializeMap : Map := [].

(** The loop of insert, which does not stop at a match.  (insert holds
    mutex_map, which no other code takes.) *)
Definition update_all (key : string) (value : Z) (map : Map) : Map :=
  (fun e => if decide (e.1 = key) then (e.1, value) else e) <$> map.

Definition insert (key : string) (value : Z) (map : Map) : Map :=
  let map := update_all key value map in
  if decide (length map < MAX_SIZE)%nat then map ++ [(key, value)] else map.

Fixpoint find (map : Map) (key : string) : Z :=
  match map with
  | [] => -1
  | (k, v) :: map => if decide (k = key) then v else find map key
  end.

(** MapT counts the toppings of one customer's order. *)
Definition initializeTOPM : Map := [].

Fixpoint bump (key : string) (map : Map) : option Map :=
  match map with
  | [] => None
  | (k, v) :: map =>
      if decide (k = key) then Some ((k, v + 1) :: map) else map ← bump key map; Some ((k, v) :: map)
  end.

Definition insertOrUpdateTopping (map : Map) (key : string) : Map * bool :=
  match bump key map with
  | Some map => (map, true)
  | None => if decide (length map < MAX_SIZE)%nat then (map ++ [(key, 1)], true) else (map, false)
  end.

(** Is there enough of each topping?  A topping whose find is -1 never ends. *)
Fixpoint enough (stock : Map) (tops : Map) : bool :=
  match tops with
  | [] => true
  | (t, v) :: tops =>
      if decide (v <= find stock t) then enough stock tops
      else if decide (find stock t = -1) then enough stock tops else false
  end.

Fixpoint take_toppings (stock : Map) (tops : Map) : Map :=
  match tops with
  | [] => stock
  | (t, v) :: tops =>
      if decide (find stock t = -1) then take_toppings stock tops
      else take_toppings (insert t (find stock t - v) stock) tops
  end.

(** ** Data *)

Record machine := Machine { tm_start : Z; tm_stop : Z }.
Record order := Order { flav : string; toppings : list string }.
Record customer := Customer { c_of : Z; t_arr : Z; orders : list order }.

(** The number of order lines main reads for the customer. *)
Definition num_icecream (c : customer) : Z := Z.of_nat (length (orders c)).

(** An ice cream: the numbers, from 1, of its customer and of itself, and its time. *)
Record pair := Pair { a : nat; b : nat; time : Z }.

(** The index of the customer, [queu[cur_ind].a-1]. *)
Definition cust_of (q : pair) : nat := (a q - 1)%nat.

Inductive tid := Counter | Mach (i : nat) | Arrival (j : nat) | Qu (z : nat) | Exit.
#[export] Instance parlor_tid_eq : EqDecision tid.
Proof. solve_decision. Defined.

Inductive mtx := mutex | mutex_s | mutex_swapn.
#[export] Instance parlor_mtx_eq : EqDecision mtx.
Proof. solve_decision. Defined.

Inductive cnd := cond_sec | cond_swapn | verfastswap | fastswap.
#[export] Instance parlor_cnd_eq : EqDecision cnd.
Proof. solve_decision. Defined.

Inductive msg :=
| Started (m t : Z)
| Stopped (m t : Z)
| Enters (c t : Z)
| OrdersN (c n : Z)
| IceCream (i : Z) (flav : string) (tops : list string)
| Unfulfilled (c t : Z)
| Full (c : Z)
| Prepares (m ice c t : Z)
| Prepared (m ice c t : Z)
| Collected (c t : Z)
| Unserviced (c : Z)
| Closed.

(** The global variables that change, and what was printed by whom. *)
Record shop := Shop {
  sec : Z;
  map : Map;
  done_ : list Z;
  ingredients : list Z;
  marr : list Z;
  cind : Z;
  spawned : Z;
  scheduler : Z;
  scheduleind : Z;
  held : mutexes tid mtx;
  waits : waiters tid cnd;
  out : list (tid * msg);
}.

(** ** Threads calls *)

Definition lock (t : tid) (m : mtx) (s : shop) : option shop :=
  h ← mutex_lock t m (held s); Some (s {{ held := h }}).

Definition unlock (m : mtx) (s : shop) : shop := s {{ held := mutex_unlock m (held s) }}.

Definition wait (t : tid) (c : cnd) (m : mtx) (s : shop) : shop :=
  (unlock m s) {{ waits := cond_enter t c (waits s) }}.

Definition rewake (t : tid) (m : mtx) (s : shop) : option shop :=
  if blocked t (waits s) then None else lock t m s.

Definition broadcast (c : cnd) (s : shop) : shop := s {{ waits := cond_broadcast c (waits s) }}.

Definition print (t : tid) (m : msg) (s : shop) : shop := s {{ out := out s ++ [(t, m)] }}.

(** The body of the loops that lock, wait on [c] and unlock. *)
Inductive nap := NapLock | NapWait | NapWoken | NapUnlock.

Definition nap_step (t : tid) (c : cnd) (p : nap) (s : shop) : option (shop * option nap) :=
  match p with
  | NapLock => s ← lock t mutex s; Some (s, Some NapWait)
  | NapWait => Some (wait t c mutex s, Some NapWoken)
  | NapWoken => s ← rewake t mutex s; Some (s, Some NapUnlock)
  | NapUnlock => Some (unlock mutex s, None)
  end.

(** ** counter and machine_handler *)

Inductive kpc := KSleep | KTick | KCast.

Definition counter (s : shop) (p : kpc) : shop * kpc :=
  match p with
  | KSleep => (s, KTick)
  | KTick => (s {{ sec := sec s + 1 }}, KCast)
  | KCast => (broadcast cond_sec s, KSleep)
  end.

Inductive hpc :=
| HLock | HTest | HWoken | HUnlock | HStarted
| HStopLock | HStopTest | HStopWoken | HStopUnlock | HStopped | HReturned.

Definition machine_handler (i : nat) (m : machine) (s : shop) (p : hpc) : option (shop * hpc) :=
  let t := Mach i in
  match p with
  | HLock => s ← lock t mutex_s s; Some (s, HTest)
  | HTest =>
      if sec s <? tm_start m then Some (wait t cond_sec mutex_s s, HWoken) else Some (s, HUnlock)
  | HWoken => s ← rewake t mutex_s s; Some (s, HTest)
  | HUnlock => Some (unlock mutex_s s, HStarted)
  | HStarted => Some (print t (Started (Z.of_nat i + 1) (sec s)) s, HStopLock)
  | HStopLock => s ← lock t mutex_s s; Some (s, HStopTest)
  | HStopTest =>
      if sec s <? tm_stop m then Some (wait t cond_sec mutex_s s, HStopWoken)
      else Some (s, HStopUnlock)
  | HStopWoken => s ← rewake t mutex_s s; Some (s, HStopTest)
  | HStopUnlock => Some (unlock mutex_s s, HStopped)
  | HStopped => Some (print t (Stopped (Z.of_nat i + 1) (sec s)) s, HReturned)
  | HReturned => None
  end.

(** ** arrival_handler *)

Inductive apc :=
| GateTest | GateNap (p : nap) | GateLock | GateInc | GateUnlock | GateCast
| ArrLock | ArrTest | ArrWoken | ArrUnlock
| PlaceTest
| EnterLock | EnterPrint | EnterOrders | EnterIce (i : nat) | EnterUnlock
| CountFor (l : list string) | CountLock (l : list string) (t : string)
| CountTop (l : list string) (t : string) | CountUnlock (l : list string)
| StockLock | StockTest | StockTake | StockGive | StockUnlock | StockCast
| InLock | InCindR | InCindW (v : Z) | InTest | InWoken | InSpawnR | InSpawnW (v : Z) | InUnlock
| BadPrint | BadDone | BadSpawnR | BadSpawnW (v : Z) | BadCindR | BadCindW (v : Z)
| BadIngr | BadUnlock
| FullLock | FullPrint | FullCindR | FullCindW (v : Z) | FullSpawnR | FullSpawnW (v : Z)
| FullIngr | FullUnlock
| Returned.

(** The place of an arrival_handler and its toppingsMap. *)
Record cust := Cust { apc_of : apc; tops : Map }.

Definition goto (p : apc) (c : cust) : cust := c {{ apc_of := p }}.

(** The toppings of an order, in the order the two loops count them. *)
Definition all_toppings (c : customer) : list string := concat (toppings <$> orders c).

Definition arrival_handler (arr : list customer) (j : nat) (s : shop) (c : cust) :
    option (shop * cust) :=
  let t := Arrival j in
  u ← arr !! j;
  let go p s := Some (s, goto p c) in
  match apc_of c with
  | GateTest => if scheduler s <? Z.of_nat j then go (GateNap NapLock) s else go GateLock s
  | GateNap p =>
      r ← nap_step t verfastswap p s;
      go (match r.2 with Some p => GateNap p | None => GateTest end) r.1
  | GateLock => s ← lock t mutex s; go GateInc s
  | GateInc => go GateUnlock (s {{ scheduler := scheduler s + 1 }})
  | GateUnlock => go GateCast (unlock mutex s)
  | GateCast => go ArrLock (broadcast verfastswap s)
  | ArrLock => s ← lock t mutex s; go ArrTest s
  | ArrTest => if sec s <? t_arr u then go ArrWoken (wait t cond_sec mutex s) else go ArrUnlock s
  | ArrWoken => s ← rewake t mutex s; go ArrTest s
  | ArrUnlock => go PlaceTest (unlock mutex s)
  | PlaceTest => go (if cind s <? spawned s then EnterLock else FullLock) s
  | EnterLock => s ← lock t mutex s; go EnterPrint s
  | EnterPrint => go EnterOrders (print t (Enters (c_of u) (t_arr u)) s)
  | EnterOrders => go (EnterIce 0) (print t (OrdersN (c_of u) (num_icecream u)) s)
  | EnterIce i =>
      match orders u !! i with
      | Some o =>
          go (EnterIce (S i)) (print t (IceCream (Z.of_nat i + 1) (flav o) (toppings o)) s)
      | None => go EnterUnlock s
      end
  | EnterUnlock =>
      Some (unlock mutex s, Cust (CountFor (all_toppings u)) initializeTOPM)
  | CountFor [] => go StockLock s
  | CountFor (x :: l) => go (CountLock l x) s
  | CountLock l x => s ← lock t mutex s; go (CountTop l x) s
  | CountTop l x => Some (s, Cust (CountUnlock l) (insertOrUpdateTopping (tops c) x).1)
  | CountUnlock l => go (CountFor l) (unlock mutex s)
  | StockLock => s ← lock t mutex s; go StockTest s
  | StockTest => go (if enough (map s) (tops c) then StockTake else BadPrint) s
  | StockTake => go StockGive (s {{ map := take_toppings (map s) (tops c) }})
  | StockGive => go StockUnlock (s {{ ingredients := <[j := 1]> (ingredients s) }})
  | StockUnlock => go StockCast (unlock mutex s)
  | StockCast => go InLock (broadcast cond_swapn s)
  | InLock => s ← lock t mutex_swapn s; go InCindR s
  | InCindR => go (InCindW (cind s)) s
  | InCindW v => go InTest (s {{ cind := v + 1 }})
  | InTest =>
      d ← done_ s !! j;
      if d <? num_icecream u then go InWoken (wait t cond_swapn mutex_swapn s) else go InSpawnR s
  | InWoken => s ← rewake t mutex_swapn s; go InTest s
  | InSpawnR => go (InSpawnW (spawned s)) s
  | InSpawnW v => go InUnlock (s {{ spawned := v + 1 }})
  | InUnlock => go Returned (unlock mutex_swapn s)
  | BadPrint => go BadDone (print t (Unfulfilled (Z.of_nat j + 1) (sec s)) s)
  | BadDone => go BadSpawnR (s {{ done_ := <[j := num_icecream u]> (done_ s) }})
  | BadSpawnR => go (BadSpawnW (spawned s)) s
  | BadSpawnW v => go BadCindR (s {{ spawned := v + 1 }})
  | BadCindR => go (BadCindW (cind s)) s
  | BadCindW v => go BadIngr (s {{ cind := v + 1 }})
  | BadIngr => go BadUnlock (s {{ ingredients := <[j := 0]> (ingredients s) }})
  | BadUnlock => go Returned (unlock mutex s)
  | FullLock => s ← lock t mutex s; go FullPrint s
  | FullPrint => go FullCindR (print t (Full (c_of u)) s)
  | FullCindR => go (FullCindW (cind s)) s
  | FullCindW v => go FullSpawnR (s {{ cind := v + 1 }})
  | FullSpawnR => go (FullSpawnW (spawned s)) s
  | FullSpawnW v => go FullIngr (s {{ spawned := v + 1 }})
  | FullIngr => go FullUnlock (s {{ ingredients := <[j := 0]> (ingredients s) }})
  | FullUnlock => go Returned (unlock mutex s)
  | Returned => None
  end.

(** ** queue_hand *)

Inductive qpc :=
| IngrTest | IngrNap (p : nap)
| TurnTest | TurnNap (p : nap) | TurnLock | TurnInc | TurnUnlock | TurnCast
| ZeroTest
| ScanFor (i : nat) | ScanLock (i : nat) | ScanTest (i : nat) | ScanTake (i : nat)
| ScanUnlock (i : nat) | ScanNap (p : nap)
| StartTest | StartNap (p : nap) | StartSec | StartPrint
| MakeTest | MakeNap (p : nap)
| EndLock | EndFree | EndDone | EndPrint | EndAll | EndCollect | EndUnlock | EndCast
| QReturned.

Record ice := Ice { qpc_of : qpc; got : Z; curr : Z }.

Definition qgoto (p : qpc) (c : ice) : ice := c {{ qpc_of := p }}.

Definition queue_hand (mac : list machine) (arr : list customer) (queu : list pair) (z : nat)
    (s : shop) (c : ice) : option (shop * ice) :=
  let t := Qu z in
  q ← queu !! z;
  u ← arr !! cust_of q;
  let go p s := Some (s, qgoto p c) in
  let nap cnd p here back := r ← nap_step t cnd p s; go (from_option here back r.2) r.1 in
  match qpc_of c with
  | IngrTest =>
      g ← ingredients s !! cust_of q; go (if g =? -1 then IngrNap NapLock else TurnTest) s
  | IngrNap p => nap cond_sec p IngrNap IngrTest
  | TurnTest => go (if scheduleind s <? Z.of_nat z then TurnNap NapLock else TurnLock) s
  | TurnNap p => nap fastswap p TurnNap TurnTest
  | TurnLock => s ← lock t mutex s; go TurnInc s
  | TurnInc => go TurnUnlock (s {{ scheduleind := scheduleind s + 1 }})
  | TurnUnlock => go TurnCast (unlock mutex s)
  | TurnCast => go ZeroTest (broadcast fastswap s)
  | ZeroTest => g ← ingredients s !! cust_of q; go (if g =? 0 then QReturned else ScanFor 0) s
  | ScanFor i =>
      go (if decide (i < length mac)%nat then ScanLock i
          else if got c =? -1 then ScanNap NapLock else StartTest) s
  | ScanLock i => s ← lock t mutex s; go (ScanTest i) s
  | ScanTest i =>
      m ← mac !! i; v ← marr s !! i;
      let canaccept := sec s + time q <? tm_stop m in
      go (if (tm_start m <=? sec s) && (sec s <=? tm_stop m) && (v =? 0) && canaccept
          then ScanTake i else ScanUnlock i) s
  | ScanTake i =>
      Some (s {{ marr := <[i := 1]> (marr s) }}, qgoto (ScanUnlock i) c {{ got := Z.of_nat i }})
  | ScanUnlock i =>
      go (if got c =? -1 then ScanFor (S i) else StartTest) (unlock mutex s)
  | ScanNap p => nap cond_sec p ScanNap (ScanFor 0)
  | StartTest => go (if sec s <? t_arr u + 1 then StartNap NapLock else StartSec) s
  | StartNap p => nap cond_sec p StartNap StartTest
  | StartSec => Some (s, Ice StartPrint (got c) (sec s))
  | StartPrint =>
      go MakeTest (print t (Prepares (got c + 1) (Z.of_nat (b q)) (Z.of_nat (a q)) (sec s)) s)
  | MakeTest => go (if sec s <? curr c + time q then MakeNap NapLock else EndLock) s
  | MakeNap p => nap cond_sec p MakeNap MakeTest
  | EndLock => s ← lock t mutex s; go EndFree s
  | EndFree => go EndDone (s {{ marr := <[Z.to_nat (got c) := 0]> (marr s) }})
  | EndDone =>
      d ← done_ s !! cust_of q;
      go EndPrint (s {{ done_ := <[cust_of q := d + 1]> (done_ s) }})
  | EndPrint =>
      go EndAll (print t (Prepared (got c + 1) (Z.of_nat (b q)) (Z.of_nat (a q)) (sec s)) s)
  | EndAll =>
      d ← done_ s !! cust_of q; go (if d =? num_icecream u then EndCollect else EndUnlock) s
  | EndCollect => go EndUnlock (print t (Collected (Z.of_nat (a q)) (sec s)) s)
  | EndUnlock => go EndCast (unlock mutex s)
  | EndCast => go QReturned (broadcast cond_swapn s)
  | QReturned => None
  end.

(** ** exit_handler *)

Inductive epc := ELock | ETest | EWoken | EUnlock | EFor (i : nat) | EClosed | EExit.

(** [maxtime] is the largest tm_stop, or -1. *)
Definition exit_handler (maxtime : Z) (arr : list customer) (s : shop) (p : epc) :
    option (shop * epc) :=
  match p with
  | ELock => s ← lock Exit mutex s; Some (s, ETest)
  | ETest =>
      if sec s <? maxtime + 1 then Some (wait Exit cond_sec mutex s, EWoken) else Some (s, EUnlock)
  | EWoken => s ← rewake Exit mutex s; Some (s, ETest)
  | EUnlock => Some (unlock mutex s, EFor 0)
  | EFor i =>
      match arr !! i with
      | None => Some (s, EClosed)
      | Some u =>
          d ← done_ s !! i;
          Some (if d <? num_icecream u then print Exit (Unserviced (Z.of_nat i + 1)) s else s, EFor (S i))
      end
  | EClosed => Some (print Exit Closed s, EExit)
  | EExit => None
  end.

(** ** The process *)

(** What main read: the machines, the capacity [k], the stock and the customers. *)
Record input := Input {
  mac : list machine;
  capacity : Z;
  fav : list (string * Z);
  top : list (string * Z);
  arr : list customer;
}.

Definition stock (x : input) : Map :=
  fold_left (fun m e => insert e.1 e.2 m) (fav x ++ top x) initializeMap.

Definition max_stop (x : input) : Z :=
  fold_left (fun v m => if v <? tm_stop m then tm_stop m else v) (mac x) (-1).

(** The ice creams of customer [i], and of all of them. *)
Definition queue_of (m : Map) (i : nat) (c : customer) : list pair :=
  imap (fun j o => Pair (i + 1) (j + 1) (find m (flav o))) (orders c).

Definition queu (x : input) : list pair := concat (imap (queue_of (stock x)) (arr x)).

Record parlor := Parlor {
  the_shop : shop;
  machs : list hpc;
  custs : list cust;
  ices : list ice;
  counter_at : kpc;
  exit_at : epc;
}.

Definition initial (x : input) : parlor :=
  let n := length (arr x) in
  Parlor
    (Shop (-1) (stock x) (replicate n 0) (replicate n (-1)) (replicate (length (mac x)) 0)
       0 (capacity x) 0 0 (fun _ => None) [] [])
    (replicate (length (mac x)) HLock) (replicate n (Cust GateTest []))
    (replicate (length (queu x)) (Ice IngrTest (-1) 0)) KSleep ELock.

(** One step of a thread; none after exit(0). *)
Definition exec (x : input) (t : tid) (k : parlor) : option parlor :=
  match exit_at k with
  | EExit => None
  | _ =>
      match t with
      | Counter =>
          let '(s, p) := counter (the_shop k) (counter_at k) in
          Some (k {{ the_shop := s }} {{ counter_at := p }})
      | Mach i =>
          m ← mac x !! i; p ← machs k !! i; r ← machine_handler i m (the_shop k) p;
          Some (k {{ the_shop := r.1 }} {{ machs := <[i := r.2]> (machs k) }})
      | Arrival j =>
          c ← custs k !! j; r ← arrival_handler (arr x) j (the_shop k) c;
          Some (k {{ the_shop := r.1 }} {{ custs := <[j := r.2]> (custs k) }})
      | Qu z =>
          c ← ices k !! z; r ← queue_hand (mac x) (arr x) (queu x) z (the_shop k) c;
          Some (k {{ the_shop := r.1 }} {{ ices := <[z := r.2]> (ices k) }})
      | Exit =>
          r ← exit_handler (max_stop x) (arr x) (the_shop k) (exit_at k);
          Some (k {{ the_shop := r.1 }} {{ exit_at := r.2 }})
      end
  end.

Inductive step (x : input) (k : parlor) : parlor -> Prop :=
| StepThread t k' : exec x t k = Some k' -> step x k k'
| StepSpurious t :
    step x k (k {{ the_shop ::= fun s => s {{ waits := cond_wake t (waits s) }} }}).

Definition steps (x : input) : parlor -> parlor -> Prop := rtc (step x).

Fixpoint run (x : input) (ts : list tid) (k : parlor) : option parlor :=
  match ts with
  | [] => Some k
  | t :: ts => k ← exec x t k; run x ts k
  end.

Lemma parlor_run_steps x ts k k' : run x ts k = Some k' -> steps x k k'.
Proof.
  revert k. induction ts as [|t ts IH]; intros k Hr; simplify_eq/=; [constructor|].
  apply bind_Some in Hr as (k1 & He & Hr). apply (rtc_l _ _ k1); [by apply (StepThread _ _ t)|by apply IH].
Qed.
