(* ===== verification/ParlorProps.v ===== *)
(** The ice-cream parlor (src/concurrency/2.c): the invariant of its threads, and
    the theorems about machines, ingredients and customers. *)

From stdpp Require Import functions.
From S2P Require Import Prelude Pthread Parlor.

(** ** Symbolic execution of a handler's step *)

Ltac step_cases :=
  repeat (match goal with
    | H : mbind _ _ = Some _ |- _ => apply bind_Some in H as (? & ? & ?)
    | H : (if ?d then _ else _) = Some _ |- _ => destruct d eqn:?
    | H : match ?d with _ => _ end = Some _ |- _ => destruct d eqn:?
    | H : Some _ = Some _ |- _ => injection H; clear H; intros; subst
    | H : None = Some _ |- _ => discriminate H
    | H : context [let _ := _ in _] |- _ => progress cbv zeta in H
    end; simpl in *).

Lemma parlor_lock_eq t m s s' :
  lock t m s = Some s' -> held s m = None /\ s' = s {{ held := <[m := Some t]> (held s) }}.
Proof.
  unfold lock, mutex_lock. destruct (held s m) eqn:Hh; simpl; intros He; simplify_eq/=. done.
Qed.

Lemma parlor_rewake_eq t m s s' :
  rewake t m s = Some s' -> held s m = None /\ s' = s {{ held := <[m := Some t]> (held s) }}.
Proof. unfold rewake. destruct (blocked _ _); [done|apply parlor_lock_eq]. Qed.

Ltac locks :=
  repeat match goal with
  | H : lock _ _ _ = Some _ |- _ => apply parlor_lock_eq in H as [? ->]
  | H : rewake _ _ _ = Some _ |- _ => apply parlor_rewake_eq in H as [? ->]
  end.

Ltac naps :=
  repeat match goal with
  | H : nap_step _ _ _ _ = Some ?r |- _ => is_var r; destruct r as [? [?|]]; simpl in *
  end.

Lemma parlor_nap_frame t c p s s' r :
  nap_step t c p s = Some (s', r) -> exists h w, s' = s {{ held := h }} {{ waits := w }}.
Proof.
  intros He. destruct p; simpl in He; step_cases; locks;
    (destruct s; unfold wait, unlock; simpl; by do 2 eexists).
Qed.

Ltac frames :=
  repeat match goal with
  | H : nap_step _ _ _ _ = _ |- _ => apply parlor_nap_frame in H as (? & ? & ?); simpl in *; subst
  end.

(** ** Mutexes *)

Definition nap_holds (p : nap) : option mtx :=
  match p with NapWait | NapUnlock => Some mutex | _ => None end.

Definition hpc_holds (p : hpc) : option mtx :=
  match p with HTest | HUnlock | HStopTest | HStopUnlock => Some mutex_s | _ => None end.

Definition apc_holds (p : apc) : option mtx :=
  match p with
  | GateNap p => nap_holds p
  | GateInc | GateUnlock | ArrTest | ArrUnlock
  | EnterPrint | EnterOrders | EnterIce _ | EnterUnlock | CountTop _ _ | CountUnlock _
  | StockTest | StockTake | StockGive | StockUnlock
  | BadPrint | BadDone | BadSpawnR | BadSpawnW _ | BadCindR | BadCindW _ | BadIngr | BadUnlock
  | FullPrint | FullCindR | FullCindW _ | FullSpawnR | FullSpawnW _ | FullIngr | FullUnlock =>
      Some mutex
  | InCindR | InCindW _ | InTest | InSpawnR | InSpawnW _ | InUnlock => Some mutex_swapn
  | _ => None
  end.

Definition qpc_holds (p : qpc) : option mtx :=
  match p with
  | IngrNap p | TurnNap p | ScanNap p | StartNap p | MakeNap p => nap_holds p
  | TurnInc | TurnUnlock | ScanTest _ | ScanTake _ | ScanUnlock _
  | EndFree | EndDone | EndPrint | EndAll | EndCollect | EndUnlock => Some mutex
  | _ => None
  end.

Definition epc_holds (p : epc) : option mtx :=
  match p with ETest | EUnlock => Some mutex | _ => None end.

Definition holds (k : parlor) (t : tid) : option mtx :=
  match t with
  | Mach i => p ← machs k !! i; hpc_holds p
  | Arrival j => c ← custs k !! j; apc_holds (apc_of c)
  | Qu z => c ← ices k !! z; qpc_holds (qpc_of c)
  | Exit => epc_holds (exit_at k)
  | Counter => None
  end.

Definition mutex_inv (k : parlor) : Prop := mutex_sound (holds k) (held (the_shop k)).

#[local] Hint Constructors lock_move : core.

Lemma parlor_nap_locks t c p s s' r :
  nap_step t c p s = Some (s', r) ->
  lock_move t (held s) (held s') (nap_holds p) (match r with Some p => nap_holds p | None => None end).
Proof. intros He. destruct p; simpl in He; step_cases; locks; simpl; eauto. Qed.

Ltac by_locks :=
  step_cases; locks; naps; simpl; repeat case_match; eauto;
  match goal with H : nap_step _ _ _ _ = _ |- _ => apply parlor_nap_locks in H; done end.

Lemma machine_locks i m s p s' p' :
  machine_handler i m s p = Some (s', p') ->
  lock_move (Mach i) (held s) (held s') (hpc_holds p) (hpc_holds p').
Proof. intros He. unfold machine_handler in He. destruct p; by_locks. Qed.

Lemma parlor_arrival_locks arr j s c s' c' :
  arrival_handler arr j s c = Some (s', c') ->
  lock_move (Arrival j) (held s) (held s') (apc_holds (apc_of c)) (apc_holds (apc_of c')).
Proof. intros He. destruct c. unfold arrival_handler in He. simpl in He. by_locks. Qed.

Lemma queue_locks mac arr qu z s c s' c' :
  queue_hand mac arr qu z s c = Some (s', c') ->
  lock_move (Qu z) (held s) (held s') (qpc_holds (qpc_of c)) (qpc_holds (qpc_of c')).
Proof. intros He. destruct c. unfold queue_hand in He. simpl in He. by_locks. Qed.

Lemma exit_locks mx arr s p s' p' :
  exit_handler mx arr s p = Some (s', p') ->
  lock_move Exit (held s) (held s') (epc_holds p) (epc_holds p').
Proof. intros He. unfold exit_handler in He. destruct p; by_locks. Qed.

Section parlor.
Context (x : input).

(** A step is one handler's step, or a spurious wakeup. *)
Inductive move (k : parlor) : parlor -> Prop :=
| MoveCounter s p :
    counter (the_shop k) (counter_at k) = (s, p) ->
    move k (k {{ the_shop := s }} {{ counter_at := p }})
| MoveMach i m p s p' :
    mac x !! i = Some m -> machs k !! i = Some p ->
    machine_handler i m (the_shop k) p = Some (s, p') ->
    move k (k {{ the_shop := s }} {{ machs := <[i := p']> (machs k) }})
| MoveArrival j c s c' :
    custs k !! j = Some c -> arrival_handler (arr x) j (the_shop k) c = Some (s, c') ->
    move k (k {{ the_shop := s }} {{ custs := <[j := c']> (custs k) }})
| MoveQu z c s c' :
    ices k !! z = Some c ->
    queue_hand (mac x) (arr x) (queu x) z (the_shop k) c = Some (s, c') ->
    move k (k {{ the_shop := s }} {{ ices := <[z := c']> (ices k) }})
| MoveExit s p :
    exit_handler (max_stop x) (arr x) (the_shop k) (exit_at k) = Some (s, p) ->
    move k (k {{ the_shop := s }} {{ exit_at := p }})
| MoveWake t :
    move k (k {{ the_shop ::= fun s => s {{ waits := cond_wake t (waits s) }} }}).

#[local] Arguments exit_handler : simpl never.

Lemma parlor_step_move k k' : step x k k' -> move k k'.
Proof.
  intros [t k1 He|t]; [|apply MoveWake]. unfold exec in He.
  destruct (exit_at k) eqn:Hm; [..|done]; destruct t; step_cases;
    try match goal with H : _ = Some ?r |- _ => is_var r; destruct r end;
    first [by eapply MoveMach|by eapply MoveArrival|by eapply MoveQu|by eapply MoveCounter
          |by eapply MoveExit; rewrite Hm].
Qed.

Lemma parlor_steps_ind (P : parlor -> Prop) k k' :
  P k -> (forall k1 k2, P k1 -> move k1 k2 -> P k2) -> steps x k k' -> P k'.
Proof. intros H0 Hs Hr. induction Hr as [|k k1 k2 H1 _ IH]; [done|]. eauto using parlor_step_move. Qed.

Lemma parlor_move_mutex_inv k k' : mutex_inv k -> move k k' -> mutex_inv k'.
Proof.
  intros Hi Hm.
  destruct Hm as [s p He|i m p s p' Hma Hp He|j c s c' Hc He|z c s c' Hc He|s p He|t].
  - apply (mutex_sound_step (holds k) _ Counter (held (the_shop k))); [done| |by intros []].
    constructor. unfold counter in He. destruct (counter_at k); by simplify_eq/=.
  - apply (mutex_sound_step (holds k) _ (Mach i) (held (the_shop k))); [done| |].
    + simpl. rewrite Hp, list_lookup_insert_eq by (by eapply lookup_lt_Some).
      by apply machine_locks in He.
    + intros [] Hne; simpl; try done. apply list_place. congruence.
  - apply (mutex_sound_step (holds k) _ (Arrival j) (held (the_shop k))); [done| |].
    + simpl. rewrite Hc, list_lookup_insert_eq by (by eapply lookup_lt_Some).
      by apply parlor_arrival_locks in He.
    + intros [] Hne; simpl; try done. apply list_place. congruence.
  - apply (mutex_sound_step (holds k) _ (Qu z) (held (the_shop k))); [done| |].
    + simpl. rewrite Hc, list_lookup_insert_eq by (by eapply lookup_lt_Some).
      by apply queue_locks in He.
    + intros [] Hne; simpl; try done. apply list_place. congruence.
  - apply (mutex_sound_step (holds k) _ Exit (held (the_shop k))); [done| |by intros []].
    by apply exit_locks in He.
  - apply (mutex_sound_step (holds k) _ Counter (held (the_shop k))); [done|by constructor|by intros []].
Qed.

(** ** Machines *)

(** The ice cream has taken machine [got] and not released it. *)
Definition making (c : ice) : bool :=
  match qpc_of c with
  | ScanUnlock _ => negb (got c =? -1)
  | StartTest | StartNap _ | StartSec | StartPrint | MakeTest | MakeNap _ | EndLock | EndFree => true
  | _ => false
  end.

(** It is looking for one. *)
Definition looking (p : qpc) : bool :=
  match p with
  | ScanFor _ | ScanLock _ | ScanTest _ | ScanTake _ | ScanNap _
  | IngrTest | IngrNap _ | TurnTest | TurnNap _ | TurnLock | TurnInc | TurnUnlock | TurnCast
  | ZeroTest => true
  | _ => false
  end.

Definition uses (i : nat) (c : ice) : bool := making c && (Z.of_nat i =? got c).

Record ice_ok (ms : list Z) (c : ice) : Prop := {
  ok_got : making c = true -> 0 <= got c < Z.of_nat (length (mac x));
  ok_look : looking (qpc_of c) = true -> got c = -1;
  ok_take : forall i, qpc_of c = ScanTake i -> ms !! i = Some 0;
}.

Record machine_inv (k : parlor) : Prop := {
  inv_mutex : mutex_inv k;
  inv_len : length (marr (the_shop k)) = length (mac x);
  inv_marr : forall i v, marr (the_shop k) !! i = Some v ->
    (v = 0 \/ v = 1) /\ v = total (fun c => b2z (uses i c)) (ices k);
  inv_ice : forall z c, ices k !! z = Some c -> ice_ok (marr (the_shop k)) c;
}.

Lemma queue_len z s c s' c' :
  queue_hand (mac x) (arr x) (queu x) z s c = Some (s', c') -> length (marr s') = length (marr s).
Proof.
  intros He. destruct s, c. unfold queue_hand in He. simpl in He.
  step_cases; locks; naps; frames; simpl; rewrite ?length_insert; done.
Qed.

Ltac conds :=
  repeat match goal with
  | H : context [if ?d then _ else _] |- _ => destruct d eqn:?
  | |- context [if ?d then _ else _] => destruct d eqn:?
  end.

(** What an ice cream's step does to one machine, ... *)
Lemma queue_machine z s c s' c' i v :
  queue_hand (mac x) (arr x) (queu x) z s c = Some (s', c') -> ice_ok (marr s) c ->
  marr s !! i = Some v -> (v = 0 \/ v = 1) -> b2z (uses i c) <= v ->
  exists v', marr s' !! i = Some v' /\ (v' = 0 \/ v' = 1) /\
    v' = v - b2z (uses i c) + b2z (uses i c').
Proof.
  intros He [Hg Hl Ht] Hv H01 Hle. destruct s, c. unfold queue_hand in He. simpl in He.
  unfold uses, making in *. simpl in *.
  step_cases; locks; naps; frames; simpl in *; conds; simplify_eq/=;
    try (exists v; split_and!; [done|done|lia]).
  - rewrite (Hl eq_refl). exists v. split_and!; [done|done|simpl; lia].
  - by apply slot_take; [apply Ht|..].
  - apply slot_free; try done. by apply Hg.
Qed.

(** ... to its own local state, ... *)
Lemma queue_ok z s c s' c' :
  queue_hand (mac x) (arr x) (queu x) z s c = Some (s', c') -> ice_ok (marr s) c ->
  length (marr s) = length (mac x) -> ice_ok (marr s') c'.
Proof.
  intros He [Hg Hl Ht] Hlen. destruct s, c. unfold queue_hand in He. simpl in He.
  unfold making in *. simpl in *.
  step_cases; locks; naps; frames; simpl in *; conds; simplify_eq/=;
    (split; unfold making; simpl; [try done..|]).
  all: try (intros ? [=]; done); try (intros _; by apply Hl); try (intros _; by apply Hg).
  - by rewrite (Hl eq_refl) in *.
  - intros j [=<-]. by match goal with H : _ && _ = true |- _ =>
      apply andb_true_iff in H as [[_ ->%Z.eqb_eq]%andb_true_iff _] end.
  - by rewrite (Hl eq_refl).
  - intros _. specialize (Ht _ eq_refl). apply lookup_lt_Some in Ht. lia.
  - intros _. by apply Z.eqb_eq.
Qed.

(** ... and to the slots another ice cream is about to take. *)
Lemma queue_keeps_free z s c s' c' i :
  queue_hand (mac x) (arr x) (queu x) z s c = Some (s', c') -> (forall n, qpc_of c <> ScanTake n) ->
  marr s !! i = Some 0 -> marr s' !! i = Some 0.
Proof.
  intros He Hn Hi. destruct s, c. unfold queue_hand in He. simpl in *.
  step_cases; locks; naps; frames; simpl in *; try done; [by edestruct Hn|].
  by apply slot_stays_free.
Qed.

(** The other threads leave the machines alone. *)
Lemma arrival_marr j s c s' c' : arrival_handler (arr x) j s c = Some (s', c') -> marr s' = marr s.
Proof.
  intros He. destruct s, c. unfold arrival_handler in He. simpl in He.
  step_cases; locks; naps; frames; done.
Qed.

Lemma machine_marr i m s p s' p' : machine_handler i m s p = Some (s', p') -> marr s' = marr s.
Proof.
  intros He. destruct s. unfold machine_handler in He. destruct p; step_cases; locks; done.
Qed.

Lemma exit_marr s p s' p' : exit_handler (max_stop x) (arr x) s p = Some (s', p') -> marr s' = marr s.
Proof.
  intros He. destruct s. unfold exit_handler in He.
  destruct p; step_cases; locks; conds; done.
Qed.

Lemma machine_inv_frame k k' :
  machine_inv k -> mutex_inv k' -> marr (the_shop k') = marr (the_shop k) -> ices k' = ices k ->
  machine_inv k'.
Proof. intros [_ H1 H2 H3] Hm Hs Hc. split; rewrite ?Hs, ?Hc; done. Qed.

Lemma move_machine_inv k k' : machine_inv k -> move k k' -> machine_inv k'.
Proof.
  intros Hi Hm. pose proof (parlor_move_mutex_inv k k' (inv_mutex k Hi) Hm) as Hmx.
  destruct Hm as [s p He|i m p s p' Hma Hp He|j c s c' Hc He|z c s c' Hc He|s p He|t].
  - apply (machine_inv_frame k); try done. unfold counter in He.
    destruct (counter_at k); by simplify_eq/=.
  - apply machine_marr in He. by apply (machine_inv_frame k).
  - apply arrival_marr in He. by apply (machine_inv_frame k).
  - pose proof (inv_ice k Hi z c Hc) as Hok. split; [done| | |]; simpl.
    + by rewrite (queue_len _ _ _ _ _ He), (inv_len k Hi).
    + intros i v' Hv'.
      assert (is_Some (marr (the_shop k) !! i)) as [v Hv].
      { apply lookup_lt_is_Some. rewrite <- (queue_len _ _ _ _ _ He). by eapply lookup_lt_Some. }
      destruct (inv_marr k Hi i v Hv) as [H01 Ht].
      destruct (queue_machine _ _ _ _ _ _ _ He Hok Hv H01) as (v1 & Hv1 & H1 & Ht1).
      { rewrite Ht. by apply (total_lookup_le (fun c => b2z (uses i c)) _ z);
          [intros; apply b2z_nonneg|]. }
      simplify_eq. split; [done|]. rewrite (total_insert _ _ _ c c' Hc). lia.
    + intros z2 c2 Hc2. destruct (decide (z2 = z)) as [->|Hne].
      * rewrite list_lookup_insert_eq in Hc2 by (by eapply lookup_lt_Some). simplify_eq.
        by eapply queue_ok; [done|done|apply inv_len].
      * rewrite list_lookup_insert_ne in Hc2 by done.
        destruct (inv_ice k Hi z2 c2 Hc2) as [Hg2 Hl2 Ht2]. split; [done|done|].
        intros i Hp2. eapply queue_keeps_free; [done| |by apply Ht2].
        intros i' Hp. apply Hne. assert (Qu z2 = Qu z) as [=]; [|done].
        apply (mutex_sound_excl _ _ _ _ mutex (inv_mutex k Hi)); simpl;
          [rewrite Hc2; simpl; by rewrite Hp2|rewrite Hc; simpl; by rewrite Hp].
  - apply exit_marr in He. by apply (machine_inv_frame k).
  - by apply (machine_inv_frame k).
Qed.

Lemma initial_machine_inv : machine_inv (initial x).
Proof.
  split; simpl.
  - intros t m Ht. exfalso. destruct t as [|j|j|j|]; simpl in Ht; try done.
    all: by apply bind_Some in Ht as (? & [-> _]%lookup_replicate_1 & Ht).
  - apply length_replicate.
  - intros i v [-> _]%lookup_replicate_1. split; [by left|]. rewrite total_replicate. simpl. lia.
  - intros j c [-> _]%lookup_replicate_1. by split.
Qed.

Lemma steps_machine_inv k : steps x (initial x) k -> machine_inv k.
Proof. apply parlor_steps_ind; [apply initial_machine_inv|apply move_machine_inv]. Qed.

(** Two ice creams that each have a machine have different ones. *)
Lemma machine_of_one k z z' c c' :
  machine_inv k -> ices k !! z = Some c -> ices k !! z' = Some c' -> z <> z' ->
  making c = true -> making c' = true -> got c <> got c'.
Proof.
  intros Hi Hc Hc' Hne Hs Hs' Hg.
  pose proof (ok_got _ _ (inv_ice k Hi z c Hc) Hs) as Hr.
  destruct (lookup_lt_is_Some_2 (marr (the_shop k)) (Z.to_nat (got c))) as [v Hv].
  { rewrite (inv_len k Hi). lia. }
  destruct (inv_marr k Hi _ _ Hv) as [H01 Ht].
  pose proof (total_lookup2_le (fun d => b2z (uses (Z.to_nat (got c)) d)) (ices k) z z' c c'
    (fun d => b2z_nonneg _) Hne Hc Hc') as H2. simpl in H2.
  unfold uses in H2 at 1 2. rewrite Hs, Hs', <- Hg, Z2Nat.id, Z.eqb_refl in H2 by lia.
  simpl in H2. lia.
Qed.

End parlor.

(** ** The stock *)

(** The first pair with a key: [find] without its default. *)
Fixpoint get (m : Map) (k : string) : option Z :=
  match m with
  | [] => None
  | (k', v) :: m => if decide (k' = k) then Some v else get m k
  end.

Lemma find_get m k : find m k = default (-1) (get m k).
Proof. induction m as [|[k' v] m IH]; simpl; [done|]. by case_decide. Qed.

Lemma get_None m k : get m k = None <-> k ∉ m.*1.
Proof.
  induction m as [|[k' v] m IH]; simpl; [set_solver|]. case_decide; set_solver.
Qed.

Lemma get_elem m k v : NoDup m.*1 -> (k, v) ∈ m <-> get m k = Some v.
Proof.
  induction m as [|[k' v'] m IH]; simpl; intros Hnd; [split; [intros []%elem_of_nil|done]|].
  apply NoDup_cons in Hnd as [Hk Hnd]. rewrite elem_of_cons. case_decide as Hd.
  - subst. split; [intros [[= ->]|Hin]; [done|]|intros [= ->]; by left].
    destruct Hk. apply list_elem_of_fmap. by exists (k, v).
  - rewrite <- IH by done. split; [intros [[= -> ->]|]; done|by right].
Qed.

Lemma get_app m m' k : get (m ++ m') k = match get m k with Some v => Some v | None => get m' k end.
Proof. induction m as [|[k' v] m IH]; simpl; [done|]. by case_decide. Qed.

Lemma get_update_all m k v k' :
  get (update_all k v m) k' = if decide (k' = k) then (fun _ => v) <$> get m k else get m k'.
Proof.
  unfold update_all. induction m as [|[k1 v1] m IH]; simpl; [by case_decide|].
  repeat (case_decide; simplify_eq/=; try done).
Qed.

Lemma keys_update_all m k v : (update_all k v m).*1 = m.*1.
Proof.
  unfold update_all. rewrite <- list_fmap_compose. apply list_fmap_ext.
  intros i [k1 v1] _. simpl. by case_decide.
Qed.

(** Storing under a key that is there, or while there is room. *)
Lemma get_insert m k v k' :
  k ∈ m.*1 \/ (length m < MAX_SIZE)%nat ->
  get (insert k v m) k' = if decide (k' = k) then Some v else get m k'.
Proof.
  intros Hk. unfold insert.
  assert (length (update_all k v m) = length m) as Hlen by apply length_fmap.
  assert (get (update_all k v m ++ [(k, v)]) k' = if decide (k' = k) then Some v else get m k') as Happ.
  { rewrite get_app, get_update_all. simpl. repeat case_decide; simplify_eq; try done;
      match goal with |- context [get m ?q] => by destruct (get m q) end. }
  rewrite Hlen. destruct (decide (length m < MAX_SIZE)%nat); [done|]. destruct Hk as [Hk|]; [|lia].
  rewrite get_update_all. case_decide; [|done].
  destruct (get m k) eqn:Hg; [done|]. by apply get_None in Hg.
Qed.

(** ** The toppings of one order *)

Definition count (t : string) (l : list string) : Z := Z.of_nat (length (filter (eq t) l)).

Definition count_all (l : list string) : Map :=
  fold_left (fun m t => (insertOrUpdateTopping m t).1) l initializeTOPM.

Lemma bump_spec m k :
  match bump k m with
  | Some m' => exists v, get m k = Some v /\ m'.*1 = m.*1 /\
      forall k', get m' k' = if decide (k' = k) then Some (v + 1) else get m k'
  | None => get m k = None
  end.
Proof.
  induction m as [|[k1 v1] m IH]; simpl; [done|]. case_decide as Hd; simpl.
  - subst. exists v1. split_and!; [done..|]. intros k'. repeat case_decide; congruence.
  - destruct (bump k m) as [m'|]; simpl; [|done]. destruct IH as (v & Hv & Hk & Hg).
    exists v. split_and!; [done|by apply (f_equal (cons k1))|]. intros k'. rewrite Hg.
    repeat case_decide; congruence.
Qed.

Lemma count_snoc t u l : count t (l ++ [u]) = count t l + b2z (bool_decide (t = u)).
Proof.
  unfold count. rewrite filter_app, length_app. simpl. rewrite filter_cons, filter_nil.
  case_decide; [rewrite bool_decide_true by done|rewrite bool_decide_false by done]; simpl; lia.
Qed.

Lemma count_pos t l : t ∈ l <-> 0 < count t l.
Proof.
  unfold count. split.
  - intros Ht. assert (t ∈ filter (eq t) l) as Hf by (by apply list_elem_of_filter).
    destruct (filter (eq t) l); [by apply elem_of_nil in Hf|simpl; lia].
  - intros Hl. destruct (filter (eq t) l) as [|u f] eqn:Hf; [simpl in Hl; lia|].
    assert (u ∈ filter (eq t) l) as Hu by (rewrite Hf; set_solver).
    apply list_elem_of_filter in Hu as [-> ?]. done.
Qed.

(** With room for the different toppings of the order [L], each is counted. *)
Lemma count_all_spec L l :
  (length (remove_dups L) <= MAX_SIZE)%nat -> (forall t, t ∈ l -> t ∈ L) ->
  NoDup (count_all l).*1 /\
  forall t, get (count_all l) t = if decide (t ∈ l) then Some (count t l) else None.
Proof.
  intros Hlen. induction l as [|u l IH] using rev_ind; intros Hin.
  { split; [constructor|]. intros t. case_decide as Ht; [by apply elem_of_nil in Ht|done]. }
  destruct IH as [Hnd Hg]; [intros; apply Hin; set_solver|].
  assert (forall t, t ∈ (count_all l).*1 -> t ∈ l) as Hkeys.
  { intros t Ht. apply dec_stable. intros Hn. revert Ht. apply get_None. by rewrite Hg, decide_False. }
  unfold count_all. rewrite fold_left_app. simpl. fold (count_all l).
  unfold insertOrUpdateTopping. pose proof (bump_spec (count_all l) u) as Hb.
  destruct (bump u (count_all l)) as [m'|].
  - destruct Hb as (v & Hv & Hk & Hm'). simpl. rewrite Hk. split; [done|]. intros t.
    rewrite Hm', count_snoc. rewrite Hg in Hv. case_decide as Hu; [|done]. simplify_eq.
    case_decide; subst.
    + rewrite decide_True by set_solver. by rewrite bool_decide_true.
    + rewrite Hg, bool_decide_false by done. simpl.
      destruct (decide (t ∈ l)) as [Ht|Ht].
      * rewrite decide_True by (apply elem_of_app; by left). f_equal. lia.
      * rewrite decide_False; [done|]. rewrite elem_of_app, list_elem_of_singleton. tauto.
  - assert (u ∉ (count_all l).*1) as Hu by by apply get_None.
    rewrite decide_True; simpl.
    + rewrite fmap_app. split.
      { apply NoDup_app. split_and!; [done|set_solver|apply NoDup_singleton]. }
      intros t. rewrite get_app, count_snoc, Hg. rewrite Hg in Hb. simpl.
      case_decide as Hu'; [done|]. assert (~ 0 < count u l) as H0 by (by rewrite <- count_pos).
      destruct (decide (t ∈ l)) as [Ht|Ht]; [|destruct (decide (u = t)) as [<-|Hne]].
      * rewrite decide_True by (apply elem_of_app; by left).
        rewrite bool_decide_false by congruence. simpl. f_equal. lia.
      * rewrite decide_True by (apply elem_of_app; right; by apply list_elem_of_singleton).
        rewrite bool_decide_true by done. simpl. f_equal.
        assert (0 <= count u l) by (unfold count; lia). lia.
      * rewrite decide_False; [done|]. rewrite elem_of_app, list_elem_of_singleton.
        intros [?|?]; congruence.
    + assert (u :: (count_all l).*1 ⊆+ remove_dups L) as Hs%submseteq_length.
      { apply NoDup_submseteq; [by constructor|]. intros t Ht. apply elem_of_remove_dups.
        set_solver. }
      rewrite length_cons, length_fmap in Hs. lia.
Qed.

(** ** Taking the ingredients *)

Lemma enough_spec m tops :
  enough m tops = true <-> forall t v, (t, v) ∈ tops -> v <= find m t \/ find m t = -1.
Proof.
  induction tops as [|[t v] tops IH]; simpl.
  - split; [intros _ ? ? []%elem_of_nil|done].
  - split.
    + intros He t' v' [[= -> ->]|Ht]%elem_of_cons; repeat case_decide; try done; try tauto;
        by apply IH.
    + intros Hall. pose proof (Hall t v ltac:(set_solver)) as Htv.
      assert (enough m tops = true) as He by (apply IH; set_solver).
      repeat case_decide; tauto.
Qed.

Lemma take_spec tops m t :
  NoDup tops.*1 ->
  find (take_toppings m tops) t =
    match get tops t with
    | Some v => if decide (find m t = -1) then -1 else find m t - v
    | None => find m t
    end.
Proof.
  revert m. induction tops as [|[u v] tops IH]; intros m Hnd; [done|].
  apply NoDup_cons in Hnd as [Hu%get_None Hnd]. simpl in *. case_decide as Hinf.
  - rewrite IH by done. destruct (decide (u = t)) as [->|Hne]; [|done].
    rewrite Hu. by rewrite decide_True.
  - rewrite IH by done.
    assert (forall t', find (insert u (find m u - v) m) t' =
      if decide (t' = u) then find m u - v else find m t') as Hf.
    { intros t'. rewrite find_get, get_insert.
      - case_decide; [done|]. by rewrite find_get.
      - left. apply dec_stable. intros Hn. apply Hinf. apply get_None in Hn.
        by rewrite find_get, Hn. }
    rewrite !Hf. destruct (decide (u = t)) as [->|Hne].
    + by rewrite Hu, decide_True, decide_False.
    + by rewrite decide_False by congruence.
Qed.

(** The ingredients of an order are taken as a whole.  With at most 200
    different toppings, the test passes exactly if the stock has, for each
    topping, as many as the order's ice creams ask for (or never runs out of
    it), and then each limited topping loses that many and stays
    non-negative, and nothing else changes. *)
Theorem ingredients_taken stock l :
  (length (remove_dups l) <= MAX_SIZE)%nat ->
  (enough stock (count_all l) = true <->
     forall t, t ∈ l -> count t l <= find stock t \/ find stock t = -1) /\
  (enough stock (count_all l) = true -> forall t,
     let left := find (take_toppings stock (count_all l)) t in
     left = (if decide (find stock t = -1) then -1 else find stock t - count t l) /\
     (0 <= find stock t -> 0 <= left)).
Proof.
  intros Hlen. destruct (count_all_spec l l Hlen) as [Hnd Hg]; [done|].
  assert (enough stock (count_all l) = true <->
    forall t, t ∈ l -> count t l <= find stock t \/ find stock t = -1) as Hen.
  { rewrite enough_spec. split.
    - intros Hall t Ht. apply (Hall t (count t l)), get_elem; [done|].
      by rewrite Hg, decide_True.
    - intros Hall t v Htv%get_elem; [|done]. rewrite Hg in Htv. case_decide; simplify_eq. auto. }
  split; [done|]. intros He t left. subst left. rewrite (take_spec _ _ _ Hnd), Hg.
  assert (0 <= count t l) by (unfold count; lia).
  case_decide as Ht.
  - destruct (proj1 Hen He t Ht); case_decide; split; lia.
  - assert (count t l = 0) as -> by (rewrite count_pos in Ht; lia). case_decide; split; lia.
Qed.

(** Two ice creams; one topping never ends, one runs low. *)
Lemma ingredients_taken_witness :
  let stock := [("vanilla", 3); ("caramel", -1); ("brownie", 4)] in
  let l := ["caramel"; "brownie"; "brownie"] in
  find (take_toppings stock (count_all l)) "brownie" = 2 /\
  (enough stock (count_all l) = true <->
     forall t, t ∈ l -> count t l <= find stock t \/ find stock t = -1).
Proof.
  split; [reflexivity|]. apply (ingredients_taken _ ["caramel"; "brownie"; "brownie"]).
  vm_compute. repeat constructor.
Defined.

(** ** Machines *)

(** C37: A machine makes one ice cream at a time: whenever two different ice
    creams have taken a machine and not released it, the machines are
    different and are among those of the parlour. *)
Theorem machine_exclusive x k z z' c c' :
  steps x (initial x) k ->
  ices k !! z = Some c -> ices k !! z' = Some c' -> z <> z' ->
  making c = true -> making c' = true ->
  got c <> got c' /\ 0 <= got c < Z.of_nat (length (mac x)).
Proof.
  intros Hr Hc Hc' Hne Hm Hm'. pose proof (steps_machine_inv x k Hr) as Hi. split.
  - by apply (machine_of_one x k z z').
  - by apply (ok_got _ _ _ (inv_ice x k Hi z c Hc)).
Qed.

(** ** Runs of a small parlour *)

Definition after (x : input) (ts : list tid) : parlor :=
  default (initial x) (run x ts (initial x)).

Lemma parlor_after_steps x ts : steps x (initial x) (after x ts).
Proof. unfold after. destruct (run _ _ _) eqn:Hr; simpl; [by eapply parlor_run_steps|constructor]. Qed.

(** Both ice creams of two customers have a machine. *)
Definition large : input :=
  Input [Machine 0 9; Machine 0 9] 2 [("vanilla", 2)] [("brownie", 4)]
    [Customer 1 0 [Order "vanilla" []]; Customer 2 0 [Order "vanilla" []]].

Definition ice_at (k : parlor) (z : nat) : ice := default (Ice QReturned 0 0) (ices k !! z).

(** A customer that enters with one ice cream without toppings, up to the wait. *)
Definition enters (j : nat) : list tid := replicate 26 (Arrival j).

Definition making2 : parlor :=
  after large (replicate 3 Counter ++ enters 0 ++ enters 1 ++ replicate 12 (Qu 0) ++ replicate 16 (Qu 1)).

Lemma machine_exclusive_witness :
  got (ice_at making2 0) <> got (ice_at making2 1) /\ 0 <= got (ice_at making2 0) < 2.
Proof.
  apply (machine_exclusive large making2 0 1); [apply parlor_after_steps|vm_compute; reflexivity..|lia| |];
    vm_compute; reflexivity.
Defined.

(** ** Capacity *)

(** The customer has entered and not left. *)
Definition inside (c : cust) : bool :=
  match apc_of c with
  | EnterOrders | EnterIce _ | EnterUnlock
  | CountFor _ | CountLock _ _ | CountTop _ _ | CountUnlock _
  | StockLock | StockTest | StockTake | StockGive | StockUnlock | StockCast
  | InLock | InCindR | InCindW _ | InTest | InWoken | InSpawnR | InSpawnW _ | InUnlock => true
  | _ => false
  end.

(** Room for one customer, and two who come at second 0. *)
Definition small : input :=
  Input [Machine 0 9; Machine 0 9] 1 [("vanilla", 2)] [("brownie", 4)]
    [Customer 1 0 [Order "vanilla" ["brownie"]]; Customer 2 0 [Order "vanilla" []]].

(** Both pass the test of the capacity before either counts itself in [cind]. *)
Definition crowded : parlor :=
  after small (replicate 3 Counter ++ replicate 9 (Arrival 0) ++ replicate 9 (Arrival 1) ++
                 replicate 6 (Arrival 0) ++ replicate 6 (Arrival 1)).

(** The capacity is not kept: the test of [cind] against [spawned] and the
    increment of [cind] are in different critical sections, and a parlour with
    room for one customer can have both its customers inside, each told
    to enter and neither turned away. *)
Theorem capacity_exceeded :
  exists x k, capacity x = 1 /\ steps x (initial x) k /\
    Z.of_nat (length (filter (fun c => inside c) (custs k))) = 2 /\
    (Arrival 0, Enters 1 0) ∈ out (the_shop k) /\ (Arrival 1, Enters 2 0) ∈ out (the_shop k).
Proof.
  exists small, crowded. split; [done|]. split; [apply parlor_after_steps|].
  split; [vm_compute; reflexivity|].
  assert (out (the_shop crowded) =
    [(Arrival 0, Enters 1 0); (Arrival 0, OrdersN 1 1); (Arrival 0, IceCream 1 "vanilla" ["brownie"]);
     (Arrival 1, Enters 2 0); (Arrival 1, OrdersN 2 1); (Arrival 1, IceCream 1 "vanilla" [])])
    as -> by (vm_compute; reflexivity).
  set_solver.
Qed.
