(* ===== verification/Ulib.v ===== *)
(** The user library (user/ulib.c) on byte arrays.

    A pointer into a string or an array is the list of the bytes from there on;
    a string ends at its NUL, and a loop that runs off the end of the list is
    undefined.  Characters are bytes 0..255: [char] is unsigned on RISC-V. *)

From S2P Require Import Prelude Mem Riscv Locks Kalloc Vm Proc Kernel Bytes.

(** The array at [s] after the copy. *)
Fixpoint strcpy (s t : list Z) : option (list Z) :=
  match t, s with
  | c :: t', _ :: s' => if c =? 0 then Some (0 :: s') else (c ::.) <$> strcpy s' t'
  | _, _ => None
  end.

Fixpoint strcmp (p q : list Z) : option Z :=
  match p, q with
  | a :: p', b :: q' => if negb (a =? 0) && (a =? b) then strcmp p' q' else Some (u8 a - u8 b)
  | _, _ => None
  end.

Fixpoint strlen (s : list Z) : option Z :=
  match s with
  | [] => None
  | c :: r => if c =? 0 then Some 0 else Z.succ <$> strlen r
  end.

(** The distance to the first [c], or [Some None] for the null pointer. *)
Fixpoint strchr (s : list Z) (c : Z) : option (option Z) :=
  match s with
  | [] => None
  | b :: r =>
      if b =? 0 then Some None
      else if b =? c then Some (Some 0)
      else option_map (option_map Z.succ) (strchr r c)
  end.

(** [for(i = 0; i < n; i++) cdst[i] = c]. *)
Fixpoint memset (dst : list Z) (c : Z) (n : nat) : option (list Z) :=
  match n, dst with
  | O, _ => Some dst
  | Datatypes.S k, _ :: r => (u8 c ::.) <$> memset r c k
  | _, [] => None
  end.

(** The int [n] is taken to wrap around; C leaves its overflow undefined. *)
Fixpoint atoi_from (n : Z) (s : list Z) : option Z :=
  match s with
  | [] => None
  | c :: r => if (chr "0" <=? c) && (c <=? chr "9") then atoi_from (i32 (n * 10 + c - chr "0")) r else Some n
  end.
Definition atoi (s : list Z) : option Z := atoi_from 0 s.

(** memmove() inside one array, from offset [src] to [dst]: the loops of the
    code, upwards when [src > dst] and downwards otherwise. *)
Fixpoint move_up (n : nat) (dst src : Z) (a : list Z) : option (list Z) :=
  match n with
  | O => Some a
  | Datatypes.S k =>
      match geti a src with
      | Some b => if decide (0 <= dst < Z.of_nat (length a)) then move_up k (dst + 1) (src + 1) (seti dst b a) else None
      | None => None
      end
  end.

Fixpoint move_down (n : nat) (dst src : Z) (a : list Z) : option (list Z) :=
  match n with
  | O => Some a
  | Datatypes.S k =>
      match geti a (src + Z.of_nat k) with
      | Some b =>
          if decide (0 <= dst + Z.of_nat k < Z.of_nat (length a)) then move_down k dst src (seti (dst + Z.of_nat k) b a)
          else None
      | None => None
      end
  end.

Definition memmove (dst src n : Z) (a : list Z) : option (list Z) :=
  if src >? dst then move_up (Z.to_nat n) dst src a else move_down (Z.to_nat n) dst src a.

Fixpoint memcmp (p q : list Z) (n : nat) : option Z :=
  match n with
  | O => Some 0
  | Datatypes.S k =>
      match p, q with
      | a :: p', b :: q' => if negb (a =? b) then Some (a - b) else memcmp p' q' k
      | _, _ => None
      end
  end.

Definition memcpy : Z -> Z -> Z -> list Z -> option (list Z) := memmove.

(** ** A program and its system calls

    [uproc] is what a program sees of the system: its buffer, the input of its
    file descriptor, how many bytes each read() delivers ([u_pace]: at least one,
    unless the input is at its end or none are asked for), the output, and the
    files it can open. *)

Record uproc := UProc {
  u_buf : list Z;
  u_in : list Z;
  u_pace : list nat;
  u_out : list Z;
  u_files : gmap (list Z) (list Z);
}.

(** read(fd, p, n): the bytes delivered. *)
Definition read (n : Z) : M uproc (list Z) := fun s =>
  let k := Nat.min (Z.to_nat n) (Datatypes.S (default O (head (u_pace s)))) in
  Done (take k (u_in s)) (s {{ u_in := drop k (u_in s); u_pace := tail (u_pace s) }}).

Definition write (bs : list Z) : M uproc unit := modify (fun s => s {{ u_out ::= fun o => o ++ bs }}).

(** A library function on arrays; running off an array is undefined. *)
Definition lib {A} (r : option A) : M uproc A :=
  match r with Some a => ret a | None => undef "out of bounds" end.

(** [buf[i] = c]. *)
Definition setc (i c : Z) : M uproc unit :=
  b <- gets u_buf;;
  if (0 <=? i) && (i <? Z.of_nat (length b)) then modify (fun s => s {{ u_buf ::= seti i c }})
  else undef "buf[]".

(** The loop of gets(), which reads byte by byte until a newline or a carriage
    return, and ends the string. *)
Definition gets_line (max : Z) : M uproc unit :=
  i <- loop (Datatypes.S (Z.to_nat max))
    (fun i =>
       if i + 1 <? max then
         d <- read 1;;
         match d with
         | [] => break i
         | c :: _ =>
             setc i c;;;
             if (c =? 10) || (c =? 13) then break (i + 1) else continue (i + 1)
         end
       else break i) 0;;
  setc i 0.

(** ** What they compute *)

Lemma strlen_cstr s : 0 ∈ s -> strlen s = Some (Z.of_nat (length (cstr s))).
Proof.
  induction s as [|c s IH]; intros Hin; [by apply elem_of_nil in Hin|]. simpl.
  destruct (Z.eqb_spec c 0) as [->|Hc]; [done|].
  apply elem_of_cons in Hin as [?|Hin]; [congruence|]. rewrite (IH Hin). simpl. f_equal. lia.
Qed.

Lemma cstr_until a r : 0 ∉ a -> cstr (a ++ 0 :: r) = a.
Proof.
  induction a as [|c a IH]; intros Hn; [done|]. apply not_elem_of_cons in Hn as [Hc Hn]. simpl.
  rewrite (proj2 (Z.eqb_neq c 0)) by congruence. by rewrite (IH Hn).
Qed.

(** strchr() of a character in the string splits it there. *)
Lemma strchr_split s c k :
  strchr s c = Some (Some k) ->
  exists a r, s = a ++ c :: r /\ Z.of_nat (length a) = k /\ (0 ∉ a) /\ (c ∉ a) /\ c <> 0.
Proof.
  revert k. induction s as [|b s IH]; intros k; simpl; [done|].
  destruct (Z.eqb_spec b 0) as [->|Hb]; [done|]. destruct (Z.eqb_spec b c) as [->|Hc].
  - intros [= <-]. exists [], s. split_and!; try done; apply not_elem_of_nil.
  - destruct (strchr s c) as [[j|]|] eqn:Hs; try done. intros [= <-].
    destruct (IH j eq_refl) as (a & r & -> & Hl & H0 & Hca & Hc0). exists (b :: a), r.
    split_and!; [done|simpl; lia| | |done]; apply not_elem_of_cons; split; auto.
Qed.

Lemma strchr_here a c r : 0 ∉ a -> c ∉ a -> c <> 0 -> strchr (a ++ c :: r) c = Some (Some (Z.of_nat (length a))).
Proof.
  intros H0 Hc Hc0. induction a as [|b a IH]; simpl.
  - rewrite (proj2 (Z.eqb_neq _ _) Hc0). by rewrite Z.eqb_refl.
  - apply not_elem_of_cons in H0 as [Hb0 H0], Hc as [Hbc Hc].
    rewrite (proj2 (Z.eqb_neq b 0)), (proj2 (Z.eqb_neq b c)), (IH H0 Hc) by congruence. simpl. do 2 f_equal. lia.
Qed.

Lemma strchr_none a c r : 0 ∉ a -> c ∉ a -> strchr (a ++ 0 :: r) c = Some None.
Proof.
  intros H0 Hc. induction a as [|b a IH]; simpl; [done|].
  apply not_elem_of_cons in H0 as [Hb0 H0], Hc as [Hbc Hc].
  by rewrite (proj2 (Z.eqb_neq b 0)), (proj2 (Z.eqb_neq b c)), (IH H0 Hc) by congruence.
Qed.

Lemma digits_grow ds n : 0 <= n -> Forall (fun d => 0 <= d <= 9) ds -> n <= foldl (fun n d => n * 10 + d) n ds.
Proof.
  intros Hn Hd. revert n Hn. induction Hd as [|d ds Hd _ IH]; intros n Hn; simpl; [lia|].
  transitivity (n * 10 + d); [lia|apply IH; lia].
Qed.

(** atoi() of decimal digits whose number is an int. *)
Lemma atoi_digits ds r c :
  Forall (fun d => 0 <= d <= 9) ds -> ~ (chr "0" <= c <= chr "9") -> foldl (fun n d => n * 10 + d) 0 ds < 2 ^ 31 ->
  atoi (((fun d => d + chr "0") <$> ds) ++ c :: r) = Some (foldl (fun n d => n * 10 + d) 0 ds).
Proof.
  unfold atoi. intros Hd Hc.
  enough (forall n0, 0 <= n0 -> foldl (fun n d => n * 10 + d) n0 ds < 2 ^ 31 ->
    atoi_from n0 (((fun d => d + chr "0") <$> ds) ++ c :: r) = Some (foldl (fun n d => n * 10 + d) n0 ds)) as Hg by (by apply Hg).
  change (chr "0") with 48 in *. change (chr "9") with 57 in *.
  induction Hd as [|d ds Hd Hds IH]; intros n0 Hn Hb; simpl; change (chr "0") with 48; change (chr "9") with 57.
  - destruct (Z.leb_spec 48 c), (Z.leb_spec c 57); simpl; try done. lia.
  - rewrite (proj2 (Z.leb_le _ _)), (proj2 (Z.leb_le _ _)) by lia. simpl in Hb |- *.
    assert (Hlt : n0 * 10 + d < 2 ^ 31).
    { eapply Z.le_lt_trans; [apply (digits_grow ds); [lia|exact Hds]|exact Hb]. }
    replace (n0 * 10 + (d + 48) - 48) with (n0 * 10 + d) by lia. rewrite i32_small by lia. apply IH; [lia|done].
Qed.

(** memmove() of overlapping regions: the bytes as they were before. *)
Lemma seti_lookup {A} (l : list A) i x (j : nat) :
  0 <= i < Z.of_nat (length l) -> seti i x l !! j = if decide (Z.of_nat j = i) then Some x else l !! j.
Proof.
  intros Hi. unfold seti. rewrite (proj2 (Z.leb_le _ _)) by lia. case_decide as Hj.
  - replace (Z.to_nat i) with j by lia. apply list_lookup_insert_eq. lia.
  - apply list_lookup_insert_ne. lia.
Qed.

Lemma geti_at {A} (l : list A) i : 0 <= i < Z.of_nat (length l) -> exists x, geti l i = Some x /\ l !! Z.to_nat i = Some x.
Proof.
  intros Hi. unfold geti. rewrite (proj2 (Z.leb_le _ _)) by lia.
  destruct (lookup_lt_is_Some_2 l (Z.to_nat i)) as [x Hx]; [lia|]. by exists x.
Qed.

Definition moved (dst src : Z) (n : nat) (a r : list Z) : Prop :=
  length r = length a /\ forall j : nat, r !! j =
    if decide (dst <= Z.of_nat j < dst + Z.of_nat n) then a !! Z.to_nat (Z.of_nat j - dst + src) else a !! j.

Lemma move_up_spec n : forall dst src a,
  0 <= dst < src -> src + Z.of_nat n <= Z.of_nat (length a) ->
  exists r, move_up n dst src a = Some r /\ moved dst src n a r.
Proof.
  induction n as [|n IH]; intros dst src a Hd Hs.
  - exists a. split; [done|]. split; [done|]. intros j. by rewrite decide_False by lia.
  - cbn [move_up]. destruct (geti_at a src) as (b & -> & Hb); [lia|]. rewrite decide_True by lia.
    destruct (IH (dst + 1) (src + 1) (seti dst b a)) as (r & E & Hl & Hr); [lia|rewrite length_seti; lia|].
    rewrite length_seti in Hl. exists r. split; [done|]. split; [done|]. intros j. rewrite Hr.
    rewrite !seti_lookup by lia. destruct (decide (Z.of_nat j = dst)) as [Hj|Hj].
    + rewrite decide_False, decide_True by lia. rewrite <- Hb. f_equal. lia.
    + destruct (decide (dst + 1 <= Z.of_nat j < dst + 1 + Z.of_nat n)) as [Hin|Hin].
      * rewrite decide_False, decide_True by lia. f_equal. lia.
      * by rewrite decide_False by lia.
Qed.

Lemma move_down_spec n : forall dst src a,
  0 <= src <= dst -> dst + Z.of_nat n <= Z.of_nat (length a) ->
  exists r, move_down n dst src a = Some r /\ moved dst src n a r.
Proof.
  induction n as [|n IH]; intros dst src a Hd Hs.
  - exists a. split; [done|]. split; [done|]. intros j. by rewrite decide_False by lia.
  - cbn [move_down]. destruct (geti_at a (src + Z.of_nat n)) as (b & -> & Hb); [lia|]. rewrite decide_True by lia.
    destruct (IH dst src (seti (dst + Z.of_nat n) b a)) as (r & E & Hl & Hr); [lia|rewrite length_seti; lia|].
    rewrite length_seti in Hl. exists r. split; [done|]. split; [done|]. intros j. rewrite Hr.
    rewrite !seti_lookup by lia. destruct (decide (Z.of_nat j = dst + Z.of_nat n)) as [Hj|Hj].
    + rewrite decide_False, decide_True by lia. rewrite <- Hb. f_equal. lia.
    + destruct (decide (dst <= Z.of_nat j < dst + Z.of_nat n)) as [Hin|Hin].
      * rewrite decide_False, decide_True by lia. done.
      * by rewrite decide_False by lia.
Qed.

Lemma memmove_splice dst src n a :
  0 <= dst -> 0 <= src -> 0 <= n -> dst + n <= Z.of_nat (length a) -> src + n <= Z.of_nat (length a) ->
  memmove dst src n a = Some (splice dst (take (Z.to_nat n) (drop (Z.to_nat src) a)) a).
Proof.
  intros Hd Hs Hn Hdl Hsl. unfold memmove.
  assert (exists r, (if src >? dst then move_up (Z.to_nat n) dst src a else move_down (Z.to_nat n) dst src a) = Some r
    /\ moved dst src (Z.to_nat n) a r) as (r & -> & Hl & Hr).
  { destruct (src >? dst) eqn:Hc; rewrite Z.gtb_ltb in Hc.
    - apply Z.ltb_lt in Hc. apply move_up_spec; lia.
    - apply Z.ltb_ge in Hc. apply move_down_spec; lia. }
  f_equal. apply list_eq. intros j. rewrite Hr, splice_lookup; [|done|rewrite length_take, length_drop; lia].
  rewrite length_take, length_drop. case_decide as Hj.
  - rewrite decide_True by lia. rewrite lookup_take_lt, lookup_drop by lia. f_equal. lia.
  - by rewrite decide_False by lia.
Qed.
