(* ===== verification/UPrintf.v ===== *)
(** The user programs' printf (user/printf.c): what it writes, byte by byte, to the
    file descriptor, and that a printed integer reads back.

    The state is what has been written so far: each write() call of putc() adds its
    descriptor and its byte.  What write() returns is not looked at by the code. *)

From S2P Require Import Prelude Mem Riscv Locks Kalloc Vm Proc ProcFacts Kernel KernelFacts Bytes Ulib.

Definition written : Type := list (Z * Z).

(** The variadic arguments; va_arg() of one that is missing or of another kind is undefined. *)
Inductive arg := Num (x : Z) | Text (s : option (list Z)).

Definition digits : list Z := str "0123456789ABCDEF".

Definition putc (fd c : Z) : M written unit := modify (fun o => o ++ [(fd, u8 c)]).

(** [buf[i++] = c] into [char buf[16]]; [buf] is its first [i] bytes. *)
Definition push (c : Z) (buf : list Z) : M written (list Z) :=
  if (length buf <? 16)%nat then ret (buf ++ [c]) else undef "buf[]".

Fixpoint puts (fd : Z) (cs : list Z) : M written unit :=
  match cs with
  | [] => ret tt
  | c :: cs => putc fd c;;; puts fd cs
  end.

(** [-xx] of the least integer wraps, as with gcc. *)
Definition printint (fd xx base : Z) (sgn : bool) : M written unit :=
  let neg := sgn && (xx <? 0) in
  let x := if neg then u32 (- xx) else u32 xx in
  buf <- loop 32 (fun '(x, buf) =>
    buf <- push (default 0 (geti digits (x mod base))) buf;;
    let x := x / base in
    if negb (x =? 0) then continue (x, buf) else break buf) (x, []);;
  buf <- (if neg then push (chr "-") buf else ret buf);;
  puts fd (rev buf).

Definition printptr (fd x : Z) : M written unit :=
  putc fd (chr "0");;;
  putc fd (chr "x");;;
  loop 17 (fun '(i, x) =>
    if i <? 8 * 2 then
      putc fd (default 0 (geti digits (Z.shiftr x (8 * 8 - 4))));;;
      continue (i + 1, u64 (Z.shiftl x 4))
    else break tt) (0, u64 x).

(** va_arg() *)
Definition va_num (ap : list arg) : M written (Z * list arg) :=
  match ap with Num x :: ap => ret (x, ap) | _ => undef "va_arg" end.
Definition va_text (ap : list arg) : M written (option (list Z) * list arg) :=
  match ap with Text s :: ap => ret (s, ap) | _ => undef "va_arg" end.

(** The loop over the format, whose bytes before the NUL are [fmt]; [percent] is
    whether [state] is a percent sign. *)
Fixpoint vprintf_from (fd : Z) (fmt : list Z) (percent : bool) (ap : list arg) : M written unit :=
  match fmt with
  | [] => ret tt
  | b :: fmt =>
      let c := Z.land b 0xff in
      if negb percent then
        if c =? chr "%" then vprintf_from fd fmt true ap
        else putc fd c;;; vprintf_from fd fmt false ap
      else
        ap <- (if c =? chr "d" then
                 a <- va_num ap;; printint fd (i32 a.1) 10 true;;; ret a.2
               else if c =? chr "l" then
                 a <- va_num ap;; printint fd (i32 (u64 a.1)) 10 false;;; ret a.2
               else if c =? chr "x" then
                 a <- va_num ap;; printint fd (i32 a.1) 16 false;;; ret a.2
               else if c =? chr "p" then
                 a <- va_num ap;; printptr fd (u64 a.1);;; ret a.2
               else if c =? chr "s" then
                 a <- va_text ap;;
                 puts fd (match a.1 with Some s => s | None => str "(null)" end);;; ret a.2
               else if c =? chr "c" then
                 a <- va_num ap;; putc fd (u32 a.1);;; ret a.2
               else if c =? chr "%" then
                 putc fd c;;; ret ap
               else
                 putc fd (chr "%");;; putc fd c;;; ret ap);;
        vprintf_from fd fmt false ap
  end.

Definition vprintf (fd : Z) (fmt : list Z) (ap : list arg) : M written unit := vprintf_from fd fmt false ap.
Definition fprintf (fd : Z) (fmt : list Z) (ap : list arg) : M written unit := vprintf fd fmt ap.
Definition printf (fmt : list Z) (ap : list arg) : M written unit := vprintf 1 fmt ap.

(** ** Numerals *)

(** The digits of [x], least significant first. *)
Fixpoint rdigits (n : nat) (base x : Z) : list Z :=
  match n with
  | O => []
  | Datatypes.S n => x mod base :: if x / base =? 0 then [] else rdigits n base (x / base)
  end.

(** The digits of a 32-bit number, and its characters. *)
Definition numeral (base x : Z) : list Z := rev (rdigits 32 base x).
Definition digit_char (d : Z) : Z := default 0 (geti digits d).
Definition value (base : Z) (ds : list Z) : Z := foldl (fun v d => v * base + d) 0 ds.

Lemma value_snoc base ds d : value base (ds ++ [d]) = value base ds * base + d.
Proof. unfold value. by rewrite foldl_app. Qed.

Lemma rdigits_value n base : 2 <= base -> forall x, 0 <= x < base ^ Z.of_nat n -> value base (rev (rdigits n base x)) = x.
Proof.
  intros Hb. induction n as [|n IH]; intros x Hx; cbn [rdigits].
  - change (base ^ Z.of_nat 0) with 1 in Hx. unfold value. cbn. lia.
  - rewrite Nat2Z.inj_succ, Z.pow_succ_r in Hx by lia. cbn [rev]. rewrite value_snoc.
    pose proof (Z.div_mod x base ltac:(lia)) as Hdm. destruct (Z.eqb_spec (x / base) 0) as [E|E].
    + unfold value. cbn. lia.
    + rewrite IH; [lia|]. split; [apply Z.div_pos; lia|apply Z.div_lt_upper_bound; lia].
Qed.

Lemma rdigits_range n base x : 2 <= base -> Forall (fun d => 0 <= d < base) (rdigits n base x).
Proof.
  intros Hb. revert x. induction n as [|n IH]; intros x; cbn [rdigits]; constructor.
  - apply Z.mod_pos_bound. lia.
  - by case_match.
Qed.

Lemma rdigits_length n base k : 2 <= base -> forall x, 0 <= x < base ^ Z.of_nat k -> (1 <= k)%nat -> (length (rdigits n base x) <= k)%nat.
Proof.
  intros Hb. revert k. induction n as [|n IH]; intros k x Hx Hk; cbn [rdigits length]; [lia|].
  destruct k as [|k]; [lia|]. rewrite Nat2Z.inj_succ, Z.pow_succ_r in Hx by lia.
  destruct (Z.eqb_spec (x / base) 0) as [E|E]; cbn [length]; [lia|]. apply le_n_S, IH.
  - split; [apply Z.div_pos; lia|apply Z.div_lt_upper_bound; lia].
  - destruct k; [|lia]. change (base * base ^ Z.of_nat 0) with (base * 1) in Hx. rewrite Z.div_small in E by lia. done.
Qed.

(** No leading zero. *)
Lemma rdigits_last n base x : 2 <= base -> 0 < x < base ^ Z.of_nat n -> exists d, last (rdigits n base x) = Some d /\ d <> 0.
Proof.
  intros Hb. revert x. induction n as [|n IH]; intros x Hx; cbn [rdigits].
  - change (base ^ Z.of_nat 0) with 1 in Hx. lia.
  - rewrite Nat2Z.inj_succ, Z.pow_succ_r in Hx by lia. pose proof (Z.div_mod x base ltac:(lia)) as Hdm.
    destruct (Z.eqb_spec (x / base) 0) as [E|E].
    + exists (x mod base). split; [done|]. lia.
    + pose proof (Z.div_pos x base ltac:(lia) ltac:(lia)).
      destruct (IH (x / base)) as (d & Hd & H0); [split; [lia|apply Z.div_lt_upper_bound; lia]|].
      exists d. split; [|done]. destruct (rdigits n base (x / base)) as [|y l]; [done|]. by rewrite last_cons_cons.
Qed.

Lemma fmap_rev {A B} (f : A -> B) l : f <$> rev l = rev (f <$> l).
Proof. induction l as [|x l IH]; [done|]. cbn [rev]. rewrite fmap_app, IH. done. Qed.

(** ** What the functions write *)

Definition out (fd : Z) (cs : list Z) : written := (fun c => (fd, u8 c)) <$> cs.

Lemma out_app fd a b : out fd (a ++ b) = out fd a ++ out fd b.
Proof. apply fmap_app. Qed.

Lemma putc_eq fd c o : putc fd c o = Done tt (o ++ out fd [c]).
Proof. done. Qed.

Lemma puts_eq fd cs : forall o, puts fd cs o = Done tt (o ++ out fd cs).
Proof.
  induction cs as [|c cs IH]; intros o; cbn [puts].
  - unfold out. cbn. by rewrite app_nil_r.
  - rewrite (bind_done _ _ _ _ _ (putc_eq fd c o)), IH, <- app_assoc. done.
Qed.

Lemma push_eq c buf o : (length buf < 16)%nat -> push c buf o = Done (buf ++ [c]) o.
Proof. intros H. unfold push. by rewrite (proj2 (Nat.ltb_lt _ _)). Qed.

Lemma digits_loop base : 2 <= base -> forall n x buf o,
  0 <= x < base ^ Z.of_nat n -> (length buf + length (rdigits n base x) <= 16)%nat -> (1 <= n)%nat ->
  loop n (fun '(x, buf) =>
    buf <- push (default 0 (geti digits (x mod base))) buf;;
    let x := x / base in
    if negb (x =? 0) then continue (x, buf) else break buf) (x, buf) o
  = Done (buf ++ (digit_char <$> rdigits n base x)) o.
Proof.
  intros Hb. induction n as [|n IH]; intros x buf o Hx Hl Hn; [lia|]. cbn [rdigits length] in *.
  rewrite Nat2Z.inj_succ, Z.pow_succ_r in Hx by lia. pose proof (Z.div_mod x base ltac:(lia)) as Hdm.
  pose proof (push_eq (digit_char (x mod base)) buf o ltac:(lia)) as Ep.
  destruct (Z.eqb_spec (x / base) 0) as [E|E]; cbn [length] in Hl.
  - apply loop_break. rewrite (bind_done _ _ _ _ _ Ep). cbv zeta. by rewrite (proj2 (Z.eqb_eq _ _) E).
  - destruct n as [|n].
    { change (base * base ^ Z.of_nat 0) with (base * 1) in Hx. rewrite Z.div_small in E by lia. done. }
    erewrite loop_continue.
    2: { rewrite (bind_done _ _ _ _ _ Ep). cbv zeta. by rewrite (proj2 (Z.eqb_neq _ _) E). }
    rewrite IH; [by rewrite <- app_assoc| |rewrite length_app; cbn [length]; lia|lia].
    split; [apply Z.div_pos; lia|apply Z.div_lt_upper_bound; lia].
Qed.

(** The characters of an integer. *)
Definition int_text (xx base : Z) (sgn : bool) : list Z :=
  let neg := sgn && (xx <? 0) in
  (if neg then [chr "-"] else []) ++ (digit_char <$> numeral base (if neg then u32 (- xx) else u32 xx)).

Lemma printint_eq fd xx base sgn o : 10 <= base <= 16 -> printint fd xx base sgn o = Done tt (o ++ out fd (int_text xx base sgn)).
Proof.
  intros Hb. unfold printint, int_text. set (neg := sgn && (xx <? 0)). set (x := if neg then u32 (- xx) else u32 xx).
  assert (Hx : 0 <= x < 2 ^ 32) by (unfold x; destruct neg; apply u32_range).
  assert (H10 : 2 ^ 32 <= base ^ Z.of_nat 10).
  { etrans; [|apply Z.pow_le_mono_l; split; [|apply Hb]; lia]. vm_compute. discriminate. }
  assert (Hlen : (length (rdigits 32 base x) <= 10)%nat) by (apply rdigits_length; lia).
  assert (H32 : base ^ Z.of_nat 10 <= base ^ Z.of_nat 32) by (apply Z.pow_le_mono_r; lia).
  assert (Hx32 : 0 <= x < base ^ Z.of_nat 32) by lia. clear H32 H10.
  assert (Hcap : (length (@nil Z) + length (rdigits 32 base x) <= 16)%nat) by (change (length (@nil Z)) with 0%nat; lia).
  pose proof (digits_loop base ltac:(lia) 32 x [] o Hx32 Hcap ltac:(lia)) as E.
  rewrite (bind_done _ _ _ _ _ E).
  cbn [app]. unfold numeral. destruct neg.
  - erewrite bind_done by (apply push_eq; rewrite length_fmap; lia).
    rewrite puts_eq, rev_app_distr. cbn [rev app]. by rewrite fmap_rev.
  - erewrite bind_done by done. rewrite puts_eq. cbn [app]. by rewrite fmap_rev.
Qed.

(** The sixteen digits of a pointer. *)
Definition ptr_text (x : Z) : list Z :=
  str "0x" ++ ((fun k => digit_char (x / 16 ^ (15 - Z.of_nat k) mod 16)) <$> seq 0 16).

Lemma next_digit x k :
  0 <= k <= 14 -> (x * 16) mod 2 ^ 64 / 16 ^ (15 - k) mod 16 = x / 16 ^ (14 - k) mod 16.
Proof.
  intros Hk. set (a := 16 ^ (14 - k)). set (b := 16 ^ k).
  assert (Ha : 0 < a) by (apply Z.pow_pos_nonneg; lia). assert (Hb : 0 < b) by (apply Z.pow_pos_nonneg; lia).
  assert (Hab : 2 ^ 64 = a * (16 * b) * 16).
  { replace (a * (16 * b)) with (16 ^ 15); [done|]. unfold a, b. rewrite <- Z.pow_succ_r, <- Z.pow_add_r by lia. f_equal. lia. }
  replace (16 ^ (15 - k)) with (a * 16) by (unfold a; rewrite Z.mul_comm, <- Z.pow_succ_r by lia; f_equal; lia).
  rewrite Hab, Zmult_mod_distr_r, Z.div_mul_cancel_r by lia.
  pose proof (Z.div_mod x (a * (16 * b)) ltac:(nia)) as E. set (q := x / (a * (16 * b))) in *. set (r := x mod (a * (16 * b))) in *.
  rewrite E. replace (a * (16 * b) * q + r) with ((16 * b * q) * a + r) by ring. rewrite Z.div_add_l by lia.
  replace (16 * b * q + r / a) with (r / a + (b * q) * 16) by ring. by rewrite Z_mod_plus_full.
Qed.

Lemma hex_loop fd : forall m i x o,
  Z.of_nat m = 16 - i -> 0 <= i -> 0 <= x < 2 ^ 64 ->
  loop (Datatypes.S m) (fun '(i, x) =>
    if i <? 8 * 2 then
      putc fd (default 0 (geti digits (Z.shiftr x (8 * 8 - 4))));;;
      continue (i + 1, u64 (Z.shiftl x 4))
    else break tt) (i, x) o
  = Done tt (o ++ out fd ((fun k => digit_char (x / 16 ^ (15 - Z.of_nat k) mod 16)) <$> seq 0 m)).
Proof.
  induction m as [|m IH]; intros i x o Hm Hi Hx.
  - rewrite app_nil_r. apply loop_break. by rewrite (proj2 (Z.ltb_ge _ _)) by lia.
  - rewrite Nat2Z.inj_succ in Hm. erewrite loop_continue.
    2: { rewrite (proj2 (Z.ltb_lt _ _)) by lia. erewrite bind_done by apply putc_eq. reflexivity. }
    rewrite IH by (lia || apply u64_range). rewrite <- app_assoc, <- out_app. do 3 f_equal.
    change (seq 0 (Datatypes.S m)) with (0%nat :: seq 1 m). rewrite fmap_cons. cbn [app]. f_equal.
    + unfold digit_char. do 2 f_equal. rewrite Z.shiftr_div_pow2 by lia. change (15 - Z.of_nat 0) with 15.
      change (16 ^ 15) with (2 ^ (8 * 8 - 4)). symmetry. apply Z.mod_small.
      split; [apply Z.div_pos; lia|apply Z.div_lt_upper_bound; [lia|]]. change (2 ^ (8 * 8 - 4) * 16) with (2 ^ 64). lia.
    + rewrite <- fmap_S_seq, <- list_fmap_compose. apply list_fmap_ext. intros ? k Hk. unfold compose. f_equal.
      apply lookup_seq in Hk as [-> Hk]. rewrite Z.shiftl_mul_pow2 by lia. unfold u64. change (2 ^ 4) with 16.
      rewrite next_digit by lia. do 2 f_equal. f_equal. lia.
Qed.

(** ** Formats *)

Lemma printptr_eq fd x o : 0 <= x < 2 ^ 64 -> printptr fd x o = Done tt (o ++ out fd (ptr_text x)).
Proof.
  intros Hx. unfold printptr. rewrite (bind_done _ _ _ _ _ (putc_eq _ _ _)), (bind_done _ _ _ _ _ (putc_eq _ _ _)).
  rewrite (u64_small x) by done. rewrite (hex_loop fd 16 0 x) by lia. unfold ptr_text. rewrite out_app. f_equal. by rewrite <- !app_assoc.
Qed.

(** What a format is made of: a byte that stands for itself, a conversion with its
    argument, or a percent sign before any other byte. *)
Inductive item :=
| Plain (c : Z)
| Dec (x : Z)
| Uns (x : Z)
| Hex (x : Z)
| Ptr (x : Z)
| Str (s : option (list Z))
| Chr (x : Z)
| Percent
| Other (c : Z).

Definition item_ok (i : item) : Prop :=
  match i with
  | Plain c => 0 < c < 256 /\ c <> chr "%"
  | Other c => 0 < c < 256 /\ c ∉ str "dlxpsc%"
  | _ => True
  end.

Definition item_format (i : item) : list Z :=
  match i with
  | Plain c => [c]
  | Dec _ => str "%d" | Uns _ => str "%l" | Hex _ => str "%x" | Ptr _ => str "%p" | Str _ => str "%s" | Chr _ => str "%c" | Percent => str "%%"
  | Other c => [chr "%"; c]
  end.

Definition item_args (i : item) : list arg :=
  match i with
  | Dec x | Uns x | Hex x | Ptr x | Chr x => [Num x]
  | Str s => [Text s]
  | Plain _ | Percent | Other _ => []
  end.

(** What it prints: %l only the low 32 bits. *)
Definition item_text (i : item) : list Z :=
  match i with
  | Plain c => [c]
  | Dec x => int_text (i32 x) 10 true
  | Uns x => int_text (i32 (u64 x)) 10 false
  | Hex x => int_text (i32 x) 16 false
  | Ptr x => ptr_text (u64 x)
  | Str s => match s with Some s => s | None => str "(null)" end
  | Chr x => [u32 x]
  | Percent => [chr "%"]
  | Other c => [chr "%"; c]
  end.

Lemma land_byte c : 0 <= c < 256 -> Z.land c 0xff = c.
Proof. intros Hc. change 0xff with (Z.ones 8). rewrite Z.land_ones by lia. by apply Z.mod_small. Qed.

Lemma print_item fd i fmt ap o :
  item_ok i -> vprintf_from fd (item_format i ++ fmt) false (item_args i ++ ap) o
             = vprintf_from fd fmt false ap (o ++ out fd (item_text i)).
Proof.
  destruct i as [c|x|x|x|x|s|x| |c]; intros Hok; cbn [item_ok] in Hok.
  - destruct Hok as [Hc Hp]. cbn [item_format item_args app vprintf_from negb]. rewrite land_byte by lia. cbv zeta.
    by rewrite (proj2 (Z.eqb_neq _ _) Hp), (bind_done _ _ _ _ _ (putc_eq fd c o)).
  - change (vprintf_from fd (item_format (Dec x) ++ fmt) false (item_args (Dec x) ++ ap) o)
      with (bind (bind (printint fd (i32 x) 10 true) (fun _ => ret ap)) (fun ap => vprintf_from fd fmt false ap) o).
    erewrite bind_done; [reflexivity|]. by rewrite (bind_done _ _ _ _ _ (printint_eq fd (i32 x) 10 true o ltac:(lia))).
  - change (vprintf_from fd (item_format (Uns x) ++ fmt) false (item_args (Uns x) ++ ap) o)
      with (bind (bind (printint fd (i32 (u64 x)) 10 false) (fun _ => ret ap)) (fun ap => vprintf_from fd fmt false ap) o).
    erewrite bind_done; [reflexivity|]. by rewrite (bind_done _ _ _ _ _ (printint_eq fd (i32 (u64 x)) 10 false o ltac:(lia))).
  - change (vprintf_from fd (item_format (Hex x) ++ fmt) false (item_args (Hex x) ++ ap) o)
      with (bind (bind (printint fd (i32 x) 16 false) (fun _ => ret ap)) (fun ap => vprintf_from fd fmt false ap) o).
    erewrite bind_done; [reflexivity|]. by rewrite (bind_done _ _ _ _ _ (printint_eq fd (i32 x) 16 false o ltac:(lia))).
  - change (vprintf_from fd (item_format (Ptr x) ++ fmt) false (item_args (Ptr x) ++ ap) o)
      with (bind (bind (printptr fd (u64 x)) (fun _ => ret ap)) (fun ap => vprintf_from fd fmt false ap) o).
    erewrite bind_done; [reflexivity|]. by rewrite (bind_done _ _ _ _ _ (printptr_eq fd (u64 x) o (u64_range x))).
  - change (vprintf_from fd (item_format (Str s) ++ fmt) false (item_args (Str s) ++ ap) o)
      with (bind (bind (puts fd (item_text (Str s))) (fun _ => ret ap)) (fun ap => vprintf_from fd fmt false ap) o).
    erewrite bind_done; [reflexivity|]. by rewrite (bind_done _ _ _ _ _ (puts_eq fd _ o)).
  - done.
  - done.
  - destruct Hok as [Hc Hp]. cbn [str] in Hp. rewrite !not_elem_of_cons in Hp. destruct Hp as (H1 & H2 & H3 & H4 & H5 & H6 & H7 & _).
    cbn [item_format item_args app vprintf_from negb]. rewrite (land_byte c) by lia. cbv zeta.
    change (Z.land (chr "%") 255 =? chr "%") with true. cbv iota.
    rewrite !(proj2 (Z.eqb_neq c _)) by done. erewrite bind_done; [reflexivity|].
    rewrite (bind_done _ _ _ _ _ (putc_eq fd (chr "%") o)), (bind_done _ _ _ _ _ (putc_eq fd c _)). by rewrite <- app_assoc.
Qed.

Lemma print_items fd items o :
  Forall item_ok items ->
  vprintf fd (concat (item_format <$> items)) (concat (item_args <$> items)) o
  = Done tt (o ++ out fd (concat (item_text <$> items))).
Proof.
  intros Hok. unfold vprintf. revert o. induction Hok as [|i items Hi _ IH]; intros o.
  - cbn. unfold out. cbn. by rewrite app_nil_r.
  - rewrite !fmap_cons. cbn [concat]. rewrite print_item by done. by rewrite IH, <- app_assoc, <- out_app.
Qed.

(** C15: printf() writes what its format says.  For any format made of plain bytes,
    conversions (%d, %l, %x, %p, %s, %c, %%) and percent signs before other bytes, with
    the arguments that the conversions take, vprintf() writes to the descriptor the
    concatenation of the texts, a byte at a time: decimal and hexadecimal numerals of the
    low 32 bits, sixteen digits for a pointer, "(null)" for a null string.  It
    never overruns its buffer of 16 bytes and never takes a missing argument. *)
Theorem printf_spec fd items o :
  Forall item_ok items ->
  vprintf fd (concat (item_format <$> items)) (concat (item_args <$> items)) o
  = Done tt (o ++ out fd (concat (item_text <$> items))).
Proof. apply print_items. Qed.

Definition demo_items : list item :=
  (Plain <$> str "pid ") ++ [Dec (-7); Plain (chr ":"); Plain (chr " "); Str (Some (str "sh")); Percent; Plain (chr "!")].

Lemma printf_spec_witness :
  Forall item_ok demo_items /\
  printf (str "pid %d: %s%%!") [Num (-7); Text (Some (str "sh"))] [] = Done tt (out 1 (str "pid -7: sh%!")).
Proof.
  assert (Forall item_ok demo_items) as H by (repeat constructor; by vm_compute). split; [exact H|].
  pose proof (printf_spec 1 demo_items [] H) as E. vm_compute in E |- *. exact E.
Defined.

(** ** Reading an integer back *)

Lemma digit_char_ascii d : 0 <= d <= 9 -> digit_char d = d + chr "0" /\ u8 (digit_char d) = digit_char d.
Proof.
  intros Hd. assert (E : forall k, k ∈ seqZ 0 10 -> digit_char k = k + chr "0" /\ u8 (digit_char k) = digit_char k).
  { intros k Hk. apply elem_of_seqZ in Hk.
    assert (k = 0 \/ k = 1 \/ k = 2 \/ k = 3 \/ k = 4 \/ k = 5 \/ k = 6 \/ k = 7 \/ k = 8 \/ k = 9) as H by lia.
    by destruct H as [-> |[-> |[-> |[-> |[-> |[-> |[-> |[-> |[-> | ->]]]]]]]]]. }
  apply E, elem_of_seqZ. lia.
Qed.

(** The numeral of a nonnegative int as a C string. *)
Lemma numeral_atoi x : 0 <= x < 2 ^ 31 ->
  let cs := digit_char <$> numeral 10 x in
  atoi (cs ++ [0]) = Some x /\ (length cs <= 10)%nat /\ u8 <$> cs = cs /\ (0 < x -> head cs <> Some (chr "0")).
Proof.
  intros Hx cs. assert (Hr : Forall (fun d => 0 <= d < 10) (numeral 10 x)).
  { apply Forall_forall. intros d Hd. unfold numeral in Hd. rewrite <- elem_of_reverse in Hd. unfold reverse in Hd.
    rewrite <- rev_alt, rev_involutive in Hd. revert d Hd. by apply Forall_forall, rdigits_range. }
  assert (Hp : 2 ^ 32 <= 10 ^ Z.of_nat 10) by (vm_compute; discriminate).
  assert (Hp32 : 10 ^ Z.of_nat 10 <= 10 ^ Z.of_nat 32) by (vm_compute; discriminate).
  assert (Ecs : cs = (fun d => d + chr "0") <$> numeral 10 x).
  { apply list_fmap_ext. intros i d Hd. rewrite Forall_lookup in Hr. specialize (Hr i d Hd). apply digit_char_ascii. lia. }
  split_and!.
  - rewrite Ecs. rewrite (atoi_digits (numeral 10 x) [] 0).
    + f_equal. apply (rdigits_value 32 10); lia.
    + eapply Forall_impl; [exact Hr|]. simpl. lia.
    + change (chr "0") with 48. lia.
    + assert (E : foldl (fun n d => n * 10 + d) 0 (numeral 10 x) = x) by (apply (rdigits_value 32 10); lia). rewrite E. lia.
  - unfold cs, numeral. rewrite length_fmap, length_rev. apply rdigits_length; lia.
  - unfold cs. rewrite <- list_fmap_compose. apply list_fmap_ext. intros i d Hd. rewrite Forall_lookup in Hr.
    specialize (Hr i d Hd). apply digit_char_ascii. lia.
  - intros H0. destruct (rdigits_last 32 10 x) as (d & Hd & Hne); [lia|lia|].
    rewrite Ecs. unfold numeral. destruct (rdigits 32 10 x) as [|y l] using rev_ind; [done|].
    rewrite last_snoc in Hd. injection Hd as ->. rewrite rev_app_distr. cbn. intros [= E]. change (chr "0") with 48 in E. lia.
Qed.

(** what printf() prints for %d, atoi() reads back.  For every int but the least,
    the bytes are at most eleven: a minus sign if it is negative and a numeral without leading
    zeros, of which atoi() makes the number's absolute value. *)
Theorem printf_reads_back x o :
  - 2 ^ 31 < x < 2 ^ 31 ->
  exists cs, printf (str "%d") [Num x] o = Done tt (o ++ ((fun c => (1, c)) <$> ((if x <? 0 then [chr "-"] else []) ++ cs))) /\
    atoi (cs ++ [0]) = Some (Z.abs x) /\ (length cs <= 10)%nat /\ (x <> 0 -> head cs <> Some (chr "0")).
Proof.
  intros Hx. destruct (numeral_atoi (Z.abs x) ltac:(lia)) as (Ha & Hl & Hu & Hh). set (cs := digit_char <$> numeral 10 (Z.abs x)) in *.
  exists cs. split; [|split; [done|split; [done|intros H0; apply Hh; lia]]].
  change (printf (str "%d") [Num x] o) with (vprintf_from 1 (item_format (Dec x) ++ []) false (item_args (Dec x) ++ []) o).
  rewrite print_item by done. cbn [vprintf_from]. unfold ret. f_equal. f_equal. unfold item_text, int_text.
  rewrite i32_small by lia. cbn [andb]. 
  assert (Hsame : forall l, u8 <$> l = l -> out 1 l = (fun c => (1, c)) <$> l).
  { intros l E. rewrite <- E at 2. by rewrite <- list_fmap_compose. }
  destruct (Z.ltb_spec x 0) as [Hneg|Hpos].
  - rewrite u32_small by lia. replace (- x) with (Z.abs x) by lia. fold cs. apply Hsame. rewrite fmap_app, Hu. done.
  - rewrite u32_small by lia. replace x with (Z.abs x) at 1 by lia. fold cs. by apply Hsame.
Qed.

Lemma printf_reads_back_witness :
  exists cs, printf (str "%d") [Num (-120)] [] = Done tt ((fun c => (1, c)) <$> (chr "-" :: cs)) /\ atoi (cs ++ [0]) = Some 120.
Proof.
  destruct (printf_reads_back (-120) [] ltac:(lia)) as (cs & E & Ha & _). by exists cs.
Defined.
