(* ===== verification/Uprogs.v ===== *)
(** User programs that copy and count (user/cat.c, wc.c, echo.c, ls.c) and what is left
    of user/ulib.c: stat() and _main().

    [usys] is what a program sees of the system: the files by their names, its open
    files with the bytes not read yet, and what it has written.  [reads] is how the
    calls of read() turn out: a failure, or at most so many bytes more than one;
    [writes] whether a call of write() of these programs fails (those of printf(), whose
    results nobody looks at, do not).  A program's main() returns its exit status. *)

From stdpp Require Import gmap.
From S2P Require Import Prelude Mem Riscv Locks Kalloc Vm Proc ProcFacts Kernel KernelFacts Bytes Fs Ulib UPrintf.

(** struct stat *)
Record ustat := UStat { st_dev : Z; st_ino : Z; st_type : Z; st_nlink : Z; st_size : Z }.

Record usys := USys {
  files : gmap (list Z) (list Z * ustat);
  fds : gmap Z (list Z * ustat);
  reads : list (option nat);
  writes : list bool;
  outs : written;
}.

(** ** System calls *)

(** The least free descriptor. *)
Definition fdalloc (s : usys) : option Z := head (filter (fun fd => fds s !! fd = None) (seqZ 0 NOFILE)).

Definition open (path : list Z) : M usys Z := fun s =>
  match files s !! path, fdalloc s with
  | Some f, Some fd => Done fd (s {{ fds ::= <[fd := f]> }})
  | _, _ => Done (-1) s
  end.

Definition fstat (fd : Z) : M usys (option ustat) := gets (fun s => snd <$> fds s !! fd).

(** [None] is the result -1. *)
Definition read (fd n : Z) : M usys (option (list Z)) := fun s =>
  match fds s !! fd with
  | None => Done None s
  | Some (data, st) =>
      let s' := s {{ reads ::= tail }} in
      match head (reads s) with
      | Some None => Done None s'
      | o =>
          let k := Nat.min (Z.to_nat n) (match o with Some (Some k) => Datatypes.S k | _ => length data end) in
          Done (Some (take k data)) (s' {{ fds ::= <[fd := (drop k data, st)]> }})
      end
  end.

Definition write (fd : Z) (bs : list Z) : M usys Z := fun s =>
  let s' := s {{ writes ::= tail }} in
  match head (writes s) with
  | Some true => Done (-1) s'
  | _ => Done (Z.of_nat (length bs)) (s' {{ outs ::= fun o => o ++ out fd bs }})
  end.

Definition close (fd : Z) : M usys unit := modify (fun s => s {{ fds ::= delete fd }}).

Definition outs_lens : lens usys written.
Proof. refine (Lens outs (fun o s => s {{ outs := o }}) _ _ _); by intros; repeat (match goal with s : usys |- _ => destruct s end). Defined.

Definition fprintf (fd : Z) (fmt : list Z) (ap : list arg) : M usys unit := zoom outs_lens (vprintf fd fmt ap).
Definition printf (fmt : list Z) (ap : list arg) : M usys unit := fprintf 1 fmt ap.

(** ** ulib.c *)

Definition stat (n : list Z) : M usys (option ustat) :=
  fd <- open n;;
  if fd <? 0 then ret None
  else
    r <- fstat fd;;
    close fd;;;
    ret r.

(** main() exits with the status of its call of exit(), or 0 after it has returned. *)
Definition _main (main : M usys (option Z)) : M usys Z :=
  r <- main;;
  ret (default 0 r).

(** As many turns as a loop of read() calls can make before it sees the end. *)
Definition turns (fd : Z) (s : usys) : nat :=
  Datatypes.S (Datatypes.S (match fds s !! fd with Some (data, _) => length data | None => O end)).

(** Messages end with a newline. *)
Definition msg (s : string) : list Z := str s ++ [10].

(** ** cat.c *)

(** [Some n] when the program called exit(n). *)
Definition cat (fd : Z) : M usys (option Z) :=
  fuel <- gets (turns fd);;
  loop fuel (fun _ : unit =>
    r <- read fd 512;;
    match r with
    | None => fprintf 2 (msg "cat: read error") [];;; break (Some 1)
    | Some [] => break None
    | Some buf =>
        n <- write 1 buf;;
        if negb (n =? Z.of_nat (length buf)) then
          fprintf 2 (msg "cat: write error") [];;; break (Some 1)
        else continue tt
    end) tt.

(** [for(i = 1; i < argc; i++)] of the main()s of cat and wc. *)
Fixpoint each_file (cannot : list Z -> M usys unit) (body : Z -> list Z -> M usys (option Z)) (argv : list (list Z)) : M usys (option Z) :=
  match argv with
  | [] => ret (Some 0)
  | name :: argv =>
      fd <- open name;;
      if fd <? 0 then cannot name;;; ret (Some 1)
      else
        e <- body fd name;;
        match e with
        | Some n => ret (Some n)
        | None => close fd;;; each_file cannot body argv
        end
  end.

Definition cat_main (argv : list (list Z)) : M usys (option Z) :=
  if (length argv <=? 1)%nat then
    e <- cat 0;;
    ret (Some (default 0 e))
  else each_file (fun name => fprintf 2 (msg "cat: cannot open %s") [Text (Some name)]) (fun fd _ => cat fd) (tail argv).

(** ** wc.c *)

Record counts := Counts { c_l : Z; c_w : Z; c_c : Z; inword : bool }.

(** [strchr(" \r\t\n\v", c)] *)
Definition is_sep (c : Z) : bool :=
  match strchr [chr " "; 13; 9; 10; 11; 0] c with Some (Some _) => true | _ => false end.

(** The body of the inner loop. *)
Definition wc_char (k : counts) (c : Z) : counts :=
  let k := k {{ c_c ::= fun n => i32 (n + 1) }} in
  let k := if c =? 10 then k {{ c_l ::= fun n => i32 (n + 1) }} else k in
  if is_sep c then k {{ inword := false }}
  else if negb (inword k) then k {{ c_w ::= fun n => i32 (n + 1); inword := true }}
  else k.

Definition wc (fd : Z) (name : list Z) : M usys (option Z) :=
  fuel <- gets (turns fd);;
  r <- loop fuel (fun k =>
    r <- read fd 512;;
    match r with
    | None => break (k, true)
    | Some [] => break (k, false)
    | Some buf => continue (foldl wc_char k buf)
    end) (Counts 0 0 0 false);;
  let '(k, failed) := r in
  if (failed : bool) then printf (msg "wc: read error") [];;; ret (Some 1)
  else
    printf (msg "%d %d %d %s") [Num (c_l k); Num (c_w k); Num (c_c k); Text (Some name)];;;
    ret None.

Definition wc_main (argv : list (list Z)) : M usys (option Z) :=
  if (length argv <=? 1)%nat then
    e <- wc 0 [];;
    ret (Some (default 0 e))
  else each_file (fun name => printf (msg "wc: cannot open %s") [Text (Some name)]) wc (tail argv).

(** ** echo.c *)

Fixpoint echo_words (argv : list (list Z)) : M usys unit :=
  match argv with
  | [] => ret tt
  | w :: argv =>
      write 1 w;;;
      write 1 [match argv with [] => 10 | _ => chr " " end];;;
      echo_words argv
  end.

Definition echo_main (argv : list (list Z)) : M usys (option Z) :=
  echo_words (tail argv);;;
  ret (Some 0).

(** ** ls.c *)

(** Where the name after the last slash begins; [k] is one more than the index [p] looks at. *)
Fixpoint name_start (path : list Z) (k : nat) : nat :=
  match k with
  | O => O
  | Datatypes.S j => if decide (path !! j = Some (chr "/")) then k else name_start path j
  end.

Definition fmtname (path : list Z) : list Z :=
  let p := drop (name_start path (length path)) path in
  if DIRSIZ <=? Z.of_nat (length p) then p
  else p ++ replicate (Z.to_nat DIRSIZ - length p) (chr " ").

(** One directory entry, 16 bytes of the directory. *)
Definition ls_entry (path de : list Z) : M usys unit :=
  match de with
  | lo :: hi :: name =>
      if lo + 256 * hi =? 0 then ret tt
      else
        let buf := path ++ [chr "/"] ++ cstr (name ++ [0]) in
        st <- stat buf;;
        match st with
        | None => printf (msg "ls: cannot stat %s") [Text (Some buf)]
        | Some st =>
            printf (msg "%s %d %d %d") [Text (Some (fmtname buf)); Num (st_type st); Num (st_ino st); Num (st_size st)]
        end
  | _ => undef "de"
  end.

Definition ls (path : list Z) : M usys unit :=
  fd <- open path;;
  if fd <? 0 then fprintf 2 (msg "ls: cannot open %s") [Text (Some path)]
  else
    st <- fstat fd;;
    match st with
    | None => fprintf 2 (msg "ls: cannot stat %s") [Text (Some path)];;; close fd
    | Some st =>
        (if (st_type st =? T_DEVICE) || (st_type st =? T_FILE) then
           printf (msg "%s %d %d %l") [Text (Some (fmtname path)); Num (st_type st); Num (st_ino st); Num (st_size st)]
         else if st_type st =? T_DIR then
           if Z.of_nat (length path) + 1 + DIRSIZ + 1 >? 512 then printf (msg "ls: path too long") []
           else
             fuel <- gets (turns fd);;
             loop fuel (fun _ : unit =>
               r <- read fd 16;;
               match r with
               | Some de =>
                   if Z.of_nat (length de) =? 16 then ls_entry path de;;; continue tt else break tt
               | None => break tt
               end) tt
         else ret tt);;;
        close fd
    end.

Fixpoint ls_all (argv : list (list Z)) : M usys unit :=
  match argv with
  | [] => ret tt
  | path :: argv => ls path;;; ls_all argv
  end.

Definition ls_main (argv : list (list Z)) : M usys (option Z) :=
  (if (length argv <? 2)%nat then ls (str ".") else ls_all (tail argv));;;
  ret (Some 0).

(** ** Reading to the end *)

Definition no_failure (s : usys) : Prop := Forall is_Some (reads s) /\ Forall (fun b => b = false) (writes s).

(** [s'] is [s] after reads of [fd], of which [data] is left, and output [o]. *)
Record after_io (s : usys) (fd : Z) (data : list Z) (st : ustat) (o : written) (s' : usys) : Prop := {
  io_fds : fds s' = <[fd := (data, st)]> (fds s);
  io_files : files s' = files s;
  io_outs : outs s' = outs s ++ o;
  io_ok : no_failure s';
}.

Lemma after_io_trans s fd d1 d2 st o1 o2 s1 s2 :
  after_io s fd d1 st o1 s1 -> after_io s1 fd d2 st o2 s2 -> after_io s fd d2 st (o1 ++ o2) s2.
Proof.
  intros [F1 L1 O1 R1] [F2 L2 O2 R2]. split.
  - by rewrite F2, F1, insert_insert_eq.
  - by rewrite L2.
  - by rewrite O2, O1, app_assoc.
  - done.
Qed.

(** A read() delivers a prefix, which is empty only at the end. *)
Lemma read_next s fd n data st :
  fds s !! fd = Some (data, st) -> no_failure s -> 0 < n ->
  exists bs rest s', data = bs ++ rest /\ (data <> [] -> bs <> []) /\
    read fd n s = Done (Some bs) s' /\ after_io s fd rest st [] s'.
Proof.
  intros E [Hr Hw] Hn. destruct s as [fs ds rs ws os]. cbn [fds reads writes] in *. unfold read. cbn [fds]. rewrite E. rec_simpl.
  cbn [reads writes fds files outs].
  assert (Hgo : forall k rs', Forall is_Some rs' -> (data <> [] -> (0 < k)%nat) -> exists bs rest s', data = bs ++ rest /\ (data <> [] -> bs <> []) /\
    (Done (Some (take k data)) (USys fs (<[fd := (drop k data, st)]> ds) rs' ws os) : prog usys _) = Done (Some bs) s' /\
    after_io (USys fs ds rs ws os) fd rest st [] s').
  { intros k rs' Hrs' Hk. exists (take k data), (drop k data). eexists. split; [by rewrite take_drop|]. split; [|split; [reflexivity|]].
    - intros Hd. specialize (Hk Hd). destruct data, k; try done; lia.
    - split; cbn [fds files outs]; rewrite ?app_nil_r; done. }
  assert (Hd0 : data <> [] -> (0 < length data)%nat) by (destruct data; [done|cbn; lia]).
  destruct rs as [|[k|] rs]; cbn [head tail].
  - apply Hgo; [done|intros Hd; specialize (Hd0 Hd); lia].
  - apply Hgo; [by inversion Hr|intros _; lia].
  - apply Forall_cons in Hr as [[? [=]] _].
Qed.

Lemma turns_bound s fd data st : fds s !! fd = Some (data, st) -> turns fd s = Datatypes.S (Datatypes.S (length data)).
Proof. intros E. unfold turns. by rewrite E. Qed.

(** A loop that folds what it reads. *)
Lemma read_fold_loop {X A} (body : X -> M usys (X + A)) (f : X -> list Z -> X) (o : list Z -> written) (final : X -> A) fd st :
  (forall x bs rest s s', fds s !! fd = Some (bs ++ rest, st) -> no_failure s ->
     read fd 512 s = Done (Some bs) s' -> after_io s fd rest st [] s' -> bs <> [] ->
     exists s2, body x s = Done (inl (f x bs)) s2 /\ after_io s' fd rest st (o bs) s2) ->
  (forall x s s', read fd 512 s = Done (Some []) s' -> body x s = Done (inr (final x)) s') ->
  (forall x a b, f (f x a) b = f x (a ++ b)) -> (forall x, f x [] = x) -> (forall a b, o a ++ o b = o (a ++ b)) -> o [] = [] ->
  forall fuel data x s, fds s !! fd = Some (data, st) -> no_failure s -> (length data < fuel)%nat ->
  exists s', loop fuel body x s = Done (final (f x data)) s' /\ after_io s fd [] st (o data) s'.
Proof.
  intros Hbody Hend Hf Hf0 Ho Ho0 fuel. induction fuel as [|fuel IH]; intros data x s E Hok Hfu; [lia|].
  destruct (read_next s fd 512 data st E Hok ltac:(lia)) as (bs & rest & s' & -> & Hne & Er & Hio).
  destruct bs as [|b bs].
  - destruct rest as [|c rest]; [|by destruct (Hne ltac:(done))]. exists s'. cbn [app]. rewrite Hf0, Ho0.
    split; [apply loop_break, Hend, Er|done].
  - destruct (Hbody x (b :: bs) rest s s' E Hok Er Hio ltac:(done)) as (s2 & Eb & Hio2).
    rewrite (loop_continue _ _ _ _ _ _ Eb).
    pose proof (after_io_trans _ _ _ _ _ _ _ _ _ Hio Hio2) as H2. cbn [app] in H2.
    destruct (IH rest (f x (b :: bs)) s2) as (s3 & El & Hio3).
    + rewrite (io_fds _ _ _ _ _ _ H2). apply lookup_insert_eq.
    + apply (io_ok _ _ _ _ _ _ H2).
    + rewrite length_app in Hfu. cbn [length] in Hfu. lia.
    + exists s3. rewrite El, Hf. split; [done|]. rewrite <- Ho. by eapply after_io_trans.
Qed.

(** ** wc *)

Definition blank (c : Z) : bool := bool_decide (c ∈ [chr " "; 9; 10; 11; 13]).

(** The pieces of the text between blanks, the empty ones too. *)
Fixpoint pieces (data : list Z) : list (list Z) :=
  match data with
  | [] => [[]]
  | c :: r =>
      if blank c then [] :: pieces r
      else match pieces r with p :: ps => (c :: p) :: ps | [] => [[c]] end
  end.

Definition words (data : list Z) : list (list Z) := filter (fun p => p <> []) (pieces data).
Definition newlines (data : list Z) : list Z := filter (fun c => c = 10) data.

Lemma is_sep_blank c : is_sep c = blank c.
Proof.
  unfold is_sep, blank. change (chr " ") with 32. cbn [strchr].
  change (32 =? 0) with false. change (13 =? 0) with false. change (9 =? 0) with false.
  change (10 =? 0) with false. change (11 =? 0) with false. cbv iota.
  destruct (Z.eqb_spec 32 c) as [<-|H1]; [done|]. destruct (Z.eqb_spec 13 c) as [<-|H2]; [done|].
  destruct (Z.eqb_spec 9 c) as [<-|H3]; [done|]. destruct (Z.eqb_spec 10 c) as [<-|H4]; [done|].
  destruct (Z.eqb_spec 11 c) as [<-|H5]; [done|]. cbn. symmetry. apply bool_decide_eq_false.
  rewrite !not_elem_of_cons. repeat split; congruence || apply not_elem_of_nil.
Qed.

Lemma pieces_cons data : exists p ps, pieces data = p :: ps.
Proof. destruct data as [|c r]; cbn [pieces]; [eauto|]. destruct (blank c); [eauto|]. destruct (pieces r); eauto. Qed.

(** The words that begin in [data], after a blank or inside a word. *)
Definition new_words (b : bool) (data : list Z) : Z :=
  Z.of_nat (length (filter (fun p => p <> []) (if b then tail (pieces data) else pieces data))).

Lemma new_words_cons b c r :
  new_words b (c :: r) = (if negb (blank c) && negb b then 1 else 0) + new_words (negb (blank c)) r.
Proof.
  unfold new_words. cbn [pieces]. destruct (blank c); cbn [negb andb].
  - destruct b; cbn [tail]; [done|]. by rewrite filter_cons_False by auto.
  - destruct (pieces_cons r) as (p & ps & ->). destruct b; cbn [tail negb]; [done|].
    rewrite filter_cons_True by done. cbn [length]. lia.
Qed.

Lemma new_words_false data : new_words false data = Z.of_nat (length (words data)).
Proof. done. Qed.

Lemma new_words_le b data : new_words b data <= Z.of_nat (length data).
Proof.
  revert b. induction data as [|c data IH]; intros b.
  - by destruct b.
  - rewrite new_words_cons. specialize (IH (negb (blank c))). cbn [length]. destruct (negb (blank c) && negb b); lia.
Qed.

Lemma newlines_le data : Z.of_nat (length (newlines data)) <= Z.of_nat (length data).
Proof. unfold newlines. pose proof (length_filter (fun c => c = 10) data). lia. Qed.

Definition ends_in_word (b : bool) (data : list Z) : bool := foldl (fun _ c => negb (blank c)) b data.

Lemma wc_fold data : forall k,
  0 <= c_l k <= c_c k -> 0 <= c_w k <= c_c k -> c_c k + Z.of_nat (length data) < 2 ^ 31 ->
  foldl wc_char k data =
    Counts (c_l k + Z.of_nat (length (newlines data))) (c_w k + new_words (inword k) data)
      (c_c k + Z.of_nat (length data)) (ends_in_word (inword k) data).
Proof.
  induction data as [|c data IH]; intros [l w n b] Hl Hw Hn; cbn [c_l c_w c_c inword] in *.
  - cbn. unfold new_words. destruct b; cbn; by rewrite !Z.add_0_r.
  - cbn [length] in *. rewrite Nat2Z.inj_succ in *. cbn [foldl].
    assert (E : wc_char (Counts l w n b) c =
      Counts (l + (if c =? 10 then 1 else 0)) (w + (if negb (blank c) && negb b then 1 else 0)) (n + 1) (negb (blank c))).
    { unfold wc_char. rewrite is_sep_blank. rec_simpl. cbn [c_l c_w c_c inword]. rewrite (i32_small (n + 1)) by lia.
      rewrite (i32_small (l + 1)) by lia.
      destruct (c =? 10), (blank c), b; cbn [c_l c_w c_c inword negb andb]; rewrite ?(i32_small (w + 1)) by lia; f_equal; lia. }
    rewrite E, IH; cbn [c_l c_w c_c inword].
    + unfold newlines. rewrite filter_cons, new_words_cons. unfold ends_in_word. cbn [foldl].
      destruct (Z.eqb_spec c 10), (decide (c = 10)); try done; cbn [length]; f_equal; lia.
    + destruct (c =? 10); lia.
    + destruct (negb (blank c) && negb b); lia.
    + lia.
Qed.

Definition dec (n : nat) : list Z := int_text (Z.of_nat n) 10 true.

Definition report (name data : list Z) : list Z :=
  dec (length (newlines data)) ++ [chr " "] ++ dec (length (words data)) ++ [chr " "] ++ dec (length data) ++ [chr " "] ++ name ++ [10].

(** printf() of a format in the terms of its items. *)
Lemma fprintf_items fd items s :
  Forall item_ok items ->
  fprintf fd (concat (item_format <$> items)) (concat (item_args <$> items)) s
  = Done tt (s {{ outs ::= fun o => o ++ out fd (concat (item_text <$> items)) }}).
Proof. intros Hok. unfold fprintf, zoom. by rewrite print_items. Qed.

Lemma concat_plain {A} (f : item -> list A) (g : Z -> list A) w : (forall c, f (Plain c) = g c) -> concat (f <$> (Plain <$> w)) = concat (g <$> w).
Proof. intros H. induction w as [|c w IH]; [done|]. rewrite !fmap_cons. cbn [concat]. by rewrite H, IH. Qed.

Lemma concat_one {A} (w : list A) : concat ((fun c => [c]) <$> w) = w.
Proof. induction w as [|c w IH]; [done|]. rewrite fmap_cons. cbn [concat app]. by rewrite IH. Qed.

Lemma concat_none {A B} (w : list A) : concat ((fun _ => []) <$> w) = ([] : list B).
Proof. by induction w. Qed.

(** A message with one name. *)
Lemma message_run fd w name s :
  forallb (fun c => (0 <? c) && (c <? 256) && negb (c =? chr "%")) w = true ->
  fprintf fd (w ++ str "%s" ++ [10]) [Text (Some name)] s = Done tt (s {{ outs ::= fun o => o ++ out fd (w ++ name ++ [10]) }}).
Proof.
  intros H. set (items := (Plain <$> w) ++ [Str (Some name); Plain 10]).
  assert (Hok : Forall item_ok items).
  { apply Forall_app. split; [|by repeat constructor].
    apply Forall_fmap, Forall_forall. intros c Hc%list_elem_of_In.
    rewrite forallb_forall in H. specialize (H c Hc). cbn. apply andb_true_iff in H as [[H1 H2]%andb_true_iff H3].
    apply Z.ltb_lt in H1, H2. apply negb_true_iff, Z.eqb_neq in H3. done. }
  pose proof (fprintf_items fd items s Hok) as E. unfold items in E.
  rewrite !fmap_app, !concat_app in E.
  rewrite (concat_plain item_format (fun c => [c])), (concat_plain item_text (fun c => [c])), !concat_one in E by done.
  rewrite (concat_plain item_args (fun _ => [])), concat_none in E by done. exact E.
Qed.

Lemma wc_cannot : msg "wc: cannot open %s" = str "wc: cannot open " ++ str "%s" ++ [10].
Proof. by vm_compute. Qed.
Lemma cat_cannot : msg "cat: cannot open %s" = str "cat: cannot open " ++ str "%s" ++ [10].
Proof. by vm_compute. Qed.

Lemma wc_run fd name data st s :
  fds s !! fd = Some (data, st) -> no_failure s -> Z.of_nat (length data) < 2 ^ 31 ->
  exists s', wc fd name s = Done None s' /\ after_io s fd [] st (out 1 (report name data)) s'.
Proof.
  intros E Hok Hlen. unfold wc. rewrite (bind_done (gets (turns fd)) _ s _ s eq_refl), (turns_bound _ _ _ _ E).
  destruct (read_fold_loop (fun k => r <- read fd 512;; match r with None => break (k, true) | Some [] => break (k, false)
      | Some buf => continue (foldl wc_char k buf) end) (foldl wc_char) (fun _ => []) (fun k => (k, false)) fd st)
    with (Datatypes.S (Datatypes.S (length data))) data (Counts 0 0 0 false) s as (s' & El & Hio); try done || lia.
  - intros k bs rest s0 s1 _ _ Er H1 Hbs. rewrite (bind_done _ _ _ _ _ Er). destruct bs as [|b bs]; [done|].
    exists s1. split; [done|]. split; rewrite ?app_nil_r; try done.
    + rewrite (io_fds _ _ _ _ _ _ H1). by rewrite insert_insert_eq.
    + apply (io_ok _ _ _ _ _ _ H1).
  - intros k s0 s1 Er. by rewrite (bind_done _ _ _ _ _ Er).
  - intros k a b. by rewrite foldl_app.
  - rewrite (bind_done _ _ _ _ _ El). cbv beta iota.
    rewrite wc_fold by (cbn; lia). cbn [c_l c_w c_c inword].
    set (items := [Dec (0 + Z.of_nat (length (newlines data))); Plain (chr " "); Dec (0 + new_words false data); Plain (chr " ");
                   Dec (0 + Z.of_nat (length data)); Plain (chr " "); Str (Some name); Plain 10]).
    pose proof (fprintf_items 1 items s' ltac:(repeat constructor; done)) as Ep.
    erewrite bind_done by exact Ep. eexists. split; [reflexivity|].
    assert (Et : concat (item_text <$> items) = report name data).
    { unfold report, dec. rewrite <- new_words_false. pose proof (new_words_le false data). pose proof (newlines_le data).
      unfold items. rewrite !fmap_cons. cbn [item_text concat fmap list_fmap app].
      rewrite !Z.add_0_l, !i32_small by (rewrite ?new_words_false in *; lia). by rewrite <- ?app_assoc. }
    rewrite Et. destruct Hio as [F L O R]. destruct s' as [fs ds rs ws os]. cbn [fds files outs reads] in *.
    split; rec_simpl; cbn [fds files outs]; try done. by rewrite O, app_nil_r.
Qed.

(** ** Several files *)

(** What a program writes that reports on its files in turn, and its exit status:
    at the first file that is not there it stops. *)
Fixpoint expected (rep : list Z -> list Z -> list Z) (missing : list Z -> written)
    (fs : gmap (list Z) (list Z * ustat)) (names : list (list Z)) : written * Z :=
  match names with
  | [] => ([], 0)
  | name :: names =>
      match fs !! name with
      | Some (data, _) => let '(o, e) := expected rep missing fs names in (out 1 (rep name data) ++ o, e)
      | None => (missing name, 1)
      end
  end.

Definition small (s : usys) : Prop := map_Forall (fun _ f => Z.of_nat (length f.1) < 2 ^ 31) (files s).

Lemma fdalloc_free s fd : fdalloc s = Some fd -> fds s !! fd = None /\ 0 <= fd.
Proof.
  unfold fdalloc. intros (l' & E)%head_Some.
  assert (Hin : fd ∈ filter (fun fd => fds s !! fd = None) (seqZ 0 NOFILE)) by (rewrite E; by left).
  apply list_elem_of_filter in Hin as [H1 H2%elem_of_seqZ]. split; [done|lia].
Qed.

Lemma each_file_run rep missing cannot body names :
  (forall fd name data st s, fds s !! fd = Some (data, st) -> no_failure s -> Z.of_nat (length data) < 2 ^ 31 ->
     exists s', body fd name s = Done None s' /\ after_io s fd [] st (out 1 (rep name data)) s') ->
  (forall name s, cannot name s = Done tt (s {{ outs ::= fun o => o ++ missing name }})) ->
  forall s fd, fdalloc s = Some fd -> no_failure s -> small s ->
  exists s', each_file cannot body names s = Done (Some (expected rep missing (files s) names).2) s' /\
    outs s' = outs s ++ (expected rep missing (files s) names).1 /\ files s' = files s /\ fds s' = fds s.
Proof.
  intros Hbody Hcannot. induction names as [|name names IH]; intros s fd Hfd Hok Hsm; cbn [each_file expected].
  - exists s. by rewrite app_nil_r.
  - destruct (fdalloc_free s fd Hfd) as [Hfree Hpos]. destruct (files s !! name) as [[data st]|] eqn:Ef.
    + assert (Eo : open name s = Done fd (s {{ fds ::= <[fd := (data, st)]> }})) by (unfold open; by rewrite Ef, Hfd).
      rewrite (bind_done _ _ _ _ _ Eo), (proj2 (Z.ltb_ge fd 0)) by done.
      destruct (Hbody fd name data st (s {{ fds ::= <[fd := (data, st)]> }})) as (s1 & Eb & [F L O R]).
      { destruct s. apply lookup_insert_eq. }
      { by destruct s. }
      { apply (Hsm name _ Ef). }
      rewrite (bind_done _ _ _ _ _ Eb). cbv beta iota.
      set (s2 := s1 {{ fds ::= delete fd }}). assert (Es2 : fds s2 = fds s /\ files s2 = files s /\ outs s2 = outs s1 /\ no_failure s2).
      { unfold s2. destruct s, s1. cbn [fds files outs] in *. rec_simpl. cbn [fds files outs reads writes]. subst.
        split; [|done]. match goal with |- _ = ?m => change (delete fd (<[fd := ([], st)]> (<[fd := (data, st)]> m)) = m) end.
        by rewrite !delete_insert_eq, delete_id. }
      destruct Es2 as (F2 & L2 & O2 & R2).
      rewrite (bind_done (close fd) _ s1 tt s2 eq_refl).
      destruct (IH s2 fd) as (s3 & E3 & O3 & L3 & F3).
      { unfold fdalloc. by rewrite F2. }
      { done. }
      { unfold small. by rewrite L2. }
      rewrite L2 in E3, O3. destruct (expected rep missing (files s) names) as [o e]. cbn [fst snd] in *.
      exists s3. split; [done|]. rewrite O3, O2, O, L3, L2, F3, F2. split; [|done].
      destruct s. by rewrite app_assoc.
    + assert (Eo : open name s = Done (-1) s) by (unfold open; by rewrite Ef).
      rewrite (bind_done _ _ _ _ _ Eo). change (-1 <? 0) with true. cbv iota.
      rewrite (bind_done _ _ _ _ _ (Hcannot name s)).
      eexists. split; [reflexivity|]. by destruct s.
Qed.

(** C14: wc counts.  Called with names, wc writes for each file, in turn, its newlines,
    its words - the pieces between blanks that are not empty - and its bytes, however
    read() cuts the file, and stops with status 1 at the first file that is
    not there; it closes what it opens. *)
Theorem wc_counts cmd names s fd :
  names <> [] -> fdalloc s = Some fd -> no_failure s -> small s ->
  let '(o, status) := expected report (fun name => out 1 (str "wc: cannot open " ++ name ++ [10])) (files s) names in
  exists s', wc_main (cmd :: names) s = Done (Some status) s' /\ outs s' = outs s ++ o /\ files s' = files s /\ fds s' = fds s.
Proof.
  intros Hn Hfd Hok Hsm. unfold wc_main. destruct names as [|n names]; [done|]. cbn [length Nat.leb tail].
  destruct (each_file_run report (fun name => out 1 (str "wc: cannot open " ++ name ++ [10]))
    (fun name => printf (msg "wc: cannot open %s") [Text (Some name)]) wc (n :: names) wc_run) with s fd
    as (s' & E & O & L & F); try done.
  - intros name s0. unfold printf. rewrite wc_cannot. by apply message_run.
  - destruct (expected _ _ _ _) as [o status]. eauto.
Qed.

(** Three reads of "one two" and two of an empty file, and then a name too many. *)
Definition demo_sys : usys :=
  USys {[str "a" := (str "one two" ++ [10], UStat 1 5 T_FILE 1 8); str "b" := ([], UStat 1 6 T_FILE 1 0)]}
    {[0 := ([], UStat 1 4 T_DEVICE 1 0); 1 := ([], UStat 1 4 T_DEVICE 1 0)]} [Some 4; Some 1; Some 9]%nat [] [].

Lemma wc_counts_witness :
  exists s', wc_main [str "wc"; str "a"; str "b"; str "c"; str "a"] demo_sys = Done (Some 1) s' /\
    outs s' = out 1 (str "1 2 8 a" ++ [10] ++ str "0 0 0 b" ++ [10] ++ str "wc: cannot open c" ++ [10]).
Proof.
  assert (Hok : no_failure demo_sys) by (split; repeat constructor; eauto).
  assert (Hsm : small demo_sys).
  { apply map_Forall_insert_2; [done|]. apply map_Forall_insert_2; [done|]. apply map_Forall_empty. }
  pose proof (wc_counts (str "wc") [str "a"; str "b"; str "c"; str "a"] demo_sys 2 ltac:(done) eq_refl Hok Hsm) as H.
  destruct (expected _ _ _ _) as [o status] eqn:E. vm_compute in E. injection E as <- <-.
  destruct H as (s' & E & O & _). exists s'. split; [exact E|]. rewrite O. reflexivity.
Defined.

(** ** cat *)

Lemma cat_run fd name data st s :
  fds s !! fd = Some (data, st) -> no_failure s -> Z.of_nat (length data) < 2 ^ 31 ->
  exists s', (fun fd (_ : list Z) => cat fd) fd name s = Done None s' /\ after_io s fd [] st (out 1 ((fun _ d => d) name data)) s'.
Proof.
  intros E Hok _. unfold cat. rewrite (bind_done (gets (turns fd)) _ s _ s eq_refl), (turns_bound _ _ _ _ E).
  match goal with |- context [loop _ ?body _ _] =>
    destruct (read_fold_loop body (fun _ _ => tt) (out 1) (fun _ => None) fd st)
      with (Datatypes.S (Datatypes.S (length data))) data tt s as (s' & El & Hio) end; try done || lia.
  - intros [] bs rest s0 s1 _ _ Er H1 Hbs. rewrite (bind_done _ _ _ _ _ Er). destruct bs as [|b bs]; [done|].
    destruct H1 as [F L O [R W]].
    assert (Ew : write 1 (b :: bs) s1 = Done (Z.of_nat (length (b :: bs))) (s1 {{ writes ::= tail }} {{ outs ::= fun o => o ++ out 1 (b :: bs) }})).
    { unfold write. destruct s1 as [? ? ? [|w ws] ?]; [done|]. apply Forall_cons in W as [-> _]. done. }
    rewrite (bind_done _ _ _ _ _ Ew), Z.eqb_refl. eexists. split; [reflexivity|].
    destruct s1 as [fs ds rs ws os]. cbn [fds files outs reads writes] in *. split; rec_simpl; cbn [fds files outs]; try done.
    + rewrite F. by rewrite insert_insert_eq.
    + split; rec_simpl; cbn [reads writes]; [done|]. destruct ws; [done|]. by apply Forall_cons in W as [_ ?].
  - intros [] s0 s1 Er. by rewrite (bind_done _ _ _ _ _ Er).
  - by intros [].
  - intros a b. symmetry. apply out_app.
  - exists s'. done.
Qed.

(** cat copies its files to the standard output. *)
Theorem cat_copies cmd names s fd :
  names <> [] -> fdalloc s = Some fd -> no_failure s -> small s ->
  let '(o, status) := expected (fun _ data => data) (fun name => out 2 (str "cat: cannot open " ++ name ++ [10])) (files s) names in
  exists s', cat_main (cmd :: names) s = Done (Some status) s' /\ outs s' = outs s ++ o /\ files s' = files s /\ fds s' = fds s.
Proof.
  intros Hn Hfd Hok Hsm. unfold cat_main. destruct names as [|n names]; [done|]. cbn [length Nat.leb tail].
  destruct (each_file_run (fun _ data => data) (fun name => out 2 (str "cat: cannot open " ++ name ++ [10]))
    (fun name => fprintf 2 (msg "cat: cannot open %s") [Text (Some name)]) (fun fd _ => cat fd) (n :: names) cat_run) with s fd
    as (s' & E & O & L & F); try done.
  - intros name s0. unfold printf. rewrite cat_cannot. by apply message_run.
  - destruct (expected _ _ _ _) as [o status]. eauto.
Qed.
