(* ===== verification/GrepProps.v ===== *)
(** grep (user/grep.c): the regular-expression matcher of Kernighan and Pike, and the
    loop that cuts the input into lines; and its theorems: the matcher decides the
    language of its pattern, and the program prints the matching lines whatever the
    sizes of the reads.

    The matcher's pointers into a string are the lists of the characters before
    its NUL; the program's buffer is an array of [uproc]. *)

From S2P Require Import Prelude Mem Riscv Locks Kalloc Vm Proc ProcFacts Kernel KernelFacts Bytes Ulib.

(** ** The matcher *)

(** matchstar(c, re, text), where [here] is matchhere(re, .). *)
Fixpoint matchstar (c : Z) (here : list Z -> bool) (text : list Z) : bool :=
  here text ||
  match text with
  | t :: r => if (t =? c) || (c =? chr ".") then matchstar c here r else false
  | [] => false
  end.

Fixpoint matchhere (re : list Z) (text : list Z) : bool :=
  match re with
  | [] => true
  | c :: r =>
      let plain (_ : unit) :=
        if (c =? chr "$") && (match r with [] => true | _ => false end) then
          match text with [] => true | _ => false end
        else
          match text with
          | t :: text' => if (c =? chr ".") || (c =? t) then matchhere r text' else false
          | [] => false
          end in
      match r with
      | d :: r' => if d =? chr "*" then matchstar c (matchhere r') text else plain tt
      | [] => plain tt
      end
  end.

(** The do-while loop of match(): the empty rest is tried too. *)
Fixpoint match_any (re : list Z) (text : list Z) : bool :=
  matchhere re text ||
  match text with
  | _ :: r => match_any re r
  | [] => false
  end.

Definition match_ (re text : list Z) : bool :=
  match re with
  | c :: r => if c =? chr "^" then matchhere r text else match_any re text
  | [] => match_any re text
  end.

(** ** The program *)

(** sizeof(buf). *)
Definition BUFSIZE : Z := 1024.

(** One turn of the inner loop, with [p] at the start of a line in the buffer. *)
Definition match_line (pattern : list Z) (p : Z) : M uproc (Z + Z) :=
  b <- gets u_buf;;
  o <- lib (strchr (drop (Z.to_nat p) b) 10);;
  match o with
  | None => break p
  | Some k =>
      let q := p + k in
      setc q 0;;;
      b <- gets u_buf;;
      when (match_ pattern (cstr (drop (Z.to_nat p) b))) (
        setc q 10;;;
        b <- gets u_buf;;
        write (take (Z.to_nat (q + 1 - p)) (drop (Z.to_nat p) b)));;;
      continue (q + 1)
  end.

(** The complete lines in the buffer; the result is where the last one ends. *)
Definition match_lines (pattern : list Z) : M uproc Z :=
  loop (Datatypes.S (Z.to_nat BUFSIZE)) (match_line pattern) 0.

(** One turn of the outer loop, with [m] bytes of an incomplete line in the
    buffer. *)
Definition grep_step (pattern : list Z) (m : Z) : M uproc (Z + unit) :=
  d <- read (BUFSIZE - m - 1);;
  let n := Z.of_nat (length d) in
  if n >? 0 then
    modify (fun s => s {{ u_buf ::= splice m d }});;;
    let m := m + n in
    setc m 0;;;
    p <- match_lines pattern;;
    if m >? 0 then
      let m := m - p in
      b <- gets u_buf;;
      b' <- lib (memmove 0 p m b);;
      modify (fun s => s {{ u_buf := b' }});;;
      continue m
    else continue m
  else break tt.

Definition grep `{Fuel} (pattern : list Z) : M uproc unit := loop fuel (grep_step pattern) 0.

(** main(argc, argv): the exit status.  fprintf to fd 2 is not recorded. *)
Definition open_file (name : list Z) : M uproc bool := fun s =>
  match u_files s !! name with
  | Some data => Done true (s {{ u_in := data }})
  | None => Done false s
  end.

Fixpoint grep_files `{Fuel} (pattern : list Z) (names : list (list Z)) : M uproc Z :=
  match names with
  | [] => ret 0
  | f :: r =>
      ok <- open_file f;;
      if negb ok then
        write (str "grep: cannot open " ++ f ++ [10]);;;
        ret 1
      else
        grep pattern;;;
        grep_files pattern r
  end.

Definition main `{Fuel} (argv : list (list Z)) : M uproc Z :=
  match argv with
  | _ :: pattern :: [] => grep pattern;;; ret 0
  | _ :: pattern :: names => grep_files pattern names
  | _ => ret 1
  end.

(** ** The language of a pattern *)

(** A character, or any number of them; the character of [.] fits any. *)
Inductive item := One (c : Z) | Star (c : Z).

Definition fits (c x : Z) : Prop := c = chr "." \/ c = x.

(** The pattern after [^], and whether it ends in [$]. *)
Fixpoint items (re : list Z) : list item * bool :=
  match re with
  | [] => ([], false)
  | c :: r =>
      match r with
      | d :: r' =>
          if d =? chr "*" then let (l, e) := items r' in (Star c :: l, e)
          else let (l, e) := items r in (One c :: l, e)
      | [] => if c =? chr "$" then ([], true) else ([One c], false)
      end
  end.

Inductive accepts : list item -> list Z -> Prop :=
| AcceptsNil : accepts [] []
| AcceptsOne c x l s : fits c x -> accepts l s -> accepts (One c :: l) (x :: s)
| AcceptsStar c u l s : Forall (fits c) u -> accepts l s -> accepts (Star c :: l) (u ++ s).

(** [re] matches somewhere in [text]. *)
Definition anchored (re : list Z) : bool := match re with c :: _ => c =? chr "^" | [] => false end.
Definition body (re : list Z) : list Z := if anchored re then tail re else re.

Definition matches (re text : list Z) : Prop :=
  exists pre mid post, text = pre ++ mid ++ post /\ accepts (fst (items (body re))) mid /\
    (anchored re = true -> pre = []) /\ (snd (items (body re)) = true -> post = []).

(** ** The matcher *)

Lemma matchstar_spec c here text :
  matchstar c here text = true <-> exists u v, text = u ++ v /\ Forall (fits c) u /\ here v = true.
Proof.
  induction text as [|t text IH]; cbn [matchstar].
  - rewrite orb_false_r. split.
    + intros Hh. by exists [], [].
    + intros (u & v & Heq & _ & Hh). symmetry in Heq. by apply app_nil in Heq as [-> ->].
  - rewrite orb_true_iff. split.
    + intros [Hh|Ht]; [by exists [], (t :: text)|].
      destruct ((t =? c) || (c =? chr ".")) eqn:Hc; [|done].
      apply IH in Ht as (u & v & -> & Hu & Hv). exists (t :: u), v. split_and!; [done| |done].
      constructor; [|done]. apply orb_true_iff in Hc as [Hc%Z.eqb_eq|Hc%Z.eqb_eq]; [by right|by left].
    + intros ([|t' u] & v & Heq & Hu & Hv); [left; by rewrite Heq|right].
      injection Heq as -> ->. apply Forall_cons in Hu as [Hf Hu].
      assert ((t' =? c) || (c =? chr ".") = true) as ->.
      { apply orb_true_iff. destruct Hf as [->| ->]; [right|left]; by rewrite Z.eqb_refl. }
      apply IH. eauto.
Qed.

(** matchhere() decides the prefixes of its text. *)
Definition here_spec (re text : list Z) : Prop :=
  exists mid post, text = mid ++ post /\ accepts (fst (items re)) mid /\ (snd (items re) = true -> post = []).

Lemma here_one c re text :
  items (c :: re) = (One c :: fst (items re), snd (items re)) ->
  here_spec (c :: re) text <-> exists t r, text = t :: r /\ fits c t /\ here_spec re r.
Proof.
  intros Hi. unfold here_spec. rewrite Hi. cbn [fst snd]. split.
  - intros (mid & post & -> & Ha & Hp). inversion Ha; subst. eexists _, _. split; [done|]. split; [done|]. eauto.
  - intros (t & r & -> & Hf & mid & post & -> & Ha & Hp). exists (t :: mid), post. split_and!; [done|by constructor|done].
Qed.

Lemma matchhere_one c re text :
  (exists t r, text = t :: r /\ fits c t /\ matchhere re r = true) <->
  match text with t :: r => if (c =? chr ".") || (c =? t) then matchhere re r else false | [] => false end = true.
Proof.
  destruct text as [|t r]; [split; [by intros (? & ? & ? & _)|done]|]. split.
  - intros (t' & r' & [= <- <-] & Hf & Hm).
    assert ((c =? chr ".") || (c =? t) = true) as ->; [|done].
    apply orb_true_iff. destruct Hf as [->| ->]; [left|right]; by rewrite Z.eqb_refl.
  - destruct ((c =? chr ".") || (c =? t)) eqn:Hc; [|done]. intros Hm. exists t, r. split_and!; [done| |done].
    apply orb_true_iff in Hc as [Hc%Z.eqb_eq|Hc%Z.eqb_eq]; [by left|by right].
Qed.

Lemma matchhere_spec re : forall text, matchhere re text = true <-> here_spec re text.
Proof.
  remember (length re) as n eqn:Hn. revert re Hn.
  induction n as [n IH] using (well_founded_induction lt_wf). intros [|c [|d re]] Hn text.
  - split; [intros _|done]. exists [], text. split_and!; [done|constructor|done].
  - cbn [matchhere]. rewrite andb_true_r. destruct (Z.eqb_spec c (chr "$")) as [->|Hc].
    + unfold here_spec. simpl. split.
      * destruct text; [|done]. intros _. exists [], []. split_and!; [done|constructor|done].
      * intros (mid & post & -> & Ha & Hp). inversion Ha. by rewrite Hp.
    + rewrite <- (matchhere_one c [] text), here_one.
      * setoid_rewrite (IH 0%nat); [done|simpl in Hn; lia|done].
      * simpl. by rewrite (proj2 (Z.eqb_neq _ _) Hc).
  - change (matchhere (c :: d :: re) text) with (if d =? chr "*" then matchstar c (matchhere re) text else
      if (c =? chr "$") && false then match text with [] => true | _ => false end else
      match text with t :: r => if (c =? chr ".") || (c =? t) then matchhere (d :: re) r else false | [] => false end).
    rewrite andb_false_r. destruct (Z.eqb_spec d (chr "*")) as [->|Hd].
    + rewrite matchstar_spec. unfold here_spec at 1. simpl.
      destruct (items re) as [l e] eqn:Hi. cbn [fst snd]. split.
      * intros (u & v & -> & Hu & Hv). apply (IH (length re)) in Hv as (mid & post & -> & Ha & Hp); [|simpl in Hn; lia|done].
        rewrite Hi in Ha, Hp. exists (u ++ mid), post. split_and!; [by rewrite app_assoc|by constructor|done].
      * intros (mid & post & -> & Ha & Hp). inversion Ha; subst. exists u, (s ++ post).
        split_and!; [by rewrite app_assoc|done|]. eapply IH; [|done|]; [simpl; lia|].
        exists s, post. by rewrite Hi.
    + rewrite <- (matchhere_one c (d :: re) text), here_one.
      * setoid_rewrite (IH (length (d :: re))); [done|simpl in *; lia|done].
      * assert (items (c :: d :: re) = let (l, e) := items (d :: re) in (One c :: l, e)) as ->.
        { simpl. by rewrite (proj2 (Z.eqb_neq _ _) Hd). }
        by destruct (items (d :: re)).
Qed.

Lemma match_any_spec re text :
  match_any re text = true <-> exists pre r, text = pre ++ r /\ here_spec re r.
Proof.
  induction text as [|t text IH]; cbn [match_any]; rewrite orb_true_iff, matchhere_spec.
  - split.
    + intros [Hh|]; [|done]. by exists [], [].
    + intros (pre & r & Heq & Hh). symmetry in Heq. apply app_nil in Heq as [-> ->]. by left.
  - rewrite IH. split.
    + intros [Hh|(pre & r & -> & Hh)]; [by exists [], (t :: text)|by exists (t :: pre), r].
    + intros ([|t' pre] & r & Heq & Hh); [left; by rewrite Heq|right].
      injection Heq as -> ->. eauto.
Qed.

(** C18: match(), with matchhere() and matchstar(), decides exactly the language
    of the pattern: some part of the text, its beginning if the pattern starts
    with ^ and its end if the pattern ends in $, consists of the characters of
    the pattern in order, where . stands for any character and c* for any number
    of characters that fit c. *)
Theorem match_correct re text : match_ re text = true <-> matches re text.
Proof.
  unfold match_, matches, body, anchored. destruct re as [|c re].
  - rewrite match_any_spec. unfold here_spec. simpl. split.
    + intros (pre & r & -> & mid & post & -> & Ha & Hp). by exists pre, mid, post.
    + intros (pre & mid & post & -> & Ha & _ & Hp). exists pre, (mid ++ post). eauto 10.
  - destruct (c =? chr "^"); cbn [tail].
    + rewrite matchhere_spec. unfold here_spec. split.
      * intros (mid & post & -> & Ha & Hp). by exists [], mid, post.
      * intros (pre & mid & post & -> & Ha & -> & Hp); [|done]. by exists mid, post.
    + rewrite match_any_spec. unfold here_spec. split.
      * intros (pre & r & -> & mid & post & -> & Ha & Hp). by exists pre, mid, post.
      * intros (pre & mid & post & -> & Ha & _ & Hp). exists pre, (mid ++ post). eauto 10.
Qed.

(** ** Lines *)

(** The complete lines of a text, without their newlines, and what follows the
    last newline. *)
Fixpoint lines (s : list Z) : list (list Z) * list Z :=
  match s with
  | [] => ([], [])
  | c :: r =>
      let (ls, t) := lines r in
      if c =? 10 then ([] :: ls, t)
      else match ls with [] => ([], c :: t) | l :: ls' => ((c :: l) :: ls', t) end
  end.

(** What grep prints for them. *)
Definition found (pattern : list Z) (ls : list (list Z)) : list Z :=
  concat ((fun l => if match_ pattern l then l ++ [10] else []) <$> ls).

Lemma lines_none d : 10 ∉ d -> lines d = ([], d).
Proof.
  induction d as [|c d IH]; intros Hn; [done|]. apply not_elem_of_cons in Hn as [Hc Hn]. simpl.
  rewrite (IH Hn). by rewrite (proj2 (Z.eqb_neq c 10)) by congruence.
Qed.

Lemma lines_first a r : 10 ∉ a -> lines (a ++ 10 :: r) = (a :: fst (lines r), snd (lines r)).
Proof.
  induction a as [|c a IH]; intros Hn; simpl; [by destruct (lines r)|].
  apply not_elem_of_cons in Hn as [Hc Hn]. rewrite (IH Hn). by rewrite (proj2 (Z.eqb_neq c 10)) by congruence.
Qed.

(** Any text is its first line and the rest, or has no newline. *)
Lemma lines_ind d : (10 ∉ d) \/ exists a r, d = a ++ 10 :: r /\ 10 ∉ a.
Proof.
  induction d as [|c d IH]; [left; apply not_elem_of_nil|].
  destruct (decide (c = 10)) as [->|Hc]; [right; exists [], d; split; [done|apply not_elem_of_nil]|].
  destruct IH as [Hn|(a & r & -> & Hn)]; [left|right; exists (c :: a), r; split; [done|]]; apply not_elem_of_cons; auto.
Qed.

Lemma lines_app_gen n : forall d e, (length d <= n)%nat ->
  lines (d ++ e) = (fst (lines d) ++ fst (lines (snd (lines d) ++ e)), snd (lines (snd (lines d) ++ e))).
Proof.
  induction n as [|n IH]; intros d e Hl; (destruct (lines_ind d) as [Hn|(a & r & -> & Hn)];
    [rewrite (lines_none d Hn); simpl; by destruct (lines (d ++ e))|]); rewrite length_app in Hl; simpl in Hl; [lia|].
  rewrite <- app_assoc. cbn [app]. rewrite !lines_first by done. cbn [fst snd app].
  rewrite (IH r e) by lia. done.
Qed.

Lemma lines_app d e :
  fst (lines (d ++ e)) = fst (lines d) ++ fst (lines (snd (lines d) ++ e)).
Proof. by rewrite (lines_app_gen (length d)). Qed.

(** The rest after the last newline is a suffix without newlines. *)
Lemma lines_rest d : exists a, d = a ++ snd (lines d) /\ 10 ∉ snd (lines d).
Proof.
  remember (length d) as n eqn:Hl. revert d Hl. induction n as [n IH] using (well_founded_induction lt_wf).
  intros d ->. destruct (lines_ind d) as [Hn|(a & r & -> & Hn)].
  - exists []. by rewrite lines_none.
  - rewrite lines_first by done. cbn [snd].
    destruct (IH (length r)) with (d := r) as (b & Hr & Hrn); [rewrite length_app; simpl; lia|done|].
    exists (a ++ 10 :: b). split; [|done]. rewrite <- app_assoc. simpl. by rewrite <- Hr.
Qed.

Lemma found_app pattern a b : found pattern (a ++ b) = found pattern a ++ found pattern b.
Proof. unfold found. by rewrite fmap_app, concat_app. Qed.

(** ** The loop over the lines in the buffer *)

Lemma seti_middle (a b : list Z) x y : seti (Z.of_nat (length a)) x (a ++ y :: b) = a ++ x :: b.
Proof.
  unfold seti. rewrite (proj2 (Z.leb_le _ _)), Nat2Z.id by lia. by rewrite insert_app_r_alt, Nat.sub_diag by lia.
Qed.

Lemma setc_middle a y b c s :
  u_buf s = a ++ y :: b ->
  setc (Z.of_nat (length a)) c s = Done tt (s {{ u_buf := a ++ c :: b }}).
Proof.
  intros Hb. unfold setc, bind. cbn [gets bindp]. rewrite Hb, length_app. cbn [length].
  rewrite (proj2 (Z.leb_le _ _)), (proj2 (Z.ltb_lt _ _)) by lia. cbn [andb]. unfold modify.
  destruct s; simpl in *. subst. by rewrite seti_middle.
Qed.

(** The state after the program stored into the buffer and printed. *)
Definition after (b out : list Z) (s : uproc) : uproc := s {{ u_buf := b; u_out ::= fun o => o ++ out }}.

Lemma after_nil s : after (u_buf s) [] s = s.
Proof. destruct s. unfold after. simpl. by rewrite app_nil_r. Qed.

Lemma after_after b b' o o' s : after b' o' (after b o s) = after b' (o ++ o') s.
Proof. destruct s. unfold after. simpl. by rewrite app_assoc. Qed.

(** One line: it is cut at its newline, matched, and printed if it matches. *)
Lemma match_one pattern pre a r s :
  u_buf s = pre ++ a ++ 10 :: r -> 0 ∉ a -> 10 ∉ a ->
  exists x, match_line pattern (Z.of_nat (length pre)) s =
    Done (inl (Z.of_nat (length (pre ++ a ++ [x])))) (after ((pre ++ a ++ [x]) ++ r) (found pattern [a]) s).
Proof.
  intros Hb H0 Hn. unfold match_line. rewrite Nat2Z.id.
  unfold bind at 1. cbn [gets bindp]. rewrite Hb, drop_app_length, (strchr_here a 10 r H0 Hn) by done.
  unfold bind at 1. cbn [lib ret bindp].
  assert (Z.of_nat (length pre) + Z.of_nat (length a) = Z.of_nat (length (pre ++ a))) as Hq by (rewrite length_app; lia).
  rewrite Hq. assert (u_buf s = (pre ++ a) ++ 10 :: r) as Hb1 by by rewrite <- app_assoc.
  rewrite (bind_done _ _ _ _ _ (setc_middle _ 10 r 0 s Hb1)).
  set (s1 := s {{ u_buf := (pre ++ a) ++ 0 :: r }}).
  unfold bind at 1. cbn [gets bindp]. change (u_buf s1) with ((pre ++ a) ++ 0 :: r).
  rewrite <- (app_assoc pre a), drop_app_length, cstr_until by done.
  unfold found. cbn [fmap list_fmap concat]. rewrite app_nil_r. destruct (match_ pattern a); cbn [when].
  - exists 10. erewrite bind_done.
    2: { rewrite (bind_done _ _ _ _ _ (setc_middle (pre ++ a) 0 r 10 s1 eq_refl)). reflexivity. }
    unfold continue, ret. f_equal; [f_equal; rewrite !length_app; simpl; lia|].
    cbn [u_buf]. unfold after, write, modify, s1. destruct s as [sb si sp so sf]. simpl in *.
    rewrite <- !app_assoc. cbn [app].
    change (drop (length pre) (pre ++ a ++ 10 :: r)) with (drop (length pre) (pre ++ (a ++ 10 :: r))).
    rewrite drop_app_length. f_equal. f_equal. 
    replace (Z.to_nat _) with (length (a ++ [10])) by (rewrite !length_app; simpl; lia).
    replace (a ++ 10 :: r) with ((a ++ [10]) ++ r) by by rewrite <- app_assoc.
    by rewrite take_app_length.
  - exists 0. erewrite bind_done by reflexivity. unfold continue, ret.
    f_equal; [f_equal; rewrite !length_app; simpl; lia|].
    unfold after, s1. destruct s as [sb si sp so sf]. simpl in *. rewrite <- !app_assoc, app_nil_r. done.
Qed.

(** No newline is left: the loop ends. *)
Lemma match_none pattern pre t r s :
  u_buf s = pre ++ t ++ 0 :: r -> 0 ∉ t -> 10 ∉ t ->
  match_line pattern (Z.of_nat (length pre)) s = Done (inr (Z.of_nat (length pre))) s.
Proof.
  intros Hb H0 Hn. unfold match_line. rewrite Nat2Z.id. unfold bind at 1. cbn [gets bindp].
  rewrite Hb, drop_app_length, strchr_none by done. done.
Qed.

Lemma match_lines_loop pattern n : forall d pre r s,
  u_buf s = pre ++ d ++ 0 :: r -> 0 ∉ d -> (length d < n)%nat ->
  exists pre', loop n (match_line pattern) (Z.of_nat (length pre)) s =
    Done (Z.of_nat (length pre')) (after (pre' ++ snd (lines d) ++ 0 :: r) (found pattern (fst (lines d))) s) /\
    (length pre' + length (snd (lines d)) = length pre + length d)%nat.
Proof.
  induction n as [|n IH]; intros d pre r s Hb H0 Hl; [lia|].
  destruct (lines_ind d) as [Hn|(a & d' & -> & Hn)].
  - rewrite lines_none by done. cbn [fst snd]. exists pre. split; [|done].
    rewrite (loop_break _ _ _ _ _ _ (match_none pattern pre d r s Hb H0 Hn)).
    change (found pattern []) with (@nil Z). by rewrite <- Hb, after_nil.
  - apply not_elem_of_app in H0 as [H0 [_ H0']%not_elem_of_cons].
    rewrite <- app_assoc in Hb. cbn [app] in Hb.
    destruct (match_one pattern pre a (d' ++ 0 :: r) s Hb H0 Hn) as (x & E).
    rewrite (loop_continue _ _ _ _ _ _ E). rewrite length_app in Hl. simpl in Hl.
    set (s1 := after _ _ s).
    destruct (IH d' (pre ++ a ++ [x]) r s1 eq_refl H0') as (pre' & E' & Hl'); [lia|].
    exists pre'. rewrite lines_first by done. cbn [fst snd]. split.
    + rewrite E'. unfold s1. rewrite after_after. by rewrite <- (found_app pattern [a]).
    + rewrite Hl', !length_app. simpl. lia.
Qed.

(** ** The loop over the reads *)

(** The buffer holds the incomplete line [t]. *)
Definition holds_line (t : list Z) (s : uproc) : Prop :=
  length (u_buf s) = Z.to_nat BUFSIZE /\ take (length t) (u_buf s) = t /\ (length t <= 1023)%nat /\ (10 ∉ t).

(** Complete lines that fit into the buffer with their newline and the NUL, and
    no NUL anywhere. *)
Definition good_text (d : list Z) : Prop := (0 ∉ d) /\ Forall (fun l => (length l <= 1022)%nat) (fst (lines d)).

(** Storing what was read, and the NUL behind it. *)
Lemma store_read (b t d : list Z) :
  length b = Z.to_nat BUFSIZE -> take (length t) b = t -> (length t + length d <= 1023)%nat ->
  exists r, splice (Z.of_nat (length t)) d b = (t ++ d) ++ r /\ (length r + length t + length d = 1024)%nat.
Proof.
  intros Hl Ht Hd. change (Z.to_nat BUFSIZE) with 1024%nat in Hl. unfold splice. rewrite Nat2Z.id, Ht.
  exists (drop (length t + length d) b). split; [by rewrite app_assoc|rewrite length_drop; lia].
Qed.

(** A turn of the loop that reads something. *)
Lemma grep_turn pattern t s :
  holds_line t s -> good_text (t ++ u_in s) -> (length t < 1023)%nat -> u_in s <> [] ->
  exists d t' b' k, let s' := (after b' (found pattern (fst (lines (t ++ d)))) s) {{ u_in := drop k (u_in s);
      u_pace := tail (u_pace s) }} in
    grep_step pattern (Z.of_nat (length t)) s = Done (inl (Z.of_nat (length t'))) s' /\
    d <> [] /\ u_in s = d ++ u_in s' /\ t' = snd (lines (t ++ d)) /\ holds_line t' s'.
Proof.
  intros (Hlen & Htake & Ht & Hn) [H0 Hg] Hroom Hin.
  set (k := Nat.min (Z.to_nat (BUFSIZE - Z.of_nat (length t) - 1)) (Datatypes.S (default O (head (u_pace s))))).
  set (d := take k (u_in s)).
  assert (0 < k <= 1023 - length t)%nat as Hk by (unfold k, BUFSIZE; lia).
  assert (length d <= k)%nat as Hdk by (unfold d; rewrite length_take; lia).
  assert (d <> []) as Hd by (unfold d; destruct (u_in s), k; [done..|lia|done]).
  assert (u_in s = d ++ drop k (u_in s)) as Hsplit by (unfold d; by rewrite take_drop).
  destruct (store_read (u_buf s) t d Hlen Htake) as (r & Hr & Hlr); [lia|].
  destruct r as [|y r]; [simpl in Hlr; lia|].
  assert (0 ∉ t ++ d) as H0'.
  { rewrite Hsplit, app_assoc in H0. by apply not_elem_of_app in H0 as [? _]. }
  set (s1 := s {{ u_in := drop k (u_in s); u_pace := tail (u_pace s) }}).
  set (s2 := s1 {{ u_buf := (t ++ d) ++ 0 :: r }}).
  destruct (match_lines_loop pattern (Datatypes.S (Z.to_nat BUFSIZE)) (t ++ d) [] r s2 eq_refl H0') as (pre & E & Hpre).
  { change (Z.to_nat BUFSIZE) with 1024%nat. rewrite length_app. lia. }
  destruct (lines_rest (t ++ d)) as (a & Ha & Hna). set (t' := snd (lines (t ++ d))) in *.
  set (b := pre ++ t' ++ 0 :: r) in *.
  assert (length b = 1024%nat) as Hb.
  { unfold b. simpl in Hpre. rewrite length_app in Hpre. rewrite !length_app. simpl in *. lia. }
  assert (length t' <= 1023)%nat as Ht'.
  { simpl in Hpre. rewrite length_app in Hpre. lia. }
  assert (memmove 0 (Z.of_nat (length pre)) (Z.of_nat (length t')) b = Some (t' ++ drop (length t') b)) as Hmm.
  { rewrite memmove_splice; rewrite ?Hb; [|unfold b in *; rewrite !length_app in Hb; simpl in *; lia..].
    rewrite !Nat2Z.id. replace (drop (length pre) b) with (t' ++ 0 :: r) by by unfold b; rewrite drop_app_length.
    by rewrite take_app_length. }
  exists d, t', (t' ++ drop (length t') b), k. cbn zeta. split_and!.
  - unfold grep_step. unfold bind at 1. unfold read at 1. cbn [bindp]. fold k d s1.
    rewrite Z.gtb_ltb, (proj2 (Z.ltb_lt _ _)) by (destruct d; [done|simpl; lia]).
    unfold bind at 1. unfold modify at 1. cbn [bindp].
    assert (Z.of_nat (length t) + Z.of_nat (length d) = Z.of_nat (length (t ++ d))) as Hm by (rewrite length_app; lia).
    rewrite Hm.
    erewrite bind_done.
    2: { apply (setc_middle (t ++ d) y r 0). change (splice (Z.of_nat (length t)) d (u_buf s) = (t ++ d) ++ y :: r). exact Hr. }
    change (_ {{ u_buf := (t ++ d) ++ 0 :: r }}) with s2.
    unfold match_lines. rewrite (bind_done _ _ _ _ _ E).
    rewrite Z.gtb_ltb, (proj2 (Z.ltb_lt _ _)) by (rewrite length_app; destruct d; [done|simpl; lia]).
    unfold bind at 1. cbn [gets bindp]. change (u_buf (after b _ s2)) with b.
    replace (Z.of_nat (length (t ++ d)) - Z.of_nat (length pre)) with (Z.of_nat (length t')) by (simpl in Hpre; lia).
    rewrite Hmm. unfold bind at 1. cbn [lib ret bindp]. unfold bind at 1, modify, continue, ret. cbn [bindp].
    reflexivity.
  - done.
  - exact Hsplit.
  - done.
  - unfold holds_line. split_and!; [|apply take_app_length|done|done].
    change (length (t' ++ drop (length t') b) = Z.to_nat BUFSIZE). rewrite length_app, length_drop, Hb.
    change (Z.to_nat BUFSIZE) with 1024%nat. lia.
Qed.

Lemma grep_loop pattern n : forall t s,
  holds_line t s -> good_text (t ++ u_in s) -> (length (u_in s) < n)%nat ->
  exists s', loop n (grep_step pattern) (Z.of_nat (length t)) s = Done tt s' /\
    u_out s' = u_out s ++ found pattern (fst (lines (t ++ u_in s))) /\
    u_files s' = u_files s /\ length (u_buf s') = Z.to_nat BUFSIZE.
Proof.
  induction n as [|n IH]; intros t s Hh Hg Hl; [lia|].
  destruct (decide (u_in s = [] \/ length t = 1023%nat)) as [Hend|Hgo].
  - destruct Hh as (Hlen & _ & Ht & Hn).
    assert (fst (lines (t ++ u_in s)) = []) as Hno.
    { destruct Hend as [->|Hfull]; [by rewrite app_nil_r, lines_none|].
      destruct (lines_ind (t ++ u_in s)) as [Hno|(a & r & Heq & Hna)]; [by rewrite lines_none|].
      destruct Hg as [_ Hf]. rewrite Heq, lines_first in Hf by done. apply Forall_cons in Hf as [Hla _].
      exfalso. apply Hn. rewrite <- (take_app_length t (u_in s)), Heq.
      rewrite take_app_ge by lia. apply elem_of_app. right.
      replace (length t - length a)%nat with (Datatypes.S (length t - length a - 1)) by lia. by left. }
    rewrite Hno. exists (s {{ u_in := u_in s; u_pace := tail (u_pace s) }}). split_and!; try done.
    + apply loop_break. unfold grep_step, bind at 1, read. cbn [bindp].
      assert (take (Nat.min (Z.to_nat (BUFSIZE - Z.of_nat (length t) - 1)) (Datatypes.S (default O (head (u_pace s))))) (u_in s) = []
        /\ drop (Nat.min (Z.to_nat (BUFSIZE - Z.of_nat (length t) - 1)) (Datatypes.S (default O (head (u_pace s))))) (u_in s) = u_in s)
        as [-> ->]; [|done].
      destruct Hend as [->| ->]; [by rewrite take_nil, drop_nil|done].
    + unfold found. simpl. by rewrite app_nil_r.
  - destruct (grep_turn pattern t s Hh Hg) as (d & t' & b' & k & E & Hd & Hin & Ht' & Hh');
      [destruct Hh as (_ & _ & ? & _); lia|tauto|].
    set (s' := (after _ _ s) {{ u_in := _; u_pace := _ }}) in *.
    assert (fst (lines (t ++ u_in s)) = fst (lines (t ++ d)) ++ fst (lines (t' ++ u_in s'))) as Hlines.
    { rewrite Hin at 1. by rewrite app_assoc, lines_app, <- Ht'. }
    destruct (IH t' s') as (s2 & E2 & Ho & Hf & Hb); [done| | |].
    + destruct Hg as [H0 Hg]. split.
      * destruct (lines_rest (t ++ d)) as (a & Ha & _). rewrite <- Ht' in Ha.
        rewrite Hin, app_assoc, Ha, <- app_assoc in H0. by apply not_elem_of_app in H0 as [_ ?].
      * rewrite Hlines, Forall_app in Hg. apply Hg.
    + assert (0 < length d)%nat as Hd0 by (destruct d; [done|simpl; lia]).
      rewrite Hin, length_app in Hl. lia.
    + exists s2. split_and!; [by rewrite (loop_continue _ _ _ _ _ _ E)| |by rewrite Hf|done].
      rewrite Ho, Hlines, found_app, app_assoc. done.
Qed.

(** C39: grep() prints exactly the lines of its input that match the pattern, in
    order and with their newlines, however the reads cut the input, if no byte of
    the input is NUL and each line fits into the buffer; what follows the last
    newline is not looked at. *)
Theorem grep_correct `{Fuel} pattern s :
  length (u_buf s) = Z.to_nat BUFSIZE -> good_text (u_in s) -> (length (u_in s) < fuel)%nat ->
  exists s', grep pattern s = Done tt s' /\
    u_out s' = u_out s ++ concat ((fun l => l ++ [10]) <$> filter (fun l => match_ pattern l) (fst (lines (u_in s)))) /\
    u_files s' = u_files s /\ length (u_buf s') = Z.to_nat BUFSIZE.
Proof.
  intros Hb Hg Hf. destruct (grep_loop pattern fuel [] s) as (s' & E & Ho & Hfs & Hb'); [|done|done|].
  - unfold holds_line. split_and!; [done|done|simpl; lia|apply not_elem_of_nil].
  - exists s'. split_and!; [exact E| |done|done]. rewrite Ho. f_equal. cbn [app]. unfold found.
    induction (fst (lines (u_in s))) as [|l ls IH]; [done|]. rewrite filter_cons, fmap_cons. cbn [concat].
    rewrite IH. by destruct (match_ pattern l).
Qed.

Section Demo.
#[local] Instance reads_enough : Fuel := 20%nat.

(** Two lines, one of them matching, and an unfinished one; the reads deliver 3,
    then 1, then 5 bytes, then one by one. *)
Definition demo_input : list Z := str "abc" ++ [10] ++ str "xbz" ++ [10] ++ str "xx".
Definition demo_grep : uproc := UProc (replicate 1024 0) demo_input [2; 0; 4]%nat [] ∅.

Lemma grep_correct_witness :
  (exists s', grep (str "^xb*z$") demo_grep = Done tt s' /\ u_out s' = str "xbz" ++ [10]) /\
  match_ (str "^xb*z$") (str "xbz") = true.
Proof.
  split; [|reflexivity].
  destruct (grep_correct (str "^xb*z$") demo_grep) as (s' & E & Ho & _).
  - reflexivity.
  - split; [vm_compute; set_solver|]. by repeat (constructor; [vm_compute; lia|]).
  - vm_compute. lia.
  - exists s'. split; [exact E|]. rewrite Ho. reflexivity.
Defined.
End Demo.
