(* ===== verification/Sh.v ===== *)
(** The shell (user/sh.c): the parser.

    The line is a byte array ended by a NUL, and pointers into it are offsets.
    The nodes of the command tree are what the constructors allocate; a pointer to
    a node is its index in the order of allocation.  (The code uses what malloc()
    returns without a test; here malloc() always finds memory.)  [spos] is the
    variable [*ps] that the parsing functions share. *)

From S2P Require Import Prelude Mem Riscv Locks Kalloc Vm Proc Kernel Ulib Sysfile.

Definition MAXARGS : Z := 10.

(** The commands of the code, with null pointers as [None]. *)
Inductive node :=
| EXEC (argv eargv : list (option Z))
| REDIR (cmd file efile mode fd : Z)
| PIPE (left right : Z)
| LIST (left right : Z)
| BACK (cmd : Z).

Record shell := Shell {
  sbuf : list Z;
  spos : Z;
  nodes : list node;
}.

#[global] Arguments sbuf !_ /.
#[global] Arguments spos !_ /.
#[global] Arguments nodes !_ /.

Definition whitespace : list Z := [32; 9; 13; 10; 11].
Definition symbols : list Z := str "<|>&;()".

(** [strchr(s, c) != 0] for a string literal. *)
Definition has_char (s : list Z) (c : Z) : bool :=
  match Ulib.strchr (s ++ [0]) c with Some (Some _) => true | _ => false end.

Definition rdc (i : Z) : M shell Z :=
  o <- gets (fun s => geti (sbuf s) i);;
  match o with Some c => ret c | None => undef "*s" end.
Definition wrc (i c : Z) : M shell unit :=
  _ <- rdc i;; modify (fun s => s {{ sbuf ::= seti i c }}).
Definition setpos (i : Z) : M shell unit := modify (fun s => s {{ spos := i }}).

(** ** Constructors *)

Definition alloc_node (n : node) : M shell Z :=
  p <- gets (fun s => Z.of_nat (length (nodes s)));;
  modify (fun s => s {{ nodes ::= fun l => l ++ [n] }});;;
  ret p.

Definition execcmd : M shell Z := alloc_node (EXEC (replicate 10 None) (replicate 10 None)).
Definition redircmd (subcmd file efile mode fd : Z) : M shell Z := alloc_node (REDIR subcmd file efile mode fd).
Definition pipecmd (left right : Z) : M shell Z := alloc_node (PIPE left right).
Definition listcmd (left right : Z) : M shell Z := alloc_node (LIST left right).
Definition backcmd (subcmd : Z) : M shell Z := alloc_node (BACK subcmd).

(** [cmd->argv[i] = q; cmd->eargv[i] = eq] *)
Definition set_arg (cmd i : Z) (q eq : option Z) : M shell unit :=
  o <- gets (fun s => geti (nodes s) cmd);;
  match o with
  | Some (EXEC argv eargv) =>
      if (i <? 0) || (MAXARGS <=? i) then undef "argv"
      else modify (fun s => s {{ nodes ::= seti cmd (EXEC (seti i q argv) (seti i eq eargv)) }})
  | _ => undef "execcmd"
  end.

(** ** Tokens *)

(** [while(s < es && in(s)) s++] *)
Definition skip_while (p : Z -> bool) (es s : Z) : M shell Z :=
  loop (Datatypes.S (Z.to_nat (es - s)))
    (fun s => if s <? es then c <- rdc s;; if p c then continue (s + 1) else break s else break s) s.

Definition word_char (c : Z) : bool := negb (has_char whitespace c) && negb (has_char symbols c).

(** The token's kind, its start and its end. *)
Definition gettoken (es : Z) : M shell (Z * Z * Z) :=
  s <- gets spos;;
  q <- skip_while (has_char whitespace) es s;;
  c <- rdc q;;
  r <- (if c =? 0 then ret (0, q)
        else if has_char (str "|();&<") c then ret (c, q + 1)
        else if c =? chr ">" then
          d <- rdc (q + 1);;
          if d =? chr ">" then ret (chr "+", q + 2) else ret (c, q + 1)
        else
          e <- skip_while word_char es q;;
          ret (chr "a", e));;
  s <- skip_while (has_char whitespace) es (snd r);;
  setpos s;;;
  ret (fst r, q, snd r).

Definition peek (es : Z) (toks : list Z) : M shell bool :=
  s <- gets spos;;
  s <- skip_while (has_char whitespace) es s;;
  setpos s;;;
  c <- rdc s;;
  ret (negb (c =? 0) && has_char toks c).

(** ** Commands *)

(** A round of the loop of parseredirs(). *)
Definition redir_step (es cmd : Z) : M shell (Z + Z) :=
  b <- peek es (str "<>");;
  if b then
    t <- gettoken es;;
    w <- gettoken es;;
    let '(tok, q, eq) := w in
    if negb (tok =? chr "a") then panic "missing file for redirection"
    else
      let '(tok, _, _) := t in
      if tok =? chr "<" then c <- redircmd cmd q eq O_RDONLY 0;; continue c
      else if tok =? chr ">" then
        c <- redircmd cmd q eq (Z.lor (Z.lor O_WRONLY O_CREATE) O_TRUNC) 1;; continue c
      else if tok =? chr "+" then c <- redircmd cmd q eq (Z.lor O_WRONLY O_CREATE) 1;; continue c
      else continue cmd
  else break cmd.

Definition parseredirs (cmd es : Z) : M shell Z := loop (Datatypes.S (Z.to_nat es)) (redir_step es) cmd.

(** A round of the loop of parseexec(), whose variables are argc and ret. *)
Definition arg_step (es cmd : Z) (x : Z * Z) : M shell (Z * Z + Z * Z) :=
  let '(argc, r) := x in
  b <- peek es (str "|)&;");;
  if b then break (argc, r)
  else
    t <- gettoken es;;
    let '(tok, q, eq) := t in
    if tok =? 0 then break (argc, r)
    else if negb (tok =? chr "a") then panic "syntax"
    else
      set_arg cmd argc (Some q) (Some eq);;;
      if MAXARGS <=? argc + 1 then panic "too many args"
      else
        r <- parseredirs r es;;
        continue (argc + 1, r).

(** parseexec() from [ret = execcmd()] on. *)
Definition parseargs (es : Z) : M shell Z :=
  cmd <- execcmd;;
  r <- parseredirs cmd es;;
  r <- loop (Datatypes.S (Z.to_nat es)) (arg_step es cmd) (0, r);;
  set_arg cmd (fst r) None None;;;
  ret (snd r).

(** A round of the loop of parseline(). *)
Definition back_step (es cmd : Z) : M shell (Z + Z) :=
  b <- peek es (str "&");;
  if b then gettoken es;;; c <- backcmd cmd;; continue c else break cmd.

Fixpoint parseline (n : nat) (es : Z) : M shell Z :=
  match n with
  | O => out_of_fuel
  | Datatypes.S m =>
      cmd <- parsepipe m es;;
      cmd <- loop (Datatypes.S (Z.to_nat es)) (back_step es) cmd;;
      b <- peek es (str ";");;
      if b then
        gettoken es;;;
        r <- parseline m es;;
        listcmd cmd r
      else ret cmd
  end
with parsepipe (n : nat) (es : Z) : M shell Z :=
  match n with
  | O => out_of_fuel
  | Datatypes.S m =>
      cmd <- parseexec m es;;
      b <- peek es (str "|");;
      if b then
        gettoken es;;;
        r <- parsepipe m es;;
        pipecmd cmd r
      else ret cmd
  end
with parseexec (n : nat) (es : Z) : M shell Z :=
  match n with
  | O => out_of_fuel
  | Datatypes.S m =>
      b <- peek es (str "(");;
      if b then parseblock m es else parseargs es
  end
with parseblock (n : nat) (es : Z) : M shell Z :=
  match n with
  | O => out_of_fuel
  | Datatypes.S m =>
      b <- peek es (str "(");;
      if negb b then panic "parseblock"
      else
        gettoken es;;;
        cmd <- parseline m es;;
        b <- peek es (str ")");;
        if negb b then panic "syntax - missing )"
        else
          gettoken es;;;
          parseredirs cmd es
  end.

(** [for(i=0; ecmd->argv[i]; i++) *ecmd->eargv[i] = 0] *)
Fixpoint end_args (argv eargv : list (option Z)) : M shell unit :=
  match argv, eargv with
  | None :: _, _ => ret tt
  | Some _ :: argv, Some e :: eargv => wrc e 0;;; end_args argv eargv
  | _, _ => undef "eargv"
  end.

(** A child was allocated before its parent: as many calls are nested as there are nodes. *)
Fixpoint nulterminate (n : nat) (cmd : Z) : M shell unit :=
  match n with
  | O => out_of_fuel
  | Datatypes.S m =>
      o <- gets (fun s => geti (nodes s) cmd);;
      match o with
      | None => undef "cmd"
      | Some (EXEC argv eargv) => end_args argv eargv
      | Some (REDIR c _ efile _ _) => nulterminate m c;;; wrc efile 0
      | Some (PIPE l r) | Some (LIST l r) => nulterminate m l;;; nulterminate m r
      | Some (BACK c) => nulterminate m c
      end
  end.

(** The fuel of the recursion: four functions call each other between two
    characters of the line. *)
Definition depth (es : Z) : nat := 4 * Datatypes.S (Z.to_nat es).

Definition parsecmd (s : Z) : M shell Z :=
  b <- gets sbuf;;
  match Ulib.strlen (drop (Z.to_nat s) b) with
  | None => undef "strlen"
  | Some n =>
      let es := s + n in
      setpos s;;;
      cmd <- parseline (depth es) es;;
      _ <- peek es [];;
      p <- gets spos;;
      if negb (p =? es) then panic "syntax"
      else
        k <- gets (fun s => length (nodes s));;
        nulterminate k cmd;;;
        ret cmd
  end.
