(* ===== verification/ShFacts.v ===== *)
(** The shell's tokens: what gettoken() and peek() do, as functions of the rest of
    the line. *)

From S2P Require Import Prelude Mem Riscv Locks Kalloc Vm Proc ProcFacts Kernel KernelFacts Ulib Sysfile Sh.

(** The line [l] is in the buffer. *)
Definition has_line (l : list Z) (b : list Z) : Prop := exists rest, b = l ++ 0 :: rest.

(** The length of the longest prefix whose characters satisfy [p]. *)
Fixpoint span (p : Z -> bool) (r : list Z) : nat :=
  match r with
  | c :: r' => if p c then Datatypes.S (span p r') else O
  | [] => O
  end.

Definition lstrip (r : list Z) : list Z := drop (span (has_char whitespace) r) r.

Lemma span_le p r : (span p r <= length r)%nat.
Proof. induction r as [|c r IH]; simpl; [lia|]. destruct (p c); lia. Qed.

Lemma length_lstrip r : (length (lstrip r) <= length r)%nat.
Proof. unfold lstrip. rewrite length_drop. lia. Qed.

Section Line.
Context (l : list Z).
Hypothesis Hl : 0 ∉ l.

(** The rest [r] of the line is where the position [i] points. *)
Definition here (i : Z) (r : list Z) : Prop := i = (Z.of_nat (length l)) - Z.of_nat (length r) /\ exists a, l = a ++ r.

Lemma here_drop i r k : here i r -> (k <= length r)%nat -> here (i + Z.of_nat k) (drop k r).
Proof.
  intros [-> [a Ha]] Hk. split; [rewrite length_drop; lia|].
  exists (a ++ take k r). by rewrite <- app_assoc, take_drop.
Qed.

Lemma here_next i c r : here i (c :: r) -> here (i + 1) r.
Proof. intros Hh. apply (here_drop i (c :: r) 1) in Hh; [done|simpl; lia]. Qed.

Lemma here_app i a r : here i (a ++ r) -> here (i + Z.of_nat (length a)) r.
Proof.
  intros Hh. apply (here_drop i (a ++ r) (length a)) in Hh; [by rewrite drop_app_length in Hh|rewrite length_app; lia].
Qed.

Lemma here_range i r : here i r -> 0 <= i <= (Z.of_nat (length l)).
Proof. intros [-> [a ->]]. rewrite length_app. lia. Qed.

Lemma here_nonzero i c r : here i (c :: r) -> c <> 0.
Proof. intros [_ [a ->]] ->. apply Hl. set_solver. Qed.

(** The character at a position: the head of the rest, or the NUL. *)
Definition head0 (r : list Z) : Z := match r with c :: _ => c | [] => 0 end.

Lemma rdc_here i r s : has_line l (sbuf s) -> here i r -> rdc i s = Done (head0 r) s.
Proof.
  intros [rest Hb] Hh. pose proof (here_range i r Hh) as Hr. destruct Hh as [-> [a ->]].
  unfold rdc, bind, gets. simpl. unfold geti. rewrite (proj2 (Z.leb_le 0 _)) by lia. rewrite Hb.
  rewrite length_app. replace (Z.to_nat _) with (length a) by lia.
  rewrite <- app_assoc. rewrite lookup_app_r by lia. rewrite Nat.sub_diag. by destruct r.
Qed.

(** The byte behind the head, when the head is not the NUL. *)
Lemma rdc_after i c r s : has_line l (sbuf s) -> here i (c :: r) -> rdc (i + 1) s = Done (head0 r) s.
Proof. intros Hb Hh. apply rdc_here; [done|by eapply here_next]. Qed.

Lemma skip_while_here p i r s :
  has_line l (sbuf s) -> here i r -> skip_while p (Z.of_nat (length l)) i s = Done (i + Z.of_nat (span p r)) s.
Proof.
  intros Hb Hh. unfold skip_while.
  assert (Hn : (length r < Datatypes.S (Z.to_nat ((Z.of_nat (length l)) - i)))%nat) by (destruct Hh as [-> _]; lia).
  revert Hn. generalize (Datatypes.S (Z.to_nat ((Z.of_nat (length l)) - i))) as n. intros n. revert i r Hh. induction n as [|n IH]; intros i r Hh Hn; [lia|].
  destruct r as [|c r].
  - rewrite (loop_break _ _ _ _ i s); [simpl; f_equal; lia|].
    destruct Hh as [-> _]. simpl. by rewrite (proj2 (Z.ltb_ge _ _)) by lia.
  - pose proof (here_range _ _ Hh) as Hr.
    assert (Hlt : i < (Z.of_nat (length l))) by (destruct Hh as [-> _]; simpl; lia).
    simpl span. destruct (p c) eqn:Ep.
    + rewrite (loop_continue _ _ _ _ (i + 1) s).
      * rewrite (IH _ r); [f_equal; lia|by eapply here_next|simpl in Hn; lia].
      * rewrite (proj2 (Z.ltb_lt _ _)) by done. rewrite (bind_done _ _ _ _ _ (rdc_here i _ s Hb Hh)). simpl. by rewrite Ep.
    + rewrite (loop_break _ _ _ _ i s); [simpl; f_equal; lia|].
      rewrite (proj2 (Z.ltb_lt _ _)) by done. rewrite (bind_done _ _ _ _ _ (rdc_here i _ s Hb Hh)). simpl. by rewrite Ep.
Qed.

Lemma here_lstrip i r : here i r -> here (i + Z.of_nat (span (has_char whitespace) r)) (lstrip r).
Proof. intros Hh. apply here_drop; [done|apply span_le]. Qed.

(** The first token of a rest without leading blanks: its kind and what follows. *)
Definition token (r : list Z) : Z * list Z :=
  match r with
  | [] => (0, [])
  | c :: r' =>
      if has_char (str "|();&<") c then (c, r')
      else if c =? chr ">" then
        match r' with
        | d :: r'' => if d =? chr ">" then (chr "+", r'') else (c, r')
        | [] => (c, r')
        end
      else (chr "a", drop (span word_char r) r)
  end.

Lemma token_here i r : here i r -> here ((Z.of_nat (length l)) - Z.of_nat (length (snd (token r)))) (snd (token r)).
Proof.
  intros [_ [a Ha]]. split; [done|]. unfold token. destruct r as [|c r]; [exists a; done|].
  destruct (has_char _ c); [exists (a ++ [c]); by rewrite <- app_assoc|].
  destruct (c =? chr ">").
  - destruct r as [|d r]; [exists (a ++ [c]); by rewrite <- app_assoc|].
    destruct (d =? chr ">"); [exists (a ++ [c; d])|exists (a ++ [c])]; by rewrite <- app_assoc.
  - exists (a ++ take (span word_char (c :: r)) (c :: r)). cbn [snd]. by rewrite <- app_assoc, take_drop.
Qed.

Lemma gettoken_eq r s :
  has_line l (sbuf s) -> here (spos s) r ->
  let r1 := lstrip r in
  let r2 := snd (token r1) in
  gettoken (Z.of_nat (length l)) s = Done (fst (token r1), (Z.of_nat (length l)) - Z.of_nat (length r1), (Z.of_nat (length l)) - Z.of_nat (length r2))
                    (s {{ spos := (Z.of_nat (length l)) - Z.of_nat (length (lstrip r2)) }}).
Proof.
  intros Hb Hh r1 r2. pose proof (here_lstrip _ _ Hh) as H1. fold r1 in H1. clearbody r1.
  pose proof (token_here _ _ H1) as H2. fold r2 in H2.
  unfold gettoken. erewrite bind_done by done.
  rewrite (bind_done _ _ _ _ _ (skip_while_here _ _ _ _ Hb Hh)).
  set (i := spos s + Z.of_nat (span (has_char whitespace) r)) in *.
  rewrite (bind_done _ _ _ _ _ (rdc_here _ _ _ Hb H1)).
  assert (Er : (if head0 r1 =? 0 then ret (0, i)
        else if has_char (str "|();&<") (head0 r1) then ret (head0 r1, i + 1)
        else if head0 r1 =? chr ">" then
          d <- rdc (i + 1);;
          if d =? chr ">" then ret (chr "+", i + 2) else ret (head0 r1, i + 1)
        else
          e <- skip_while word_char (Z.of_nat (length l)) i;;
          ret (chr "a", e)) s = Done (fst (token r1), (Z.of_nat (length l)) - Z.of_nat (length r2)) s).
  { unfold r2, token. destruct r1 as [|c r'] eqn:E1; cbn [head0].
    - simpl. destruct H1 as [-> _]. done.
    - pose proof (here_nonzero _ _ _ H1) as Hc. rewrite (proj2 (Z.eqb_neq c 0) Hc).
      assert (Ei : i = (Z.of_nat (length l)) - Z.of_nat (length (c :: r'))) by apply H1.
      destruct (has_char (str "|();&<") c).
      + simpl. unfold ret. do 2 f_equal. simpl in Ei. lia.
      + destruct (c =? chr ">").
        * rewrite (bind_done _ _ _ _ _ (rdc_after _ _ _ _ Hb H1)). destruct r' as [|d r'']; cbn [head0].
          -- change (0 =? chr ">") with false. unfold ret. do 2 f_equal. simpl in *. lia.
          -- destruct (d =? chr ">"); unfold ret; do 2 f_equal; simpl in *; lia.
        * rewrite (bind_done _ _ _ _ _ (skip_while_here _ _ _ _ Hb H1)). unfold ret. cbn [fst snd]. do 2 f_equal.
          pose proof (span_le word_char (c :: r')). rewrite length_drop. lia. }
  rewrite (bind_done _ _ _ _ _ Er). clear Er. clearbody r2. cbn [snd fst].
  rewrite (bind_done _ _ _ _ _ (skip_while_here _ _ _ _ Hb H2)).
  erewrite bind_done by done. rewrite (proj1 H1), (proj1 (here_lstrip _ _ H2)). done.
Qed.

Lemma peek_eq toks r s :
  has_line l (sbuf s) -> here (spos s) r ->
  peek (Z.of_nat (length l)) toks s = Done (negb (head0 (lstrip r) =? 0) && has_char toks (head0 (lstrip r)))
                     (s {{ spos := (Z.of_nat (length l)) - Z.of_nat (length (lstrip r)) }}).
Proof.
  intros Hb Hh. pose proof (here_lstrip _ _ Hh) as H1. unfold peek. erewrite bind_done by done.
  rewrite (bind_done _ _ _ _ _ (skip_while_here _ _ _ _ Hb Hh)). erewrite bind_done by done.
  erewrite bind_done by (apply rdc_here; [done|exact H1]). unfold ret. f_equal. by rewrite (proj1 H1).
Qed.

End Line.

(** ** Spelled tokens *)

Inductive tok := TWord (w : list Z) | TSym (c : Z) | TApp.

Definition text (t : tok) : list Z :=
  match t with TWord w => w | TSym c => [c] | TApp => [chr ">"; chr ">"] end.

Definition kind (t : tok) : Z :=
  match t with TWord _ => chr "a" | TSym c => c | TApp => chr "+" end.

Definition is_word (w : list Z) : Prop := w <> [] /\ Forall (fun c => word_char c = true /\ c <> 0) w.
Definition is_blank (b : list Z) : Prop := Forall (fun c => has_char whitespace c = true) b.

Definition valid_tok (t : tok) : Prop :=
  match t with
  | TWord w => is_word w
  | TSym c => c ∈ str "|();&<>"
  | TApp => True
  end.

(** Two tokens that need a blank between them. *)
Definition sticky (t t' : tok) : bool :=
  match t, t' with
  | TWord _, TWord _ => true
  | TSym c, TSym d => (c =? chr ">") && (d =? chr ">")
  | TSym c, TApp => c =? chr ">"
  | _, _ => false
  end.

(** Tokens, each with the blanks behind it. *)
Definition spell (K : list (tok * list Z)) : list Z := K ≫= fun p => text (fst p) ++ snd p.

#[global] Arguments spell : simpl never.

Fixpoint spelled (K : list (tok * list Z)) : Prop :=
  match K with
  | [] => True
  | (t, b) :: K' =>
      valid_tok t /\ is_blank b /\ spelled K' /\
      match K' with (t', _) :: _ => sticky t t' = true -> b <> [] | [] => True end
  end.

Lemma spelled_app K1 K2 : spelled (K1 ++ K2) -> spelled K1 /\ spelled K2.
Proof.
  induction K1 as [|[t b] K1 IH]; simpl; [done|]. intros (Ht & Hb & Hs & Ha). destruct (IH Hs) as [H1 H2].
  split; [|done]. split; [done|]. split; [done|]. split; [done|]. by destruct K1 as [|[]].
Qed.

Lemma text_nonempty t : valid_tok t -> exists c w, text t = c :: w.
Proof. destruct t as [w|c|]; simpl; [intros [Hw _]; destruct w; [done|eauto]|eauto|eauto]. Qed.

Lemma spell_cons t b K : spell ((t, b) :: K) = text t ++ b ++ spell K.
Proof. unfold spell. simpl. by rewrite <- app_assoc. Qed.

Lemma spell_app K1 K2 : spell (K1 ++ K2) = spell K1 ++ spell K2.
Proof. unfold spell. apply bind_app. Qed.

Lemma length_spell K : spelled K -> (length K <= length (spell K))%nat.
Proof.
  induction K as [|[t b] K IH]; [done|]. intros (Ht & _ & Hs & _). rewrite spell_cons.
  rewrite !length_app. destruct (text_nonempty t Ht) as (c & w & ->). specialize (IH Hs). simpl. lia.
Qed.

(** The character that peek() sees. *)
Definition nxt (K : list (tok * list Z)) : Z := head0 (spell K).

Definition blank_char (c : Z) : bool := has_char whitespace c.

Lemma has_char_in s c : has_char s c = true -> c ∈ s /\ c <> 0.
Proof.
  unfold has_char. induction s as [|b s IH]; simpl.
  - destruct (Z.eqb_spec 0 0); done.
  - destruct (Z.eqb_spec b 0) as [-> |Hb]; [done|]. destruct (Z.eqb_spec b c) as [-> |Hc].
    + intros _. split; [left|done].
    + intros H. destruct IH as [H1 H2].
      * destruct (Ulib.strchr (s ++ [0]) c) as [[]|]; done.
      * split; [by right|done].
Qed.

Lemma sym_cases c : c ∈ str "|();&<>" ->
  c = chr "|" \/ c = chr "(" \/ c = chr ")" \/ c = chr ";" \/ c = chr "&" \/ c = chr "<" \/ c = chr ">".
Proof. unfold str. rewrite !elem_of_cons, elem_of_nil. tauto. Qed.

Lemma first_not_blank t c w : valid_tok t -> text t = c :: w -> has_char whitespace c = false.
Proof.
  destruct t as [x|x|]; simpl.
  - intros [_ Hw] ->. apply Forall_cons in Hw as [[Hw _] _]. unfold word_char in Hw.
    apply andb_prop in Hw as [Hw _]. by apply negb_true_iff.
  - intros Hx [= -> _]. destruct (sym_cases c Hx) as [-> |[-> |[-> |[-> |[-> |[-> | ->]]]]]]; done.
  - by intros _ [= <- _].
Qed.

Lemma span_app p a r : Forall (fun c => p c = true) a -> (p (head0 r) = false \/ r = []) -> span p (a ++ r) = length a.
Proof.
  intros Ha Hr. induction Ha as [|c a Hc Ha IH]; simpl.
  - destruct Hr as [Hr| ->]; [|done]. destruct r as [|c r]; [done|]. simpl in *. by rewrite Hr.
  - rewrite Hc. by f_equal.
Qed.

Lemma lstrip_spell b K : is_blank b -> spelled K -> lstrip (b ++ spell K) = spell K.
Proof.
  intros Hb HK. unfold lstrip. rewrite span_app; [by rewrite drop_app_length|done|].
  destruct K as [|[t b'] K]; [by right|left]. destruct HK as (Ht & _).
  destruct (text_nonempty t Ht) as (c & w & E). rewrite spell_cons, E. simpl. by eapply first_not_blank.
Qed.

Lemma nxt_cons t b K : valid_tok t -> nxt ((t, b) :: K) = head0 (text t).
Proof. intros Ht. unfold nxt. rewrite spell_cons. by destruct (text_nonempty t Ht) as (c & w & ->). Qed.

Lemma word_char_blank c : has_char whitespace c = true -> word_char c = false.
Proof. unfold word_char. by intros ->. Qed.

Lemma word_first c : word_char c = true -> c <> 0 -> has_char (str "|();&<") c = false /\ (c =? chr ">") = false.
Proof.
  intros Hc _. unfold word_char in Hc. apply andb_prop in Hc as [_ Hc]. apply negb_true_iff in Hc. split.
  - destruct (has_char (str "|();&<") c) eqn:E; [|done]. apply has_char_in in E as [Hin H0].
    unfold str in Hin. rewrite !elem_of_cons, elem_of_nil in Hin.
    destruct Hin as [-> |[-> |[-> |[-> |[-> |[-> |[]]]]]]]; done.
  - destruct (Z.eqb_spec c (chr ">")) as [-> |]; done.
Qed.

Lemma not_word_next b K :
  is_blank b -> spelled K -> (forall t b' K', K = (t, b') :: K' -> sticky (TWord []) t = true -> b <> []) ->
  word_char (head0 (b ++ spell K)) = false \/ b ++ spell K = [].
Proof.
  intros Hb HK Hs. destruct b as [|c b]; simpl.
  - destruct K as [|[t b'] K']; [by right|left]. destruct HK as (Ht & _).
    specialize (Hs t b' K' eq_refl). destruct t as [w|c|]; simpl in *.
    + by destruct (Hs eq_refl).
    + destruct (sym_cases c Ht) as [-> |[-> |[-> |[-> |[-> |[-> | ->]]]]]]; done.
    + done.
  - left. apply Forall_cons in Hb as [Hb _]. by apply word_char_blank.
Qed.

Lemma token_word c r : word_char c = true -> c <> 0 -> token (c :: r) = (chr "a", drop (span word_char (c :: r)) (c :: r)).
Proof. intros Hc H0. destruct (word_first c Hc H0) as [E1 E2]. unfold token. by rewrite E1, E2. Qed.

Lemma token_gt r : head0 r <> chr ">" -> token (chr ">" :: r) = (chr ">", r).
Proof.
  intros Hr. unfold token. change (has_char (str "|();&<") (chr ">")) with false. rewrite Z.eqb_refl.
  destruct r as [|d r]; [done|]. simpl head0 in Hr. by rewrite (proj2 (Z.eqb_neq d (chr ">")) Hr).
Qed.

Lemma token_spell t b K : spelled ((t, b) :: K) -> token (spell ((t, b) :: K)) = (kind t, b ++ spell K).
Proof.
  intros (Ht & Hb & HK & Hs).
  rewrite spell_cons.
  destruct t as [w|c|]; simpl in Ht.
  - destruct Ht as [Hw Hc]. simpl text. destruct w as [|c w]; [done|].
    pose proof Hc as Hc2. apply Forall_cons in Hc2 as [[Hc0 Hn0] _].
    change ((c :: w) ++ b ++ spell K) with (c :: (w ++ b ++ spell K)). rewrite token_word by done. f_equal.
    change (c :: (w ++ b ++ spell K)) with ((c :: w) ++ b ++ spell K).
    rewrite span_app; [by rewrite drop_app_length|by eapply Forall_impl; [exact Hc|intros x [? ?]]|].
    apply not_word_next; [done|done|]. intros t b' K' -> Hst. destruct t; simpl in *; [by apply Hs|done..].
  - simpl text. destruct (sym_cases c Ht) as [-> |[-> |[-> |[-> |[-> |[-> | ->]]]]]]; try done.
    apply token_gt. intros E. destruct b as [|d' b].
    + simpl app in E. destruct K as [|[t b'] K']; [done|]. destruct HK as (Ht' & _).
      destruct (text_nonempty t Ht') as (d' & w & Et). rewrite spell_cons, Et in E. change (d' = chr ">") in E. subst d'.
      destruct t as [x|x|]; simpl in *.
      * destruct Ht' as [_ Hx]. subst x. apply Forall_cons in Hx as [[Hx _] _]. done.
      * injection Et as -> _. by apply Hs.
      * by apply Hs.
    + change (d' = chr ">") in E. subst d'. apply Forall_cons in Hb as [Hb _]. done.
  - done.
Qed.
