(* ===== verification/ShParse.v ===== *)
(** What the shell's parser builds from a line that spells a command.

    [cmd] is the abstract syntax, [toks] prints it as tokens (with parentheses
    where the grammar needs them), and [rep] says that the nodes from a pointer on
    are the command, its words being pieces of the line ([word_at]). *)

From S2P Require Import Prelude Mem Riscv Locks Kalloc Vm Proc ProcFacts Kernel KernelFacts Ulib Sysfile Sh ShFacts.

Inductive redir := RIn | ROut | RApp.

Inductive cmd :=
| Exec (argv : list (list Z))
| Redir (c : cmd) (r : redir) (file : list Z)
| Pipe (left right : cmd)
| List (left right : cmd)
| Back (c : cmd).

Definition redir_tok (r : redir) : tok :=
  match r with RIn => TSym (chr "<") | ROut => TSym (chr ">") | RApp => TApp end.
Definition redir_mode (r : redir) : Z :=
  match r with
  | RIn => O_RDONLY
  | ROut => Z.lor (Z.lor O_WRONLY O_CREATE) O_TRUNC
  | RApp => Z.lor O_WRONLY O_CREATE
  end.
Definition redir_fd (r : redir) : Z := match r with RIn => 0 | _ => 1 end.

(** Level 0: a line; 1: pipelines with ampersands; 2: a pipeline; 3: a command
    with its redirections. *)
Definition paren (b : bool) (ts : list tok) : list tok :=
  if b then TSym (chr "(") :: ts ++ [TSym (chr ")")] else ts.

Fixpoint toks (level : nat) (c : cmd) : list tok :=
  match c with
  | Exec ws => TWord <$> ws
  | Redir c r f => toks 3 c ++ [redir_tok r; TWord f]
  | Pipe c d => paren (2 <? level)%nat (toks 3 c ++ TSym (chr "|") :: toks 2 d)
  | List c d => paren (0 <? level)%nat (toks 1 c ++ TSym (chr ";") :: toks 0 d)
  | Back c => paren (1 <? level)%nat (toks 1 c ++ [TSym (chr "&")])
  end.

(** At most nine words (argv needs a null pointer behind them). *)
Fixpoint valid_cmd (c : cmd) : Prop :=
  match c with
  | Exec ws => Forall is_word ws /\ (length ws <= 9)%nat
  | Redir c _ f => valid_cmd c /\ is_word f
  | Pipe c d | List c d => valid_cmd c /\ valid_cmd d
  | Back c => valid_cmd c
  end.

(** ** The nodes of a command *)

(** The word [w] is in the line between [q] and [e], and the word ends there. *)
Definition word_at (l : list Z) (p : Z * Z) (w : list Z) : Prop :=
  is_word w /\ snd p = fst p + Z.of_nat (length w) /\
  exists r, here l (fst p) (w ++ r) /\ (word_char (head0 r) = false \/ r = []).

Section Rep.
Context (W : Z * Z -> list Z -> Prop).

Definition pad (xs : list Z) : list (option Z) := (Some <$> xs) ++ replicate (10 - length xs) None.

Inductive rep (N : list node) : Z -> cmd -> Prop :=
| rep_exec p sp ws :
    geti N p = Some (EXEC (pad sp.*1) (pad sp.*2)) -> Forall2 W sp ws -> (length ws <= 9)%nat ->
    rep N p (Exec ws)
| rep_redir p c' c r q e f :
    geti N p = Some (REDIR c' q e (redir_mode r) (redir_fd r)) -> rep N c' c -> W (q, e) f -> c' < p ->
    rep N p (Redir c r f)
| rep_pipe p a b c d :
    geti N p = Some (PIPE a b) -> rep N a c -> rep N b d -> a < p -> b < p -> rep N p (Pipe c d)
| rep_list p a b c d :
    geti N p = Some (LIST a b) -> rep N a c -> rep N b d -> a < p -> b < p -> rep N p (List c d)
| rep_back p a c :
    geti N p = Some (BACK a) -> rep N a c -> a < p -> rep N p (Back c).

Lemma rep_lt N p c : rep N p c -> 0 <= p < Z.of_nat (length N).
Proof. destruct 1 as [? ? ? E|? ? ? ? ? ? ? E|? ? ? ? ? E|? ? ? ? ? E|? ? ? E]; by eapply geti_Some_lt. Qed.

Lemma geti_app_l {A} (N M : list A) p x : geti N p = Some x -> geti (N ++ M) p = Some x.
Proof. unfold geti. destruct (0 <=? p); [|done]. intros E. by apply lookup_app_l_Some. Qed.

Lemma rep_app N M p c : rep N p c -> rep (N ++ M) p c.
Proof.
  induction 1; econstructor; eauto using geti_app_l.
Qed.

Lemma geti_new {A} (N : list A) x : geti (N ++ [x]) (Z.of_nat (length N)) = Some x.
Proof.
  unfold geti. rewrite (proj2 (Z.leb_le 0 _)) by lia. rewrite Nat2Z.id. by apply list_lookup_middle.
Qed.

(** Redirections [rs] around the node [p0], the outermost at [p]. *)
Inductive wraps (N : list node) (p0 : Z) : list (redir * list Z) -> Z -> Prop :=
| wraps_nil : wraps N p0 [] p0
| wraps_snoc rs p p' r q e f :
    wraps N p0 rs p -> geti N p' = Some (REDIR p q e (redir_mode r) (redir_fd r)) -> W (q, e) f -> p < p' ->
    wraps N p0 (rs ++ [(r, f)]) p'.

Definition redirs (c : cmd) (rs : list (redir * list Z)) : cmd := fold_left (fun c p => Redir c (fst p) (snd p)) rs c.

Lemma wraps_rep N p0 rs p c : wraps N p0 rs p -> rep N p0 c -> rep N p (redirs c rs).
Proof.
  intros Hw Hc. induction Hw as [|rs p p' r q e f Hw IH E Hf Hlt]; [done|].
  unfold redirs. rewrite fold_left_app. simpl. by econstructor.
Qed.

Lemma wraps_le N p0 rs p : wraps N p0 rs p -> p0 <= p.
Proof. induction 1; lia. Qed.

Lemma wraps_app N M p0 rs p : wraps N p0 rs p -> wraps (N ++ M) p0 rs p.
Proof. induction 1; econstructor; eauto using geti_app_l. Qed.

End Rep.

(** A command and the redirections around it. *)
Fixpoint core (c : cmd) : cmd := match c with Redir c _ _ => core c | _ => c end.
Fixpoint rlist (c : cmd) : list (redir * list Z) :=
  match c with Redir c r f => rlist c ++ [(r, f)] | _ => [] end.

Definition redir_toks (rs : list (redir * list Z)) : list tok := rs ≫= fun p => [redir_tok (fst p); TWord (snd p)].

Lemma core_redirs c : redirs (core c) (rlist c) = c.
Proof. induction c as [|c IH r f| | |]; try done. simpl. unfold redirs in *. rewrite fold_left_app, IH. done. Qed.

Lemma toks_core c : toks 3 c = toks 3 (core c) ++ redir_toks (rlist c).
Proof.
  induction c as [|c IH r f| | |]; simpl; rewrite ?app_nil_r; try done.
  rewrite IH. unfold redir_toks. rewrite bind_app, <- app_assoc. done.
Qed.

Lemma core_valid c : valid_cmd c -> valid_cmd (core c) /\ Forall (fun p => is_word (snd p)) (rlist c).
Proof.
  induction c as [|c IH r f| | |]; simpl; try done.
  intros [Hc Hf]. destruct (IH Hc) as [H1 H2]. split; [done|]. apply Forall_app. by split; [|constructor].
Qed.

(** ** Runs over the tokens *)

Section Run.
Context (l : list Z).
Hypothesis Hl : 0 ∉ l.

(** The parser is in front of the tokens [K]. *)
Record at_toks (s : shell) (K : list (tok * list Z)) : Prop := {
  at_line : has_line l (sbuf s);
  at_spelled : spelled K;
  at_pos : exists b, is_blank b /\ here l (spos s) (b ++ spell K);
}.

Definition pos_of (K : list (tok * list Z)) : Z := Z.of_nat (length l) - Z.of_nat (length (spell K)).
Definition goto (K : list (tok * list Z)) (s : shell) : shell := s {{ spos := pos_of K }}.

Lemma at_here s K : at_toks s K -> here l (pos_of K) (spell K).
Proof. intros [_ _ (b & _ & [_ [a Ha]])]. split; [done|]. exists (a ++ b). by rewrite <- app_assoc. Qed.

Lemma at_goto s K K' : at_toks s K -> spelled K' -> (exists a, K = a ++ K') -> at_toks (goto K' s) K'.
Proof.
  intros Ha HK [a ->]. pose proof (at_here _ _ Ha) as [_ [a' Ha']]. destruct Ha as [H1 H2 H3].
  split; [done|done|]. exists []. split; [constructor|]. split; [done|].
  exists (a' ++ spell a). by rewrite Ha', spell_app, <- app_assoc.
Qed.

Lemma at_goto_same s K : at_toks s K -> at_toks (goto K s) K.
Proof. intros Ha. apply (at_goto s K); [done|apply Ha|by exists []]. Qed.

Lemma at_bound s K : at_toks s K -> (length K <= Z.to_nat (Z.of_nat (length l)))%nat.
Proof.
  intros Ha. pose proof (at_here _ _ Ha) as [_ [a E]]. apply (f_equal length) in E. rewrite length_app in E.
  pose proof (length_spell K (at_spelled _ _ Ha)). lia.
Qed.

Lemma peek_at cs s K :
  at_toks s K -> peek (Z.of_nat (length l)) cs s = Done (negb (nxt K =? 0) && has_char cs (nxt K)) (goto K s).
Proof.
  intros [H1 H2 (b & Hb & Hh)]. rewrite (peek_eq l Hl cs _ _ H1 Hh). by rewrite lstrip_spell.
Qed.

Lemma gettoken_at s t b K :
  at_toks s ((t, b) :: K) ->
  gettoken (Z.of_nat (length l)) s
  = Done (kind t, pos_of ((t, b) :: K), pos_of ((t, b) :: K) + Z.of_nat (length (text t))) (goto K s) /\
  at_toks (goto K s) K.
Proof.
  intros Ha. assert (Hn : at_toks (goto K s) K).
  { apply (at_goto s ((t, b) :: K)); [done|apply (at_spelled _ _ Ha)|by exists [(t, b)]]. }
  split; [|done]. pose proof (at_here _ _ Ha) as Hhere. destruct Ha as [H1 H2 (b0 & Hb & Hh)].
  rewrite (gettoken_eq l Hl _ _ H1 Hh). rewrite lstrip_spell by done. rewrite token_spell by done. cbn [fst snd].
  destruct H2 as (Ht & Hb' & HK & _). rewrite (lstrip_spell b K) by done. unfold pos_of.
  do 2 f_equal. rewrite spell_cons, !length_app. lia.
Qed.

Lemma gettoken_end s :
  at_toks s [] -> gettoken (Z.of_nat (length l)) s = Done (0, Z.of_nat (length l), Z.of_nat (length l)) (goto [] s).
Proof.
  intros [H1 H2 (b0 & Hb & Hh)]. rewrite (gettoken_eq l Hl _ _ H1 Hh). rewrite lstrip_spell by done.
  simpl. unfold goto, pos_of. simpl. by rewrite Z.sub_0_r.
Qed.

(** A word token is a word of the line. *)
Lemma word_at_tok s w b K :
  at_toks s ((TWord w, b) :: K) ->
  word_at l (pos_of ((TWord w, b) :: K), pos_of ((TWord w, b) :: K) + Z.of_nat (length w)) w.
Proof.
  intros Ha. pose proof (at_here _ _ Ha) as Hh. destruct Ha as [_ (Ht & Hb & HK & Hs) _]. split; [done|].
  split; [done|]. exists (b ++ spell K). split; [by rewrite spell_cons in Hh|].
  apply not_word_next; [done|done|]. intros t b' K' -> Hst. destruct t; simpl in *; [by apply Hs|done..].
Qed.

Lemma goto_nodes K s : nodes (goto K s) = nodes s.
Proof. done. Qed.

Lemma at_nodes s K N : at_toks s K -> at_toks (s {{ nodes := N }}) K.
Proof. intros [H1 H2 H3]. by split. Qed.

(** The state behind the tokens, with new nodes. *)
Definition past (K : list (tok * list Z)) (M : list node) (s : shell) : shell :=
  s {{ spos := pos_of K; nodes ::= fun N => N ++ M }}.

Lemma past_at s K K' M : at_toks s K -> spelled K' -> (exists a, K = a ++ K') -> at_toks (past K' M s) K'.
Proof. intros H1 H2 H3. apply (at_nodes (goto K' s)). by eapply at_goto. Qed.

Lemma past_past K K' M M' s : past K' M' (past K M s) = past K' (M ++ M') s.
Proof. unfold past. cbn. by rewrite app_assoc. Qed.

Lemma alloc_past n K s :
  alloc_node n (goto K s) = Done (Z.of_nat (length (nodes s))) (past K [n] s).
Proof. done. Qed.

Lemma redir_seen r b K : nxt ((redir_tok r, b) :: K) = head0 (text (redir_tok r)).
Proof. apply nxt_cons. destruct r; [| |done]; apply (bool_decide_unpack _); vm_compute; exact I. Qed.

(** One redirection. *)
Lemma redir_round r b1 f b2 K p s :
  at_toks s ((redir_tok r, b1) :: (TWord f, b2) :: K) ->
  exists q e, word_at l (q, e) f /\
  redir_step (Z.of_nat (length l)) p s
  = Done (inl (Z.of_nat (length (nodes s)))) (past K [REDIR p q e (redir_mode r) (redir_fd r)] s).
Proof.
  intros Ha. set (K0 := (redir_tok r, b1) :: (TWord f, b2) :: K) in *.
  pose proof (at_goto_same s K0 Ha) as Ha0.
  destruct (gettoken_at _ _ _ _ Ha0) as [E1 Ha1]. destruct (gettoken_at _ _ _ _ Ha1) as [E2 Ha2].
  exists (pos_of ((TWord f, b2) :: K)), (pos_of ((TWord f, b2) :: K) + Z.of_nat (length f)).
  split; [by eapply word_at_tok|].
  unfold redir_step. rewrite (bind_done _ _ _ _ _ (peek_at _ _ _ Ha)). unfold K0 at 1 2. rewrite redir_seen.
  replace (_ && _) with true by (by destruct r).
  rewrite (bind_done _ _ _ _ _ E1), (bind_done _ _ _ _ _ E2). cbn [kind text].
  change (negb (chr "a" =? chr "a")) with false. cbv iota. by destruct r.
Qed.

Lemma parseredirs_loop rs : forall n s K1 K p rs0 p0,
  at_toks s (K1 ++ K) -> K1.*1 = redir_toks rs -> has_char (str "<>") (nxt K) = false ->
  wraps (word_at l) (nodes s) p0 rs0 p -> 0 <= p < Z.of_nat (length (nodes s)) -> (length rs < n)%nat ->
  exists M p', loop n (redir_step (Z.of_nat (length l))) p s = Done p' (past K M s) /\
    wraps (word_at l) (nodes s ++ M) p0 (rs0 ++ rs) p' /\ 0 <= p' < Z.of_nat (length (nodes s ++ M)).
Proof.
  induction rs as [|[r f] rs IH]; intros n s K1 K p rs0 p0 Ha EK Hn Hw Hp Hf.
  - simpl in EK. apply fmap_nil_inv in EK as ->. destruct n as [|n]; [simpl in Hf; lia|].
    exists [], p. rewrite !app_nil_r. split; [|done]. rewrite (loop_break _ _ _ _ p (goto K s)).
    + unfold past, goto. cbn. by rewrite app_nil_r.
    + unfold redir_step. rewrite (bind_done _ _ _ _ _ (peek_at _ _ _ Ha)). change ([] ++ K) with K. by rewrite Hn, andb_false_r.
  - simpl in EK. destruct K1 as [|[t1 b1] [|[t2 b2] K1]]; try done. injection EK as -> -> EK.
    destruct n as [|n]; [simpl in Hf; lia|].
    destruct (redir_round r b1 f b2 (K1 ++ K) p s Ha) as (q & e & Hwd & E).
    rewrite (loop_continue _ _ _ _ _ _ E).
    set (n0 := REDIR p q e (redir_mode r) (redir_fd r)) in *. set (s1 := past (K1 ++ K) [n0] s).
    assert (En : nodes s1 = nodes s ++ [n0]) by done.
    assert (Ha1 : at_toks s1 (K1 ++ K)).
    { eapply past_at; [exact Ha| |by exists [(redir_tok r, b1); (TWord f, b2)]].
      apply (spelled_app [(redir_tok r, b1); (TWord f, b2)] (K1 ++ K)). apply (at_spelled _ _ Ha). }
    destruct (IH n s1 K1 K (Z.of_nat (length (nodes s))) (rs0 ++ [(r, f)]) p0 Ha1 EK Hn) as (M & p' & E2 & Hw2 & Hp2).
    + rewrite En. econstructor; [by apply wraps_app|apply geti_new|done|lia].
    + rewrite En, length_app. simpl. lia.
    + simpl in Hf. lia.
    + exists (n0 :: M), p'.
      rewrite En, <- !app_assoc in Hw2. rewrite En, <- app_assoc in Hp2.
      unfold s1 in E2. rewrite past_past in E2. done.
Qed.

Lemma redir_toks_length rs : length (redir_toks rs) = (2 * length rs)%nat.
Proof. induction rs as [|r rs IH]; [done|]. change (length (redir_toks (r :: rs))) with (2 + length (redir_toks rs))%nat. simpl. lia. Qed.

Lemma parseredirs_run rs s K1 K p :
  at_toks s (K1 ++ K) -> K1.*1 = redir_toks rs -> has_char (str "<>") (nxt K) = false ->
  0 <= p < Z.of_nat (length (nodes s)) ->
  exists M p', parseredirs p (Z.of_nat (length l)) s = Done p' (past K M s) /\
    wraps (word_at l) (nodes s ++ M) p rs p' /\ 0 <= p' < Z.of_nat (length (nodes s ++ M)).
Proof.
  intros Ha EK Hn Hp. apply (parseredirs_loop rs _ s K1 K p [] p); try done; [constructor|].
  pose proof (at_bound _ _ Ha) as Hb. rewrite length_app in Hb. apply (f_equal length) in EK.
  rewrite length_fmap, redir_toks_length in EK. lia.
Qed.

Lemma parseredirs_none p s K :
  at_toks s K -> has_char (str "<>") (nxt K) = false ->
  parseredirs p (Z.of_nat (length l)) s = Done p (goto K s).
Proof.
  intros Ha Hn. apply loop_break. unfold redir_step.
  rewrite (bind_done _ _ _ _ _ (peek_at _ _ _ Ha)). by rewrite Hn, andb_false_r.
Qed.

(** ** Arguments *)

Lemma length_pad xs : (length xs <= 10)%nat -> length (pad xs) = 10%nat.
Proof. intros. unfold pad. rewrite length_app, length_fmap, length_replicate. lia. Qed.

Lemma pad_none xs : seti (Z.of_nat (length xs)) None (pad xs) = pad xs.
Proof.
  unfold seti. rewrite (proj2 (Z.leb_le 0 _)) by lia. rewrite Nat2Z.id.
  destruct (decide (length xs < 10)%nat) as [H|H].
  - apply list_insert_id. unfold pad. rewrite lookup_app_r by (rewrite length_fmap; lia).
    rewrite length_fmap, Nat.sub_diag. apply lookup_replicate_2. lia.
  - apply list_insert_ge. unfold pad. rewrite length_app, length_fmap, length_replicate. lia.
Qed.

Lemma pad_snoc xs x : (length xs < 10)%nat -> seti (Z.of_nat (length xs)) (Some x) (pad xs) = pad (xs ++ [x]).
Proof.
  intros H. unfold seti. rewrite (proj2 (Z.leb_le 0 _)) by lia. rewrite Nat2Z.id. unfold pad.
  rewrite fmap_app, length_app. simpl. rewrite <- (Nat.add_0_r (length xs)) at 1.
  rewrite <- (length_fmap Some xs) at 1. rewrite insert_app_r, <- app_assoc. simpl.
  replace (10 - length xs)%nat with (Datatypes.S (10 - (length xs + 1))) by lia. done.
Qed.

Lemma seti_new {A} (N : list A) x y M : seti (Z.of_nat (length N)) y (N ++ x :: M) = N ++ y :: M.
Proof.
  unfold seti. rewrite (proj2 (Z.leb_le 0 _)) by lia. rewrite Nat2Z.id.
  rewrite <- (Nat.add_0_r (length N)). by rewrite insert_app_r.
Qed.

Lemma geti_mid {A} (N : list A) x M : geti (N ++ x :: M) (Z.of_nat (length N)) = Some x.
Proof.
  unfold geti. rewrite (proj2 (Z.leb_le 0 _)) by lia. rewrite Nat2Z.id. by apply list_lookup_middle.
Qed.

Definition exec_node (sp : list (Z * Z)) : node := EXEC (pad sp.*1) (pad sp.*2).

Lemma set_arg_ok N sp M q e s :
  nodes s = N ++ exec_node sp :: M -> (length sp < 10)%nat ->
  set_arg (Z.of_nat (length N)) (Z.of_nat (length sp)) (Some q) (Some e) s
  = Done tt (s {{ nodes := N ++ exec_node (sp ++ [(q, e)]) :: M }}).
Proof.
  intros En Hl10. unfold set_arg. erewrite bind_done by done. rewrite En, geti_mid. unfold exec_node at 1.
  replace (_ || _) with false by (symmetry; apply orb_false_iff; unfold MAXARGS; lia).
  unfold modify. destruct s as [b0 p0 N']. unfold apply_update. cbn in *. subst N'. rewrite seti_new. unfold exec_node.
  rewrite !fmap_app. simpl.
  rewrite <- (length_fmap fst sp) at 1. rewrite pad_snoc by (rewrite length_fmap; lia).
  rewrite <- (length_fmap snd sp) at 1. rewrite pad_snoc by (rewrite length_fmap; lia). done.
Qed.

Lemma set_arg_end N sp M s :
  nodes s = N ++ exec_node sp :: M -> (length sp < 10)%nat ->
  set_arg (Z.of_nat (length N)) (Z.of_nat (length sp)) None None s = Done tt s.
Proof.
  intros En Hl10. unfold set_arg. erewrite bind_done by done. rewrite En, geti_mid. unfold exec_node at 1.
  replace (_ || _) with false by (symmetry; apply orb_false_iff; unfold MAXARGS; lia).
  unfold modify. f_equal. destruct s as [b p N']. unfold apply_update. cbn in *. subst N'. f_equal. rewrite seti_new. unfold exec_node.
  do 3 f_equal.
  - rewrite <- (length_fmap fst sp) at 1. by rewrite pad_none.
  - rewrite <- (length_fmap snd sp) at 1. by rewrite pad_none.
Qed.

Lemma nxt_zero K : spelled K -> nxt K = 0 -> K = [].
Proof.
  destruct K as [|[t b] K]; [done|]. intros (Ht & _) E. rewrite nxt_cons in E by done.
  destruct t as [w|c|]; simpl in *; [|by destruct (sym_cases c Ht) as [-> |[-> |[-> |[-> |[-> |[-> | ->]]]]]]|done].
  destruct Ht as [Hw Hc]. destruct w as [|c w]; [done|]. by apply Forall_cons in Hc as [[_ Hc] _].
Qed.

Lemma word_not_sym w cs : is_word w -> (forall c, c ∈ cs -> word_char c = false) -> has_char cs (head0 w) = false.
Proof.
  intros [Hw Hc] Hcs. destruct w as [|c w]; [done|]. apply Forall_cons in Hc as [[Hc _] _]. simpl head0.
  destruct (has_char cs c) eqn:E; [|done]. apply has_char_in in E as [E _]. rewrite Hcs in Hc by done. done.
Qed.

Ltac all_syms := unfold str; intros ?; rewrite !elem_of_cons, elem_of_nil; intros Hin;
  repeat (destruct Hin as [-> |Hin]; [reflexivity|]); destruct Hin.

(** What may follow a command with its redirections. *)
Definition follow3 (K : list (tok * list Z)) : Prop := nxt K = 0 \/ has_char (str "|)&;") (nxt K) = true.

Lemma follow3_cases K : follow3 K ->
  nxt K = 0 \/ nxt K = chr "|" \/ nxt K = chr ")" \/ nxt K = chr "&" \/ nxt K = chr ";".
Proof.
  intros [H|H]; [tauto|]. apply has_char_in in H as [H _]. unfold str in H.
  rewrite !elem_of_cons, elem_of_nil in H. tauto.
Qed.

Lemma follow3_redir K : follow3 K -> has_char (str "<>") (nxt K) = false.
Proof. intros H. destruct (follow3_cases K H) as [-> |[-> |[-> |[-> | ->]]]]; done. Qed.

Lemma goto_goto K K' s : goto K (goto K' s) = goto K s.
Proof. done. Qed.

Lemma args_end p0 i r s K :
  at_toks s K -> follow3 K -> arg_step (Z.of_nat (length l)) p0 (i, r) s = Done (inr (i, r)) (goto K s).
Proof.
  intros Ha Hf. unfold arg_step. rewrite (bind_done _ _ _ _ _ (peek_at _ _ _ Ha)).
  destruct Hf as [E|E].
  - pose proof (nxt_zero K (at_spelled _ _ Ha) E) as ->. rewrite E. cbn [negb andb Z.eqb].
    rewrite (bind_done _ _ _ _ _ (gettoken_end _ (at_goto_same _ _ Ha))). done.
  - rewrite E. destruct (Z.eqb_spec (nxt K) 0) as [E0|_]; [rewrite E0 in E; done|]. done.
Qed.

Lemma args_round N sp w b K s :
  at_toks s ((TWord w, b) :: K) -> nodes s = N ++ [exec_node sp] -> (length sp <= 8)%nat ->
  exists q e, word_at l (q, e) w /\
    arg_step (Z.of_nat (length l)) (Z.of_nat (length N)) (Z.of_nat (length sp), Z.of_nat (length N)) s
    = (r <- parseredirs (Z.of_nat (length N)) (Z.of_nat (length l));; continue (Z.of_nat (length sp) + 1, r))
        (goto K s {{ nodes := N ++ [exec_node (sp ++ [(q, e)])] }}).
Proof.
  intros Ha En Hlen. set (K0 := (TWord w, b) :: K) in *.
  pose proof (at_goto_same s K0 Ha) as Ha0. destruct (gettoken_at _ _ _ _ Ha0) as [E1 Ha1].
  exists (pos_of K0), (pos_of K0 + Z.of_nat (length w)). split; [by eapply word_at_tok|].
  assert (Hw : is_word w) by apply (at_spelled _ _ Ha).
  unfold arg_step. rewrite (bind_done _ _ _ _ _ (peek_at _ _ _ Ha)).
  replace (nxt K0) with (head0 w) by (symmetry; by apply (nxt_cons (TWord w))).
  rewrite (word_not_sym w) by (done || all_syms). rewrite andb_false_r.
  rewrite (bind_done _ _ _ _ _ E1). cbn [kind text]. change (chr "a" =? 0) with false.
  change (negb (chr "a" =? chr "a")) with false. cbv iota.
  erewrite bind_done by (apply set_arg_ok; [exact En|lia]).
  replace (MAXARGS <=? _) with false by (symmetry; apply Z.leb_gt; unfold MAXARGS; lia). done.
Qed.

Lemma args_loop ws : forall n s N sp W KR K rs,
  at_toks s (W ++ KR ++ K) -> W.*1 = TWord <$> ws -> ws <> [] -> KR.*1 = redir_toks rs -> follow3 K ->
  nodes s = N ++ [exec_node sp] -> (length sp + length ws <= 9)%nat -> (length ws < n)%nat ->
  exists M p' sp', Forall2 (word_at l) sp' ws /\
    loop n (arg_step (Z.of_nat (length l)) (Z.of_nat (length N))) (Z.of_nat (length sp), Z.of_nat (length N)) s
    = Done (Z.of_nat (length (sp ++ sp')), p') (s {{ spos := pos_of K; nodes := N ++ exec_node (sp ++ sp') :: M }}) /\
    wraps (word_at l) (N ++ exec_node (sp ++ sp') :: M) (Z.of_nat (length N)) rs p'.
Proof.
  induction ws as [|w ws IH]; intros n s N sp W KR K rs Ha EW Hne EKR Hf En Hlen Hn; [done|].
  destruct W as [|[t b] W]; [done|]. injection EW as -> EW. destruct n as [|n]; [lia|]. simpl in Hlen, Hn.
  destruct (args_round N sp w b (W ++ KR ++ K) s Ha En ltac:(lia)) as (q & e & Hwd & E).
  set (s1 := goto (W ++ KR ++ K) s {{ nodes := N ++ [exec_node (sp ++ [(q, e)])] }}) in *.
  assert (Ha1 : at_toks s1 (W ++ KR ++ K)).
  { apply (at_nodes (goto (W ++ KR ++ K) s) (W ++ KR ++ K)). eapply at_goto; [exact Ha| |by exists [(TWord w, b)]].
    apply (spelled_app [(TWord w, b)] (W ++ KR ++ K)). apply (at_spelled _ _ Ha). }
  assert (En1 : nodes s1 = N ++ [exec_node (sp ++ [(q, e)])]) by done.
  assert (Hp : 0 <= Z.of_nat (length N) < Z.of_nat (length (nodes s1))) by (rewrite En1, length_app; simpl; lia).
  destruct ws as [|w' ws].
  - apply fmap_nil_inv in EW as ->.
    destruct (parseredirs_run rs s1 KR K (Z.of_nat (length N)) Ha1 EKR (follow3_redir K Hf) Hp) as (M & p' & E2 & Hw2 & _).
    rewrite En1 in Hw2. rewrite <- app_assoc in Hw2. simpl in Hw2.
    exists M, p', [(q, e)]. split; [by constructor|]. split; [|done].
    erewrite loop_continue by (rewrite E; by rewrite (bind_done _ _ _ _ _ E2)).
    destruct n as [|n]; [lia|]. rewrite length_app. simpl length.
    replace (Z.of_nat (length sp + 1)) with (Z.of_nat (length sp) + 1) by lia.
    assert (Ha2 : at_toks (past K M s1) K).
    { eapply past_at; [exact Ha1| |by exists KR]. apply (spelled_app KR K). apply (at_spelled _ _ Ha1). }
    rewrite (loop_break _ _ _ _ _ _ (args_end _ _ _ _ _ Ha2 Hf)).
    f_equal. unfold past, goto, s1, goto. cbn. by rewrite <- app_assoc.
  - assert (Hnr : has_char (str "<>") (nxt (W ++ KR ++ K)) = false).
    { destruct W as [|[t b'] W]; [done|]. injection EW as -> _. simpl app.
      assert (Hw' : is_word w') by apply (at_spelled _ _ Ha1). rewrite nxt_cons by done. simpl text.
      apply word_not_sym; [done|all_syms]. }
    pose proof (parseredirs_none (Z.of_nat (length N)) s1 _ Ha1 Hnr) as E2.
    destruct (IH n (goto (W ++ KR ++ K) s1) N (sp ++ [(q, e)]) W KR K rs) as (M & p' & sp' & Hsp & E3 & Hw3);
      try done; [rewrite length_app; simpl in *; lia|simpl in *; lia|].
    exists M, p', ((q, e) :: sp'). split; [by constructor|].
    replace (sp ++ (q, e) :: sp') with ((sp ++ [(q, e)]) ++ sp') by (by rewrite <- app_assoc). split; [|done].
    erewrite loop_continue by (rewrite E; by rewrite (bind_done _ _ _ _ _ E2)).
    replace (Z.of_nat (length sp) + 1) with (Z.of_nat (length (sp ++ [(q, e)]))) by (rewrite length_app; simpl; lia).
    exact E3.
Qed.

Lemma spelled_tail s K1 K2 : at_toks s (K1 ++ K2) -> spelled K2.
Proof. intros Ha. apply (spelled_app K1 K2), (at_spelled _ _ Ha). Qed.

(** A simple command with its redirections. *)
Lemma parseargs_run ws rs s W KR K :
  at_toks s (W ++ KR ++ K) -> W.*1 = TWord <$> ws -> KR.*1 = redir_toks rs -> follow3 K ->
  Forall is_word ws -> (length ws <= 9)%nat ->
  exists M p', parseargs (Z.of_nat (length l)) s = Done p' (past K M s) /\
    rep (word_at l) (nodes s ++ M) p' (redirs (Exec ws) rs).
Proof.
  intros Ha EW EKR Hf Hws Hlen. set (N := nodes s). set (s0 := s {{ nodes := N ++ [exec_node []] }}).
  assert (E0 : execcmd s = Done (Z.of_nat (length N)) s0) by done.
  assert (Ha0 : at_toks s0 (W ++ KR ++ K)) by by apply at_nodes.
  assert (Hrs : spelled K) by (apply (spelled_tail s (W ++ KR)); by rewrite <- app_assoc).
  unfold parseargs. rewrite (bind_done _ _ _ _ _ E0).
  destruct ws as [|w ws].
  - apply fmap_nil_inv in EW as ->. simpl app in *.
    assert (Hp : 0 <= Z.of_nat (length N) < Z.of_nat (length (nodes s0))).
    { change (nodes s0) with (N ++ [exec_node []]). rewrite length_app. simpl. lia. }
    destruct (parseredirs_run rs s0 KR K _ Ha0 EKR (follow3_redir K Hf) Hp) as (M & p' & E1 & Hw & _).
    change (nodes s0) with (N ++ [exec_node []]) in Hw. rewrite <- app_assoc in Hw. simpl in Hw.
    rewrite (bind_done _ _ _ _ _ E1).
    assert (Ha1 : at_toks (past K M s0) K) by (eapply past_at; [exact Ha0|done|by exists KR]).
    assert (En1 : nodes (past K M s0) = N ++ exec_node [] :: M).
    { change (nodes (past K M s0)) with ((N ++ [exec_node []]) ++ M). by rewrite <- app_assoc. }
    rewrite (bind_done _ _ _ _ _ (loop_break _ _ _ _ _ _ (args_end _ _ _ _ _ Ha1 Hf))). cbn [fst snd].
    rewrite (bind_done _ _ _ _ _ (set_arg_end N [] M (goto K (past K M s0)) En1 ltac:(simpl; lia))).
    exists (exec_node [] :: M), p'. split.
    + unfold ret. f_equal. unfold goto, past, s0. cbn. by rewrite <- app_assoc.
    + eapply wraps_rep; [exact Hw|]. eapply (rep_exec _ _ _ []); [apply geti_mid|constructor|simpl; lia].
  - assert (Hnr : has_char (str "<>") (nxt (W ++ KR ++ K)) = false).
    { destruct W as [|[t b'] W]; [done|]. injection EW as -> _. simpl app.
      assert (Hw' : is_word w) by by inversion Hws. rewrite nxt_cons by done. simpl text.
      apply word_not_sym; [done|all_syms]. }
    rewrite (bind_done _ _ _ _ _ (parseredirs_none _ _ _ Ha0 Hnr)).
    pose proof (at_goto_same _ _ Ha0) as Ha1.
    pose proof (at_bound _ _ Ha0) as Hb. rewrite length_app in Hb.
    assert (HlW : length W = length (w :: ws)) by (rewrite <- (length_fmap fst W), EW, length_fmap; done).
    destruct (args_loop (w :: ws) (S (Z.to_nat (Z.of_nat (length l)))) (goto (W ++ KR ++ K) s0) N [] W KR K rs)
      as (M & p' & sp & Hsp & E2 & Hw); try done; [lia|].
    change (Z.of_nat (length (@nil (Z * Z)))) with 0 in E2. change ([] ++ sp) with sp in *.
    rewrite (bind_done _ _ _ _ _ E2). cbn [fst snd].
    assert (Hlsp : length sp = length (w :: ws)) by by eapply Forall2_length.
    erewrite bind_done by (apply (set_arg_end N sp M); [done|simpl in Hlen, Hlsp; lia]).
    exists (exec_node sp :: M), p'. split; [done|].
    eapply wraps_rep; [exact Hw|]. eapply (rep_exec _ _ _ sp); [apply geti_mid|done|done].
Qed.

(** ** Unfolding the grammar's functions *)

Lemma parseline_S m es : parseline (S m) es =
  (cmd <- parsepipe m es;;
   cmd <- loop (Datatypes.S (Z.to_nat es)) (back_step es) cmd;;
   b <- peek es (str ";");;
   if b then
     gettoken es;;;
     r <- parseline m es;;
     listcmd cmd r
   else ret cmd).
Proof. done. Qed.

Lemma parsepipe_S m es : parsepipe (S m) es =
  (cmd <- parseexec m es;;
   b <- peek es (str "|");;
   if b then
     gettoken es;;;
     r <- parsepipe m es;;
     pipecmd cmd r
   else ret cmd).
Proof. done. Qed.

Lemma parseexec_S m es : parseexec (S m) es = (b <- peek es (str "(");; if b then parseblock m es else parseargs es).
Proof. done. Qed.

Lemma parseblock_S m es : parseblock (S m) es =
  (b <- peek es (str "(");;
   if negb b then panic "parseblock"
   else
     gettoken es;;;
     cmd <- parseline m es;;
     b <- peek es (str ")");;
     if negb b then panic "syntax - missing )"
     else
       gettoken es;;;
       parseredirs cmd es).
Proof. done. Qed.

(** ** The grammar *)

(** What may follow a pipeline, and a line. *)
Definition follow2 (K : list (tok * list Z)) : Prop := nxt K = 0 \/ has_char (str ")&;") (nxt K) = true.
Definition follow0 (K : list (tok * list Z)) : Prop := nxt K = 0 \/ nxt K = chr ")".

Lemma follow2_cases K : follow2 K -> nxt K = 0 \/ nxt K = chr ")" \/ nxt K = chr "&" \/ nxt K = chr ";".
Proof.
  intros [H|H]; [tauto|]. apply has_char_in in H as [H _]. unfold str in H.
  rewrite !elem_of_cons, elem_of_nil in H. tauto.
Qed.

Lemma follow_23 K : follow2 K -> follow3 K.
Proof. intros H. unfold follow3. destruct (follow2_cases K H) as [-> |[-> |[-> | ->]]]; [by left|by right..]. Qed.

Lemma follow_02 K : follow0 K -> follow2 K.
Proof. intros [H|H]; unfold follow2; rewrite H; [by left|by right]. Qed.

(** A run that leaves the parser in front of [K] with a representation of [c]. *)
Definition yields (m : M shell Z) (s : shell) (K : list (tok * list Z)) (c : cmd) : Prop :=
  exists M p, m s = Done p (past K M s) /\ rep (word_at l) (nodes s ++ M) p c.

Definition line_ok (c : cmd) : Prop := forall n s K1 K, at_toks s (K1 ++ K) -> K1.*1 = toks 0 c -> follow0 K ->
  (4 * (length K1 + 1) <= n)%nat -> yields (parseline n (Z.of_nat (length l))) s K c.

(** Pipelines with ampersands: the loop of parseline() is entered with more rounds
    to go. *)
Definition back_ok (c : cmd) : Prop := forall n s K1 K, at_toks s (K1 ++ K) -> K1.*1 = toks 1 c -> follow2 K ->
  (4 * (length K1 + 1) <= n + 1)%nat ->
  exists M p k, (cmd <- parsepipe n (Z.of_nat (length l));;
    loop (Datatypes.S (Z.to_nat (Z.of_nat (length l)))) (back_step (Z.of_nat (length l))) cmd) s
  = loop k (back_step (Z.of_nat (length l))) p (past K M s) /\ rep (word_at l) (nodes s ++ M) p c /\
    (length K < k)%nat.

Definition pipe_ok (c : cmd) : Prop := forall n s K1 K, at_toks s (K1 ++ K) -> K1.*1 = toks 2 c -> follow2 K ->
  (4 * (length K1 + 1) <= n + 1)%nat -> yields (parsepipe n (Z.of_nat (length l))) s K c.

Definition exec_ok (c : cmd) : Prop := forall n s K1 K, at_toks s (K1 ++ K) -> K1.*1 = toks 3 c -> follow3 K ->
  (4 * (length K1 + 1) <= n + 2)%nat -> yields (parseexec n (Z.of_nat (length l))) s K c.

(** A symbol that the code looks for and reads, and one that it does not find. *)
Lemma sym_taken {A} (m m' : M shell A) cs c b K s :
  at_toks s ((TSym c, b) :: K) -> has_char cs c = true ->
  (x <- peek (Z.of_nat (length l)) cs;; if x then gettoken (Z.of_nat (length l));;; m else m') s = m (goto K s) /\
  at_toks (goto K s) K.
Proof.
  intros Ha Hc. pose proof (at_goto_same _ _ Ha) as Ha0. destruct (gettoken_at _ _ _ _ Ha0) as [E1 Ha1].
  split; [|done]. rewrite (bind_done _ _ _ _ _ (peek_at cs _ _ Ha)).
  rewrite nxt_cons by apply (at_spelled _ _ Ha). change (head0 (text (TSym c))) with c. rewrite Hc.
  destruct (has_char_in _ _ Hc) as [_ H0]. rewrite (proj2 (Z.eqb_neq _ _) H0). simpl. by rewrite (bind_done _ _ _ _ _ E1).
Qed.

Lemma sym_absent {A} (m m' : M shell A) cs K s :
  at_toks s K -> has_char cs (nxt K) = false ->
  (x <- peek (Z.of_nat (length l)) cs;; if x then m else m') s = m' (goto K s).
Proof. intros Ha Hc. rewrite (bind_done _ _ _ _ _ (peek_at cs _ _ Ha)). by rewrite Hc, andb_false_r. Qed.

Lemma goto_past K M s : goto K (past K M s) = past K M s.
Proof. done. Qed.

Lemma past_goto K K' M s : past K M (goto K' s) = past K M s.
Proof. done. Qed.

Lemma nxt_sym c b K : valid_tok (TSym c) -> nxt ((TSym c, b) :: K) = c.
Proof. intros H. by rewrite nxt_cons. Qed.

(** Behind the tokens of a command. *)
Lemma at_past s K1 K M : at_toks s (K1 ++ K) -> at_toks (past K M s) K.
Proof. intros Ha. eapply past_at; [exact Ha|by eapply spelled_tail|by exists K1]. Qed.

(** ** Pipelines *)

Lemma pipe_of_exec c : toks 2 c = toks 3 c -> exec_ok c -> pipe_ok c.
Proof.
  intros E Hc n s K1 K Ha EK Hf Hn. destruct n as [|m]; [lia|]. rewrite E in EK.
  destruct (Hc m s K1 K Ha EK (follow_23 K Hf) ltac:(lia)) as (M & p & E1 & Hr).
  exists M, p. split; [|done]. rewrite parsepipe_S, (bind_done _ _ _ _ _ E1).
  rewrite (sym_absent _ _ _ K); [done|by eapply at_past|].
  destruct (follow2_cases K Hf) as [-> |[-> |[-> | ->]]]; done.
Qed.

Lemma pipe_pipe c d : exec_ok c -> pipe_ok d -> pipe_ok (Pipe c d).
Proof.
  intros Hc Hd n s K1 K Ha EK Hf Hn. destruct n as [|m]; [lia|].
  change (toks 2 (Pipe c d)) with (toks 3 c ++ TSym (chr "|") :: toks 2 d) in EK.
  apply fmap_app_inv in EK as (Kc & Kd & Ec & Ed & ->). symmetry in Ed.
  apply fmap_cons_inv in Ed as ([t b] & Kd' & Et & Ed & ->). simpl in Et. subst t.
  rewrite <- app_assoc in Ha. simpl in Ha. rewrite length_app in Hn. simpl in Hn.
  assert (Hx : nxt ((TSym (chr "|"), b) :: Kd' ++ K) = chr "|") by (apply nxt_sym, (spelled_tail _ _ _ Ha)).
  destruct (Hc m s Kc ((TSym (chr "|"), b) :: Kd' ++ K) Ha) as (M & p & E1 & Hr); [done|by right; rewrite Hx|lia|].
  pose proof (at_past _ _ _ M Ha) as Ha1.
  destruct (sym_taken (r <- parsepipe m (Z.of_nat (length l));; pipecmd p r) (ret p) (str "|") _ _ _ _ Ha1 eq_refl) as [E2 Ha2].
  destruct (Hd m _ Kd' K Ha2) as (M' & p' & E3 & Hr'); [done|done|lia|].
  exists (M ++ M' ++ [PIPE p p']), (Z.of_nat (length (nodes s ++ M ++ M'))). split.
  - rewrite parsepipe_S, (bind_done _ _ _ _ _ E1), E2, (bind_done _ _ _ _ _ E3).
    rewrite past_goto, past_past. rewrite <- (goto_past K (M ++ M') s). unfold pipecmd. rewrite alloc_past, past_past.
    f_equal. by rewrite app_assoc.
  - rewrite (app_assoc M M'), (app_assoc (nodes s)). change (nodes _ ++ M') with ((nodes s ++ M) ++ M') in Hr'.
    rewrite <- app_assoc in Hr'.
    assert (Hr2 : rep (word_at l) (nodes s ++ M ++ M') p c) by (rewrite app_assoc; by apply rep_app).
    eapply rep_pipe; [apply geti_new|by apply rep_app|by apply rep_app|by apply (rep_lt _ _ _ _ Hr2)|by apply (rep_lt _ _ _ _ Hr')].
Qed.

(** ** Lines *)

Lemma back_round p b K s :
  at_toks s ((TSym (chr "&"), b) :: K) ->
  back_step (Z.of_nat (length l)) p s = Done (inl (Z.of_nat (length (nodes s)))) (past K [BACK p] s).
Proof.
  intros Ha. unfold back_step.
  destruct (sym_taken (c <- backcmd p;; continue c) (break p : M shell (Z + Z)) (str "&") _ _ _ _ Ha eq_refl) as [-> _].
  done.
Qed.

Lemma back_end p K s :
  at_toks s K -> nxt K <> chr "&" -> back_step (Z.of_nat (length l)) p s = Done (inr p) (goto K s).
Proof.
  intros Ha Hx. unfold back_step. rewrite (sym_absent _ _ _ K s Ha); [done|].
  destruct (has_char (str "&") (nxt K)) eqn:E; [|done]. apply has_char_in in E as [E _].
  apply list_elem_of_singleton in E. done.
Qed.

Lemma back_of_pipe c : toks 1 c = toks 2 c -> pipe_ok c -> back_ok c.
Proof.
  intros E Hc n s K1 K Ha EK Hf Hn. rewrite E in EK. destruct (Hc n s K1 K Ha EK Hf Hn) as (M & p & E1 & Hr).
  exists M, p, (Datatypes.S (Z.to_nat (Z.of_nat (length l)))). split; [by rewrite (bind_done _ _ _ _ _ E1)|].
  split; [done|]. pose proof (at_bound _ _ Ha) as Hb. rewrite length_app in Hb. lia.
Qed.

Lemma back_back c : back_ok c -> back_ok (Back c).
Proof.
  intros Hc n s K1 K Ha EK Hf Hn.
  change (toks 1 (Back c)) with (toks 1 c ++ [TSym (chr "&")]) in EK.
  apply fmap_app_inv in EK as (Kc & Kd & Ec & Ed & ->). symmetry in Ed.
  apply fmap_cons_inv in Ed as ([t b] & Kd' & Et & Ed & ->). simpl in Et. subst t.
  symmetry in Ed. apply fmap_nil_inv in Ed as ->.
  rewrite <- app_assoc in Ha. simpl in Ha. rewrite length_app in Hn. simpl in Hn.
  assert (Hx : nxt ((TSym (chr "&"), b) :: K) = chr "&") by (apply nxt_sym, (spelled_tail _ _ _ Ha)).
  destruct (Hc n s Kc _ Ha) as (M & p & k & E1 & Hr & Hk); [done|by right; rewrite Hx|lia|].
  pose proof (at_past _ _ _ M Ha) as Ha1. destruct k as [|k]; [simpl in Hk; lia|].
  exists (M ++ [BACK p]), (Z.of_nat (length (nodes s ++ M))), k. split; [|split].
  - rewrite E1. rewrite (loop_continue _ _ _ _ _ _ (back_round p b K _ Ha1)). by rewrite past_past.
  - rewrite app_assoc. eapply rep_back; [apply geti_new|by apply rep_app|by apply (rep_lt _ _ _ _ Hr)].
  - simpl in Hk. lia.
Qed.

Lemma bind2_done {S A B C} (m : M S A) (f : A -> M S B) (g : B -> M S C) s b s' :
  (x <- m;; f x) s = Done b s' -> (x <- m;; y <- f x;; g y) s = g b s'.
Proof. unfold bind. destruct (m s); try done. simpl. by intros ->. Qed.

Lemma parseline_back m s K1 K c (rest : Z -> M shell Z) :
  back_ok c -> at_toks s (K1 ++ K) -> K1.*1 = toks 1 c -> follow2 K -> nxt K <> chr "&" ->
  (4 * (length K1 + 1) <= m + 1)%nat ->
  exists M p, (cmd <- parsepipe m (Z.of_nat (length l));;
    cmd <- loop (Datatypes.S (Z.to_nat (Z.of_nat (length l)))) (back_step (Z.of_nat (length l))) cmd;;
    rest cmd) s = rest p (past K M s) /\ rep (word_at l) (nodes s ++ M) p c /\ at_toks (past K M s) K.
Proof.
  intros Hc Ha EK Hf Hx Hn. destruct (Hc m s K1 K Ha EK Hf Hn) as (M & p & k & E1 & Hr & Hk).
  exists M, p. pose proof (at_past _ _ _ M Ha) as Ha1. split; [|done].
  destruct k as [|k]; [lia|]. rewrite (loop_break _ _ _ _ _ _ (back_end p K _ Ha1 Hx)) in E1.
  by eapply bind2_done.
Qed.

Lemma line_of_back c : toks 0 c = toks 1 c -> back_ok c -> line_ok c.
Proof.
  intros E Hc n s K1 K Ha EK Hf Hn. destruct n as [|m]; [lia|]. rewrite E in EK.
  assert (Hx : nxt K <> chr "&") by by destruct Hf as [-> | ->].
  destruct (parseline_back m s K1 K c (fun cmd => b <- peek (Z.of_nat (length l)) (str ";");;
     if b then gettoken (Z.of_nat (length l));;; r <- parseline m (Z.of_nat (length l));; listcmd cmd r else ret cmd)
     Hc Ha EK (follow_02 K Hf) Hx ltac:(lia)) as (M & p & E1 & Hr & Ha1).
  exists M, p. split; [|done]. rewrite parseline_S, E1. rewrite (sym_absent _ _ _ K); [done|done|].
  by destruct Hf as [-> | ->].
Qed.

Lemma line_list c d : back_ok c -> line_ok d -> line_ok (List c d).
Proof.
  intros Hc Hd n s K1 K Ha EK Hf Hn. destruct n as [|m]; [lia|].
  change (toks 0 (List c d)) with (toks 1 c ++ TSym (chr ";") :: toks 0 d) in EK.
  apply fmap_app_inv in EK as (Kc & Kd & Ec & Ed & ->). symmetry in Ed.
  apply fmap_cons_inv in Ed as ([t b] & Kd' & Et & Ed & ->). simpl in Et. subst t.
  rewrite <- app_assoc in Ha. simpl in Ha. rewrite length_app in Hn. simpl in Hn.
  assert (Hx : nxt ((TSym (chr ";"), b) :: Kd' ++ K) = chr ";") by (apply nxt_sym, (spelled_tail _ _ _ Ha)).
  destruct (parseline_back m s Kc _ c (fun cmd => b <- peek (Z.of_nat (length l)) (str ";");;
     if b then gettoken (Z.of_nat (length l));;; r <- parseline m (Z.of_nat (length l));; listcmd cmd r else ret cmd)
     Hc Ha (eq_sym Ec)) as (M & p & E1 & Hr & Ha1); [by right; rewrite Hx|by rewrite Hx|lia|].
  destruct (sym_taken (r <- parseline m (Z.of_nat (length l));; listcmd p r) (ret p) (str ";") _ _ _ _ Ha1 eq_refl) as [E2 Ha2].
  destruct (Hd m _ Kd' K Ha2) as (M' & p' & E3 & Hr'); [done|done|lia|].
  exists (M ++ M' ++ [LIST p p']), (Z.of_nat (length (nodes s ++ M ++ M'))). split.
  - rewrite parseline_S, E1, E2, (bind_done _ _ _ _ _ E3).
    rewrite past_goto, past_past. rewrite <- (goto_past K (M ++ M') s). unfold listcmd. rewrite alloc_past, past_past.
    f_equal. by rewrite app_assoc.
  - rewrite (app_assoc M M'), (app_assoc (nodes s)). change (nodes _ ++ M') with ((nodes s ++ M) ++ M') in Hr'.
    rewrite <- app_assoc in Hr'.
    assert (Hr2 : rep (word_at l) (nodes s ++ M ++ M') p c) by (rewrite app_assoc; by apply rep_app).
    eapply rep_list; [apply geti_new|by apply rep_app|by apply rep_app|by apply (rep_lt _ _ _ _ Hr2)|by apply (rep_lt _ _ _ _ Hr')].
Qed.

(** ** Commands with their redirections *)

Lemma exec_simple c ws : core c = Exec ws -> valid_cmd c -> exec_ok c.
Proof.
  intros Ec Hv n s K1 K Ha EK Hf Hn. destruct n as [|m]; [lia|].
  destruct (core_valid c Hv) as [Hw _]. rewrite Ec in Hw. destruct Hw as [Hws Hlen].
  rewrite toks_core, Ec in EK. apply fmap_app_inv in EK as (W & KR & EW & EKR & ->).
  rewrite <- app_assoc in Ha. symmetry in EW, EKR.
  assert (Hx : has_char (str "(") (nxt (W ++ KR ++ K)) = false).
  { destruct W as [|[t b] W].
    - destruct KR as [|[t b] KR].
      + simpl app. destruct (follow3_cases K Hf) as [-> |[-> |[-> |[-> | ->]]]]; done.
      + destruct (rlist c) as [|[r f] rs]; [done|]. injection EKR as -> _. simpl app. rewrite redir_seen. by destruct r.
    - destruct ws as [|w ws]; [done|]. injection EW as -> _. simpl app.
      assert (Hw : is_word w) by by inversion Hws. rewrite nxt_cons by done. simpl text. apply word_not_sym; [done|all_syms]. }
  destruct (parseargs_run ws (rlist c) (goto (W ++ KR ++ K) s) W KR K) as (M & p & E1 & Hr); try done.
  { by apply at_goto_same. }
  exists M, p. split.
  - rewrite parseexec_S, (sym_absent _ _ _ _ _ Ha Hx), E1. by rewrite past_goto.
  - rewrite <- (core_redirs c), Ec. exact Hr.
Qed.

Lemma block_toks c : (forall ws, core c <> Exec ws) -> toks 3 (core c) = TSym (chr "(") :: toks 0 (core c) ++ [TSym (chr ")")].
Proof. induction c as [ws|c IH| | |]; simpl; intros H; try done; [by destruct (H ws)|by apply IH]. Qed.

Lemma exec_block c : (forall ws, core c <> Exec ws) -> line_ok (core c) -> exec_ok c.
Proof.
  intros Hne Hc n s K1 K Ha EK Hf Hn. destruct n as [|[|m]]; [lia..|].
  rewrite toks_core, block_toks in EK by done. cbn [app] in EK. rewrite <- app_assoc in EK.
  apply fmap_cons_inv in EK as ([t b] & K2 & Et & EK & ->). simpl in Et. subst t.
  symmetry in EK. apply fmap_app_inv in EK as (Kc & K3 & Ec & EK & ->). symmetry in EK. cbn [app] in EK.
  apply fmap_cons_inv in EK as ([t b'] & KR & Et & EKR & ->). simpl in Et. subst t. symmetry in EKR, Ec.
  simpl in Ha. rewrite <- app_assoc in Ha. simpl in Ha. simpl length in Hn. rewrite length_app in Hn. simpl in Hn.
  pose proof (at_goto_same _ _ Ha) as Ha0.
  set (K2 := Kc ++ (TSym (chr ")"), b') :: KR ++ K) in *.
  set (close := fun cmd => b <- peek (Z.of_nat (length l)) (str ")");;
     if negb b then panic "syntax - missing )"
     else gettoken (Z.of_nat (length l));;; parseredirs cmd (Z.of_nat (length l))).
  assert (E0 : parseexec (S (S m)) (Z.of_nat (length l)) s
    = (cmd <- parseline m (Z.of_nat (length l));; close cmd) (goto K2 s)).
  { rewrite parseexec_S. rewrite (bind_done _ _ _ _ _ (peek_at (str "(") _ _ Ha)).
    rewrite nxt_sym by apply (at_spelled _ _ Ha). change (negb _ && _) with true. cbv iota.
    rewrite parseblock_S. rewrite (bind_done _ _ _ _ _ (peek_at (str "(") _ _ Ha0)).
    rewrite nxt_sym by apply (at_spelled _ _ Ha). change (negb (negb _ && _)) with false. cbv iota.
    destruct (gettoken_at _ _ _ _ (at_goto_same _ _ Ha0)) as [E _]. by rewrite (bind_done _ _ _ _ _ E). }
  assert (Ha1 : at_toks (goto K2 s) K2) by apply (gettoken_at _ _ _ _ Ha).
  assert (Hcl : at_toks (goto K2 s) (Kc ++ (TSym (chr ")"), b') :: KR ++ K)) by exact Ha1.
  assert (Hx : nxt ((TSym (chr ")"), b') :: KR ++ K) = chr ")") by (apply nxt_sym, (spelled_tail _ _ _ Hcl)).
  destruct (Hc m (goto K2 s) Kc _ Hcl Ec) as (M & p & E1 & Hr); [by right|lia|].
  pose proof (at_past _ _ _ M Hcl) as Ha2. set (s2 := past ((TSym (chr ")"), b') :: KR ++ K) M (goto K2 s)) in *.
  assert (E2 : close p s2 = parseredirs p (Z.of_nat (length l)) (goto (KR ++ K) s2)).
  { unfold close. rewrite (bind_done _ _ _ _ _ (peek_at (str ")") _ _ Ha2)). rewrite Hx.
    change (negb (negb _ && _)) with false. cbv iota.
    destruct (gettoken_at _ _ _ _ (at_goto_same _ _ Ha2)) as [E _]. by rewrite (bind_done _ _ _ _ _ E). }
  destruct (gettoken_at _ _ _ _ Ha2) as [_ Ha3].
  destruct (parseredirs_run (rlist c) (goto (KR ++ K) s2) KR K p Ha3 EKR (follow3_redir K Hf)) as (M' & p' & E3 & Hw & _).
  { apply (rep_lt _ _ _ _ Hr). }
  exists (M ++ M'), p'. split.
  - rewrite E0, (bind_done _ _ _ _ _ E1), E2, E3. unfold s2. by rewrite !past_goto, past_past.
  - rewrite <- (core_redirs c). eapply wraps_rep; [rewrite app_assoc; exact Hw|].
    rewrite app_assoc. by apply rep_app.
Qed.

(** ** All of the grammar *)

Record parses (c : cmd) : Prop := {
  parses_line : line_ok c;
  parses_back : back_ok c;
  parses_pipe : pipe_ok c;
  parses_exec : exec_ok c;
  parses_core : line_ok (core c);
}.

Lemma parses_simple c : toks 0 c = toks 3 c -> toks 1 c = toks 3 c -> toks 2 c = toks 3 c -> exec_ok c ->
  line_ok c /\ back_ok c /\ pipe_ok c.
Proof.
  intros E0 E1 E2 Hc. assert (Hp : pipe_ok c) by by apply pipe_of_exec.
  assert (Hb : back_ok c) by (apply back_of_pipe; congruence || done).
  split; [|done]. apply line_of_back; [congruence|done].
Qed.

Lemma core_cases c : (exists ws, core c = Exec ws) \/ (forall ws, core c <> Exec ws).
Proof. destruct (core c); [by left; eexists|by right..]. Qed.

Lemma cmd_parses c : valid_cmd c -> parses c.
Proof.
  induction c as [ws|c IH r f|c IHc d IHd|c IHc d IHd|c IH]; intros Hv.
  - assert (He : exec_ok (Exec ws)) by by eapply exec_simple.
    destruct (parses_simple (Exec ws)) as (? & ? & ?); by try split.
  - destruct (IH (proj1 Hv)) as [Hl0 Hb0 Hp0 He0 Hc0].
    assert (He : exec_ok (Redir c r f)).
    { destruct (core_cases c) as [[ws E]|E]; [by eapply (exec_simple _ ws)|by apply exec_block]. }
    destruct (parses_simple (Redir c r f)) as (? & ? & ?); by try split.
  - destruct (IHc (proj1 Hv)) as [_ _ _ He _], (IHd (proj2 Hv)) as [_ _ Hp _ _].
    assert (Hp2 : pipe_ok (Pipe c d)) by by apply pipe_pipe.
    assert (Hb2 : back_ok (Pipe c d)) by by apply back_of_pipe.
    assert (Hl2 : line_ok (Pipe c d)) by by apply line_of_back.
    split; [done..| |done]. by apply exec_block.
  - destruct (IHc (proj1 Hv)) as [_ Hb _ _ _], (IHd (proj2 Hv)) as [Hl0 _ _ _ _].
    assert (Hl2 : line_ok (List c d)) by by apply line_list.
    assert (He2 : exec_ok (List c d)) by by apply exec_block.
    assert (Hp2 : pipe_ok (List c d)) by by apply pipe_of_exec.
    split; [done|by apply back_of_pipe|done..].
  - destruct (IH Hv) as [_ Hb _ _ _].
    assert (Hb2 : back_ok (Back c)) by by apply back_back.
    assert (Hl2 : line_ok (Back c)) by by apply line_of_back.
    assert (He2 : exec_ok (Back c)) by by apply exec_block.
    split; [done..| | |]; [by apply pipe_of_exec|done|done].
Qed.
End Run.
