(* ===== verification/ShTotal.v ===== *)
(** The shell's parser on any line: what nulterminate() does to the buffer, so that
    runcmd() sees the words of the command, and parsecmd() as a function of the
    line, which stops with a tree or a message. *)

From S2P Require Import Prelude Mem Riscv Locks Kalloc Vm Proc ProcFacts Kernel KernelFacts Sysfile Ulib Sh ShFacts ShParse.

(** ** Reading a command *)

(** The C string at a pointer into the line. *)
Definition cstr_at (b : list Z) (q : Z) : list Z := cstr (drop (Z.to_nat q) b).

(** The strings of an argv, which ends with a null pointer. *)
Fixpoint read_args (b : list Z) (argv : list (option Z)) : option (list (list Z)) :=
  match argv with
  | Some q :: r => match read_args b r with Some ws => Some (cstr_at b q :: ws) | None => None end
  | None :: _ => Some []
  | [] => None
  end.

Definition redir_of (mode fd : Z) : option redir :=
  if (mode =? redir_mode RIn) && (fd =? redir_fd RIn) then Some RIn
  else if (mode =? redir_mode ROut) && (fd =? redir_fd ROut) then Some ROut
  else if (mode =? redir_mode RApp) && (fd =? redir_fd RApp) then Some RApp
  else None.

(** What runcmd() finds when it goes through the nodes. *)
Fixpoint read_cmd (n : nat) (N : list node) (b : list Z) (p : Z) : option cmd :=
  match n with
  | O => None
  | Datatypes.S m =>
      match geti N p with
      | Some (EXEC argv _) => match read_args b argv with Some ws => Some (Exec ws) | None => None end
      | Some (REDIR c q _ mode fd) =>
          match redir_of mode fd, read_cmd m N b c with
          | Some r, Some c => Some (Redir c r (cstr_at b q))
          | _, _ => None
          end
      | Some (PIPE x y) =>
          match read_cmd m N b x, read_cmd m N b y with Some c, Some d => Some (Pipe c d) | _, _ => None end
      | Some (LIST x y) =>
          match read_cmd m N b x, read_cmd m N b y with Some c, Some d => Some (List c d) | _, _ => None end
      | Some (BACK x) => match read_cmd m N b x with Some c => Some (Back c) | None => None end
      | None => None
      end
  end.

Lemma redir_of_mode r : redir_of (redir_mode r) (redir_fd r) = Some r.
Proof. by destruct r. Qed.

Lemma redir_of_inv mode fd r : redir_of mode fd = Some r -> mode = redir_mode r /\ fd = redir_fd r.
Proof.
  unfold redir_of.
  repeat match goal with |- context [if ?x then _ else _] => destruct x eqn:? end; intros [= <-];
    match goal with H : _ && _ = true |- _ => apply andb_prop in H as [?%Z.eqb_eq ?%Z.eqb_eq] end; done.
Qed.

Lemma read_args_pad b sp ws :
  Forall2 (fun (p : Z * Z) w => cstr_at b (fst p) = w) sp ws -> (length ws <= 9)%nat -> read_args b (pad sp.*1) = Some ws.
Proof.
  intros Hf Hn. unfold pad. rewrite length_fmap, (Forall2_length _ _ _ Hf).
  assert (Hn' : (length ws < 10)%nat) by lia. revert Hn'. generalize 10%nat as k. clear Hn.
  induction Hf as [|p w sp ws E Hf IH]; intros k Hk.
  - by destruct k; [simpl in Hk; lia|].
  - destruct k as [|k]; [simpl in Hk; lia|]. simpl in Hk.
    change (match read_args b ((Some <$> sp.*1) ++ replicate (k - length ws) None) with
            | Some ws => Some (cstr_at b p.1 :: ws) | None => None end = Some (w :: ws)).
    rewrite (IH k) by lia. by rewrite E.
Qed.

(** The nodes of a command whose words are C strings are the command. *)
Lemma read_rep b N p c :
  rep (fun (p : Z * Z) w => cstr_at b (fst p) = w) N p c -> forall n, p < Z.of_nat n -> read_cmd n N b p = Some c.
Proof.
  induction 1 as [p sp ws E Hf Hl|p c' c r q e f E Hc IH Hf Hlt|p x y c d E Hc IHc Hd IHd H1 H2|p x y c d E Hc IHc Hd IHd H1 H2|p x c E Hc IH Hlt];
    intros n Hn; pose proof (proj1 (geti_Some_lt _ _ _ E)); destruct n as [|n]; try lia; cbn [read_cmd]; rewrite E.
  - by rewrite (read_args_pad b sp ws Hf Hl).
  - rewrite redir_of_mode, IH by lia. simpl in Hf. by rewrite Hf.
  - by rewrite IHc, IHd by lia.
  - by rewrite IHc, IHd by lia.
  - by rewrite IH by lia.
Qed.

Lemma rep_mono (W W' : Z * Z -> list Z -> Prop) N p c :
  (forall x w, W x w -> W' x w) -> rep W N p c -> rep W' N p c.
Proof.
  intros HW. induction 1; econstructor; eauto. by eapply Forall2_impl.
Qed.

Lemma geti_at_nat {A} (l : list A) n : geti l (Z.of_nat n) = l !! n.
Proof. unfold geti. rewrite (proj2 (Z.leb_le 0 _)) by lia. by rewrite Nat2Z.id. Qed.

(** ** The line with its words cut *)

Definition with_line (b : list Z) (s : shell) : shell := s {{ sbuf := b }}.

#[global] Arguments with_line _ _ /.

Definition cut (b b' : list Z) : Prop :=
  length b' = length b /\ forall i c, geti b i = Some c -> geti b' i = Some c \/ (geti b' i = Some 0 /\ word_char c = false).

Lemma cut_refl b : cut b b.
Proof. split; [done|]. by left. Qed.

Lemma cut_trans b b' b'' : cut b b' -> cut b' b'' -> cut b b''.
Proof.
  intros [L1 H1] [L2 H2]. split; [congruence|]. intros i c E. destruct (H1 i c E) as [E1|[E1 Hc]].
  - by apply H2.
  - right. split; [|done]. by destruct (H2 _ _ E1) as [E2|[E2 _]].
Qed.

Lemma cut_zero b b' i : cut b b' -> geti b i = Some 0 -> geti b' i = Some 0.
Proof. intros [_ H] E. by destruct (H _ _ E) as [?|[? _]]. Qed.

Section Nul.
Context (l rest : list Z).

(** The word is in the line, and a NUL behind it. *)
Definition word_in (b : list Z) (p : Z * Z) (w : list Z) : Prop := word_at l p w /\ geti b (snd p) = Some 0.

Lemma word_in_cut b b' p w : cut b b' -> word_in b p w -> word_in b' p w.
Proof. intros Hc [H1 H2]. split; [done|]. by eapply cut_zero. Qed.

Lemma rep_cut b b' N p c : cut b b' -> rep (word_in b) N p c -> rep (word_in b') N p c.
Proof. intros Hc. apply rep_mono. intros x w. by apply word_in_cut. Qed.

Lemma geti_app_here (a r : list Z) : geti (a ++ r) (Z.of_nat (length a)) = head r.
Proof.
  rewrite geti_at_nat, lookup_app_r, Nat.sub_diag by lia. by destruct r.
Qed.

(** Where a word ends there is no character of a word. *)
Lemma word_end p w :
  word_at l p w -> exists c, geti (l ++ 0 :: rest) (snd p) = Some c /\ (word_char c = false \/ c = 0).
Proof.
  intros (_ & E & r & [E2 [a ->]] & Hr). rewrite E, E2, !length_app.
  replace (Z.of_nat _ - Z.of_nat _ + Z.of_nat _) with (Z.of_nat (length (a ++ w))) by (rewrite length_app; lia).
  rewrite app_assoc, <- app_assoc, geti_app_here. destruct r as [|c r]; [exists 0; by split; [|right]|].
  exists c. split; [done|]. left. by destruct Hr.
Qed.

Lemma wrc_cut e s c0 :
  cut (l ++ 0 :: rest) (sbuf s) -> geti (l ++ 0 :: rest) e = Some c0 -> word_char c0 = false \/ c0 = 0 ->
  exists b, wrc e 0 s = Done tt (with_line b s) /\ cut (sbuf s) b /\ geti b e = Some 0.
Proof.
  intros Hc E Hw. set (b := seti e 0 (sbuf s)). exists b.
  assert (Es : exists c, geti (sbuf s) e = Some c /\ (word_char c = false \/ c = 0)).
  { destruct (proj2 Hc _ _ E) as [E1|[E1 _]]; eauto. }
  destruct Es as (c & Es & Hc'). pose proof (geti_Some_lt _ _ _ Es) as Hr.
  split; [|split].
  - unfold wrc. erewrite bind_done by (unfold rdc; erewrite bind_done by done; by rewrite Es). done.
  - split; [apply length_seti|]. intros i c1 E1. destruct (decide (i = e)) as [-> |Hne].
    + rewrite E1 in Es. injection Es as ->. unfold b. rewrite geti_seti_eq by done.
      destruct Hc' as [Hc'| ->]; [by right|by left].
    + left. unfold b. by rewrite geti_seti_ne by lia.
  - unfold b. by rewrite geti_seti_eq by done.
Qed.

Lemma cut_wrc e s p w :
  cut (l ++ 0 :: rest) (sbuf s) -> word_at l p w -> snd p = e ->
  exists b, wrc e 0 s = Done tt (with_line b s) /\ cut (sbuf s) b /\ word_in b p w.
Proof.
  intros Hc Hw <-. destruct (word_end _ _ Hw) as (c & E & Hc0).
  destruct (wrc_cut _ s c Hc E Hc0) as (b & E1 & H1 & H2). by exists b.
Qed.

Lemma end_args_ok sp ws : Forall2 (word_at l) sp ws -> forall k s, cut (l ++ 0 :: rest) (sbuf s) ->
  exists b, end_args ((Some <$> sp.*1) ++ replicate (Datatypes.S k) None) ((Some <$> sp.*2) ++ replicate (Datatypes.S k) None) s
    = Done tt (with_line b s) /\ cut (sbuf s) b /\ Forall2 (word_in b) sp ws.
Proof.
  induction 1 as [|p w sp ws Hw Hf IH]; intros k s Hc.
  - exists (sbuf s). split; [by destruct s|]. split; [apply cut_refl|constructor].
  - destruct (cut_wrc (snd p) s p w Hc Hw eq_refl) as (b & E & H1 & H2).
    destruct (IH k (with_line b s) (cut_trans _ _ _ Hc H1)) as (b' & E' & H1' & H2').
    exists b'. split; [|split].
    + cbn [fmap list_fmap app end_args]. rewrite (bind_done _ _ _ _ _ E). exact E'.
    + by eapply cut_trans.
    + constructor; [by eapply word_in_cut|done].
Qed.

Lemma nulterminate_ok N p c : rep (word_at l) N p c -> forall n s,
  nodes s = N -> cut (l ++ 0 :: rest) (sbuf s) -> p < Z.of_nat n ->
  exists b, nulterminate n p s = Done tt (with_line b s) /\ cut (sbuf s) b /\ rep (word_in b) N p c.
Proof.
  induction 1 as [p sp ws E Hf Hlen|p c' c r q e f E Hc IH Hf Hlt|p x y c d E Hc IHc Hd IHd H1 H2|p x y c d E Hc IHc Hd IHd H1 H2|p x c E Hc IH Hlt];
    intros n s <- Hcut Hn; pose proof (proj1 (geti_Some_lt _ _ _ E)); destruct n as [|n]; try lia; cbn [nulterminate];
    erewrite bind_done by done; rewrite E.
  - pose proof (Forall2_length _ _ _ Hf) as Hl'.
    destruct (end_args_ok sp ws Hf (9 - length sp) s Hcut) as (b & E1 & Hb & Hf').
    exists b. split; [|split; [done|by econstructor]]. rewrite <- E1. unfold pad. rewrite !length_fmap.
    by replace (10 - length sp)%nat with (Datatypes.S (9 - length sp)) by lia.
  - destruct (IH n s eq_refl Hcut ltac:(lia)) as (b & E1 & Hb & Hr).
    destruct (cut_wrc e (with_line b s) (q, e) f (cut_trans _ _ _ Hcut Hb) Hf eq_refl) as (b' & E2 & Hb' & Hw).
    exists b'. rewrite (bind_done _ _ _ _ _ E1). split; [exact E2|]. split; [by eapply cut_trans|].
    econstructor; [done|by eapply rep_cut|done|done].
  - destruct (IHc n s eq_refl Hcut ltac:(lia)) as (b & E1 & Hb & Hr).
    destruct (IHd n (with_line b s) eq_refl (cut_trans _ _ _ Hcut Hb) ltac:(lia)) as (b' & E2 & Hb' & Hr').
    exists b'. rewrite (bind_done _ _ _ _ _ E1). split; [exact E2|]. split; [by eapply cut_trans|].
    econstructor; [done|by eapply rep_cut|done..].
  - destruct (IHc n s eq_refl Hcut ltac:(lia)) as (b & E1 & Hb & Hr).
    destruct (IHd n (with_line b s) eq_refl (cut_trans _ _ _ Hcut Hb) ltac:(lia)) as (b' & E2 & Hb' & Hr').
    exists b'. rewrite (bind_done _ _ _ _ _ E1). split; [exact E2|]. split; [by eapply cut_trans|].
    econstructor; [done|by eapply rep_cut|done..].
  - destruct (IH n s eq_refl Hcut ltac:(lia)) as (b & E1 & Hb & Hr). exists b. split; [exact E1|]. split; [done|].
    by econstructor.
Qed.

(** A word that is ended is a C string. *)
Lemma word_in_cstr b p w : cut (l ++ 0 :: rest) b -> word_in b p w -> cstr_at b (fst p) = w.
Proof.
  intros Hc ((Hw & E & r & [E1 [a El]] & _) & Hz). destruct p as [q e]. cbn [fst snd] in *.
  assert (Hq : q = Z.of_nat (length a)) by (rewrite E1, El, !length_app; lia). rewrite Hq in *. clear E1 Hq.
  unfold cstr_at. rewrite Nat2Z.id.
  assert (Hd : exists r', drop (length a) b = w ++ 0 :: r').
  { exists (drop (length w + 1) (drop (length a) b)). rewrite <- (take_drop (length w) (drop (length a) b)) at 1. f_equal.
    - apply list_eq. intros i. destruct (decide (i < length w)%nat) as [Hi|Hi].
      + rewrite lookup_take_lt, lookup_drop by done. destruct (lookup_lt_is_Some_2 w i Hi) as [c Ec].
        assert (Eb : geti (l ++ 0 :: rest) (Z.of_nat (length a + i)) = Some c).
        { rewrite geti_at_nat, El, <- !app_assoc.
          rewrite lookup_app_r by lia. rewrite Nat.add_comm, Nat.add_sub. by rewrite lookup_app_l by done. }
        rewrite Ec. destruct (proj2 Hc _ _ Eb) as [E2|[_ Hx]].
        * by rewrite geti_at_nat in E2.
        * exfalso. destruct Hw as [_ Hw]. rewrite Forall_lookup in Hw. destruct (Hw _ _ Ec). congruence.
      + rewrite lookup_take_ge by lia. symmetry. apply lookup_ge_None. lia.
    - rewrite E, <- Nat2Z.inj_add, geti_at_nat in Hz. rewrite !drop_drop.
      rewrite (drop_S _ _ _ Hz). do 2 f_equal. lia. }
  destruct Hd as [r' ->]. apply cstr_until. intros Hin. destruct Hw as [_ Hw]. rewrite Forall_forall in Hw.
  by destruct (Hw _ Hin).
Qed.
End Nul.

(** The messages of panic() that a line can lead to. *)
Definition syntax_errors : list string :=
  ["syntax"; "missing file for redirection"; "too many args"; "syntax - missing )"]%string.

(** The run ends, with a result that satisfies [Q] or with a message. *)
Definition ends {A} (m : M shell A) (s : shell) (Q : A -> shell -> Prop) : Prop :=
  match m s with
  | Done a s' => Q a s'
  | Panic e => e ∈ syntax_errors
  | _ => False
  end.

Lemma ends_done {A} (m : M shell A) s (Q : A -> shell -> Prop) a s' : m s = Done a s' -> Q a s' -> ends m s Q.
Proof. unfold ends. by intros ->. Qed.

Lemma ends_mono {A} (m : M shell A) s (Q Q' : A -> shell -> Prop) :
  ends m s Q -> (forall a s', Q a s' -> Q' a s') -> ends m s Q'.
Proof. unfold ends. destruct (m s); eauto. Qed.

Lemma ends_bind {A B} (m : M shell A) (f : A -> M shell B) s R Q :
  ends m s R -> (forall a s', R a s' -> ends (f a) s' Q) -> ends (bind m f) s Q.
Proof. unfold ends, bind. destruct (m s); simpl; try done. intros HR Hf. by apply Hf. Qed.

Lemma ends_step {A B} (m : M shell A) (f : A -> M shell B) s a s' Q :
  m s = Done a s' -> ends (f a) s' Q -> ends (bind m f) s Q.
Proof. intros E. unfold ends. by rewrite (bind_done _ _ _ _ _ E). Qed.

Lemma ends_panic {A} e s (Q : A -> shell -> Prop) : e ∈ syntax_errors -> ends (panic e) s Q.
Proof. done. Qed.

Lemma ends_loop {X A} (body : X -> M shell (X + A)) (Inv : nat -> X -> shell -> Prop) Q :
  (forall n x s, Inv n x s -> ends (body x) s (fun r s' =>
     match r with inl x' => exists n', (n' < n)%nat /\ Inv n' x' s' | inr a => Q a s' end)) ->
  forall fuel n x s, Inv n x s -> (n < fuel)%nat -> ends (loop fuel body x) s Q.
Proof.
  intros Hbody fuel. induction fuel as [|fuel IH]; intros n x s HI Hn; [lia|].
  simpl. eapply ends_bind; [by eapply Hbody|]. intros [x'|a] s' Hr; [|by eapply ends_done].
  destruct Hr as (n' & Hlt & HI'). eapply IH; [done|lia].
Qed.

Lemma lstrip_suffix r : lstrip r `suffix_of` r.
Proof. exists (take (span (has_char whitespace) r) r). unfold lstrip. by rewrite take_drop. Qed.

Lemma lstrip_head r c r' : lstrip r = c :: r' -> has_char whitespace c = false.
Proof.
  unfold lstrip. induction r as [|d r IH]; simpl; [done|]. destruct (has_char whitespace d) eqn:E; [done|].
  by intros [= <- _].
Qed.

Lemma lstrip_idem r : lstrip (lstrip r) = lstrip r.
Proof.
  destruct (lstrip r) as [|c r'] eqn:E; [done|]. apply lstrip_head in E. unfold lstrip. simpl. by rewrite E.
Qed.

Lemma sym_chars c : has_char symbols c = has_char (str "|();&<") c || (c =? chr ">").
Proof.
  destruct (decide (c ∈ str "|();&<>")) as [Hin|Hin].
  - destruct (sym_cases c Hin) as [-> |[-> |[-> |[-> |[-> |[-> | ->]]]]]]; done.
  - unfold str in Hin. rewrite !not_elem_of_cons in Hin. destruct Hin as (H1 & H2 & H3 & H4 & H5 & H6 & H7 & _).
    destruct (has_char symbols c) eqn:E1.
    { apply has_char_in in E1 as [E1 _]. unfold symbols, str in E1.
      rewrite !elem_of_cons, elem_of_nil in E1. tauto. }
    destruct (has_char (str "|();&<") c) eqn:E2.
    { apply has_char_in in E2 as [E2 _]. unfold str in E2. rewrite !elem_of_cons, elem_of_nil in E2. tauto. }
    symmetry. by apply Z.eqb_neq.
Qed.

Section Any.
Context (l : list Z).
Hypothesis Hl : 0 ∉ l.

Definition at_rest (s : shell) (r : list Z) : Prop := has_line l (sbuf s) /\ here l (spos s) r.

(** A later state of the parser: it has gone on in the line and has added nodes. *)
Record later (s : shell) (r : list Z) (s' : shell) (r' : list Z) : Prop := {
  later_buf : sbuf s' = sbuf s;
  later_at : at_rest s' r';
  later_rest : r' `suffix_of` r;
  later_nodes : exists M, nodes s' = nodes s ++ M;
}.

Lemma later_refl s r : at_rest s r -> later s r s r.
Proof. intros Ha. split; [done|done|done|]. exists []. by rewrite app_nil_r. Qed.

Lemma later_trans s r s1 r1 s2 r2 : later s r s1 r1 -> later s1 r1 s2 r2 -> later s r s2 r2.
Proof.
  intros [B1 A1 R1 [M1 N1]] [B2 A2 R2 [M2 N2]]. split; [congruence|done|by etrans|].
  exists (M1 ++ M2). by rewrite N2, N1, app_assoc.
Qed.

Lemma later_length s r s' r' : later s r s' r' -> (length r' <= length r)%nat.
Proof. intros [_ _ Hr _]. by apply suffix_length. Qed.

Lemma later_rep s r s' r' p c : later s r s' r' -> rep (word_at l) (nodes s) p c -> rep (word_at l) (nodes s') p c.
Proof. intros [_ _ _ [M ->]]. apply rep_app. Qed.

Lemma later_wraps s r s' r' p0 rs p :
  later s r s' r' -> wraps (word_at l) (nodes s) p0 rs p -> wraps (word_at l) (nodes s') p0 rs p.
Proof. intros [_ _ _ [M ->]]. apply wraps_app. Qed.

Lemma later_bound s r s' r' p :
  later s r s' r' -> 0 <= p < Z.of_nat (length (nodes s)) -> 0 <= p < Z.of_nat (length (nodes s')).
Proof. intros [_ _ _ [M ->]]. rewrite length_app. lia. Qed.

Lemma rest_length s r : at_rest s r -> (length r <= length l)%nat.
Proof. intros [_ [_ [a ->]]]. rewrite length_app. lia. Qed.

Lemma rest_fuel s r : at_rest s r -> (length r < Datatypes.S (Z.to_nat (Z.of_nat (length l))))%nat.
Proof. intros Ha. pose proof (rest_length _ _ Ha). lia. Qed.

Lemma here_suffix i r r' : here l i r -> r' `suffix_of` r -> here l (Z.of_nat (length l) - Z.of_nat (length r')) r'.
Proof. intros [_ [a ->]] [b ->]. split; [done|]. exists (a ++ b). by rewrite app_assoc. Qed.

(** Moving on in the line. *)
Lemma later_move s r r' :
  at_rest s r -> r' `suffix_of` r -> later s r (s {{ spos := Z.of_nat (length l) - Z.of_nat (length r') }}) r'.
Proof.
  intros [Hb Hh] Hr. split; [done| |done|].
  - split; [done|]. by eapply here_suffix.
  - exists []. by rewrite app_nil_r.
Qed.

(** A new node. *)
Lemma later_alloc n s r :
  at_rest s r -> exists s', alloc_node n s = Done (Z.of_nat (length (nodes s))) s' /\ later s r s' r /\ nodes s' = nodes s ++ [n].
Proof.
  intros [Hb Hh]. eexists. split; [reflexivity|]. split; [|done]. split; [done|by split|done|by exists [n]].
Qed.

Lemma peek_any cs s r :
  at_rest s r -> exists s', peek (Z.of_nat (length l)) cs s = Done (has_char cs (head0 (lstrip r))) s' /\
    later s r s' (lstrip r) /\ nodes s' = nodes s.
Proof.
  intros [Hb Hh]. eexists. split; [|split; [apply later_move; [by split|apply lstrip_suffix]|done]].
  rewrite (peek_eq l Hl cs r s Hb Hh). f_equal. destruct (Z.eqb_spec (head0 (lstrip r)) 0) as [E|]; [|done].
  rewrite E. symmetry. destruct (has_char cs 0) eqn:E2; [|done]. by apply has_char_in in E2 as [_ ?].
Qed.

(** The first token of what is left. *)
Lemma token_any r c r' :
  lstrip r = c :: r' -> 0 ∉ r ->
  (length (snd (token (lstrip r))) <= length r')%nat /\ fst (token (lstrip r)) <> 0 /\
  (fst (token (lstrip r)) = chr "a" ->
   exists w r2, lstrip r = w ++ r2 /\ snd (token (lstrip r)) = r2 /\ is_word w /\ (word_char (head0 r2) = false \/ r2 = [])).
Proof.
  intros E H0. pose proof (lstrip_head _ _ _ E) as Hb. rewrite E.
  assert (Hin : forall x, x ∈ c :: r' -> x <> 0).
  { intros x Hx ->. apply H0. destruct (lstrip_suffix r) as [a Ha]. rewrite E in Ha. rewrite Ha. set_solver. }
  unfold token. destruct (has_char (str "|();&<") c) eqn:E1.
  { split; [done|]. split; [by apply Hin; left|]. cbn [fst]. intros ->. done. }
  destruct (Z.eqb_spec c (chr ">")) as [-> |Hg].
  { destruct r' as [|d r'']; [done|]. destruct (d =? chr ">"); split; done || (simpl; lia). }
  assert (Hw : word_char c = true).
  { unfold word_char. rewrite Hb, sym_chars, E1. by rewrite (proj2 (Z.eqb_neq _ _) Hg). }
  cbn [fst snd]. split; [|split; [done|]].
  - cbn [span]. rewrite Hw. simpl. rewrite length_drop. lia.
  - intros _. exists (take (span word_char (c :: r')) (c :: r')), (drop (span word_char (c :: r')) (c :: r')).
    split; [by rewrite take_drop|]. split; [done|]. split; [split|].
    + cbn [span]. by rewrite Hw.
    + rewrite Forall_forall. intros x Hx. split; [|apply Hin; by eapply elem_of_take in Hx as (? & ? & _); eapply list_elem_of_lookup_2].
      clear -Hx. revert Hx. generalize (c :: r') as t. intros t. induction t as [|d t IH]; simpl; [by intros ?%elem_of_nil|].
      destruct (word_char d) eqn:Ed; simpl; [|by intros ?%elem_of_nil].
      rewrite elem_of_cons. intros [-> |Hx]; [done|by apply IH].
    + clear. generalize (c :: r') as t. intros t. induction t as [|d t IH]; simpl; [by right|].
      destruct (word_char d) eqn:Ed; [done|by left].
Qed.

Lemma gettoken_any s r :
  at_rest s r -> exists t q e s' r',
    gettoken (Z.of_nat (length l)) s = Done (t, q, e) s' /\ later s r s' r' /\ nodes s' = nodes s /\
    (lstrip r <> [] -> (length r' < length r)%nat /\ t <> 0) /\
    (t = chr "a" -> exists w, word_at l (q, e) w).
Proof.
  intros [Hb Hh]. pose proof (gettoken_eq l Hl r s Hb Hh) as E. cbv zeta in E.
  remember (snd (token (lstrip r))) as r2 eqn:Er2.
  assert (H0 : 0 ∉ r). { destruct Hh as [_ [a ->]]. intros ?. apply Hl. set_solver. }
  assert (H2 : r2 `suffix_of` lstrip r).
  { destruct (token_here l _ _ (here_lstrip l _ _ Hh)) as [_ [a Ha]]. rewrite <- Er2 in Ha.
    destruct (here_lstrip l _ _ Hh) as [_ [a' Ha']]. rewrite Ha' in Ha.
    assert (Hlen : (length r2 <= length (lstrip r))%nat).
    { rewrite Er2. clear E Er2 Ha. destruct (lstrip r) as [|c r'] eqn:Er; [done|].
      rewrite <- Er in *. destruct (token_any r c r' Er H0) as (Hx & _). rewrite Er in *. etrans; [exact Hx|apply Nat.le_succ_diag_r]. }
    pose proof (f_equal length Ha) as Hla. rewrite !length_app in Hla.
    exists (drop (length a') a). apply (f_equal (drop (length a'))) in Ha. rewrite drop_app_length in Ha.
    rewrite Ha. apply drop_app_le. lia. }
  do 5 eexists. split; [exact E|]. split; [|split; [done|split]].
  - apply later_move; [by split|]. etrans; [apply lstrip_suffix|]. etrans; [exact H2|apply lstrip_suffix].
  - destruct (lstrip r) as [|c r'] eqn:Er; [done|]. intros _. rewrite <- Er in *.
    destruct (token_any r c r' Er H0) as (Hx & Hn & _). rewrite <- Er2 in Hx. split; [|done].
    pose proof (length_lstrip r2). pose proof (length_lstrip r).
    assert (Hlr : length (lstrip r) = Datatypes.S (length r')) by by rewrite Er. lia.
  - intros Et. destruct (lstrip r) as [|c r'] eqn:Er; [done|]. rewrite <- Er in *.
    destruct (token_any r c r' Er H0) as (_ & _ & Hw). destruct (Hw Et) as (w & r3 & Ew & E3 & Hw3 & Hx).
    rewrite <- Er2 in E3. subst r3. exists w. split; [done|]. cbn [fst snd]. rewrite Ew, length_app.
    split; [lia|]. exists r2. split; [|done]. rewrite <- Ew.
    destruct (here_lstrip l _ _ Hh) as [E1 Ha]. split; [|done]. rewrite Ew, length_app. lia.
Qed.

(** ** Redirections *)

Lemma wraps_trans W N p0 rs p rs' p' : wraps W N p0 rs p -> wraps W N p rs' p' -> wraps W N p0 (rs ++ rs') p'.
Proof.
  intros H1 H2. induction H2 as [|rs' p' p2 r q e f H2 IH E Hf Hlt]; [by rewrite app_nil_r|].
  rewrite app_assoc. by econstructor.
Qed.

(** [p] is a node with redirections around [p0]. *)
Definition wrapped (N : list node) (p0 p : Z) : Prop :=
  (exists rs, wraps (word_at l) N p0 rs p) /\ 0 <= p < Z.of_nat (length N).

Lemma later_wrapped s r s' r' p0 p : later s r s' r' -> wrapped (nodes s) p0 p -> wrapped (nodes s') p0 p.
Proof. intros Hlt [[rs Hw] Hp]. split; [exists rs; by eapply later_wraps|by eapply later_bound]. Qed.

Lemma wrapped_trans N p0 p p' : wrapped N p0 p -> wrapped N p p' -> wrapped N p0 p'.
Proof. intros [[rs H1] _] [[rs' H2] Hp]. split; [|done]. exists (rs ++ rs'). by eapply wraps_trans. Qed.

Lemma new_redir x p0 p q e f s r :
  at_rest s r -> wrapped (nodes s) p0 p -> word_at l (q, e) f ->
  ends (c <- redircmd p q e (redir_mode x) (redir_fd x);; continue c : M shell (Z + Z)) s
    (fun y s' => exists p', y = inl p' /\ later s r s' r /\ wrapped (nodes s') p0 p').
Proof.
  intros Ha Hw Hf. destruct (later_alloc (REDIR p q e (redir_mode x) (redir_fd x)) s r Ha) as (s' & E & L & N).
  eapply ends_step; [exact E|]. eapply ends_done; [done|]. eexists. split; [done|]. split; [done|].
  pose proof (later_wrapped _ _ _ _ _ _ L Hw) as [[rs Hw'] Hp]. split.
  - exists (rs ++ [(x, f)]). econstructor; [exact Hw'|rewrite N; apply geti_new|done|].
    apply (proj2 Hw).
  - rewrite N, length_app. simpl. lia.
Qed.

Lemma redir_step_ends p0 p s r :
  at_rest s r -> wrapped (nodes s) p0 p ->
  ends (redir_step (Z.of_nat (length l)) p) s (fun x s' => exists r', later s r s' r' /\
    match x with inl p' => (length r' < length r)%nat /\ wrapped (nodes s') p0 p' | inr p' => wrapped (nodes s') p0 p' end).
Proof.
  intros Ha Hw. destruct (peek_any (str "<>") s r Ha) as (s2 & E2 & L2 & N2).
  unfold redir_step. eapply ends_step; [exact E2|].
  destruct (has_char (str "<>") (head0 (lstrip r))) eqn:Ex.
  2:{ eapply ends_done; [done|]. exists (lstrip r). by rewrite N2. }
  assert (Hne : lstrip (lstrip r) <> []) by (rewrite lstrip_idem; intros Ez; by rewrite Ez in Ex).
  destruct (gettoken_any s2 (lstrip r)) as (t & q & e & s3 & r3 & E3 & L3 & N3 & Hc3 & _); [apply (later_at _ _ _ _ L2)|].
  eapply ends_step; [exact E3|]. destruct (Hc3 Hne) as [Hlen3 _].
  destruct (gettoken_any s3 r3) as (t' & q' & e' & s4 & r4 & E4 & L4 & N4 & _ & Hw4); [apply (later_at _ _ _ _ L3)|].
  eapply ends_step; [exact E4|].
  assert (Hlt : later s r s4 r4) by (eapply later_trans; [exact L2|by eapply later_trans]).
  assert (Hn : (length r4 < length r)%nat).
  { pose proof (later_length _ _ _ _ L4). pose proof (length_lstrip r). lia. }
  cbv beta iota. destruct (Z.eqb_spec t' (chr "a")) as [Et|_]; cbn [negb]; [|apply ends_panic; set_solver].
  destruct (Hw4 Et) as (f & Hf).
  assert (Hnew : forall x, ends (c <- redircmd p q' e' (redir_mode x) (redir_fd x);; continue c) s4
    (fun x s' => exists r', later s r s' r' /\
      match x with inl p' => (length r' < length r)%nat /\ wrapped (nodes s') p0 p' | inr p' => wrapped (nodes s') p0 p' end)).
  { intros x. eapply ends_mono; [eapply (new_redir x p0 p q' e' f s4 r4); [apply (later_at _ _ _ _ Hlt)|by eapply later_wrapped|done]|].
    intros y s5 (p' & -> & L5 & Hw5). exists r4. split; [by eapply later_trans|done]. }
  destruct (t =? chr "<"); [apply (Hnew RIn)|]. destruct (t =? chr ">"); [apply (Hnew ROut)|].
  destruct (t =? chr "+"); [apply (Hnew RApp)|].
  eapply ends_done; [done|]. exists r4. split; [done|]. split; [done|]. by eapply later_wrapped.
Qed.

Lemma parseredirs_ends p0 p s r :
  at_rest s r -> wrapped (nodes s) p0 p ->
  ends (parseredirs p (Z.of_nat (length l))) s (fun p' s' => exists r', later s r s' r' /\ wrapped (nodes s') p0 p').
Proof.
  intros Ha Hw. unfold parseredirs.
  apply (ends_loop _ (fun n p' s' => exists r', (length r' <= n)%nat /\ later s r s' r' /\ wrapped (nodes s') p0 p')) with (n := length r).
  - intros n p1 s1 (r1 & Hn & Hlt & Hw1). pose proof (later_at _ _ _ _ Hlt) as Ha1.
    eapply ends_mono; [by eapply redir_step_ends|]. intros [p2|p2] s2 (r2 & L2 & H2).
    + exists (length r2). split; [lia|]. exists r2. split; [done|]. split; [by eapply later_trans|apply H2].
    + exists r2. split; [by eapply later_trans|done].
  - exists r. split; [done|]. split; [by apply later_refl|done].
  - by eapply rest_fuel.
Qed.

(** ** Simple commands *)

Lemma geti_mid_ne {A} (N M : list A) x y i : i <> Z.of_nat (length N) -> geti (N ++ x :: M) i = geti (N ++ y :: M) i.
Proof.
  intros Hi. unfold geti. destruct (Z.leb_spec 0 i) as [H0|]; [|done].
  destruct (decide (Z.to_nat i < length N)%nat) as [Hlt|Hge]; [by rewrite !lookup_app_l|].
  rewrite !lookup_app_r by lia. destruct (Z.to_nat i - length N)%nat as [|k] eqn:E; [lia|done].
Qed.

(** The redirections do not look into the command that they are around. *)
Lemma wraps_change W N M x y rs p :
  wraps W (N ++ x :: M) (Z.of_nat (length N)) rs p -> wraps W (N ++ y :: M) (Z.of_nat (length N)) rs p.
Proof.
  induction 1 as [|rs p p' r q e f Hw IH E Hf Hlt]; [constructor|]. econstructor; [done| |done|done].
  rewrite <- E. apply geti_mid_ne. pose proof (wraps_le _ _ _ _ _ Hw). lia.
Qed.

(** The state of parseexec()'s loop, which began in [s0]. *)
Record arg_inv (s0 : shell) (r0 : list Z) (i p : Z) (s : shell) (r : list Z) : Prop := {
  arg_later : later s0 r0 s r;
  arg_exec : exists M sp ws, nodes s = nodes s0 ++ exec_node sp :: M /\ i = Z.of_nat (length sp) /\
    (length sp <= 9)%nat /\ Forall2 (word_at l) sp ws;
  arg_wrapped : wrapped (nodes s) (Z.of_nat (length (nodes s0))) p;
}.

Lemma arg_inv_later s0 r0 i p p' s r s' r' :
  arg_inv s0 r0 i p s r -> later s r s' r' -> wrapped (nodes s') (Z.of_nat (length (nodes s0))) p' -> arg_inv s0 r0 i p' s' r'.
Proof.
  intros [L (M & sp & ws & En & Ei & Hs & Hf) Hw] L' Hw'. split; [by eapply later_trans| |done].
  destruct (later_nodes _ _ _ _ L') as [M' ->]. exists (M ++ M'), sp, ws. by rewrite En, <- app_assoc.
Qed.

Lemma set_arg_inv s0 r0 i p q e w s r :
  arg_inv s0 r0 i p s r -> word_at l (q, e) w ->
  exists s', set_arg (Z.of_nat (length (nodes s0))) i (Some q) (Some e) s = Done tt s' /\
    (i < 9 -> arg_inv s0 r0 (i + 1) p s' r).
Proof.
  intros [L (M & sp & ws & En & Ei & Hs & Hf) [[rs Hw] Hp]] Hwd. subst i.
  eexists. split; [apply set_arg_ok; [exact En|lia]|].
  intros Hi. split.
  - split; [apply (later_buf _ _ _ _ L)|split; apply (later_at _ _ _ _ L)|apply (later_rest _ _ _ _ L)|].
    by eexists.
  - exists M, (sp ++ [(q, e)]), (ws ++ [w]). split; [done|]. rewrite length_app. simpl. split; [lia|]. split; [lia|].
    apply Forall2_app; [done|]. by constructor.
  - rewrite En in Hw, Hp. split; [exists rs; by eapply wraps_change|].
    rewrite length_app in Hp. simpl in Hp. unfold apply_update. simpl. rewrite length_app. simpl. lia.
Qed.

Lemma arg_step_ends s0 r0 i p s r :
  arg_inv s0 r0 i p s r ->
  ends (arg_step (Z.of_nat (length l)) (Z.of_nat (length (nodes s0))) (i, p)) s (fun x s' => exists r',
    match x with inl y => (length r' < length r)%nat /\ arg_inv s0 r0 (fst y) (snd y) s' r'
               | inr y => arg_inv s0 r0 (fst y) (snd y) s' r' end).
Proof.
  intros Hi. pose proof (later_at _ _ _ _ (arg_later _ _ _ _ _ _ Hi)) as Ha.
  destruct (peek_any (str "|)&;") s r Ha) as (s2 & E2 & L2 & N2).
  assert (Hi2 : arg_inv s0 r0 i p s2 (lstrip r)).
  { eapply arg_inv_later; [done|done|]. rewrite N2. apply (arg_wrapped _ _ _ _ _ _ Hi). }
  unfold arg_step. eapply ends_step; [exact E2|].
  destruct (has_char (str "|)&;") _); [eapply ends_done; [done|by exists (lstrip r)]|].
  destruct (gettoken_any s2 (lstrip r)) as (t & q & e & s3 & r3 & E3 & L3 & N3 & Hc3 & Hw3); [apply (later_at _ _ _ _ L2)|].
  eapply ends_step; [exact E3|]. cbv beta iota.
  assert (Hi3 : arg_inv s0 r0 i p s3 r3).
  { eapply arg_inv_later; [exact Hi2|done|]. rewrite N3. apply (arg_wrapped _ _ _ _ _ _ Hi2). }
  destruct (Z.eqb_spec t 0) as [Et|Et]; [eapply ends_done; [done|by exists r3]|].
  destruct (Z.eqb_spec t (chr "a")) as [Ea|_]; cbn [negb]; [|apply ends_panic; set_solver].
  destruct (Hw3 Ea) as (w & Hw).
  assert (Hn : (length r3 < length r)%nat).
  { pose proof (length_lstrip r). destruct (lstrip (lstrip r)) eqn:El; [|destruct (Hc3 ltac:(done)); lia].
    exfalso. apply Et. destruct (later_at _ _ _ _ L2) as [Hb Hh].
    rewrite (gettoken_eq l Hl _ _ Hb Hh), El in E3. by injection E3 as <-. }
  destruct (set_arg_inv _ _ _ _ _ _ _ _ _ Hi3 Hw) as (s4 & E4 & H4).
  eapply ends_step; [exact E4|]. unfold MAXARGS. destruct (Z.leb_spec 10 (i + 1)) as [|Hlt]; [apply ends_panic; set_solver|].
  specialize (H4 ltac:(lia)). eapply ends_bind.
  { apply parseredirs_ends; [apply (later_at _ _ _ _ (arg_later _ _ _ _ _ _ H4))|apply (arg_wrapped _ _ _ _ _ _ H4)]. }
  intros p' s5 (r5 & L5 & Hw5). eapply ends_done; [done|]. exists r5. cbn [fst snd]. split.
  - pose proof (later_length _ _ _ _ L5). lia.
  - by eapply arg_inv_later.
Qed.

(** A parsing function's result: a later state, and the nodes of a command. *)
Definition built (s : shell) (r : list Z) (p : Z) (s' : shell) : Prop :=
  exists r' c, later s r s' r' /\ rep (word_at l) (nodes s') p c.

Lemma parseargs_ends s r : at_rest s r -> ends (parseargs (Z.of_nat (length l))) s (built s r).
Proof.
  intros Ha. destruct (later_alloc (exec_node []) s r Ha) as (s1 & E1 & L1 & N1).
  unfold parseargs. eapply ends_step; [exact E1|].
  assert (Hw1 : wrapped (nodes s1) (Z.of_nat (length (nodes s))) (Z.of_nat (length (nodes s)))).
  { split; [exists []; constructor|]. rewrite N1, length_app. simpl. lia. }
  eapply ends_bind; [apply parseredirs_ends; [apply (later_at _ _ _ _ L1)|exact Hw1]|].
  intros p2 s2 (r2 & L2 & Hw2).
  assert (Hi2 : arg_inv s r 0 p2 s2 r2).
  { split; [by eapply later_trans| |done]. destruct (later_nodes _ _ _ _ L2) as [M ->]. exists M, [], [].
    split; [by rewrite N1, <- app_assoc|]. split; [done|]. split; [simpl; lia|constructor]. }
  eapply ends_bind.
  { apply (ends_loop _ (fun n x s' => exists r', (length r' <= n)%nat /\ arg_inv s r (fst x) (snd x) s' r')
      (fun x s' => exists r', arg_inv s r (fst x) (snd x) s' r')) with (n := length r2).
    - intros n [i p] s3 (r3 & Hn & H3). eapply ends_mono; [by eapply arg_step_ends|].
      intros [y|y] s4 (r4 & H4); [|by exists r4]. destruct H4 as [Hlt H4].
      exists (length r4). split; [lia|]. by exists r4.
    - by exists r2.
    - eapply rest_fuel, (later_at _ _ _ _ L2). }
  intros [i p] s3 (r3 & [L3 (M & sp & ws & En & Ei & Hs & Hf) [[rs Hw] Hp]]). cbn [fst snd] in *. subst i.
  eapply ends_step; [apply (set_arg_end (nodes s) sp M s3 En); lia|]. eapply ends_done; [done|].
  exists r3, (redirs (Exec ws) rs). split; [done|]. eapply wraps_rep; [exact Hw|].
  rewrite En. eapply (rep_exec _ _ _ sp); [apply geti_mid|done|by rewrite <- (Forall2_length _ _ _ Hf)].
Qed.

(** ** The grammar *)

Lemma gettoken_ends {A} (k : M shell A) s r s1 Q :
  later s r s1 (lstrip r) -> nodes s1 = nodes s -> lstrip r <> [] ->
  (forall s' r', later s r s' r' -> nodes s' = nodes s -> (length r' < length r)%nat -> ends k s' Q) ->
  ends (gettoken (Z.of_nat (length l));;; k) s1 Q.
Proof.
  intros L N Hne Hk. destruct (gettoken_any s1 (lstrip r)) as (t & q & e & s2 & r2 & E2 & L2 & N2 & Hc & _).
  { apply (later_at _ _ _ _ L). }
  rewrite lstrip_idem in Hc. destruct (Hc Hne) as [Hlt _]. pose proof (length_lstrip r).
  eapply ends_step; [exact E2|]. apply (Hk s2 r2); [by eapply later_trans|congruence|lia].
Qed.

(** The code looks for a symbol, and reads it if it is there. *)
Lemma peek_ends {A} cs (m m' : M shell A) s r Q :
  at_rest s r ->
  (forall s' r', later s r s' r' -> nodes s' = nodes s -> (length r' < length r)%nat -> ends m s' Q) ->
  (forall s', later s r s' (lstrip r) -> nodes s' = nodes s -> ends m' s' Q) ->
  ends (b <- peek (Z.of_nat (length l)) cs;; if b then gettoken (Z.of_nat (length l));;; m else m') s Q.
Proof.
  intros Ha Hm Hm'. destruct (peek_any cs s r Ha) as (s1 & E1 & L1 & N1).
  eapply ends_step; [exact E1|]. destruct (has_char cs (head0 (lstrip r))) eqn:Ex; [|by apply Hm'].
  eapply gettoken_ends; [done|done| |done]. intros Ez. rewrite Ez in Ex. by apply has_char_in in Ex as [_ ?].
Qed.

Lemma built_later s r p s1 r1 s2 : later s r s1 r1 -> built s1 r1 p s2 -> built s r p s2.
Proof. intros L (r2 & c & L2 & Hr). exists r2, c. split; [by eapply later_trans|done]. Qed.

(** One node above two commands, or above one. *)
Lemma alloc_ends n s r (Q : Z -> shell -> Prop) :
  at_rest s r ->
  (forall s', later s r s' r -> nodes s' = nodes s ++ [n] -> Q (Z.of_nat (length (nodes s))) s') ->
  ends (alloc_node n) s Q.
Proof.
  intros Ha HQ. destruct (later_alloc n s r Ha) as (s' & E & L & N). eapply ends_done; [exact E|by apply HQ].
Qed.

Lemma back_loop_ends p s r c :
  at_rest s r -> rep (word_at l) (nodes s) p c ->
  ends (loop (Datatypes.S (Z.to_nat (Z.of_nat (length l)))) (back_step (Z.of_nat (length l))) p) s (built s r).
Proof.
  intros Ha Hr.
  apply (ends_loop _ (fun n p' s' => exists r' c', (length r' <= n)%nat /\ later s r s' r' /\ rep (word_at l) (nodes s') p' c'))
    with (n := length r).
  - clear p c Hr. intros n p s1 (r1 & c & Hn & L1 & Hr). unfold back_step.
    pose proof (later_at _ _ _ _ L1) as Ha1. apply (peek_ends _ _ _ _ r1); [done| |].
    + intros s2 r2 L2 N2 Hlt. eapply ends_bind with (R := fun p' s' => exists c', later s r s' r2 /\ rep (word_at l) (nodes s') p' c').
      * eapply alloc_ends; [apply (later_at _ _ _ _ L2)|]. intros s3 L3 N3. exists (Back c).
        pose proof (later_trans _ _ _ _ _ _ L1 L2) as L12.
        split; [by eapply later_trans|]. rewrite N3. eapply rep_back; [apply geti_new|rewrite N2; by apply rep_app|].
        rewrite N2. apply (rep_lt _ _ _ _ Hr).
      * intros p' s3 (c' & L3 & Hr3). eapply ends_done; [done|]. exists (length r2). split; [lia|]. by exists r2, c'.
    + intros s2 L2 N2. eapply ends_done; [done|]. exists (lstrip r1), c. rewrite N2. split; [by eapply later_trans|done].
  - exists r, c. split; [done|]. split; [by apply later_refl|done].
  - by eapply rest_fuel.
Qed.

Definition line_ends (n : nat) : Prop := forall s r, at_rest s r -> (4 * (length r + 1) <= n)%nat ->
  ends (parseline n (Z.of_nat (length l))) s (built s r).
Definition pipe_ends (n : nat) : Prop := forall s r, at_rest s r -> (4 * (length r + 1) <= n + 1)%nat ->
  ends (parsepipe n (Z.of_nat (length l))) s (built s r).
Definition exec_ends (n : nat) : Prop := forall s r, at_rest s r -> (4 * (length r + 1) <= n + 2)%nat ->
  ends (parseexec n (Z.of_nat (length l))) s (built s r).
Definition block_ends (n : nat) : Prop := forall s r, at_rest s r -> head0 (lstrip r) = chr "(" ->
  (4 * (length r + 1) <= n + 3)%nat -> ends (parseblock n (Z.of_nat (length l))) s (built s r).

Lemma line_ends_S n : pipe_ends n -> line_ends n -> line_ends (S n).
Proof.
  intros Hp Hln s r Ha Hn. rewrite parseline_S. eapply ends_bind; [apply Hp; [done|lia]|].
  intros p s1 (r1 & c & L1 & Hr). pose proof (later_length _ _ _ _ L1).
  eapply ends_bind; [eapply back_loop_ends; [apply (later_at _ _ _ _ L1)|exact Hr]|].
  clear p c Hr. intros p s2 (r2 & c & L2 & Hr). pose proof (later_trans _ _ _ _ _ _ L1 L2) as L.
  pose proof (later_length _ _ _ _ L2). apply (peek_ends _ _ _ _ r2); [apply (later_at _ _ _ _ L)| |].
  - intros s3 r3 L3 N3 Hlt. eapply ends_bind; [apply Hln; [apply (later_at _ _ _ _ L3)|lia]|].
    intros p' s4 (r4 & d & L4 & Hr'). eapply alloc_ends; [apply (later_at _ _ _ _ L4)|]. intros s5 L5 N5.
    assert (Hr4 : rep (word_at l) (nodes s4) p c) by (eapply later_rep; [exact L4|by rewrite N3]).
    exists r4, (List c d). split; [by do 3 (eapply later_trans; [done|])|]. rewrite N5.
    eapply rep_list; [apply geti_new|by apply rep_app|by apply rep_app|by apply (rep_lt _ _ _ _ Hr4)|by apply (rep_lt _ _ _ _ Hr')].
  - intros s3 L3 N3. eapply ends_done; [done|]. exists (lstrip r2), c. rewrite N3. split; [by eapply later_trans|done].
Qed.

Lemma pipe_ends_S n : exec_ends n -> pipe_ends n -> pipe_ends (S n).
Proof.
  intros He Hp s r Ha Hn. rewrite parsepipe_S. eapply ends_bind; [apply He; [done|lia]|].
  intros p s2 (r2 & c & L & Hr). pose proof (later_length _ _ _ _ L).
  apply (peek_ends _ _ _ _ r2); [apply (later_at _ _ _ _ L)| |].
  - intros s3 r3 L3 N3 Hlt. eapply ends_bind; [apply Hp; [apply (later_at _ _ _ _ L3)|lia]|].
    intros p' s4 (r4 & d & L4 & Hr'). eapply alloc_ends; [apply (later_at _ _ _ _ L4)|]. intros s5 L5 N5.
    assert (Hr4 : rep (word_at l) (nodes s4) p c) by (eapply later_rep; [exact L4|by rewrite N3]).
    exists r4, (Pipe c d). split; [by do 3 (eapply later_trans; [done|])|]. rewrite N5.
    eapply rep_pipe; [apply geti_new|by apply rep_app|by apply rep_app|by apply (rep_lt _ _ _ _ Hr4)|by apply (rep_lt _ _ _ _ Hr')].
  - intros s3 L3 N3. eapply ends_done; [done|]. exists (lstrip r2), c. rewrite N3. split; [by eapply later_trans|done].
Qed.

Lemma exec_ends_S n : block_ends n -> exec_ends (S n).
Proof.
  intros Hb s r Ha Hn. rewrite parseexec_S. destruct (peek_any (str "(") s r Ha) as (s1 & E1 & L1 & N1).
  eapply ends_step; [exact E1|]. pose proof (length_lstrip r).
  eapply ends_mono; [|intros p s2; by apply built_later].
  destruct (has_char (str "(") (head0 (lstrip r))) eqn:Ex.
  - apply Hb; [apply (later_at _ _ _ _ L1)| |lia]. rewrite lstrip_idem. apply has_char_in in Ex as [Ex _].
    by apply list_elem_of_singleton in Ex.
  - apply parseargs_ends, (later_at _ _ _ _ L1).
Qed.

Lemma block_ends_S n : line_ends n -> block_ends (S n).
Proof.
  intros Hln s r Ha Hx Hn. rewrite parseblock_S. destruct (peek_any (str "(") s r Ha) as (s1 & E1 & L1 & N1).
  eapply ends_step; [exact E1|]. rewrite Hx. change (negb (has_char (str "(") (chr "("))) with false. cbv iota.
  eapply (gettoken_ends _ s r); [done|done|by intros E; rewrite E in Hx|]. intros s2 r2 L2 N2 Hlt.
  eapply ends_bind; [apply Hln; [apply (later_at _ _ _ _ L2)|lia]|].
  intros p s3 (r3 & c & L3 & Hr). pose proof (later_at _ _ _ _ L3) as Ha3.
  destruct (peek_any (str ")") s3 r3 Ha3) as (s4 & E4 & L4 & N4). eapply ends_step; [exact E4|].
  destruct (has_char (str ")") (head0 (lstrip r3))) eqn:Ey; cbn [negb]; [|apply ends_panic; set_solver].
  eapply (gettoken_ends _ s3 r3); [done|done| |].
  { intros E. rewrite E in Ey. by apply has_char_in in Ey as [_ ?]. }
  intros s5 r5 L5 N5 _.
  assert (Hr5 : rep (word_at l) (nodes s5) p c) by by eapply later_rep.
  eapply ends_mono; [apply (parseredirs_ends p p s5 r5); [apply (later_at _ _ _ _ L5)|]|].
  { split; [exists []; constructor|by apply (rep_lt _ _ _ _ Hr5)]. }
  intros p' s6 (r6 & L6 & [[rs Hw] Hp]). exists r6, (redirs c rs). split.
  - by do 3 (eapply later_trans; [done|]).
  - eapply wraps_rep; [exact Hw|by eapply later_rep].
Qed.

Lemma grammar_ends n : line_ends n /\ pipe_ends n /\ exec_ends n /\ block_ends n.
Proof.
  induction n as [|n (IHl & IHp & IHe & IHb)].
  - split; [|split; [|split]]; intros s r Ha; lia || (intros; lia).
  - split; [by apply line_ends_S|]. split; [by apply pipe_ends_S|]. split; [by apply exec_ends_S|by apply block_ends_S].
Qed.
End Any.
