(* ===== verification/ShProps.v ===== *)
(** What the shell's parsecmd() promises. *)

From S2P Require Import Prelude Mem Riscv Locks Kalloc Vm Proc ProcFacts Kernel KernelFacts Ulib Sysfile Sh ShFacts ShParse ShTotal.

(** The default spelling: a space behind every token. *)
Definition print (c : cmd) : list (tok * list Z) := (fun t => (t, [32])) <$> toks 0 c.

Lemma paren_valid b ts : Forall valid_tok ts -> Forall valid_tok (paren b ts).
Proof.
  intros H. destruct b; [|done]. simpl. constructor; [by apply (bool_decide_unpack _)|].
  apply Forall_app. split; [done|]. constructor; [by apply (bool_decide_unpack _)|constructor].
Qed.

Lemma toks_valid c : valid_cmd c -> forall k, Forall valid_tok (toks k c).
Proof.
  induction c as [ws|c IH r f|c IHc d IHd|c IHc d IHd|c IH]; intros Hv k; cbn [toks].
  - rewrite Forall_fmap. destruct Hv as [Hv _]. by eapply Forall_impl; [exact Hv|].
  - destruct Hv as [Hc Hf]. apply Forall_app. split; [by apply IH|]. constructor; [|by constructor].
    destruct r; [| |done]; by apply (bool_decide_unpack _).
  - destruct Hv as [Hc Hd]. apply paren_valid, Forall_app. split; [by apply IHc|].
    constructor; [by apply (bool_decide_unpack _)|by apply IHd].
  - destruct Hv as [Hc Hd]. apply paren_valid, Forall_app. split; [by apply IHc|].
    constructor; [by apply (bool_decide_unpack _)|by apply IHd].
  - apply paren_valid, Forall_app. split; [by apply IH|]. constructor; [by apply (bool_decide_unpack _)|constructor].
Qed.

Lemma print_spelled c : valid_cmd c -> spelled (print c).
Proof.
  intros Hv. pose proof (toks_valid c Hv 0) as Ht. unfold print. induction Ht as [|t ts Ht Hts IH]; [done|].
  simpl. split; [done|]. split; [by repeat constructor|]. split; [done|]. by destruct ts.
Qed.

Lemma print_toks c : (print c).*1 = toks 0 c.
Proof. unfold print. rewrite <- list_fmap_compose. by apply list_fmap_id. Qed.

Lemma spelled_nonzero K : spelled K -> 0 ∉ spell K.
Proof.
  induction K as [|[t b] K IH]; [by intros _ ?%elem_of_nil|]. intros (Ht & Hb & HK & _). rewrite spell_cons.
  rewrite !not_elem_of_app. split; [|split; [|by apply IH]].
  - intros Hin. destruct t as [w|c|]; simpl in *.
    + destruct Ht as [_ Hw]. rewrite Forall_forall in Hw. by destruct (Hw _ Hin).
    + apply list_elem_of_singleton in Hin as <-. by destruct (sym_cases 0 Ht) as [? |[? |[? |[? |[? |[? | ?]]]]]].
    + apply elem_of_cons in Hin as [? |Hin]; [done|]. by apply list_elem_of_singleton in Hin.
  - intros Hin. unfold is_blank in Hb. rewrite Forall_forall in Hb. by destruct (has_char_in _ _ (Hb _ Hin)).
Qed.

Lemma blank_nonzero b : is_blank b -> 0 ∉ b.
Proof. unfold is_blank. rewrite Forall_forall. intros Hb Hin. by destruct (has_char_in _ _ (Hb _ Hin)). Qed.

Lemma rep_valid l N p c : rep (word_at l) N p c -> valid_cmd c.
Proof.
  induction 1 as [p sp ws E Hf Hlen|p c' c r q e f E Hc IH Hf Hlt|p x y c d E Hc IHc Hd IHd H1 H2|p x y c d E Hc IHc Hd IHd H1 H2|p x c E Hc IH Hlt];
    simpl; try done.
  - split; [|done]. apply Forall_forall. intros w Hw. apply list_elem_of_lookup in Hw as [i Hi].
    by destruct (Forall2_lookup_r _ _ _ _ _ Hf Hi) as (x & _ & [Hx _]).
  - split; [done|apply Hf].
Qed.

Section Parse.
Context (l rest : list Z).
Hypothesis Hl : 0 ∉ l.

Lemma split_line (b : list Z) : 0 ∈ b -> exists l rest, b = l ++ 0 :: rest /\ 0 ∉ l.
Proof. intros H. apply list_elem_of_split_l in H as (a & r & -> & Ha). by exists a, r. Qed.

Lemma parsecmd_unfold pos N :
  parsecmd 0 (Shell (l ++ 0 :: rest) pos N)
  = (cmd <- parseline (depth (Z.of_nat (length l))) (Z.of_nat (length l));;
     _ <- peek (Z.of_nat (length l)) [];;
     p <- gets spos;;
     if negb (p =? Z.of_nat (length l)) then panic "syntax"
     else
       k <- gets (fun s => length (nodes s));;
       nulterminate k cmd;;;
       ret cmd) (Shell (l ++ 0 :: rest) 0 N).
Proof.
  unfold parsecmd. erewrite bind_done by done. cbn [sbuf Z.to_nat]. rewrite drop_0.
  rewrite strlen_cstr by set_solver. rewrite cstr_until by done. cbv zeta. by rewrite Z.add_0_l.
Qed.

(** nulterminate() on the command that was built. *)
Lemma nulterminate_read s p c :
  sbuf s = l ++ 0 :: rest -> rep (word_at l) (nodes s) p c ->
  exists s', nulterminate (length (nodes s)) p s = Done tt s' /\
    read_cmd (length (nodes s')) (nodes s') (sbuf s') p = Some c.
Proof.
  intros Hb Hr. pose proof (rep_lt _ _ _ _ Hr) as Hp.
  destruct (nulterminate_ok l rest (nodes s) p c Hr (length (nodes s)) s eq_refl) as (b & E & Hc & Hr').
  { rewrite Hb. apply cut_refl. }
  { lia. }
  exists (with_line b s). split; [done|]. apply read_rep; [|apply Hp]. simpl. rewrite Hb in Hc.
  eapply rep_mono; [|exact Hr']. intros x w. by apply (word_in_cstr l rest).
Qed.
End Parse.

(** A line that a C string may start with. *)
Lemma here_start l : here l 0 l.
Proof. split; [lia|by exists []]. Qed.

(** A line that spells a command. *)
Lemma parse_ok c b K rest pos N :
  valid_cmd c -> is_blank b -> spelled K -> K.*1 = toks 0 c ->
  exists p s', parsecmd 0 (Shell (b ++ spell K ++ 0 :: rest) pos N) = Done p s' /\
    read_cmd (length (nodes s')) (nodes s') (sbuf s') p = Some c.
Proof.
  intros Hv Hb HK EK. set (l := b ++ spell K).
  assert (Hl : 0 ∉ l) by (apply not_elem_of_app; split; [by apply blank_nonzero|by apply spelled_nonzero]).
  replace (b ++ spell K ++ 0 :: rest) with (l ++ 0 :: rest) by (unfold l; by rewrite <- app_assoc).
  rewrite parsecmd_unfold by done. set (s0 := Shell (l ++ 0 :: rest) 0 N).
  assert (Ha : at_toks l s0 (K ++ [])).
  { rewrite app_nil_r. split; [by exists rest|done|]. exists b. split; [done|apply here_start]. }
  pose proof (at_bound l _ _ Ha) as Hbd. rewrite app_nil_r in Hbd.
  destruct (parses_line l c (cmd_parses l Hl c Hv) (depth (Z.of_nat (length l))) s0 K [] Ha EK) as (M & p & E & Hr).
  { by left. }
  { unfold depth. lia. }
  rewrite (bind_done _ _ _ _ _ E). pose proof (at_past l _ _ _ M Ha) as Ha1.
  rewrite (bind_done _ _ _ _ _ (peek_at l Hl [] _ _ Ha1)). erewrite bind_done by done.
  replace (negb _) with false by (symmetry; apply negb_false_iff, Z.eqb_eq; simpl; unfold pos_of; simpl; lia).
  cbv iota. erewrite bind_done by done.
  destruct (nulterminate_read l rest (goto l [] (past l [] M s0)) p c eq_refl Hr) as (s' & E2 & Hread).
  exists p, s'. split; [|done]. by rewrite (bind_done _ _ _ _ _ E2).
Qed.

(** C16: parsing is the inverse of printing.  A line that spells a command (with any
    blanks between and around its tokens, and parentheses where the grammar needs
    them) is parsed, and what runcmd() will find in the nodes and in the strings of
    the line after nulterminate() is that command. *)
Theorem parse_print c b K rest pos N :
  valid_cmd c -> is_blank b -> spelled K -> K.*1 = toks 0 c ->
  exists p s', parsecmd 0 (Shell (b ++ spell K ++ 0 :: rest) pos N) = Done p s' /\
    read_cmd (length (nodes s')) (nodes s') (sbuf s') p = Some c.
Proof. apply parse_ok. Qed.

Definition sample : cmd :=
  Back (Pipe (Exec [str "cat"; str "x"]) (Redir (List (Exec [str "wc"]) (Exec [str "ls"])) RApp (str "out"))).

Lemma parse_print_witness :
  exists p s', parsecmd 0 (Shell ([32] ++ spell (print sample) ++ 0 :: [7]) 5 []) = Done p s' /\
    read_cmd (length (nodes s')) (nodes s') (sbuf s') p = Some sample.
Proof.
  apply (parse_print sample [32] (print sample) [7] 5 []).
  - vm_compute. repeat split; try (repeat constructor; discriminate); try lia; try discriminate.
  - by repeat constructor.
  - vm_compute. repeat split; try (repeat constructor; discriminate); try (apply (bool_decide_unpack _); exact I); discriminate.
  - apply print_toks.
Defined.

(** C19: parsecmd() on any string.  It reads and writes nothing outside the line and
    uses no node as one of another type, it stops, and it ends with one of four
    messages or with a command that can be read back: at most nine words in every
    argv, none of them empty, the nodes a tree. *)
Theorem parse_typed b pos N :
  0 ∈ b ->
  match parsecmd 0 (Shell b pos N) with
  | Done p s' => exists c, valid_cmd c /\ read_cmd (length (nodes s')) (nodes s') (sbuf s') p = Some c
  | Panic e => e ∈ syntax_errors
  | _ => False
  end.
Proof.
  intros H0. destruct (split_line b H0) as (l & rest & -> & Hl). rewrite parsecmd_unfold by done.
  set (s0 := Shell (l ++ 0 :: rest) 0 N).
  assert (Ha : at_rest l s0 l) by (split; [by exists rest|apply here_start]).
  destruct (grammar_ends l Hl (depth (Z.of_nat (length l)))) as (Hline & _).
  change (ends (cmd <- parseline (depth (Z.of_nat (length l))) (Z.of_nat (length l));;
     _ <- peek (Z.of_nat (length l)) [];;
     p <- gets spos;;
     if negb (p =? Z.of_nat (length l)) then panic "syntax"
     else k <- gets (fun s => length (nodes s));; nulterminate k cmd;;; ret cmd) s0
    (fun p s' => exists c, valid_cmd c /\ read_cmd (length (nodes s')) (nodes s') (sbuf s') p = Some c)).
  eapply ends_bind; [apply (Hline s0 l Ha); unfold depth; lia|]. intros p s1 (r1 & c & L1 & Hr).
  destruct (peek_any l Hl [] s1 r1 (later_at _ _ _ _ _ L1)) as (s2 & E2 & L2 & N2).
  eapply ends_step; [exact E2|]. eapply ends_step; [done|].
  destruct (negb _); [apply ends_panic; set_solver|]. eapply ends_step; [done|].
  assert (Hb : sbuf s2 = l ++ 0 :: rest) by (rewrite (later_buf _ _ _ _ _ L2); apply (later_buf _ _ _ _ _ L1)).
  rewrite <- N2 in Hr. destruct (nulterminate_read l rest s2 p c Hb Hr) as (s3 & E3 & Hread).
  eapply ends_step; [exact E3|]. eapply ends_done; [done|]. exists c. split; [by eapply rep_valid|done].
Qed.

Lemma parse_typed_witness :
  match parsecmd 0 (Shell (str "echo a & b" ++ [0]) 0 []) with
  | Done p s' => exists c, valid_cmd c /\ read_cmd (length (nodes s')) (nodes s') (sbuf s') p = Some c
  | Panic e => e ∈ syntax_errors
  | _ => False
  end.
Proof. apply parse_typed. vm_compute. set_solver. Defined.
