(* ===== verification/ShRun.v ===== *)
(** The shell (user/sh.c): running commands, and the loop of main().

    A program is a tree of system calls ([sys]): what comes after a call depends on
    its result, and fork() is answered in the child and in the parent.  The memory
    of runcmd() is the store of nodes and the line, which it only reads. *)

From S2P Require Import Prelude Mem Riscv Locks Kalloc Vm Proc Kernel Ulib Sysfile Sh ShParse ShTotal.

Inductive sys (A : Type) :=
| SRet (a : A)
| SExit (status : Z)
| SExec (path : list Z) (argv : list (list Z)) (k : sys A)
| SFork (k : Z -> sys A)
| SWait (k : sys A)
| SPipe (k : option (Z * Z) -> sys A)
| SClose (fd : Z) (k : sys A)
| SDup (fd : Z) (k : Z -> sys A)
| SOpen (path : list Z) (mode : Z) (k : Z -> sys A)
| SWrite (fd : Z) (bs : list Z) (k : sys A)
| SRead (n : Z) (k : list Z -> sys A)
| SChdir (path : list Z) (k : Z -> sys A)
| SUndef.

Arguments SRet {A} a.
Arguments SExit {A} status.
Arguments SExec {A} path argv k.
Arguments SFork {A} k.
Arguments SWait {A} k.
Arguments SPipe {A} k.
Arguments SClose {A} fd k.
Arguments SDup {A} fd k.
Arguments SOpen {A} path mode k.
Arguments SWrite {A} fd bs k.
Arguments SRead {A} n k.
Arguments SChdir {A} path k.
Arguments SUndef {A}.

Fixpoint sbind {A B} (m : sys A) (f : A -> sys B) : sys B :=
  match m with
  | SRet a => f a
  | SExit n => SExit n
  | SExec p a k => SExec p a (sbind k f)
  | SFork k => SFork (fun x => sbind (k x) f)
  | SWait k => SWait (sbind k f)
  | SPipe k => SPipe (fun x => sbind (k x) f)
  | SClose fd k => SClose fd (sbind k f)
  | SDup fd k => SDup fd (fun x => sbind (k x) f)
  | SOpen p m k => SOpen p m (fun x => sbind (k x) f)
  | SWrite fd bs k => SWrite fd bs (sbind k f)
  | SRead n k => SRead n (fun x => sbind (k x) f)
  | SChdir p k => SChdir p (fun x => sbind (k x) f)
  | SUndef => SUndef
  end.

Declare Scope sys_scope.
Delimit Scope sys_scope with sys.
Notation "x <- m ;; k" := (sbind m (fun x => k))
  (at level 100, m at next level, right associativity) : sys_scope.
Notation "m ;;; k" := (sbind m (fun _ => k))
  (at level 100, right associativity) : sys_scope.

Definition newline : Z := 10.

(** ** runcmd() *)

Definition spanic {A} (s : list Z) : sys A := SWrite 2 (s ++ [newline]) (SExit 1).

Definition fork1 {A} (k : Z -> sys A) : sys A :=
  SFork (fun pid => if pid =? -1 then spanic (str "fork") else k pid).

(** The fuel is as for nulterminate(): children come before their parents. *)
Fixpoint runcmd (n : nat) (N : list node) (b : list Z) (cmd : Z) : sys Empty_set :=
  match n with
  | O => SUndef
  | Datatypes.S m =>
      match geti N cmd with
      | None => SUndef
      | Some (EXEC argv _) =>
          match read_args b argv with
          | Some (w :: ws) =>
              SExec w (w :: ws) (SWrite 2 (str "exec " ++ w ++ str " failed" ++ [newline]) (SExit 0))
          | Some [] => SExit 1
          | None => SUndef
          end
      | Some (REDIR c q _ mode fd) =>
          SClose fd
            (SOpen (cstr_at b q) mode (fun r =>
               if r <? 0 then SWrite 2 (str "open " ++ cstr_at b q ++ str " failed" ++ [newline]) (SExit 1)
               else runcmd m N b c))
      | Some (LIST l r) =>
          fork1 (fun pid => if pid =? 0 then runcmd m N b l else SWait (runcmd m N b r))
      | Some (PIPE l r) =>
          SPipe (fun o => match o with
            | None => spanic (str "pipe")
            | Some (p0, p1) =>
                fork1 (fun pid =>
                  if pid =? 0 then SClose 1 (SDup p1 (fun _ => SClose p0 (SClose p1 (runcmd m N b l))))
                  else fork1 (fun pid =>
                    if pid =? 0 then SClose 0 (SDup p0 (fun _ => SClose p0 (SClose p1 (runcmd m N b r))))
                    else SClose p0 (SClose p1 (SWait (SWait (SExit 0))))))
            end)
      | Some (BACK c) => fork1 (fun pid => if pid =? 0 then runcmd m N b c else SExit 0)
      end
  end.

(** ** main() *)

Open Scope sys_scope.

(** gets(buf, max) of ulib.c, on the buffer [b]; [i] characters are there. *)
Fixpoint gets_from (n : nat) (max i : Z) (b : list Z) : sys (list Z) :=
  match n with
  | O => SUndef
  | Datatypes.S m =>
      if i + 1 <? max then
        SRead 1 (fun cs =>
          match cs with
          | [] => SRet (seti i 0 b)
          | c :: _ =>
              if (c =? 10) || (c =? 13) then SRet (seti (i + 1) 0 (seti i c b))
              else gets_from m max (i + 1) (seti i c b)
          end)
      else SRet (seti i 0 b)
  end.

(** The size of main()'s buffer. *)
Definition nbuf : Z := 100.

(** The result is the buffer, and whether there was a line. *)
Definition getcmd : sys (list Z * bool) :=
  SWrite 2 (str "$ ")
    (b <- gets_from (Z.to_nat nbuf) nbuf 0 (replicate (Z.to_nat nbuf) 0);;
     SRet (b, match b with c :: _ => negb (c =? 0) | [] => false end)).

(** [buf[0] == 'c' && buf[1] == 'd' && buf[2] == ' '] *)
Definition is_cd (b : list Z) : bool :=
  match b with c :: d :: e :: _ => (c =? chr "c") && (d =? chr "d") && (e =? chr " ") | _ => false end.

(** The built-in command: the newline is cut off. *)
Definition cd (b : list Z) (k : sys Empty_set) : sys Empty_set :=
  match Ulib.strlen b with
  | None => SUndef
  | Some n =>
      let b := seti (n - 1) 0 b in
      SChdir (cstr_at b 3) (fun r =>
        if r <? 0 then SWrite 2 (str "cannot cd " ++ cstr_at b 3 ++ [newline]) k else k)
  end.

(** What the child does with the line: [runcmd(parsecmd(buf))].  Only the messages
    of parsecmd()'s panic() are written here, not the rest of the line. *)
Definition run_line (b : list Z) : sys Empty_set :=
  match parsecmd 0 (Shell b 0 []) with
  | Done cmd s => runcmd (length (nodes s)) (nodes s) (sbuf s) cmd
  | Panic e => spanic (str e)
  | _ => SUndef
  end.

(** The loop, for as many lines as there is fuel. *)
Fixpoint main_loop (n : nat) : sys Empty_set :=
  match n with
  | O => SUndef
  | Datatypes.S m =>
      r <- getcmd;;
      let '(b, ok) := r in
      if ok : bool then
        if is_cd b then cd b (main_loop m)
        else fork1 (fun pid => if pid =? 0 then run_line b else SWait (main_loop m))
      else SExit 0
  end.

(** [while((fd = open("console", O_RDWR)) >= 0) if(fd >= 3) { close(fd); break; }] *)
Fixpoint open_console (n : nat) (k : sys Empty_set) : sys Empty_set :=
  match n with
  | O => SUndef
  | Datatypes.S m =>
      SOpen (str "console") O_RDWR (fun fd =>
        if 0 <=? fd then if 3 <=? fd then SClose fd k else open_console m k else k)
  end.

Definition main (n : nat) : sys Empty_set := open_console 4 (main_loop n).

(** ** What the system calls do

    To a process: its descriptors (sysfile.c's fdalloc() takes the lowest that is
    free), its name (the numbers of its ancestors' children), how many children it
    has had, and the bytes that its reads get. *)

Inductive ofile :=
| OFile (path : list Z) (mode : Z)
| PipeRead (id : list nat * nat)
| PipeWrite (id : list nat * nat)
| Inherited (n : nat).

Record process := Process {
  p_files : list (option ofile);
  p_name : list nat;
  p_kids : nat;
  p_input : list Z;
}.

(** What the rest of the system decides. *)
Record world := World {
  can_fork : list nat -> nat -> bool;
  can_pipe : list nat -> nat -> bool;
  can_open : list nat -> nat -> list Z -> Z -> bool;
  can_chdir : list Z -> bool;
}.

(** What a process is seen to do, with its descriptors where it execs or waits.  A program
    that exec() finds replaces the rest. *)
Inductive tree :=
| TExit (status : Z)
| TExec (path : list Z) (argv : list (list Z)) (files : list (option ofile)) (failed : tree)
| TSpawn (child next : tree)
| TAwait (files : list (option ofile)) (next : tree)
| TWrite (f : option ofile) (bs : list Z) (next : tree)
| TChdir (path : list Z) (next : tree)
| TUndef.

Fixpoint lowest (F : list (option ofile)) : option nat :=
  match F with
  | None :: _ => Some O
  | Some _ :: F' => match lowest F' with Some i => Some (Datatypes.S i) | None => None end
  | [] => None
  end.

Definition fd_file (F : list (option ofile)) (fd : Z) : option ofile :=
  match geti F fd with Some o => o | None => None end.

(** [fdalloc]: -1 if no descriptor is free. *)
Definition install (F : list (option ofile)) (f : ofile) : Z * list (option ofile) :=
  match lowest F with
  | Some i => (Z.of_nat i, <[i := Some f]> F)
  | None => (-1, F)
  end.

Section Handle.
Context (E : world).

Fixpoint handle {A} (m : sys A) (p : process) : tree :=
  let '(Process F name kids input) := p in
  match m with
  | SRet _ => TUndef
  | SUndef => TUndef
  | SExit n => TExit n
  | SExec path argv k => TExec path argv F (handle k p)
  | SFork k =>
      if can_fork E name kids
      then TSpawn (handle (k 0) (Process F (name ++ [kids]) O []))
                  (handle (k (Z.of_nat kids + 1)) (Process F name (Datatypes.S kids) input))
      else handle (k (-1)) p
  | SWait k => TAwait F (handle k p)
  | SPipe k =>
      if can_pipe E name kids then
        let '(p0, F1) := install F (PipeRead (name, kids)) in
        let '(p1, F2) := install F1 (PipeWrite (name, kids)) in
        if (p0 <? 0) || (p1 <? 0) then handle (k None) p
        else handle (k (Some (p0, p1))) (Process F2 name kids input)
      else handle (k None) p
  | SClose fd k => handle k (Process (seti fd None F) name kids input)
  | SDup fd k =>
      match fd_file F fd with
      | Some f => let '(r, F') := install F f in handle (k r) (Process F' name kids input)
      | None => handle (k (-1)) p
      end
  | SOpen path mode k =>
      if can_open E name kids path mode
      then let '(r, F') := install F (OFile path mode) in handle (k r) (Process F' name kids input)
      else handle (k (-1)) p
  | SWrite fd bs k => TWrite (fd_file F fd) bs (handle k p)
  | SRead n k =>
      let bs := take (Z.to_nat n) input in
      handle (k bs) (Process F name kids (drop (Z.to_nat n) input))
  | SChdir path k => TChdir path (handle (k (if can_chdir E path then 0 else -1)) p)
  end.

End Handle.
