(* ===== verification/ShMain.v ===== *)
(** The meaning of the shell's commands, that runcmd() implements it, and what
    main() does with a session at the console. *)

From S2P Require Import Prelude Mem Riscv Locks Kalloc Vm Proc Kernel KernelFacts Sysfile Ulib Sh ShFacts ShParse ShTotal ShProps ShRun.

Section Meaning.
Context (E : world).

(** A fork; when it fails the shell gives up. *)
Definition spawn (F : list (option ofile)) (name : list nat) (k : nat) (child next : tree) : tree :=
  if can_fork E name k then TSpawn child next
  else TWrite (fd_file F 2) (str "fork" ++ [newline]) (TExit 1).

(** What a command does, run by the process [name] with the descriptors [F] and [k]
    children: a redirection changes one descriptor, the ends of a pipe are the
    output of one child and the input of another, and nobody has more: the shell waits
    with the descriptors it had. *)
Fixpoint meaning (c : cmd) (F : list (option ofile)) (name : list nat) (k : nat) : tree :=
  match c with
  | Exec [] => TExit 1
  | Exec (w :: ws) =>
      TExec w (w :: ws) F (TWrite (fd_file F 2) (str "exec " ++ w ++ str " failed" ++ [newline]) (TExit 0))
  | Redir c r f =>
      if can_open E name k f (redir_mode r)
      then meaning c (seti (redir_fd r) (Some (OFile f (redir_mode r))) F) name k
      else TWrite (fd_file F 2) (str "open " ++ f ++ str " failed" ++ [newline]) (TExit 1)
  | Pipe c d =>
      if can_pipe E name k then
        spawn F name k (meaning c (seti 1 (Some (PipeWrite (name, k))) F) (name ++ [k]) O)
          (spawn F name (Datatypes.S k) (meaning d (seti 0 (Some (PipeRead (name, k))) F) (name ++ [Datatypes.S k]) O)
            (TAwait F (TAwait F (TExit 0))))
      else TWrite (fd_file F 2) (str "pipe" ++ [newline]) (TExit 1)
  | List c d =>
      spawn F name k (meaning c F (name ++ [k]) O) (TAwait F (meaning d F name (Datatypes.S k)))
  | Back c => spawn F name k (meaning c F (name ++ [k]) O) (TExit 0)
  end.

(** The standard descriptors are open, and two more are free. *)
Definition ready (F : list (option ofile)) : Prop :=
  exists a b t T i j, F = Some a :: Some b :: t :: T /\ t <> None /\ lowest T = Some i /\
    forall f, lowest (<[i := Some f]> T) = Some j.

Lemma lowest_lookup T i : lowest T = Some i -> T !! i = Some None.
Proof.
  revert i. induction T as [|[f|] T IH]; intros i; simpl; [done| |].
  - destruct (lowest T) as [k|]; [|done]. intros [= <-]. simpl. by apply IH.
  - by intros [= <-].
Qed.

Lemma ready_set F fd f : ready F -> fd = 0 \/ fd = 1 -> ready (seti fd (Some f) F).
Proof.
  intros (a & b & t & T & i & j & -> & Ht & Hi & Hj) [-> | ->]; do 6 eexists; by repeat split.
Qed.

(** After [close(fd)] of a standard descriptor the next file gets its number. *)
Lemma reopen F fd f : ready F -> fd = 0 \/ fd = 1 -> install (seti fd None F) f = (fd, seti fd (Some f) F).
Proof. intros (a & b & t & T & i & j & -> & Ht & Hi & Hj) [-> | ->]; done. Qed.

Lemma set_stderr F fd x : fd = 0 \/ fd = 1 -> fd_file (seti fd x F) 2 = fd_file F 2.
Proof. intros [-> | ->]; destruct F as [|? [|? [|? ?]]]; done. Qed.

(** A pipe takes two descriptors above the standard ones. *)
Lemma pipe_fds F f g : ready F -> exists p q F',
  install F f = (p, seti p (Some f) F) /\ install (seti p (Some f) F) g = (q, F') /\
  2 < p /\ 2 < q /\ p <> q /\ F' = seti q (Some g) (seti p (Some f) F) /\
  geti F p = Some None /\ geti F q = Some None.
Proof.
  intros (a & b & t & T & i & j & -> & Ht & Hi & Hj). pose proof (lowest_lookup _ _ Hi) as E1.
  pose proof (lowest_lookup _ _ (Hj f)) as E2.
  assert (Hne : i <> j).
  { intros ->. rewrite list_lookup_insert_eq in E2; [done|]. by eapply lookup_lt_Some. }
  rewrite list_lookup_insert_ne in E2 by done. destruct t as [t|]; [|done].
  assert (Es : forall k x (T : list (option ofile)), seti (3 + Z.of_nat k) x (Some a :: Some b :: Some t :: T) = Some a :: Some b :: Some t :: <[k := x]> T).
  { intros k x T'. unfold seti. rewrite (proj2 (Z.leb_le 0 _)) by lia. by replace (Z.to_nat (3 + Z.of_nat k)) with (3 + k)%nat by lia. }
  assert (Eg : forall k (T : list (option ofile)), geti (Some a :: Some b :: Some t :: T) (3 + Z.of_nat k) = T !! k).
  { intros k T'. unfold geti. rewrite (proj2 (Z.leb_le 0 _)) by lia. by replace (Z.to_nat (3 + Z.of_nat k)) with (3 + k)%nat by lia. }
  exists (3 + Z.of_nat i), (3 + Z.of_nat j). eexists.
  rewrite !Es, !Eg. unfold install. cbn [lowest]. rewrite Hi, Hj.
  split; [f_equal; lia|]. split; [f_equal; lia|]. do 3 (split; [lia|]). done.
Qed.

(** The child of a pipe: its end is the standard descriptor, and the others are closed. *)
Lemma pipe_child F f g p q fd h :
  ready F -> 2 < p -> 2 < q -> p <> q -> geti F p = Some None -> geti F q = Some None -> fd = 0 \/ fd = 1 ->
  let F' := seti q (Some g) (seti p (Some f) F) in
  install (seti fd None F') h = (fd, seti fd (Some h) F') /\
  seti q None (seti p None (seti fd (Some h) F')) = seti fd (Some h) F.
Proof.
  intros Hr Hp Hq Hne Ep Eq Hfd F'. split.
  - destruct Hr as (a & b & t & T & i & j & -> & Ht & _).
    assert (Es : forall k x T, 2 < k -> exists T', seti k x (Some a :: Some b :: t :: T) = Some a :: Some b :: t :: T').
    { intros k x T' Hk. unfold seti. rewrite (proj2 (Z.leb_le 0 _)) by lia.
      replace (Z.to_nat k) with (3 + (Z.to_nat k - 3))%nat by lia. by eexists. }
    unfold F'. destruct (Es p (Some f) T Hp) as [T1 ->]. destruct (Es q (Some g) T1 Hq) as [T2 ->].
    by destruct Hfd as [-> | ->].
  - pose proof (geti_Some_lt _ _ _ Ep). pose proof (geti_Some_lt _ _ _ Eq). unfold F', seti, geti in *.
    rewrite !(proj2 (Z.leb_le 0 _)) in * by lia.
    apply list_eq. intros k.
    destruct (decide (k = Z.to_nat q)) as [-> |Hkq].
    { rewrite list_lookup_insert_eq by (rewrite !length_insert; lia). rewrite list_lookup_insert_ne by lia. done. }
    rewrite list_lookup_insert_ne by lia.
    destruct (decide (k = Z.to_nat p)) as [-> |Hkp].
    { rewrite list_lookup_insert_eq by (rewrite !length_insert; lia). rewrite list_lookup_insert_ne by lia. done. }
    rewrite list_lookup_insert_ne by lia.
    destruct (decide (k = Z.to_nat fd)) as [-> |Hkf].
    { rewrite !list_lookup_insert_eq by (rewrite ?length_insert; lia). done. }
    by rewrite !list_lookup_insert_ne by lia.
Qed.

(** The parent of a pipe has what it had when it has closed both ends. *)
Lemma pipe_parent (F : list (option ofile)) (f g : ofile) p q :
  2 < p -> 2 < q -> p <> q -> geti F p = Some None -> geti F q = Some None ->
  seti q None (seti p None (seti q (Some g) (seti p (Some f) F))) = F.
Proof.
  intros Hp Hq Hne Ep Eq. pose proof (geti_Some_lt _ _ _ Ep). pose proof (geti_Some_lt _ _ _ Eq). unfold seti, geti in *.
  rewrite !(proj2 (Z.leb_le 0 _)) in * by lia. apply list_eq. intros k.
  destruct (decide (k = Z.to_nat q)) as [-> |Hkq].
  { by rewrite list_lookup_insert_eq by (rewrite !length_insert; lia). }
  rewrite list_lookup_insert_ne by lia. destruct (decide (k = Z.to_nat p)) as [-> |Hkp].
  { by rewrite list_lookup_insert_eq by (rewrite !length_insert; lia). }
  by rewrite !list_lookup_insert_ne by lia.
Qed.
End Meaning.

Section Runs.
Context (E : world).

Lemma handle_panic {A} s p : handle E (spanic s : sys A) p = TWrite (fd_file (p_files p) 2) (s ++ [newline]) (TExit 1).
Proof. by destruct p. Qed.

(** fork1() is [spawn], the child with no input. *)
Lemma handle_fork1 {A} (k : Z -> sys A) F name kids input :
  handle E (fork1 k) (Process F name kids input)
  = spawn E F name kids (handle E (k 0) (Process F (name ++ [kids]) O []))
      (handle E (k (Z.of_nat kids + 1)) (Process F name (Datatypes.S kids) input)).
Proof.
  unfold fork1, spawn. cbn [handle]. destruct (can_fork E name kids); [|done].
  change (0 =? -1) with false. by rewrite (proj2 (Z.eqb_neq _ _)) by lia.
Qed.

Lemma kid_pid (kids : nat) : (Z.of_nat kids + 1 =? 0) = false.
Proof. apply Z.eqb_neq. lia. Qed.

Lemma install_pos F f p F' : install F f = (p, F') -> 2 < p -> (p <? 0) = false.
Proof. intros _ Hp. by apply Z.ltb_ge; lia. Qed.

Lemma fd_file_set F fd x : 0 <= fd < Z.of_nat (length F) -> fd_file (seti fd x F) fd = x.
Proof. intros H. unfold fd_file. by rewrite geti_seti_eq. Qed.

(** A child of a pipe, up to the command that it runs. *)
Lemma handle_pipe_child {A} (m : sys A) fd r F p q f g name kids :
  ready F -> 2 < p -> 2 < q -> p <> q -> geti F p = Some None -> geti F q = Some None ->
  (fd = 1 /\ r = q \/ fd = 0 /\ r = p) ->
  let F' := seti q (Some g) (seti p (Some f) F) in
  handle E (SClose fd (SDup r (fun _ => SClose p (SClose q m)))) (Process F' name kids [])
  = handle E m (Process (seti fd (Some (if fd =? 1 then g else f)) F) name kids []).
Proof.
  intros Hr Hp Hq Hne Ep Eq Hfd F'. cbn [handle].
  assert (Efd : fd = 0 \/ fd = 1) by lia.
  pose proof (geti_Some_lt _ _ _ Ep) as Lp. pose proof (geti_Some_lt _ _ _ Eq) as Lq.
  assert (Ef : fd_file (seti fd None F') r = Some (if fd =? 1 then g else f)).
  { unfold fd_file, F'. rewrite geti_seti_ne by lia. destruct Hfd as [[-> ->] |[-> ->]].
    - by rewrite geti_seti_eq by (rewrite length_seti; lia).
    - rewrite geti_seti_ne by lia. by rewrite geti_seti_eq by lia. }
  rewrite Ef. destruct (pipe_child F f g p q fd (if fd =? 1 then g else f) Hr Hp Hq Hne Ep Eq Efd) as [E1 E2].
  fold F' in E1, E2. rewrite E1. by rewrite E2.
Qed.

Lemma runcmd_handle n : forall N b p c F name kids input,
  read_cmd n N b p = Some c -> ready F ->
  handle E (runcmd n N b p) (Process F name kids input) = meaning E c F name kids.
Proof.
  induction n as [|n IH]; intros N b p c F name kids input Hc HF; [done|]. cbn [read_cmd] in Hc. cbn [runcmd].
  destruct (geti N p) as [[argv eargv|c1 q e mode fd|x y|x y|x]|]; try done.
  - destruct (read_args b argv) as [[|w ws]|]; [| |done]; by injection Hc as <-.
  - destruct (redir_of mode fd) as [r|] eqn:Er; [|done]. destruct (read_cmd n N b c1) as [c'|] eqn:E1; [|done].
    injection Hc as <-. apply redir_of_inv in Er as [-> ->]. cbn [handle meaning].
    assert (Hfd : redir_fd r = 0 \/ redir_fd r = 1) by (destruct r; simpl; lia).
    destruct (can_open E name kids (cstr_at b q) (redir_mode r)).
    + rewrite (reopen F _ _ HF Hfd). replace (redir_fd r <? 0) with false by by destruct r.
      apply IH; [done|by apply ready_set].
    + change (-1 <? 0) with true. cbv iota. cbn [handle]. by rewrite set_stderr.
  - destruct (read_cmd n N b x) as [c1|] eqn:E1; [|done]. destruct (read_cmd n N b y) as [c2|] eqn:E2; [|done].
    injection Hc as <-. cbn [handle meaning]. destruct (can_pipe E name kids); [|by rewrite handle_panic].
    destruct (pipe_fds F (PipeRead (name, kids)) (PipeWrite (name, kids)) HF) as (p0 & p1 & F' & I1 & I2 & H0 & H1 & Hne & EF & G0 & G1).
    rewrite I1, I2. replace (_ || _) with false by (symmetry; apply orb_false_iff; lia).
    rewrite handle_fork1. change (0 =? 0) with true. rewrite kid_pid. cbv iota. rewrite handle_fork1.
    change (0 =? 0) with true. rewrite kid_pid. cbv iota.
    assert (Hsp : forall kk ch nx, spawn E F' name kk ch nx = spawn E F name kk ch nx).
    { intros kk ch nx. unfold spawn. destruct (can_fork E name kk); [done|]. f_equal. subst F'. unfold fd_file.
      by rewrite !geti_seti_ne by lia. }
    rewrite !Hsp, EF.
    rewrite (handle_pipe_child _ 1 p1 F p0 p1) by (done || lia).
    rewrite (handle_pipe_child _ 0 p0 F p0 p1) by (done || lia).
    change (1 =? 1) with true. change (0 =? 1) with false. cbv iota.
    rewrite (IH _ _ _ c1), (IH _ _ _ c2) by (done || (apply ready_set; [done|lia])).
    cbn [handle]. by rewrite pipe_parent.
  - destruct (read_cmd n N b x) as [c1|] eqn:E1; [|done]. destruct (read_cmd n N b y) as [c2|] eqn:E2; [|done].
    injection Hc as <-. cbn [meaning]. rewrite handle_fork1. change (0 =? 0) with true. rewrite kid_pid. cbv iota.
    rewrite (IH _ _ _ c1) by done. cbn [handle]. by rewrite (IH _ _ _ c2).
  - destruct (read_cmd n N b x) as [c1|] eqn:E1; [|done]. injection Hc as <-. cbn [meaning].
    rewrite handle_fork1. change (0 =? 0) with true. rewrite kid_pid. cbv iota. by rewrite (IH _ _ _ c1).
Qed.
End Runs.

(** ** gets() *)

Lemma handle_assoc E {A B C} (m : sys A) (f : A -> sys B) (g : B -> sys C) p :
  handle E (sbind (sbind m f) g) p = handle E (sbind m (fun x => sbind (f x) g)) p.
Proof.
  revert p. induction m as [a|n|path argv k IH|k IH|k IH|k IH|fd k IH|fd k IH|path mode k IH|fd bs k IH|n k IH|path k IH|];
    intros [F name kids input]; cbn [sbind handle]; try done; try by rewrite IH.
  - destruct (can_fork E name kids); [f_equal; apply IH|apply IH].
  - destruct (can_pipe E name kids); [|apply IH]. destruct (install F _) as [p0 F1]. destruct (install F1 _) as [p1 F2].
    destruct (_ || _); apply IH.
  - destruct (fd_file F fd) as [f0|]; [|apply IH]. destruct (install F f0). apply IH.
  - destruct (can_open E name kids path mode); [|apply IH]. destruct (install F _). apply IH.
Qed.

Lemma seti_snoc {A} (a b : list A) (x y : A) : seti (Z.of_nat (length a)) y (a ++ x :: b) = a ++ y :: b.
Proof. apply seti_new. Qed.

(** A line that the buffer has room for. *)
Lemma handle_gets E {A} (f : list Z -> sys A) F name kids rest x : forall n pre m,
  10 ∉ x -> 13 ∉ x -> (length x < n)%nat -> (length x + 1 < m)%nat ->
  handle E (sbind (gets_from n (Z.of_nat (length pre + m)) (Z.of_nat (length pre)) (pre ++ replicate m 0)) f)
    (Process F name kids (x ++ 10 :: rest))
  = handle E (f (pre ++ x ++ 10 :: replicate (m - length x - 1) 0)) (Process F name kids rest).
Proof.
  induction x as [|c x IH]; intros n pre m H10 H13 Hn Hm; (destruct n as [|n]; [simpl in Hn; lia|]); cbn [gets_from];
    rewrite (proj2 (Z.ltb_lt _ _)) by (simpl in Hm; lia); cbn [sbind handle].
  - cbn [app]. change (Z.to_nat 1) with 1%nat. cbn [take drop]. change ((10 =? 10) || (10 =? 13)) with true. cbv iota.
    cbn [sbind]. destruct m as [|[|m]]; [simpl in Hm; lia..|]. cbn [replicate]. rewrite seti_snoc.
    replace (Z.of_nat (length pre) + 1) with (Z.of_nat (length (pre ++ [10]))) by (rewrite length_app; simpl; lia).
    replace (pre ++ 10 :: 0 :: replicate m 0) with ((pre ++ [10]) ++ 0 :: replicate m 0) by (by rewrite <- app_assoc).
    rewrite seti_snoc, <- app_assoc. simpl. done.
  - cbn [app]. change (Z.to_nat 1) with 1%nat. cbn [take drop]. apply not_elem_of_cons in H10 as [Hc10 H10].
    apply not_elem_of_cons in H13 as [Hc13 H13]. rewrite (proj2 (Z.eqb_neq c 10)), (proj2 (Z.eqb_neq c 13)) by congruence.
    cbn [orb]. cbv iota. destruct m as [|m]; [simpl in Hm; lia|]. cbn [replicate]. rewrite seti_snoc.
    pose proof (IH n (pre ++ [c]) m H10 H13 ltac:(simpl in Hn; lia) ltac:(simpl in Hm; lia)) as E1.
    rewrite length_app in E1. simpl length in E1. rewrite <- !app_assoc in E1. simpl app in E1.
    replace (Z.of_nat (length pre) + 1) with (Z.of_nat (length pre + 1)) by lia.
    replace (length pre + S m)%nat with (length pre + 1 + m)%nat by lia. exact E1.
Qed.

(** ** Sessions *)

Inductive entry :=
| Cd (path : list Z)
| Line (c : cmd) (text : list Z).

(** [text] spells the command [c]. *)
Definition spells (c : cmd) (text : list Z) : Prop :=
  exists b K, text = b ++ spell K /\ is_blank b /\ spelled K /\ K.*1 = toks 0 c.

Definition typed (e : entry) : list Z :=
  match e with Cd path => str "cd " ++ path | Line _ text => text end.

Definition entry_ok (e : entry) : Prop :=
  (10 ∉ typed e) /\ (13 ∉ typed e) /\ (length (typed e) <= 97)%nat /\
  match e with
  | Cd path => 0 ∉ path
  | Line c text => valid_cmd c /\ spells c text /\ is_cd (text ++ [10]) = false
  end.

(** What the shell does. *)
Fixpoint session (E : world) (es : list entry) (F : list (option ofile)) (name : list nat) (k : nat) : tree :=
  TWrite (fd_file F 2) (str "$ ")
    match es with
    | [] => TExit 0
    | Cd path :: es =>
        TChdir path
          (if can_chdir E path then session E es F name k
           else TWrite (fd_file F 2) (str "cannot cd " ++ path ++ [newline]) (session E es F name k))
    | Line c _ :: es => spawn E F name k (meaning E c F (name ++ [k]) O) (TAwait F (session E es F name (Datatypes.S k)))
    end.

Lemma newline_blank : is_blank [10].
Proof. by repeat constructor. Qed.

(** The newline is a blank behind the line. *)
Lemma spells_newline c text : spells c text -> spells c (text ++ [10]).
Proof.
  intros (b & K & -> & Hb & HK & EK). destruct K as [|[t b0] K] using rev_ind.
  - exists (b ++ [10]), []. split; [by unfold spell; rewrite !app_nil_r|]. split; [|done].
    apply Forall_app. split; [done|apply newline_blank].
  - clear IHK. exists b, (K ++ [(t, b0 ++ [10])]). split; [|split; [done|split]].
    + rewrite !spell_app, !spell_cons. change (spell []) with (@nil Z). by rewrite !app_nil_r, <- !app_assoc.
    + clear EK. induction K as [|[t1 b1] K IH]; simpl in *.
      * destruct HK as (Ht & Hb0 & _). split; [done|]. split; [|done]. apply Forall_app. split; [done|apply newline_blank].
      * destruct HK as (Ht & Hb1 & HK & Hs). split; [done|]. split; [done|]. split; [by apply IH|]. by destruct K as [|[] K].
    + by rewrite !fmap_app in *.
Qed.

Section Main.
Context (E : world).

Lemma run_line_meaning c text rest F name kids input :
  valid_cmd c -> spells c text -> ready F ->
  handle E (run_line (text ++ 0 :: rest)) (Process F name kids input) = meaning E c F name kids.
Proof.
  intros Hv (b & K & -> & Hb & HK & EK) HF. unfold run_line.
  destruct (parse_ok c b K rest 0 [] Hv Hb HK EK) as (p & s' & E1 & E2). rewrite <- app_assoc, E1.
  by apply runcmd_handle.
Qed.

(** The buffer when a line has been read. *)
Definition line_buf (x : list Z) : list Z := x ++ 10 :: replicate (99 - length x) 0.

Lemma handle_getcmd {A} (f : list Z * bool -> sys A) F name kids x rest :
  10 ∉ x -> 13 ∉ x -> (length x <= 97)%nat -> 0 ∉ x ->
  handle E (sbind getcmd f) (Process F name kids (x ++ 10 :: rest))
  = TWrite (fd_file F 2) (str "$ ") (handle E (f (line_buf x, true)) (Process F name kids rest)).
Proof.
  intros H10 H13 Hlen H0. unfold getcmd. cbn [sbind handle]. f_equal. rewrite handle_assoc.
  pose proof (handle_gets E (fun b => sbind (SRet (b, match b with c :: _ => negb (c =? 0) | [] => false end)) f)
    F name kids rest x 100 [] 100 H10 H13 ltac:(lia) ltac:(lia)) as E1.
  change (Z.of_nat (length (@nil Z) + 100)) with nbuf in E1. change (Z.of_nat (length (@nil Z))) with 0 in E1.
  cbn [app] in E1. refine (eq_trans E1 _). cbn [sbind]. replace (100 - length x - 1)%nat with (99 - length x)%nat by lia.
  fold (line_buf x). do 3 f_equal. destruct x as [|c x]; [done|]. simpl.
  apply not_elem_of_cons in H0 as [H0 _]. apply negb_true_iff, Z.eqb_neq. congruence.
Qed.

Lemma handle_eof {A} (f : list Z * bool -> sys A) F name kids :
  handle E (sbind getcmd f) (Process F name kids [])
  = TWrite (fd_file F 2) (str "$ ") (handle E (f (replicate 100 0, false)) (Process F name kids [])).
Proof. done. Qed.

(** [cd]: the newline is cut off, and the rest is the path. *)
Lemma handle_cd path k F name kids rest :
  0 ∉ path -> (length path <= 94)%nat ->
  handle E (cd (line_buf (str "cd " ++ path)) k) (Process F name kids rest)
  = TChdir path (if can_chdir E path then handle E k (Process F name kids rest)
      else TWrite (fd_file F 2) (str "cannot cd " ++ path ++ [newline]) (handle E k (Process F name kids rest))).
Proof.
  intros H0 Hlen. set (x := str "cd " ++ path).
  assert (Hx : (length x = 3 + length path)%nat) by done.
  assert (E1 : Ulib.strlen (line_buf x) = Some (Z.of_nat (length x + 1))).
  { unfold line_buf. destruct (99 - length x)%nat as [|m] eqn:Em; [lia|]. cbn [replicate].
    replace (x ++ 10 :: 0 :: replicate m 0) with ((x ++ [10]) ++ 0 :: replicate m 0) by by rewrite <- app_assoc.
    rewrite strlen_cstr by set_solver. rewrite cstr_until, length_app; [done|].
    unfold x. rewrite !not_elem_of_app. split; [split; [|done]|]; by apply (bool_decide_unpack _). }
  unfold cd. rewrite E1. replace (Z.of_nat (length x + 1) - 1) with (Z.of_nat (length x)) by lia.
  unfold line_buf. rewrite seti_snoc.
  assert (E2 : cstr_at (x ++ 0 :: replicate (99 - length x) 0) 3 = path).
  { transitivity (cstr (path ++ 0 :: replicate (99 - length x) 0)); [done|by apply cstr_until]. }
  cbv zeta. rewrite E2. cbn [handle]. by destruct (can_chdir E path).
Qed.

Lemma typed_nonzero e : entry_ok e -> 0 ∉ typed e.
Proof.
  intros (_ & _ & _ & He). destruct e as [path|c text].
  - apply not_elem_of_app. split; [by apply (bool_decide_unpack _)|exact He].
  - destruct He as (_ & (b & K & -> & Hb & HK & _) & _). apply not_elem_of_app.
    split; [by apply blank_nonzero|by apply spelled_nonzero].
Qed.

Lemma main_loop_session es : forall n F name kids,
  Forall entry_ok es -> ready F -> (length es < n)%nat ->
  handle E (main_loop n) (Process F name kids (es ≫= fun e => typed e ++ [10])) = session E es F name kids.
Proof.
  induction es as [|e es IH]; intros n F name kids Hes HF Hn; (destruct n as [|n]; [simpl in Hn; lia|]); cbn [main_loop].
  - by rewrite (handle_eof _ F name kids).
  - apply Forall_cons in Hes as [He Hes]. pose proof (typed_nonzero e He) as H0.
    change ((e :: es) ≫= fun e => typed e ++ [10]) with ((typed e ++ [10]) ++ (es ≫= fun e => typed e ++ [10])).
    rewrite <- app_assoc. cbn [app]. destruct He as (H10 & H13 & Hlen & He).
    rewrite handle_getcmd by done. cbv beta iota.
    assert (Hcd : is_cd (line_buf (typed e)) = match e with Cd _ => true | _ => false end).
    { destruct e as [path|c text]; [done|]. destruct He as (_ & _ & He). simpl typed in *. unfold line_buf.
      destruct text as [|x1 [|x2 [|x3 text]]]; simpl in *; by rewrite ?andb_false_r. }
    rewrite Hcd. destruct e as [path|c text]; cbn [session]; f_equal.
    + rewrite (handle_cd path _ F name kids _ He) by (simpl in Hlen; lia). by rewrite !IH by (done || simpl in Hn; lia).
    + destruct He as (Hv & Hs & _). rewrite handle_fork1. change (0 =? 0) with true. rewrite kid_pid. cbv iota.
      simpl typed. unfold line_buf. destruct (99 - length text)%nat as [|m] eqn:Em; [simpl in Hlen; lia|]. cbn [replicate].
      replace (text ++ 10 :: 0 :: replicate m 0) with ((text ++ [10]) ++ 0 :: replicate m 0) by by rewrite <- app_assoc.
      rewrite (run_line_meaning c (text ++ [10])) by (done || by apply spells_newline).
      cbn [handle]. by rewrite IH by (done || simpl in Hn; lia).
Qed.

(** With the standard descriptors open, main()'s first loop changes nothing. *)
Lemma handle_console m F name kids input :
  ready F -> handle E (open_console 4 m) (Process F name kids input) = handle E m (Process F name kids input).
Proof.
  intros (a & b & t & T & i & j & -> & Ht & Hi & Hj). cbn [open_console handle].
  destruct (can_open E name kids (str "console") O_RDWR); [|done].
  destruct t as [t|]; [|done]. unfold install. cbn [lowest]. rewrite Hi.
  rewrite (proj2 (Z.leb_le 0 _)), (proj2 (Z.leb_le 3 _)) by lia. cbn [handle]. do 2 f_equal.
  unfold seti. rewrite (proj2 (Z.leb_le 0 _)) by lia. rewrite Nat2Z.id. simpl. do 3 f_equal.
  rewrite list_insert_insert_eq. apply list_insert_id. by apply lowest_lookup.
Qed.

End Main.

(** C13: a session with the shell.  For every line typed (a spelling of a command, of
    at most 97 characters, or a [cd]) the shell prompts, and runs the command in a
    child that it waits for: what the processes of the child do is the meaning of
    the command, with the descriptors that the redirections and pipes say; no program
    that is run, and no shell that waits, holds another end of a pipe; at the end of the
    input the shell exits. *)
Theorem shell_session E es n F name :
  Forall entry_ok es -> ready F -> (length es < n)%nat ->
  handle E (main n) (Process F name O (es ≫= fun e => typed e ++ [10])) = session E es F name O.
Proof. intros Hes HF Hn. unfold main. rewrite handle_console by done. by apply main_loop_session. Qed.

Definition all_well : world := World (fun _ _ => true) (fun _ _ => true) (fun _ _ _ _ => true) (fun _ => true).

Definition console_files : list (option ofile) := replicate 3 (Some (Inherited 0)) ++ replicate 13 None.

(** [ cat x|(wc ;ls ) >> out & ], then [cd /d]. *)
Definition demo_session : list entry := [Line sample (spell (print sample)); Cd (str "/d")].

Lemma shell_session_witness :
  handle all_well (main 3) (Process console_files [] O (demo_session ≫= fun e => typed e ++ [10]))
  = session all_well demo_session console_files [] O.
Proof.
  apply shell_session.
  - constructor; [|constructor; [|constructor]]; (split; [by apply (bool_decide_unpack _)|]);
      (split; [by apply (bool_decide_unpack _)|]); (split; [vm_compute; lia|]).
    + split; [vm_compute; repeat split; try (repeat constructor; discriminate); try lia; discriminate|]. split; [|done].
      exists [], (print sample). split; [done|]. split; [constructor|]. split; [|apply print_toks].
      vm_compute. repeat split; try (repeat constructor; discriminate); try (apply (bool_decide_unpack _); exact I); discriminate.
    + by apply (bool_decide_unpack _).
  - exists (Inherited 0), (Inherited 0), (Some (Inherited 0)), (replicate 13 None), 0%nat, 1%nat. by repeat split.
  - simpl. lia.
Defined.
