(* ===== verification/Umalloc.v ===== *)
(** The user-level allocator (user/umalloc.c), by Kernighan and Ritchie: a
    circular list of free blocks in address order, starting at [base].

    A [Header *] is a byte address; [hdrs] is the memory as the allocator reads
    and writes it, one header per address, and [base] is the address of the
    variable of that name, which the linker fixes.  [brk] is the end of the
    program's memory and sbrk() is what the kernel does: it fails when it cannot
    grow to [limit], and shrinking below 0 leaves the size as it was
    (uvmdealloc). *)

From stdpp Require Import functions.
From S2P Require Import Prelude.

Record header := Header { h_ptr : Z; h_size : Z }.

Record arena := Arena {
  hdrs : Z -> header;
  freep : Z;
  brk : Z;
  limit : Z;
}.

(** sizeof(Header). *)
Definition HSIZE : Z := 16.

Class Base := base : Z.

Section Umalloc.
Context `{Base} (steps : nat).

Definition hdr (p : Z) : M arena header := gets (fun a => hdrs a p).
Definition set_ptr (p q : Z) : M arena unit :=
  modify (fun a => a {{ hdrs ::= <[p := Header q (h_size (hdrs a p))]> }}).
Definition set_size (p n : Z) : M arena unit :=
  modify (fun a => a {{ hdrs ::= <[p := Header (h_ptr (hdrs a p)) (u32 n)]> }}).
Definition set_freep (p : Z) : M arena unit := modify (fun a => a {{ freep := p }}).

(** [p + n] on header pointers. *)
Definition hplus (p n : Z) : Z := p + HSIZE * n.

(** sbrk(int n): the old break, or -1. *)
Definition sbrk (n : Z) : M arena Z := fun a =>
  let n := i32 n in
  if n >=? 0 then
    if brk a + n <=? limit a then Done (brk a) (a {{ brk := brk a + n }}) else Done (-1) a
  else if u64 (brk a + n) >=? brk a then Done (brk a) a
  else Done (brk a) (a {{ brk := brk a + n }}).

(** The search of free() for the place of [bp]; [steps] bounds the circular
    list. *)
Definition find_place (bp : Z) : M arena Z :=
  p <- gets freep;;
  loop steps (fun p =>
    h <- hdr p;;
    if (bp >? p) && (bp <? h_ptr h) then break p
    else if (p >=? h_ptr h) && ((bp >? p) || (bp <? h_ptr h)) then break p
    else continue (h_ptr h)) p.

(** Put [bp] behind [p], joined with the block behind it if they touch. *)
Definition join_next (p bp : Z) : M arena unit :=
  hb <- hdr bp;;
  hp <- hdr p;;
  if hplus bp (h_size hb) =? h_ptr hp then
    hn <- hdr (h_ptr hp);;
    set_size bp (h_size hb + h_size hn);;;
    hp <- hdr p;;
    hn <- hdr (h_ptr hp);;
    set_ptr bp (h_ptr hn)
  else set_ptr bp (h_ptr hp).

(** Let [p] point at [bp], or join them if they touch. *)
Definition join_prev (p bp : Z) : M arena unit :=
  hp <- hdr p;;
  hb <- hdr bp;;
  if hplus p (h_size hp) =? bp then
    set_size p (h_size hp + h_size hb);;;
    hb <- hdr bp;;
    set_ptr p (h_ptr hb)
  else set_ptr p bp.

Definition free (ap : Z) : M arena unit :=
  let bp := hplus ap (-1) in
  p <- find_place bp;;
  join_next p bp;;;
  join_prev p bp;;;
  set_freep p.

Definition morecore (nu : Z) : M arena Z :=
  let nu := if nu <? 4096 then 4096 else nu in
  p <- sbrk (nu * HSIZE);;
  if p =? -1 then ret 0
  else
    set_size p nu;;;
    free (hplus p 1);;;
    gets freep.

(** Take [nunits] from the free block [p], which is behind [prevp]: the whole
    block, or its tail. *)
Definition carve (nunits prevp p : Z) : M arena Z :=
  h <- hdr p;;
  if h_size h =? nunits then
    set_ptr prevp (h_ptr h);;; ret p
  else
    set_size p (h_size h - nunits);;;
    h <- hdr p;;
    let p := hplus p (h_size h) in
    set_size p nunits;;;
    ret p.

(** One turn of the loop of malloc(). *)
Definition malloc_step (nunits : Z) (pp : Z * Z) : M arena (Z * Z + Z) :=
  let (prevp, p) := pp in
  h <- hdr p;;
  if h_size h >=? nunits then
    p <- carve nunits prevp p;;
    set_freep prevp;;;
    break (hplus p 1)
  else
    f <- gets freep;;
    if p =? f then
      p <- morecore nunits;;
      if p =? 0 then break 0
      else h <- hdr p;; continue (p, h_ptr h)
    else continue (p, h_ptr h).

Definition malloc (nbytes : Z) : M arena Z :=
  let nunits := u32 ((nbytes + HSIZE - 1) / HSIZE + 1) in
  f <- gets freep;;
  prevp <- (if f =? 0 then
              set_ptr base base;;;
              set_freep base;;;
              set_size base 0;;;
              ret base
            else ret f);;
  h <- hdr prevp;;
  loop (steps + steps) (malloc_step nunits) (prevp, h_ptr h).

End Umalloc.
