(* ===== verification/UmallocFacts.v ===== *)
(** The heap of the user-level allocator as a row of tiles, free or allocated,
    that covers it without gaps; the free tiles are the circular list of the
    code, in address order, and no two of them are adjacent. *)

From Stdlib Require Import Sorting.Sorted.
From stdpp Require Import functions.
From S2P Require Import Prelude Locks Kalloc Vm Proc ProcFacts Kernel KernelFacts Umalloc.

(** ** Tiles *)

(** Whether it is free, and its size in units of [HSIZE] bytes, header included. *)
Definition tile : Type := bool * Z.

Fixpoint tot (L : list tile) : Z :=
  match L with [] => 0 | (_, s) :: r => s + tot r end.

(** The addresses of the free tiles, from unit [u] on. *)
Fixpoint frees (u : Z) (L : list tile) : list Z :=
  match L with
  | [] => []
  | (f, s) :: r => (if f : bool then [HSIZE * u] else []) ++ frees (u + s) r
  end.

(** The allocated blocks: what malloc() returned, and the size of the tile. *)
Fixpoint blocks (u : Z) (L : list tile) : list (Z * Z) :=
  match L with
  | [] => []
  | (f, s) :: r => (if f : bool then [] else [(HSIZE * (u + 1), s)]) ++ blocks (u + s) r
  end.

(** Every tile starts with a header that has its size. *)
Fixpoint sized (hd : Z -> header) (u : Z) (L : list tile) : Prop :=
  match L with
  | [] => True
  | (_, s) :: r => 1 <= s /\ h_size (hd (HSIZE * u)) = s /\ sized hd (u + s) r
  end.

(** No two free tiles are adjacent; [f] is the tile before. *)
Fixpoint coalesced (f : bool) (L : list tile) : Prop :=
  match L with
  | [] => True
  | (g, _) :: r => ~ (f = true /\ g = true) /\ coalesced g r
  end.

Lemma tot_app L1 L2 : tot (L1 ++ L2) = tot L1 + tot L2.
Proof. induction L1 as [|[f s] L1 IH]; simpl; [done|]. rewrite IH. lia. Qed.

Lemma frees_app u L1 L2 : frees u (L1 ++ L2) = frees u L1 ++ frees (u + tot L1) L2.
Proof.
  revert u. induction L1 as [|[f s] L1 IH]; intros u; simpl; [by rewrite Z.add_0_r|].
  rewrite IH, <- app_assoc. do 3 f_equal. lia.
Qed.

Lemma blocks_app u L1 L2 : blocks u (L1 ++ L2) = blocks u L1 ++ blocks (u + tot L1) L2.
Proof.
  revert u. induction L1 as [|[f s] L1 IH]; intros u; simpl; [by rewrite Z.add_0_r|].
  rewrite IH, <- app_assoc. do 3 f_equal. lia.
Qed.

Lemma sized_app hd u L1 L2 : sized hd u (L1 ++ L2) <-> sized hd u L1 /\ sized hd (u + tot L1) L2.
Proof.
  revert u. induction L1 as [|[f s] L1 IH]; intros u; simpl; [rewrite Z.add_0_r; tauto|].
  rewrite IH. replace (u + s + tot L1) with (u + (s + tot L1)) by lia. tauto.
Qed.

Lemma sized_tot hd u L : sized hd u L -> 0 <= tot L.
Proof. revert u. induction L as [|[f s] L IH]; intros u; simpl; [lia|]. intros (? & _ & ?%IH). lia. Qed.

(** Only the headers in the row matter. *)
Lemma sized_ext hd hd' u L :
  (forall p, HSIZE * u <= p < HSIZE * (u + tot L) -> h_size (hd' p) = h_size (hd p)) ->
  sized hd u L -> sized hd' u L.
Proof.
  revert u. induction L as [|[f s] L IH]; intros u He; simpl in *; [done|]. intros (Hs & Hh & Hr).
  pose proof (sized_tot _ _ _ Hr) as Ht. unfold HSIZE in *. split_and!; [done|rewrite He; [done|lia]|].
  apply IH; [|done]. intros p Hp. apply He. lia.
Qed.

Lemma frees_range hd u L p : sized hd u L -> p ∈ frees u L -> HSIZE * u <= p < HSIZE * (u + tot L).
Proof.
  revert u. induction L as [|[f s] L IH]; intros u; simpl; [by intros _ Hp%elem_of_nil|].
  intros (Hs & _ & Hr) Hp. pose proof (sized_tot _ _ _ Hr) as Ht. unfold HSIZE in *.
  apply elem_of_app in Hp as [Hp|Hp].
  - destruct f; [apply list_elem_of_singleton in Hp; lia|by apply elem_of_nil in Hp].
  - apply (IH _ Hr) in Hp. lia.
Qed.

Lemma blocks_range hd u L p n :
  sized hd u L -> (p, n) ∈ blocks u L -> HSIZE * u <= p - HSIZE /\ p - HSIZE + HSIZE * n <= HSIZE * (u + tot L) /\ 1 <= n.
Proof.
  revert u. induction L as [|[f s] L IH]; intros u; simpl; [by intros _ Hp%elem_of_nil|].
  intros (Hs & _ & Hr) Hp. pose proof (sized_tot _ _ _ Hr) as Ht. unfold HSIZE in *.
  apply elem_of_app in Hp as [Hp|Hp].
  - destruct f; [by apply elem_of_nil in Hp|]. apply list_elem_of_singleton in Hp as [= -> ->]. lia.
  - apply (IH _ Hr) in Hp. lia.
Qed.

(** A block is an allocated tile. *)
Lemma blocks_split u L l1 p n l2 :
  blocks u L = l1 ++ (p, n) :: l2 ->
  exists L1 L2, L = L1 ++ (false, n) :: L2 /\ p = HSIZE * (u + tot L1 + 1) /\
    blocks u L1 = l1 /\ blocks (u + tot L1 + n) L2 = l2.
Proof.
  revert u l1. induction L as [|[f s] L IH]; intros u l1 Hb; simpl in *; [by destruct l1|].
  destruct f; cbn [app] in Hb.
  - destruct (IH _ _ Hb) as (L1 & L2 & -> & -> & H1 & H2). exists ((true, s) :: L1), L2. simpl.
    split_and!; [done|f_equal; lia|done|by rewrite <- H2; f_equal; lia].
  - destruct l1 as [|b l1]; cbn [app] in Hb.
    + injection Hb as <- <- Hr. exists [], L. simpl. rewrite !Z.add_0_r. done.
    + injection Hb as <- Hr. destruct (IH _ _ Hr) as (L1 & L2 & -> & -> & H1 & H2).
      exists ((false, s) :: L1), L2. simpl.
      split_and!; [done|f_equal; lia|by rewrite H1|by rewrite <- H2; f_equal; lia].
Qed.

(** Two different blocks do not overlap. *)
Lemma blocks_apart hd u L1 s L2 p n :
  sized hd u (L1 ++ (false, s) :: L2) -> (p, n) ∈ blocks u L1 ++ blocks (u + tot L1 + s) L2 ->
  p - HSIZE + HSIZE * n <= HSIZE * (u + tot L1) \/ HSIZE * (u + tot L1 + s) <= p - HSIZE.
Proof.
  intros (H1 & _ & _ & H2)%sized_app Hp. apply elem_of_app in Hp as [Hp|Hp].
  - left. by apply (blocks_range _ _ _ _ _ H1) in Hp as (_ & ? & _).
  - right. by apply (blocks_range _ _ _ _ _ H2) in Hp as (? & _ & _).
Qed.

(** ** The circular list *)

(** Following [h_ptr] from [p] gives the headers [l] and then [e]. *)
Fixpoint chain (hd : Z -> header) (p : Z) (l : list Z) (e : Z) : Prop :=
  match l with
  | [] => h_ptr (hd p) = e
  | q :: r => h_ptr (hd p) = q /\ chain hd q r e
  end.

Lemma chain_app hd p l1 q l2 e : chain hd p (l1 ++ q :: l2) e <-> chain hd p l1 q /\ chain hd q l2 e.
Proof. revert p. induction l1 as [|x l1 IH]; intros p; simpl; [done|]. rewrite IH. tauto. Qed.

Lemma chain_ext hd hd' p l e :
  (forall x, x ∈ p :: l -> h_ptr (hd' x) = h_ptr (hd x)) -> chain hd p l e -> chain hd' p l e.
Proof.
  revert p. induction l as [|q l IH]; intros p He; simpl.
  - intros <-. apply He. by left.
  - intros [<- Hc]. split; [apply He; by left|]. apply IH; [|done]. intros x Hx. apply He. by right.
Qed.

Definition ascending (l : list Z) : Prop := StronglySorted Z.lt l.

Lemma frees_ascending hd u L : sized hd u L -> ascending (frees u L).
Proof.
  revert u. induction L as [|[f s] L IH]; intros u; simpl; [constructor|].
  intros (Hs & _ & Hr). pose proof (IH _ Hr) as Ha. destruct f; [|done]. cbn [app].
  constructor; [done|]. apply Forall_forall. intros p Hp.
  apply (frees_range _ _ _ _ Hr) in Hp. unfold HSIZE in *. lia.
Qed.

Lemma ascending_next l p q r : ascending (l ++ p :: q :: r) -> p < q.
Proof.
  induction l as [|x l IH]; intros Ha; simpl in Ha.
  - apply StronglySorted_inv in Ha as [_ Hf]. by apply Forall_cons in Hf as [? _].
  - apply StronglySorted_inv in Ha as [Ha _]. auto.
Qed.

(** The last header of a list, and the first, with [base] for none. *)
Section ends.
Context `{Base}.

Definition before (l : list Z) : Z := default base (last l).
Definition behind (l : list Z) : Z := default base (head l).

Lemma before_last l : exists k, base :: l = k ++ [before l].
Proof.
  unfold before. destruct (last l) as [x|] eqn:Hl; cbn [from_option id].
  - apply last_Some in Hl as [k ->]. by exists (base :: k).
  - apply last_None in Hl as ->. by exists [].
Qed.

Lemma before_in l : before l ∈ base :: l.
Proof. destruct (before_last l) as [k ->]. set_solver. Qed.
End ends.

Lemma ascending_last l p z : ascending (l ++ [p]) -> z ∈ l -> z < p.
Proof.
  induction l as [|x l IH]; intros Ha Hz; [by apply elem_of_nil in Hz|].
  cbn [app] in Ha. apply StronglySorted_inv in Ha as [Ha Hf].
  apply elem_of_cons in Hz as [->|Hz]; [|auto].
  rewrite Forall_forall in Hf. apply Hf. set_solver.
Qed.

Section search.
Context `{Base} (a : arena) (n1 n2 : list Z) (bp : Z).
Context (Hchain : chain (hdrs a) base (n1 ++ n2) base).
Context (H1 : forall p, p ∈ n1 -> base < p < bp) (H2 : forall p, p ∈ n2 -> bp < p) (Hb : base < bp).
Context (Hs1 : ascending n1) (Hs2 : ascending n2).

Definition place_step (p : Z) : M arena (Z + Z) :=
  bind (hdr p) (fun h =>
  if (bp >? p) && (bp <? h_ptr h) then break p
  else if (p >=? h_ptr h) && ((bp >? p) || (bp <? h_ptr h)) then break p
  else continue (h_ptr h)).

Lemma place_step_eq p q :
  h_ptr (hdrs a p) = q ->
  place_step p a = Done (if decide (p < bp < q \/ (q <= p /\ (p < bp \/ bp < q))) then inr p else inl q) a.
Proof.
  intros Hq. unfold place_step, bind, hdr, gets. cbn [bindp]. rewrite Hq.
  rewrite !Z.gtb_ltb, Z.geb_leb.
  destruct (Z.ltb_spec p bp), (Z.ltb_spec bp q), (Z.leb_spec q p); cbn [andb orb];
    first [rewrite decide_True by lia; done | rewrite decide_False by lia; done].
Qed.

Lemma chain_at l p q r : base :: n1 ++ n2 = l ++ p :: q :: r -> h_ptr (hdrs a p) = q.
Proof.
  intros Heq. destruct l as [|x l]; cbn [app] in Heq.
  - injection Heq as <- Heq. rewrite Heq in Hchain. by destruct Hchain.
  - injection Heq as _ Heq. rewrite Heq in Hchain. apply chain_app in Hchain as [_ Hc]. by destruct Hc.
Qed.

Lemma chain_end l p : base :: n1 ++ n2 = l ++ [p] -> h_ptr (hdrs a p) = base.
Proof.
  intros Heq. destruct l as [|x l]; cbn [app] in Heq.
  - injection Heq as <- Heq. by rewrite Heq in Hchain.
  - injection Heq as _ Heq. rewrite Heq in Hchain. by apply chain_app in Hchain as [_ Hc].
Qed.

Lemma before_next : h_ptr (hdrs a (before n1)) = (behind n2) /\ base <= (before n1) < bp.
Proof.
  destruct (before_last n1) as [l Hl]. split.
  - unfold behind. destruct (head n2) as [q|] eqn:Hq; cbn [default].
    + apply head_Some in Hq as [r Hr]. apply (chain_at l (before n1) q r).
      by rewrite app_comm_cons, Hl, Hr, <- app_assoc.
    + apply head_None in Hq. apply (chain_end l). by rewrite Hq, app_nil_r.
  - assert ((before n1) ∈ base :: n1) as [->|Hin]%elem_of_cons by (rewrite Hl; set_solver); [lia|].
    pose proof (H1 _ Hin). lia.
Qed.

(** From a header before [bp] the search goes up to the last of them. *)
Lemma search_up r : forall l p k,
  base :: n1 = l ++ p :: r -> (length r < k)%nat -> loop k place_step p a = Done (before n1) a.
Proof.
  induction r as [|q r IH]; intros l p k Hl Hk; (destruct k as [|k]; [lia|]).
  - assert ((before n1) = p) as Hbp.
    { destruct (before_last n1) as [l' Hl']. rewrite Hl' in Hl. by apply app_inj_2 in Hl as [_ [= ?]]. }
    destruct before_next as [Hn Hr]. rewrite Hbp in *.
    apply loop_break. rewrite (place_step_eq _ _ Hn). rewrite decide_True; [done|].
    unfold behind in *. destruct (head n2) as [q|] eqn:Hq; simpl in *; [|lia].
    apply head_Some in Hq as [r' Hr']. pose proof (H2 q ltac:(rewrite Hr'; by left)). lia.
  - assert (h_ptr (hdrs a p) = q) as Hq.
    { apply (chain_at l p q (r ++ n2)). by rewrite app_comm_cons, Hl, <- app_assoc. }
    assert ((q ∈ n1) /\ base <= p < q) as (Hqn & Hpq).
    { destruct l as [|x l]; cbn [app] in Hl; injection Hl as Hx Hl.
      - assert (q ∈ n1) as Hqn by (rewrite Hl; by left). pose proof (H1 q Hqn). split; [done|lia].
      - assert (q ∈ n1) as Hqn by (rewrite Hl; set_solver). assert (p ∈ n1) as Hpn by (rewrite Hl; set_solver).
        pose proof (H1 p Hpn). pose proof Hs1 as Hs. rewrite Hl in Hs. pose proof (ascending_next l p q r Hs).
        split; [done|lia]. }
    pose proof (H1 q Hqn). rewrite (loop_continue _ _ _ _ q a).
    + apply (IH (l ++ [p]) q k); [by rewrite <- app_assoc|simpl in Hk; lia].
    + rewrite (place_step_eq _ _ Hq). rewrite decide_False by lia. done.
Qed.

(** From a header behind [bp] it goes round. *)
Lemma search_round r : forall l p k,
  n2 = l ++ p :: r -> (length r + length n1 + 1 < k)%nat -> loop k place_step p a = Done (before n1) a.
Proof.
  induction r as [|q r IH]; intros l p k Hl Hk; (destruct k as [|k]; [lia|]).
  - pose proof (H2 p ltac:(rewrite Hl; set_solver)) as Hp.
    assert (h_ptr (hdrs a p) = base) as Hq.
    { apply (chain_end (base :: n1 ++ l)). cbn [app]. by rewrite Hl, <- app_assoc. }
    rewrite (loop_continue _ _ _ _ base a).
    + apply (search_up n1 [] base k); [done|simpl in Hk; lia].
    + rewrite (place_step_eq _ _ Hq). rewrite decide_False by lia. done.
  - pose proof (H2 p ltac:(rewrite Hl; set_solver)) as Hp. pose proof Hs2 as Hs.
    rewrite Hl in Hs. pose proof (ascending_next l p q r Hs).
    assert (h_ptr (hdrs a p) = q) as Hq.
    { apply (chain_at (base :: n1 ++ l) p q r). cbn [app]. by rewrite Hl, <- app_assoc. }
    rewrite (loop_continue _ _ _ _ q a).
    + apply (IH (l ++ [p]) q k); [by rewrite Hl, <- app_assoc|simpl in Hk; lia].
    + rewrite (place_step_eq _ _ Hq). rewrite decide_False by lia. done.
Qed.

Lemma find_place_eq steps :
  freep a ∈ base :: n1 ++ n2 -> (length n1 + length n2 + 1 < steps)%nat ->
  find_place steps bp a = Done (before n1) a.
Proof.
  intros Hf Hst. unfold find_place, bind at 1. cbn [gets bindp].
  change (loop steps place_step (freep a) a = Done (before n1) a).
  rewrite app_comm_cons in Hf. apply elem_of_app in Hf as [Hf|Hf];
    apply list_elem_of_split in Hf as (l & r & Hl).
  - apply (search_up r l); [done|]. assert (length r <= length n1)%nat; [|lia].
    apply (f_equal length) in Hl. rewrite length_app in Hl. simpl in Hl. lia.
  - apply (search_round r l); [done|]. rewrite Hl, length_app in Hst. simpl in Hst. lia.
Qed.
End search.

(** ** Freeing a tile *)

(** Memory where only the header at [p] differs. *)
Definition only_at (p : Z) (hd hd' : Z -> header) : Prop := forall q, q <> p -> hd' q = hd q.

Lemma chain_start hd hd' p p' l e :
  h_ptr (hd' p') = h_ptr (hd p) -> (forall x, x ∈ l -> h_ptr (hd' x) = h_ptr (hd x)) ->
  chain hd p l e -> chain hd' p' l e.
Proof.
  intros Hp Hl. destruct l as [|q l]; simpl; rewrite Hp; [done|]. intros [<- Hc]. split; [done|].
  by apply (chain_ext hd).
Qed.

(** Another pointer in the last header. *)
Lemma chain_redirect hd hd' x e e' : forall l p k,
  p :: l = k ++ [x] -> (forall z, z ∈ k -> h_ptr (hd' z) = h_ptr (hd z)) -> h_ptr (hd' x) = e' ->
  chain hd p l e -> chain hd' p l e'.
Proof.
  induction l as [|q l IH]; intros p k Hk Hz He Hc.
  - destruct k as [|z [|]]; simpl in Hk; [|done|done]. injection Hk as ->. done.
  - destruct k as [|z k]; cbn [app] in Hk; [done|]. injection Hk as <- Hk. destruct Hc as [Hq Hc]. split.
    + rewrite Hz by by left. done.
    + apply (IH q k); [done| |done|done]. intros z Hzk. apply Hz. by right.
Qed.

Lemma set_ptr_eq p q a :
  exists hd', set_ptr p q a = Done tt (a {{ hdrs := hd' }}) /\
    only_at p (hdrs a) hd' /\ h_ptr (hd' p) = q /\ h_size (hd' p) = h_size (hdrs a p).
Proof.
  exists (<[p := Header q (h_size (hdrs a p))]> (hdrs a)). split_and!; [done|..].
  - intros z Hz. by apply fn_lookup_insert_ne.
  - by rewrite fn_lookup_insert.
  - by rewrite fn_lookup_insert.
Qed.

Lemma set_size_eq p m a :
  exists hd', set_size p m a = Done tt (a {{ hdrs := hd' }}) /\
    only_at p (hdrs a) hd' /\ h_ptr (hd' p) = h_ptr (hdrs a p) /\ h_size (hd' p) = u32 m.
Proof.
  exists (<[p := Header (h_ptr (hdrs a p)) (u32 m)]> (hdrs a)). split_and!; [done|..].
  - intros z Hz. by apply fn_lookup_insert_ne.
  - by rewrite fn_lookup_insert.
  - by rewrite fn_lookup_insert.
Qed.

(** Whether the last tile is free, [f] being the one before. *)
Fixpoint last_free (f : bool) (L : list tile) : bool :=
  match L with [] => f | (g, _) :: r => last_free g r end.

Lemma coalesced_app f L g t L' :
  coalesced f (L ++ (g, t) :: L') <->
  coalesced f L /\ ~ (last_free f L = true /\ g = true) /\ coalesced g L'.
Proof.
  revert f. induction L as [|[k m] L IH]; intros f; cbn [app coalesced last_free]; [tauto|].
  rewrite IH. tauto.
Qed.

Lemma last_free_none f u L : frees u L = [] -> L <> [] -> last_free f L = false.
Proof.
  revert f u. induction L as [|[g t] L IH]; intros f u Hf Hne; [done|]. simpl in *.
  destruct g; [done|]. destruct L as [|x L]; [done|]. by eapply IH.
Qed.

Lemma last_free_app f L g t L' : last_free f (L ++ (g, t) :: L') = last_free g L'.
Proof. revert f. induction L as [|[k m] L IH]; intros f; cbn [app last_free]; [done|]. apply IH. Qed.

(** The tile of a free header. *)
Lemma frees_split u L l1 x l2 :
  frees u L = l1 ++ x :: l2 ->
  exists A r B, L = A ++ (true, r) :: B /\ x = HSIZE * (u + tot A) /\ frees u A = l1 /\
    frees (u + tot A + r) B = l2.
Proof.
  revert u l1. induction L as [|[f t] L IH]; intros u l Hf; simpl in Hf; [by destruct l|].
  destruct f; cbn [app] in Hf.
  - destruct l as [|y l]; cbn [app] in Hf.
    + injection Hf as <- Hf. exists [], t, L. simpl. rewrite !Z.add_0_r. done.
    + injection Hf as <- Hf. destruct (IH _ _ Hf) as (A & r & B & -> & -> & <- & HB).
      exists ((true, t) :: A), r, B. simpl. split_and!; [done|f_equal; lia|done|].
      rewrite <- HB. f_equal. lia.
  - destruct (IH _ _ Hf) as (A & r & B & -> & -> & <- & HB). exists ((false, t) :: A), r, B. simpl.
    split_and!; [done|f_equal; lia|done|]. rewrite <- HB. f_equal. lia.
Qed.

Lemma frees_length u L : (length (frees u L) <= length L)%nat.
Proof.
  revert u. induction L as [|[f t] L IH]; intros u; simpl; [lia|]. rewrite length_app.
  specialize (IH (u + t)). destruct f; simpl; lia.
Qed.

Section heap.
Context `{Base} (lo : Z).

Record heap (a : arena) (L : list tile) : Prop := {
  hp_sized : sized (hdrs a) lo L;
  hp_chain : chain (hdrs a) base (frees lo L) base;
  hp_base : h_size (hdrs a base) = 0;
  hp_low : 0 < base /\ base + HSIZE <= HSIZE * lo;
  hp_brk : brk a = HSIZE * (lo + tot L);
  hp_freep : freep a ∈ base :: frees lo L;
  hp_coal : coalesced false L;
  hp_limit : brk a <= limit a < HSIZE * 2 ^ 32;
}.

(** A tile that is not free, in the middle of the row. *)
Section free.
Context (a : arena) (L1 L2 : list tile) (s : Z).
Context (Hh : heap a (L1 ++ (false, s) :: L2)).

Let u : Z := lo + tot L1.
Let bp : Z := HSIZE * u.
Let n1 : list Z := frees lo L1.
Let n2 : list Z := frees (u + s) L2.
Let p : Z := before n1.

Lemma free_parts :
  sized (hdrs a) lo L1 /\ 1 <= s /\ h_size (hdrs a bp) = s /\ sized (hdrs a) (u + s) L2 /\
  0 <= tot L1 /\ 0 <= tot L2 /\ u + s + tot L2 < 2 ^ 32.
Proof.
  pose proof (hp_sized _ _ Hh) as (Hs1 & Hs & Hsz & Hs2)%sized_app.
  pose proof (sized_tot _ _ _ Hs1). pose proof (sized_tot _ _ _ Hs2).
  pose proof (hp_limit _ _ Hh) as Hl. rewrite (hp_brk _ _ Hh), tot_app in Hl. simpl in Hl. unfold HSIZE in Hl.
  split_and!; try done. unfold u. lia.
Qed.

Lemma free_list : frees lo (L1 ++ (false, s) :: L2) = n1 ++ n2.
Proof. by rewrite frees_app. Qed.

Lemma n1_range q : q ∈ n1 -> base < q < bp.
Proof.
  destruct free_parts as (H1 & _). pose proof (hp_low _ _ Hh). intros Hq%(frees_range _ _ _ _ H1).
  unfold bp, u, HSIZE in *. lia.
Qed.

Lemma n2_range q : q ∈ n2 -> HSIZE * (u + s) <= q < HSIZE * (u + s + tot L2).
Proof. destruct free_parts as (_ & _ & _ & H2 & _). apply (frees_range _ _ _ _ H2). Qed.

Lemma bp_base : base < bp.
Proof. destruct free_parts. pose proof (hp_low _ _ Hh). unfold bp, u, HSIZE in *. lia. Qed.

Lemma bp_n2 q : q ∈ n2 -> bp < q.
Proof. destruct free_parts as (_ & ? & _). intros Hq%n2_range. unfold bp, HSIZE in *. lia. Qed.

Lemma place steps : (length n1 + length n2 + 1 < steps)%nat -> find_place steps bp a = Done p a.
Proof.
  intros Hst. destruct free_parts as (H1 & _ & _ & H2 & _).
  apply (find_place_eq a n1 n2 bp).
  - rewrite <- free_list. apply Hh.
  - apply n1_range.
  - apply bp_n2.
  - apply bp_base.
  - by apply (frees_ascending (hdrs a) lo L1).
  - by apply (frees_ascending (hdrs a) (u + s) L2).
  - rewrite <- free_list. apply Hh.
  - done.
Qed.

Lemma p_next : h_ptr (hdrs a p) = behind n2 /\ base <= p < bp.
Proof.
  destruct free_parts as (H1 & _ & _ & H2 & _).
  apply before_next.
  - rewrite <- free_list. apply Hh.
  - apply n1_range.
  - apply bp_n2.
  - apply bp_base.
  - by apply (frees_ascending (hdrs a) lo L1).
  - by apply (frees_ascending (hdrs a) (u + s) L2).
Qed.

Lemma behind_touches : bp + HSIZE * s = behind n2 <-> exists t L2', L2 = (true, t) :: L2'.
Proof.
  destruct free_parts as (_ & Hs & _ & H2 & _). pose proof bp_base as Hb. unfold behind, n2. split.
  - destruct L2 as [|[f t] L2']; cbn [frees head from_option id].
    + unfold HSIZE in *. lia.
    + destruct f; [by eauto|]. cbn [app]. intros Heq. exfalso. destruct H2 as (Ht & _ & H2).
      destruct (head (frees (u + s + t) L2')) as [q|] eqn:Hq; cbn [from_option id] in Heq; [|unfold HSIZE in *; lia].
      apply head_Some in Hq as [r Hr]. assert (q ∈ frees (u + s + t) L2') as Hin by (rewrite Hr; by left).
      apply (frees_range _ _ _ _ H2) in Hin. unfold bp, HSIZE in *. lia.
  - intros (t & L2' & ->). simpl. unfold bp, HSIZE. lia.
Qed.

Lemma split_chain : chain (hdrs a) base n1 (behind n2) /\ chain (hdrs a) p n2 base.
Proof.
  pose proof (hp_chain _ _ Hh) as Hc. rewrite free_list in Hc. destruct p_next as [Hn _].
  unfold behind in *. destruct n2 as [|q r] eqn:Hq; cbn [head from_option id] in *.
  - rewrite app_nil_r in Hc. done.
  - apply chain_app in Hc as [Hc Hr]. done.
Qed.

(** Memory in which the tile at [bp] has the size [s'] and points at the list
    behind it, which is that of the tiles [L2']. *)
Record next_joined (hd : Z -> header) (s' : Z) (L2' : list tile) : Prop := {
  nj_only : only_at bp (hdrs a) hd;
  nj_size : h_size (hd bp) = s' /\ s <= s' /\ s' + tot L2' = s + tot L2;
  nj_chain : chain hd bp (frees (u + s') L2') base;
  nj_sized : sized hd (u + s') L2';
  nj_coal : coalesced true L2';
  nj_blocks : blocks (u + s') L2' = blocks (u + s) L2;
  nj_length : (length L2' <= length L2)%nat;
}.

Lemma join_next_spec :
  exists hd s' L2', join_next p bp a = Done tt (a {{ hdrs := hd }}) /\ next_joined hd s' L2'.
Proof.
  destruct free_parts as (H1 & Hs & Hsz & H2 & Ht1 & Ht2 & H32). destruct p_next as [Hpn Hp].
  destruct split_chain as [_ Hc]. pose proof bp_base as Hbb. pose proof (proj1 (hp_low _ _ Hh)) as Hb0.
  pose proof (hp_coal _ _ Hh) as (_ & _ & Hco)%coalesced_app.
  unfold join_next. unfold bind at 1 2. cbn [hdr gets bindp]. rewrite Hsz, Hpn. unfold hplus at 1.
  destruct (Z.eqb_spec (bp + HSIZE * s) (behind n2)) as [Heq|Hne].
  - pose proof Heq as (t & L2' & HL2)%behind_touches. rewrite <- Heq.
    rewrite HL2 in H2, Hco, Ht2, H32. destruct H2 as (Ht & Hth & H2). destruct Hco as [_ Hco].
    assert (bp + HSIZE * s = HSIZE * (u + s)) as Hy by (unfold bp, HSIZE; lia). rewrite Hy.
    assert (n2 = HSIZE * (u + s) :: frees (u + s + t) L2') as Hn2 by (unfold n2; by rewrite HL2).
    rewrite Hn2 in Hc. destruct Hc as [_ Hc]. set (y := HSIZE * (u + s)) in *.
    assert (y <> bp) as Hybp by (unfold y, bp, HSIZE in *; lia).
    pose proof (sized_tot _ _ _ H2) as Ht2'. cbn [tot] in H32.
    unfold bind at 1. cbn [hdr gets bindp]. rewrite Hth.
    destruct (set_size_eq bp (s + t) a) as (hd1 & E1 & Ho1 & Hp1 & Hz1). rewrite (bind_done _ _ _ _ _ E1).
    set (a1 := a {{ hdrs := hd1 }}). unfold bind at 1 2. cbn [hdr gets bindp].
    change (hdrs a1) with hd1. rewrite (Ho1 p), Hpn, <- Heq, Hy, (Ho1 y) by lia.
    destruct (set_ptr_eq bp (h_ptr (hdrs a y)) a1) as (hd2 & E2 & Ho2 & Hp2 & Hz2).
    change (hdrs a1) with hd1 in *. rewrite u32_small in Hz1 by (unfold u in *; pose proof (hp_low _ _ Hh); unfold HSIZE in *; lia).
    exists hd2, (s + t), L2'. split; [rewrite E2; by destruct a|].
    assert (only_at bp (hdrs a) hd2) as Ho by (intros q Hq; rewrite Ho2, Ho1 by done; done).
    split; rewrite ?Z.add_assoc.
    + done.
    + split_and!; [congruence|lia|]. rewrite HL2. simpl. lia.
    + apply (chain_start (hdrs a) _ y); [done| |done]. intros x Hx. f_equal. apply Ho.
      apply (frees_range _ _ _ _ H2) in Hx. unfold bp, HSIZE in *. lia.
    + apply (sized_ext (hdrs a)); [|done]. intros q Hq. f_equal. apply Ho. unfold bp, HSIZE in *. lia.
    + done.
    + rewrite HL2. done.
    + rewrite HL2. simpl. lia.
  - destruct (set_ptr_eq bp (behind n2) a) as (hd1 & E1 & Ho1 & Hp1 & Hz1).
    exists hd1, s, L2. split; [done|]. split.
    + done.
    + split_and!; [congruence|lia|lia].
    + apply (chain_start (hdrs a) _ p); [congruence| |done]. intros x Hx. f_equal. apply Ho1.
      apply bp_n2 in Hx. lia.
    + apply (sized_ext (hdrs a)); [|done]. intros q Hq. f_equal. apply Ho1. unfold bp, HSIZE in *. lia.
    + assert (forall t L2', L2 <> (true, t) :: L2') as Hnt by (intros t L2' HL2; apply Hne, behind_touches; eauto).
      revert Hco Hnt. generalize L2. intros [|[[] t] L2'] Hco Hnt; [done|by destruct (Hnt t L2')|].
      split; [by intros [_ ?]|apply Hco].
    + done.
    + done.
Qed.

(** What freeing the tile gives. *)
Record freed (a' : arena) (L' : list tile) : Prop := {
  fr_heap : heap a' L';
  fr_blocks : blocks lo L' = blocks lo L1 ++ blocks (u + s) L2;
  fr_tot : tot L' = tot L1 + s + tot L2;
  fr_same : forall q, q <> bp -> q <> p -> hdrs a' q = hdrs a q;
  fr_brk : brk a' = brk a /\ limit a' = limit a;
  fr_fits : exists A r B, L' = A ++ (true, r) :: B /\ s <= r;
  fr_length : (length L' <= length L1 + length L2 + 1)%nat;
}.

(** The heap when the tile before does not touch. *)
Lemma unjoined hd hd' s' L2' :
  next_joined hd s' L2' -> only_at p hd hd' -> h_ptr (hd' p) = bp -> h_size (hd' p) = h_size (hd p) ->
  last_free false L1 = false ->
  freed (a {{ hdrs := hd'; freep := p }}) (L1 ++ (true, s') :: L2').
Proof.
  intros [Ho (Hz & Hss & Htot) Hc Hsd Hco Hbl Hlen] Ho' Hp' Hz' Hlf.
  destruct free_parts as (H1 & Hs & Hsz & H2 & Ht1 & Ht2 & H32). destruct p_next as [Hpn Hpr].
  pose proof bp_base as Hbb. destruct split_chain as [Hc1 _]. pose proof (sized_tot _ _ _ Hsd) as Ht2'.
  assert (forall q, q <> p -> q <> bp -> hd' q = hdrs a q) as Hsame by (intros q ? ?; by rewrite Ho', Ho).
  assert (forall q, h_size (hd' q) = h_size (hd q)) as Hsizes.
  { intros q. destruct (decide (q = p)) as [->|Hq]; [done|by rewrite Ho']. }
  pose proof (hp_coal _ _ Hh) as (Hco1 & _ & _)%coalesced_app.
  split.
  - split.
    + apply sized_app. split; [|split_and!; [lia|by rewrite Hsizes|]].
      * apply (sized_ext (hdrs a)); [|done]. intros q Hq. rewrite Hsizes. f_equal. apply Ho.
        unfold bp, u, HSIZE in *. lia.
      * apply (sized_ext hd); [|done]. intros q _. apply Hsizes.
    + rewrite frees_app. cbn [frees app]. apply chain_app. destruct (before_last n1) as [l Hl]. fold p in Hl. split.
      * apply (chain_redirect (hdrs a) _ p (behind n2) _ n1 base l Hl); [|done|done].
        intros z Hzl. assert (z < p) as Hzp.
        { apply (ascending_last l); [|done]. rewrite <- Hl. constructor; [by apply (frees_ascending (hdrs a) lo L1)|].
          apply Forall_forall. intros q Hq. by apply n1_range. }
        rewrite Hsame by lia. done.
      * apply (chain_ext hd); [|done]. intros x Hx. f_equal. apply Ho'.
        assert (bp <= x) as Hbx; [|lia]. apply elem_of_cons in Hx as [->|Hx]; [lia|].
        apply (frees_range _ _ _ _ Hsd) in Hx. unfold bp, HSIZE in *. lia.
    + rewrite Hsizes, Ho by lia. apply Hh.
    + apply Hh.
    + change (brk a = HSIZE * (lo + tot (L1 ++ (true, s') :: L2'))). rewrite (hp_brk _ _ Hh), !tot_app. simpl. f_equal. lia.
    + change (p ∈ base :: frees lo (L1 ++ (true, s') :: L2')). rewrite frees_app, app_comm_cons.
      apply elem_of_app. left. apply before_in.
    + apply coalesced_app. split_and!; [done|rewrite Hlf; by intros [? _]|done].
    + apply Hh.
  - rewrite blocks_app. change (blocks lo L1 ++ blocks (u + s') L2' = blocks lo L1 ++ blocks (u + s) L2). by rewrite Hbl.
  - rewrite tot_app. simpl. lia.
  - intros q Hq1 Hq2. by apply Hsame.
  - done.
  - by exists L1, s', L2'.
  - rewrite length_app. simpl. lia.
Qed.

(** The heap when it touches and the two are joined. *)
Lemma joined hd hd' s' L2' A r :
  next_joined hd s' L2' -> only_at p hd hd' -> L1 = A ++ [(true, r)] -> p = HSIZE * (lo + tot A) ->
  h_ptr (hd' p) = h_ptr (hd bp) -> h_size (hd' p) = r + s' ->
  freed (a {{ hdrs := hd'; freep := p }}) (A ++ (true, r + s') :: L2').
Proof.
  intros [Ho (Hz & Hss & Htot) Hc Hsd Hco Hbl Hlen] Ho' HL1 Hpa Hp' Hz'.
  destruct free_parts as (H1 & Hs & Hsz & H2 & Ht1 & Ht2 & H32). destruct p_next as [Hpn Hpr].
  pose proof bp_base as Hbb. destruct split_chain as [Hc1 _]. pose proof (sized_tot _ _ _ Hsd) as Ht2'.
  pose proof (hp_coal _ _ Hh) as (Hco1 & _ & _)%coalesced_app. pose proof (hp_low _ _ Hh) as Hlow.
  assert (forall q, q <> p -> q <> bp -> hd' q = hdrs a q) as Hsame by (intros q ? ?; by rewrite Ho', Ho).
  rewrite HL1 in H1, Hco1. pose proof H1 as (HA & Hr1 & Hrz & _)%sized_app. pose proof (sized_tot _ _ _ HA) as HtA.
  apply coalesced_app in Hco1 as (HcA & HlA & _).
  assert (tot L1 = tot A + r) as Htl by (rewrite HL1, tot_app; simpl; lia).
  assert (u = lo + tot A + r) as Hu by (unfold u; lia).
  assert (n1 = frees lo A ++ [p]) as Hn1 by (unfold n1; rewrite HL1, frees_app; simpl; by rewrite Hpa).
  assert (ascending (base :: frees lo A ++ [p])) as Hasc.
  { constructor; [rewrite <- Hn1; apply (frees_ascending (hdrs a) lo L1); by rewrite HL1|].
    apply Forall_forall. intros q Hq. rewrite <- Hn1 in Hq. by apply n1_range. }
  rewrite Hn1 in Hc1. apply chain_app in Hc1 as [Hc1 _].
  split.
  - split.
    + apply sized_app. split; [|split_and!; [lia|by rewrite <- Hpa|]].
      * apply (sized_ext (hdrs a)); [|done]. intros q Hq. rewrite Hsame; [done|..]; unfold bp, HSIZE in *; lia.
      * replace (lo + tot A + (r + s')) with (u + s') by lia. apply (sized_ext hd); [|done].
        intros q Hq. rewrite Ho'; [done|]. unfold bp, HSIZE in *. lia.
    + rewrite frees_app. cbn [frees app]. rewrite <- Hpa. apply chain_app. split.
      * apply (chain_ext (hdrs a)); [|done]. intros x Hx. pose proof (ascending_last (base :: frees lo A) p x Hasc Hx).
        rewrite Hsame; [done|lia|lia].
      * replace (lo + tot A + (r + s')) with (u + s') by lia. apply (chain_start hd _ bp); [done| |done].
        intros x Hx. rewrite Ho'; [done|]. apply (frees_range _ _ _ _ Hsd) in Hx. unfold bp, HSIZE in *. lia.
    + rewrite Hsame; [apply Hh|unfold HSIZE in *; lia|lia].
    + apply Hh.
    + change (brk a = HSIZE * (lo + tot (A ++ (true, r + s') :: L2'))). rewrite (hp_brk _ _ Hh), !tot_app. simpl. f_equal. lia.
    + change (p ∈ base :: frees lo (A ++ (true, r + s') :: L2')). rewrite frees_app. cbn [frees app]. rewrite <- Hpa. set_solver.
    + by apply coalesced_app.
    + apply Hh.
  - rewrite HL1, !blocks_app. cbn [blocks app]. rewrite app_nil_r.
    replace (lo + tot A + (r + s')) with (u + s') by lia. by rewrite Hbl.
  - rewrite tot_app. simpl. lia.
  - intros q Hq1 Hq2. by apply Hsame.
  - done.
  - exists A, (r + s'), L2'. split; [done|lia].
  - rewrite HL1, !length_app. simpl. unfold tile in *. lia.
Qed.

(** Where the free header before the tile is. *)
Lemma before_tile :
  (n1 = [] /\ p = base) \/
  exists A r B, L1 = A ++ (true, r) :: B /\ p = HSIZE * (lo + tot A) /\ frees (lo + tot A + r) B = [].
Proof.
  destruct (last n1) as [x|] eqn:Hl.
  - right. assert (p = x) as -> by (unfold p, before; by rewrite Hl).
    apply last_Some in Hl as [l Hl]. destruct (frees_split _ _ _ _ _ Hl) as (A & r & B & HL & Hx & _ & HB). eauto 10.
  - left. apply last_None in Hl. split; [done|]. unfold p, before. by rewrite Hl.
Qed.

Lemma join_prev_spec hd s' L2' :
  next_joined hd s' L2' ->
  exists hd' L', join_prev p bp (a {{ hdrs := hd }}) = Done tt (a {{ hdrs := hd' }}) /\
    freed (a {{ hdrs := hd'; freep := p }}) L'.
Proof.
  intros Hnj. pose proof Hnj as [Ho (Hz & Hss & Htot) Hc Hsd Hco Hbl Hlen].
  destruct free_parts as (H1 & Hs & Hsz & H2 & Ht1 & Ht2 & H32). destruct p_next as [Hpn Hpr].
  pose proof bp_base as Hbb. pose proof (hp_low _ _ Hh) as Hlow. pose proof (sized_tot _ _ _ Hsd) as Ht2'.
  set (a1 := a {{ hdrs := hd }}). unfold join_prev. unfold bind at 1 2. cbn [hdr gets bindp].
  change (hdrs a1) with hd. rewrite (Ho p), Hz by lia. unfold hplus.
  destruct (Z.eqb_spec (p + HSIZE * h_size (hdrs a p)) bp) as [Heq|Hne].
  - destruct before_tile as [[_ Hpb]|(A & r & B & HL1 & Hpa & HB)].
    { rewrite Hpb in Heq. rewrite (hp_base _ _ Hh) in Heq. lia. }
    assert (h_size (hdrs a p) = r /\ 1 <= r /\ sized (hdrs a) (lo + tot A + r) B) as (Hzr & Hr1 & HsB).
    { rewrite HL1 in H1. apply sized_app in H1 as (_ & ? & ? & ?). by rewrite Hpa. }
    assert (B = []) as ->.
    { rewrite Hzr, Hpa in Heq. unfold bp, u in Heq. rewrite HL1, tot_app in Heq. simpl in Heq.
      destruct B as [|[g t] B]; [done|]. destruct HsB as (Ht & _ & HsB). pose proof (sized_tot _ _ _ HsB).
      simpl in Heq. unfold HSIZE in Heq. lia. }
    assert (r + s' < 2 ^ 32) as Hr32.
    { rewrite HL1, tot_app in Ht1. unfold u in H32. rewrite HL1, tot_app in H32. simpl in *.
      rewrite HL1 in H1. apply sized_app in H1 as [HA%sized_tot _]. unfold HSIZE in *. lia. }
    rewrite Hzr. destruct (set_size_eq p (r + s') a1) as (hd1 & E1 & Ho1 & Hp1 & Hz1).
    rewrite (bind_done _ _ _ _ _ E1). set (a2 := a1 {{ hdrs := hd1 }}).
    unfold bind at 1. cbn [hdr gets bindp]. change (hdrs a2) with hd1. change (hdrs a1) with hd in *.
    rewrite (Ho1 bp) by lia. destruct (set_ptr_eq p (h_ptr (hd bp)) a2) as (hd2 & E2 & Ho2 & Hp2 & Hz2).
    change (hdrs a2) with hd1 in *. rewrite u32_small in Hz1 by lia.
    exists hd2, (A ++ (true, r + s') :: L2'). split; [rewrite E2; by destruct a|].
    apply (joined hd); try done; [intros q Hq; by rewrite Ho2, Ho1|congruence].
  - destruct (set_ptr_eq p bp a1) as (hd1 & E1 & Ho1 & Hp1 & Hz1). change (hdrs a1) with hd in *.
    exists hd1, (L1 ++ (true, s') :: L2'). split; [rewrite E1; by destruct a|].
    apply (unjoined hd); try done.
    destruct before_tile as [[Hn1 _]|(A & r & B & HL1 & Hpa & HB)].
    + destruct (decide (L1 = [])) as [HL1|Hne1]; [by rewrite HL1|]. by apply (last_free_none _ lo).
    + rewrite HL1, last_free_app. apply (last_free_none _ (lo + tot A + r)); [done|]. intros ->.
      rewrite HL1 in H1. apply sized_app in H1 as (_ & _ & Hzr & _).
      apply Hne. rewrite Hpa, Hzr. unfold bp, u. rewrite HL1, tot_app. simpl. unfold HSIZE. lia.
Qed.

Lemma free_spec steps :
  (length L1 + length L2 + 1 < steps)%nat ->
  exists a' L', free steps (bp + HSIZE) a = Done tt a' /\ freed a' L'.
Proof.
  intros Hst. destruct join_next_spec as (hd & s' & L2' & E1 & Hnj).
  destruct (join_prev_spec hd s' L2' Hnj) as (hd' & L' & E2 & Hf).
  exists (a {{ hdrs := hd'; freep := p }}), L'. split; [|done].
  unfold free. replace (hplus (bp + HSIZE) (-1)) with bp by (unfold hplus, HSIZE; lia).
  rewrite (bind_done _ _ _ _ _ (place steps ltac:(pose proof (frees_length lo L1); pose proof (frees_length (u + s) L2); unfold n1, n2; lia))).
  rewrite (bind_done _ _ _ _ _ E1), (bind_done _ _ _ _ _ E2). by destruct a.
Qed.
End free.
End heap.
