(* ===== verification/UmallocProps.v ===== *)
(** malloc() and free(): blocks never overlap, and the memory of the allocated
    ones is left alone. *)

From Stdlib Require Import Sorting.Sorted.
From stdpp Require Import functions.
From S2P Require Import Prelude Locks Kalloc Vm Proc ProcFacts Kernel KernelFacts Umalloc UmallocFacts.

(** ** The circular list from any header *)

Lemma chain_ptr_in hd p l e x : chain hd p l e -> x ∈ p :: l -> h_ptr (hd x) ∈ l ++ [e].
Proof.
  revert p. induction l as [|q l IH]; intros p; simpl.
  - intros <- ->%list_elem_of_singleton. by left.
  - intros [<- Hc] [->|Hx]%elem_of_cons; [by left|]. right. by apply (IH (h_ptr (hd p))).
Qed.

(** Only one header points at [q]. *)
Lemma chain_pred hd l1 : forall p q l2 e x,
  chain hd p (l1 ++ q :: l2) e -> NoDup (p :: l1 ++ q :: l2) -> e <> q ->
  x ∈ p :: l1 ++ q :: l2 -> h_ptr (hd x) = q -> exists k, p :: l1 = k ++ [x].
Proof.
  induction l1 as [|y l1 IH]; intros p q l2 e x Hc Hnd He Hx Hq; cbn [app chain] in *.
  - destruct Hc as [Hp Hc]. apply elem_of_cons in Hx as [->|Hx]; [by exists []|]. exfalso.
    apply (chain_ptr_in _ _ _ _ x) in Hc; [|done]. rewrite Hq in Hc.
    apply NoDup_cons in Hnd as [_ Hnd]. apply NoDup_cons in Hnd as [Hnq _].
    apply elem_of_app in Hc as [Hc|Hc]; [done|]. apply list_elem_of_singleton in Hc. congruence.
  - destruct Hc as [Hp Hc]. apply NoDup_cons in Hnd as [Hpn Hnd].
    apply elem_of_cons in Hx as [->|Hx].
    + exfalso. rewrite Hp in Hq. subst y. apply NoDup_cons in Hnd as [Hy _]. apply Hy. set_solver.
    + destruct (IH y q l2 e x Hc Hnd He Hx Hq) as [k Hk]. exists (p :: k). cbn [app]. by rewrite <- Hk.
Qed.

Section malloc.
Context `{Base} (lo : Z).

Lemma nodes_nodup a L : heap lo a L -> NoDup (base :: frees lo L).
Proof.
  intros Hh. pose proof (hp_sized _ _ _ Hh) as Hs. pose proof (hp_low _ _ _ Hh) as Hl.
  apply NoDup_cons. split.
  - intros Hin%(frees_range _ _ _ _ Hs). unfold HSIZE in *. lia.
  - pose proof (frees_ascending _ _ _ Hs) as Ha. clear -Ha. induction Ha as [|x l Ha IH Hf]; [constructor|].
    apply NoDup_cons. split; [|done]. rewrite Forall_forall in Hf. intros Hx%Hf. lia.
Qed.

(** Going round from [freep]: the other headers, and back. *)
Lemma circle a L :
  heap lo a L -> exists v, chain (hdrs a) (freep a) v (freep a) /\ Permutation (freep a :: v) (base :: frees lo L).
Proof.
  intros Hh. pose proof (hp_freep _ _ _ Hh) as Hf. pose proof (hp_chain _ _ _ Hh) as Hc.
  apply list_elem_of_split in Hf as (l & r & Hl). destruct l as [|x l]; cbn [app] in Hl.
  - injection Hl as Hf Hr. rewrite <- Hf. exists (frees lo L). done.
  - injection Hl as <- Hr. rewrite Hr in *. apply chain_app in Hc as [Hc1 Hc2].
    exists (r ++ base :: l). split.
    + by apply chain_app.
    + apply (Permutation_app_comm (freep a :: r) (base :: l)).
Qed.

(** The loop of malloc() finds a header with enough space, or arrives at [freep]
    and there is none. *)
Lemma scan steps n a v : forall prev k,
  chain (hdrs a) prev v (freep a) -> freep a ∉ v -> (length v < k)%nat ->
  (exists prev' q k', (prev' ∈ prev :: v) /\ (q ∈ v ++ [freep a]) /\ h_ptr (hdrs a prev') = q /\ n <= h_size (hdrs a q) /\
     loop k (malloc_step steps n) (prev, h_ptr (hdrs a prev)) a = loop (S k') (malloc_step steps n) (prev', q) a) \/
  ((forall q, q ∈ v ++ [freep a] -> h_size (hdrs a q) < n) /\
   exists prev' k', (k - length v <= S k')%nat /\
     loop k (malloc_step steps n) (prev, h_ptr (hdrs a prev)) a = loop (S k') (malloc_step steps n) (prev', freep a) a).
Proof.
  induction v as [|q v IH]; intros prev k Hc Hf Hk; (destruct k as [|k]; [simpl in Hk; lia|]); cbn [chain] in Hc.
  - rewrite Hc. destruct (decide (n <= h_size (hdrs a (freep a)))) as [Hn|Hn].
    + left. exists prev, (freep a), k. split_and!; [by left|by left|done|done|done].
    + right. split; [intros q ->%list_elem_of_singleton; lia|]. exists prev, k. split; [simpl; lia|done].
  - destruct Hc as [Hq Hc]. apply not_elem_of_cons in Hf as [Hfq Hf]. rewrite Hq.
    destruct (decide (n <= h_size (hdrs a q))) as [Hn|Hn].
    + left. exists prev, q, k. split_and!; [by left|by left|done|done|done].
    + assert (loop (S k) (malloc_step steps n) (prev, q) a = loop k (malloc_step steps n) (q, h_ptr (hdrs a q)) a) as ->.
      { apply loop_continue. unfold malloc_step. unfold bind at 1. cbn [hdr gets bindp].
        rewrite Z.geb_leb, (proj2 (Z.leb_gt _ _)) by lia. unfold bind at 1. cbn [gets bindp].
        by rewrite (proj2 (Z.eqb_neq _ _)). }
      destruct (IH q k Hc Hf) as [(p & x & k' & H1 & H2 & H3)|(Hall & p & k' & Hk' & E)]; [simpl in Hk; lia|left|right].
      * exists p, x, k'. split; [by right|]. split; [by right|done].
      * split; [intros x [->|Hx]%elem_of_cons; [lia|by apply Hall]|]. exists p, k'. split; [simpl; lia|done].
Qed.

(** A header with space is a free tile, and the one that points at it is the
    free header before it. *)
Lemma fitting_tile a L prev q n :
  heap lo a L -> prev ∈ base :: frees lo L -> q ∈ base :: frees lo L -> h_ptr (hdrs a prev) = q ->
  1 <= n <= h_size (hdrs a q) ->
  exists A r B, L = A ++ (true, r) :: B /\ q = HSIZE * (lo + tot A) /\ n <= r /\ prev = before (frees lo A).
Proof.
  intros Hh Hp Hq Hpq Hn.
  apply elem_of_cons in Hq as [->|Hq]; [rewrite (hp_base _ _ _ Hh) in Hn; lia|].
  apply list_elem_of_split in Hq as (l1 & l2 & Hl).
  pose proof (hp_chain _ _ _ Hh) as Hc. pose proof (nodes_nodup a L Hh) as Hnd. rewrite Hl in Hc, Hnd, Hp.
  assert (base <> q) as Hbq by (apply NoDup_cons in Hnd as [Hb _]; set_solver).
  destruct (chain_pred _ _ _ _ _ _ prev Hc Hnd Hbq Hp Hpq) as [k Hk].
  destruct (before_last l1) as [k' Hk']. rewrite Hk in Hk'. apply app_inj_2 in Hk' as [_ [= Hprev]]; [|done].
  destruct (frees_split _ _ _ _ _ Hl) as (A & r & B & HL & Hx & HA & _). exists A, r, B.
  split_and!; [done|done| |by rewrite HA].
  pose proof (hp_sized _ _ _ Hh) as Hs. rewrite HL in Hs. apply sized_app in Hs as (_ & _ & Hz & _).
  rewrite Hx, Hz in Hn. lia.
Qed.

Lemma coalesced_weaken L : coalesced true L -> coalesced false L.
Proof. destruct L as [|[g t] L]; [done|]. intros [_ Hc]. split; [by intros [? _]|done]. Qed.

(** What taking [n] units from the free tile [A | r | B] gives. *)
Record carved (a : arena) (A : list tile) (r : Z) (B : list tile) (n x : Z) (a' : arena) (L' : list tile) : Prop := {
  cv_heap : heap lo a' L';
  cv_blocks : blocks lo L' = blocks lo A ++ (x + HSIZE, n) :: blocks (lo + tot A + r) B;
  cv_range : HSIZE * (lo + tot A) <= x /\ x + HSIZE * n <= HSIZE * (lo + tot A + r);
  cv_same : forall y, y <> before (frees lo A) -> ~ (HSIZE * (lo + tot A) <= y < HSIZE * (lo + tot A + r)) ->
    hdrs a' y = hdrs a y;
}.

Lemma carve_spec a A r B n :
  heap lo a (A ++ (true, r) :: B) -> 1 <= n <= r ->
  exists x a' L', bind (carve n (before (frees lo A)) (HSIZE * (lo + tot A))) (fun p =>
      bind (set_freep (before (frees lo A))) (fun _ => break (hplus p 1))) a =
    Done (@inr (Z * Z) Z (x + HSIZE)) a' /\ carved a A r B n x a' L'.
Proof.
  intros Hh Hn. set (u := lo + tot A). set (q := HSIZE * u). set (prev := before (frees lo A)).
  pose proof (hp_sized _ _ _ Hh) as Hs. apply sized_app in Hs as (HsA & Hr & Hz & HsB). fold u q in Hz, HsB.
  pose proof (hp_chain _ _ _ Hh) as Hc. rewrite frees_app in Hc. cbn [frees app] in Hc. fold u q in Hc.
  apply chain_app in Hc as [HcA HcB]. pose proof (hp_coal _ _ _ Hh) as (HoA & Hof & HoB)%coalesced_app.
  pose proof (hp_low _ _ _ Hh) as Hlow. pose proof (sized_tot _ _ _ HsA) as HtA. pose proof (sized_tot _ _ _ HsB) as HtB.
  pose proof (hp_limit _ _ _ Hh) as Hlim. pose proof (hp_brk _ _ _ Hh) as Hbrk. rewrite Hbrk, tot_app in Hlim. cbn [tot] in Hlim.
  assert (prev < q) as Hpq.
  { unfold prev. pose proof (before_in (frees lo A)) as Hin. apply elem_of_cons in Hin as [->|Hin].
    - unfold q, u, HSIZE in *. lia.
    - apply (frees_range _ _ _ _ HsA) in Hin. unfold q, u, HSIZE in *. lia. }
  assert (r < 2 ^ 32) as Hr32 by (unfold HSIZE in *; lia).
  destruct (decide (r = n)) as [->|Hrn].
  - destruct (set_ptr_eq prev (h_ptr (hdrs a q)) a) as (hd & E & Ho & Hp & Hsz).
    exists q, (a {{ hdrs := hd; freep := prev }}), (A ++ (false, n) :: B). split.
    { assert (carve n prev q a = Done q (a {{ hdrs := hd }})) as Ec.
      { unfold carve. unfold bind at 1. cbn [hdr gets bindp]. rewrite Hz, Z.eqb_refl.
        by rewrite (bind_done _ _ _ _ _ E). }
      by rewrite (bind_done _ _ _ _ _ Ec). }
    assert (forall y, h_size (hd y) = h_size (hdrs a y)) as Hsizes.
    { intros y. destruct (decide (y = prev)) as [->|Hy]; [done|by rewrite Ho]. }
    split.
    + split.
      * apply (sized_ext (hdrs a)); [intros y _; apply Hsizes|]. apply sized_app. by split_and!.
      * rewrite frees_app. cbn [frees app]. destruct (before_last (frees lo A)) as [l Hl]. fold prev u in Hl |- *.
        assert (chain hd base (frees lo A) (h_ptr (hdrs a q))) as HcA'.
        { apply (chain_redirect (hdrs a) _ prev q _ _ base l Hl); [|done|done]. intros z Hzl. f_equal. apply Ho.
          intros ->. pose proof (nodes_nodup a _ Hh) as Hnd. rewrite frees_app, app_comm_cons, Hl in Hnd.
          apply NoDup_app in Hnd as (Hnd & _). apply NoDup_app in Hnd as (_ & Hd & _). apply (Hd prev Hzl). by left. }
        destruct (frees (u + n) B) as [|y l2] eqn:HfB.
        { rewrite app_nil_r. cbn [chain] in HcB. by rewrite HcB in HcA'. }
        { destruct HcB as [Hy HcB]. rewrite Hy in HcA'. apply chain_app. split; [done|].
          apply (chain_ext (hdrs a)); [|done]. intros z Hzl. f_equal. apply Ho. rewrite <- HfB in Hzl.
          apply (frees_range _ _ _ _ HsB) in Hzl. unfold q, HSIZE in *. lia. }
      * rewrite Hsizes. apply Hh.
      * done.
      * change (brk a = HSIZE * (lo + tot (A ++ (false, n) :: B))). by rewrite Hbrk, !tot_app.
      * change (prev ∈ base :: frees lo (A ++ (false, n) :: B)). rewrite frees_app, app_comm_cons.
        apply elem_of_app. left. apply before_in.
      * apply coalesced_app. split_and!; [done|by intros [_ ?]|by apply coalesced_weaken].
      * apply Hh.
    + rewrite blocks_app. cbn [blocks app]. fold u. do 2 f_equal. unfold q, HSIZE. f_equal. lia.
    + fold u. unfold q, HSIZE. lia.
    + intros y Hy _. by apply Ho.
  - destruct (set_size_eq q (r - n) a) as (hd1 & E1 & Ho1 & Hp1 & Hz1).
    rewrite u32_small in Hz1 by lia. set (a1 := a {{ hdrs := hd1 }}). set (x := HSIZE * (u + (r - n))).
    destruct (set_size_eq x n a1) as (hd2 & E2 & Ho2 & Hp2 & Hz2). change (hdrs a1) with hd1 in *.
    rewrite u32_small in Hz2 by lia. assert (x <> q) as Hxq by (unfold x, q, HSIZE; lia).
    exists x, (a {{ hdrs := hd2; freep := prev }}), (A ++ (true, r - n) :: (false, n) :: B). split.
    { assert (carve n prev q a = Done x (a {{ hdrs := hd2 }})) as Ec.
      { unfold carve. unfold bind at 1. cbn [hdr gets bindp]. rewrite Hz, (proj2 (Z.eqb_neq _ _)) by done.
        rewrite (bind_done _ _ _ _ _ E1). unfold bind at 1. cbn [hdr gets bindp]. fold a1.
        change (h_size (hdrs a1 q)) with (h_size (hd1 q)). rewrite Hz1.
        replace (hplus q (r - n)) with x by (unfold hplus, x, q, HSIZE; lia).
        rewrite (bind_done _ _ _ _ _ E2). by destruct a. }
      by rewrite (bind_done _ _ _ _ _ Ec). }
    assert (forall y, h_ptr (hd2 y) = h_ptr (hdrs a y)) as Hptrs.
    { intros y. destruct (decide (y = x)) as [->|Hy]; [rewrite Hp2; by rewrite Ho1|rewrite Ho2 by done].
      destruct (decide (y = q)) as [->|Hq]; [done|by rewrite Ho1]. }
    assert (forall y, y <> x -> y <> q -> hd2 y = hdrs a y) as Hsame by (intros y ? ?; by rewrite Ho2, Ho1).
    assert (frees lo (A ++ (true, r - n) :: (false, n) :: B) = frees lo (A ++ (true, r) :: B)) as Hfr.
    { rewrite !frees_app. cbn [frees app]. do 3 f_equal. lia. }
    split.
    + split.
      * apply sized_app. cbn [sized]. fold u q x. split_and!; [|lia|by rewrite Ho2|lia|done|].
        { apply (sized_ext (hdrs a)); [|done]. intros y Hy. rewrite Hsame; [done|..]; unfold x, q, u, HSIZE in *; lia. }
        { replace (u + (r - n) + n) with (u + r) by lia. apply (sized_ext (hdrs a)); [|done].
          intros y Hy. rewrite Hsame; [done|..]; unfold x, q, u, HSIZE in *; lia. }
      * rewrite Hfr. apply (chain_ext (hdrs a)); [by intros y _|apply Hh].
      * rewrite Hsame; [apply Hh|..]; unfold x, q, u, HSIZE in *; lia.
      * done.
      * change (brk a = HSIZE * (lo + tot (A ++ (true, r - n) :: (false, n) :: B))). rewrite Hbrk, !tot_app. simpl. f_equal. lia.
      * change (prev ∈ base :: frees lo (A ++ (true, r - n) :: (false, n) :: B)).
        rewrite frees_app, app_comm_cons. apply elem_of_app. left. apply before_in.
      * apply coalesced_app. split_and!; [done|done|]. split; [by intros [_ ?]|by apply coalesced_weaken].
      * apply Hh.
    + rewrite blocks_app. cbn [blocks app]. fold u. do 2 f_equal; [f_equal; unfold x, HSIZE; lia|].
      f_equal. lia.
    + fold u. unfold x, HSIZE. lia.
    + intros y _ Hy. fold u in Hy. apply Hsame; unfold x, q, HSIZE in *; lia.
Qed.

(** ** Bytes of allocated blocks *)

(** [y] is in an allocated block, its header included. *)
Definition in_block (L : list tile) (y : Z) : Prop :=
  exists q m, (q, m) ∈ blocks lo L /\ q - HSIZE <= y < q - HSIZE + HSIZE * m.

Lemma in_block_tile a A r B y :
  heap lo a (A ++ (true, r) :: B) -> in_block (A ++ (true, r) :: B) y ->
  ~ (HSIZE * (lo + tot A) <= y < HSIZE * (lo + tot A + r)).
Proof.
  intros Hh (q & m & Hb & Hy). rewrite blocks_app in Hb. cbn [blocks app] in Hb.
  pose proof (hp_sized _ _ _ Hh) as (HA & _ & _ & HB)%sized_app.
  apply elem_of_app in Hb as [Hb|Hb].
  - apply (blocks_range _ _ _ _ _ HA) in Hb. lia.
  - apply (blocks_range _ _ _ _ _ HB) in Hb. lia.
Qed.

Lemma in_block_range a L y : heap lo a L -> in_block L y -> HSIZE * lo <= y < brk a.
Proof.
  intros Hh (q & m & Hb & Hy). rewrite (hp_brk _ _ _ Hh).
  apply (blocks_range _ _ _ _ _ (hp_sized _ _ _ Hh)) in Hb. lia.
Qed.

Lemma in_block_not_free a L y : heap lo a L -> in_block L y -> y ∉ base :: frees lo L.
Proof.
  intros Hh Hy Hin. pose proof (in_block_range a L y Hh Hy) as Hr. pose proof (hp_low _ _ _ Hh) as Hl.
  apply elem_of_cons in Hin as [->|Hin]; [unfold HSIZE in *; lia|].
  apply list_elem_of_split in Hin as (l1 & l2 & Hf). destruct (frees_split _ _ _ _ _ Hf) as (A & r & B & -> & -> & _ & _).
  pose proof (hp_sized _ _ _ Hh) as (_ & Hr1 & _ & _)%sized_app.
  apply (in_block_tile _ _ _ _ _ Hh Hy). unfold HSIZE. lia.
Qed.

(** ** More memory *)

Lemma grown a L nu p :
  heap lo a L -> 1 <= nu -> brk a + HSIZE * nu <= limit a -> p = brk a ->
  exists a1, bind (set_size p nu) (fun _ => ret tt) (a {{ brk := brk a + nu * HSIZE }}) = Done tt a1 /\
    heap lo a1 (L ++ [(false, nu)]) /\ only_at p (hdrs a) (hdrs a1) /\ freep a1 = freep a.
Proof.
  intros Hh Hnu Hl ->. destruct (set_size_eq (brk a) nu (a {{ brk := brk a + nu * HSIZE }})) as (hd & E & Ho & Hp & Hz).
  change (hdrs (a {{ brk := brk a + nu * HSIZE }})) with (hdrs a) in *.
  exists (a {{ hdrs := hd; brk := brk a + nu * HSIZE }}). split; [rewrite (bind_done _ _ _ _ _ E); by destruct a|].
  pose proof (hp_low _ _ _ Hh) as Hlow. pose proof (hp_brk _ _ _ Hh) as Hb. pose proof (hp_sized _ _ _ Hh) as Hs.
  pose proof (sized_tot _ _ _ Hs) as Ht. pose proof (hp_limit _ _ _ Hh) as Hlim.
  rewrite u32_small in Hz by (unfold HSIZE in *; lia).
  assert (frees lo (L ++ [(false, nu)]) = frees lo L) as Hf by (rewrite frees_app; simpl; by rewrite app_nil_r).
  split; [|done]. split.
  - apply sized_app. cbn [sized]. rewrite <- Hb. split; [|by split_and!]. apply (sized_ext (hdrs a)); [|done].
    intros q Hq. f_equal. apply Ho. lia.
  - rewrite Hf. apply (chain_ext (hdrs a)); [|apply Hh]. intros x Hx. f_equal. apply Ho.
    apply elem_of_cons in Hx as [->|Hx]; [unfold HSIZE in *; lia|]. apply (frees_range _ _ _ _ Hs) in Hx. lia.
  - change (h_size (hd base) = 0). rewrite Ho; [apply Hh|unfold HSIZE in *; lia].
  - done.
  - change (brk a + nu * HSIZE = HSIZE * (lo + tot (L ++ [(false, nu)]))). rewrite Hb, tot_app. simpl. lia.
  - rewrite Hf. apply Hh.
  - apply coalesced_app. split_and!; [apply Hh|by intros [_ ?]|done].
  - change (brk a + nu * HSIZE <= limit a < HSIZE * 2 ^ 32). lia.
Qed.

Lemma morecore_spec steps a L n :
  heap lo a L -> 1 <= n -> n * HSIZE < 2 ^ 31 -> (length L + 1 < steps)%nat ->
  let nu := Z.max n 4096 in
  (limit a < brk a + HSIZE * nu /\ morecore steps n a = Done 0 a) \/
  exists a' L', morecore steps n a = Done (freep a') a' /\ heap lo a' L' /\ blocks lo L' = blocks lo L /\
    (length L' <= length L + 1)%nat /\ (exists A r B, L' = A ++ (true, r) :: B /\ n <= r) /\
    (forall y, in_block L y -> hdrs a' y = hdrs a y).
Proof.
  intros Hh Hn Hn31 Hst nu. pose proof (hp_low _ _ _ Hh) as Hlow. pose proof (hp_brk _ _ _ Hh) as Hb.
  pose proof (sized_tot _ _ _ (hp_sized _ _ _ Hh)) as Ht.
  assert ((if n <? 4096 then 4096 else n) = nu) as Enu by (unfold nu; destruct (Z.ltb_spec n 4096); lia).
  unfold morecore. rewrite Enu. assert (i32 (nu * HSIZE) = nu * HSIZE) as Ei by (apply i32_small; unfold HSIZE in *; lia).
  destruct (decide (brk a + HSIZE * nu <= limit a)) as [Hfit|Hfull]; [right|left; split; [lia|]].
  - assert (sbrk (nu * HSIZE) a = Done (brk a) (a {{ brk := brk a + nu * HSIZE }})) as Es.
    { unfold sbrk. rewrite Ei, Z.geb_leb, (proj2 (Z.leb_le 0 _)), (proj2 (Z.leb_le _ (limit a))) by (unfold HSIZE in *; lia). done. }
    destruct (grown a L nu (brk a) Hh) as (a1 & E1 & Hh1 & Ho1 & Hf1); [lia|done|done|].
    destruct (free_spec lo a1 L [] nu Hh1 steps) as (a2 & L2 & E2 & Hfr); [simpl; lia|].
    rewrite <- Hb in E2. exists a2, L2. destruct Hfr as [Hh2 Hbl Htot Hsame _ (A & r & B & HL2 & Hr) Hlen].
    split_and!; [|done| |simpl in Hlen; lia|exists A, r, B; split; [done|lia]|].
    + rewrite (bind_done _ _ _ _ _ Es). rewrite (proj2 (Z.eqb_neq _ _)) by (unfold HSIZE in *; lia).
      unfold bind in E1. destruct (set_size (brk a) nu (a {{ brk := brk a + nu * HSIZE }})) as [[] a1'| | | |] eqn:E3; try done.
      cbn [bindp ret] in E1. injection E1 as ->. rewrite (bind_done _ _ _ _ _ E3).
      replace (hplus (brk a) 1) with (brk a + HSIZE) by (unfold hplus; lia). by rewrite (bind_done _ _ _ _ _ E2).
    + rewrite Hbl. simpl. by rewrite app_nil_r.
    + intros y Hy. pose proof (in_block_range a L y Hh Hy) as Hyr. pose proof (in_block_not_free a L y Hh Hy) as Hyf.
      rewrite Hsame, Ho1; [done|lia|lia|]. intros ->. apply Hyf. apply before_in.
  - unfold bind at 1. unfold sbrk. rewrite Ei, Z.geb_leb, (proj2 (Z.leb_le 0 _)), (proj2 (Z.leb_gt _ (limit a))) by (unfold HSIZE in *; lia).
    done.
Qed.

(** ** malloc and free *)

(** Before the first call. *)
Record fresh (a : arena) : Prop := {
  fs_freep : freep a = 0;
  fs_low : 0 < base /\ base + HSIZE <= HSIZE * lo;
  fs_brk : brk a = HSIZE * lo;
  fs_limit : brk a <= limit a < HSIZE * 2 ^ 32;
}.

Definition uheap (a : arena) (L : list tile) : Prop := heap lo a L \/ (L = [] /\ fresh a).

Definition start_list : M arena Z :=
  bind (gets freep) (fun f =>
  if f =? 0 then
    bind (set_ptr base base) (fun _ => bind (set_freep base) (fun _ => bind (set_size base 0) (fun _ => ret base)))
  else ret f).

Lemma start_spec a L :
  uheap a L -> exists a0, start_list a = Done (freep a0) a0 /\ heap lo a0 L /\ brk a0 = brk a /\ limit a0 = limit a /\
    (forall y, in_block L y -> hdrs a0 y = hdrs a y).
Proof.
  intros [Hh|[-> [Hf Hl Hb Hlim]]].
  - exists a. split_and!; try done. unfold start_list, bind. cbn [gets bindp].
    assert (freep a <> 0) as Hf0; [|by rewrite (proj2 (Z.eqb_neq _ _))].
    pose proof (hp_freep _ _ _ Hh) as Hf. pose proof (hp_low _ _ _ Hh) as Hl.
    apply elem_of_cons in Hf as [->|Hf]; [lia|].
    apply (frees_range _ _ _ _ (hp_sized _ _ _ Hh)) in Hf. unfold HSIZE in *. lia.
  - destruct (set_ptr_eq base base a) as (hd1 & E1 & Ho1 & Hp1 & _).
    set (a1 := (a {{ hdrs := hd1 }}) {{ freep := base }}).
    destruct (set_size_eq base 0 a1) as (hd2 & E2 & Ho2 & Hp2 & Hz2). change (hdrs a1) with hd1 in *.
    exists (a1 {{ hdrs := hd2 }}). split_and!; [| |done|done|].
    + unfold start_list. unfold bind at 1. cbn [gets bindp]. rewrite Hf. cbn [Z.eqb].
      rewrite (bind_done _ _ _ _ _ E1). unfold bind at 1, set_freep, modify. cbn [bindp].
      change ((a {{ hdrs := hd1 }}) {{ freep := base }}) with a1. by rewrite (bind_done _ _ _ _ _ E2).
    + split; try done.
      * change (h_ptr (hd2 base) = base). congruence.
      * change (brk a = HSIZE * (lo + 0)). by rewrite Hb, Z.add_0_r.
      * by left.
    + intros y (q & m & Hq & _). by apply elem_of_nil in Hq.
Qed.

(** The step of malloc() that finds a block. *)
Lemma malloc_found steps a L n prev q k :
  heap lo a L -> prev ∈ base :: frees lo L -> q ∈ base :: frees lo L -> h_ptr (hdrs a prev) = q ->
  1 <= n <= h_size (hdrs a q) ->
  exists A r B x a' L', loop (S k) (malloc_step steps n) (prev, q) a = Done (x + HSIZE) a' /\
    L = A ++ (true, r) :: B /\ carved a A r B n x a' L'.
Proof.
  intros Hh Hp Hq Hpq Hn. destruct (fitting_tile a L prev q n Hh Hp Hq Hpq Hn) as (A & r & B & -> & Hqa & Hr & ->).
  destruct (carve_spec a A r B n Hh) as (x & a' & L' & E & Hc); [lia|].
  exists A, r, B, x, a', L'. split_and!; [|done|done]. apply loop_break. unfold malloc_step.
  unfold bind at 1. cbn [hdr gets bindp]. rewrite Z.geb_leb, (proj2 (Z.leb_le _ _)) by lia. by rewrite Hqa.
Qed.

(** One round of the loop from [freep]: a block is found, or [freep] is reached
    again. *)
Lemma first_round steps a L n k :
  heap lo a L -> 1 <= n -> (length L + 1 < k)%nat ->
  (exists A r B x a' L', loop k (malloc_step steps n) (freep a, h_ptr (hdrs a (freep a))) a = Done (x + HSIZE) a' /\
     L = A ++ (true, r) :: B /\ carved a A r B n x a' L') \/
  ((forall q, q ∈ base :: frees lo L -> h_size (hdrs a q) < n) /\
   exists prev k', (k - length L <= S k')%nat /\
     loop k (malloc_step steps n) (freep a, h_ptr (hdrs a (freep a))) a = loop (S k') (malloc_step steps n) (prev, freep a) a).
Proof.
  intros Hh Hn Hk. destruct (circle a L Hh) as (v & Hv & Hperm).
  assert (freep a ∉ v) as Hfv.
  { pose proof (nodes_nodup a L Hh) as Hnd. rewrite <- Hperm in Hnd. by apply NoDup_cons in Hnd as [? _]. }
  assert (length v <= length L)%nat as Hlv.
  { apply Permutation_length in Hperm. simpl in Hperm. pose proof (frees_length lo L). lia. }
  assert (forall q, q ∈ v ++ [freep a] <-> q ∈ base :: frees lo L) as Hin.
  { intros q. rewrite <- Hperm. set_solver. }
  destruct (scan steps n a v (freep a) k Hv Hfv) as [(prev & q & k' & Hp & Hq & Hpq & Hs & E)|(Hall & prev & k' & Hk' & E)]; [lia|left|right].
  - rewrite E. apply (malloc_found steps a L n prev q k' Hh); [by rewrite <- Hperm|by apply Hin|done|lia].
  - split; [intros q Hq; by apply Hall, Hin|]. exists prev, k'. split; [lia|done].
Qed.

(** At [freep] without a block: malloc() gets more memory and finds it, or
    returns the null pointer. *)
Lemma more_memory steps a L n prev k :
  heap lo a L -> 1 <= n -> n * HSIZE < 2 ^ 31 -> h_size (hdrs a (freep a)) < n ->
  (length L + 1 < steps)%nat -> (length L + 2 < k)%nat ->
  (limit a < brk a + HSIZE * Z.max n 4096 /\ loop (S k) (malloc_step steps n) (prev, freep a) a = Done 0 a) \/
  exists A r B x a1 a' L', loop (S k) (malloc_step steps n) (prev, freep a) a = Done (x + HSIZE) a' /\
    heap lo a1 (A ++ (true, r) :: B) /\ blocks lo (A ++ (true, r) :: B) = blocks lo L /\
    carved a1 A r B n x a' L' /\ (forall y, in_block L y -> hdrs a1 y = hdrs a y).
Proof.
  intros Hh Hn Hn31 Hsz Hst Hk.
  assert (forall p1 a1, morecore steps n a = Done p1 a1 ->
    malloc_step steps n (prev, freep a) a = Done (if p1 =? 0 then inr 0 else inl (p1, h_ptr (hdrs a1 p1))) a1) as Hstep.
  { intros p1 a1 E. unfold malloc_step. unfold bind at 1. cbn [hdr gets bindp].
    rewrite Z.geb_leb, (proj2 (Z.leb_gt _ _)) by lia. unfold bind at 1. cbn [gets bindp].
    rewrite Z.eqb_refl, (bind_done _ _ _ _ _ E). by destruct (p1 =? 0). }
  destruct (morecore_spec steps a L n Hh Hn Hn31 Hst) as [[Hl E]|(a1 & L1 & E & Hh1 & Hbl & Hlen & Hfit & Hs)].
  - left. split; [done|]. apply loop_break. by rewrite (Hstep _ _ E).
  - right. assert (freep a1 <> 0) as Hf.
    { pose proof (hp_freep _ _ _ Hh1) as Hin. pose proof (hp_low _ _ _ Hh1).
      apply elem_of_cons in Hin as [->|Hin]; [lia|].
      apply (frees_range _ _ _ _ (hp_sized _ _ _ Hh1)) in Hin. unfold HSIZE in *. lia. }
    apply Hstep in E. rewrite (proj2 (Z.eqb_neq _ _) Hf) in E. rewrite (loop_continue _ _ _ _ _ _ E).
    destruct (first_round steps a1 L1 n k Hh1 Hn) as
      [(A & r & B & x & a' & L' & E' & HL & Hc)|(Hnone & _)]; [lia|..].
    + exists A, r, B, x, a1, a', L'. by subst L1.
    + exfalso. destruct Hfit as (A & r & B & -> & Hr).
      pose proof (hp_sized _ _ _ Hh1) as (_ & _ & Hz & _)%sized_app.
      specialize (Hnone (HSIZE * (lo + tot A))). rewrite Hz, frees_app in Hnone. cbn [frees app] in Hnone.
      assert (r < n); [apply Hnone; set_solver|lia].
Qed.

(** Two blocks without a common byte, headers included. *)
Definition apart (b c : Z * Z) : Prop :=
  fst b + HSIZE * (snd b - 1) <= fst c - HSIZE \/ fst c + HSIZE * (snd c - 1) <= fst b - HSIZE.

(** What malloc() of [n] units promises. *)
Record allocated (a : arena) (L : list tile) (n p : Z) (a' : arena) (L' : list tile) : Prop := {
  al_heap : heap lo a' L';
  al_new : exists l1 l2, blocks lo L = l1 ++ l2 /\ blocks lo L' = l1 ++ (p, n) :: l2;
  al_apart : forall b, b ∈ blocks lo L -> apart (p, n) b;
  al_inside : HSIZE * lo <= p - HSIZE /\ p + HSIZE * (n - 1) <= brk a';
  al_same : forall y, in_block L y -> hdrs a' y = hdrs a y;
}.

Lemma carved_allocated a0 a A r B n x a' L' L :
  heap lo a (A ++ (true, r) :: B) -> carved a A r B n x a' L' -> 1 <= n -> blocks lo (A ++ (true, r) :: B) = blocks lo L ->
  (forall y, in_block L y -> hdrs a y = hdrs a0 y) -> allocated a0 L n (x + HSIZE) a' L'.
Proof.
  intros Hh [Hh' Hbl Hr Hs] Hn HL H0. pose proof Hbl as (L1 & L2 & -> & Hx & Hb1 & Hb2)%blocks_split.
  rewrite blocks_app in HL. cbn [blocks app] in HL.
  pose proof (hp_sized _ _ _ Hh') as HsL. split.
  - done.
  - rewrite <- HL. eauto.
  - intros [q m] Hb. rewrite <- HL, <- Hb1, <- Hb2 in Hb. unfold apart. cbn [fst snd].
    pose proof (blocks_apart _ _ _ _ _ _ _ HsL Hb). unfold HSIZE in *. lia.
  - assert ((x + HSIZE, n) ∈ blocks lo (L1 ++ (false, n) :: L2)) as Hin by (rewrite Hbl; set_solver).
    pose proof (blocks_range _ _ _ _ _ HsL Hin) as (? & ? & _). rewrite (hp_brk _ _ _ Hh'). unfold HSIZE in *. lia.
  - intros y Hy. assert (in_block (A ++ (true, r) :: B) y) as Hy'.
    { destruct Hy as (q & m & Hq & Hyq). exists q, m. rewrite blocks_app. cbn [blocks app]. by rewrite HL. }
    rewrite Hs; [by apply H0| |by apply (in_block_tile a A r B)].
    intros ->. apply (in_block_not_free _ _ _ Hh Hy'). rewrite frees_app, app_comm_cons.
    apply elem_of_app. left. apply before_in.
Qed.

(** C7: malloc() of [nbytes], fewer than 2^31 - 64 (for a larger one the size that sbrk()
    gets, an int, can be negative), ends: a fuel of two more steps than the heap
    has blocks is enough.  With the heap in order (or unused) it returns
    a block of at least [nbytes] bytes inside the program's memory that shares no
    byte, headers included, with any block allocated before, and nothing in those
    blocks has changed; or it returns the null pointer, because the system would
    not give the program as much memory as it asked for, and no block has
    changed.  The heap is in order afterwards, with the new block as the only
    new one. *)
Theorem malloc_correct steps a L nbytes :
  uheap a L -> 0 <= nbytes < 2 ^ 31 - 64 -> (length L + 2 < steps)%nat ->
  let n := (nbytes + HSIZE - 1) / HSIZE + 1 in
  nbytes <= HSIZE * (n - 1) /\
  exists p a' L', malloc steps nbytes a = Done p a' /\
    (allocated a L n p a' L' \/
     (p = 0 /\ uheap a' L /\ limit a < brk a + HSIZE * Z.max n 4096 /\ forall y, in_block L y -> hdrs a' y = hdrs a y)).
Proof.
  intros Hu Hnb Hst n. assert (nbytes <= HSIZE * (n - 1) < nbytes + HSIZE) as Hn by (unfold n, HSIZE; zdiv).
  split; [lia|]. assert (u32 n = n) as Hn32 by (apply u32_small; unfold HSIZE in *; lia).
  destruct (start_spec a L Hu) as (a0 & E0 & Hh & Hb0 & Hl0 & Hs0).
  assert (malloc steps nbytes a = loop (steps + steps) (malloc_step steps n) (freep a0, h_ptr (hdrs a0 (freep a0))) a0) as Em.
  { unfold malloc. fold n. rewrite Hn32.
    change (bind start_list (fun prevp => bind (hdr prevp) (fun h => loop (steps + steps) (malloc_step steps n) (prevp, h_ptr h))) a =
      loop (steps + steps) (malloc_step steps n) (freep a0, h_ptr (hdrs a0 (freep a0))) a0).
    by rewrite (bind_done _ _ _ _ _ E0). }
  rewrite Em. destruct (first_round steps a0 L n (steps + steps) Hh) as
    [(A & r & B & x & a' & L' & E & HL & Hc)|(Hnone & prev & k & Hk & E)]; [unfold HSIZE in *; lia|lia|..]; rewrite E.
  - exists (x + HSIZE), a', L'. split; [done|left]. subst L. by apply (carved_allocated a a0 A r B n x a' L' _ Hh Hc); [unfold HSIZE in *; lia|..].
  - destruct (more_memory steps a0 L n prev k Hh) as [[Hl E1]|(A & r & B & x & a1 & a' & L' & E1 & Hh1 & Hbl & Hc & Hs1)];
      [unfold HSIZE in *; lia|unfold HSIZE in *; lia|by apply Hnone, (hp_freep _ _ _ Hh)|lia|lia|..]; rewrite E1.
    + exists 0, a0. exists L. split; [done|]. right. split_and!; [done|by left|by rewrite <- Hb0, <- Hl0|done].
    + exists (x + HSIZE), a', L'. split; [done|left].
      apply (carved_allocated a a1 A r B n x a' L' _ Hh1 Hc); [unfold HSIZE in *; lia|done|].
      intros y Hy. rewrite Hs1 by done. by apply Hs0.
Qed.

Lemma sized_client hd hd' u L :
  (forall y, HSIZE * u <= y -> h_size (hd' y) <> h_size (hd y) ->
     exists q m, (q, m) ∈ blocks u L /\ q <= y < q - HSIZE + HSIZE * m) ->
  sized hd u L -> sized hd' u L.
Proof.
  revert u. induction L as [|[f t] L IH]; intros u Hw; [done|]. intros (Ht & Hz & Hs). cbn [sized blocks] in *.
  split; [done|]. split.
  - destruct (decide (h_size (hd' (HSIZE * u)) = h_size (hd (HSIZE * u)))) as [->|Hne]; [done|]. exfalso.
    destruct (Hw (HSIZE * u) ltac:(lia) Hne) as (q & m & Hq & Hr). apply elem_of_app in Hq as [Hq|Hq].
    + destruct f; [by apply elem_of_nil in Hq|]. apply list_elem_of_singleton in Hq as [= -> ->]. unfold HSIZE in *. lia.
    + apply (blocks_range _ _ _ _ _ Hs) in Hq. unfold HSIZE in *. lia.
  - apply IH; [|done]. intros y Hy Hne. destruct (Hw y ltac:(unfold HSIZE in *; lia) Hne) as (q & m & Hq & Hr).
    apply elem_of_app in Hq as [Hq|Hq]; [|eauto]. exfalso.
    destruct f; [by apply elem_of_nil in Hq|]. apply list_elem_of_singleton in Hq as [= -> ->]. unfold HSIZE in *. lia.
Qed.

(** What a program writes into its blocks, behind their headers, does not
    disturb the heap. *)
Lemma heap_client a L hd :
  heap lo a L ->
  (forall y, hd y <> hdrs a y -> exists q m, (q, m) ∈ blocks lo L /\ q <= y < q - HSIZE + HSIZE * m) ->
  heap lo (a {{ hdrs := hd }}) L.
Proof.
  intros Hh Hw. assert (forall y, (y ∈ base :: frees lo L) -> h_ptr (hd y) = h_ptr (hdrs a y) /\ h_size (hd y) = h_size (hdrs a y)) as Hf.
  { intros y Hy. assert (~ in_block L y) as Hn by (intros Hb; by apply (in_block_not_free a L y)).
    destruct (decide (h_ptr (hd y) = h_ptr (hdrs a y) /\ h_size (hd y) = h_size (hdrs a y))) as [|Hne]; [done|].
    exfalso. destruct (Hw y) as (q & m & Hq & Hr); [by intros E; apply Hne; rewrite E|].
    apply Hn. exists q, m. unfold HSIZE in *. split; [done|lia]. }
  destruct Hh as [Hs Hc Hb0 Hl Hb Hfp Hco Hlim]. split; try done.
  - apply (sized_client (hdrs a)); [|done]. intros y _ Hy. apply Hw. intros E. apply Hy. by f_equal.
  - apply (chain_ext (hdrs a)); [|done]. intros x Hx. by apply Hf.
  - change (h_size (hd base) = 0). rewrite <- Hb0. apply Hf. by left.
Qed.

Lemma all_free u L f : blocks u L = [] -> coalesced f L -> L = [] \/ exists s, L = [(true, s)].
Proof.
  destruct L as [|[g s] [|[k t] L]]; simpl; [by left|destruct g; [right; eauto|done]|].
  destruct g, k; try done. intros _ (_ & Hc & _). by destruct Hc.
Qed.

(** free() of an allocated block ends and takes exactly this block off the
    allocated ones; the others keep their places and their contents.  Free
    blocks that touch are joined, so when nothing is allocated any more the heap
    is one free block again. *)
Theorem free_correct steps a L l1 p n l2 :
  heap lo a L -> blocks lo L = l1 ++ (p, n) :: l2 -> (length L < steps)%nat ->
  exists a' L', free steps p a = Done tt a' /\ heap lo a' L' /\ blocks lo L' = l1 ++ l2 /\
    brk a' = brk a /\ (forall y, in_block L' y -> hdrs a' y = hdrs a y) /\
    (l1 ++ l2 = [] -> L' = [(true, tot L)]).
Proof.
  intros Hh Hb Hst. destruct (blocks_split _ _ _ _ _ _ Hb) as (L1 & L2 & HL & Hp & H1 & H2). subst L.
  destruct (free_spec lo a L1 L2 n Hh steps) as (a' & L' & E & [Hh' Hbl Htot Hsame [Hbr _] Hfit Hlen]).
  { rewrite length_app in Hst. simpl in Hst. unfold tile in *. lia. }
  replace (HSIZE * (lo + tot L1) + HSIZE) with p in E by (unfold HSIZE in *; lia).
  exists a', L'. rewrite Hbl, H1, H2. split_and!; [done|done|done|done| |].
  - intros y (q & m & Hq & Hy). rewrite Hbl in Hq.
    pose proof (blocks_apart _ _ _ _ _ _ _ (hp_sized _ _ _ Hh) Hq) as Hap.
    assert (in_block (L1 ++ (false, n) :: L2) y) as Hy'.
    { exists q, m. split; [|done]. rewrite blocks_app. cbn [blocks]. set_solver. }
    apply Hsame.
    + pose proof (hp_sized _ _ _ Hh) as (_ & Hn & _)%sized_app. unfold HSIZE in *. lia.
    + intros ->. apply (in_block_not_free _ _ _ Hh Hy'). rewrite frees_app, app_comm_cons.
      apply elem_of_app. left. apply before_in.
  - intros Hno. destruct (all_free lo L' false) as [->|[t ->]].
    + by rewrite Hbl, H1, H2.
    + apply Hh'.
    + destruct Hfit as (A & r & B & Heq & _). by destruct A.
    + rewrite tot_app. simpl in *. do 2 f_equal. lia.
Qed.
End malloc.

(** ** A concrete heap *)

Section Demo.
#[local] Instance base16 : Base := 16.

(** The program's memory ends at 4096 and may grow to 2^20 bytes; what is behind
    is whatever was there. *)
Definition new_arena : arena := Arena (fun _ => Header 77 99) 0 4096 (2 ^ 20).

Lemma new_arena_fresh : uheap 256 new_arena [].
Proof. right. split; [done|]. split; [done|split; vm_compute; congruence|done|by split]. Qed.

(** The first malloc(100), of 8 units: it makes a block of 4096 units and takes
    its tail. *)
Lemma malloc_correct_witness :
  exists p a' L', malloc 10 100 new_arena = Done p a' /\ allocated 256 new_arena [] 8 p a' L' /\ p = 69520.
Proof.
  destruct (malloc_correct 256 10 new_arena [] 100 new_arena_fresh) as (_ & p & a' & L' & E & Hor);
    [lia|simpl; lia|].
  exists p, a', L'. split; [exact E|].
  assert (p = 69520) as Hp by (vm_compute in E; by injection E as <- _).
  split; [|done]. destruct Hor as [Ha|(H0 & _)]; [exact Ha|lia].
Defined.

(** One allocated block of 2 units behind 3 free ones. *)
Definition two_tiles : arena :=
  Arena (fun p => if p =? 16 then Header 4096 0 else if p =? 4096 then Header 16 3 else Header 0 2) 16 4176 (2 ^ 20).

Lemma two_tiles_heap : heap 256 two_tiles [(true, 3); (false, 2)].
Proof.
  split; try done.
  - by left.
  - split; [by intros [? _]|]. split; [by intros [_ ?]|done].
Qed.

Lemma free_correct_witness :
  exists a' L', free 10 4160 two_tiles = Done tt a' /\ heap 256 a' L' /\ L' = [(true, 5)].
Proof.
  destruct (free_correct 256 10 two_tiles [(true, 3); (false, 2)] [] 4160 2 [] two_tiles_heap)
    as (a' & L' & E & Hh & _ & _ & _ & Hone); [reflexivity|simpl; lia|].
  exists a', L'. split; [exact E|]. split; [exact Hh|]. exact (Hone eq_refl).
Defined.

(** A request of 2^31 bytes is not out of memory: sbrk(int) gets a negative
    number, leaves the size alone and succeeds, and malloc() returns memory the
    program does not have. *)
Lemma malloc_huge :
  match malloc 10 (2 ^ 31) new_arena with
  | Done p a' => p <> 0 /\ brk a' = 4096 /\ brk a' < p
  | _ => False
  end.
Proof. vm_compute. split; [congruence|split; congruence]. Qed.
End Demo.
